(* ===== verification/_CoqProject ===== *)
-Q . S2P
Prelude.v
Types.v
Bytes.v
Links.v
PodList.v
IntrusiveList.v
ListTheorems.v
Buddy.v
BuddyTheorems.v
Pmm.v
Kmem.v
KmemTheorems.v
Kmalloc.v
AvlTree.v
HandleTable.v
HandleTheorems.v
Scheduler.v
SchedInvariant.v
SchedOps.v
SchedTheorems.v
Paging.v
PageTables.v
PageOps.v
PagingInit.v
PagingTheorems.v
PageRefs.v
PageRefInv.v
PageRefTheorems.v
Fpage.v
AddressSpace.v
AddressSpaceInv.v
AddressSpaceOps.v
AddressSpaceTheorems.v
Ext2.v
Ext2Inv.v
Ext2Example.v
Ext2Theorems.v
Vnode.v
Ext2Vnode.v
Ext2Dir.v
Ext2File.v
Ext2FileTheorems.v
Ext2DirTheorems.v
AtaDevices.v
Devfs.v
Vfs.v
Ext2Nodes.v
VfsTheorems.v
VfsFile.v
DeviceTheorems.v
Message.v
Ipc.v
IpcTheorems.v
Spinlock.v
Text.v
Rtc.v
UserHeap.v
Elf.v
ElfTheorems.v
UserStack.v
Task.v
TaskTheorems.v
