(* ===== verification/Prelude.v ===== *)
(** * Project Dionysus: a verification library

    Dionysus is a 64-bit kernel written in C++: a buddy allocator and a slab
    allocator hand out memory, page tables and address spaces map it, threads
    are scheduled first come first served and wait on wait queues, jobs hold
    processes and processes threads, handles name objects, and an ext2 file
    system behind a virtual file system keeps files on AHCI disks.  This library
    translates that code into executable definitions, one file per component,
    and proves what each component does.

    ** How the code is modelled

    Code that changes memory is a function of type [ST S A]: it takes a state
    and gives a result with the new state, or [None] where the kernel stops (a
    failed [KDEBUG_ASSERT], a panic, taking a spin lock the processor already
    holds) or accesses memory that is not there.  A theorem that states
    [= Some (x, s')] therefore includes that the code neither panics nor uses a
    wild pointer.  Error codes are values: [-ERROR_X] is [Err ERROR_X].  Machine
    words are integers reduced modulo their width where they can overflow
    ([wrap64], [+w], [-w]).  Pointers are integers; objects are entries of finite
    maps under their address, so that sharing is visible.  Disk structures are
    lists of bytes ([Bytes]) and fields are read and written at their offsets.
    Code outside of the repository, and components below the one at hand, are
    type classes with laws: [PageProvider] (pages for the slab allocator,
    implemented by the buddy allocator), [TableProvider] and [FrameProvider]
    (page tables and frames), [BlockDevice] (a disk for ext2, implemented by a
    partition), [AhciPort] (a drive), [NodeStore] and [VnodeMethods] (nodes for
    the virtual file system, implemented by ext2).  Each class has an instance,
    so none of the theorems about it is empty.

    ** Files

    - [Prelude], [Types], [Bytes], [Links]: the state monad, machine arithmetic,
      error codes and the address map ([system/types.h], [error.hpp], [mmu.h],
      [memlayout.h]), buffers, and rings of linked cells.
    - [PodList], [IntrusiveList], [ListTheorems]: the two lists of
      [kbl/data/pod_list.h] and [list.hpp], cell by cell, with the locks and
      the deleter.  The intrusive list refines sequences, and [merge] sorts.
    - [Buddy], [BuddyTheorems], [Pmm]: [memory/pmm/buddy_provider.cc].  The free
      blocks are disjoint and aligned and no page is lost over any sequence of
      allocations and frees; the boot-time set-up is safe.
    - [Kmem], [KmemTheorems], [Kmalloc]: [kmem.cc], [kmalloc.cc] over any page
      provider.  Objects handed out are disjoint and stay allocated until
      they are freed.
    - [AvlTree]: [kbl/data/avl_tree.hpp]; every sequence of operations keeps a
      balanced search tree.
    - [HandleTable], [HandleTheorems]: [kern/object/], [name.hpp].  A handle
      that is added resolves to its entry; how long a table lasts; the counts
      that duplicates miss.
    - [Scheduler], [SchedInvariant], [SchedOps], [SchedTheorems]:
      [kern/task/scheduler/], [thread.cc], [wait_queue.cc], [semaphore.cc] and
      timers.  Every operation keeps each thread in exactly one place; a queued
      thread comes to run; semaphores wake in order.
    - [Paging], [PageTables], [PageOps], [PagingInit], [PagingTheorems]:
      [vmm.cc], [paging.cc].  A mapping changes one page of one space only; the
      boot-time direct map is complete.
    - [PageRefs], [PageRefInv], [PageRefTheorems]: [pmm.cc].  The reference count
      of a page is the number of its mappings.
    - [Fpage], [AddressSpace], [AddressSpaceInv], [AddressSpaceOps],
      [AddressSpaceTheorems]: [fpage.hpp], [address_space.cc], [page_fault.cc].
      Segments stay sorted and disjoint; what [map], [unmap] and a page fault
      do in every case.
    - [Ext2], [Ext2Inv], [Ext2Example], [Ext2Theorems]: blocks and inodes of
      [kern/fs/ext2/]; [Ext2Vnode], [Ext2Dir], [Ext2DirTheorems]: directories;
      [Ext2File], [Ext2FileTheorems]: files.  What is written is what is read,
      at any offset, and an inserted name is found.
    - [Vnode], [Vfs], [Ext2Nodes], [VfsTheorems], [VfsFile]: [kern/fs/vfs/] and
      its implementation by ext2: access checks, path lookup, and writing and
      reading a file that is opened by its name.
    - [AtaDevices], [Devfs], [DeviceTheorems]: [kern/fs/dev/]: disks, partitions
      and the nodes of devices.
    - [Message], [Ipc], [IpcTheorems]: [messages.hpp], [ipc_state.cc] and the
      system calls: building, sending and receiving messages.
    - [Spinlock]: [arch_spinlock.cc], [kbl/lock/spinlock.cc].  Over every
      interleaving of instructions at most one processor owns the lock, and a
      correct use never stops the kernel; the interrupt flag a processor
      gets back may be another's.
    - [Text]: [kern/libs/basic_io/] and its copies for programs.  What a format
      string prints; numbers are printed so that they can be read back.
    - [Rtc]: [drv/cmos/rtc.cc].  What the clock's registers become as a time
      stamp.
    - [UserHeap]: [libs/user/memory/heap.cc].  Allocating and freeing keep the
      ring of free blocks sorted, disjoint and merged.
    - [Elf], [ElfTheorems]: [kern/task/process/elf/].  What a loaded segment
      holds, and which errors are lost.
    - [UserStack]: the user stacks of [process.cc].  Why a process has one.
    - [Task], [TaskTheorems]: [job.cc], [process.cc], [job_policy.hpp].  Killing
      a job without children works, killing a tree cannot.

    ** Bounds

    Loops are structural recursions on fuel.  The fuel is computed from the
    state so that it covers every run: the number of cells of a list memory for
    walks over lists, the number of pages for loops over pages, the number of
    entries of a table, the block size for the entries of a directory (each is
    at least one byte long), the length of a path for its elements.  The
    theorems show that it suffices: they give the result, not a result in case
    there is one.  The fuel of [job_kill] bounds the depth of the tree: the
    theorem about a job without children needs four.  Where the code can loop
    forever, a theorem says so and the model runs out of fuel for every amount
    of it.

    ** Processors

    Code under [global_thread_lock] runs as a sequence of operations of any
    processors, and [Spinlock] shows that the lock excludes them.  The other
    locks are taken and released in the model where taking one twice matters;
    the memory order of the hardware is not modelled.

    ** Not modelled

    - Drivers that talk to hardware registers: AHCI command lists, APIC, ACPI
      tables, PCI, the consoles and the serial port, SIMD state.  Their effect
      is on devices the repository does not describe.
    - Assembly and code bound to the processor: boot code, the trampolines and
      context switches, traps and system call entry, segment and model-specific
      registers, loading page tables and flushing the TLB.
    - Multiboot parsing, constructors and the C++ run time, the port of newlib,
      [ktl] wrappers around the standard library: glue without state of its own.
    - The ULE scheduler class and the servers under [kern/servers/], which are
      stubs; tools that run on the build host; vendored headers.
*)

From Stdlib Require Export ZArith Lia.
From stdpp Require Export base option list gmap sets.

Declare Scope dionysus_scope.
Delimit Scope dionysus_scope with dio.
Open Scope Z_scope.
Open Scope dionysus_scope.

(** ** Machine integers *)

(** A [uint64_t]/[size_t]/[uintptr_t] result: the mathematical value reduced
    to 64 bits. *)
Definition wrap64 (z : Z) : Z := z mod 2 ^ 64.

(** The range of a 64-bit unsigned value. *)
Definition is_u64 (z : Z) : Prop := 0 <= z < 2 ^ 64.

Notation "a +w b" := (wrap64 (a + b)) (at level 50, left associativity) : dionysus_scope.
Notation "a -w b" := (wrap64 (a - b)) (at level 50, left associativity) : dionysus_scope.

Lemma wrap64_small z : is_u64 z → wrap64 z = z.
Proof. apply Z.mod_small. Qed.

Lemma wrap64_range z : is_u64 (wrap64 z).
Proof. apply Z.mod_pos_bound. lia. Qed.

(** ** A state monad with failure

    [ST S A] is a computation over states [S].  [None] is the absence of a
    defined result: an access through an invalid pointer, a failed
    [KDEBUG_ASSERT] or a panic, none of which returns to its caller. *)
Definition ST (S A : Type) : Type := S → option (A * S).

#[export] Instance ST_ret {S} : MRet (ST S) := λ A x s, Some (x, s).
#[export] Instance ST_bind {S} : MBind (ST S) := λ A B k c s,
  match c s with
  | Some (x, s') => k x s'
  | None => None
  end.

Definition st_fail {S A} : ST S A := λ _, None.
Definition st_get {S} : ST S S := λ s, Some (s, s).
Definition st_put {S} (s : S) : ST S unit := λ _, Some (tt, s).

(** [KDEBUG_ASSERT(b)]: continues when [b] holds and panics otherwise. *)
Definition kassert {S} (b : bool) : ST S unit := λ s, if b then Some (tt, s) else None.

Lemma bind_run {S A B} (c : ST S A) (k : A → ST S B) s x s' :
  c s = Some (x, s') → (c ≫= k) s = k x s'.
Proof. intros H. unfold mbind, ST_bind. by rewrite H. Qed.

Lemma bind_inv {S A B} (c : ST S A) (k : A → ST S B) s y s2 :
  (c ≫= k) s = Some (y, s2) → ∃ x s1, c s = Some (x, s1) ∧ k x s1 = Some (y, s2).
Proof. unfold mbind, ST_bind. destruct (c s) as [[x s1]|]; [eauto | done]. Qed.

Lemma bind_none {S A B} (c : ST S A) (k : A → ST S B) s : c s = None → (c ≫= k) s = None.
Proof. intros H. unfold mbind, ST_bind. by rewrite H. Qed.

Lemma ret_inv {S A} (a b : A) (s s' : S) : (mret a : ST S A) s = Some (b, s') → a = b ∧ s = s'.
Proof. by intros [= -> ->]. Qed.

Lemma seq_run {S A B C} (c : ST S A) (d : ST S B) (e : ST S C) s x s' :
  (c;; d) s = Some (x, s') → (c;; d;; e) s = e s'.
Proof. unfold mbind, ST_bind. destruct (c s) as [[y s1]|]; [|done]. by intros ->. Qed.

(** A sequence that ends where another one would go on. *)
Lemma seq4_end {S} (a b c d : ST S unit) s s' :
  (a;; b;; c;; d;; mret tt) s = Some (tt, s') → (a;; b;; c;; d) s = Some (tt, s').
Proof.
  unfold mbind, ST_bind, mret, ST_ret. destruct (a s) as [[? s1]|]; [|done].
  destruct (b s1) as [[? s2]|]; [|done]. destruct (c s2) as [[? s3]|]; [|done].
  by destruct (d s3) as [[[] s4]|].
Qed.

Lemma kassert_true {S} b (s : S) : b = true → kassert b s = Some (tt, s).
Proof. by intros ->. Qed.

(** Runs the first command of the goal with the given equation. *)
Tactic Notation "run" "with" constr(H) := erewrite bind_run; [| eapply H].

(** ** Shared facts about lists *)

Lemma filter_absent `{EqDecision A} (x : A) (l : list A) : (x ∉ l) → filter (λ y, y ≠ x) l = l.
Proof.
  induction l as [|y l IH]; intros Hl; [done|]. apply not_elem_of_cons in Hl as [??].
  rewrite filter_cons_True by done. by rewrite IH.
Qed.

Lemma last_split {A} (x : A) (l : list A) : ∃ l1 p, x :: l = l1 ++ [p].
Proof.
  destruct (exists_last (l := x :: l)) as (l1 & p & H); [done|]. eauto.
Qed.

Lemma head_split {A} (x : A) (l : list A) : ∃ n l2, l ++ [x] = n :: l2.
Proof. destruct l as [|n l]; simpl; eauto. Qed.

Lemma elem_of_removelast {A} (x : A) (l : list A) : x ∈ removelast l → x ∈ l.
Proof.
  induction l as [|y [|z l] IH]; simpl; [done| |].
  - intros []%not_elem_of_nil.
  - rewrite !elem_of_cons. intros [->|H]; [by left|]. right. apply elem_of_cons. auto using elem_of_cons.
Qed.

Lemma elem_of_tail {A} (x : A) (l : list A) : x ∈ tail l → x ∈ l.
Proof. destruct l; [done|]. simpl. by right. Qed.

Lemma NoDup_perm {A} (l k : list A) : l ≡ₚ k → NoDup l → NoDup k.
Proof. by intros ->. Qed.
