(* ===== verification/Types.v ===== *)
(** * Shared arithmetic, error codes and the address map

    [system/types.h] (rounding and logarithms), [system/error.hpp],
    [system/mmu.h] (page-table indices), [system/memlayout.h] and
    [kern/memory/vmm/address.cc] (virtual and physical addresses).  All values
    are 64-bit and unsigned unless said otherwise. *)

From S2P Require Import Prelude.

(** ** [system/types.h] *)

(** [log2(size_t)]: one more than the number of halvings.  64 steps are enough
    for a 64-bit argument. *)
Fixpoint log2_steps (fuel : nat) (n : Z) : Z :=
  match fuel with
  | O => 1
  | S fuel => if n <? 2 then 1 else 1 + log2_steps fuel (n / 2)
  end.
Definition log2 (n : Z) : Z := log2_steps 64 n.
Definition log2p1 (n : Z) : Z := log2 n + 1.

(** [__builtin_clzll] of a non-zero 64-bit value. *)
Definition clzll (x : Z) : Z := 63 - Z.log2 x.

Definition powerof2_roundup (x : Z) : Z := wrap64 (Z.shiftl 1 (64 - clzll x)).

Definition rounddown (val n : Z) : Z := val -w (val mod n).
Definition roundup (val n : Z) : Z := rounddown (val + n -w 1) n.

(** ** [system/mmu.h] *)

Definition PAGE_SIZE : Z := 2 * 1024 * 1024.
Definition PX_MASK : Z := 0x1FF.
Definition P4X (addr : Z) : Z := Z.land (Z.shiftr addr 39) PX_MASK.
Definition P3X (addr : Z) : Z := Z.land (Z.shiftr addr 30) PX_MASK.
Definition P2X (addr : Z) : Z := Z.land (Z.shiftr addr 21) PX_MASK.

(** [~x] on 64 bits. *)
Definition bnot64 (x : Z) : Z := 2 ^ 64 - 1 - x.

Definition PAGE_ROUNDUP (addr : Z) : Z := Z.land (addr +w (PAGE_SIZE - 1)) (bnot64 (PAGE_SIZE - 1)).
Definition PAGE_ROUNDDOWN (addr : Z) : Z := Z.land addr (bnot64 (PAGE_SIZE - 1)).

Definition PG_P : Z := 0x001.
Definition PG_W : Z := 0x002.
Definition PG_U : Z := 0x004.
Definition PG_PS : Z := 0x080.

(** ** [system/error.hpp] *)

Inductive error_code_values :=
  | ERROR_SUCCESS | ERROR_UNKOWN | ERROR_INVALID | ERROR_NOT_IMPL | ERROR_LOCK_STATUS
  | ERROR_UNSUPPORTED | ERROR_MEMORY_ALLOC | ERROR_REWRITE | ERROR_VMA_NOT_FOUND
  | ERROR_PAGE_NOT_PRESENT | ERROR_HARDWARE_NOT_COMPATIBLE | ERROR_TOO_MANY_PROC
  | ERROR_CANNOT_WAKEUP | ERROR_HAS_KILLED | ERROR_BUSY | ERROR_TIMEOUT | ERROR_IO
  | ERROR_OBSOLETE | ERROR_OUT_OF_BOUND | ERROR_INTERNAL | ERROR_IS_DIR | ERROR_NOT_DIR
  | ERROR_DEV_NOT_FOUND | ERROR_NO_ENTRY | ERROR_EOF | ERROR_INVALID_ACCESS
  | ERROR_SHOULD_NOT_REACH_HERE | ERROR_TOO_MANY_CALLS | ERROR_ACCESS | ERROR_NOT_EXIST
  | ERROR_ALREADY_EXIST | ERROR_NOT_FILE | ERROR_PERMISSION | ERROR_INTERNAL_INTR_KILLED
  | ERROR_INTERNAL_INTR_RETRY | ERROR_IPC_NOT_THE_SENDER | ERROR_TOO_MANY_HANDLES
  | ERROR_CODE_COUNT.

#[export] Instance error_code_values_eq : EqDecision error_code_values.
Proof. solve_decision. Defined.

(** [error_code_with_result<T>], with the code written as the code that was
    negated ([-ERROR_X] is [Err ERROR_X]). *)
Inductive result (T : Type) := Err (e : error_code_values) | Ok (v : T).
Arguments Err {T} e.
Arguments Ok {T} v.

Definition has_error {T} (ret : result T) : bool :=
  match ret with
  | Err e => negb (bool_decide (e = ERROR_SUCCESS))
  | Ok _ => false
  end.

Definition get_error_code {T} (ret : result T) : error_code_values :=
  match ret with Err e => e | Ok _ => ERROR_SUCCESS end.

(** [std::get] of the other alternative throws. *)
Definition get_result {T} (ret : result T) : option T :=
  match ret with Err _ => None | Ok v => Some v end.

(** ** [system/memlayout.h] and [address.cc] *)

Definition USER_ADDRESS_SPACE_LIMIT : Z := 0x00007fffffffffff.
Definition KERNEL_ADDRESS_SPACE_BASE : Z := 0xFFFF800000000000.
Definition VIRTUALADDR_LIMIT : Z := 0xFFFFFFFFFFFFFFFF.
Definition PHYREMAP_VIRTUALBASE : Z := 0xffff888000000000.
Definition PHYREMAP_VIRTUALEND : Z := 0xffffc87fffffffff.
Definition PHYMEMORY_SIZE : Z := PHYREMAP_VIRTUALEND - PHYREMAP_VIRTUALBASE + 1.
Definition KERNEL_VIRTUALBASE : Z := 0xFFFFFFFF80000000.
Definition KERNEL_VIRTUALEND : Z := VIRTUALADDR_LIMIT.
Definition KERNEL_SIZE : Z := KERNEL_VIRTUALEND - KERNEL_VIRTUALBASE + 1.
Definition USER_TOP : Z := 0x00007fffffffffff.

Definition VALID_KERNEL_PTR (p : Z) : bool := (KERNEL_VIRTUALBASE <=? p) && (p <=? KERNEL_VIRTUALEND).
Definition VALID_USER_PTR (p : Z) : bool := p <=? USER_TOP.
Definition VALID_KERNEL_REGION (a b : Z) : bool :=
  (KERNEL_VIRTUALBASE <? a) && (a <? b) && (b <=? KERNEL_VIRTUALEND).
Definition VALID_USER_REGION (a b : Z) : bool := (a <? b) && (b <=? USER_TOP).

(** [None] is a panic. *)
Definition V2P (x : Z) : option Z :=
  if negb (KERNEL_ADDRESS_SPACE_BASE <=? x) then None
  else if (PHYREMAP_VIRTUALBASE <=? x) && (x <=? PHYREMAP_VIRTUALEND) then
    Some (x -w PHYREMAP_VIRTUALBASE)
  else if (KERNEL_VIRTUALBASE <=? x) && (x <=? VIRTUALADDR_LIMIT) then
    Some (x -w KERNEL_VIRTUALBASE)
  else None.

Definition P2V_KERNEL (x : Z) : option Z :=
  if x <=? KERNEL_SIZE then Some (x +w KERNEL_VIRTUALBASE) else None.

Definition P2V_PHYREMAP (x : Z) : option Z :=
  if x <=? PHYMEMORY_SIZE then Some (x +w PHYREMAP_VIRTUALBASE) else None.

Definition P2V (x : Z) : option Z :=
  if x <=? KERNEL_SIZE then P2V_KERNEL x
  else if (KERNEL_SIZE <=? x) && (x <=? PHYMEMORY_SIZE) then P2V_PHYREMAP x
  else None.

Definition IO2V (x : Z) : option Z := P2V x.

(** ** Lemmas *)

Lemma lor_low a b k : 0 <= k → 0 <= b < 2 ^ k → Z.lor (Z.shiftl a k) b = a * 2 ^ k + b.
Proof.
  intros Hk Hb. rewrite <- Z.shiftl_mul_pow2 by done.
  rewrite <- Z.lxor_lor, <- Z.add_nocarry_lxor; try done.
  all: apply Z.bits_inj'; intros i Hi; rewrite Z.land_spec, Z.bits_0, Z.shiftl_spec by done.
  all: destruct (Z.lt_ge_cases i k); [by rewrite (Z.testbit_neg_r a) by lia|].
  all: rewrite (Z.testbit_eqb b), Z.div_small by (try split; [lia|..]; pose proof (Z.pow_le_mono_r 2 k i); lia).
  all: by rewrite andb_false_r.
Qed.

Lemma log2_steps_spec fuel n :
  1 <= n < 2 ^ Z.of_nat (S fuel) → log2_steps fuel n = Z.log2 n + 1.
Proof.
  revert n. induction fuel as [|fuel IH]; intros n Hn.
  - assert (n = 1) as -> by (simpl in Hn; lia). done.
  - cbn [log2_steps]. destruct (Z.ltb_spec n 2).
    + assert (n = 1) as -> by lia. done.
    + assert (2 ^ Z.of_nat (S (S fuel)) = 2 * 2 ^ Z.of_nat (S fuel)) as E.
      { rewrite (Nat2Z.inj_succ (S fuel)), Z.pow_succ_r; lia. }
      rewrite IH.
      * replace (n / 2) with (Z.shiftr n 1) by by rewrite Z.shiftr_div_pow2.
        rewrite Z.log2_shiftr by lia. pose proof (Z.log2_le_mono 2 n ltac:(lia)).
        change (Z.log2 2) with 1 in *. lia.
      * split; [apply Z.div_le_lower_bound; lia|]. apply Z.div_lt_upper_bound; lia.
Qed.

Lemma log2_spec n : 1 <= n < 2 ^ 64 → log2 n = Z.log2 n + 1.
Proof. intros Hn. apply log2_steps_spec. simpl Z.of_nat. lia. Qed.

Lemma powerof2_roundup_spec x : 1 <= x < 2 ^ 63 → powerof2_roundup x = 2 ^ (Z.log2 x + 1).
Proof.
  intros Hx. unfold powerof2_roundup, clzll. rewrite Z.shiftl_1_l.
  replace (64 - (63 - Z.log2 x)) with (Z.log2 x + 1) by lia.
  apply wrap64_small. pose proof (Z.log2_nonneg x). assert (Z.log2 x < 63) by (apply Z.log2_lt_pow2; lia).
  split; [lia|]. apply Z.pow_lt_mono_r; lia.
Qed.

Lemma rounddown_spec val n : 0 <= val < 2 ^ 64 → 0 < n → rounddown val n = n * (val / n).
Proof.
  intros Hv Hn. pose proof (Z.mod_pos_bound val n Hn). pose proof (Z.div_mod val n ltac:(lia)).
  unfold rounddown. rewrite wrap64_small; [lia|]. unfold is_u64.
  pose proof (Z.mod_le val n ltac:(lia) Hn). lia.
Qed.

Lemma roundup_spec val n :
  0 <= val → 0 < n → val + n - 1 < 2 ^ 64 →
  ∃ k, roundup val n = n * k ∧ val <= n * k < val + n.
Proof.
  intros Hv Hn Hb. unfold roundup. rewrite wrap64_small by (unfold is_u64; lia).
  exists ((val + n - 1) / n). rewrite rounddown_spec by lia. split; [done|].
  pose proof (Z.div_mod (val + n - 1) n ltac:(lia)). pose proof (Z.mod_pos_bound (val + n - 1) n Hn). lia.
Qed.

(** Clearing the low bits with a mask is rounding down. *)
Lemma land_bnot_low a k : 0 <= a < 2 ^ 64 → 0 <= k <= 64 →
  Z.land a (bnot64 (2 ^ k - 1)) = 2 ^ k * (a / 2 ^ k).
Proof.
  intros Ha Hk. unfold bnot64. replace (2 ^ 64 - 1 - (2 ^ k - 1)) with (Z.shiftl (Z.ones (64 - k)) k).
  2:{ rewrite Z.shiftl_mul_pow2, Z.ones_equiv by lia. rewrite <- Z.sub_1_r, Z.mul_sub_distr_r.
      rewrite <- Z.pow_add_r by lia. replace (64 - k + k) with 64 by lia. lia. }
  rewrite Z.mul_comm, <- Z.shiftl_mul_pow2, <- Z.shiftr_div_pow2 by lia.
  apply Z.bits_inj'. intros i Hi. rewrite Z.land_spec, !Z.shiftl_spec by lia.
  destruct (Z.ltb_spec i k).
  - rewrite (Z.testbit_neg_r _ (i - k)), (Z.testbit_neg_r (Z.shiftr a k)) by lia. apply andb_false_r.
  - rewrite Z.shiftr_spec by lia. replace (i - k + k) with i by lia.
    destruct (Z.ltb_spec i 64).
    + rewrite Z.ones_spec_low by lia. apply andb_true_r.
    + rewrite (Z.bits_above_log2 a i); [done|lia|].
      destruct (decide (a = 0)) as [->|]; [simpl; lia|]. apply Z.log2_lt_pow2; [lia|].
      eapply Z.lt_le_trans; [apply Ha|]. apply Z.pow_le_mono_r; lia.
Qed.

Lemma PAGE_SIZE_pow : PAGE_SIZE = 2 ^ 21.
Proof. reflexivity. Qed.

Lemma page_rounddown_spec a : 0 <= a < 2 ^ 64 → PAGE_ROUNDDOWN a = rounddown a PAGE_SIZE.
Proof.
  intros Ha. unfold PAGE_ROUNDDOWN. rewrite PAGE_SIZE_pow, land_bnot_low, rounddown_spec by lia. done.
Qed.

Lemma page_roundup_spec a : 0 <= a → a + PAGE_SIZE - 1 < 2 ^ 64 → PAGE_ROUNDUP a = roundup a PAGE_SIZE.
Proof.
  intros Ha Hb. unfold PAGE_ROUNDUP, roundup. rewrite PAGE_SIZE_pow in *.
  rewrite land_bnot_low; [|apply wrap64_range|lia].
  rewrite !wrap64_small by (unfold is_u64; lia). rewrite rounddown_spec by lia.
  do 2 f_equal. lia.
Qed.

(** Nine bits of an address. *)
Lemma px_spec a k : 0 <= k → Z.land (Z.shiftr a k) PX_MASK = (a / 2 ^ k) mod 512.
Proof.
  intros Hk. change PX_MASK with (Z.ones 9). by rewrite Z.land_ones, Z.shiftr_div_pow2 by lia.
Qed.

Lemma px_bounds a k : 0 <= k → 0 <= Z.land (Z.shiftr a k) PX_MASK < 512.
Proof. intros Hk. rewrite px_spec by done. by apply Z.mod_pos_bound. Qed.

(** Evaluates the comparisons of the address map. *)
Ltac unfold_layout :=
  unfold V2P, VALID_KERNEL_PTR, KERNEL_VIRTUALEND, KERNEL_ADDRESS_SPACE_BASE, PHYREMAP_VIRTUALBASE,
    PHYREMAP_VIRTUALEND, KERNEL_VIRTUALBASE, VIRTUALADDR_LIMIT in *.
Ltac split_leb :=
  repeat match goal with |- context [?a <=? ?b] => destruct (Z.leb_spec a b); try lia end; simpl.

(** ** Theorems *)

(** The mask-based [PAGE_ROUNDUP] and [PAGE_ROUNDDOWN] of a 64-bit address
    are the arithmetic [roundup] and [rounddown] to the 2 MB page size: a
    multiple of it at most one page away, on the right side. *)
Theorem page_rounding a :
  0 <= a → a + PAGE_SIZE - 1 < 2 ^ 64 →
  PAGE_ROUNDUP a = roundup a PAGE_SIZE ∧ PAGE_ROUNDDOWN a = rounddown a PAGE_SIZE ∧
  (∃ k, PAGE_ROUNDUP a = PAGE_SIZE * k ∧ a <= PAGE_SIZE * k < a + PAGE_SIZE) ∧
  (∃ k, PAGE_ROUNDDOWN a = PAGE_SIZE * k ∧ PAGE_SIZE * k <= a < PAGE_SIZE * k + PAGE_SIZE).
Proof.
  intros Ha Hb. rewrite page_roundup_spec, page_rounddown_spec by (rewrite ?PAGE_SIZE_pow in *; lia).
  split_and!; [done|done|by apply roundup_spec|].
  exists (a / PAGE_SIZE). rewrite PAGE_SIZE_pow in *. rewrite rounddown_spec by lia. split; [done|].
  pose proof (Z.div_mod a (2 ^ 21) ltac:(lia)). pose proof (Z.mod_pos_bound a (2 ^ 21) ltac:(lia)). lia.
Qed.

Lemma page_rounding_witness :
  PAGE_ROUNDUP 5000000 = roundup 5000000 PAGE_SIZE ∧ PAGE_ROUNDDOWN 5000000 = rounddown 5000000 PAGE_SIZE ∧
  (∃ k, PAGE_ROUNDUP 5000000 = PAGE_SIZE * k ∧ 5000000 <= PAGE_SIZE * k < 5000000 + PAGE_SIZE) ∧
  (∃ k, PAGE_ROUNDDOWN 5000000 = PAGE_SIZE * k ∧ PAGE_SIZE * k <= 5000000 < PAGE_SIZE * k + PAGE_SIZE).
Proof. apply (page_rounding 5000000); vm_compute; congruence. Defined.

(** Two lower-half 48-bit addresses with the same page-table indices [P4X],
    [P3X] and [P2X] lie in the same 2 MB page, and the indices with the offset
    rebuild the address. *)
Theorem page_indices_split a :
  0 <= a < 2 ^ 48 →
  a = P4X a * 2 ^ 39 + P3X a * 2 ^ 30 + P2X a * 2 ^ 21 + a mod PAGE_SIZE ∧
  (∀ b, 0 <= b < 2 ^ 48 → P4X b = P4X a → P3X b = P3X a → P2X b = P2X a →
    PAGE_ROUNDDOWN b = PAGE_ROUNDDOWN a).
Proof.
  assert (Hsplit : ∀ x, 0 <= x < 2 ^ 48 →
    x = P4X x * 2 ^ 39 + P3X x * 2 ^ 30 + P2X x * 2 ^ 21 + x mod PAGE_SIZE).
  { intros x Hx. unfold P4X, P3X, P2X. rewrite !px_spec, PAGE_SIZE_pow by lia.
    rewrite (Z.mod_small (x / 2 ^ 39)).
    2:{ split; [apply Z.div_pos; lia|]. apply Z.div_lt_upper_bound; lia. }
    replace (x / 2 ^ 39) with (x / 2 ^ 30 / 512) by by rewrite Z.div_div by lia.
    replace (x / 2 ^ 30) with (x / 2 ^ 21 / 512) by by rewrite Z.div_div by lia.
    pose proof (Z.div_mod x (2 ^ 21) ltac:(lia)). pose proof (Z.div_mod (x / 2 ^ 21) 512 ltac:(lia)).
    pose proof (Z.div_mod (x / 2 ^ 21 / 512) 512 ltac:(lia)). lia. }
  intros Ha. split; [by apply Hsplit|]. intros b Hb E4 E3 E2.
  rewrite !page_rounddown_spec by lia. unfold rounddown. f_equal.
  pose proof (Hsplit a Ha). pose proof (Hsplit b Hb). rewrite E4, E3, E2 in *. lia.
Qed.

Lemma page_indices_split_witness :
  let a := 0x7f1234567890 in
  a = P4X a * 2 ^ 39 + P3X a * 2 ^ 30 + P2X a * 2 ^ 21 + a mod PAGE_SIZE ∧
  (∀ b, 0 <= b < 2 ^ 48 → P4X b = P4X a → P3X b = P3X a → P2X b = P2X a →
    PAGE_ROUNDDOWN b = PAGE_ROUNDDOWN a).
Proof. apply (page_indices_split 0x7f1234567890). lia. Defined.

Definition phys_va (x : Z) : Z := if x <? KERNEL_SIZE then x + KERNEL_VIRTUALBASE else x + PHYREMAP_VIRTUALBASE.

Lemma P2V_value x : 0 <= x < PHYMEMORY_SIZE → x ≠ KERNEL_SIZE → P2V x = Some (phys_va x).
Proof.
  intros Hx Hne. assert (KERNEL_SIZE = 2 ^ 31) as EK by done.
  assert (PHYMEMORY_SIZE = 0x400000000000) as EP by done. rewrite EP in Hx. unfold P2V, P2V_KERNEL, P2V_PHYREMAP, phys_va.
  repeat (case_match; rewrite ?andb_true_iff, ?andb_false_iff, ?Z.leb_le, ?Z.leb_gt, ?Z.ltb_lt, ?Z.ltb_ge in *);
    try lia; f_equal; apply wrap64_small; unfold is_u64, KERNEL_VIRTUALBASE, PHYREMAP_VIRTUALBASE; lia.
Qed.

Lemma V2P_kernel v : KERNEL_VIRTUALBASE <= v < 2 ^ 64 → V2P v = Some (v - KERNEL_VIRTUALBASE).
Proof. intros Hv. unfold_layout. split_leb. f_equal. apply wrap64_small. unfold is_u64. lia. Qed.

Lemma V2P_phys_va x : 0 <= x < PHYMEMORY_SIZE → x ≠ KERNEL_SIZE → V2P (phys_va x) = Some x.
Proof.
  intros Hx Hne. assert (KERNEL_SIZE = 2 ^ 31) as EK by done.
  assert (PHYMEMORY_SIZE = 0x400000000000) as EP by done. rewrite EP in Hx. unfold phys_va.
  destruct (Z.ltb_spec x KERNEL_SIZE).
  - rewrite V2P_kernel by (unfold KERNEL_VIRTUALBASE; lia). f_equal. lia.
  - unfold_layout. split_leb. f_equal. rewrite wrap64_small by (unfold is_u64; lia). lia.
Qed.

(** [V2P] undoes [P2V] on every physical address except [KERNEL_SIZE] and
    those past the remapped range; the addresses [P2V] takes to the kernel image
    are exactly those below [KERNEL_SIZE]. *)
Theorem V2P_P2V x :
  0 <= x < PHYMEMORY_SIZE → x ≠ KERNEL_SIZE →
  ∃ v, P2V x = Some v ∧ V2P v = Some x ∧ (VALID_KERNEL_PTR v = true ↔ x < KERNEL_SIZE).
Proof.
  intros Hx Hne. exists (phys_va x). split_and!; [by apply P2V_value|by apply V2P_phys_va|].
  assert (KERNEL_SIZE = 2 ^ 31) as EK by done. assert (PHYMEMORY_SIZE = 0x400000000000) as EP by done.
  unfold phys_va. destruct (Z.ltb_spec x KERNEL_SIZE); unfold_layout; split_leb; split; (done || lia).
Qed.

Lemma V2P_P2V_witness :
  ∃ v, P2V 0x100000 = Some v ∧ V2P v = Some 0x100000 ∧ (VALID_KERNEL_PTR v = true ↔ 0x100000 < KERNEL_SIZE).
Proof. apply (V2P_P2V 0x100000); vm_compute; [split|]; congruence. Defined.

(** At the boundary [KERNEL_SIZE] (2 GB), which [P2V] treats as part of the
    kernel image, the sum wraps: the virtual address of that physical page is
    the null pointer, and [V2P] of it panics. *)
Theorem P2V_kernel_size_wraps : P2V KERNEL_SIZE = Some 0 ∧ V2P 0 = None.
Proof. by split. Qed.
