(* ===== verification/Bytes.v ===== *)
(** * Buffers of bytes and the fields of packed structures

    A buffer is the list of its bytes.  Structures read from a disk are buffers
    whose fields are little-endian values at fixed offsets; an access outside
    the buffer has no defined result. *)

From S2P Require Import Prelude.

Abbreviation buffer := (list Z).

Definition blen (b : buffer) : Z := Z.of_nat (length b).

Definition is_byte (z : Z) : Prop := 0 <= z < 256.

Definition within (off len : Z) (b : buffer) : bool := (0 <=? off) && (0 <=? len) && (off + len <=? blen b).

(** [len] bytes from [off] on, and the buffer with the bytes of [d] moved there. *)
Definition slice (off len : Z) (b : buffer) : buffer := take (Z.to_nat len) (drop (Z.to_nat off) b).
Definition patch (off : Z) (d b : buffer) : buffer :=
  take (Z.to_nat off) b ++ d ++ drop (Z.to_nat off + length d) b.

Fixpoint le_val (b : buffer) : Z := match b with [] => 0 | x :: b => x + 256 * le_val b end.
Fixpoint le_bytes (n : nat) (v : Z) : buffer := match n with O => [] | S n => v mod 256 :: le_bytes n (v / 256) end.

(** The unsigned field of [n] bytes at [off]; a stored value is reduced to [n] bytes. *)
Definition load (n : nat) (off : Z) (b : buffer) : option Z :=
  if within off (Z.of_nat n) b then Some (le_val (slice off (Z.of_nat n) b)) else None.
Definition store (n : nat) (off v : Z) (b : buffer) : option buffer :=
  if within off (Z.of_nat n) b then Some (patch off (le_bytes n v) b) else None.

(** [memmove] from and to a buffer. *)
Definition copy_out (off len : Z) (b : buffer) : option buffer := if within off len b then Some (slice off len b) else None.
Definition copy_in (off : Z) (d b : buffer) : option buffer := if within off (blen d) b then Some (patch off d b) else None.

(** ** Slices *)

Lemma within_spec off len b : within off len b = true ↔ 0 <= off ∧ 0 <= len ∧ off + len <= blen b.
Proof. unfold within. rewrite !andb_true_iff, !Z.leb_le. tauto. Qed.

Lemma slice_lookup off len b i : 0 <= off → 0 <= i < len → slice off len b !! Z.to_nat i = b !! Z.to_nat (off + i).
Proof. intros H1 H2. unfold slice. rewrite lookup_take_lt by lia. rewrite lookup_drop. f_equal. lia. Qed.

Lemma slice_length off len b : 0 <= off → 0 <= len → off + len <= blen b → blen (slice off len b) = len.
Proof. unfold slice, blen. intros. rewrite length_take, length_drop. lia. Qed.

Lemma patch_length off d b : 0 <= off → off + blen d <= blen b → blen (patch off d b) = blen b.
Proof. unfold patch, blen. intros. rewrite !length_app, length_take, length_drop. lia. Qed.

Lemma patch_lookup off d b i :
  0 <= off → off + blen d <= blen b → 0 <= i →
  patch off d b !! Z.to_nat i = if decide (off <= i < off + blen d) then d !! Z.to_nat (i - off) else b !! Z.to_nat i.
Proof.
  unfold patch, blen. intros H0 H1 Hi. destruct (decide (i < off)).
  { rewrite decide_False by lia. rewrite lookup_app_l by (rewrite length_take; lia). by rewrite lookup_take_lt by lia. }
  rewrite lookup_app_r by (rewrite length_take; lia). rewrite length_take_le by lia. case_decide.
  - rewrite lookup_app_l by lia. f_equal. lia.
  - rewrite lookup_app_r by lia. rewrite lookup_drop. f_equal. lia.
Qed.

(** Two buffers of a length with the same bytes. *)
Lemma buffer_ext (a b : buffer) : blen a = blen b → (∀ i, 0 <= i < blen a → a !! Z.to_nat i = b !! Z.to_nat i) → a = b.
Proof.
  unfold blen. intros Hl H. apply list_eq_same_length with (length b); [done|lia|]. intros i x y Hi Ha Hb.
  specialize (H (Z.of_nat i) ltac:(lia)). rewrite Nat2Z.id in H. congruence.
Qed.

Lemma slice_patch off d b : 0 <= off → off + blen d <= blen b → slice off (blen d) (patch off d b) = d.
Proof.
  intros H0 H1. assert (0 <= blen d) by (unfold blen; lia). apply buffer_ext.
  - apply slice_length; [lia..|]. by rewrite patch_length.
  - rewrite slice_length by (rewrite ?patch_length; lia). intros i Hi. rewrite slice_lookup by lia.
    rewrite patch_lookup, decide_True by lia. f_equal. lia.
Qed.

Lemma slice_patch_other off d b o n :
  0 <= off → off + blen d <= blen b → 0 <= o → 0 <= n → o + n <= blen b → o + n <= off ∨ off + blen d <= o →
  slice o n (patch off d b) = slice o n b.
Proof.
  intros H0 H1 H2 H3 H4 H5. apply buffer_ext.
  - rewrite !slice_length; rewrite ?patch_length; lia.
  - rewrite slice_length by (rewrite ?patch_length; lia). intros i Hi. rewrite !slice_lookup by lia.
    rewrite patch_lookup, decide_False by lia. done.
Qed.

(** A slice inside the patch, and one of a slice. *)
Lemma slice_patch_in off d b o n :
  0 <= off → off + blen d <= blen b → off <= o → 0 <= n → o + n <= off + blen d →
  slice o n (patch off d b) = slice (o - off) n d.
Proof.
  intros H0 H1 H2 H3 H4. apply buffer_ext.
  - rewrite !slice_length; rewrite ?patch_length; lia.
  - rewrite slice_length by (rewrite ?patch_length; lia). intros i Hi. rewrite !slice_lookup by lia.
    rewrite patch_lookup, decide_True by lia. f_equal. lia.
Qed.

Lemma slice_slice o n off len b :
  0 <= o → 0 <= n → 0 <= off → o + n <= len → off + len <= blen b → slice o n (slice off len b) = slice (off + o) n b.
Proof.
  intros. apply buffer_ext.
  - rewrite !slice_length; rewrite ?slice_length; lia.
  - rewrite slice_length by (rewrite ?slice_length; lia). intros i Hi. rewrite !slice_lookup by lia. f_equal. lia.
Qed.

(** Patching a slice is patching the whole. *)
Lemma patch_slice o d off len b :
  0 <= o → o + blen d <= len → 0 <= off → off + len <= blen b →
  patch off (patch o d (slice off len b)) b = patch (off + o) d b.
Proof.
  intros H1 H2 H3 H4. assert (0 <= blen d) by (unfold blen; lia).
  assert (blen (slice off len b) = len) as Hs by (apply slice_length; lia).
  assert (blen (patch o d (slice off len b)) = len) as Hp by (rewrite patch_length; lia).
  apply buffer_ext; [rewrite !patch_length; lia|]. rewrite patch_length by lia. intros i Hi.
  rewrite (patch_lookup off) by lia. rewrite Hp. case_decide.
  - rewrite patch_lookup by lia. rewrite patch_lookup by lia. do 2 case_decide; [|lia|lia|].
    + f_equal. lia.
    + rewrite slice_lookup by lia. f_equal. lia.
  - rewrite patch_lookup, decide_False by lia. done.
Qed.

(** The slice of a buffer patched inside it. *)
Lemma slice_patch_inside o d off len b :
  0 <= o → o + blen d <= len → 0 <= off → off + len <= blen b →
  slice off len (patch (off + o) d b) = patch o d (slice off len b).
Proof.
  intros H1 H2 H3 H4. assert (0 <= blen d) by (unfold blen; lia).
  assert (blen (slice off len b) = len) as Hs by (apply slice_length; lia).
  assert (blen (patch o d (slice off len b)) = len) as Hp by (rewrite patch_length; lia).
  rewrite <- patch_slice with (len := len) by done. rewrite <- Hp at 1. apply slice_patch; lia.
Qed.

Lemma slice_all b : slice 0 (blen b) b = b.
Proof. unfold slice, blen. rewrite Nat2Z.id, drop_0. apply take_ge. lia. Qed.

Lemma patch_all d b : blen d = blen b → patch 0 d b = d.
Proof. unfold patch, blen. intros. cbn [Z.to_nat take app]. rewrite drop_ge by lia. apply app_nil_r. Qed.

(** ** Little-endian values *)

Lemma le_bytes_length n v : length (le_bytes n v) = n.
Proof. revert v. induction n as [|n IH]; intros v; simpl; [done|]. by rewrite IH. Qed.

Lemma le_bytes_blen n v : blen (le_bytes n v) = Z.of_nat n.
Proof. unfold blen. by rewrite le_bytes_length. Qed.

Lemma le_val_bytes n v : le_val (le_bytes n v) = v mod 2 ^ (8 * Z.of_nat n).
Proof.
  revert v. induction n as [|n IH]; intros v; [by rewrite Z.mod_1_r|]. cbn [le_bytes le_val]. rewrite IH.
  replace (8 * Z.of_nat (S n)) with (8 + 8 * Z.of_nat n) by lia. rewrite Z.pow_add_r by lia. change (2 ^ 8) with 256.
  rewrite Z.rem_mul_r by lia. done.
Qed.

Lemma le_val_range b : Forall is_byte b → 0 <= le_val b < 2 ^ (8 * blen b).
Proof.
  unfold blen. induction 1 as [|x b Hx _ IH]; [done|]. cbn [le_val length]. unfold is_byte in Hx.
  replace (8 * Z.of_nat (S (length b))) with (8 + 8 * Z.of_nat (length b)) by lia. rewrite Z.pow_add_r by lia. change (2 ^ 8) with 256. lia.
Qed.

Lemma le_bytes_val b : Forall is_byte b → le_bytes (length b) (le_val b) = b.
Proof.
  induction 1 as [|x b Hx _ IH]; [done|]. cbn [length le_bytes le_val]. unfold is_byte in Hx.
  rewrite Z.mul_comm, Z.mod_add, Z.div_add, Z.mod_small, Z.div_small, Z.add_0_l by lia. by rewrite IH.
Qed.

Lemma le_bytes_bytes n v : Forall is_byte (le_bytes n v).
Proof. revert v. induction n as [|n IH]; intros v; constructor; [apply Z.mod_pos_bound; lia|apply IH]. Qed.

(** ** Fields *)

Lemma load_some n off b : within off (Z.of_nat n) b = true → load n off b = Some (le_val (slice off (Z.of_nat n) b)).
Proof. unfold load. by intros ->. Qed.

Lemma store_some n off v b : within off (Z.of_nat n) b = true → store n off v b = Some (patch off (le_bytes n v) b).
Proof. unfold store. by intros ->. Qed.

Lemma store_length n off v b b' : store n off v b = Some b' → blen b' = blen b.
Proof.
  unfold store. destruct (within _ _ _) eqn:H; [|done]. intros [= <-]. apply within_spec in H.
  apply patch_length; rewrite ?le_bytes_blen; lia.
Qed.

Lemma load_store n off v b b' : store n off v b = Some b' → load n off b' = Some (v mod 2 ^ (8 * Z.of_nat n)).
Proof.
  unfold store. destruct (within _ _ _) eqn:H; [|done]. intros [= <-]. pose proof H as (H0 & _ & H1)%within_spec.
  rewrite load_some.
  - rewrite <- (le_bytes_blen n v) at 1. rewrite slice_patch by (rewrite ?le_bytes_blen; lia). by rewrite le_val_bytes.
  - apply within_spec. rewrite patch_length; rewrite ?le_bytes_blen; lia.
Qed.

Lemma load_store_other n off v b b' m o :
  store n off v b = Some b' → o + Z.of_nat m <= off ∨ off + Z.of_nat n <= o → load m o b' = load m o b.
Proof.
  intros Hs Hd. pose proof (store_length _ _ _ _ _ Hs) as Hl. unfold load, within. rewrite Hl. fold (within o (Z.of_nat m) b).
  destruct (within o (Z.of_nat m) b) eqn:Hw; [|done]. apply within_spec in Hw. unfold store in Hs.
  destruct (within off _ b) eqn:H; [|done]. injection Hs as <-. apply within_spec in H.
  rewrite slice_patch_other; rewrite ?le_bytes_blen; lia || done.
Qed.

Lemma copy_in_some off d b : within off (blen d) b = true → copy_in off d b = Some (patch off d b).
Proof. unfold copy_in. by intros ->. Qed.

Lemma copy_out_some off len b : within off len b = true → copy_out off len b = Some (slice off len b).
Proof. unfold copy_out. by intros ->. Qed.

(** Patching what is there already. *)
Lemma patch_same off d b : 0 <= off → off + blen d <= blen b → slice off (blen d) b = d → patch off d b = b.
Proof.
  intros H0 H1 Hs. assert (0 <= blen d) by (unfold blen; lia). apply buffer_ext; [by rewrite patch_length|].
  rewrite patch_length by lia. intros i Hi. rewrite patch_lookup by lia. case_decide; [|done].
  rewrite <- Hs, slice_lookup by lia. f_equal. lia.
Qed.

(** Consecutive slices and patches. *)
Lemma slice_app off m n b : 0 <= off → 0 <= m → 0 <= n → off + m + n <= blen b → slice off (m + n) b = slice off m b ++ slice (off + m) n b.
Proof.
  intros. apply buffer_ext.
  - unfold blen at 2. rewrite length_app. pose proof (slice_length off m b). pose proof (slice_length (off + m) n b).
    rewrite slice_length by lia. unfold blen in *. lia.
  - rewrite slice_length by lia. intros i Hi. rewrite slice_lookup by lia. destruct (Z.lt_ge_cases i m).
    + rewrite lookup_app_l by (pose proof (slice_length off m b); unfold blen in *; lia). by rewrite slice_lookup by lia.
    + pose proof (slice_length off m b ltac:(lia) ltac:(lia) ltac:(lia)) as Hl. unfold blen in Hl.
      rewrite lookup_app_r by lia. replace (Z.to_nat i - length (slice off m b))%nat with (Z.to_nat (i - m)) by lia.
      rewrite slice_lookup by lia. f_equal. lia.
Qed.

Lemma blen_app a b : blen (a ++ b) = blen a + blen b.
Proof. unfold blen. rewrite length_app. lia. Qed.

Lemma patch_app off a b f : 0 <= off → off + blen a + blen b <= blen f → patch (off + blen a) b (patch off a f) = patch off (a ++ b) f.
Proof.
  intros H0 H1. assert (0 <= blen a ∧ 0 <= blen b) as (Ha & Hb) by (unfold blen; lia).
  assert (blen (patch off a f) = blen f) as Hp by (apply patch_length; lia).
  apply buffer_ext; [rewrite !patch_length; rewrite ?blen_app; lia|]. rewrite patch_length by lia. rewrite Hp. intros i Hi.
  rewrite patch_lookup by lia. rewrite (patch_lookup off (a ++ b)) by (rewrite ?blen_app; lia). rewrite blen_app. do 2 case_decide; try lia.
  - rewrite lookup_app_r by (unfold blen in *; lia). f_equal. unfold blen in *. lia.
  - rewrite patch_lookup, decide_True by lia. by rewrite lookup_app_l by (unfold blen in *; lia).
  - by rewrite patch_lookup, decide_False by lia.
Qed.

Lemma patch_nil off b : 0 <= off <= blen b → patch off [] b = b.
Proof. intros H. apply patch_same; [lia|unfold blen in *; cbn; lia|done]. Qed.

Lemma slice_bytes off len b : Forall is_byte b → Forall is_byte (slice off len b).
Proof. intros H. unfold slice. by apply Forall_take, Forall_drop. Qed.

Lemma patch_bytes off d b : Forall is_byte d → Forall is_byte b → Forall is_byte (patch off d b).
Proof. intros Hd Hb. unfold patch. rewrite !Forall_app. split; [by apply Forall_take|]. split; [done|by apply Forall_drop]. Qed.
