(* ===== verification/Links.v ===== *)
(** * Circular doubly-linked rings

    What the two list implementations of the kernel ([kbl/data/pod_list.h] and
    [kbl/data/list.hpp]) have in common: cells with a [next] and a [prev]
    pointer, read here as two partial functions [nx] and [pv].  A ring with
    head [h] and members [xs] is a path [h, xs, h] in which every consecutive
    pair is linked in both directions. *)

From S2P Require Import Prelude.

(** Addresses of link cells; [null] is the null pointer, never a cell. *)
Abbreviation loc := Z.
Definition null : loc := 0.

Section ring.
Context (nx pv : loc → option loc).

Definition linked (u v : loc) : Prop := nx u = Some v ∧ pv v = Some u.

Fixpoint path (l : list loc) : Prop :=
  match l with
  | x :: (y :: _) as t => linked x y ∧ path t
  | _ => True
  end.

(** The cells [h :: xs], all distinct, form a ring. *)
Definition ring (h : loc) (xs : list loc) : Prop :=
  NoDup (h :: xs) ∧ path (h :: xs ++ [h]).

Lemma path_cons x y l : path (x :: y :: l) ↔ linked x y ∧ path (y :: l).
Proof. done. Qed.

Lemma path_app l1 p n l2 :
  path (l1 ++ p :: n :: l2) ↔ path (l1 ++ [p]) ∧ linked p n ∧ path (n :: l2).
Proof.
  induction l1 as [|x l1 IH]; [simpl; tauto|].
  destruct l1 as [|y l1]; simpl in *; tauto.
Qed.

Lemma path_app_mid l1 p l2 :
  path (l1 ++ p :: l2) ↔ path (l1 ++ [p]) ∧ path (p :: l2).
Proof. destruct l2 as [|n l2]; [simpl; tauto|]. rewrite path_app. simpl. tauto. Qed.

End ring.

(** The cell before the position that follows [ys], and the cell after the
    position that precedes [zs], in a ring with head [h]. *)
Definition pred_of (h : loc) (ys : list loc) : loc := default h (last ys).
Definition succ_of (h : loc) (zs : list loc) : loc := default h (head zs).

Lemma pred_of_split h ys : ∃ l1, h :: ys = l1 ++ [pred_of h ys].
Proof.
  unfold pred_of. destruct ys as [|y ys _] using rev_ind; [by exists []|].
  rewrite last_snoc. simpl. by exists (h :: ys).
Qed.

Lemma succ_of_split h zs : ∃ l2, zs ++ [h] = succ_of h zs :: l2.
Proof. destruct zs as [|z zs]; simpl; eauto. Qed.

Lemma pred_of_elem h ys : pred_of h ys ∈ h :: ys.
Proof. destruct (pred_of_split h ys) as [l ->]. set_solver. Qed.

Lemma succ_of_elem h zs : succ_of h zs ∈ h :: zs.
Proof. destruct zs; simpl; set_solver. Qed.

Section cut.
Context {nx pv : loc → option loc}.

Lemma ring_adj h ys zs :
  ring nx pv h (ys ++ zs) → linked nx pv (pred_of h ys) (succ_of h zs).
Proof.
  intros [_ Hp]. destruct (pred_of_split h ys) as [l1 E1], (succ_of_split h zs) as [l2 E2].
  rewrite <- app_assoc, E2, app_comm_cons, E1, <- app_assoc in Hp.
  apply path_app in Hp as (_ & H & _). done.
Qed.

(** The one decomposition all updates use: the ring cut at one position is two
    paths, one ending in the predecessor and one starting at the successor. *)
Lemma ring_cut h ys zs :
  path nx pv (h :: (ys ++ zs) ++ [h]) →
  path nx pv (h :: ys) ∧ path nx pv (zs ++ [h]).
Proof.
  intros Hp. destruct (pred_of_split h ys) as [l1 E1], (succ_of_split h zs) as [l2 E2].
  rewrite <- app_assoc, E2, app_comm_cons, E1, <- app_assoc in Hp.
  apply path_app in Hp as (H1 & _ & H2). by rewrite E1, E2.
Qed.

Lemma ring_join h ys ws zs :
  path nx pv (h :: ys) → path nx pv (zs ++ [h]) →
  path nx pv (pred_of h ys :: ws ++ [succ_of h zs]) →
  path nx pv (h :: (ys ++ ws ++ zs) ++ [h]).
Proof.
  intros H1 H2 H3. destruct (pred_of_split h ys) as [l1 E1], (succ_of_split h zs) as [l2 E2].
  rewrite <- !app_assoc, E2, app_comm_cons, E1, <- app_assoc.
  rewrite E1 in H1. rewrite E2 in H2.
  apply path_app_mid. split; [done|].
  rewrite app_comm_cons in H3 |- *. by apply path_app_mid.
Qed.

End cut.

(** Sources and targets of the two halves of a cut ring. *)
Lemma cut_left_source h ys zs u :
  NoDup (h :: ys ++ zs) → u ∈ removelast (h :: ys) → u ≠ pred_of h ys ∧ u ∈ h :: ys.
Proof.
  intros Hnd Hu. destruct (pred_of_split h ys) as [l1 E]. rewrite E in Hu |- *.
  rewrite removelast_last in Hu. rewrite app_comm_cons, E in Hnd.
  apply NoDup_app in Hnd as [[_ [Hd _]]%NoDup_app _]. set_solver.
Qed.

Lemma cut_right_target h ys zs v :
  NoDup (h :: ys ++ zs) → v ∈ tail (zs ++ [h]) → v ≠ succ_of h zs ∧ v ∈ h :: zs.
Proof.
  intros Hnd Hv. destruct zs as [|z zs]; [simpl in Hv; set_solver|]. simpl in *.
  apply NoDup_cons in Hnd as [Hh [_ [_ [Hz _]%NoDup_cons]]%NoDup_app]. set_solver.
Qed.

Lemma cut_right_source (h u : loc) zs : u ∈ removelast (zs ++ [h]) → u ∈ zs.
Proof. by rewrite removelast_last. Qed.
Section update.
Context {nx pv nx' pv' : loc → option loc}.

(** A path survives any change that keeps [next] of its sources and [prev] of
    its targets. *)
Lemma path_frame l :
  (∀ u, u ∈ removelast l → nx' u = nx u) →
  (∀ v, v ∈ tail l → pv' v = pv v) →
  path nx pv l → path nx' pv' l.
Proof.
  induction l as [|x [|y l] IH]; [done..|].
  intros Hn Hp [[H1 H2] H3]. split; [split|].
  - rewrite Hn; [done|]. simpl. by left.
  - rewrite Hp; [done|]. simpl. by left.
  - apply IH; [| |done]; intros u Hu.
    + apply Hn. simpl in *. by right.
    + apply Hp. simpl in *. by right.
Qed.

Lemma ring_frame h xs :
  (∀ u, u ∈ h :: xs → nx' u = nx u ∧ pv' u = pv u) →
  ring nx pv h xs → ring nx' pv' h xs.
Proof.
  intros H [Hnd Hp]. split; [done|]. revert Hp. apply path_frame; intros u Hu.
  - apply H. revert Hu. rewrite app_comm_cons, removelast_last. done.
  - apply H. simpl in Hu. set_solver.
Qed.

(** Replacing what lies between two neighbours [p] and [n] of a ring: the cells
    [ws] (fresh, distinct, linked to each other) take the place of [old]. *)
Lemma ring_patch h ys old ws zs :
  let p := pred_of h ys in
  let n := succ_of h zs in
  ring nx pv h (ys ++ old ++ zs) →
  NoDup (h :: ys ++ ws ++ zs) →
  path nx' pv' (p :: ws ++ [n]) →
  (∀ u, u ∈ h :: ys ++ zs → u ≠ p → nx' u = nx u) →
  (∀ v, v ∈ h :: ys ++ zs → v ≠ n → pv' v = pv v) →
  ring nx' pv' h (ys ++ ws ++ zs).
Proof.
  intros p n [Hnd Hp] Hnd' Hpath Hnx Hpv. split; [done|].
  assert (Hnd0 : NoDup (h :: ys ++ zs)).
  { clear -Hnd. rewrite app_comm_cons in Hnd |- *. rewrite !NoDup_app in *. set_solver. }
  pose proof (ring_cut _ _ _ Hp) as [H1 _].
  rewrite app_assoc in Hp. pose proof (ring_cut _ _ _ Hp) as [_ H2].
  apply ring_join; [| |done].
  - revert H1. apply path_frame; intros u Hu.
    + apply (cut_left_source _ _ zs) in Hu as [??]; [|done]. apply Hnx; set_solver.
    + simpl in Hu. apply Hpv; [set_solver|]. intros ->.
      destruct zs as [|z zs]; simpl in *; subst n; apply NoDup_cons in Hnd0 as [? Hnd0];
        [set_solver|]. apply NoDup_app in Hnd0 as (_ & Hd & _). eapply Hd; [done|left].
  - revert H2. apply path_frame; intros u Hu.
    + apply cut_right_source in Hu. apply Hnx; [set_solver|]. intros ->.
      pose proof (pred_of_elem h ys) as Hpe. fold p in Hpe.
      rewrite app_comm_cons in Hnd0. apply NoDup_app in Hnd0 as (_ & Hd & _). by eapply Hd.
    + apply (cut_right_target _ ys) in Hu as [??]; [|done]. apply Hpv; set_solver.
Qed.
End update.

(** ** Memories with link cells

    The interface between the list code and the memory it runs on.  [nx s p]
    and [pv s p] read the two pointers of the cell at [p] ([None] when [p] is
    not the address of a cell); [rest] is everything else the state holds,
    which pointer stores never change. *)
Class LinkMem (S : Type) := {
  nx : S → loc → option loc;
  pv : S → loc → option loc;
  set_nx : loc → loc → S → S;
  set_pv : loc → loc → S → S;
  rest_t : Type;
  rest : S → rest_t;
  cell_ok s p : is_Some (nx s p) ↔ is_Some (pv s p);
  nx_set_nx s p v q : nx (set_nx p v s) q = if decide (q = p) then (λ _, v) <$> nx s q else nx s q;
  pv_set_nx s p v q : pv (set_nx p v s) q = pv s q;
  nx_set_pv s p v q : nx (set_pv p v s) q = nx s q;
  pv_set_pv s p v q : pv (set_pv p v s) q = if decide (q = p) then (λ _, v) <$> pv s q else pv s q;
  rest_set_nx s p v : rest (set_nx p v s) = rest s;
  rest_set_pv s p v : rest (set_pv p v s) = rest s;
}.

Create HintDb links.
Create Rewrite HintDb links.
#[export] Hint Rewrite @nx_set_nx @pv_set_nx @nx_set_pv @pv_set_pv @rest_set_nx @rest_set_pv : links.

Section memory.
Context {St : Type} `{!LinkMem St}.
Implicit Types (s : St) (p q h : loc).

(** [p->next], [p->prev] and the assignments to them. *)
Definition load_next (p : loc) : ST St loc := λ s,
  match nx s p with Some v => Some (v, s) | None => None end.
Definition load_prev (p : loc) : ST St loc := λ s,
  match pv s p with Some v => Some (v, s) | None => None end.
Definition store_next (p v : loc) : ST St unit := λ s,
  match nx s p with Some _ => Some (tt, set_nx p v s) | None => None end.
Definition store_prev (p v : loc) : ST St unit := λ s,
  match pv s p with Some _ => Some (tt, set_pv p v s) | None => None end.

(** [p] is the address of a link cell. *)
Definition cell s p : Prop := is_Some (nx s p).

(** The heap-level ring of head [h] and members [xs]. *)
Definition is_ring s h xs : Prop := ring (nx s) (pv s) h xs.

Lemma run_load_next s p v : nx s p = Some v → load_next p s = Some (v, s).
Proof. unfold load_next. by intros ->. Qed.

Lemma run_load_prev s p v : pv s p = Some v → load_prev p s = Some (v, s).
Proof. unfold load_prev. by intros ->. Qed.

Lemma run_store_next s p v : cell s p → store_next p v s = Some (tt, set_nx p v s).
Proof. unfold store_next, cell. by intros [? ->]. Qed.

Lemma run_store_prev s p v : cell s p → store_prev p v s = Some (tt, set_pv p v s).
Proof. unfold store_prev, cell. rewrite cell_ok. by intros [? ->]. Qed.

Lemma cell_set_nx s p v q : cell (set_nx p v s) q ↔ cell s q.
Proof. unfold cell. rewrite nx_set_nx. case_decide; [|done]. destruct (nx s q); simpl; split; intros [? ?]; eauto; done. Qed.

Lemma cell_set_pv s p v q : cell (set_pv p v s) q ↔ cell s q.
Proof. unfold cell. by rewrite nx_set_pv. Qed.

Lemma nx_cell s p v : nx s p = Some v → cell s p.
Proof. unfold cell. intros ->. eauto. Qed.

Lemma pv_cell s p v : pv s p = Some v → cell s p.
Proof. unfold cell. rewrite cell_ok. intros ->. eauto. Qed.

Lemma cell_nx_set s p (v : loc) : cell s p → (λ _, v) <$> nx s p = Some v.
Proof. unfold cell. by intros [? ->]. Qed.

Lemma cell_pv_set s p (v : loc) : cell s p → (λ _, v) <$> pv s p = Some v.
Proof. unfold cell. rewrite cell_ok. by intros [? ->]. Qed.

Lemma is_ring_cells s h xs q : is_ring s h xs → q ∈ h :: xs → cell s q.
Proof.
  intros Hr Hq. apply list_elem_of_split in Hq as (l1 & l2 & E).
  destruct l1 as [|h' l1]; simplify_eq/=.
  - pose proof (ring_adj _ [] _ Hr) as [H _]. by eapply nx_cell.
  - destruct (ring_adj _ l1 (q :: l2) Hr) as [_ H]. by eapply pv_cell.
Qed.
End memory.

Arguments cell {St _} _ _ : simpl never.
#[export] Hint Resolve nx_cell pv_cell is_ring_cells : links.
#[export] Hint Rewrite @cell_set_nx @cell_set_pv : links.

(** ** Pointer surgery

    The straight-line programs both list implementations are made of, with
    their effect on the two pointer functions. *)
Section surgery.
Context {St : Type} `{!LinkMem St}.
Implicit Types (s : St) (p q h n : loc) (X : list loc).

(** [s'] differs from [s] at most in the pointers of the cells [X]. *)
Definition frame X s s' : Prop :=
  rest s' = rest s ∧
  (∀ q, q ∉ X → nx s' q = nx s q ∧ pv s' q = pv s q) ∧
  (∀ q, cell s' q ↔ cell s q).

Lemma frame_refl X s : frame X s s.
Proof. done. Qed.

Lemma frame_trans X s1 s2 s3 : frame X s1 s2 → frame X s2 s3 → frame X s1 s3.
Proof.
  intros (R1 & A1 & C1) (R2 & A2 & C2). split; [congruence|]. split.
  - intros q Hq. destruct (A1 q Hq), (A2 q Hq). split; congruence.
  - intros q. by rewrite C2, C1.
Qed.

Lemma frame_weaken X Y s s' : X ⊆ Y → frame X s s' → frame Y s s'.
Proof. intros H (R & A & C). split; [done|]. split; [|done]. intros q Hq. apply A. set_solver. Qed.

Lemma frame_ring X s s' h xs :
  frame X s s' → (∀ q, q ∈ h :: xs → q ∉ X) → is_ring s h xs → is_ring s' h xs.
Proof. intros (_ & A & _) HX. apply ring_frame. intros u Hu. by apply A, HX. Qed.

Lemma frame_cell X s s' q : frame X s s' → cell s q → cell s' q.
Proof. intros (_ & _ & C). by rewrite C. Qed.

(** The effect of a program on [next] and [prev], as functions on addresses. *)
Definition effect s s' (fn fp : loc → option loc) : Prop :=
  rest s' = rest s ∧ (∀ q, nx s' q = fn q) ∧ (∀ q, pv s' q = fp q) ∧
  (∀ q, cell s' q ↔ cell s q).

Ltac cells := autorewrite with links; eauto with links.
Ltac effects :=
  split_and!; [by autorewrite with links | | | intros q; by autorewrite with links];
  intros q; autorewrite with links; repeat case_decide; subst; simplify_eq;
  rewrite ?option_fmap_id; try done;
  repeat match goal with
  | |- context [(λ _, ?v) <$> nx ?s ?q] => rewrite (cell_nx_set s q v) by cells; simpl
  | |- context [(λ _, ?v) <$> pv ?s ?q] => rewrite (cell_pv_set s q v) by cells; simpl
  end; try done.

Lemma run_init s h :
  cell s h → ∃ s', (store_next h h;; store_prev h h) s = Some (tt, s') ∧
    effect s s' (λ q, if decide (q = h) then Some h else nx s q)
                (λ q, if decide (q = h) then Some h else pv s q).
Proof.
  intros Hh. eexists. split.
  { run with @run_store_next; [|done]. apply run_store_prev. cells. }
  effects.
Qed.

Lemma run_link s new p n :
  cell s new → cell s p → cell s n → new ≠ p → new ≠ n →
  ∃ s', (store_next p new;; store_prev n new;; store_next new n;; store_prev new p) s
          = Some (tt, s') ∧
    effect s s'
      (λ q, if decide (q = new) then Some n else if decide (q = p) then Some new else nx s q)
      (λ q, if decide (q = new) then Some p else if decide (q = n) then Some new else pv s q).
Proof.
  intros Hnew Hp Hn ??. eexists. split.
  { run with @run_store_next; [|done]. run with @run_store_prev; [|by cells].
    run with @run_store_next; [|by cells]. apply run_store_prev. cells. }
  effects.
Qed.

Lemma run_unlink s p n :
  cell s p → cell s n →
  ∃ s', (store_next p n;; store_prev n p) s = Some (tt, s') ∧
    effect s s' (λ q, if decide (q = p) then Some n else nx s q)
                (λ q, if decide (q = n) then Some p else pv s q).
Proof.
  intros Hp Hn. eexists. split.
  { run with @run_store_next; [|done]. apply run_store_prev. cells. }
  effects.
Qed.

Lemma effect_frame X s s' fn fp :
  effect s s' fn fp → (∀ q, q ∉ X → fn q = nx s q ∧ fp q = pv s q) → frame X s s'.
Proof.
  intros (R & N & P & C) HX. split; [done|]. split; [|done].
  intros q Hq. rewrite N, P. auto.
Qed.

Lemma ring_distinct s h xs : is_ring s h xs → NoDup (h :: xs).
Proof. by intros [? _]. Qed.

(** Linking a fresh cell between two neighbours inserts it in the ring. *)
Lemma effect_insert s s' h ys zs new :
  let p := pred_of h ys in
  let n := succ_of h zs in
  is_ring s h (ys ++ zs) → new ∉ h :: ys ++ zs →
  effect s s'
    (λ q, if decide (q = new) then Some n else if decide (q = p) then Some new else nx s q)
    (λ q, if decide (q = new) then Some p else if decide (q = n) then Some new else pv s q) →
  is_ring s' h (ys ++ new :: zs) ∧ frame [new; p; n] s s'.
Proof.
  intros p n Hr Hnew He.
  pose proof (pred_of_elem h ys) as Hpe. pose proof (succ_of_elem h zs) as Hne. fold p in Hpe. fold n in Hne.
  split; [|eapply effect_frame; [done|]; intros q Hq; simpl; rewrite !decide_False by set_solver; done].
  destruct He as (_ & N & P & _). apply (ring_patch h ys [] [new] zs Hr).
  - pose proof (ring_distinct _ _ _ Hr) as Hnd. rewrite (Permutation_app_comm ys), (app_comm_cons _ _ h).
    simpl. rewrite (Permutation_app_comm _ ys). apply NoDup_cons in Hnd as [??].
    rewrite NoDup_cons. rewrite NoDup_cons. set_solver.
  - simpl. unfold linked. rewrite !N, !P. fold p n.
    repeat case_decide; set_solver.
  - intros u Hu ?. rewrite N, !decide_False by set_solver. done.
  - intros u Hu ?. rewrite P, !decide_False by set_solver. done.
Qed.

(** Joining the two neighbours of a member removes it from the ring. *)
Lemma effect_remove s s' h ys x zs :
  let p := pred_of h ys in
  let n := succ_of h zs in
  is_ring s h (ys ++ x :: zs) →
  effect s s' (λ q, if decide (q = p) then Some n else nx s q)
              (λ q, if decide (q = n) then Some p else pv s q) →
  is_ring s' h (ys ++ zs) ∧ frame [p; n] s s'.
Proof.
  intros p n Hr He.
  split; [|eapply effect_frame; [done|]; intros q Hq; simpl; rewrite !decide_False by set_solver; done].
  destruct He as (_ & N & P & _). apply (ring_patch h ys [x] [] zs Hr).
  - pose proof (ring_distinct _ _ _ Hr) as Hnd. revert Hnd. simpl.
    rewrite !NoDup_cons, !NoDup_app, !NoDup_cons. set_solver.
  - simpl. unfold linked. rewrite N, P. by rewrite !decide_True by done.
  - intros u Hu ?. by rewrite N, decide_False by done.
  - intros u Hu ?. by rewrite P, decide_False by done.
Qed.

Lemma effect_init s s' h :
  effect s s' (λ q, if decide (q = h) then Some h else nx s q)
              (λ q, if decide (q = h) then Some h else pv s q) →
  is_ring s' h [] ∧ frame [h] s s'.
Proof.
  intros He. split; [|eapply effect_frame; [done|]; intros q Hq; simpl; rewrite !decide_False by set_solver; done].
  destruct He as (_ & N & P & _). split; [apply NoDup_singleton|].
  simpl. unfold linked. by rewrite N, P, !decide_True by done.
Qed.

(** Neighbours of a member or of the head, as the code reads them. *)
Lemma ring_next_of s h ys zs :
  is_ring s h (ys ++ zs) → nx s (pred_of h ys) = Some (succ_of h zs).
Proof. intros Hr. by apply ring_adj in Hr as [? _]. Qed.

Lemma ring_prev_of s h ys zs :
  is_ring s h (ys ++ zs) → pv s (succ_of h zs) = Some (pred_of h ys).
Proof. intros Hr. by apply ring_adj in Hr as [_ ?]. Qed.

Lemma pred_of_snoc h ys x : pred_of h (ys ++ [x]) = x.
Proof. unfold pred_of. by rewrite last_snoc. Qed.

Lemma ring_member_next s h ys x zs :
  is_ring s h (ys ++ x :: zs) → nx s x = Some (succ_of h zs).
Proof.
  intros Hr. rewrite cons_middle, app_assoc in Hr. apply ring_next_of in Hr.
  by rewrite pred_of_snoc in Hr.
Qed.

Lemma ring_member_prev s h ys x zs :
  is_ring s h (ys ++ x :: zs) → pv s x = Some (pred_of h ys).
Proof. intros Hr. by apply ring_prev_of in Hr. Qed.

(** Any cell of a ring can be taken as its head. *)
Lemma ring_rotate s h ys x zs :
  is_ring s h (ys ++ x :: zs) → is_ring s x (zs ++ h :: ys).
Proof.
  intros [Hnd Hp]. split.
  - assert (x :: zs ++ h :: ys ≡ₚ h :: ys ++ x :: zs) as ->; [solve_Permutation|done].
  - rewrite <- app_assoc in Hp. rewrite <- app_assoc.
    apply (path_app_mid _ _ (h :: ys) x (zs ++ [h])) in Hp as [H1 H2].
    by apply (path_app_mid _ _ (x :: zs) h (ys ++ [x])).
Qed.

Lemma ring_rotate_head s h f t : is_ring s h (f :: t) → is_ring s f (t ++ [h]).
Proof. apply (ring_rotate _ _ []). Qed.

Lemma ring_rotate_last s h f t : is_ring s f (t ++ [h]) → is_ring s h (f :: t).
Proof. intros H. by apply ring_rotate in H. Qed.

(** The members of a non-empty ring form a path of their own. *)
Lemma ring_members_path s k ws : is_ring s k ws → path (nx s) (pv s) ws.
Proof.
  intros [_ Hp]. destruct ws as [|f t]; [done|].
  destruct (last_split f t) as (l1 & l & E). rewrite E in Hp |- *.
  rewrite <- app_assoc, app_comm_cons in Hp.
  apply path_app in Hp as (Hp & _). by destruct l1; [|destruct Hp].
Qed.

(** Linking the members of one ring between two neighbours of another. *)
Lemma effect_splice s s' h ys zs k f t :
  let p := pred_of h ys in
  let n := succ_of h zs in
  let l := pred_of f t in
  is_ring s h (ys ++ zs) → is_ring s k (f :: t) →
  NoDup ((h :: ys ++ zs) ++ k :: f :: t) →
  effect s s'
    (λ q, if decide (q = l) then Some n else if decide (q = p) then Some f else nx s q)
    (λ q, if decide (q = n) then Some l else if decide (q = f) then Some p else pv s q) →
  is_ring s' h (ys ++ (f :: t) ++ zs) ∧ frame [p; n; f; l] s s'.
Proof.
  intros p n l Hr Hk Hnd He.
  assert (p ∈ h :: ys ++ zs) as Hp.
  { pose proof (pred_of_elem h ys) as Hpe. fold p in Hpe. set_solver. }
  assert (n ∈ h :: ys ++ zs) as Hn.
  { pose proof (succ_of_elem h zs) as Hne. fold n in Hne. set_solver. }
  assert (l ∈ f :: t) as Hl by apply pred_of_elem.
  apply NoDup_app in Hnd as (Hnd1 & Hd & Hnd2).
  assert (Hne : ∀ x y, x ∈ h :: ys ++ zs → y ∈ f :: t → x ≠ y).
  { intros x y Hx Hy ->. apply (Hd y Hx). by right. }
  assert (f ∈ f :: t) as Hf by left.
  pose proof (Hne p l Hp Hl). pose proof (Hne p f Hp Hf).
  pose proof (Hne n l Hn Hl). pose proof (Hne n f Hn Hf).
  split; [|eapply effect_frame; [done|]; intros q Hq; simpl; rewrite !decide_False by set_solver; done].
  destruct He as (_ & N & P & _). apply (ring_patch h ys [] (f :: t) zs Hr).
  - assert (h :: ys ++ (f :: t) ++ zs ≡ₚ (h :: ys ++ zs) ++ f :: t) as -> by solve_Permutation.
    apply NoDup_cons in Hnd2 as [? ?]. apply NoDup_app. split_and!; [done| |done].
    intros x Hx Hx'. by apply (Hne x x).
  - fold p n. apply path_cons. split.
    { unfold linked. rewrite N, P. split; repeat case_decide; congruence. }
    assert (Hm : path (nx s') (pv s') (f :: t)).
    { apply ring_members_path in Hk. revert Hk. apply path_frame; intros u Hu.
      - rewrite N. apply (cut_left_source _ _ []) in Hu as [? Hu].
        + rewrite !decide_False; [done| |done]. intros ->. by apply (Hne p p).
        + rewrite app_nil_r. by apply NoDup_cons in Hnd2 as [_ ?].
      - simpl in Hu. rewrite P. apply NoDup_cons in Hnd2 as [_ [? _]%NoDup_cons].
        rewrite !decide_False; [done|by intros ->|]. intros ->. apply (Hne n n); [done|by right|done]. }
    destruct (pred_of_split f t) as [l1 E]. rewrite E in Hm. rewrite app_comm_cons, E, <- app_assoc.
    apply path_app. split; [done|]. split; [|done]. fold l.
    unfold linked. rewrite N, P. split; repeat case_decide; congruence.
  - intros u Hu ?. rewrite N, !decide_False; auto.
  - intros u Hu ?. rewrite P, !decide_False; auto.
Qed.
End surgery.
