(* ===== verification/PodList.v ===== *)
(** * The plain list of the kernel: [kbl/data/pod_list.h]

    The circular list of [list_head] cells used by the page allocator and the
    slab allocator.  The operations run on a memory of cells
    ([gmap loc list_head]); each theorem relates one operation to the ordinary
    list operation it implements on the members of a ring. *)

From S2P Require Import Prelude Links.

(** [struct list_head] of [system/types.h]. *)
Record list_head := { next : loc; prev : loc }.

Abbreviation pod_mem := (gmap loc list_head).

Definition with_next (v : loc) (c : list_head) : list_head := {| next := v; prev := prev c |}.
Definition with_prev (v : loc) (c : list_head) : list_head := {| next := next c; prev := v |}.

Ltac pod_law :=
  simpl; intros; rewrite ?lookup_alter, ?fmap_is_Some; repeat case_decide; subst;
  try done; by destruct (_ !! _).

#[local] Obligation Tactic := pod_law.
#[export] Program Instance pod_link_mem : LinkMem pod_mem := {
  nx m p := next <$> m !! p;
  pv m p := prev <$> m !! p;
  set_nx p v m := alter (with_next v) p m;
  set_pv p v m := alter (with_prev v) p m;
  rest_t := unit;
  rest _ := tt;
}.

Section operations.
Context {St : Type} `{!LinkMem St}.

Definition __list_init (head : loc) : ST St unit :=
  store_next head head;;
  store_prev head head.

Definition __list_add (newnode prev next : loc) : ST St unit :=
  store_next prev newnode;;
  store_prev next newnode;;
  store_next newnode next;;
  store_prev newnode prev.

Definition __list_remove (prev next : loc) : ST St unit :=
  store_next prev next;;
  store_prev next prev.

Definition __list_remove_entry (entry : loc) : ST St unit :=
  p ← load_prev entry;
  n ← load_next entry;
  __list_remove p n.

Definition list_init (head : loc) : ST St unit := __list_init head.

Definition list_add (newnode head : loc) : ST St unit :=
  n ← load_next head;
  __list_add newnode head n.

Definition list_add_tail (newnode head : loc) : ST St unit :=
  p ← load_prev head;
  __list_add newnode p head.

Definition list_remove (entry : loc) : ST St unit :=
  __list_remove_entry entry;;
  store_prev entry null;;
  store_next entry null.

Definition list_replace (old newnode : loc) : ST St unit :=
  on ← load_next old;
  store_next newnode on;;
  nn ← load_next newnode;
  store_prev nn newnode;;
  op ← load_prev old;
  store_prev newnode op;;
  np ← load_prev newnode;
  store_next np newnode.

Definition list_empty (head : loc) : ST St bool :=
  n ← load_next head;
  mret (bool_decide (n = head)).

Definition list_swap (e1 e2 : loc) : ST St unit :=
  pos ← load_prev e2;
  list_remove e2;;
  list_replace e1 e2;;
  list_add e1 (if decide (pos = e1) then e2 else pos).

(** [list_for(pos, head)]: the addresses [pos] takes, in order.  [fuel] bounds
    the number of iterations; [None] means it ran out or a link was invalid. *)
Fixpoint list_for_from (fuel : nat) (pos head : loc) : ST St (list loc) :=
  match fuel with
  | O => st_fail
  | S fuel =>
      if decide (pos = head) then mret []
      else
        n ← load_next pos;
        l ← list_for_from fuel n head;
        mret (pos :: l)
  end.

Definition list_for (fuel : nat) (head : loc) : ST St (list loc) :=
  pos ← load_next head;
  list_for_from fuel pos head.

End operations.

Section specifications.
Context {St : Type} `{!LinkMem St}.
Implicit Types (s : St) (h x new p n : loc) (xs ys zs : list loc).

Lemma effect_cell s s' fn fp q : effect s s' fn fp → cell s' q ↔ cell s q.
Proof. by intros (_ & _ & _ & C). Qed.

Lemma list_init_spec s h :
  cell s h →
  ∃ s', list_init h s = Some (tt, s') ∧ is_ring s' h [] ∧ frame [h] s s'.
Proof.
  intros Hh. destruct (run_init s h Hh) as (s' & Hrun & He).
  exists s'. split; [done|]. by eapply effect_init.
Qed.

Lemma list_add_between s h ys zs new :
  is_ring s h (ys ++ zs) → cell s new → new ∉ h :: ys ++ zs →
  ∃ s', __list_add new (pred_of h ys) (succ_of h zs) s = Some (tt, s') ∧
    is_ring s' h (ys ++ new :: zs) ∧
    frame [new; pred_of h ys; succ_of h zs] s s'.
Proof.
  intros Hr Hc Hnew.
  pose proof (ring_next_of _ _ _ _ Hr) as Hn. pose proof (ring_prev_of _ _ _ _ Hr) as Hp.
  pose proof (pred_of_elem h ys). pose proof (succ_of_elem h zs).
  destruct (run_link s new (pred_of h ys) (succ_of h zs)) as (s' & Hrun & He);
    [done|by eapply nx_cell|by eapply pv_cell|set_solver|set_solver|].
  exists s'. split; [done|]. by eapply effect_insert.
Qed.

(** [list_add(new, p)]: [p] is the head ([ys = []]) or the last cell of [ys]. *)
Lemma list_add_spec s h ys zs new :
  is_ring s h (ys ++ zs) → cell s new → new ∉ h :: ys ++ zs →
  ∃ s', list_add new (pred_of h ys) s = Some (tt, s') ∧
    is_ring s' h (ys ++ new :: zs) ∧
    frame [new; pred_of h ys; succ_of h zs] s s'.
Proof.
  intros Hr Hc Hnew. destruct (list_add_between s h ys zs new) as (s' & Hrun & ?); try done.
  exists s'. split; [|done]. unfold list_add.
  by run with @run_load_next; [|by eapply ring_next_of].
Qed.

Lemma list_add_tail_spec s h ys zs new :
  is_ring s h (ys ++ zs) → cell s new → new ∉ h :: ys ++ zs →
  ∃ s', list_add_tail new (succ_of h zs) s = Some (tt, s') ∧
    is_ring s' h (ys ++ new :: zs) ∧
    frame [new; pred_of h ys; succ_of h zs] s s'.
Proof.
  intros Hr Hc Hnew. destruct (list_add_between s h ys zs new) as (s' & Hrun & ?); try done.
  exists s'. split; [|done]. unfold list_add_tail.
  by run with @run_load_prev; [|by eapply ring_prev_of].
Qed.

Lemma list_remove_entry_spec s h ys x zs :
  is_ring s h (ys ++ x :: zs) →
  ∃ s', __list_remove_entry x s = Some (tt, s') ∧ is_ring s' h (ys ++ zs) ∧
    frame [pred_of h ys; succ_of h zs] s s'.
Proof.
  intros Hr.
  pose proof (ring_member_prev _ _ _ _ _ Hr) as Hp. pose proof (ring_member_next _ _ _ _ _ Hr) as Hn.
  pose proof (pred_of_elem h ys). pose proof (succ_of_elem h zs).
  destruct (run_unlink s (pred_of h ys) (succ_of h zs)) as (s' & Hrun & He);
    [eapply is_ring_cells; [done|set_solver]..|].
  exists s'. split; [|by eapply effect_remove].
  unfold __list_remove_entry. run with @run_load_prev; [|done]. by run with @run_load_next; [|done].
Qed.

(** Clearing both pointers of a cell. *)
Lemma run_clear s x :
  cell s x → ∃ s', (store_prev x null;; store_next x null) s = Some (tt, s') ∧
    nx s' x = Some null ∧ pv s' x = Some null ∧ frame [x] s s'.
Proof.
  intros Hx. exists (set_nx x null (set_pv x null s)). split.
  { run with @run_store_prev; [|done]. apply run_store_next. by apply cell_set_pv. }
  autorewrite with links. rewrite !decide_True by done.
  rewrite (cell_nx_set s x null), (cell_pv_set s x null) by done.
  split_and!; [done..|]. split; [by autorewrite with links|]. split.
  - intros q Hq. autorewrite with links. by rewrite !decide_False by set_solver.
  - intros q. by autorewrite with links.
Qed.

Lemma list_remove_spec s h ys x zs :
  is_ring s h (ys ++ x :: zs) →
  ∃ s', list_remove x s = Some (tt, s') ∧ is_ring s' h (ys ++ zs) ∧
    nx s' x = Some null ∧ pv s' x = Some null ∧
    frame [x; pred_of h ys; succ_of h zs] s s'.
Proof.
  intros Hr. destruct (list_remove_entry_spec _ _ _ _ _ Hr) as (s1 & H1 & Hr1 & F1).
  assert (x ∉ h :: ys ++ zs) as Hx.
  { apply ring_distinct in Hr. revert Hr. rewrite NoDup_cons, NoDup_app, NoDup_cons. set_solver. }
  destruct (run_clear s1 x) as (s2 & H2 & Hn & Hp & F2).
  { eapply frame_cell; [done|]. eapply is_ring_cells; [done|set_solver]. }
  exists s2. unfold list_remove. rewrite (bind_run _ _ _ _ _ H1). split_and!; try done.
  - eapply frame_ring; [done| |done]. set_solver.
  - eapply frame_trans; eapply frame_weaken; [|done| |done]; set_solver.
Qed.

Lemma list_empty_spec s h xs :
  is_ring s h xs → list_empty h s = Some (bool_decide (xs = []), s).
Proof.
  intros Hr. unfold list_empty. pose proof (ring_next_of s h [] xs Hr) as Hn.
  run with @run_load_next; [|done]. unfold mret, ST_ret.
  assert (succ_of h xs = h ↔ xs = []) as E; [|by rewrite (bool_decide_ext _ _ E)].
  apply ring_distinct in Hr as [? _]%NoDup_cons. destruct xs as [|x xs]; set_solver.
Qed.

(** Traversal visits exactly the members, in order, and stops: one step of fuel
    per member and one for the head. *)
Lemma list_for_from_spec s h ys zs fuel :
  is_ring s h (ys ++ zs) → (length zs < fuel)%nat →
  list_for_from fuel (succ_of h zs) h s = Some (zs, s).
Proof.
  revert ys fuel. induction zs as [|z zs IH]; intros ys fuel Hr Hf.
  - destruct fuel; [lia|]. simpl. by rewrite decide_True.
  - destruct fuel; [simpl in Hf; lia|]. simpl. rewrite decide_False.
    2:{ apply ring_distinct in Hr as [? _]%NoDup_cons. set_solver. }
    run with @run_load_next; [|by eapply ring_member_next].
    rewrite (bind_run _ _ _ zs s); [done|].
    apply (IH (ys ++ [z])); [by rewrite <- app_assoc|simpl in Hf; lia].
Qed.

Lemma list_for_spec s h xs fuel :
  is_ring s h xs → (length xs < fuel)%nat → list_for fuel h s = Some (xs, s).
Proof.
  intros Hr Hf. unfold list_for. pose proof (ring_next_of s h [] xs Hr) as Hn.
  run with @run_load_next; [|done]. by apply (list_for_from_spec s h []).
Qed.

Lemma pred_of_cons h x t : pred_of h (x :: t) = pred_of x t.
Proof. unfold pred_of. rewrite last_cons. by destruct (last t). Qed.

(** Taking the place of the member [old], whose neighbours are [p] and [n]. *)
Lemma effect_replace s s' h ys old zs new :
  let p := pred_of h ys in
  let n := succ_of h zs in
  is_ring s h (ys ++ old :: zs) → new ∉ h :: ys ++ old :: zs →
  effect s s'
    (λ q, if decide (q = p) then Some new else if decide (q = new) then Some n else nx s q)
    (λ q, if decide (q = new) then Some p else if decide (q = n) then Some new else pv s q) →
  is_ring s' h (ys ++ new :: zs) ∧ frame [new; p; n] s s'.
Proof.
  intros p n Hr Hnew He.
  pose proof (pred_of_elem h ys) as Hpe. pose proof (succ_of_elem h zs) as Hne. fold p in Hpe. fold n in Hne.
  assert (new ≠ p ∧ new ≠ n) as [? ?] by set_solver.
  split; [|eapply effect_frame; [done|]; intros q Hq; simpl; rewrite !decide_False by set_solver; done].
  destruct He as (_ & N & P & _). apply (ring_patch h ys [old] [new] zs Hr).
  - pose proof (ring_distinct _ _ _ Hr) as Hnd. revert Hnd. simpl.
    rewrite !NoDup_cons, !NoDup_app, !NoDup_cons. set_solver.
  - simpl. unfold linked. rewrite !N, !P. fold p n. repeat case_decide; naive_solver.
  - intros u Hu ?. rewrite N, !decide_False by set_solver. done.
  - intros u Hu ?. rewrite P, !decide_False by set_solver. done.
Qed.

(** Running [list_replace] from known neighbours of [old]. *)
Lemma run_replace s old new p n :
  nx s old = Some n → pv s old = Some p → cell s new → cell s p → cell s n →
  new ≠ old → n ≠ old →
  ∃ s', list_replace old new s = Some (tt, s') ∧
    effect s s'
      (λ q, if decide (q = p) then Some new else if decide (q = new) then Some n else nx s q)
      (λ q, if decide (q = new) then Some p else if decide (q = n) then Some new else pv s q).
Proof.
  intros Hn Hp Hnew Hcp Hcn ??.
  eexists. split.
  { unfold list_replace. run with @run_load_next; [|done]. run with @run_store_next; [|done].
    run with @run_load_next; [|by rewrite nx_set_nx, decide_True, (cell_nx_set s new n)].
    run with @run_store_prev; [|by apply cell_set_nx].
    run with @run_load_prev; [|by rewrite pv_set_pv, decide_False, pv_set_nx].
    run with @run_store_prev; [|by rewrite cell_set_pv, cell_set_nx].
    run with @run_load_prev; [|rewrite pv_set_pv, decide_True by done; apply cell_pv_set;
      by rewrite cell_set_pv, cell_set_nx].
    apply run_store_next. by rewrite !cell_set_pv, cell_set_nx. }
  split_and!; [by autorewrite with links| | |by intros q; autorewrite with links];
    intros q; autorewrite with links; repeat case_decide; subst; simpl; try done;
    repeat first [rewrite (cell_nx_set s) by done | rewrite (cell_pv_set s) by done]; done.
Qed.

Lemma list_replace_head s old xs new :
  is_ring s old xs → cell s new → new ∉ old :: xs →
  ∃ s', list_replace old new s = Some (tt, s') ∧ is_ring s' new xs ∧
    frame (new :: old :: xs) s s'.
Proof.
  intros Hr Hc Hnew. destruct xs as [|x t].
  - destruct (ring_adj _ [] [] Hr) as [Hn Hp]. simpl in Hn, Hp.
    assert (new ≠ old) as Hne by set_solver. assert (cell s old) as Ho by by eapply nx_cell.
    eexists. split.
    { unfold list_replace. run with @run_load_next; [|done]. run with @run_store_next; [|done].
      run with @run_load_next; [|by rewrite nx_set_nx, decide_True, (cell_nx_set s new old)].
      run with @run_store_prev; [|by apply cell_set_nx].
      run with @run_load_prev; [|by rewrite pv_set_pv, decide_True, pv_set_nx, (cell_pv_set s old new)].
      run with @run_store_prev; [|by rewrite cell_set_pv, cell_set_nx].
      run with @run_load_prev; [|rewrite pv_set_pv, decide_True by done; apply cell_pv_set;
        by rewrite cell_set_pv, cell_set_nx].
      apply run_store_next. by rewrite !cell_set_pv, cell_set_nx. }
    split; [split; [apply NoDup_singleton|]|].
    + simpl. unfold linked. autorewrite with links. rewrite !decide_True, decide_False by done.
      by rewrite (cell_nx_set s new old), (cell_pv_set s new new) by done.
    + split; [by autorewrite with links|]. split; [|by intros q; autorewrite with links].
      intros q Hq. autorewrite with links. by rewrite !decide_False by set_solver.
  - pose proof (ring_distinct _ _ _ Hr) as Hnd. apply NoDup_cons in Hnd as [Hox _].
    pose proof (ring_rotate_head _ _ _ _ Hr) as Hr'.
    pose proof (ring_member_next _ _ _ _ _ Hr') as Hn. pose proof (ring_member_prev _ _ _ _ _ Hr') as Hp.
    pose proof (pred_of_elem x t) as Hpe. simpl in Hn.
    destruct (run_replace s old new (pred_of x t) x) as (s' & Hrun & He);
      [done|done|done|eapply is_ring_cells; [done|set_solver]..|set_solver|set_solver|].
    exists s'. split; [done|]. apply (effect_replace s s' x t old [] new) in He as [Hr2 F];
      [|done|set_solver]. split; [by apply ring_rotate_last|].
    eapply frame_weaken; [|done]. set_solver.
Qed.

(** Detaching the head of a ring from its members: what is left is the ring of
    the members alone. *)
Lemma detach_head s h f t :
  is_ring s h (f :: t) →
  ∃ s', list_remove h s = Some (tt, s') ∧ is_ring s' f t ∧ frame (h :: f :: t) s s'.
Proof.
  intros Hr%ring_rotate_head.
  destruct (list_remove_spec s f t h [] Hr) as (s' & Hrun & Hr' & _ & _ & F).
  rewrite app_nil_r in Hr'. exists s'. split_and!; [done..|].
  pose proof (pred_of_elem f t). eapply frame_weaken; [|done]. set_solver.
Qed.

Lemma remove_lone_head s h :
  is_ring s h [] → ∃ s', list_remove h s = Some (tt, s') ∧ frame [h] s s'.
Proof.
  intros Hr. destruct (ring_adj _ [] [] Hr) as [Hn Hp]. simpl in Hn, Hp.
  assert (cell s h) as Hc by by eapply nx_cell.
  destruct (run_unlink s h h Hc Hc) as (s1 & H1 & He).
  assert (frame [h] s s1) as F1.
  { eapply effect_frame; [done|]. intros q Hq. simpl. by rewrite !decide_False by set_solver. }
  destruct (run_clear s1 h) as (s2 & H2 & _ & _ & F2); [by eapply frame_cell|].
  exists s2. split; [|by eapply frame_trans].
  unfold list_remove. rewrite (bind_run _ _ _ tt s1); [done|].
  unfold __list_remove_entry. run with @run_load_prev; [|done]. by run with @run_load_next; [|done].
Qed.

(** The second half of a swap: [e2] takes the place of [e1] as the head of
    [xs], and [e1] becomes the head of the detached ring of [f :: t]. *)
Lemma reseat_heads s e1 xs e2 f t :
  is_ring s e1 xs → is_ring s f t → cell s e2 → NoDup ((e1 :: xs) ++ e2 :: f :: t) →
  ∃ s2 s3, list_replace e1 e2 s = Some (tt, s2) ∧
    list_add e1 (pred_of f t) s2 = Some (tt, s3) ∧
    is_ring s3 e1 (f :: t) ∧ is_ring s3 e2 xs ∧ frame (e1 :: e2 :: f :: t ++ xs) s s3.
Proof.
  intros Hr1 Hf1 Hc2 (Hnd1 & Hd & Hnd2)%NoDup_app.
  apply NoDup_cons in Hnd2 as [Hn2 Hn3]. pose proof (pred_of_elem f t) as Hl.
  destruct (list_replace_head s e1 xs e2) as (s2 & H2 & Hr2' & F2); [done..| |].
  { intros Hq. eapply Hd; [done|left]. }
  assert (is_ring s2 f t) as Hf2.
  { eapply frame_ring; [done| |done]. intros q Hq Hq'.
    apply elem_of_cons in Hq' as [->|Hq']; [done|]. eapply Hd; [done|by right]. }
  destruct (list_add_spec s2 f t [] e1) as (s3 & H3 & Hr3 & F3).
  { by rewrite app_nil_r. }
  { apply (frame_cell _ _ _ _ F2). eapply is_ring_cells; [exact Hr1|left]. }
  { rewrite app_nil_r. intros Hq. eapply Hd; [left|by right]. }
  exists s2, s3. split_and!; [done|done|by apply ring_rotate_last| |].
  - eapply frame_ring; [done| |done]. intros q Hq Hq'. apply NoDup_cons in Hnd1 as [Hn1 _].
    assert (q = e1 ∨ q ∈ f :: t) as [->|Hq2].
    { clear -Hq' Hl. simpl in Hq'. set_solver. }
    + apply elem_of_cons in Hq as [<-|Hq]; [|done]. eapply Hd; [left|left].
    + apply elem_of_cons in Hq as [->|Hq]; [done|]. eapply Hd; [by right|by right].
  - clear -F2 F3 Hl. simpl in *. eapply frame_trans; (eapply frame_weaken; [|done]); set_solver.
Qed.

(** The swap of two ring heads when the second ring has members. *)
Lemma list_swap_heads s e1 xs e2 f t :
  is_ring s e1 xs → is_ring s e2 (f :: t) → NoDup ((e1 :: xs) ++ e2 :: f :: t) →
  ∃ s', list_swap e1 e2 s = Some (tt, s') ∧ is_ring s' e1 (f :: t) ∧ is_ring s' e2 xs ∧
    frame (e1 :: e2 :: f :: t ++ xs) s s'.
Proof.
  intros Hr1 Hr2 Hnd. pose proof Hnd as (_ & Hd & _)%NoDup_app.
  pose proof (ring_prev_of s e2 (f :: t) []) as Hpos. rewrite app_nil_r in Hpos.
  specialize (Hpos Hr2). simpl in Hpos. rewrite pred_of_cons in Hpos.
  pose proof (pred_of_elem f t) as Hl.
  destruct (detach_head s e2 f t Hr2) as (s1 & H1 & Hf1 & F1).
  destruct (reseat_heads s1 e1 xs e2 f t) as (s2 & s3 & H2 & H3 & Hr1' & Hr2' & F2); [|done| |done|].
  { eapply frame_ring; [done| |done]. intros q Hq. by apply Hd. }
  { eapply frame_cell; [done|]. by eapply pv_cell. }
  exists s3. split_and!; [|done|done|].
  - unfold list_swap. run with @run_load_prev; [|done].
    rewrite (bind_run _ _ _ _ _ H1), (bind_run _ _ _ _ _ H2).
    rewrite decide_False; [done|]. intros <-. eapply Hd; [left|by right].
  - eapply frame_trans; [|done]. eapply frame_weaken; [|done]. set_solver.
Qed.

(** With an empty second ring the swap does not exchange the contents: the
    first head ends up as a member of the second ring. *)
Lemma list_swap_empty_second s e1 xs e2 :
  is_ring s e1 xs → is_ring s e2 [] → e2 ∉ e1 :: xs →
  ∃ s', list_swap e1 e2 s = Some (tt, s') ∧ is_ring s' e2 (e1 :: xs).
Proof.
  intros Hr1 Hr2 Hne. destruct (ring_adj _ [] [] Hr2) as [Hn Hp]. simpl in Hn, Hp.
  destruct (remove_lone_head s e2 Hr2) as (s1 & H1 & F1).
  destruct (list_replace_head s1 e1 xs e2) as (s2 & H2 & Hr2' & F2); [|by eapply frame_cell, nx_cell|done|].
  { eapply frame_ring; [done| |done]. set_solver. }
  destruct (list_add_spec s2 e2 [] xs e1) as (s3 & H3 & Hr3 & _); [done| | |].
  { apply (frame_cell _ _ _ _ F2), (frame_cell _ _ _ _ F1). eapply is_ring_cells; [exact Hr1|left]. }
  { apply ring_distinct in Hr1 as [? _]%NoDup_cons. set_solver. }
  exists s3. split; [|done]. unfold list_swap. run with @run_load_prev; [|done].
  rewrite (bind_run _ _ _ _ _ H1), (bind_run _ _ _ _ _ H2).
  rewrite decide_False; [done|]. set_solver.
Qed.
End specifications.
