(* ===== verification/IntrusiveList.v ===== *)
(** * The intrusive list of the kernel: [kbl/data/list.hpp]

    [list_link] cells are embedded in their items; [intrusive_list] owns a head
    cell, a size and a lock.  The model keeps the cells in a memory
    ([gmap loc list_link]), the locks that are held and the items the deleter
    was called on.  [EnableLock] is the template parameter of the class: every
    operation is written once, with its [lock_guard]s guarded by it. *)

From S2P Require Import Prelude Links PodList.

(** [list_link<TParent, TMutex>]; its [lock_] is in [held] of the state. *)
Record list_link := { parent_ : loc; next_ : loc; prev_ : loc }.

Abbreviation link_mem := (gmap loc list_link).

Definition with_next_ (v : loc) (c : list_link) : list_link :=
  {| parent_ := parent_ c; next_ := v; prev_ := prev_ c |}.
Definition with_prev_ (v : loc) (c : list_link) : list_link :=
  {| parent_ := parent_ c; next_ := next_ c; prev_ := v |}.

Lemma fmap_alter_same {A B} (f : A → B) (g : A → A) (m : gmap loc A) p :
  (∀ c, f (g c) = f c) → f <$> alter g p m = f <$> m.
Proof.
  intros H. apply map_eq. intros q. rewrite !lookup_fmap, lookup_alter.
  case_decide; [|done]. subst. destruct (m !! q); simpl; by rewrite ?H.
Qed.

Ltac link_law :=
  simpl; intros; rewrite ?fmap_is_Some;
  first [by apply fmap_alter_same |
    rewrite ?lookup_alter; repeat case_decide; subst; try done; by destruct (_ !! _)].

#[local] Obligation Tactic := link_law.
#[export] Program Instance list_link_mem : LinkMem link_mem := {
  nx m p := next_ <$> m !! p;
  pv m p := prev_ <$> m !! p;
  set_nx p v m := alter (with_next_ v) p m;
  set_pv p v m := alter (with_prev_ v) p m;
  rest_t := gmap loc loc;
  rest m := parent_ <$> m;
}.

(** The lock of a cell and the lock of the list whose head is at [h]. *)
Inductive lock_id := LinkLock (l : loc) | ListLock (h : loc).

#[export] Instance lock_id_eq : EqDecision lock_id.
Proof. solve_decision. Defined.
#[export] Instance lock_id_countable : Countable lock_id.
Proof.
  apply (inj_countable' (λ i, match i with LinkLock l => inl l | ListLock h => inr h end)
    (λ s, match s with inl l => LinkLock l | inr h => ListLock h end)).
  by intros [].
Defined.

Record lmem := Lmem { links : link_mem; held : gset lock_id; deleted : list loc }.

(** A computation on the cells alone. *)
Definition on_links {A} (c : ST link_mem A) : ST lmem A := λ s,
  match c (links s) with
  | Some (x, m) => Some (x, Lmem m (held s) (deleted s))
  | None => None
  end.

(** [spinlock::lock]/[unlock] on one CPU: taking a lock this CPU holds, or
    releasing one it does not hold, panics ([assert_not_held], [assert_held]). *)
Definition lock_acquire (l : lock_id) : ST lmem unit := λ s,
  if decide (l ∈ held s) then None else Some (tt, Lmem (links s) ({[l]} ∪ held s) (deleted s)).
Definition lock_release (l : lock_id) : ST lmem unit := λ s,
  if decide (l ∈ held s) then Some (tt, Lmem (links s) (held s ∖ {[l]}) (deleted s)) else None.

(** [{ lock_guard g{l}; c }] when [b], plain [c] otherwise. *)
Definition guard {A} (b : bool) (l : lock_id) (c : ST lmem A) : ST lmem A :=
  if b then lock_acquire l;; x ← c; lock_release l;; mret x else c.

(** [deleter_(ptr)]. *)
Definition deleter_ (t : loc) : ST lmem unit := λ s,
  Some (tt, Lmem (links s) (held s) (deleted s ++ [t])).

(** [p->parent_]. *)
Definition load_parent (p : loc) : ST lmem loc := λ s,
  match links s !! p with Some c => Some (parent_ c, s) | None => None end.

Section utilities.
Context {St : Type} `{!LinkMem St}.

Definition util_list_init (head : loc) : ST St unit :=
  store_next head head;;
  store_prev head head.

Definition util_list_add (newnode prev next : loc) : ST St unit :=
  store_next prev newnode;;
  store_prev next newnode;;
  store_next newnode next;;
  store_prev newnode prev.

Definition util_list_remove (prev next : loc) : ST St unit :=
  store_next prev next;;
  store_prev next prev.

Definition util_list_remove_entry (entry : loc) : ST St unit :=
  p ← load_prev entry;
  n ← load_next entry;
  util_list_remove p n.

Definition util_list_splice (list prev next : loc) : ST St unit :=
  first ← load_next list;
  last ← load_prev list;
  store_prev first prev;;
  store_next prev first;;
  store_next last next;;
  store_prev next last.

End utilities.

(** The object: the address of its [head_] cell and its [size_] (the lock of
    the list is [ListLock head_]). *)
Record intrusive_list := { head_ : loc; size_ : Z }.

Definition with_size (z : Z) (l : intrusive_list) : intrusive_list :=
  {| head_ := head_ l; size_ := z |}.

Section intrusive.
Context (EnableLock : bool) (node_link_ptr : loc → loc).

Definition list_init (LockHeld : bool) (head : loc) : ST lmem unit :=
  guard (EnableLock && negb LockHeld) (LinkLock head) (on_links (util_list_init head)).

Definition list_add (LockHeld : bool) (newnode head : loc) : ST lmem unit :=
  guard (EnableLock && negb LockHeld) (LinkLock newnode)
    (guard (EnableLock && negb LockHeld) (LinkLock head)
      (on_links (n ← load_next head; util_list_add newnode head n))).

Definition list_add_tail (LockHeld : bool) (newnode head : loc) : ST lmem unit :=
  guard (EnableLock && negb LockHeld) (LinkLock newnode)
    (guard (EnableLock && negb LockHeld) (LinkLock head)
      (on_links (p ← load_prev head; util_list_add newnode p head))).

Definition list_remove (LockHeld : bool) (entry : loc) : ST lmem unit :=
  guard (EnableLock && negb LockHeld) (LinkLock entry)
    (on_links (util_list_remove_entry entry;;
               store_prev entry null;; store_next entry null)).

Definition list_remove_init (LockHeld : bool) (entry : loc) : ST lmem unit :=
  guard (EnableLock && negb LockHeld) (LinkLock entry)
    (on_links (util_list_remove_entry entry;;
               store_prev entry null;; store_next entry null;;
               util_list_init entry)).

(** Both branches of [list_replace] are the same code, without locks. *)
Definition list_replace (old newnode : loc) : ST lmem unit :=
  on_links (
    on ← load_next old;
    store_next newnode on;;
    nn ← load_next newnode;
    store_prev nn newnode;;
    op ← load_prev old;
    store_prev newnode op;;
    np ← load_prev newnode;
    store_next np newnode).

Definition list_empty (LockHeld : bool) (head : loc) : ST lmem bool :=
  guard (EnableLock && negb LockHeld) (LinkLock head)
    (on_links (n ← load_next head; mret (bool_decide (n = head)))).

(** Called with the default [LockHeld = false] only. *)
Definition list_swap (e1 e2 : loc) : ST lmem unit :=
  guard EnableLock (LinkLock e1) (guard EnableLock (LinkLock e2) (
    pos ← on_links (load_prev e2);
    list_remove_init EnableLock e2;;
    list_replace e1 e2;;
    list_add EnableLock e1 (if decide (pos = e1) then e2 else pos))).

(** Declared by the class and used nowhere: the variant that leaves [list] as is. *)
Definition list_splice (list head : loc) : ST lmem unit :=
  guard EnableLock (LinkLock list) (guard EnableLock (LinkLock head) (
    e ← list_empty EnableLock list;
    if (e : bool) then mret tt else
      on_links (n ← load_next head; util_list_splice list head n))).

Definition list_splice_init (list head : loc) : ST lmem unit :=
  guard EnableLock (LinkLock list) (guard EnableLock (LinkLock head) (
    e ← list_empty EnableLock list;
    if (e : bool) then mret tt else
      on_links (n ← load_next head; util_list_splice list head n;; util_list_init list))).

(** ** The class *)

(** [list_link(TParent *p)] at address [this]. *)
Definition new_link (this parent : loc) : ST lmem unit := λ s,
  Some (tt, Lmem (<[this := {| parent_ := parent; next_ := this; prev_ := this |}]> (links s))
              (held s) (deleted s)).

(** The end of the lifetime of a local [list_link]. *)
Definition free_link (this : loc) : ST lmem unit := λ s,
  Some (tt, Lmem (delete this (links s)) (held s) (deleted s)).

Definition load_link (p : loc) : ST lmem list_link := λ s,
  match links s !! p with Some c => Some (c, s) | None => None end.

(** [list_link::operator==]. *)
Definition list_link_eqb (a b : list_link) : bool :=
  bool_decide (parent_ a = parent_ b) && bool_decide (next_ a = next_ b)
    && bool_decide (prev_ a = prev_ b).

(** [list_link(list_link &&another)] at address [this]. *)
Definition list_link_move (this another : loc) : ST link_mem unit := λ m,
  match m !! another with
  | None => None
  | Some c => (
      n ← load_next this;
      store_prev n this;;
      p ← load_prev this;
      store_next p this;;
      (λ m, Some (tt, alter (λ c, {| parent_ := null; next_ := next_ c; prev_ := prev_ c |}) another m));;
      store_next another another;;
      store_prev another another) (<[this := c]> m)
  end.

(** [intrusive_list()] at address [head]. *)
Definition intrusive_list_new (head : loc) : ST lmem intrusive_list :=
  new_link head null;;
  guard EnableLock (ListLock head) (list_init false head);;
  mret {| head_ := head; size_ := 0 |}.

(** [intrusive_list(intrusive_list &&another)]: the new object and [another]. *)
Definition intrusive_list_move (head : loc) (another : intrusive_list)
    : ST lmem (intrusive_list * intrusive_list) :=
  on_links (list_link_move head (head_ another));;
  guard EnableLock (ListLock (head_ another))
    (mret ({| head_ := head; size_ := size_ another |}, with_size 0 another)).

Definition front_ptr (l : intrusive_list) : ST lmem loc :=
  n ← on_links (load_next (head_ l)); load_parent n.

Definition back_ptr (l : intrusive_list) : ST lmem loc :=
  p ← on_links (load_prev (head_ l)); load_parent p.

Definition begin_ (l : intrusive_list) : ST lmem loc := on_links (load_next (head_ l)).
Definition end_ (l : intrusive_list) : loc := head_ l.

Definition insert (l : intrusive_list) (iter item : loc) : ST lmem intrusive_list :=
  guard EnableLock (ListLock (head_ l)) (
    list_add false (node_link_ptr item) iter;;
    mret (with_size (size_ l +w 1) l)).

Definition erase (l : intrusive_list) (it : loc) : ST lmem intrusive_list :=
  e ← list_empty false (head_ l);
  if (e : bool) then mret l else
  guard EnableLock (ListLock (head_ l)) (
    list_remove_init false it;;
    t ← load_parent it;
    deleter_ t;;
    mret (with_size (size_ l -w 1) l)).

Definition remove (l : intrusive_list) (val : loc) : ST lmem intrusive_list :=
  e ← list_empty false (head_ l);
  if (e : bool) then mret l else
  guard EnableLock (ListLock (head_ l)) (
    list_remove_init false (node_link_ptr val);;
    deleter_ val;;
    mret (with_size (size_ l -w 1) l)).

Definition pop_back (l : intrusive_list) : ST lmem intrusive_list :=
  e ← list_empty false (head_ l);
  if (e : bool) then mret l else
  guard EnableLock (ListLock (head_ l)) (
    entry ← on_links (load_prev (head_ l));
    list_remove_init false entry;;
    t ← load_parent entry;
    deleter_ t;;
    mret (with_size (size_ l -w 1) l)).

Definition push_back (l : intrusive_list) (item : loc) : ST lmem intrusive_list :=
  guard EnableLock (ListLock (head_ l)) (
    list_add_tail false (node_link_ptr item) (head_ l);;
    mret (with_size (size_ l +w 1) l)).

Definition pop_front (l : intrusive_list) : ST lmem intrusive_list :=
  e ← list_empty false (head_ l);
  if (e : bool) then mret l else
  guard EnableLock (ListLock (head_ l)) (
    entry ← on_links (load_next (head_ l));
    list_remove_init false entry;;
    t ← load_parent entry;
    deleter_ t;;
    mret (with_size (size_ l -w 1) l)).

Definition push_front (l : intrusive_list) (item : loc) : ST lmem intrusive_list :=
  guard EnableLock (ListLock (head_ l)) (
    list_add false (node_link_ptr item) (head_ l);;
    mret (with_size (size_ l +w 1) l)).

(** The body of [do_clear]'s [list_for_safe] and the loop around it. *)
Definition clear_step (iter : loc) : ST lmem unit :=
  list_remove false iter;;
  t ← load_parent iter;
  if decide (t = null) then mret tt else deleter_ t.

Fixpoint clear_loop (fuel : nat) (h iter t : loc) : ST lmem unit :=
  match fuel with
  | O => st_fail
  | S fuel =>
      if decide (iter = h) then mret tt else
      clear_step iter;;
      t' ← on_links (load_next t);
      clear_loop fuel h t t'
  end.

Definition do_clear (fuel : nat) (l : intrusive_list) : ST lmem intrusive_list :=
  e ← list_empty false (head_ l);
  (if (e : bool) then mret tt else
     iter ← on_links (load_next (head_ l));
     t ← on_links (load_next iter);
     clear_loop fuel (head_ l) iter t);;
  mret (with_size 0 l).

Definition clear (fuel : nat) (l : intrusive_list) : ST lmem intrusive_list :=
  guard EnableLock (ListLock (head_ l)) (do_clear fuel l).

Definition swap (l another : intrusive_list) : ST lmem (intrusive_list * intrusive_list) :=
  guard EnableLock (ListLock (head_ l)) (
    list_swap (head_ l) (head_ another);;
    mret (with_size (size_ another) l, with_size (size_ l) another)).

Definition splice_at (l : intrusive_list) (pos : loc) (other : intrusive_list)
    : ST lmem (intrusive_list * intrusive_list) :=
  guard EnableLock (ListLock (head_ l)) (
    list_splice_init (head_ other) pos;;
    mret (with_size (size_ l +w size_ other) l, with_size 0 other)).

Definition splice (l other : intrusive_list) : ST lmem (intrusive_list * intrusive_list) :=
  guard EnableLock (ListLock (head_ l)) (
    list_splice_init (head_ other) (head_ l);;
    mret (with_size (size_ l +w size_ other) l, with_size 0 other)).

Definition size (l : intrusive_list) : Z := size_ l.

(** [list_for] of this header, counting. *)
Fixpoint size_loop (fuel : nat) (h iter : loc) (sz : Z) : ST lmem Z :=
  match fuel with
  | O => st_fail
  | S fuel =>
      if decide (iter = h) then mret sz else
      n ← on_links (load_next iter);
      size_loop fuel h n (sz +w 1)
  end.

Definition do_size_slow (fuel : nat) (l : intrusive_list) : ST lmem Z :=
  iter ← on_links (load_next (head_ l));
  size_loop fuel (head_ l) iter 0.

Definition size_slow (fuel : nat) (l : intrusive_list) : ST lmem Z :=
  guard EnableLock (ListLock (head_ l)) (do_size_slow fuel l).

Definition empty (l : intrusive_list) : ST lmem bool := list_empty false (head_ l).

(** [next = i->next_; list_remove_init(i); list_add_tail(i, &t_head)], returning [next]. *)
Definition move_to_tail (i t_head : loc) : ST lmem loc :=
  next ← on_links (load_next i);
  list_remove_init false i;;
  list_add_tail false i t_head;;
  mret next.

(** The first loop of [do_merge]; [cmp] compares two items. *)
Fixpoint merge_loop (cmp : loc → loc → bool) (fuel : nat) (h1 h2 t_head i1 i2 : loc)
    : ST lmem (loc * loc) :=
  match fuel with
  | O => st_fail
  | S fuel =>
      if decide (i1 = h1 ∨ i2 = h2) then mret (i1, i2) else
      a ← load_parent i1;
      b ← load_parent i2;
      if cmp a b then
        i1' ← move_to_tail i1 t_head;
        merge_loop cmp fuel h1 h2 t_head i1' i2
      else
        i2' ← move_to_tail i2 t_head;
        merge_loop cmp fuel h1 h2 t_head i1 i2'
  end.

(** The two loops that move what is left. *)
Fixpoint drain_loop (fuel : nat) (h t_head i : loc) : ST lmem unit :=
  match fuel with
  | O => st_fail
  | S fuel =>
      if decide (i = h) then mret tt else
      i' ← move_to_tail i t_head;
      drain_loop fuel h t_head i'
  end.

(** [t_head] is the address of the local of that name. *)
Definition do_merge (cmp : loc → loc → bool) (fuel : nat) (t_head : loc)
    (l another : intrusive_list) : ST lmem (intrusive_list * intrusive_list) :=
  c1 ← load_link (head_ l);
  c2 ← load_link (head_ another);
  if list_link_eqb c1 c2 then mret (l, another) else
  new_link t_head null;;
  i1 ← on_links (load_next (head_ l));
  i2 ← on_links (load_next (head_ another));
  i ← merge_loop cmp fuel (head_ l) (head_ another) t_head i1 i2;
  drain_loop fuel (head_ l) t_head i.1;;
  drain_loop fuel (head_ another) t_head i.2;;
  list_swap (head_ l) t_head;;
  free_link t_head;;
  mret (with_size (size_ l +w size_ another) l, with_size 0 another).

Definition merge (cmp : loc → loc → bool) (fuel : nat) (t_head : loc)
    (l another : intrusive_list) : ST lmem (intrusive_list * intrusive_list) :=
  guard EnableLock (ListLock (head_ l)) (
    guard EnableLock (ListLock (head_ another)) (
      do_merge cmp fuel t_head l another)).

End intrusive.

(** ** Running the operations *)

Lemma run_on_links {A} (c : ST link_mem A) m H D x m' :
  c m = Some (x, m') → on_links c (Lmem m H D) = Some (x, Lmem m' H D).
Proof. unfold on_links. simpl. by intros ->. Qed.

(** A guarded command runs with the lock held and gives it back. *)
Lemma run_guard {A} b l (c : ST lmem A) m H D x m' D' :
  (b = true → l ∉ H) →
  c (Lmem m (if b then {[l]} ∪ H else H) D) = Some (x, Lmem m' (if b then {[l]} ∪ H else H) D') →
  guard b l c (Lmem m H D) = Some (x, Lmem m' H D').
Proof.
  destruct b; simpl; intros Hl Hc; [|done]. unfold lock_acquire, lock_release, mbind, ST_bind. simpl.
  rewrite decide_False by auto. rewrite Hc. simpl. rewrite decide_True by set_solver.
  assert (({[l]} ∪ H) ∖ {[l]} = H) as Hs; [|by unfold mret, ST_ret; rewrite Hs].
  apply set_eq. specialize (Hl eq_refl). set_solver.
Qed.

(** The parent pointer of a cell, which no list operation changes. *)
Definition parent_of (m : link_mem) (p : loc) : option loc := parent_ <$> m !! p.

Lemma frame_parent X (m m' : link_mem) p : frame X m m' → parent_of m' p = parent_of m p.
Proof. intros [R _]. unfold parent_of. simpl in R. by rewrite <- !lookup_fmap, R. Qed.

Lemma parent_cell (m : link_mem) p t : parent_of m p = Some t → cell m p.
Proof. unfold parent_of, cell. simpl. rewrite fmap_is_Some. destruct (m !! p); [eauto|done]. Qed.

Lemma run_load_parent m H D p t :
  parent_of m p = Some t → load_parent p (Lmem m H D) = Some (t, Lmem m H D).
Proof. unfold parent_of, load_parent. simpl. destruct (m !! p); naive_solver. Qed.

Section link_specs.
Context {St : Type} `{!LinkMem St}.
Implicit Types s : St.

(** [list_remove_init]: like [list_remove], and the removed cell is an empty
    ring of its own. *)
Lemma remove_init_spec s h ys x zs :
  is_ring s h (ys ++ x :: zs) →
  ∃ s', (util_list_remove_entry x;; store_prev x null;; store_next x null;; util_list_init x) s
          = Some (tt, s') ∧
    is_ring s' h (ys ++ zs) ∧ is_ring s' x [] ∧ frame [x; pred_of h ys; succ_of h zs] s s'.
Proof.
  intros Hr. assert (x ∉ h :: ys ++ zs) as Hx.
  { apply ring_distinct in Hr. revert Hr. rewrite NoDup_cons, NoDup_app, NoDup_cons. set_solver. }
  destruct (list_remove_spec _ _ _ _ _ Hr) as (s1 & H1 & Hr1 & Hn & _ & F1).
  destruct (list_init_spec s1 x) as (s2 & H2 & Hr2 & F2); [by eapply nx_cell|].
  exists s2. split_and!; [|eapply frame_ring; [done| |done]; set_solver|done|].
  - unfold PodList.list_remove in H1. apply bind_inv in H1 as ([] & s0 & Ha & Hb).
    rewrite (bind_run _ _ _ _ _ Ha), (seq_run _ _ _ _ _ _ Hb). exact H2.
  - eapply frame_trans; [done|]. eapply frame_weaken; [|done]. set_solver.
Qed.

Lemma remove_init_lone s h :
  is_ring s h [] →
  ∃ s', (util_list_remove_entry h;; store_prev h null;; store_next h null;; util_list_init h) s
          = Some (tt, s') ∧ is_ring s' h [] ∧ frame [h] s s'.
Proof.
  intros Hr. destruct (remove_lone_head s h Hr) as (s1 & H1 & F1).
  destruct (list_init_spec s1 h) as (s2 & H2 & Hr2 & F2).
  { eapply frame_cell; [done|]. eapply is_ring_cells; [done|left]. }
  exists s2. split_and!; [|done|by eapply frame_trans].
  unfold PodList.list_remove in H1. apply bind_inv in H1 as ([] & s0 & Ha & Hb).
  rewrite (bind_run _ _ _ _ _ Ha), (seq_run _ _ _ _ _ _ Hb). exact H2.
Qed.

(** Detaching a head from its members, which become a ring of their own. *)
Lemma remove_init_head s h f t :
  is_ring s h (f :: t) →
  ∃ s', (util_list_remove_entry h;; store_prev h null;; store_next h null;; util_list_init h) s
          = Some (tt, s') ∧ is_ring s' f t ∧ frame (h :: f :: t) s s'.
Proof.
  intros Hr%ring_rotate_head. destruct (remove_init_spec s f t h [] Hr) as (s' & Hrun & Hr' & _ & F).
  rewrite app_nil_r in Hr'. exists s'. split_and!; [done..|].
  pose proof (pred_of_elem f t). eapply frame_weaken; [|done]. set_solver.
Qed.

Lemma run_splice s k f p n l :
  nx s k = Some f → pv s k = Some l → cell s f → cell s l → cell s p → cell s n →
  f ≠ n → p ≠ l →
  ∃ s', util_list_splice k p n s = Some (tt, s') ∧
    effect s s'
      (λ q, if decide (q = l) then Some n else if decide (q = p) then Some f else nx s q)
      (λ q, if decide (q = n) then Some l else if decide (q = f) then Some p else pv s q).
Proof.
  intros Hn Hp Hf Hl Hcp Hcn ??. eexists. split.
  { unfold util_list_splice. run with @run_load_next; [|done]. run with @run_load_prev; [|done].
    run with @run_store_prev; [|done]. run with @run_store_next; [|by autorewrite with links].
    run with @run_store_next; [|by autorewrite with links].
    apply run_store_prev. by autorewrite with links. }
  split_and!; [by autorewrite with links| | |by intros q; autorewrite with links];
    intros q; autorewrite with links; repeat case_decide; subst; simpl; try done;
    repeat first [rewrite (cell_nx_set s) by done | rewrite (cell_pv_set s) by done]; done.
Qed.

End link_specs.

(** ** The list and the sequence of items it represents *)

Section specs.
Context (EnableLock : bool) (node_link_ptr : loc → loc).
Implicit Types (m : link_mem) (H : gset lock_id) (D : list loc) (l : intrusive_list).
Implicit Types (ts us : list loc) (t : loc).

#[local] Abbreviation link := node_link_ptr.

(** None of the locks [ls] is held. *)
Definition avail H (ls : list lock_id) : Prop :=
  EnableLock = true → Forall (λ i, i ∉ H) ls.

(** The list locks that this CPU holds leave every cell lock free. *)
Definition links_free H : Prop := EnableLock = true → ∀ p, LinkLock p ∉ H.

(** [t] is an item: its link points back to it. *)
Definition node m t : Prop := parent_of m (link t) = Some t ∧ t ≠ null.

Record repr m l ts : Prop := {
  repr_ring : is_ring m (head_ l) (link <$> ts);
  repr_node : Forall (node m) ts;
  repr_head : parent_of m (head_ l) = Some null;
  repr_size : size_ l = wrap64 (Z.of_nat (length ts));
}.

(** The cells of a list. *)
Definition cells l ts : list loc := head_ l :: (link <$> ts).

Lemma node_frame X m m' t : frame X m m' → node m t → node m' t.
Proof. intros F [Hp ?]. split; [|done]. by rewrite (frame_parent _ _ _ _ F). Qed.

Lemma nodes_frame X m m' ts : frame X m m' → Forall (node m) ts → Forall (node m') ts.
Proof. intros F N. eapply Forall_impl; [done|]. intros t. by apply node_frame with X. Qed.

Lemma node_cell m t : node m t → cell m (link t).
Proof. intros [Hp _]. by eapply parent_cell. Qed.

Lemma repr_frame X m m' l ts :
  frame X m m' → (∀ q, q ∈ cells l ts → q ∉ X) → repr m l ts → repr m' l ts.
Proof.
  intros F HX [R N Hh S]. split; [by eapply frame_ring|by eapply nodes_frame| |done].
  by rewrite (frame_parent _ _ _ _ F).
Qed.

(** The invariant after an operation that relinked the ring to [us]. *)
Lemma repr_update X m m' l ts us z :
  repr m l ts → frame X m m' → is_ring m' (head_ l) (link <$> us) → Forall (node m) us →
  z = wrap64 (Z.of_nat (length us)) → repr m' (with_size z l) us.
Proof.
  intros [_ _ Hh _] F R N E. split; [done|by eapply nodes_frame| |done].
  by rewrite (frame_parent _ _ _ _ F).
Qed.

Lemma links_avail H p : links_free H → EnableLock && negb false = true → LinkLock p ∉ H.
Proof. rewrite andb_true_r. auto. Qed.

Lemma links_free_list b H h :
  links_free H → links_free (if b : bool then {[ListLock h]} ∪ H else H).
Proof. intros Hf HE p. specialize (Hf HE p). destruct b; set_solver. Qed.

Lemma wrap64_succ n : wrap64 (Z.of_nat n) +w 1 = wrap64 (Z.of_nat (S n)).
Proof. unfold wrap64. rewrite Zplus_mod_idemp_l. f_equal. lia. Qed.

Lemma wrap64_pred n : wrap64 (Z.of_nat (S n)) -w 1 = wrap64 (Z.of_nat n).
Proof. unfold wrap64. rewrite Zminus_mod_idemp_l. f_equal. lia. Qed.

Lemma wrap64_plus a b : wrap64 a +w wrap64 b = wrap64 (a + b).
Proof. unfold wrap64. by rewrite <- Zplus_mod. Qed.

(** *** The cell operations, under their locks *)

Lemma run_guard2 {A} b (p q : loc) (c : ST link_mem A) m H D x m' :
  links_free H → (b = true → EnableLock = true) → p ≠ q → c m = Some (x, m') →
  guard b (LinkLock p) (guard b (LinkLock q) (on_links c)) (Lmem m H D) = Some (x, Lmem m' H D).
Proof.
  intros Hf Hb ? Hc. apply run_guard; [intros E; by apply Hf, Hb|].
  apply run_guard; [|by apply run_on_links]. intros ->. specialize (Hf (Hb eq_refl) q). set_solver.
Qed.

Lemma run_list_empty m H D h xs :
  links_free H → is_ring m h xs →
  list_empty EnableLock false h (Lmem m H D) = Some (bool_decide (xs = []), Lmem m H D).
Proof.
  intros Hf Hr. apply run_guard; [by apply links_avail|]. apply run_on_links.
  by apply (list_empty_spec m h xs).
Qed.

Lemma run_list_add m H D h ys zs new :
  links_free H → is_ring m h (ys ++ zs) → cell m new → new ∉ h :: ys ++ zs →
  ∃ m', list_add EnableLock false new (pred_of h ys) (Lmem m H D) = Some (tt, Lmem m' H D) ∧
    is_ring m' h (ys ++ new :: zs) ∧ frame [new; pred_of h ys; succ_of h zs] m m'.
Proof.
  intros Hf Hr Hc Hn. destruct (list_add_spec m h ys zs new Hr Hc Hn) as (m' & Hrun & ?).
  exists m'. split; [|done]. apply run_guard2; [done|by rewrite andb_true_r| |exact Hrun].
  pose proof (pred_of_elem h ys). intros ->. set_solver.
Qed.

Lemma run_list_add_tail m H D h ys zs new :
  links_free H → is_ring m h (ys ++ zs) → cell m new → new ∉ h :: ys ++ zs →
  ∃ m', list_add_tail EnableLock false new (succ_of h zs) (Lmem m H D) = Some (tt, Lmem m' H D) ∧
    is_ring m' h (ys ++ new :: zs) ∧ frame [new; pred_of h ys; succ_of h zs] m m'.
Proof.
  intros Hf Hr Hc Hn. destruct (list_add_tail_spec m h ys zs new Hr Hc Hn) as (m' & Hrun & ?).
  exists m'. split; [|done]. apply run_guard2; [done|by rewrite andb_true_r| |exact Hrun].
  pose proof (succ_of_elem h zs). intros ->. set_solver.
Qed.

Lemma run_list_remove_init m H D h ys x zs :
  links_free H → is_ring m h (ys ++ x :: zs) →
  ∃ m', list_remove_init EnableLock false x (Lmem m H D) = Some (tt, Lmem m' H D) ∧
    is_ring m' h (ys ++ zs) ∧ is_ring m' x [] ∧ frame [x; pred_of h ys; succ_of h zs] m m'.
Proof.
  intros Hf Hr. destruct (remove_init_spec m h ys x zs Hr) as (m' & Hrun & ?).
  exists m'. split; [|done]. apply run_guard; [by apply links_avail|]. by apply run_on_links.
Qed.

(** *** Insertion *)

(** Frames of single updates lie within the cells of the list. *)
Lemma near_cells l ys zs t X :
  X ⊆ [link t; pred_of (head_ l) (link <$> ys); succ_of (head_ l) (link <$> zs)] →
  X ⊆ cells l (ys ++ t :: zs).
Proof.
  intros HX q Hq%HX. pose proof (pred_of_elem (head_ l) (link <$> ys)).
  pose proof (succ_of_elem (head_ l) (link <$> zs)). unfold cells. rewrite fmap_app, fmap_cons.
  set_solver.
Qed.

(** [insert] puts the item right after the position: after the head when
    [ys] is empty, after the last item of [ys] otherwise. *)
Lemma insert_ok m H D l ys zs t :
  repr m l (ys ++ zs) → node m t → link t ∉ cells l (ys ++ zs) →
  links_free H → avail H [ListLock (head_ l)] →
  ∃ m' l', insert EnableLock link l (pred_of (head_ l) (link <$> ys)) t (Lmem m H D)
      = Some (l', Lmem m' H D) ∧ head_ l' = head_ l ∧
    repr m' l' (ys ++ t :: zs) ∧ frame (cells l (ys ++ t :: zs)) m m'.
Proof.
  intros R Nt Ht Hf Ha. pose proof R as [Hr N _ S]. unfold cells in Ht. rewrite fmap_app in Hr, Ht.
  destruct (run_list_add m (if EnableLock then {[ListLock (head_ l)]} ∪ H else H) D
    (head_ l) (link <$> ys) (link <$> zs) (link t)) as (m' & Hrun & Hr' & F);
    [by apply links_free_list|done|by apply node_cell|done|].
  exists m', (with_size (size_ l +w 1) l). split_and!; [|done| |].
  - apply run_guard; [intros E; by specialize (Ha E); inversion Ha|]. by rewrite (bind_run _ _ _ _ _ Hrun).
  - eapply repr_update; [done|done|by rewrite fmap_app| |].
    + apply Forall_app in N as [??]. apply Forall_app; auto.
    + rewrite S, wrap64_succ. do 2 f_equal. rewrite !length_app. simpl. lia.
  - eapply frame_weaken; [|done]. by apply near_cells.
Qed.

Lemma push_front_ok m H D l ts t :
  repr m l ts → node m t → link t ∉ cells l ts → links_free H → avail H [ListLock (head_ l)] →
  ∃ m' l', push_front EnableLock link l t (Lmem m H D) = Some (l', Lmem m' H D) ∧
    head_ l' = head_ l ∧ repr m' l' (t :: ts) ∧ frame (cells l (t :: ts)) m m'.
Proof. apply (insert_ok m H D l [] ts t). Qed.

Lemma push_back_ok m H D l ts t :
  repr m l ts → node m t → link t ∉ cells l ts → links_free H → avail H [ListLock (head_ l)] →
  ∃ m' l', push_back EnableLock link l t (Lmem m H D) = Some (l', Lmem m' H D) ∧
    head_ l' = head_ l ∧ repr m' l' (ts ++ [t]) ∧ frame (cells l (ts ++ [t])) m m'.
Proof.
  intros R Nt Ht Hf Ha. pose proof R as [Hr N _ S].
  destruct (run_list_add_tail m (if EnableLock then {[ListLock (head_ l)]} ∪ H else H) D
    (head_ l) (link <$> ts) [] (link t)) as (m' & Hrun & Hr' & F);
    rewrite ?app_nil_r; [by apply links_free_list|done|by apply node_cell|done|].
  exists m', (with_size (size_ l +w 1) l). split_and!; [|done| |].
  - apply run_guard; [intros E; by specialize (Ha E); inversion Ha|]. by rewrite (bind_run _ _ _ _ _ Hrun).
  - eapply repr_update; [done|done|by rewrite fmap_app| |].
    + apply Forall_app; auto.
    + rewrite S, wrap64_succ. do 2 f_equal. rewrite length_app. simpl. lia.
  - eapply frame_weaken; [|done]. by apply near_cells.
Qed.

(** *** Removal *)

(** Unlinking the item [t]: what [erase], [remove] and the two pops share. *)
Lemma run_take m H D l ys t zs :
  repr m l (ys ++ t :: zs) → links_free H →
  ∃ m', list_remove_init EnableLock false (link t) (Lmem m H D) = Some (tt, Lmem m' H D) ∧
    repr m' (with_size (size_ l -w 1) l) (ys ++ zs) ∧ is_ring m' (link t) [] ∧
    parent_of m' (link t) = Some t ∧ frame (cells l (ys ++ t :: zs)) m m'.
Proof.
  intros R Hf. pose proof R as [Hr N _ S]. rewrite fmap_app in Hr.
  apply Forall_app in N as [N1 [Nt N2]%Forall_cons].
  destruct (run_list_remove_init m H D (head_ l) (link <$> ys) (link t) (link <$> zs))
    as (m' & Hrun & Hr' & Hx & F); [done..|].
  exists m'. split_and!; [done| |done| |].
  - eapply repr_update; [done|done|by rewrite fmap_app|by apply Forall_app|].
    rewrite S. rewrite !length_app. simpl. by rewrite Nat.add_succ_r, wrap64_pred.
  - rewrite (frame_parent _ _ _ _ F). apply Nt.
  - eapply frame_weaken; [|done]. by apply near_cells.
Qed.

(** What every removal ends with. *)
Definition removed l ts t us m H D (r : option (intrusive_list * lmem)) : Prop :=
  ∃ m' l', r = Some (l', Lmem m' H (D ++ [t])) ∧ head_ l' = head_ l ∧ repr m' l' us ∧
    is_ring m' (link t) [] ∧ frame (cells l ts) m m'.

Ltac free_list_lock Ha :=
  let HE := fresh in intros HE; by specialize (Ha HE); inversion Ha.

Lemma nonempty_mid ys t zs :
  bool_decide ((link <$> ys ++ t :: zs) = []) = false.
Proof. apply bool_decide_eq_false. by destruct ys. Qed.

Ltac start_removal R Hf Ha :=
  erewrite bind_run by (eapply run_list_empty; [exact Hf|apply R]); rewrite nonempty_mid;
  apply run_guard; [free_list_lock Ha|].

Lemma erase_ok m H D l ys t zs :
  repr m l (ys ++ t :: zs) → links_free H → avail H [ListLock (head_ l)] →
  removed l (ys ++ t :: zs) t (ys ++ zs) m H D (erase EnableLock l (link t) (Lmem m H D)).
Proof.
  intros R Hf Ha.
  edestruct (run_take m (if EnableLock then {[ListLock (head_ l)]} ∪ H else H) D l ys t zs)
    as (m' & Hrun & R' & Hx & Hp & F); [done|by apply links_free_list|].
  exists m', (with_size (size_ l -w 1) l). split_and!; try done.
  unfold erase. start_removal R Hf Ha. rewrite (bind_run _ _ _ _ _ Hrun).
  by run with @run_load_parent; [|done].
Qed.

Lemma remove_ok m H D l ys t zs :
  repr m l (ys ++ t :: zs) → links_free H → avail H [ListLock (head_ l)] →
  removed l (ys ++ t :: zs) t (ys ++ zs) m H D (remove EnableLock link l t (Lmem m H D)).
Proof.
  intros R Hf Ha.
  edestruct (run_take m (if EnableLock then {[ListLock (head_ l)]} ∪ H else H) D l ys t zs)
    as (m' & Hrun & R' & Hx & Hp & F); [done|by apply links_free_list|].
  exists m', (with_size (size_ l -w 1) l). split_and!; try done.
  unfold remove. start_removal R Hf Ha. by rewrite (bind_run _ _ _ _ _ Hrun).
Qed.

Lemma pop_front_ok m H D l t ts :
  repr m l (t :: ts) → links_free H → avail H [ListLock (head_ l)] →
  removed l (t :: ts) t ts m H D (pop_front EnableLock l (Lmem m H D)).
Proof.
  intros R Hf Ha.
  edestruct (run_take m (if EnableLock then {[ListLock (head_ l)]} ∪ H else H) D l [] t ts)
    as (m' & Hrun & R' & Hx & Hp & F); [done|by apply links_free_list|].
  exists m', (with_size (size_ l -w 1) l). split_and!; try done.
  unfold pop_front. erewrite bind_run by (eapply run_list_empty; [exact Hf|apply R]).
  apply run_guard; [free_list_lock Ha|].
  erewrite bind_run by apply run_on_links, run_load_next, (ring_next_of m _ [] _ (repr_ring _ _ _ R)).
  rewrite (bind_run _ _ _ _ _ Hrun). by run with @run_load_parent; [|done].
Qed.

Lemma pop_back_ok m H D l ts t :
  repr m l (ts ++ [t]) → links_free H → avail H [ListLock (head_ l)] →
  removed l (ts ++ [t]) t ts m H D (pop_back EnableLock l (Lmem m H D)).
Proof.
  intros R Hf Ha.
  edestruct (run_take m (if EnableLock then {[ListLock (head_ l)]} ∪ H else H) D l ts t [])
    as (m' & Hrun & R' & Hx & Hp & F); [done|by apply links_free_list|]. rewrite app_nil_r in R'.
  exists m', (with_size (size_ l -w 1) l). split_and!; try done.
  unfold pop_back. start_removal R Hf Ha.
  pose proof (repr_ring _ _ _ R) as Hr. rewrite <- (app_nil_r (link <$> _)) in Hr.
  apply ring_prev_of in Hr. rewrite fmap_app in Hr. simpl in Hr. rewrite pred_of_snoc in Hr.
  erewrite bind_run by by apply run_on_links, run_load_prev.
  rewrite (bind_run _ _ _ _ _ Hrun). by run with @run_load_parent; [|done].
Qed.

(** On an empty list the removals change nothing. *)
Lemma removals_empty m H D l :
  repr m l [] → links_free H →
  pop_front EnableLock l (Lmem m H D) = Some (l, Lmem m H D) ∧
  pop_back EnableLock l (Lmem m H D) = Some (l, Lmem m H D) ∧
  (∀ t, remove EnableLock link l t (Lmem m H D) = Some (l, Lmem m H D)) ∧
  (∀ it, erase EnableLock l it (Lmem m H D) = Some (l, Lmem m H D)).
Proof.
  intros R Hf. split_and!; intros; unfold pop_front, pop_back, remove, erase;
    by erewrite bind_run by (eapply run_list_empty; [exact Hf|apply R]).
Qed.

(** *** Observers *)

Lemma front_back_ok m H D l ts :
  repr m l ts →
  front_ptr l (Lmem m H D) = Some (default null (head ts), Lmem m H D) ∧
  back_ptr l (Lmem m H D) = Some (default null (last ts), Lmem m H D).
Proof.
  intros [Hr N Hh _]. split.
  - unfold front_ptr. erewrite bind_run by apply run_on_links, run_load_next, (ring_next_of m _ [] _ Hr).
    apply run_load_parent. destruct ts as [|t ts]; [done|]. by apply Forall_cons in N as [[? _] _].
  - unfold back_ptr. rewrite <- (app_nil_r (link <$> ts)) in Hr. apply ring_prev_of in Hr.
    erewrite bind_run by apply run_on_links, run_load_prev, Hr. apply run_load_parent.
    unfold pred_of. rewrite fmap_last. destruct (last ts) as [t|] eqn:E; [|done]. simpl.
    rewrite Forall_forall in N. apply last_Some in E as [ts' ->]. apply N. set_solver.
Qed.

Lemma size_loop_ok m H D h ys zs fuel sz :
  is_ring m h (ys ++ zs) → (length zs < fuel)%nat →
  size_loop fuel h (succ_of h zs) sz (Lmem m H D)
    = Some (if decide (zs = []) then sz else wrap64 (sz + Z.of_nat (length zs)), Lmem m H D).
Proof.
  revert ys fuel sz. induction zs as [|z zs IH]; intros ys fuel sz Hr Hf.
  - destruct fuel; [lia|]. simpl. by rewrite decide_True.
  - destruct fuel; [simpl in Hf; lia|]. simpl. rewrite decide_False.
    2:{ apply ring_distinct in Hr as [? _]%NoDup_cons. set_solver. }
    erewrite bind_run by apply run_on_links, run_load_next, (ring_member_next _ _ _ _ _ Hr).
    rewrite (IH (ys ++ [z])); [|by rewrite <- app_assoc|simpl in Hf; lia].
    do 2 f_equal. destruct zs; simpl; [done|]. unfold wrap64. rewrite Zplus_mod_idemp_l. f_equal. lia.
Qed.

(** The counted size is the recorded one. *)
Lemma size_slow_ok m H D l ts fuel :
  repr m l ts → avail H [ListLock (head_ l)] → (length ts < fuel)%nat →
  size_slow EnableLock fuel l (Lmem m H D) = Some (size l, Lmem m H D).
Proof.
  intros [Hr _ _ S] Ha Hf. apply run_guard; [free_list_lock Ha|].
  unfold do_size_slow. erewrite bind_run by apply run_on_links, run_load_next, (ring_next_of m _ [] _ Hr).
  rewrite (size_loop_ok m _ D _ [] _ fuel 0 Hr) by by rewrite length_fmap.
  unfold size. rewrite S, length_fmap. by destruct ts.
Qed.

(** *** [clear] *)

Lemma clear_step_ok m H D h t ts :
  is_ring m h (link t :: (link <$> ts)) → node m t → links_free H →
  ∃ m', clear_step EnableLock (link t) (Lmem m H D) = Some (tt, Lmem m' H (D ++ [t])) ∧
    is_ring m' h (link <$> ts) ∧ nx m' (link t) = Some null ∧ pv m' (link t) = Some null ∧
    frame (h :: link t :: (link <$> ts)) m m'.
Proof.
  intros Hr [Hp Hnull] Hf.
  destruct (list_remove_spec m h [] (link t) (link <$> ts) Hr) as (m' & Hrun & Hr' & Hn & Hv & F).
  exists m'. split_and!; try done.
  - unfold clear_step. erewrite bind_run.
    2:{ apply run_guard; [by apply links_avail|]. by apply run_on_links. }
    run with @run_load_parent; [|by rewrite (frame_parent _ _ _ _ F)]. by rewrite decide_False.
  - eapply frame_weaken; [|done]. pose proof (succ_of_elem h (link <$> ts)). simpl. set_solver.
Qed.

(** The links of cleared items are null. *)
Definition unlinked m t : Prop := nx m (link t) = Some null ∧ pv m (link t) = Some null.

Lemma clear_loop_ok ts m H D h fuel n :
  is_ring m h (link <$> ts) → Forall (node m) ts → links_free H → (length ts < fuel)%nat →
  nx m (succ_of h (link <$> ts)) = Some n →
  ∃ m', clear_loop EnableLock fuel h (succ_of h (link <$> ts)) n (Lmem m H D)
      = Some (tt, Lmem m' H (D ++ ts)) ∧
    is_ring m' h [] ∧ Forall (unlinked m') ts ∧ frame (h :: (link <$> ts)) m m'.
Proof.
  revert m D fuel n. induction ts as [|t ts IH]; intros m D fuel n Hr N Hf Hl Hn.
  - destruct fuel; [simpl in *; lia|]. exists m. simpl. rewrite decide_True, app_nil_r by done. by split_and!.
  - destruct fuel; [simpl in *; lia|]. apply Forall_cons in N as [Nt N].
    destruct (clear_step_ok m H D h t ts) as (m1 & H1 & Hr1 & Hn1 & Hp1 & F1); [done..|].
    pose proof (ring_distinct _ _ _ Hr) as [Hh Hd]%NoDup_cons. apply NoDup_cons in Hd as [Ht Hd].
    pose proof (ring_member_next m h [] (link t) _ Hr) as Hn2.
    change (nx m (link t) = Some n) in Hn. rewrite Hn2 in Hn. injection Hn as <-.
    change (succ_of h (link <$> t :: ts)) with (link t). cbn [clear_loop].
    assert (is_Some (nx m1 (succ_of h (link <$> ts)))) as [n' Hn'].
    { eapply is_ring_cells; [done|]. apply succ_of_elem. }
    destruct (IH m1 (D ++ [t]) fuel n') as (m2 & H2 & Hr2 & U & F2); [done|by eapply nodes_frame|done|simpl in *; lia|done|].
    assert (link t ∉ h :: (link <$> ts)) as Hout.
    { apply not_elem_of_cons. split; [|done]. intros E. apply Hh, elem_of_cons. by left. }
    exists m2. split_and!; [|done| |].
    + rewrite decide_False by set_solver. rewrite (bind_run _ _ _ _ _ H1).
      erewrite bind_run by apply run_on_links, run_load_next, Hn'.
      etransitivity; [exact H2|]. by rewrite <- app_assoc.
    + apply Forall_cons. split; [|done]. destruct F2 as (_ & A & _). destruct (A _ Hout) as [E1 E2].
      unfold unlinked. by rewrite E1, E2.
    + eapply frame_trans; [done|]. eapply frame_weaken; [|done]. simpl. set_solver.
Qed.

Lemma clear_ok m H D l ts fuel :
  repr m l ts → links_free H → avail H [ListLock (head_ l)] → (length ts < fuel)%nat →
  ∃ m' l', clear EnableLock fuel l (Lmem m H D) = Some (l', Lmem m' H (D ++ ts)) ∧
    head_ l' = head_ l ∧ repr m' l' [] ∧ Forall (unlinked m') ts ∧ frame (cells l ts) m m'.
Proof.
  intros R Hf Ha Hl. pose proof R as [Hr N Hh _].
  set (H' := if EnableLock then {[ListLock (head_ l)]} ∪ H else H).
  assert (links_free H') as Hf' by by apply links_free_list.
  assert (is_Some (nx m (succ_of (head_ l) (link <$> ts)))) as [n Hn].
  { eapply is_ring_cells; [done|]. apply succ_of_elem. }
  destruct (clear_loop_ok ts m H' D (head_ l) fuel n) as (m' & Hrun & Hr' & U & F); [done..|].
  destruct (decide (ts = [])) as [->|Hne].
  - exists m, (with_size 0 l). split_and!; [|done|by eapply (repr_update [])|done|done].
    apply run_guard; [free_list_lock Ha|]. fold H'. unfold do_clear.
    erewrite bind_run by (eapply run_list_empty; [exact Hf'|exact Hr]). by rewrite app_nil_r.
  - exists m', (with_size 0 l). split_and!; [|done|by eapply repr_update|done|done].
    apply run_guard; [free_list_lock Ha|]. fold H'. unfold do_clear.
    erewrite bind_run by (eapply run_list_empty; [exact Hf'|exact Hr]).
    rewrite bool_decide_false by by destruct ts.
    rewrite (bind_run _ _ _ tt (Lmem m' H' (D ++ ts))); [done|].
    erewrite bind_run by apply run_on_links, run_load_next, (ring_next_of m _ [] _ Hr).
    by erewrite bind_run by apply run_on_links, run_load_next, Hn.
Qed.

(** *** [swap] and [splice] *)

Lemma held_lock_id {A} i (c : ST lmem A) : guard (EnableLock && negb EnableLock) i c = c.
Proof. by rewrite andb_negb_r. Qed.

(** Runs the body of a command guarded by the locks of two distinct cells. *)
Lemma run_locked2 {A} p q (c : ST lmem A) m H D x m' :
  links_free H → p ≠ q → (∀ H', c (Lmem m H' D) = Some (x, Lmem m' H' D)) →
  guard EnableLock (LinkLock p) (guard EnableLock (LinkLock q) c) (Lmem m H D)
    = Some (x, Lmem m' H D).
Proof.
  intros Hf ? Hc. apply run_guard; [intros E; by apply Hf|]. apply run_guard; [|by apply Hc].
  intros E. specialize (Hf E q). rewrite E. set_solver.
Qed.

Lemma run_list_swap m H D e1 xs e2 f (t : list loc) :
  links_free H → is_ring m e1 xs → is_ring m e2 (f :: t) → NoDup ((e1 :: xs) ++ e2 :: f :: t) →
  ∃ m', list_swap EnableLock e1 e2 (Lmem m H D) = Some (tt, Lmem m' H D) ∧
    is_ring m' e1 (f :: t) ∧ is_ring m' e2 xs ∧ frame (e1 :: e2 :: f :: t ++ xs) m m'.
Proof.
  intros Hf Hr1 Hr2 Hnd. pose proof Hnd as (_ & Hd & _)%NoDup_app.
  pose proof (ring_prev_of m e2 (f :: t) []) as Hpos. rewrite app_nil_r in Hpos.
  specialize (Hpos Hr2). cbn [succ_of head default] in Hpos. rewrite pred_of_cons in Hpos.
  pose proof (pred_of_elem f t) as Hl.
  destruct (remove_init_head m e2 f t Hr2) as (m1 & H1 & Hf1 & F1).
  destruct (reseat_heads m1 e1 xs e2 f t) as (m2 & m3 & H2 & H3 & Hr1' & Hr2' & F2); [|done| |done|].
  { eapply frame_ring; [done| |done]. intros q Hq. by apply Hd. }
  { eapply frame_cell; [done|]. by eapply pv_cell. }
  exists m3. split_and!; [|done|done|].
  - apply run_locked2; [done| |intros H'].
    { intros ->. eapply Hd; left. }
    unfold list_remove_init, list_add. rewrite !held_lock_id.
    erewrite bind_run by by apply run_on_links, run_load_prev.
    erewrite bind_run by by apply run_on_links. erewrite bind_run by by apply run_on_links.
    rewrite decide_False; [by rewrite !held_lock_id; apply run_on_links|]. intros <-. eapply Hd; [left|by right].
  - eapply frame_trans; [|done]. eapply frame_weaken; [|done]. set_solver.
Qed.

Lemma run_list_swap_lone m H D e1 xs e2 :
  links_free H → is_ring m e1 xs → is_ring m e2 [] → e2 ∉ e1 :: xs →
  ∃ m', list_swap EnableLock e1 e2 (Lmem m H D) = Some (tt, Lmem m' H D) ∧
    is_ring m' e2 (e1 :: xs) ∧ frame (e2 :: e1 :: xs) m m'.
Proof.
  intros Hf Hr1 Hr2 Hne. destruct (ring_adj _ [] [] Hr2) as [Hn Hp].
  destruct (remove_init_lone m e2 Hr2) as (m1 & H1 & Hr2' & F1).
  destruct (list_replace_head m1 e1 xs e2) as (m2 & H2 & Hr3 & F2); [|by eapply is_ring_cells; [|left]|done|].
  { eapply frame_ring; [done| |done]. set_solver. }
  destruct (list_add_spec m2 e2 [] xs e1) as (m3 & H3 & Hr4 & F3); [done| | |].
  { apply (frame_cell _ _ _ _ F2), (frame_cell _ _ _ _ F1). eapply is_ring_cells; [exact Hr1|left]. }
  { apply ring_distinct in Hr1 as [? _]%NoDup_cons. set_solver. }
  exists m3. split_and!; [|done|].
  - apply run_locked2; [done|set_solver|intros H'].
    unfold list_remove_init, list_add. rewrite !held_lock_id.
    erewrite bind_run by apply run_on_links, run_load_prev, Hp.
    erewrite bind_run by by apply run_on_links. erewrite bind_run by by apply run_on_links.
    rewrite decide_False; [by rewrite !held_lock_id; apply run_on_links|]. simpl. set_solver.
  - pose proof (succ_of_elem e2 xs). eapply frame_trans; [|eapply frame_trans];
      (eapply frame_weaken; [|done]); set_solver.
Qed.

Lemma swap_ok m H D l ts l2 u us :
  repr m l ts → repr m l2 (u :: us) → NoDup (cells l ts ++ cells l2 (u :: us)) →
  links_free H → avail H [ListLock (head_ l)] →
  ∃ m' l' l2', swap EnableLock l l2 (Lmem m H D) = Some ((l', l2'), Lmem m' H D) ∧
    head_ l' = head_ l ∧ head_ l2' = head_ l2 ∧ repr m' l' (u :: us) ∧ repr m' l2' ts ∧
    frame (cells l ts ++ cells l2 (u :: us)) m m'.
Proof.
  intros R1 R2 Hnd Hf Ha. pose proof R1 as [Hr1 N1 _ S1]. pose proof R2 as [Hr2 N2 _ S2].
  destruct (run_list_swap m (if EnableLock then {[ListLock (head_ l)]} ∪ H else H) D
    (head_ l) (link <$> ts) (head_ l2) (link u) (link <$> us)) as (m' & Hrun & Hr1' & Hr2' & F);
    [by apply links_free_list|done..|].
  exists m', (with_size (size_ l2) l), (with_size (size_ l) l2). split_and!; [|done|done| | |].
  - apply run_guard; [free_list_lock Ha|]. by rewrite (bind_run _ _ _ _ _ Hrun).
  - by eapply repr_update.
  - by eapply repr_update.
  - eapply frame_weaken; [|done]. unfold cells. rewrite fmap_cons. set_solver.
Qed.

(** With an empty second list [swap] loses the first one: its head becomes a
    member of the second ring, whose recorded size is then wrong by one. *)
Lemma swap_empty_ok m H D l ts l2 :
  repr m l ts → repr m l2 [] → head_ l2 ∉ cells l ts →
  links_free H → avail H [ListLock (head_ l)] →
  ∃ m' l' l2', swap EnableLock l l2 (Lmem m H D) = Some ((l', l2'), Lmem m' H D) ∧
    is_ring m' (head_ l2') (head_ l' :: (link <$> ts)) ∧
    size_ l' = 0 ∧ size_ l2' = wrap64 (Z.of_nat (length ts)).
Proof.
  intros R1 R2 Hnd Hf Ha. pose proof R1 as [Hr1 _ _ S1]. pose proof R2 as [Hr2 _ _ S2].
  destruct (run_list_swap_lone m (if EnableLock then {[ListLock (head_ l)]} ∪ H else H) D
    (head_ l) (link <$> ts) (head_ l2)) as (m' & Hrun & Hr' & F);
    [by apply links_free_list|done..|].
  exists m', (with_size (size_ l2) l), (with_size (size_ l) l2). split_and!; [|done|by rewrite S2|done].
  apply run_guard; [free_list_lock Ha|]. by rewrite (bind_run _ _ _ _ _ Hrun).
Qed.

Lemma splice_links m h ys zs k us :
  is_ring m h (ys ++ zs) → is_ring m k us → NoDup ((h :: ys ++ zs) ++ k :: us) → us ≠ [] →
  ∃ m', (n ← load_next (pred_of h ys); util_list_splice k (pred_of h ys) n;; util_list_init k) m
      = Some (tt, m') ∧ is_ring m' h (ys ++ us ++ zs) ∧ is_ring m' k [] ∧
    frame ((h :: ys ++ zs) ++ k :: us) m m'.
Proof.
  intros Hr Hk Hnd Hus. destruct us as [|f t]; [done|]. pose proof Hnd as (_ & Hd & Hk2)%NoDup_app.
  assert (pred_of h ys ∈ h :: ys ++ zs) as Hp by (pose proof (pred_of_elem h ys); set_solver).
  assert (succ_of h zs ∈ h :: ys ++ zs) as Hs by (pose proof (succ_of_elem h zs); set_solver).
  assert (pred_of f t ∈ f :: t) as Hl by apply pred_of_elem.
  pose proof (ring_prev_of m k (f :: t) []) as Hpv. rewrite app_nil_r, pred_of_cons in Hpv. specialize (Hpv Hk).
  destruct (run_splice m k f (pred_of h ys) (succ_of h zs) (pred_of f t)) as (m1 & H1 & He).
  { apply (ring_next_of m k [] (f :: t) Hk). }
  { apply Hpv. }
  { eapply is_ring_cells; [exact Hk|]. right. left. }
  { eapply is_ring_cells; [exact Hk|]. by right. }
  1-2: by (eapply is_ring_cells; [exact Hr|]).
  { intros E. rewrite <- E in Hs. eapply Hd; [exact Hs|]. right. left. }
  { intros E. rewrite E in Hp. eapply Hd; [exact Hp|]. by right. }
  destruct (effect_splice m m1 h ys zs k f t) as [Hr1 F1]; [done..|].
  destruct (list_init_spec m1 k) as (m2 & H2 & Hr2 & F2).
  { eapply frame_cell; [done|]. eapply is_ring_cells; [exact Hk|left]. }
  exists m2. split_and!; [| |done|].
  - erewrite bind_run by apply run_load_next, (ring_next_of m h _ _ Hr).
    by rewrite (bind_run _ _ _ _ _ H1).
  - eapply frame_ring; [done| |done]. intros q Hq ->%list_elem_of_singleton.
    apply NoDup_cons in Hk2 as [Hk2 _]. destruct (decide (k ∈ h :: ys ++ zs)) as [Hin|Hin]; [|set_solver].
    eapply Hd; [exact Hin|left].
  - eapply frame_trans; (eapply frame_weaken; [|done]); set_solver.
Qed.

Lemma splice_at_ok m H D l ys zs l2 us :
  repr m l (ys ++ zs) → repr m l2 us → NoDup (cells l (ys ++ zs) ++ cells l2 us) →
  links_free H → avail H [ListLock (head_ l)] →
  ∃ m' l' l2', splice_at EnableLock l (pred_of (head_ l) (link <$> ys)) l2 (Lmem m H D)
      = Some ((l', l2'), Lmem m' H D) ∧
    head_ l' = head_ l ∧ head_ l2' = head_ l2 ∧ repr m' l' (ys ++ us ++ zs) ∧ repr m' l2' [] ∧
    frame (cells l (ys ++ zs) ++ cells l2 us) m m'.
Proof.
  intros R1 R2 Hnd Hf Ha. pose proof R1 as [Hr1 N1 _ S1]. pose proof R2 as [Hr2 N2 _ S2].
  unfold cells in Hnd |- *. rewrite fmap_app in Hr1, Hnd |- *.
  set (H' := if EnableLock then {[ListLock (head_ l)]} ∪ H else H).
  assert (∃ m', list_splice_init EnableLock (head_ l2) (pred_of (head_ l) (link <$> ys)) (Lmem m H' D)
      = Some (tt, Lmem m' H' D) ∧
    is_ring m' (head_ l) ((link <$> ys) ++ (link <$> us) ++ (link <$> zs)) ∧ is_ring m' (head_ l2) [] ∧
    frame ((head_ l :: (link <$> ys) ++ (link <$> zs)) ++ head_ l2 :: (link <$> us)) m m')
    as (m' & Hrun & Hr' & Hk & F).
  { assert (head_ l2 ≠ pred_of (head_ l) (link <$> ys)) as Hne.
    { pose proof (pred_of_elem (head_ l) (link <$> ys)) as Hp. apply NoDup_app in Hnd as (_ & Hd & _).
      intros E. rewrite <- E in Hp. eapply Hd; [|left]. set_solver. }
    assert (∀ H0, list_empty EnableLock EnableLock (head_ l2) (Lmem m H0 D)
      = Some (bool_decide ((link <$> us) = []), Lmem m H0 D)) as Hem.
    { intros H0. unfold list_empty. rewrite held_lock_id. apply run_on_links, (list_empty_spec m _ _ Hr2). }
    destruct (decide ((link <$> us) = [])) as [E|E].
    - exists m. rewrite E in *. split_and!; [|done|done|done].
      apply run_locked2; [by apply links_free_list|done|]. intros H1. by rewrite (bind_run _ _ _ _ _ (Hem H1)).
    - destruct (splice_links m _ _ _ _ _ Hr1 Hr2 Hnd E) as (m' & Hrun & ?). exists m'. split; [|done].
      apply run_locked2; [by apply links_free_list|done|]. intros H1. rewrite (bind_run _ _ _ _ _ (Hem H1)).
      rewrite bool_decide_false by done. by apply run_on_links. }
  exists m', (with_size (size_ l +w size_ l2) l), (with_size 0 l2). split_and!; [|done|done| | |done].
  - apply run_guard; [free_list_lock Ha|]. fold H'. by rewrite (bind_run _ _ _ _ _ Hrun).
  - apply Forall_app in N1 as [??]. eapply repr_update; [done|done|by rewrite !fmap_app| |].
    + by repeat (apply Forall_app; split).
    + rewrite S1, S2, wrap64_plus. f_equal. rewrite !length_app. lia.
  - by eapply repr_update.
Qed.

(** [splice] joins [other] at the front of the list. *)
Lemma splice_ok m H D l ts l2 us :
  repr m l ts → repr m l2 us → NoDup (cells l ts ++ cells l2 us) →
  links_free H → avail H [ListLock (head_ l)] →
  ∃ m' l' l2', splice EnableLock l l2 (Lmem m H D) = Some ((l', l2'), Lmem m' H D) ∧
    head_ l' = head_ l ∧ head_ l2' = head_ l2 ∧ repr m' l' (us ++ ts) ∧ repr m' l2' [] ∧
    frame (cells l ts ++ cells l2 us) m m'.
Proof. apply (splice_at_ok m H D l [] ts l2 us). Qed.

(** *** [merge] *)

(** The reference: merging two lists, preferring the second on ties. *)
Fixpoint merge_items (cmp : loc → loc → bool) (ts : list loc) : list loc → list loc :=
  fix go us :=
    match ts, us with
    | [], _ => us
    | _, [] => ts
    | t :: ts', u :: us' =>
        if cmp t u then t :: merge_items cmp ts' us else u :: go us'
    end.

(** The two lists being merged and the local one that collects the items. *)
Record rings3 m h1 (xs : list loc) h2 (ys : list loc) t (acc : list loc) : Prop := {
  rings3_1 : is_ring m h1 xs;
  rings3_2 : is_ring m h2 ys;
  rings3_t : is_ring m t acc;
  rings3_nodup : NoDup ((h1 :: xs) ++ (h2 :: ys) ++ t :: acc);
}.

Lemma rings3_sym m h1 xs h2 ys t acc :
  rings3 m h1 xs h2 ys t acc → rings3 m h2 ys h1 xs t acc.
Proof. intros [R1 R2 Rt N]. split; [done..|]. revert N. apply NoDup_perm. solve_Permutation. Qed.

Lemma run_move_to_tail m H D h1 x xs h2 ys t acc :
  links_free H → rings3 m h1 (x :: xs) h2 ys t acc →
  ∃ m', move_to_tail EnableLock x t (Lmem m H D) = Some (succ_of h1 xs, Lmem m' H D) ∧
    rings3 m' h1 xs h2 ys t (acc ++ [x]) ∧
    frame ((h1 :: x :: xs) ++ (h2 :: ys) ++ t :: acc) m m'.
Proof.
  intros Hf [R1 R2 Rt N]. pose proof N as (Hn1 & Hd & (Hn2 & Hd2 & Hn3)%NoDup_app)%NoDup_app.
  pose proof (succ_of_elem h1 xs) as Hs.
  destruct (run_list_remove_init m H D h1 [] x xs) as (m1 & H1 & R1' & Rx & F1); [done..|].
  assert (is_ring m1 h2 ys ∧ is_ring m1 t acc) as [R2' Rt'].
  { split; (eapply frame_ring; [done| |done]); intros q Hq Hq'; apply (Hd q); try set_solver. }
  destruct (run_list_add_tail m1 H D t acc [] x) as (m2 & H2 & Rt2 & F2); rewrite ?app_nil_r.
  { done. } { done. } { eapply is_ring_cells; [exact Rx|left]. } { intros Hq. apply (Hd x); set_solver. }
  simpl in H2, F2. assert (pred_of t acc ∈ t :: acc) as Hp by apply pred_of_elem.
  assert (∀ q, q ∈ (h1 :: xs) ++ h2 :: ys → q ∉ [x; pred_of t acc; t]) as Hq.
  { intros q Hq Hx. assert (q ∈ t :: acc ∨ q = x) as Hq2 by (clear -Hx Hp; set_solver).
    apply elem_of_app in Hq as [Hq|Hq]; destruct Hq2 as [Hq2| ->].
    - apply (Hd q); [clear -Hq|clear -Hq2]; set_solver.
    - apply NoDup_cons in Hn1 as [? [? ?]%NoDup_cons]. set_solver.
    - by apply (Hd2 q).
    - apply (Hd x); [clear|clear -Hq]; set_solver. }
  exists m2. split_and!.
  - unfold move_to_tail. erewrite bind_run by apply run_on_links, run_load_next, (ring_member_next m h1 [] x xs R1).
    rewrite (bind_run _ _ _ _ _ H1). by rewrite (bind_run _ _ _ _ _ H2).
  - split; [eapply frame_ring; [done| |done]; intros q Hq1; apply Hq; clear -Hq1; set_solver..|done|].
    revert N. apply NoDup_perm. solve_Permutation.
  - eapply frame_trans; (eapply frame_weaken; [|done]); clear -Hs Hp; simpl; set_solver.
Qed.

Lemma drain_loop_ok m H D h1 xs h2 ys t acc fuel :
  links_free H → rings3 m h1 xs h2 ys t acc → (length xs < fuel)%nat →
  ∃ m', drain_loop EnableLock fuel h1 t (succ_of h1 xs) (Lmem m H D) = Some (tt, Lmem m' H D) ∧
    rings3 m' h1 [] h2 ys t (acc ++ xs) ∧ frame ((h1 :: xs) ++ (h2 :: ys) ++ t :: acc) m m'.
Proof.
  revert m acc fuel. induction xs as [|x xs IH]; intros m acc fuel Hf R Hl.
  - destruct fuel; [lia|]. exists m. simpl. rewrite decide_True, app_nil_r by done. by split_and!.
  - destruct fuel; [simpl in Hl; lia|].
    destruct (run_move_to_tail m H D h1 x xs h2 ys t acc) as (m1 & H1 & R1 & F1); [done..|].
    destruct (IH m1 (acc ++ [x]) fuel) as (m2 & H2 & R2 & F2); [done..|simpl in Hl; lia|].
    exists m2. split_and!.
    + cbn [drain_loop]. change (succ_of h1 (x :: xs)) with x. rewrite decide_False.
      * by rewrite (bind_run _ _ _ _ _ H1).
      * destruct R as [[Hnd _] _ _ _]. apply NoDup_cons in Hnd as [? _]. set_solver.
    + by rewrite <- app_assoc in R2.
    + eapply frame_trans; [done|]. eapply frame_weaken; [|done]. set_solver.
Qed.

(** The first loop stops with one list used up, what it moved and the rest
    being the merge. *)
Lemma merge_loop_ok cmp m H D h1 xs h2 ys t acc fuel :
  links_free H → rings3 m h1 (link <$> xs) h2 (link <$> ys) t (link <$> acc) →
  Forall (node m) xs → Forall (node m) ys → (length xs + length ys < fuel)%nat →
  ∃ m' xs' ys' zs, merge_loop EnableLock cmp fuel h1 h2 t (succ_of h1 (link <$> xs))
      (succ_of h2 (link <$> ys)) (Lmem m H D)
      = Some ((succ_of h1 (link <$> xs'), succ_of h2 (link <$> ys')), Lmem m' H D) ∧
    rings3 m' h1 (link <$> xs') h2 (link <$> ys') t (link <$> acc ++ zs) ∧
    zs ++ xs' ++ ys' = merge_items cmp xs ys ∧
    (length xs' <= length xs)%nat ∧ (length ys' <= length ys)%nat ∧
    frame ((h1 :: (link <$> xs)) ++ (h2 :: (link <$> ys)) ++ t :: (link <$> acc)) m m'.
Proof.
  revert m xs ys acc. induction fuel as [|fuel IH]; intros m xs ys acc Hf R N1 N2 Hl; [lia|].
  cbn [merge_loop].
  destruct xs as [|x xs]; [exists m, [], ys, []; rewrite app_nil_r; split_and!; try done|].
  { rewrite decide_True by by left. done. }
  { by destruct ys. }
  destruct ys as [|y ys]; [exists m, (x :: xs), [], []; rewrite app_nil_r; split_and!; try done|].
  { rewrite decide_True by by right. done. }
  { simpl. by rewrite app_nil_r. }
  change (succ_of h1 (link <$> x :: xs)) with (link x). change (succ_of h2 (link <$> y :: ys)) with (link y).
  apply Forall_cons in N1 as [Nx N1]. apply Forall_cons in N2 as [Ny N2].
  rewrite decide_False.
  2:{ destruct R as [[Hd1 _] [Hd2 _] _ _]. apply NoDup_cons in Hd1 as [? _].
      apply NoDup_cons in Hd2 as [? _]. set_solver. }
  erewrite bind_run by apply run_load_parent, Nx. erewrite bind_run by apply run_load_parent, Ny.
  cbn [merge_items]. destruct (cmp x y).
  - destruct (run_move_to_tail m H D h1 (link x) (link <$> xs) h2 (link <$> y :: ys) t (link <$> acc))
      as (m1 & H1 & R1 & F1); [done..|].
    destruct (IH m1 xs (y :: ys) (acc ++ [x])) as (m' & xs' & ys' & zs & Hrun & R' & E & ? & ? & F');
      [done|by rewrite fmap_app|by eapply nodes_frame|by eapply nodes_frame, Forall_cons|simpl in *; lia|].
    exists m', xs', ys', (x :: zs). rewrite (bind_run _ _ _ _ _ H1). split_and!; [done| | |simpl in *; lia..|].
    + by rewrite <- app_assoc in R'.
    + simpl. by f_equal.
    + eapply frame_trans; [done|]. eapply frame_weaken; [|done].
      rewrite (fmap_app _ acc [x]). simpl. set_solver.
  - apply rings3_sym in R.
    destruct (run_move_to_tail m H D h2 (link y) (link <$> ys) h1 (link <$> x :: xs) t (link <$> acc))
      as (m1 & H1 & R1%rings3_sym & F1); [done..|].
    destruct (IH m1 (x :: xs) ys (acc ++ [y])) as (m' & xs' & ys' & zs & Hrun & R' & E & ? & ? & F');
      [done|by rewrite fmap_app|by eapply nodes_frame, Forall_cons|by eapply nodes_frame|simpl in *; lia|].
    exists m', xs', ys', (y :: zs). rewrite (bind_run _ _ _ _ _ H1). split_and!; [done| | |simpl in *; lia..|].
    + by rewrite <- app_assoc in R'.
    + simpl. f_equal. done.
    + eapply frame_trans; [eapply frame_weaken; [|done]|]; [set_solver|]. eapply frame_weaken; [|done].
      rewrite (fmap_app _ acc [y]). simpl. set_solver.
Qed.

(** Cells outside the frame are untouched. *)
Lemma frame_lookup X (m m' : link_mem) q : frame X m m' → q ∉ X → m' !! q = m !! q.
Proof.
  intros F Hq. pose proof (frame_parent _ _ _ q F) as Hp. destruct F as (_ & A & _).
  destruct (A q Hq) as [Hn Hv]. unfold parent_of in Hp. simpl in Hn, Hv.
  destruct (m !! q) as [[]|], (m' !! q) as [[]|]; naive_solver.
Qed.

(** A cell outside the ring can be created or destroyed. *)
Lemma ring_outside m m' h xs p :
  (∀ q, q ≠ p → m' !! q = m !! q) → p ∉ h :: xs → is_ring m h xs → is_ring m' h xs.
Proof.
  intros E Hp. apply ring_frame. intros u Hu. simpl. rewrite E; [done|]. by intros ->.
Qed.

Lemma nodes_outside m m' ts p :
  (∀ q, q ≠ p → m' !! q = m !! q) → p ∉ (link <$> ts) → Forall (node m) ts → Forall (node m') ts.
Proof.
  intros E Hp. rewrite !Forall_forall. intros N t Ht. destruct (N t Ht) as [Hl ?]. split; [|done].
  unfold parent_of. rewrite E; [done|]. intros <-. apply Hp. by apply list_elem_of_fmap_2.
Qed.

(** The state after [head_type t_head{nullptr}]. *)
Definition with_local m t : link_mem :=
  <[t := {| parent_ := null; next_ := t; prev_ := t |}]> m.

Lemma with_local_outside m t q : q ≠ t → with_local m t !! q = m !! q.
Proof. intros. by apply lookup_insert_ne. Qed.

Lemma with_local_ring m t : is_ring (with_local m t) t [].
Proof.
  split; [apply NoDup_singleton|]. simpl. unfold linked. simpl. unfold with_local.
  by rewrite lookup_insert_eq.
Qed.

Lemma merge_items_members cmp ts us : merge_items cmp ts us ≡ₚ ts ++ us.
Proof.
  revert us. induction ts as [|t ts IHt]; [by intros []|]. induction us as [|u us IHu].
  - simpl. by rewrite app_nil_r.
  - cbn [merge_items]. destruct (cmp t u).
    + simpl. by rewrite IHt.
    + rewrite <- Permutation_middle. by rewrite <- IHu.
Qed.

(** Distinct heads of disjoint rings are different cells. *)
Lemma heads_differ m h1 xs h2 ys c1 c2 :
  is_ring m h1 xs → is_ring m h2 ys → NoDup ((h1 :: xs) ++ h2 :: ys) →
  m !! h1 = Some c1 → m !! h2 = Some c2 → list_link_eqb c1 c2 = false.
Proof.
  intros R1 R2 (_ & Hd & _)%NoDup_app E1 E2.
  assert (next_ <$> m !! h1 = Some (succ_of h1 xs)) as N1 by apply (ring_next_of m h1 [] xs R1).
  assert (next_ <$> m !! h2 = Some (succ_of h2 ys)) as N2 by apply (ring_next_of m h2 [] ys R2).
  rewrite E1 in N1. rewrite E2 in N2. injection N1 as N1. injection N2 as N2.
  unfold list_link_eqb. rewrite (bool_decide_false (next_ c1 = _)); [by rewrite andb_false_r|].
  intros E. apply (Hd (next_ c1)); [rewrite N1|rewrite E, N2]; apply succ_of_elem.
Qed.

(** The three loops of [do_merge] collect the merge in [t_head]. *)
Lemma merge_loops_ok cmp m H D h1 ts h2 us t fuel :
  links_free H → rings3 m h1 (link <$> ts) h2 (link <$> us) t [] →
  Forall (node m) ts → Forall (node m) us → (length ts + length us < fuel)%nat →
  ∃ i m1 m2 m3, merge_loop EnableLock cmp fuel h1 h2 t (succ_of h1 (link <$> ts))
      (succ_of h2 (link <$> us)) (Lmem m H D) = Some (i, Lmem m1 H D) ∧
    drain_loop EnableLock fuel h1 t i.1 (Lmem m1 H D) = Some (tt, Lmem m2 H D) ∧
    drain_loop EnableLock fuel h2 t i.2 (Lmem m2 H D) = Some (tt, Lmem m3 H D) ∧
    rings3 m3 h1 [] h2 [] t (link <$> merge_items cmp ts us) ∧
    frame ((h1 :: (link <$> ts)) ++ (h2 :: (link <$> us)) ++ [t]) m m3.
Proof.
  intros Hf R N1 N2 Hl.
  destruct (merge_loop_ok cmp m H D h1 ts h2 us t [] fuel)
    as (m1 & xs & ys & zs & H1 & R1 & E & Hxs & Hys & F1); [done..|].
  destruct (drain_loop_ok m1 H D h1 (link <$> xs) h2 (link <$> ys) t (link <$> [] ++ zs) fuel)
    as (m2 & H2 & R2%rings3_sym & F2); [done|done|rewrite length_fmap; lia|].
  destruct (drain_loop_ok m2 H D h2 (link <$> ys) h1 [] t ((link <$> [] ++ zs) ++ (link <$> xs)) fuel)
    as (m3 & H3 & R3%rings3_sym & F3); [done|done|rewrite length_fmap; lia|].
  simpl ([] ++ zs) in *. rewrite <- app_assoc, <- !fmap_app, E in R3.
  exists (succ_of h1 (link <$> xs), succ_of h2 (link <$> ys)), m1, m2, m3. split_and!; [done..|].
  assert (Hin : (link <$> zs) ++ (link <$> xs) ++ (link <$> ys) ⊆ (link <$> ts) ++ (link <$> us)).
  { rewrite <- !fmap_app, E. intros q. by rewrite merge_items_members. }
  clear -F1 F2 F3 Hin. eapply frame_trans; [|eapply frame_trans];
    (eapply frame_weaken; [|done]); set_solver.
Qed.

(** The result of [do_merge] on the cells, [t] being gone again. *)
Record merged m m' h1 ts h2 us (ws : list loc) : Prop := {
  merged_1 : is_ring m' h1 (link <$> ws);
  merged_2 : is_ring m' h2 [];
  merged_parent : ∀ q, is_Some (m !! q) → parent_of m' q = parent_of m q;
  merged_frame : ∀ q, q ∉ (h1 :: (link <$> ts)) ++ h2 :: (link <$> us) → m' !! q = m !! q;
}.

(** Swapping the collected items in and destroying the local head. *)
Lemma merge_finish m m3 H D h1 ts h2 us t w (ws : list loc) :
  links_free H → m !! t = None → rings3 m3 h1 [] h2 [] t (link <$> w :: ws) →
  w :: ws ≡ₚ ts ++ us →
  frame ((h1 :: (link <$> ts)) ++ (h2 :: (link <$> us)) ++ [t]) (with_local m t) m3 →
  ∃ m4, list_swap EnableLock h1 t (Lmem m3 H D) = Some (tt, Lmem m4 H D) ∧
    merged m (delete t m4) h1 ts h2 us (w :: ws).
Proof.
  intros Hf Ht [Q1 Q2 Qt Qn] Hp F.
  assert (NoDup ([h1] ++ t :: (link <$> w :: ws)) ∧ NoDup (h2 :: t :: (link <$> w :: ws)) ∧ h1 ≠ h2) as (Hn1 & Hn2 & Hne).
  { revert Qn. simpl. rewrite !NoDup_cons. set_solver. }
  destruct (run_list_swap m3 H D h1 [] t (link w) (link <$> ws)) as (m4 & Hrun & P1 & Pt & F4); [done..|].
  exists m4. split; [done|]. assert (Hdel : ∀ q, q ≠ t → delete t m4 !! q = m4 !! q).
  { intros q Hq. by apply lookup_delete_ne. }
  split.
  - apply (ring_outside m4 _ _ _ t); [done| |done]. clear -Hn1. simpl in *. rewrite !NoDup_cons in Hn1. set_solver.
  - apply (ring_outside m4 _ _ _ t); [done| |].
    { apply NoDup_cons in Hn2 as [? _]. set_solver. }
    eapply frame_ring; [done| |done]. intros q ->%list_elem_of_singleton.
    clear -Hn2 Hne. simpl in *. rewrite !NoDup_cons in Hn2. set_solver.
  - intros q [c Hq]. assert (q ≠ t) by congruence. unfold parent_of. rewrite Hdel by done.
    change (parent_of m4 q = parent_of m q).
    rewrite (frame_parent _ _ _ _ F4), (frame_parent _ _ _ _ F). unfold parent_of.
    by rewrite with_local_outside.
  - intros q Hq. destruct (decide (q = t)) as [->|Hqt]; [by rewrite lookup_delete_eq|].
    rewrite Hdel, (frame_lookup _ _ _ _ F4), (frame_lookup _ _ _ _ F), with_local_outside; [done|done| | |done].
    + clear -Hq Hqt. set_solver.
    + rewrite app_nil_r. assert ((link <$> w :: ws) ⊆ (link <$> ts) ++ (link <$> us)) as Hs.
      { rewrite Hp, fmap_app. done. }
      clear -Hq Hqt Hs. intros Hin. apply Hq. simpl in Hs. set_solver.
Qed.

Lemma do_merge_ok cmp m H D l ts l2 us t fuel :
  repr m l ts → repr m l2 us → NoDup (cells l ts ++ cells l2 us ++ [t]) → m !! t = None →
  ts ++ us ≠ [] → links_free H → (length ts + length us < fuel)%nat →
  ∃ m', do_merge EnableLock cmp fuel t l l2 (Lmem m H D)
      = Some ((with_size (size_ l +w size_ l2) l, with_size 0 l2), Lmem m' H D) ∧
    merged m m' (head_ l) ts (head_ l2) us (merge_items cmp ts us).
Proof.
  intros [Hr1 N1 Hh1 _] [Hr2 N2 Hh2 _] Hnd Ht Hne Hf Hl.
  pose proof Hnd as Hnd'. rewrite app_assoc in Hnd'. apply NoDup_app in Hnd' as (Hnd12 & Hdt & _).
  assert ((t ∉ cells l ts) ∧ (t ∉ cells l2 us)) as [Ht1 Ht2].
  { split; intros Hq; (apply (Hdt t); [|left]); apply elem_of_app; auto. }
  pose proof (with_local_outside m t) as Hout.
  assert (is_ring (with_local m t) (head_ l) (link <$> ts)) as Hr1' by by eapply ring_outside.
  assert (is_ring (with_local m t) (head_ l2) (link <$> us)) as Hr2' by by eapply ring_outside.
  destruct (merge_loops_ok cmp (with_local m t) H D (head_ l) ts (head_ l2) us t fuel)
    as (i & m1 & m2 & m3 & H1 & H2 & H3 & R3 & F); [done| | | |done|].
  { split; [done..|apply with_local_ring|done]. }
  1-2: by eapply nodes_outside; [exact Hout| |done]; set_solver.
  pose proof (merge_items_members cmp ts us) as Hp.
  destruct (merge_items cmp ts us) as [|w ws]; [by apply Permutation_nil_l in Hp|].
  destruct (merge_finish m m3 H D (head_ l) ts (head_ l2) us t w ws) as (m4 & H4 & M); [done..|].
  exists (delete t m4). split; [|done].
  unfold do_merge. destruct (m !! head_ l) as [c1|] eqn:E1; [|by unfold parent_of in Hh1; rewrite E1 in Hh1].
  destruct (m !! head_ l2) as [c2|] eqn:E2; [|by unfold parent_of in Hh2; rewrite E2 in Hh2].
  erewrite bind_run by (unfold load_link; simpl; by rewrite E1).
  erewrite bind_run by (unfold load_link; simpl; by rewrite E2).
  rewrite (heads_differ m (head_ l) (link <$> ts) (head_ l2) (link <$> us)) by done.
  erewrite bind_run by done.
  erewrite bind_run by apply run_on_links, run_load_next, (ring_next_of _ _ [] _ Hr1').
  erewrite bind_run by apply run_on_links, run_load_next, (ring_next_of _ _ [] _ Hr2').
  rewrite (bind_run _ _ _ _ _ H1), (bind_run _ _ _ _ _ H2), (bind_run _ _ _ _ _ H3).
  by rewrite (bind_run _ _ _ _ _ H4).
Qed.

Lemma merge_ok cmp m H D l ts l2 us t fuel :
  repr m l ts → repr m l2 us → NoDup (cells l ts ++ cells l2 us ++ [t]) → m !! t = None →
  ts ++ us ≠ [] → links_free H → avail H [ListLock (head_ l); ListLock (head_ l2)] →
  (length ts + length us < fuel)%nat →
  ∃ m' l' l2', merge EnableLock cmp fuel t l l2 (Lmem m H D) = Some ((l', l2'), Lmem m' H D) ∧
    head_ l' = head_ l ∧ head_ l2' = head_ l2 ∧ repr m' l' (merge_items cmp ts us) ∧ repr m' l2' [] ∧
    (∀ q, q ∉ cells l ts ++ cells l2 us → m' !! q = m !! q).
Proof.
  intros R1 R2 Hnd Ht Hne Hf Ha Hl. pose proof R1 as [Hr1 N1 Hh1 S1]. pose proof R2 as [Hr2 N2 Hh2 S2].
  set (H' := if EnableLock then {[ListLock (head_ l2)]} ∪ (if EnableLock then {[ListLock (head_ l)]} ∪ H else H)
    else if EnableLock then {[ListLock (head_ l)]} ∪ H else H).
  destruct (do_merge_ok cmp m H' D l ts l2 us t fuel) as (m' & Hrun & [P1 P2 Pp Pf]);
    [done..|by apply links_free_list, links_free_list|done|].
  exists m', (with_size (size_ l +w size_ l2) l), (with_size 0 l2).
  assert (Hcell : ∀ p v, parent_of m p = Some v → parent_of m' p = Some v).
  { intros p v Hv. rewrite Pp; [done|]. unfold parent_of in Hv. destruct (m !! p); [eauto|done]. }
  split_and!; [|done|done| | |done].
  - assert (head_ l ≠ head_ l2).
    { intros E. apply NoDup_app in Hnd as (_ & Hd & _). apply (Hd (head_ l)); [left|]. rewrite E. left. }
    apply run_guard; [free_list_lock Ha|]. apply run_guard; [|exact Hrun].
    intros E. specialize (Ha E). rewrite !Forall_cons in Ha. rewrite E. set_solver.
  - split; [done| |by apply Hcell|].
    + apply Forall_forall. intros q. rewrite merge_items_members. intros Hq.
      assert (node m q) as [? ?]; [|split; auto]. apply elem_of_app in Hq as [Hq|Hq];
        [rewrite Forall_forall in N1|rewrite Forall_forall in N2]; auto.
    + simpl. rewrite S1, S2, wrap64_plus, merge_items_members, length_app. f_equal. lia.
  - by split; [|constructor|apply Hcell|].
Qed.

(** Merging two empty lists leaves the first one pointing to the local head,
    which is gone when [do_merge] returns. *)
Lemma merge_empty_ok cmp m H D l l2 t fuel :
  repr m l [] → repr m l2 [] → NoDup [head_ l; head_ l2; t] → m !! t = None →
  links_free H → avail H [ListLock (head_ l); ListLock (head_ l2)] → (0 < fuel)%nat →
  ∃ m' l' l2', merge EnableLock cmp fuel t l l2 (Lmem m H D) = Some ((l', l2'), Lmem m' H D) ∧
    nx m' (head_ l') = Some t ∧ m' !! t = None.
Proof.
  intros R1 R2 Hnd Ht Hf Ha Hl. pose proof R1 as [Hr1 _ Hh1 _]. pose proof R2 as [Hr2 _ Hh2 _].
  assert (head_ l ≠ head_ l2 ∧ head_ l ≠ t ∧ head_ l2 ≠ t) as (? & ? & ?).
  { revert Hnd. rewrite !NoDup_cons. set_solver. }
  pose proof (with_local_outside m t) as Hout.
  assert (is_ring (with_local m t) (head_ l) []) as Hr1'.
  { eapply (ring_outside m); [exact Hout|set_solver|done]. }
  assert (is_ring (with_local m t) (head_ l2) []) as Hr2'.
  { eapply (ring_outside m); [exact Hout|set_solver|done]. }
  set (H' := if EnableLock then {[ListLock (head_ l2)]} ∪ (if EnableLock then {[ListLock (head_ l)]} ∪ H else H)
    else if EnableLock then {[ListLock (head_ l)]} ∪ H else H).
  destruct (run_list_swap_lone (with_local m t) H' D (head_ l) [] t) as (m4 & H4 & Q & _);
    [by apply links_free_list, links_free_list|done|apply with_local_ring|
     intros E%list_elem_of_singleton; congruence|].
  exists (delete t m4), (with_size (size_ l +w size_ l2) l), (with_size 0 l2). split_and!.
  2:{ simpl. rewrite lookup_delete_ne by done. apply (ring_member_next m4 t [] (head_ l) [] Q). }
  2:{ by rewrite lookup_delete_eq. }
  apply run_guard; [free_list_lock Ha|]. apply run_guard.
  { intros E. specialize (Ha E). rewrite !Forall_cons in Ha. rewrite E.
    rewrite not_elem_of_union, not_elem_of_singleton. split; [congruence|apply Ha]. }
  fold H'. unfold do_merge.
  destruct (m !! head_ l) as [c1|] eqn:E1; [|by unfold parent_of in Hh1; rewrite E1 in Hh1].
  destruct (m !! head_ l2) as [c2|] eqn:E2; [|by unfold parent_of in Hh2; rewrite E2 in Hh2].
  erewrite bind_run by (unfold load_link; simpl; by rewrite E1).
  erewrite bind_run by (unfold load_link; simpl; by rewrite E2).
  rewrite (heads_differ m (head_ l) [] (head_ l2) []);
    [|done|done|by apply (NoDup_app [head_ l; head_ l2] [t])|done|done].
  erewrite bind_run by done.
  erewrite bind_run by apply run_on_links, run_load_next, (ring_next_of _ _ [] _ Hr1').
  erewrite bind_run by apply run_on_links, run_load_next, (ring_next_of _ _ [] _ Hr2').
  destruct fuel as [|fuel]; [lia|]. cbn [merge_loop]. rewrite decide_True by by left.
  erewrite bind_run by done. cbn [drain_loop fst snd]. rewrite !decide_True by done.
  do 2 erewrite bind_run by done. by rewrite (bind_run _ _ _ _ _ H4).
Qed.

(** *** Construction *)

Lemma intrusive_list_new_ok m H D h :
  m !! h = None → links_free H → avail H [ListLock h] →
  ∃ m' l, intrusive_list_new EnableLock h (Lmem m H D) = Some (l, Lmem m' H D) ∧
    head_ l = h ∧ repr m' l [] ∧ (∀ q, q ≠ h → m' !! q = m !! q).
Proof.
  intros Hh Hf Ha. destruct (list_init_spec (with_local m h) h) as (m' & Hrun & Hr & F).
  { eapply is_ring_cells; [apply with_local_ring|left]. }
  exists m', {| head_ := h; size_ := 0 |}. split_and!; [|done| |].
  - unfold intrusive_list_new. erewrite bind_run by done.
    rewrite (bind_run _ _ _ tt (Lmem m' H D)); [done|].
    apply run_guard; [free_list_lock Ha|]. apply run_guard.
    { intros E. apply links_avail; [|done]. by apply links_free_list. }
    by apply run_on_links.
  - split; [done|constructor| |done]. simpl. rewrite (frame_parent _ _ _ _ F).
    unfold parent_of, with_local. by rewrite lookup_insert_eq.
  - intros q Hq. rewrite (frame_lookup _ _ _ _ F) by set_solver. by apply with_local_outside.
Qed.

(** Clearing the parent pointer of a cell leaves the links alone. *)
Definition orphan (p : loc) m : link_mem :=
  alter (λ c, {| parent_ := null; next_ := next_ c; prev_ := prev_ c |}) p m.

Lemma orphan_links p m q : nx (orphan p m) q = nx m q ∧ pv (orphan p m) q = pv m q.
Proof. simpl. unfold orphan. rewrite lookup_alter. case_decide; [|done]. subst. by destruct (m !! q). Qed.

Lemma orphan_ring p m h xs : is_ring m h xs → is_ring (orphan p m) h xs.
Proof. apply ring_frame. intros u _. apply orphan_links. Qed.

Lemma orphan_parent p m q :
  parent_of (orphan p m) q = if decide (q = p) then (λ _, null) <$> parent_of m q else parent_of m q.
Proof.
  unfold parent_of, orphan. rewrite lookup_alter.
  destruct (decide (p = q)), (decide (q = p)); try congruence. subst. by destruct (m !! _).
Qed.

(** The stores of the move constructor, from a copy of the cell in place. *)
Lemma run_move m k c this n p :
  m !! k = Some c → nx (<[this := c]> m) this = Some n → pv (<[this := c]> m) this = Some p →
  n ≠ this → cell (<[this := c]> m) n → cell (<[this := c]> m) p → cell (<[this := c]> m) k →
  ∃ m1 m2, effect (<[this := c]> m) m1
      (λ q, if decide (q = p) then Some this else nx (<[this := c]> m) q)
      (λ q, if decide (q = n) then Some this else pv (<[this := c]> m) q) ∧
    list_link_move this k m = Some (tt, m2) ∧ is_ring m2 k [] ∧ frame [k] (orphan k m1) m2.
Proof.
  intros Hk Hn Hp ? Cn Cp Ck. set (m0 := <[this := c]> m) in *.
  set (m1 := set_nx p this (set_pv n this m0)).
  assert (cell m1 k) as Ck1 by by (subst m1; autorewrite with links).
  destruct (list_init_spec (orphan k m1) k) as (m2 & Hrun & Hr & F).
  { destruct Ck1 as [v Hv]. exists v. by rewrite (proj1 (orphan_links k m1 k)). }
  exists m1, m2. split_and!; [| |done|done].
  - subst m1. split_and!; [by autorewrite with links| | |intros q; by autorewrite with links];
      intros q; autorewrite with links; case_decide; subst; try done;
      [rewrite (cell_nx_set m0)|rewrite (cell_pv_set m0)]; done.
  - unfold list_link_move. rewrite Hk. fold m0.
    run with @run_load_next; [|exact Hn]. run with @run_store_prev; [|done].
    run with @run_load_prev; [|rewrite pv_set_pv, decide_False by done; exact Hp].
    run with @run_store_next; [|by autorewrite with links].
    rewrite (bind_run _ _ _ tt (orphan k m1)); [exact Hrun|done].
Qed.

(** Moving the head of a ring with members to the fresh cell [h]. *)
Lemma move_ring m k c h f (t : list loc) :
  is_ring m k (f :: t) → m !! k = Some c → m !! h = None →
  ∃ m2, list_link_move h k m = Some (tt, m2) ∧ is_ring m2 h (f :: t) ∧ is_ring m2 k [] ∧
    (∀ q, parent_of m2 q = if decide (q = k) then Some null else parent_of (<[h := c]> m) q).
Proof.
  intros Hr E Hfresh. set (m0 := <[h := c]> m).
  assert (h ∉ k :: f :: t) as Hh.
  { intros Hq. destruct (is_ring_cells m _ _ h Hr Hq) as [v Hv]. simpl in Hv. by rewrite Hfresh in Hv. }
  assert (is_ring m0 k (f :: t)) as Hr0.
  { eapply ring_outside; [|exact Hh|exact Hr]. intros. by apply lookup_insert_ne. }
  assert (Hcell : ∀ q, q ∈ k :: f :: t → cell m0 q) by (intros; by eapply is_ring_cells).
  pose proof (pred_of_elem f t) as Hpe. assert (h ≠ f) by (intros ->; set_solver).
  assert (nx m0 h = Some f) as Hn.
  { assert (next_ <$> m !! k = Some f) as Hn by exact (ring_next_of m k [] (f :: t) Hr).
    change (next_ <$> <[h := c]> m !! h = Some f). by rewrite lookup_insert_eq, <- Hn, E. }
  assert (pv m0 h = Some (pred_of f t)) as Hp.
  { rewrite <- (app_nil_r (f :: t)) in Hr. apply ring_prev_of in Hr. rewrite pred_of_cons in Hr.
    change (prev_ <$> m !! k = Some (pred_of f t)) in Hr.
    change (prev_ <$> <[h := c]> m !! h = Some (pred_of f t)). by rewrite lookup_insert_eq, <- Hr, E. }
  destruct (run_move m k c h f (pred_of f t)) as (m1 & m2 & He & Hrun & Hk & F);
    [done|done|done|done|apply Hcell; right; left|apply Hcell; by right|apply Hcell; left|]. fold m0 in He.
  destruct (effect_replace m0 m1 f t k [] h) as [Hr1 F1]; [by apply ring_rotate_head|set_solver| |].
  { destruct He as (He1 & HeN & HeP & HeC). split_and!; [done| | |done]; intros q; rewrite ?HeN, ?HeP.
    - case_decide; [done|]. by destruct (decide (q = h)) as [->|].
    - change (succ_of f []) with f. destruct (decide (q = h)) as [->|]; [|done]. by rewrite decide_False. }
  exists m2. split_and!; [done| |done|].
  - eapply frame_ring; [exact F| |by apply orphan_ring, ring_rotate_last].
    apply ring_distinct in Hr as [Hk1 _]%NoDup_cons. intros q Hq ->%list_elem_of_singleton. set_solver.
  - intros q. rewrite (frame_parent _ _ _ _ F), orphan_parent, (frame_parent _ _ _ _ F1). fold m0.
    case_decide; [subst q|done]. unfold parent_of, m0. rewrite lookup_insert_ne by set_solver. by rewrite E.
Qed.

Lemma intrusive_list_move_ok m H D h l t ts :
  repr m l (t :: ts) → m !! h = None → avail H [ListLock (head_ l)] →
  ∃ m' l' l2, intrusive_list_move EnableLock h l (Lmem m H D) = Some ((l', l2), Lmem m' H D) ∧
    head_ l' = h ∧ head_ l2 = head_ l ∧ repr m' l' (t :: ts) ∧ repr m' l2 [].
Proof.
  intros [Hr N Hh S] Hfresh Ha. destruct (m !! head_ l) as [c|] eqn:E.
  2:{ unfold parent_of in Hh. by rewrite E in Hh. }
  destruct (move_ring m (head_ l) c h (link t) (link <$> ts)) as (m2 & Hrun & Hr' & Hk & Hp); [done..|].
  exists m2, {| head_ := h; size_ := size_ l |}, (with_size 0 l). split_and!; [|done|done| |].
  - unfold intrusive_list_move. erewrite bind_run by by apply run_on_links.
    by apply run_guard; [free_list_lock Ha|].
  - split; [done| | |done].
    + apply Forall_forall. intros u Hu. rewrite Forall_forall in N. destruct (N u Hu) as [Hu1 Hu2].
      split; [|done]. rewrite Hp, decide_False.
      * unfold parent_of. rewrite lookup_insert_ne; [done|]. intros ->. unfold parent_of in Hu1. by rewrite Hfresh in Hu1.
      * intros Eq. rewrite Eq, Hh in Hu1. by simplify_eq.
    + simpl. rewrite Hp. case_decide; [done|]. unfold parent_of in Hh |- *.
      rewrite lookup_insert_eq. by rewrite E in Hh.
  - split; [done|constructor| |done]. simpl. rewrite Hp. by rewrite decide_True.
Qed.

(** Moving from an empty list does not give an empty list: the new head points
    to the old one, which points to itself, so that no traversal ends. *)
Lemma intrusive_list_move_empty_ok m H D h l :
  repr m l [] → m !! h = None → avail H [ListLock (head_ l)] →
  ∃ m' l' l2, intrusive_list_move EnableLock h l (Lmem m H D) = Some ((l', l2), Lmem m' H D) ∧
    head_ l' = h ∧ size l' = 0 ∧ nx m' h = Some (head_ l) ∧ head_ l ≠ h ∧ is_ring m' (head_ l) [].
Proof.
  intros [Hr _ Hh S] Hfresh Ha. destruct (m !! head_ l) as [c|] eqn:E.
  2:{ unfold parent_of in Hh. by rewrite E in Hh. }
  destruct (ring_adj _ [] [] Hr) as [Hn Hp]. change (pred_of (head_ l) []) with (head_ l) in Hn, Hp.
  change (succ_of (head_ l) []) with (head_ l) in Hn, Hp. simpl in Hn, Hp. rewrite E in Hn, Hp.
  assert (head_ l ≠ h) as Hne by congruence.
  assert (cell (<[h := c]> m) (head_ l)) as Hc.
  { unfold cell. simpl. rewrite lookup_insert_ne by done. rewrite E. eauto. }
  destruct (run_move m (head_ l) c h (head_ l) (head_ l)) as (m1 & m2 & He & Hrun & Hk & F);
    [done|simpl; by rewrite lookup_insert_eq|simpl; by rewrite lookup_insert_eq|done..|].
  exists m2, {| head_ := h; size_ := size_ l |}, (with_size 0 l). split_and!; try done.
  - unfold intrusive_list_move. erewrite bind_run by by apply run_on_links.
    by apply run_guard; [free_list_lock Ha|].
  - destruct F as (_ & A & _). destruct (A h) as [-> _]; [set_solver|].
    rewrite (proj1 (orphan_links _ _ _)). destruct He as (_ & -> & _). rewrite decide_False by done.
    simpl. by rewrite lookup_insert_eq.
Qed.

Lemma size_loop_spins m H D h k fuel sz :
  nx m k = Some k → k ≠ h → size_loop fuel h k sz (Lmem m H D) = None.
Proof.
  intros Hk ?. revert sz. induction fuel as [|fuel IH]; intros sz; [done|]. cbn [size_loop].
  rewrite decide_False by done. by erewrite bind_run by apply run_on_links, run_load_next, Hk.
Qed.
End specs.
