(* ===== verification/ListTheorems.v ===== *)
(** * What the two list implementations guarantee

    The contract of [intrusive_list] as an abstract machine on sequences of
    items, the refinement theorem for it, and the theorems on the operations
    that involve two lists. *)

From Stdlib Require Import Sorted.
From S2P Require Import Prelude Links PodList IntrusiveList.

(** ** Deciding the representation on concrete memories *)

#[export] Instance linked_dec nx pv u v : Decision (linked nx pv u v).
Proof. unfold linked. apply _. Defined.

#[export] Instance path_dec nx pv l : Decision (path nx pv l).
Proof.
  induction l as [|x l IH]; [left; exact I|].
  destruct l as [|y l]; [left; exact I|]. simpl. apply _.
Defined.

#[export] Instance is_ring_dec {St} `{!LinkMem St} (s : St) h xs : Decision (is_ring s h xs).
Proof. unfold is_ring, ring. apply _. Defined.

#[export] Instance node_dec f m t : Decision (node f m t).
Proof. unfold node. apply _. Defined.

#[export] Instance repr_dec f m l ts : Decision (repr f m l ts).
Proof.
  destruct (decide (is_ring m (head_ l) (f <$> ts) ∧ Forall (node f m) ts ∧
    parent_of m (head_ l) = Some null ∧ size_ l = wrap64 (Z.of_nat (length ts)))) as [(?&?&?&?)|Hn];
    [left; by split|right; intros []; by apply Hn].
Defined.

(** Settles a closed decidable goal by evaluation. *)
Ltac eval_decide := apply (bool_decide_eq_true_1 _); vm_compute; reflexivity.

(** ** The abstract list *)

Inductive list_op :=
  | OpPushBack (t : loc) | OpPushFront (t : loc) | OpInsert (u t : loc)
  | OpPopBack | OpPopFront | OpRemove (t : loc) | OpErase (t : loc) | OpClear.

(** The items in order, and the items given to the deleter so far. *)
Abbreviation abs_list := (list loc * list loc)%type.

Fixpoint insert_after (u t : loc) (ts : list loc) : list loc :=
  match ts with
  | [] => []
  | x :: ts => if decide (x = u) then x :: t :: ts else x :: insert_after u t ts
  end.

Fixpoint remove_item (t : loc) (ts : list loc) : list loc :=
  match ts with
  | [] => []
  | x :: ts => if decide (x = t) then ts else x :: remove_item t ts
  end.

(** [None] where the operation has no meaning: linking an item twice, or
    naming an item that is not in the list. *)
Definition abs_op (o : list_op) (a : abs_list) : option abs_list :=
  let '(ts, D) := a in
  match o with
  | OpPushBack t => if decide (t ∈ ts) then None else Some (ts ++ [t], D)
  | OpPushFront t => if decide (t ∈ ts) then None else Some (t :: ts, D)
  | OpInsert u t =>
      if decide ((t ∉ ts) ∧ u ∈ ts) then Some (insert_after u t ts, D) else None
  | OpPopBack => Some (match last ts with Some t => (removelast ts, D ++ [t]) | None => (ts, D) end)
  | OpPopFront => Some (match ts with t :: ts' => (ts', D ++ [t]) | [] => (ts, D) end)
  | OpRemove t | OpErase t =>
      if decide (ts = []) then Some (ts, D)
      else if decide (t ∈ ts) then Some (remove_item t ts, D ++ [t]) else None
  | OpClear => Some ([], D ++ ts)
  end.

Fixpoint abs_run (os : list list_op) (a : abs_list) : option abs_list :=
  match os with
  | [] => Some a
  | o :: os => match abs_op o a with Some a' => abs_run os a' | None => None end
  end.

(** The items an operation brings into the list. *)
Definition op_items (o : list_op) : list loc :=
  match o with OpPushBack t | OpPushFront t | OpInsert _ t => [t] | _ => [] end.

Section refinement.
Context (EnableLock : bool) (node_link_ptr : loc → loc).

(** The member functions the operations stand for. *)
Definition conc_op (fuel : nat) (o : list_op) (l : intrusive_list) : ST lmem intrusive_list :=
  match o with
  | OpPushBack t => push_back EnableLock node_link_ptr l t
  | OpPushFront t => push_front EnableLock node_link_ptr l t
  | OpInsert u t => insert EnableLock node_link_ptr l (node_link_ptr u) t
  | OpPopBack => pop_back EnableLock l
  | OpPopFront => pop_front EnableLock l
  | OpRemove t => remove EnableLock node_link_ptr l t
  | OpErase t => erase EnableLock l (node_link_ptr t)
  | OpClear => clear EnableLock fuel l
  end.

Fixpoint conc_run (fuel : nat) (os : list list_op) (l : intrusive_list) : ST lmem intrusive_list :=
  match os with
  | [] => mret l
  | o :: os => l' ← conc_op fuel o l; conc_run fuel os l'
  end.

#[local] Abbreviation repr := (repr node_link_ptr).
#[local] Abbreviation node := (node node_link_ptr).

Lemma links_free_empty : links_free EnableLock ∅.
Proof. intros _ p. set_solver. Qed.

Lemma avail_empty ls : avail EnableLock ∅ ls.
Proof. intros _. apply Forall_forall. set_solver. Qed.

(** An item that is not in the list has its link outside the ring. *)
Lemma fresh_link m l ts t :
  repr m l ts → node m t → t ∉ ts → node_link_ptr t ∉ cells node_link_ptr l ts.
Proof.
  intros [_ N Hh _] [Ht Hnull] Hnot [E|Hin]%elem_of_cons.
  - rewrite E, Hh in Ht. by simplify_eq.
  - apply list_elem_of_fmap in Hin as (u & E & Hu). rewrite Forall_forall in N.
    destruct (N u Hu) as [Hu' _]. rewrite <- E, Ht in Hu'. by simplify_eq.
Qed.

Lemma repr_items_nodup m l ts : repr m l ts → NoDup ts.
Proof. intros [R _ _ _]. apply ring_distinct in R as [_ R]%NoDup_cons. by eapply NoDup_fmap_1. Qed.

Lemma insert_after_mid u t ys zs : u ∉ ys → insert_after u t (ys ++ u :: zs) = (ys ++ [u]) ++ t :: zs.
Proof.
  induction ys as [|y ys IH]; simpl; intros Hu; [by rewrite decide_True|].
  rewrite decide_False by set_solver. rewrite IH by set_solver. done.
Qed.

Lemma remove_item_mid t ys zs : t ∉ ys → remove_item t (ys ++ t :: zs) = ys ++ zs.
Proof.
  induction ys as [|y ys IH]; simpl; intros Hu; [by rewrite decide_True|].
  rewrite decide_False by set_solver. by rewrite IH by set_solver.
Qed.

(** What one operation gives: the concrete run and its abstract counterpart. *)
Definition simulates m (l : intrusive_list) (a' : abs_list) (r : option (intrusive_list * lmem)) : Prop :=
  ∃ m' l', r = Some (l', Lmem m' ∅ a'.2) ∧ head_ l' = head_ l ∧ repr m' l' a'.1 ∧
    (∀ t, node m t → node m' t).

Lemma removed_simulates m l ts t us D r :
  removed node_link_ptr l ts t us m ∅ D r → simulates m l (us, D ++ [t]) r.
Proof.
  intros (m' & l' & Hr & Hh & R & _ & F). exists m', l'. split_and!; [done..|].
  intros u. by apply node_frame with (cells node_link_ptr l ts).
Qed.

Lemma split_member (t : loc) (ts : list loc) : t ∈ ts → ∃ ys zs, ts = ys ++ t :: zs ∧ t ∉ ys.
Proof.
  induction ts as [|x ts IH]; [set_solver|]. destruct (decide (t = x)) as [->|Hne].
  - intros _. exists [], ts. split; [done|set_solver].
  - intros [?|Ht]%elem_of_cons; [done|]. destruct (IH Ht) as (ys & zs & -> & ?).
    exists (x :: ys), zs. split; [done|set_solver].
Qed.

Ltac empty_list m l :=
  exists m, l; split_and!; [cbn [conc_op fst snd]|done..];
  by eapply (removals_empty EnableLock node_link_ptr).

Lemma op_simulates fuel o m l ts D a' :
  repr m l ts → Forall (node m) (op_items o) → (length ts < fuel)%nat →
  abs_op o (ts, D) = Some a' →
  simulates m l a' (conc_op fuel o l (Lmem m ∅ D)).
Proof.
  intros R N Hf Ho. pose proof links_free_empty as Hl. pose proof avail_empty as Ha.
  assert (Hpush : ∀ us t r, (∃ m' l', r = Some (l', Lmem m' ∅ D) ∧ head_ l' = head_ l ∧ repr m' l' us ∧
    frame (cells node_link_ptr l (ts ++ [t])) m m') → simulates m l (us, D) r).
  { intros us t r (m' & l' & Hr & Hh & R' & F). exists m', l'. split_and!; [done..|].
    intros u. by apply node_frame with (cells node_link_ptr l (ts ++ [t])). }
  destruct o as [t|t|u t| | |t|t| ]; simpl in Ho, N.
  - case_decide; simplify_eq. apply Forall_cons in N as [Nt _]. apply Hpush with t.
    by apply push_back_ok; [| |eapply fresh_link| |].
  - case_decide; simplify_eq. apply Forall_cons in N as [Nt _]. apply Hpush with t.
    destruct (push_front_ok EnableLock node_link_ptr m ∅ D l ts t) as (m' & l' & ? & ? & ? & F);
      [done|done|by eapply fresh_link|done|done|]. exists m', l'. split_and!; try done.
    eapply frame_weaken; [|done]. unfold cells. rewrite fmap_app. simpl. set_solver.
  - case_decide as Ht; simplify_eq. destruct Ht as [Ht Hu]. apply Forall_cons in N as [Nt _].
    apply Hpush with t. destruct (split_member u ts Hu) as (ys & zs & -> & Hny).
    rewrite insert_after_mid by done.
    destruct (insert_ok EnableLock node_link_ptr m ∅ D l (ys ++ [u]) zs t) as (m' & l' & Hr & ? & ? & F);
      rewrite <- ?app_assoc; [done|done|by eapply fresh_link|done|done|].
    rewrite fmap_app in Hr. simpl in Hr. rewrite pred_of_snoc in Hr. exists m', l'. split_and!; try done.
    + by rewrite app_assoc.
    + eapply frame_weaken; [|done]. unfold cells. rewrite !fmap_app. simpl. set_solver.
  - destruct (last ts) as [t|] eqn:E; simplify_eq.
    + apply last_Some in E as [ts' ->]. rewrite removelast_last.
      by eapply removed_simulates, pop_back_ok.
    + apply last_None in E as ->. empty_list m l.
  - destruct ts as [|t ts]; simplify_eq.
    + empty_list m l.
    + by eapply removed_simulates, pop_front_ok.
  - case_decide; simplify_eq; [empty_list m l|].
    case_decide as Ht; simplify_eq. destruct (split_member t ts Ht) as (ys & zs & -> & Hny).
    rewrite remove_item_mid by done. by eapply removed_simulates, remove_ok.
  - case_decide; simplify_eq; [empty_list m l|].
    case_decide as Ht; simplify_eq. destruct (split_member t ts Ht) as (ys & zs & -> & Hny).
    rewrite remove_item_mid by done. by eapply removed_simulates, erase_ok.
  - simplify_eq. destruct (clear_ok EnableLock node_link_ptr m ∅ D l ts fuel) as (m' & l' & ? & ? & ? & _ & F); auto.
    exists m', l'. split_and!; [done..|]. intros u. by apply node_frame with (cells node_link_ptr l ts).
Qed.

Lemma abs_op_length o ts D a' : abs_op o (ts, D) = Some a' → (length a'.1 <= S (length ts))%nat.
Proof.
  assert (Hins : ∀ u t us, (length (insert_after u t us) <= S (length us))%nat).
  { intros u t us. induction us as [|x us IH]; simpl; [lia|]. case_decide; simpl; lia. }
  assert (Hrem : ∀ t us, (length (remove_item t us) <= length us)%nat).
  { intros t us. induction us as [|x us IH]; simpl; [lia|]. case_decide; simpl; lia. }
  destruct o; simpl; repeat case_decide; intros; simplify_eq/=; rewrite ?length_app; simpl; auto; try lia.
  - destruct (last ts) as [t|] eqn:E; simpl; [|lia].
    apply last_Some in E as [ts' ->]. rewrite removelast_last, length_app. lia.
  - destruct ts; simpl; lia.
Qed.

Lemma run_simulates fuel os m l ts D a' :
  repr m l ts → Forall (λ o, Forall (node m) (op_items o)) os → (length ts + length os <= fuel)%nat →
  abs_run os (ts, D) = Some a' →
  ∃ m' l', conc_run fuel os l (Lmem m ∅ D) = Some (l', Lmem m' ∅ a'.2) ∧ head_ l' = head_ l ∧ repr m' l' a'.1.
Proof.
  revert m l ts D. induction os as [|o os IH]; intros m l ts D R N Hf Hr.
  - simplify_eq/=. by exists m, l.
  - cbn [abs_run] in Hr. simpl in Hf. apply Forall_cons in N as [No N]. destruct (abs_op o (ts, D)) as [[ts1 D1]|] eqn:Ho; [|done].
    destruct (op_simulates fuel o m l ts D (ts1, D1)) as (m1 & l1 & H1 & Hh & R1 & Hn); [done|done|lia|done|].
    apply abs_op_length in Ho. simpl in Ho, R1, H1.
    destruct (IH m1 l1 ts1 D1) as (m2 & l2 & H2 & Hh2 & R2); [done| |lia|done|].
    { eapply Forall_impl; [exact N|]. intros o' No'. eapply Forall_impl; [exact No'|]. auto. }
    exists m2, l2. split_and!; [|congruence|done]. simpl. by rewrite (bind_run _ _ _ _ _ H1).
Qed.
End refinement.

(** ** Sortedness of the merge *)

Section sorted.
Context (cmp : loc → loc → bool).

(** [a] may come before [b]: [cmp] does not put [b] first. *)
Definition not_after (a b : loc) : Prop := cmp b a = false.

Context (Hasym : ∀ a b, cmp a b = true → cmp b a = false).
Context (Htrans : ∀ a b c, not_after a b → not_after b c → not_after a c).

Lemma merge_items_sorted ts us :
  StronglySorted not_after ts → StronglySorted not_after us →
  StronglySorted not_after (merge_items cmp ts us).
Proof.
  revert us. induction ts as [|t ts IHt]; [by intros []|].
  induction us as [|u us IHu]; intros Ht Hu; [done|].
  pose proof Ht as [Hts Hat]%StronglySorted_inv. pose proof Hu as [Hus Hau]%StronglySorted_inv.
  cbn [merge_items]. destruct (cmp t u) eqn:E; constructor; [by apply IHt| |by apply IHu|].
  - rewrite merge_items_members. apply Forall_app. split; [done|]. apply Forall_cons. split; [by apply Hasym|].
    eapply Forall_impl; [exact Hau|]. intros x. apply Htrans. by apply Hasym.
  - change (Forall (not_after u) (merge_items cmp (t :: ts) us)). rewrite merge_items_members.
    apply Forall_app. split; [|done]. apply Forall_cons. split; [done|].
    eapply Forall_impl; [exact Hat|]. intros x. by apply Htrans.
Qed.
End sorted.

(** ** Theorems *)

(** A memory with an empty list (head 16), a list (head 32) of the items 300
    and 400, and two detached items 100 and 200; links are 8 bytes in. *)
Definition demo_link (t : loc) : loc := t + 8.
Definition demo_mem : link_mem := list_to_map [
  (16, {| parent_ := null; next_ := 16; prev_ := 16 |});
  (32, {| parent_ := null; next_ := 308; prev_ := 408 |});
  (308, {| parent_ := 300; next_ := 408; prev_ := 32 |});
  (408, {| parent_ := 400; next_ := 32; prev_ := 308 |});
  (48, {| parent_ := null; next_ := 48; prev_ := 48 |});
  (108, {| parent_ := 100; next_ := 108; prev_ := 108 |});
  (208, {| parent_ := 200; next_ := 208; prev_ := 208 |})].
Definition demo_list : intrusive_list := {| head_ := 32; size_ := 2 |}.
Definition demo_empty : intrusive_list := {| head_ := 16; size_ := 0 |}.
Definition demo_empty2 : intrusive_list := {| head_ := 48; size_ := 0 |}.

(** C1: [intrusive_list] refines the abstract list: from any state that
    represents a sequence of items, with no lock held, every sequence of
    [push_back], [push_front], [insert], [pop_back], [pop_front], [remove],
    [erase] and [clear] that is meaningful on the sequence runs to completion
    (no invalid access, no lock taken twice, all locks released), leaves the list representing the
    sequence the abstract operations give, calls the deleter on exactly the
    items they remove, in order, and keeps the recorded size right; with and
    without [EnableLock]. *)
Theorem intrusive_list_refines EnableLock node_link_ptr fuel os m l ts D ts' D' :
  repr node_link_ptr m l ts →
  Forall (λ o, Forall (node node_link_ptr m) (op_items o)) os →
  (length ts + length os <= fuel)%nat →
  abs_run os (ts, D) = Some (ts', D') →
  ∃ m' l', conc_run EnableLock node_link_ptr fuel os l (Lmem m ∅ D) = Some (l', Lmem m' ∅ D') ∧
    head_ l' = head_ l ∧ repr node_link_ptr m' l' ts'.
Proof. intros R N Hf Hr. apply (run_simulates EnableLock node_link_ptr fuel os m l ts D (ts', D') R N Hf Hr). Qed.

Lemma intrusive_list_refines_witness :
  ∃ m' l', conc_run true demo_link 20
      [OpPushBack 100; OpInsert 300 200; OpPopFront; OpRemove 100; OpPopBack; OpPushFront 100; OpClear]
      demo_list (Lmem demo_mem ∅ []) = Some (l', Lmem m' ∅ [300; 100; 400; 100; 200]) ∧
    head_ l' = 32 ∧ repr demo_link m' l' [].
Proof.
  apply (intrusive_list_refines true demo_link 20 _ demo_mem demo_list [300; 400] [] [] [300; 100; 400; 100; 200]).
  - eval_decide.
  - eval_decide.
  - simpl. lia.
  - reflexivity.
Defined.



(** [splice(pos, other)] moves all items of [other], in order, right after
    the position, and leaves [other] empty; the plain [splice] is the case of
    the position before the first item. *)
Theorem splice_joins EnableLock node_link_ptr m D l ys zs l2 us :
  repr node_link_ptr m l (ys ++ zs) → repr node_link_ptr m l2 us →
  NoDup (cells node_link_ptr l (ys ++ zs) ++ cells node_link_ptr l2 us) →
  ∃ m' l' l2', splice_at EnableLock l (pred_of (head_ l) (node_link_ptr <$> ys)) l2 (Lmem m ∅ D)
      = Some ((l', l2'), Lmem m' ∅ D) ∧
    repr node_link_ptr m' l' (ys ++ us ++ zs) ∧ repr node_link_ptr m' l2' [] ∧
    (ys = [] → splice EnableLock l l2 (Lmem m ∅ D) = Some ((l', l2'), Lmem m' ∅ D)).
Proof.
  intros R1 R2 Hnd.
  destruct (splice_at_ok EnableLock node_link_ptr m ∅ D l ys zs l2 us)
    as (m' & l' & l2' & Hrun & _ & _ & R1' & R2' & _); [done..|apply links_free_empty|apply avail_empty|].
  exists m', l', l2'. split_and!; [done..|]. intros ->. exact Hrun.
Qed.

Lemma splice_joins_witness :
  ∃ m' l' l2', splice_at true demo_empty 16 demo_list (Lmem demo_mem ∅ []) = Some ((l', l2'), Lmem m' ∅ []) ∧
    repr demo_link m' l' ([] ++ [300; 400] ++ []) ∧ repr demo_link m' l2' [] ∧
    (@nil loc = [] → splice true demo_empty demo_list (Lmem demo_mem ∅ []) = Some ((l', l2'), Lmem m' ∅ [])).
Proof.
  apply (splice_joins true demo_link demo_mem [] demo_empty [] [] demo_list [300; 400]); eval_decide.
Defined.

(** [swap] with a non-empty other list exchanges the contents and the sizes
    of the two lists. *)
Theorem swap_exchanges EnableLock node_link_ptr m D l ts l2 us :
  repr node_link_ptr m l ts → repr node_link_ptr m l2 us → us ≠ [] →
  NoDup (cells node_link_ptr l ts ++ cells node_link_ptr l2 us) →
  ∃ m' l' l2', swap EnableLock l l2 (Lmem m ∅ D) = Some ((l', l2'), Lmem m' ∅ D) ∧
    head_ l' = head_ l ∧ head_ l2' = head_ l2 ∧
    repr node_link_ptr m' l' us ∧ repr node_link_ptr m' l2' ts.
Proof.
  intros R1 R2 Hne Hnd. destruct us as [|u us]; [done|].
  destruct (swap_ok EnableLock node_link_ptr m ∅ D l ts l2 u us)
    as (m' & l' & l2' & Hrun & ? & ? & ? & ? & _); [done..|apply links_free_empty|apply avail_empty|].
  by exists m', l', l2'.
Qed.

Lemma swap_exchanges_witness :
  ∃ m' l' l2', swap true demo_empty demo_list (Lmem demo_mem ∅ []) = Some ((l', l2'), Lmem m' ∅ []) ∧
    head_ l' = 16 ∧ head_ l2' = 32 ∧ repr demo_link m' l' [300; 400] ∧ repr demo_link m' l2' [].
Proof.
  apply (swap_exchanges true demo_link demo_mem [] demo_empty [] demo_list [300; 400]);
    [eval_decide|eval_decide|discriminate|eval_decide].
Defined.

(** [swap] with an empty other list does not exchange anything: the head of
    the first list becomes a member of the other ring, in front of its items,
    so that the other list represents no sequence of items at all. *)
Theorem swap_empty_breaks EnableLock node_link_ptr m D l ts l2 :
  repr node_link_ptr m l ts → repr node_link_ptr m l2 [] →
  head_ l2 ∉ cells node_link_ptr l ts →
  ∃ m' l' l2', swap EnableLock l l2 (Lmem m ∅ D) = Some ((l', l2'), Lmem m' ∅ D) ∧
    is_ring m' (head_ l2') (head_ l' :: (node_link_ptr <$> ts)) ∧
    size_ l2' = wrap64 (Z.of_nat (length ts)).
Proof.
  intros R1 R2 Hne. destruct (swap_empty_ok EnableLock node_link_ptr m ∅ D l ts l2)
    as (m' & l' & l2' & Hrun & ? & _ & ?); [done..|apply links_free_empty|apply avail_empty|].
  by exists m', l', l2'.
Qed.

Lemma swap_empty_breaks_witness :
  ∃ m' l' l2', swap true demo_list demo_empty (Lmem demo_mem ∅ []) = Some ((l', l2'), Lmem m' ∅ []) ∧
    is_ring m' (head_ l2') (head_ l' :: (demo_link <$> [300; 400])) ∧ size_ l2' = wrap64 2.
Proof.
  apply (swap_empty_breaks true demo_link demo_mem [] demo_list [300; 400] demo_empty); eval_decide.
Defined.

(** [merge] of two distinct empty lists leaves the first one pointing at
    [do_merge]'s local head, whose lifetime has ended: the next access through
    the list ([front]) is through a dangling pointer. *)
Theorem merge_empty_dangles EnableLock node_link_ptr cmp m D l l2 t fuel :
  repr node_link_ptr m l [] → repr node_link_ptr m l2 [] →
  NoDup [head_ l; head_ l2; t] → m !! t = None → (0 < fuel)%nat →
  ∃ m' l' l2', merge EnableLock cmp fuel t l l2 (Lmem m ∅ D) = Some ((l', l2'), Lmem m' ∅ D) ∧
    front_ptr l' (Lmem m' ∅ D) = None.
Proof.
  intros R1 R2 Hnd Ht Hf. destruct (merge_empty_ok EnableLock node_link_ptr cmp m ∅ D l l2 t fuel)
    as (m' & l' & l2' & Hrun & Hn & Hgone); [done..|apply links_free_empty|apply avail_empty|done|].
  exists m', l', l2'. split; [done|]. unfold front_ptr.
  erewrite bind_run by apply run_on_links, run_load_next, Hn. unfold load_parent. simpl. by rewrite Hgone.
Qed.

Lemma merge_empty_dangles_witness :
  ∃ m' l' l2', merge false Z.ltb 1 64 demo_empty demo_empty2 (Lmem demo_mem ∅ [])
      = Some ((l', l2'), Lmem m' ∅ []) ∧ front_ptr l' (Lmem m' ∅ []) = None.
Proof.
  apply (merge_empty_dangles false demo_link Z.ltb demo_mem [] demo_empty demo_empty2 64 1);
    [eval_decide..|reflexivity|lia].
Defined.

(** The move constructor transfers a non-empty list to the new object and
    leaves the old one empty. *)
Theorem move_transfers EnableLock node_link_ptr m D h l ts :
  repr node_link_ptr m l ts → ts ≠ [] → m !! h = None →
  ∃ m' l' l2, intrusive_list_move EnableLock h l (Lmem m ∅ D) = Some ((l', l2), Lmem m' ∅ D) ∧
    head_ l' = h ∧ head_ l2 = head_ l ∧ repr node_link_ptr m' l' ts ∧ repr node_link_ptr m' l2 [].
Proof.
  intros R Hne Hh. destruct ts as [|t ts]; [done|].
  by apply intrusive_list_move_ok with (1 := R); [|apply avail_empty].
Qed.

Lemma move_transfers_witness :
  ∃ m' l' l2, intrusive_list_move true 64 demo_list (Lmem demo_mem ∅ []) = Some ((l', l2), Lmem m' ∅ []) ∧
    head_ l' = 64 ∧ head_ l2 = 32 ∧ repr demo_link m' l' [300; 400] ∧ repr demo_link m' l2 [].
Proof.
  apply (move_transfers true demo_link demo_mem [] 64 demo_list [300; 400]);
    [eval_decide|discriminate|reflexivity].
Defined.

(** Moving from an empty list gives an object of size 0 that is not empty
    and whose traversal never ends: [empty] answers false and [size_slow] does
    not return, whatever the number of iterations allowed. *)
Theorem move_empty_spins EnableLock node_link_ptr m D h l :
  repr node_link_ptr m l [] → m !! h = None →
  ∃ m' l' l2, intrusive_list_move EnableLock h l (Lmem m ∅ D) = Some ((l', l2), Lmem m' ∅ D) ∧
    size l' = 0 ∧ empty EnableLock l' (Lmem m' ∅ D) = Some (false, Lmem m' ∅ D) ∧
    (∀ fuel, do_size_slow fuel l' (Lmem m' ∅ D) = None).
Proof.
  intros R Hh. destruct (intrusive_list_move_empty_ok EnableLock node_link_ptr m ∅ D h l)
    as (m' & l' & l2 & Hrun & Hhd & Hsz & Hn & Hne & Hk); [done..|apply avail_empty|].
  exists m', l', l2. rewrite <- Hhd in Hn, Hne. split_and!; [done..| |].
  - apply run_guard; [intros _; set_solver|]. apply run_on_links.
    erewrite bind_run by apply run_load_next, Hn. by rewrite bool_decide_false.
  - intros fuel. unfold do_size_slow. erewrite bind_run by apply run_on_links, run_load_next, Hn.
    apply size_loop_spins; [|done]. apply (ring_next_of m' _ [] [] Hk).
Qed.

Lemma move_empty_spins_witness :
  ∃ m' l' l2, intrusive_list_move true 64 demo_empty (Lmem demo_mem ∅ []) = Some ((l', l2), Lmem m' ∅ []) ∧
    size l' = 0 ∧ empty true l' (Lmem m' ∅ []) = Some (false, Lmem m' ∅ []) ∧
    (∀ fuel, do_size_slow fuel l' (Lmem m' ∅ []) = None).
Proof.
  apply (move_empty_spins true demo_link demo_mem [] 64 demo_empty); [eval_decide|reflexivity].
Defined.

(** The plain list: inserting a fresh cell after any position of a ring and
    removing any cell are the list operations, everything else is untouched,
    and a [list_for] traversal visits exactly the members, in order, and ends. *)
Theorem pod_list_roundtrip (s : pod_mem) h ys zs new fuel :
  is_ring s h (ys ++ zs) → cell s new → new ∉ h :: ys ++ zs →
  (S (length (ys ++ zs)) < fuel)%nat →
  ∃ s1 s2, PodList.list_add new (pred_of h ys) s = Some (tt, s1) ∧
    list_for fuel h s1 = Some (ys ++ new :: zs, s1) ∧
    PodList.list_remove new s1 = Some (tt, s2) ∧
    list_for fuel h s2 = Some (ys ++ zs, s2) ∧ nx s2 new = Some null ∧
    (∀ q, q ∉ h :: new :: ys ++ zs → s2 !! q = s !! q).
Proof.
  intros Hr Hc Hn Hf. destruct (list_add_spec s h ys zs new Hr Hc Hn) as (s1 & H1 & R1 & F1).
  destruct (list_remove_spec s1 h ys new zs R1) as (s2 & H2 & R2 & Hnull & _ & F2).
  exists s1, s2. rewrite length_app in Hf. split_and!; [done| |done| |done|].
  - apply list_for_spec; [done|]. rewrite length_app. simpl. lia.
  - apply list_for_spec; [done|]. rewrite length_app. lia.
  - intros q Hq. assert (frame [new; pred_of h ys; succ_of h zs] s s2) as (_ & A & _) by by eapply frame_trans.
    destruct (A q) as [An Ap].
    { pose proof (pred_of_elem h ys). pose proof (succ_of_elem h zs). clear -Hq H H0. set_solver. }
    simpl in An, Ap. destruct (s2 !! q) as [[]|], (s !! q) as [[]|]; naive_solver.
Qed.

Definition demo_pod : pod_mem := list_to_map [
  (1, {| next := 2; prev := 3 |}); (2, {| next := 3; prev := 1 |}); (3, {| next := 1; prev := 2 |});
  (4, {| next := null; prev := null |})].

Lemma pod_list_roundtrip_witness :
  ∃ s1 s2, PodList.list_add 4 2 demo_pod = Some (tt, s1) ∧
    list_for 5 1 s1 = Some ([2; 4; 3], s1) ∧ PodList.list_remove 4 s1 = Some (tt, s2) ∧
    list_for 5 1 s2 = Some ([2; 3], s2) ∧ nx s2 4 = Some null ∧
    (∀ q, q ∉ [1; 4; 2; 3] → s2 !! q = demo_pod !! q).
Proof.
  apply (pod_list_roundtrip demo_pod 1 [2] [3] 4 5); [eval_decide|by eexists|eval_decide|simpl; lia].
Defined.
