(* ===== verification/Buddy.v ===== *)
(** * The buddy page allocator: [kern/memory/pmm/buddy_provider.cc]

    A [page*] is its index in [pmm::pages].  The free lists are the plain lists
    of [pod_list.h] threaded through the pages, on a memory of link cells of
    their own; [None] is a panic (a failed assertion) or an access outside the
    page array. *)

From S2P Require Import Prelude Types Links PodList.

(** [struct page] without its link. *)
Record page := { ref : Z; flags : Z; property : Z; zone_id : Z }.

Definition PHYSICAL_PAGE_FLAG_RESERVED : Z := 1.
Definition PHYSICAL_PAGE_FLAG_PROPERTY : Z := 2.

Definition page_has_flag (pg : page) (fl : Z) : bool := negb (Z.land (flags pg) fl =? 0).
Definition page_set_flag (fl : Z) (pg : page) : page :=
  {| ref := ref pg; flags := Z.lor (flags pg) fl; property := property pg; zone_id := zone_id pg |}.
Definition page_clear_flag (fl : Z) (pg : page) : page :=
  {| ref := ref pg; flags := Z.land (flags pg) (bnot64 fl); property := property pg; zone_id := zone_id pg |}.
Definition with_property (v : Z) (pg : page) : page :=
  {| ref := ref pg; flags := flags pg; property := v; zone_id := zone_id pg |}.

Definition MAX_ORDER : Z := 12.
Definition ZONE_COUNT_MAX : Z := 8.

(** [&p->page_link], [list_entry(entry, page, page_link)] and
    [&free_areas_[order].freelist]. *)
Definition page_link (p : Z) : loc := p + 1.
Definition page_of_link (entry : loc) : Z := entry - 1.
Definition freelist (order : Z) : loc := - (order + 1).

Record buddy := {
  pages : gmap Z page;
  page_links : pod_mem;
  free_counts : gmap Z Z;      (* free_areas_[order].free_count *)
  zones_ : gmap Z Z;           (* zones_[id].base *)
  zone_count_ : Z;
}.

Definition set_pages (m : gmap Z page) (s : buddy) : buddy :=
  {| pages := m; page_links := page_links s; free_counts := free_counts s;
     zones_ := zones_ s; zone_count_ := zone_count_ s |}.
Definition set_links (m : pod_mem) (s : buddy) : buddy :=
  {| pages := pages s; page_links := m; free_counts := free_counts s;
     zones_ := zones_ s; zone_count_ := zone_count_ s |}.
Definition set_counts (m : gmap Z Z) (s : buddy) : buddy :=
  {| pages := pages s; page_links := page_links s; free_counts := m;
     zones_ := zones_ s; zone_count_ := zone_count_ s |}.

(** Reading [*p], updating [*p], a list operation, and [free_count += d]. *)
Definition load_page (p : Z) : ST buddy page := λ s,
  match pages s !! p with Some pg => Some (pg, s) | None => None end.
Definition update_page (p : Z) (f : page → page) : ST buddy unit := λ s,
  match pages s !! p with
  | Some pg => Some (tt, set_pages (<[p := f pg]> (pages s)) s)
  | None => None
  end.
Definition on_page_links {A} (c : ST pod_mem A) : ST buddy A := λ s,
  match c (page_links s) with Some (x, m) => Some (x, set_links m s) | None => None end.
Definition add_count (order d : Z) : ST buddy unit := λ s,
  match free_counts s !! order with
  | Some c => Some (tt, set_counts (<[order := c +w d]> (free_counts s)) s)
  | None => None
  end.

Section operations.
(** [pmm::page_count]. *)
Context (page_count : Z).

Definition get_order (n : Z) : Z := log2 (powerof2_roundup n).

Definition zone_base (id : Z) : ST buddy Z := λ s,
  match zones_ s !! id with Some b => Some (b, s) | None => None end.

Definition index_to_page (zone index : Z) : ST buddy Z :=
  b ← zone_base zone; mret (wrap64 (b + index)).

Definition page_to_index (p : Z) : ST buddy Z :=
  pg ← load_page p;
  b ← zone_base (zone_id pg);
  mret (wrap64 (p - b)).

(** [pmm::page_to_index(page) < pmm::page_count], a comparison of [size_t]s. *)
Definition is_buddy_page (p order zone : Z) : ST buddy bool :=
  if wrap64 p <? page_count then
    pg ← load_page p;
    if zone_id pg =? zone then
      mret (negb (page_has_flag pg PHYSICAL_PAGE_FLAG_RESERVED) &&
            page_has_flag pg PHYSICAL_PAGE_FLAG_PROPERTY && (property pg =? order))
    else mret false
  else mret false.

(** The first loop of [do_free]: [count] pages from [p]. *)
Fixpoint reset_pages (count : nat) (p : Z) : ST buddy unit :=
  match count with
  | O => mret tt
  | S count =>
      pg ← load_page p;
      kassert (negb (page_has_flag pg PHYSICAL_PAGE_FLAG_RESERVED));;
      kassert (negb (page_has_flag pg PHYSICAL_PAGE_FLAG_PROPERTY));;
      update_page p (λ pg, {| ref := 0; flags := 0; property := property pg; zone_id := zone_id pg |});;
      reset_pages count (p + 1)
  end.

(** The loop that merges with free buddies; [MAX_ORDER] rounds at most. *)
Fixpoint merge_buddies (fuel : nat) (zone page_index order : Z) : ST buddy (Z * Z) :=
  match fuel with
  | O => st_fail
  | S fuel =>
      if order <? MAX_ORDER then
        let buddy_index := Z.lxor page_index (Z.shiftl 1 order) in
        buddy ← index_to_page zone buddy_index;
        b ← is_buddy_page buddy order zone;
        if (b : bool) then
          add_count order (-1);;
          on_page_links (list_remove (page_link buddy));;
          update_page buddy (page_clear_flag PHYSICAL_PAGE_FLAG_PROPERTY);;
          merge_buddies fuel zone (Z.land page_index buddy_index) (order + 1)
        else mret (page_index, order)
      else mret (page_index, order)
  end.

Definition do_free (base order : Z) : ST buddy unit :=
  page_index ← page_to_index base;
  kassert (Z.land page_index (Z.shiftl 1 order - 1) =? 0);;
  reset_pages (Z.to_nat (Z.shiftl 1 order)) base;;
  pg ← load_page base;
  let zone := zone_id pg in
  r ← merge_buddies 13 zone page_index order;
  p ← index_to_page zone r.1;
  update_page p (with_property r.2);;
  update_page p (page_set_flag PHYSICAL_PAGE_FLAG_PROPERTY);;
  add_count r.2 1;;
  on_page_links (list_add (page_link p) (freelist r.2)).

(** Splitting the block of order [cur] at [pg] down to [order]; [cur - order]
    rounds. *)
Fixpoint split_block (rounds : nat) (pg cur : Z) : ST buddy unit :=
  match rounds with
  | O => mret tt
  | S rounds =>
      let cur := cur - 1 in
      let buddy := pg + Z.shiftl 1 cur in
      update_page buddy (with_property cur);;
      update_page buddy (page_set_flag PHYSICAL_PAGE_FLAG_PROPERTY);;
      add_count cur 1;;
      on_page_links (list_add (page_link buddy) (freelist cur));;
      split_block rounds pg cur
  end.

(** The search of [do_allocate] from order [cur] on; [None] is [nullptr]. *)
Fixpoint find_block (fuel : nat) (order cur : Z) : ST buddy (option Z) :=
  match fuel with
  | O => st_fail
  | S fuel =>
      if cur <=? MAX_ORDER then
        e ← on_page_links (list_empty (freelist cur));
        if (e : bool) then find_block fuel order (cur + 1)
        else
          entry ← on_page_links (load_next (freelist cur));
          let pg := page_of_link entry in
          add_count cur (-1);;
          on_page_links (list_remove entry);;
          split_block (Z.to_nat (cur - order)) pg cur;;
          update_page pg (page_clear_flag PHYSICAL_PAGE_FLAG_PROPERTY);;
          mret (Some pg)
      else mret None
  end.

Definition do_allocate (order : Z) : ST buddy (option Z) :=
  kassert (order <=? MAX_ORDER);;
  find_block 14 order order.

(** The first loop of [free]: the low bits of the index, smallest first. *)
Fixpoint free_up (fuel : nat) (base n order : Z) : ST buddy (Z * Z * Z) :=
  match fuel with
  | O => st_fail
  | S fuel =>
      let order_size := Z.shiftl 1 order in
      if order_size <=? n then
        kassert (order <=? MAX_ORDER);;
        index ← page_to_index base;
        if negb (Z.land index order_size =? 0) then
          do_free base order;;
          free_up fuel (base + order_size) (n - order_size) (order + 1)
        else free_up fuel base n (order + 1)
      else mret (base, n, order)
  end.

(** [while (n < order_size) { order--; order_size >>= 1; }]. *)
Fixpoint shrink_order (fuel : nat) (n order : Z) : option Z :=
  match fuel with
  | O => None
  | S fuel => if n <? Z.shiftl 1 order then shrink_order fuel n (order - 1) else Some order
  end.

(** The second loop: what is left, largest blocks first. *)
Fixpoint free_down (fuel : nat) (base n order : Z) : ST buddy unit :=
  match fuel with
  | O => st_fail
  | S fuel =>
      if n =? 0 then mret tt else
      match shrink_order 64 n order with
      | None => st_fail
      | Some order =>
          do_free base order;;
          free_down fuel (base + Z.shiftl 1 order) (n - Z.shiftl 1 order) order
      end
  end.

Definition free (base n : Z) : ST buddy unit :=
  kassert (0 <? n);;
  if n =? 1 then do_free base 0
  else
    r ← free_up 64 base n 0;
    free_down 64 r.1.1 r.1.2 r.2.

Definition allocate (n : Z) : ST buddy (option Z) :=
  kassert (0 <? n);;
  let order := get_order n in
  r ← do_allocate order;
  match r with
  | Some pg =>
      (if negb (n =? Z.shiftl 1 order) then free (pg + n) (Z.shiftl 1 order - n) else mret tt);;
      mret (Some pg)
  | None => mret None
  end.

Definition free_count (s : buddy) : option Z :=
  foldl (λ acc order, match acc, free_counts s !! order with
                      | Some a, Some c => Some (a +w c * Z.shiftl 1 order)
                      | _, _ => None
                      end) (Some 0) (seqZ 0 13).

(** The first loop of [setup_for_base]: [count] pages from [p]. *)
Fixpoint init_pages (count : nat) (p zone : Z) : ST buddy unit :=
  match count with
  | O => mret tt
  | S count =>
      pg ← load_page p;
      kassert (page_has_flag pg PHYSICAL_PAGE_FLAG_RESERVED);;
      update_page p (λ _, {| ref := 0; flags := 0; property := 0; zone_id := zone |});;
      init_pages count (p + 1) zone
  end.

(** Its second loop and the one inside: every step takes a block of the
    current order or goes to the next order. *)
Fixpoint carve (fuel : nat) (p n order : Z) : ST buddy unit :=
  match fuel with
  | O => st_fail
  | S fuel =>
      if n =? 0 then mret tt
      else if Z.shiftl 1 order <=? n then
        update_page p (page_set_flag PHYSICAL_PAGE_FLAG_PROPERTY);;
        update_page p (with_property order);;
        on_page_links (list_add (page_link p) (freelist order));;
        add_count order 1;;
        carve fuel (p - Z.shiftl 1 order) (n - Z.shiftl 1 order) order
      else carve fuel p n (order - 1)
  end.

Definition add_zone (base : Z) : ST buddy unit := λ s,
  Some (tt, {| pages := pages s; page_links := page_links s; free_counts := free_counts s;
               zones_ := <[zone_count_ s := base]> (zones_ s); zone_count_ := zone_count_ s + 1 |}).

Definition setup_for_base (base n : Z) : ST buddy unit :=
  kassert (0 <? n);;
  s ← st_get;
  kassert (zone_count_ s <? ZONE_COUNT_MAX);;
  init_pages (Z.to_nat n) base (zone_count_ s);;
  add_zone base;;
  carve (Z.to_nat n + 14) (base + (n - 1)) n MAX_ORDER.

(** [buddy_provider()]: the heads of the free lists are in place, [i] counts up. *)
Fixpoint init_areas (count : nat) (i : Z) : ST buddy unit :=
  match count with
  | O => mret tt
  | S count =>
      on_page_links (list_init (freelist i));;
      (λ s, Some (tt, set_counts (<[i := 0]> (free_counts s)) s));;
      init_areas count (i + 1)
  end.

Definition buddy_provider : ST buddy unit := init_areas 13 0.
End operations.

(** ** Bits *)

Lemma even_land k : Z.land (2 * k) 1 = 0.
Proof.
  change 1 with (Z.ones 1). rewrite Z.land_ones by lia. change (2 ^ 1) with 2.
  rewrite Z.mul_comm. apply Z_mod_mult.
Qed.

Lemma even_lxor k : Z.lxor (2 * k) 1 = 2 * k + 1.
Proof. symmetry. apply Z.add_nocarry_lxor, even_land. Qed.

Lemma odd_lxor k : Z.lxor (2 * k + 1) 1 = 2 * k.
Proof. by rewrite <- even_lxor, Z.lxor_assoc, Z.lxor_nilpotent, Z.lxor_0_r. Qed.

Lemma land_even_odd k : Z.land (2 * k) (2 * k + 1) = 2 * k.
Proof.
  rewrite <- even_lxor, Z.lxor_lor by apply even_land.
  by rewrite Z.land_lor_distr_r, Z.land_diag, even_land, Z.lor_0_r.
Qed.

(** The buddy of an aligned block, and the start of the two together. *)
Lemma buddy_index_spec idx k :
  0 <= k → idx mod 2 ^ k = 0 →
  (Z.lxor idx (Z.shiftl 1 k) = idx + 2 ^ k ∧ Z.land idx (Z.lxor idx (Z.shiftl 1 k)) = idx ∧
     idx mod 2 ^ (k + 1) = 0) ∨
  (Z.lxor idx (Z.shiftl 1 k) = idx - 2 ^ k ∧
     Z.land idx (Z.lxor idx (Z.shiftl 1 k)) = idx - 2 ^ k ∧ (idx - 2 ^ k) mod 2 ^ (k + 1) = 0).
Proof.
  intros Hk Hm. assert (0 < 2 ^ k) by lia.
  assert (idx = Z.shiftl (idx / 2 ^ k) k) as E.
  { rewrite Z.shiftl_mul_pow2 by done. pose proof (Z.div_mod idx (2 ^ k) ltac:(lia)). lia. }
  set (m := idx / 2 ^ k) in *. rewrite E, <- Z.shiftl_lxor, <- Z.shiftl_land.
  rewrite Z.pow_add_r by lia. destruct (Z.Even_or_Odd m) as [[j Hj]|[j Hj]]; rewrite Hj; [left|right].
  - rewrite even_lxor, land_even_odd, !Z.shiftl_mul_pow2 by done. split_and!; [lia|done|].
    replace (2 * j * 2 ^ k) with (j * (2 ^ k * 2 ^ 1)) by lia. apply Z_mod_mult.
  - rewrite odd_lxor, Z.land_comm, land_even_odd, !Z.shiftl_mul_pow2 by done. split_and!; [lia..|].
    replace ((2 * j + 1) * 2 ^ k - 2 ^ k) with (j * (2 ^ k * 2 ^ 1)) by lia. apply Z_mod_mult.
Qed.

Lemma aligned_test idx k : 0 <= k → (Z.land idx (Z.shiftl 1 k - 1) =? 0) = bool_decide (idx mod 2 ^ k = 0).
Proof.
  intros Hk. rewrite Z.shiftl_1_l. replace (2 ^ k - 1) with (Z.ones k) by (rewrite Z.ones_equiv; lia).
  rewrite Z.land_ones by done. destruct (Z.eqb_spec (idx mod 2 ^ k) 0); by case_bool_decide.
Qed.

(** ** Page flags *)

Lemma has_set_flag pg : page_has_flag (page_set_flag PHYSICAL_PAGE_FLAG_PROPERTY pg) PHYSICAL_PAGE_FLAG_PROPERTY = true.
Proof.
  unfold page_has_flag. simpl. rewrite Z.land_lor_distr_l. rewrite Z.land_diag.
  destruct (Z.eqb_spec (Z.lor (Z.land (flags pg) PHYSICAL_PAGE_FLAG_PROPERTY) PHYSICAL_PAGE_FLAG_PROPERTY) 0) as [E|]; [|done].
  apply Z.lor_eq_0_iff in E as [_ ?]. done.
Qed.

Lemma has_set_other pg : page_has_flag (page_set_flag PHYSICAL_PAGE_FLAG_PROPERTY pg) PHYSICAL_PAGE_FLAG_RESERVED
  = page_has_flag pg PHYSICAL_PAGE_FLAG_RESERVED.
Proof.
  unfold page_has_flag. simpl. rewrite Z.land_lor_distr_l.
  change (Z.land PHYSICAL_PAGE_FLAG_PROPERTY PHYSICAL_PAGE_FLAG_RESERVED) with 0. by rewrite Z.lor_0_r.
Qed.

Lemma has_clear_flag pg : page_has_flag (page_clear_flag PHYSICAL_PAGE_FLAG_PROPERTY pg) PHYSICAL_PAGE_FLAG_PROPERTY = false.
Proof.
  unfold page_has_flag. simpl. rewrite <- Z.land_assoc.
  change (Z.land (bnot64 PHYSICAL_PAGE_FLAG_PROPERTY) PHYSICAL_PAGE_FLAG_PROPERTY) with 0.
  by rewrite Z.land_0_r.
Qed.

Lemma has_clear_other pg : page_has_flag (page_clear_flag PHYSICAL_PAGE_FLAG_PROPERTY pg) PHYSICAL_PAGE_FLAG_RESERVED
  = page_has_flag pg PHYSICAL_PAGE_FLAG_RESERVED.
Proof.
  unfold page_has_flag. simpl. rewrite <- Z.land_assoc.
  change (Z.land (bnot64 PHYSICAL_PAGE_FLAG_PROPERTY) PHYSICAL_PAGE_FLAG_RESERVED) with PHYSICAL_PAGE_FLAG_RESERVED. done.
Qed.

(** ** The invariant *)

Abbreviation has_prop pg := (page_has_flag pg PHYSICAL_PAGE_FLAG_PROPERTY).
Abbreviation is_reserved pg := (page_has_flag pg PHYSICAL_PAGE_FLAG_RESERVED).

(** [q] lies in the block of [2 ^ k] pages at [p]. *)
Definition in_block (k p q : Z) : Prop := p <= q < p + 2 ^ k.

(** The free lists, by order; [q] is free when it lies in a listed block. *)
Abbreviation free_lists := (Z → list Z).
Definition freep (fl : free_lists) (q : Z) : Prop := ∃ k p, p ∈ fl k ∧ in_block k p q.

Definition fl_set (k : Z) (l : list Z) (fl : free_lists) : free_lists :=
  λ j, if decide (j = k) then l else fl j.

Section invariant.
Context (page_count : Z).

(** The lists are well-formed rings with the recorded lengths, their members
    are exactly the pages with the property flag (up to the pages [X] in
    transit), marked with their order, and the blocks are inside the page
    array and do not overlap. *)
Record inv (X : list Z) (s : buddy) (fl : free_lists) : Prop := {
  inv_ring k : 0 <= k <= MAX_ORDER → is_ring (page_links s) (freelist k) (page_link <$> fl k);
  inv_range k p : p ∈ fl k → 0 <= k <= MAX_ORDER;
  inv_count k : 0 <= k <= MAX_ORDER → free_counts s !! k = Some (wrap64 (Z.of_nat (length (fl k))));
  inv_head k p : p ∈ fl k → ∃ pg, pages s !! p = Some pg ∧ has_prop pg = true ∧ property pg = k;
  inv_flag p pg : pages s !! p = Some pg → has_prop pg = true → p ∉ X → ∃ k, p ∈ fl k;
  inv_pages q : is_Some (pages s !! q) ↔ 0 <= q < page_count;
  inv_block k p q : p ∈ fl k → in_block k p q → 0 <= q < page_count;
  inv_disj k p k' p' q :
    p ∈ fl k → p' ∈ fl k' → in_block k p q → in_block k' p' q → k = k' ∧ p = p';
  inv_cell q : 0 <= q < page_count → cell (page_links s) (page_link q);
  inv_hole p k : p ∈ X → p ∉ fl k;
}.

Lemma in_block_start k p : 0 <= k → in_block k p p.
Proof. intros Hk. unfold in_block. lia. Qed.

Lemma head_free X s fl k p : inv X s fl → p ∈ fl k → freep fl p.
Proof. intros I Hp. exists k, p. split; [done|]. apply in_block_start. apply (inv_range _ _ _ I) in Hp. lia. Qed.

Lemma page_link_inj p q : page_link p = page_link q → p = q.
Proof. unfold page_link. lia. Qed.

Lemma head_page X s fl k p : inv X s fl → p ∈ fl k → 0 <= p < page_count.
Proof. intros I Hp. eapply inv_pages; [done|]. destruct (inv_head _ _ _ I k p Hp) as (pg & -> & _). eauto. Qed.

(** The cells of the free list of order [k]. *)
Abbreviation area k fl := (freelist k :: (page_link <$> fl (k)%Z)).

Lemma area_page X s fl k p : inv X s fl → 0 <= k → 0 <= p → page_link p ∈ area k fl → p ∈ fl k.
Proof.
  intros I Hk Hp [E|Hin]%elem_of_cons.
  - unfold page_link, freelist in E. lia.
  - apply list_elem_of_fmap in Hin as (q & E%page_link_inj & Hq). by subst.
Qed.

(** Different lists have different cells. *)
Lemma area_disjoint X s fl j k x :
  inv X s fl → 0 <= j → 0 <= k → j ≠ k → x ∈ area j fl → x ∈ area k fl → False.
Proof.
  intros I Hj Hk Hne [->|Hx]%elem_of_cons Hx2.
  - apply elem_of_cons in Hx2 as [E|Hx2]; [unfold freelist in E; lia|].
    apply list_elem_of_fmap in Hx2 as (q & E & Hq). apply (head_page _ _ _ _ _ I) in Hq.
    unfold freelist, page_link in E. lia.
  - apply list_elem_of_fmap in Hx as (p & -> & Hp). pose proof (head_page _ _ _ _ _ I Hp).
    apply (area_page _ _ _ _ _ I) in Hx2; [|lia..].
    destruct (inv_head _ _ _ I j p Hp) as (pg & E & _ & Hpj).
    destruct (inv_head _ _ _ I k p Hx2) as (pg' & E' & _ & Hpk). congruence.
Qed.

Lemma fl_set_eq k l fl : fl_set k l fl k = l.
Proof. unfold fl_set. by rewrite decide_True. Qed.

Lemma fl_set_ne j k l fl : j ≠ k → fl_set k l fl j = fl j.
Proof. intros. unfold fl_set. by rewrite decide_False. Qed.

(** Relinking the list of order [k] inside its cells and those of a page that
    is in no list. *)
Lemma rings_update X s fl k l Y m' :
  inv X s fl → 0 <= k <= MAX_ORDER →
  is_ring m' (freelist k) (page_link <$> l) → frame Y (page_links s) m' →
  (∀ x, x ∈ Y → x ∈ area k fl ∨ ∃ p, x = page_link p ∧ 0 <= p ∧ ∀ j, p ∉ fl j) →
  ∀ j, 0 <= j <= MAX_ORDER → is_ring m' (freelist j) (page_link <$> fl_set k l fl j).
Proof.
  intros I Hk Hr F HY j Hj. unfold fl_set. case_decide as E; [by subst|].
  eapply frame_ring; [exact F| |by eapply inv_ring]. intros x Hx Hx'.
  destruct (HY x Hx') as [Ha|(p & -> & Hp & Hn)].
  - by eapply (area_disjoint X s fl j k); [..|lia|lia| | |].
  - eapply (Hn j), area_page; [exact I|lia|done|done].
Qed.

Definition add_to (k d : Z) (s : buddy) (fl : free_lists) : gmap Z Z :=
  <[k := wrap64 (Z.of_nat (length (fl k))) +w d]> (free_counts s).

(** A state after the pages, links and counts have changed. *)
Definition upd (s : buddy) (ps : gmap Z page) (m : pod_mem) (cs : gmap Z Z) : buddy :=
  {| pages := ps; page_links := m; free_counts := cs; zones_ := zones_ s; zone_count_ := zone_count_ s |}.

Lemma inv_insert X s fl k p pg' :
  inv X s fl → 0 <= k <= MAX_ORDER →
  (∀ q, in_block k p q → 0 <= q < page_count ∧ ¬ freep fl q) → p ∉ X →
  has_prop pg' = true → property pg' = k →
  ∃ m', list_add (page_link p) (freelist k) (page_links s) = Some (tt, m') ∧
    inv X (upd s (<[p := pg']> (pages s)) m' (add_to k 1 s fl)) (fl_set k (p :: fl k) fl).
Proof.
  intros I Hk Hb HX Hf Hpr.
  destruct (Hb p) as [Hp Hnf]; [apply in_block_start; lia|].
  assert (Hno : ∀ j, p ∉ fl j) by (intros j Hj; by apply Hnf; eapply head_free).
  destruct (list_add_spec (page_links s) (freelist k) [] (page_link <$> fl k) (page_link p))
    as (m' & Hrun & Hr & F).
  { by eapply inv_ring. } { by eapply inv_cell. }
  { intros Hin. eapply (Hno k), area_page; [exact I|lia|lia|done]. }
  exists m'. split; [done|].
  assert (Hsplit : ∀ j q, q ∈ fl_set k (p :: fl k) fl j → q ∈ fl j ∨ j = k ∧ q = p).
  { intros j q. unfold fl_set. case_decide as E; [|by left]. subst. intros [->|?]%elem_of_cons; auto. }
  assert (Hne : ∀ j q, q ∈ fl j → q ≠ p) by (intros j q Hq ->; by eapply Hno).
  split; simpl.
  - eapply rings_update; [done..|]. intros x Hx. pose proof (succ_of_elem (freelist k) (page_link <$> fl k)).
    assert (x = page_link p ∨ x ∈ area k fl) as [->|?] by (clear -Hx H; set_solver); [right|by left].
    exists p. by split_and!; [|lia|].
  - intros j q [Hq|[-> ->]]%Hsplit; [by eapply inv_range|done].
  - intros j Hj. unfold add_to. destruct (decide (j = k)) as [->|E].
    + rewrite lookup_insert_eq, fl_set_eq. f_equal. unfold wrap64. rewrite Zplus_mod_idemp_l.
      simpl. f_equal. lia.
    + rewrite lookup_insert_ne, fl_set_ne by done. by eapply inv_count.
  - intros j q [Hq|[-> ->]]%Hsplit; [|exists pg'; by rewrite lookup_insert_eq].
    rewrite lookup_insert_ne by (symmetry; by eapply Hne). by eapply inv_head.
  - intros q pg Hq Hqf HqX. destruct (decide (q = p)) as [->|E].
    + exists k. rewrite fl_set_eq. left.
    + rewrite lookup_insert_ne in Hq by done. destruct (inv_flag _ _ _ I q pg Hq Hqf HqX) as [j Hj].
      exists j. unfold fl_set. case_decide; subst; [by right|done].
  - intros q. rewrite <- (inv_pages _ _ _ I q). destruct (decide (q = p)) as [->|E].
    + rewrite lookup_insert_eq. split; [|eauto]. intros _. by eapply inv_pages.
    + by rewrite lookup_insert_ne.
  - intros j q q' [Hq|[-> ->]]%Hsplit Hin; [by eapply inv_block|by apply Hb].
  - intros j q j' q' x [Hq|[-> ->]]%Hsplit [Hq'|[-> ->]]%Hsplit H1 H2; [by eapply inv_disj| | |done].
    + exfalso. apply (Hb x H2). by exists j, q.
    + exfalso. apply (Hb x H1). by exists j', q'.
  - intros q Hq. eapply frame_cell; [exact F|]. by eapply inv_cell.
  - intros q j Hq [Hj|[-> ->]]%Hsplit; [by eapply inv_hole|done].
Qed.

(** Taking a block off its list; its first page stays flagged, so that it is in
    transit. *)
Lemma inv_take X s fl k ys p zs :
  inv X s fl → 0 <= k <= MAX_ORDER → fl k = ys ++ p :: zs →
  ∃ m', list_remove (page_link p) (page_links s) = Some (tt, m') ∧
    inv (p :: X) (upd s (pages s) m' (add_to k (-1) s fl)) (fl_set k (ys ++ zs) fl).
Proof.
  intros I Hk E. pose proof (inv_ring _ _ _ I k Hk) as Hr. rewrite E, fmap_app in Hr. simpl in Hr.
  destruct (list_remove_spec (page_links s) (freelist k) (page_link <$> ys) (page_link p) (page_link <$> zs) Hr)
    as (m' & Hrun & Hr' & _ & _ & F).
  exists m'. split; [done|].
  assert (Hpk : p ∈ fl k) by (rewrite E; set_solver).
  assert (NoDup (fl k)) as Hnd.
  { apply ring_distinct in Hr as [_ Hr]%NoDup_cons. rewrite E. eapply NoDup_fmap_1 with (f := page_link).
    by rewrite fmap_app. }
  assert (Hsub : ∀ j q, q ∈ fl_set k (ys ++ zs) fl j → q ∈ fl j ∧ q ≠ p).
  { intros j q. unfold fl_set. case_decide as Ej; [subst j|].
    - rewrite E in *. apply NoDup_app in Hnd as (_ & Hd & [Hn _]%NoDup_cons). intros Hq.
      split; [clear -Hq; set_solver|]. intros ->. apply elem_of_app in Hq as [Hq|Hq]; [|done].
      apply (Hd p Hq). left.
    - intros Hq. split; [done|]. intros ->. destruct (inv_head _ _ _ I j p Hq) as (pg & E1 & _ & P1).
      destruct (inv_head _ _ _ I k p Hpk) as (pg' & E2 & _ & P2). congruence. }
  split; simpl.
  - eapply rings_update; [done|done|by rewrite fmap_app|done|]. intros x Hx. left.
    pose proof (pred_of_elem (freelist k) (page_link <$> ys)).
    pose proof (succ_of_elem (freelist k) (page_link <$> zs)). rewrite E, fmap_app. simpl.
    clear -Hx H H0. set_solver.
  - intros j q [Hq _]%Hsub. by eapply inv_range.
  - intros j Hj. unfold add_to. destruct (decide (j = k)) as [->|Ej].
    + rewrite lookup_insert_eq, fl_set_eq, E. f_equal. unfold wrap64. rewrite Zplus_mod_idemp_l.
      f_equal. rewrite !length_app. simpl. lia.
    + rewrite lookup_insert_ne, fl_set_ne by done. by eapply inv_count.
  - intros j q [Hq _]%Hsub. by eapply inv_head.
  - intros q pg Hq Hqf [Hne HqX]%not_elem_of_cons. destruct (inv_flag _ _ _ I q pg Hq Hqf HqX) as [j Hj].
    exists j. unfold fl_set. case_decide; [subst j|done]. rewrite E in Hj. clear -Hj Hne. set_solver.
  - by eapply inv_pages.
  - intros j q x [Hq _]%Hsub. by eapply inv_block.
  - intros j q j' q' x [Hq _]%Hsub [Hq' _]%Hsub. by eapply inv_disj.
  - intros q Hq. eapply frame_cell; [exact F|]. by eapply inv_cell.
  - intros q j [->|HqX]%elem_of_cons [Hq Hne]%Hsub; [done|by eapply inv_hole].
Qed.

(** Changing a page that heads no block, leaving it without the flag. *)
Lemma inv_page X Y s fl p pg' :
  inv X s fl → 0 <= p < page_count → (∀ k, p ∉ fl k) → has_prop pg' = false →
  (∀ q, q ∈ X → q = p ∨ q ∈ Y) → (∀ q, q ∈ Y → q ∈ X) →
  inv Y (upd s (<[p := pg']> (pages s)) (page_links s) (free_counts s)) fl.
Proof.
  intros I Hp Hno Hf HX HY. assert (Hne : ∀ j q, q ∈ fl j → q ≠ p) by (intros j q Hq ->; by eapply Hno).
  destruct I as [I1 I2 I3 I4 I5 I6 I7 I8 I9 I10]. split; simpl; try done.
  - intros k q Hq. rewrite lookup_insert_ne by (symmetry; by eapply Hne). by apply I4.
  - intros q pg Hq Hqf HqY. destruct (decide (q = p)) as [->|E].
    + rewrite lookup_insert_eq in Hq. simplify_eq. congruence.
    + rewrite lookup_insert_ne in Hq by done. apply (I5 q pg Hq Hqf). intros HqX.
      by destruct (HX q HqX).
  - intros q. rewrite <- I6. destruct (decide (q = p)) as [->|E]; [|by rewrite lookup_insert_ne].
    rewrite lookup_insert_eq. split; [|eauto]. intros _. by apply I6.
  - intros q k Hq. apply I10. auto.
Qed.

(** ** Free pages of updated lists *)

Lemma freep_add k p fl q : freep (fl_set k (p :: fl k) fl) q ↔ freep fl q ∨ in_block k p q.
Proof.
  split.
  - intros (j & r & Hr & Hq). unfold fl_set in Hr. case_decide as E.
    + subst j. apply elem_of_cons in Hr as [->|Hr]; [by right|left; by exists k, r].
    + left. by exists j, r.
  - intros [(j & r & Hr & Hq)|Hq].
    + exists j, r. split; [|done]. unfold fl_set. case_decide; [subst; by right|done].
    + exists k, p. rewrite fl_set_eq. split; [left|done].
Qed.

Lemma freep_del X s fl k ys p zs q :
  inv X s fl → fl k = ys ++ p :: zs →
  freep (fl_set k (ys ++ zs) fl) q ↔ freep fl q ∧ ¬ in_block k p q.
Proof.
  intros I E. assert (Hpk : p ∈ fl k) by (rewrite E; set_solver).
  assert (NoDup (fl k)) as Hnd.
  { pose proof (inv_range _ _ _ I _ _ Hpk) as Hk. pose proof (inv_ring _ _ _ I k Hk) as Hr.
    apply ring_distinct in Hr as [_ Hr]%NoDup_cons. by eapply NoDup_fmap_1. }
  rewrite E in Hnd. apply NoDup_app in Hnd as (_ & Hd & [Hn _]%NoDup_cons).
  split.
  - intros (j & r & Hr & Hq). unfold fl_set in Hr. case_decide as Ej.
    + subst j. assert (r ∈ fl k) as Hrk by (rewrite E; clear -Hr; set_solver).
      split; [by exists k, r|]. intros Hq'. destruct (inv_disj _ _ _ I k r k p q) as [_ ->]; [done..|].
      apply elem_of_app in Hr as [Hr|Hr]; [|done]. apply (Hd p Hr). left.
    + split; [by exists j, r|]. intros Hq'. destruct (inv_disj _ _ _ I j r k p q) as [? _]; done.
  - intros [(j & r & Hr & Hq) Hnq]. exists j, r. split; [|done]. unfold fl_set. case_decide as Ej; [subst j|done].
    rewrite E in Hr. assert (r ≠ p) by (intros ->; done). clear -Hr H. set_solver.
Qed.

(** ** Running the operations *)

(** What no operation on the free lists changes about a page. *)
Definition pinfo (pg : page) : Z * bool := (zone_id pg, is_reserved pg).

Definition stable (s s' : buddy) : Prop :=
  pinfo <$> pages s' = pinfo <$> pages s ∧ zones_ s' = zones_ s ∧ zone_count_ s' = zone_count_ s.

Lemma stable_refl s : stable s s.
Proof. done. Qed.

Lemma stable_trans s1 s2 s3 : stable s1 s2 → stable s2 s3 → stable s1 s3.
Proof. intros (?&?&?) (?&?&?). split_and!; congruence. Qed.

Lemma stable_upd s p pg pg' m cs :
  pages s !! p = Some pg → pinfo pg' = pinfo pg → stable s (upd s (<[p := pg']> (pages s)) m cs).
Proof.
  intros Hp Hi. split_and!; [|done..]. simpl. apply map_eq. intros q. rewrite !lookup_fmap.
  destruct (decide (q = p)) as [->|]; [|by rewrite lookup_insert_ne].
  rewrite lookup_insert_eq, Hp. simpl. by rewrite Hi.
Qed.

Lemma run_load_page s p pg : pages s !! p = Some pg → load_page p s = Some (pg, s).
Proof. unfold load_page. by intros ->. Qed.

Lemma run_update_page s p pg f :
  pages s !! p = Some pg →
  update_page p f s = Some (tt, upd s (<[p := f pg]> (pages s)) (page_links s) (free_counts s)).
Proof. unfold update_page. by intros ->. Qed.

Lemma run_add_count s k c d :
  free_counts s !! k = Some c →
  add_count k d s = Some (tt, upd s (pages s) (page_links s) (<[k := c +w d]> (free_counts s))).
Proof. unfold add_count. by intros ->. Qed.

Lemma run_page_links {A} (c : ST pod_mem A) s x m :
  c (page_links s) = Some (x, m) → on_page_links c s = Some (x, upd s (pages s) m (free_counts s)).
Proof. unfold on_page_links. by intros ->. Qed.

(** The four steps that put a block on its list, followed by anything. *)
Lemma run_put X s fl k p :
  inv X s fl → 0 <= k <= MAX_ORDER →
  (∀ q, in_block k p q → 0 <= q < page_count ∧ ¬ freep fl q) → p ∉ X →
  ∃ s', (∀ A (rest : ST buddy A),
        (update_page p (with_property k);;
         update_page p (page_set_flag PHYSICAL_PAGE_FLAG_PROPERTY);;
         add_count k 1;;
         on_page_links (list_add (page_link p) (freelist k));; rest) s = rest s') ∧
    inv X s' (fl_set k (p :: fl k) fl) ∧ stable s s'.
Proof.
  intros I Hk Hb HX. destruct (Hb p) as [Hp _]; [apply in_block_start; lia|].
  pose proof Hp as [pg Hpg]%(inv_pages _ _ _ I).
  set (pg' := page_set_flag PHYSICAL_PAGE_FLAG_PROPERTY (with_property k pg)).
  destruct (inv_insert X s fl k p pg') as (m' & Hrun & I'); [done..|apply has_set_flag|done|].
  eexists. split; [|split; [exact I'|]].
  - intros A rest. erewrite bind_run by by apply run_update_page. erewrite bind_run.
    2:{ apply run_update_page. simpl. by rewrite lookup_insert_eq. }
    erewrite bind_run by by apply run_add_count; simpl; eapply inv_count.
    erewrite bind_run by by apply run_page_links. unfold upd, add_to. simpl. by rewrite insert_insert_eq.
  - eapply stable_upd; [done|]. unfold pinfo, pg'. rewrite has_set_other. done.
Qed.

(** The two steps that take a block off its list, followed by anything. *)
Lemma run_off X s fl k ys p zs :
  inv X s fl → 0 <= k <= MAX_ORDER → fl k = ys ++ p :: zs →
  ∃ s', (∀ A (rest : ST buddy A),
        (add_count k (-1);; on_page_links (list_remove (page_link p));; rest) s = rest s') ∧
    inv (p :: X) s' (fl_set k (ys ++ zs) fl) ∧ stable s s'.
Proof.
  intros I Hk E. destruct (inv_take X s fl k ys p zs I Hk E) as (m' & Hrun & I').
  eexists. split; [|split; [exact I'|done]]. intros A rest.
  erewrite bind_run by by apply run_add_count; eapply inv_count.
  by erewrite bind_run by by apply run_page_links.
Qed.

(** Clearing the flag of the page in transit. *)
Lemma run_clear_flag X s fl p :
  inv (p :: X) s fl → 0 <= p < page_count → p ∉ X →
  ∃ s', update_page p (page_clear_flag PHYSICAL_PAGE_FLAG_PROPERTY) s = Some (tt, s') ∧
    inv X s' fl ∧ stable s s'.
Proof.
  intros I Hp HX. pose proof Hp as [pg Hpg]%(inv_pages _ _ _ I).
  eexists. split; [by apply run_update_page|]. split.
  - eapply inv_page; [done|done| |apply has_clear_flag| |].
    + intros k. eapply inv_hole; [done|left].
    + intros q [->|Hq]%elem_of_cons; auto.
    + intros q Hq. by right.
  - eapply stable_upd; [done|]. unfold pinfo. rewrite has_clear_other. done.
Qed.

(** [2 ^ (k + 1)] pages are two blocks of [2 ^ k]. *)
Lemma pow_split k : 0 <= k → 2 ^ (k + 1) = 2 ^ k + 2 ^ k.
Proof. intros. rewrite Z.pow_add_r by lia. lia. Qed.

Lemma split_block_ok rounds s fl pg cur :
  inv [pg] s fl → Z.of_nat rounds <= cur <= MAX_ORDER →
  (∀ q, in_block cur pg q → 0 <= q < page_count ∧ ¬ freep fl q) →
  ∃ s' fl', split_block rounds pg cur s = Some (tt, s') ∧ inv [pg] s' fl' ∧ stable s s' ∧
    (∀ q, freep fl' q ↔ freep fl q ∨ (in_block cur pg q ∧ ¬ in_block (cur - Z.of_nat rounds) pg q)) ∧
    (∀ k p, p ∈ fl' k → p ∈ fl k ∨ ∀ q, in_block k p q → in_block cur pg q).
Proof.
  revert s fl cur. induction rounds as [|rounds IH]; intros s fl cur I Hc Hb.
  - exists s, fl. split_and!; [done..| |by left]. intros q. rewrite Z.sub_0_r. naive_solver.
  - cbn [split_block]. rewrite Z.shiftl_1_l. set (c := cur - 1).
    assert (2 ^ cur = 2 ^ c + 2 ^ c) as Epow by (rewrite <- pow_split by lia; f_equal; lia).
    assert (0 < 2 ^ c) by lia.
    destruct (run_put [pg] s fl c (pg + 2 ^ c)) as (s1 & Hrun & I1 & S1).
    { done. } { lia. } { intros q Hq. apply Hb. unfold in_block in *. lia. }
    { rewrite list_elem_of_singleton. lia. }
    destruct (IH s1 (fl_set c ((pg + 2 ^ c) :: fl c) fl) c) as (s2 & fl2 & H2 & I2 & S2 & F2 & Hin); [done|lia| |].
    { intros q Hq. destruct (Hb q) as [? Hnf]; [unfold in_block in *; lia|]. split; [done|].
      rewrite freep_add. intros [?|Hq']; [done|]. unfold in_block in *. lia. }
    exists s2, fl2. split_and!; [by rewrite Hrun|done|by eapply stable_trans| |].
    + intros q. rewrite F2, freep_add. replace (cur - Z.of_nat (S rounds)) with (c - Z.of_nat rounds) by lia.
      assert (2 ^ (c - Z.of_nat rounds) <= 2 ^ c) by (apply Z.pow_le_mono_r; lia).
      unfold in_block. rewrite Epow. split.
      * intros [[?|?]|?]; [by left|right; lia..].
      * intros [?|?]; [left; by left|]. destruct (decide (q < pg + 2 ^ c)); [right; lia|left; right; lia].
    + intros k p Hp. destruct (Hin k p Hp) as [Hp'|Hp'].
      * unfold fl_set in Hp'. case_decide as E; [subst k|by left].
        apply elem_of_cons in Hp' as [->|?]; [right|by left]. intros q. unfold in_block. lia.
      * right. intros q Hq%Hp'. unfold in_block in *. lia.
Qed.

(** What an allocation of [2 ^ order] pages gives. *)
Record taken (s s' : buddy) (fl fl' : free_lists) (order pg : Z) : Prop := {
  taken_inv : inv [] s' fl';
  taken_stable : stable s s';
  taken_from : ∃ k, order <= k ∧ pg ∈ fl k;
  taken_free q : freep fl' q ↔ freep fl q ∧ ¬ in_block order pg q;
  taken_blocks k p : p ∈ fl' k → ∃ k' p', p' ∈ fl k' ∧ ∀ q, in_block k p q → in_block k' p' q;
}.

Lemma in_block_mono j k p q : 0 <= j <= k → in_block j p q → in_block k p q.
Proof. unfold in_block. intros ? ?. assert (2 ^ j <= 2 ^ k) by (apply Z.pow_le_mono_r; lia). lia. Qed.

Lemma upd_id s : upd s (pages s) (page_links s) (free_counts s) = s.
Proof. by destruct s. Qed.

Lemma block_in X s fl k p q :
  inv X s fl → p ∈ fl k → in_block k p q → 0 <= q < page_count.
Proof. intros I. by eapply inv_block. Qed.

(** Taking the first block of a non-empty list and splitting it. *)
Lemma take_first s fl order cur p l :
  inv [] s fl → 0 <= order <= cur → cur <= MAX_ORDER → fl cur = p :: l →
  ∃ s' fl', (add_count cur (-1);; on_page_links (list_remove (page_link p));;
      split_block (Z.to_nat (cur - order)) p cur;;
      update_page p (page_clear_flag PHYSICAL_PAGE_FLAG_PROPERTY);; mret (Some p)) s = Some (Some p, s') ∧
    taken s s' fl fl' order p.
Proof.
  intros I Ho Hc E. assert (p ∈ fl cur) as Hp by (rewrite E; left).
  destruct (run_off [] s fl cur [] p l) as (s1 & H1 & I1 & S1); [done|lia|done|].
  pose proof (freep_del [] s fl cur [] p l) as Hdel.
  destruct (split_block_ok (Z.to_nat (cur - order)) s1 (fl_set cur l fl) p cur)
    as (s2 & fl2 & H2 & I2 & S2 & F2 & B2); [done|lia| |].
  { intros q Hq. split; [by eapply (inv_block _ _ _ I)|]. rewrite (Hdel q I E). naive_solver. }
  destruct (run_clear_flag [] s2 fl2 p) as (s3 & H3 & I3 & S3); [done|by eapply (head_page _ _ _ _ _ I)|set_solver|].
  exists s3, fl2. split.
  { rewrite H1, (bind_run _ _ _ _ _ H2). by rewrite (bind_run _ _ _ _ _ H3). }
  replace (cur - Z.of_nat (Z.to_nat (cur - order))) with order in F2 by lia.
  split; [done|eapply stable_trans; [exact S1|by eapply stable_trans]| | |].
  - exists cur. split; [lia|done].
  - intros q. rewrite F2, (Hdel q I E). split.
    + intros [[? Hn]|[? ?]]; [|split; [by exists cur, p|done]].
      split; [done|]. intros Hq. apply Hn. by eapply in_block_mono.
    + intros [? Hn]. destruct (decide (p <= q < p + 2 ^ cur)) as [Hd|Hd]; [right|left]; done.
  - intros k p' Hp'. destruct (B2 k p' Hp') as [Hold|Hin].
    + exists k, p'. split; [|done]. unfold fl_set in Hold. case_decide; [subst k|done]. rewrite E. by right.
    + by exists cur, p.
Qed.

Lemma find_block_ok fuel s fl order cur :
  inv [] s fl → 0 <= order <= cur → (Z.to_nat (13 - cur) < fuel)%nat →
  (∃ pg s' fl', find_block fuel order cur s = Some (Some pg, s') ∧ taken s s' fl fl' order pg) ∨
  (find_block fuel order cur s = Some (None, s) ∧ ∀ k, cur <= k → fl k = []).
Proof.
  revert cur. induction fuel as [|fuel IH]; intros cur I Ho Hf; [lia|].
  cbn [find_block]. destruct (Z.leb_spec cur MAX_ORDER) as [Hc|Hc].
  2:{ right. split; [done|]. intros k Hk. destruct (fl k) as [|p l] eqn:E; [done|].
      pose proof (inv_range _ _ _ I k p) as Hr. rewrite E in Hr. specialize (Hr ltac:(left)). lia. }
  pose proof (inv_ring _ _ _ I cur ltac:(lia)) as Hr.
  erewrite bind_run by apply run_page_links, (list_empty_spec _ _ _ Hr). rewrite upd_id.
  destruct (fl cur) as [|p l] eqn:E.
  - rewrite bool_decide_true by done. destruct (IH (cur + 1)) as [?|[H1 H2]].
    { done. } { lia. } { unfold MAX_ORDER in *. lia. } { by left. }
    right. split; [done|]. intros k Hk. destruct (decide (k = cur)) as [->|]; [done|]. apply H2. lia.
  - left. rewrite bool_decide_false by done.
    erewrite bind_run by apply run_page_links, run_load_next, (ring_next_of _ _ [] _ Hr). rewrite upd_id.
    change (succ_of (freelist cur) (page_link <$> p :: l)) with (page_link p).
    assert (page_of_link (page_link p) = p) as -> by (unfold page_of_link, page_link; lia).
    destruct (take_first s fl order cur p l) as (s' & fl' & Hrun & T); [done..|]. by exists p, s', fl'.
Qed.

Lemma do_allocate_ok s fl order :
  inv [] s fl → 0 <= order <= MAX_ORDER →
  (∃ pg s' fl', do_allocate order s = Some (Some pg, s') ∧ taken s s' fl fl' order pg) ∨
  (do_allocate order s = Some (None, s) ∧ ∀ k, order <= k → fl k = []).
Proof.
  intros I Ho. unfold do_allocate. rewrite (bind_run _ _ _ tt s) by (apply kassert_true, Z.leb_le; lia).
  apply find_block_ok; [done|lia|lia].
Qed.

(** ** Freeing *)

(** The pages from [p] on are put in their initial state. *)
Lemma reset_pages_ok count s fl p :
  inv [] s fl →
  (∀ q, p <= q < p + Z.of_nat count →
     ¬ freep fl q ∧ ∃ pg, pages s !! q = Some pg ∧ is_reserved pg = false) →
  ∃ s', reset_pages count p s = Some (tt, s') ∧ inv [] s' fl ∧ stable s s'.
Proof.
  revert s p. induction count as [|count IH]; intros s p I Hp; [by exists s|].
  destruct (Hp p ltac:(lia)) as (Hnf & pg & Hpg & Hres).
  assert (Hno : ∀ k, p ∉ fl k) by (intros k Hk; by apply Hnf; eapply head_free).
  assert (Hnp : has_prop pg = false).
  { destruct (has_prop pg) eqn:E; [|done]. destruct (inv_flag _ _ _ I p pg Hpg E) as [k Hk]; [set_solver|].
    by destruct (Hno k). }
  set (pg' := {| ref := 0; flags := 0; property := property pg; zone_id := zone_id pg |}).
  assert (stable s (upd s (<[p := pg']> (pages s)) (page_links s) (free_counts s))) as S1.
  { eapply stable_upd; [done|]. unfold pinfo. by rewrite Hres. }
  destruct (IH (upd s (<[p := pg']> (pages s)) (page_links s) (free_counts s)) (p + 1)) as (s' & Hrun & I' & S').
  { eapply inv_page; [done| |done|done| |]; [|set_solver..]. eapply inv_pages; eauto. }
  { intros q Hq. destruct (Hp q ltac:(lia)) as (? & pgq & Hq1 & ?). split; [done|]. exists pgq.
    simpl. rewrite lookup_insert_ne by lia. done. }
  exists s'. split_and!; [|done|by eapply stable_trans].
  cbn [reset_pages]. erewrite bind_run by by apply run_load_page. rewrite Hres, Hnp. simpl.
  do 2 erewrite bind_run by done. by erewrite bind_run by by apply run_update_page.
Qed.

(** [q] is usable memory of zone [z], which exists. *)
Definition managed (s : buddy) (z q : Z) : Prop :=
  pinfo <$> pages s !! q = Some (z, false) ∧ is_Some (zones_ s !! z).

(** Every free block lies in usable memory of one zone. *)
Definition clean (s : buddy) (fl : free_lists) : Prop :=
  ∀ k p, p ∈ fl k → ∃ z, ∀ q, in_block k p q → managed s z q.

Lemma stable_managed s s' z q : stable s s' → managed s' z q ↔ managed s z q.
Proof. intros (E & Ez & _). unfold managed. by rewrite <- !lookup_fmap, E, Ez. Qed.

Lemma clean_sub s s' fl fl' :
  stable s s' → clean s fl →
  (∀ k p, p ∈ fl' k → ∃ k' p', p' ∈ fl k' ∧ ∀ q, in_block k p q → in_block k' p' q) → clean s' fl'.
Proof.
  intros Hs Hc Hsub k p Hp. destruct (Hsub k p Hp) as (k' & p' & Hp' & Hin).
  destruct (Hc k' p' Hp') as [z Hz]. exists z. intros q Hq. rewrite (stable_managed s s') by done. auto.
Qed.

Lemma clean_del s s' fl k ys p zs :
  stable s s' → clean s fl → fl k = ys ++ p :: zs → clean s' (fl_set k (ys ++ zs) fl).
Proof.
  intros Hs Hc E. eapply clean_sub; [done..|]. intros j q Hq. exists j, q. split; [|done].
  unfold fl_set in Hq. case_decide; [subst j|done]. rewrite E. clear -Hq. set_solver.
Qed.

Lemma clean_add s s' fl k p z :
  stable s s' → clean s fl → (∀ q, in_block k p q → managed s z q) →
  clean s' (fl_set k (p :: fl k) fl).
Proof.
  intros Hs Hc Hm j q Hq.
  assert (Hold : q ∈ fl j → ∃ z, ∀ x, in_block j q x → managed s' z x).
  { intros Hj. destruct (Hc j q Hj) as [z' Hz]. exists z'. intros x Hx. rewrite stable_managed by done. auto. }
  unfold fl_set in Hq. case_decide; [subst j|by apply Hold].
  apply elem_of_cons in Hq as [->|Hq]; [|by apply Hold].
  exists z. intros x Hx. rewrite stable_managed by done. auto.
Qed.

Context (Hpc : page_count <= 2 ^ 63).

(** [is_buddy_page] finds exactly heads of free blocks of that order. *)
Lemma is_buddy_page_ok s fl p order zone :
  inv [] s fl → 0 <= p < 2 ^ 64 →
  ∃ r, is_buddy_page page_count p order zone s = Some (r, s) ∧
    (r = true → p ∈ fl order ∧ ∃ pg, pages s !! p = Some pg ∧ pinfo pg = (zone, false)).
Proof.
  intros I Hp. unfold is_buddy_page. rewrite wrap64_small by done.
  destruct (Z.ltb_spec p page_count); [|by exists false].
  assert (0 <= p < page_count) as [pg Hpg]%(inv_pages _ _ _ I) by lia.
  erewrite bind_run by by apply run_load_page.
  destruct (Z.eqb_spec (zone_id pg) zone) as [Ez|]; [|by exists false].
  eexists. split; [done|]. intros [[H1 H2]%andb_true_iff H3%Z.eqb_eq]%andb_true_iff.
  apply negb_true_iff in H1.
  destruct (inv_flag _ _ _ I p pg Hpg H2) as [k Hk]; [set_solver|].
  destruct (inv_head _ _ _ I k p Hk) as (pg' & Hpg' & _ & E).
  rewrite Hpg in Hpg'. injection Hpg' as <-.
  split; [congruence|]. exists pg. split; [done|]. unfold pinfo. congruence.
Qed.

(** The buddy of the block at [p], and the block of both. *)
Lemma buddy_page_spec b idx k p :
  0 <= k <= MAX_ORDER → 0 <= idx < 2 ^ 64 → idx mod 2 ^ k = 0 → p = wrap64 (b + idx) →
  0 <= p < page_count →
  let bidx := Z.lxor idx (Z.shiftl 1 k) in
  let bp := wrap64 (b + bidx) in
  let idx' := Z.land idx bidx in
  0 <= bp < page_count →
  0 <= idx' < 2 ^ 64 ∧ idx' mod 2 ^ (k + 1) = 0 ∧
  ∀ q, in_block (k + 1) (wrap64 (b + idx')) q ↔ in_block k p q ∨ in_block k bp q.
Proof.
  intros Hk Hi Hm Hp Hpr bidx bp idx' Hb. subst bidx bp idx'.
  assert (2 ^ k <= 2 ^ 12) by (apply Z.pow_le_mono_r; unfold MAX_ORDER in *; lia).
  assert (0 < 2 ^ k) by lia. pose proof (pow_split k ltac:(lia)) as Epow. unfold in_block. rewrite Epow.
  destruct (buddy_index_spec idx k ltac:(lia) Hm) as [(Ex & -> & Hm')|(Ex & El & Hm')].
  - rewrite Ex in *. rewrite <- Hp. split_and!; [lia|lia|by rewrite <- Epow|].
    assert (wrap64 (b + (idx + 2 ^ k)) = p + 2 ^ k) as ->; [|intros q; lia].
    rewrite Z.add_assoc, Hp. unfold wrap64 in *.
    rewrite <- (Zplus_mod_idemp_l (b + idx)), <- Hp. apply Z.mod_small. lia.
  - rewrite Ex in *. assert (0 <= idx - 2 ^ k).
    { destruct (decide (0 <= idx - 2 ^ k)); [done|].
      assert (idx mod 2 ^ k = idx) by (apply Z.mod_small; lia).
      assert ((idx - 2 ^ k) mod 2 ^ (k + 1) = 2 ^ k); [|lia].
      symmetry. apply (Z.mod_unique_pos _ _ (-1)); lia. }
    rewrite El. split_and!; [lia|lia|by rewrite <- Epow|].
    assert (wrap64 (b + (idx - 2 ^ k)) = wrap64 (p - 2 ^ k)) as Ew.
    { rewrite Z.add_sub_assoc, Hp. unfold wrap64. by rewrite Zminus_mod_idemp_l. }
    rewrite Ew in *. assert (wrap64 (p - 2 ^ k) = p - 2 ^ k) as ->; [|intros q; lia].
    destruct (decide (0 <= p - 2 ^ k)); [apply wrap64_small; unfold is_u64; lia|]. exfalso.
    unfold wrap64 in Hb. rewrite <- (Z_mod_plus_full _ 1), Z.mod_small in Hb by lia. lia.
Qed.

(** The block being freed: its pages exist and are not free. *)
Definition loose (fl : free_lists) (k p : Z) : Prop :=
  ∀ q, in_block k p q → 0 <= q < page_count ∧ ¬ freep fl q.

(** From the block of order [k] at [p] to the merged one of order [k'] at [p']. *)
Record merged_to (s s' : buddy) (fl fl' : free_lists) (z k p k' p' : Z) : Prop := {
  mt_inv : inv [] s' fl';
  mt_stable : stable s s';
  mt_order : k <= k' <= MAX_ORDER;
  mt_loose : loose fl' k' p';
  mt_free q : freep fl' q ∨ in_block k' p' q ↔ freep fl q ∨ in_block k p q;
  mt_clean : clean s fl → (∀ q, in_block k p q → managed s z q) →
    clean s' fl' ∧ ∀ q, in_block k' p' q → managed s' z q;
}.

Lemma merged_to_refl s fl z k p :
  inv [] s fl → 0 <= k <= MAX_ORDER → loose fl k p → merged_to s s fl fl z k p k p.
Proof. intros I Hk Hl. split; try done. lia. Qed.

Lemma merged_to_trans s1 s2 s3 fl1 fl2 fl3 z k1 p1 k2 p2 k3 p3 :
  merged_to s1 s2 fl1 fl2 z k1 p1 k2 p2 → merged_to s2 s3 fl2 fl3 z k2 p2 k3 p3 →
  merged_to s1 s3 fl1 fl3 z k1 p1 k3 p3.
Proof.
  intros [I1 S1 O1 L1 F1 C1] [I2 S2 O2 L2 F2 C2]. split; [done|by eapply stable_trans|lia|done| |].
  - intros q. by rewrite F2, F1.
  - intros Hc Hm. destruct (C1 Hc Hm). auto.
Qed.

(** One round of merging. *)
Lemma merge_step s fl z b idx k p :
  inv [] s fl → zones_ s !! z = Some b → 0 <= k < MAX_ORDER → 0 <= idx < 2 ^ 64 →
  idx mod 2 ^ k = 0 → p = wrap64 (b + idx) → loose fl k p →
  let bidx := Z.lxor idx (Z.shiftl 1 k) in
  let bp := wrap64 (b + bidx) in
  let idx' := Z.land idx bidx in
  bp ∈ fl k → pinfo <$> pages s !! bp = Some (z, false) →
  ∃ s', (∀ A (rest : ST buddy A),
      (add_count k (-1);; on_page_links (list_remove (page_link bp));;
       update_page bp (page_clear_flag PHYSICAL_PAGE_FLAG_PROPERTY);; rest) s = rest s') ∧
    0 <= idx' < 2 ^ 64 ∧ idx' mod 2 ^ (k + 1) = 0 ∧
    ∃ fl', merged_to s s' fl fl' z k p (k + 1) (wrap64 (b + idx')).
Proof.
  intros I Hz Hk Hi Hm Hp Hl bidx bp idx' Hbp Hinfo.
  assert (0 <= p < page_count) as Hpr by (apply (Hl p), in_block_start; lia).
  pose proof (head_page _ _ _ _ _ I Hbp) as Hbr.
  destruct (buddy_page_spec b idx k p) as (Hi' & Hm' & Hblk); [lia|done..|].
  fold bidx in Hi', Hm', Hblk. fold idx' in Hi', Hm', Hblk. fold bp in Hblk.
  destruct (list_elem_of_split _ _ Hbp) as (ys & zs & E).
  destruct (run_off [] s fl k ys bp zs) as (s1 & H1 & I1 & S1); [done|lia|done|].
  destruct (run_clear_flag [] s1 (fl_set k (ys ++ zs) fl) bp) as (s2 & H2 & I2 & S2); [done|done|apply not_elem_of_nil|].
  pose proof (stable_trans _ _ _ S1 S2) as S12.
  pose proof (λ q, freep_del [] s fl k ys bp zs q I E) as Hdel.
  exists s2. split; [|split; [done|split; [done|exists (fl_set k (ys ++ zs) fl)]]].
  { intros A rest. by rewrite H1, (bind_run _ _ _ _ _ H2). }
  split; [done|done|lia| | |].
  - intros q Hq. rewrite Hdel. apply Hblk in Hq as [Hq|Hq].
    + destruct (Hl q Hq) as [? Hn]. split; [done|]. by intros [? _].
    + split; [by eapply (inv_block _ _ _ I)|]. by intros [_ ?].
  - intros q. rewrite Hdel, Hblk. split.
    + intros [[? _]|[?|?]]; [by left|by right|left; by exists k, bp].
    + intros [Hq|?]; [|right; by left].
      destruct (decide (bp <= q < bp + 2 ^ k)); [right; by right|by left; split].
  - intros Hc Hman. split; [by eapply clean_del|]. intros q Hq. rewrite stable_managed by done.
    apply Hblk in Hq as [Hq|Hq]; [auto|]. destruct (Hc k bp Hbp) as [z' Hz'].
    destruct (Hz' bp) as [Ez _]; [apply in_block_start; lia|]. rewrite Hinfo in Ez. injection Ez as <-. auto.
Qed.

Lemma merge_buddies_ok fuel s fl z b idx k p :
  inv [] s fl → zones_ s !! z = Some b → 0 <= k <= MAX_ORDER → (Z.to_nat (MAX_ORDER - k) < fuel)%nat →
  0 <= idx < 2 ^ 64 → idx mod 2 ^ k = 0 → p = wrap64 (b + idx) → loose fl k p →
  ∃ s' fl' idx' k', merge_buddies page_count fuel z idx k s = Some ((idx', k'), s') ∧
    merged_to s s' fl fl' z k p k' (wrap64 (b + idx')).
Proof.
  revert s fl idx k p. induction fuel as [|fuel IH]; intros s fl idx k p I Hz Hk Hf Hi Hm Hp Hl; [lia|].
  cbn [merge_buddies]. destruct (Z.ltb_spec k MAX_ORDER).
  2:{ exists s, fl, idx, k. split; [done|]. rewrite <- Hp. by apply merged_to_refl. }
  unfold index_to_page, zone_base. erewrite bind_run.
  2:{ erewrite bind_run by by rewrite Hz. done. }
  set (bp := wrap64 (b + Z.lxor idx (Z.shiftl 1 k))).
  destruct (is_buddy_page_ok s fl bp k z) as (r & Hr & Hrt); [done|apply wrap64_range|].
  rewrite (bind_run _ _ _ _ _ Hr). destruct r.
  2:{ exists s, fl, idx, k. split; [done|]. rewrite <- Hp. by apply merged_to_refl. }
  destruct (Hrt eq_refl) as (Hbp & pg & Hpg & Hinfo).
  destruct (merge_step s fl z b idx k p) as (s1 & H1 & Hi1 & Hm1 & fl1 & M1);
    [done|done|lia|done..|fold bp; by rewrite Hpg, <- Hinfo|].
  pose proof M1 as [I1 S1 O1 L1 _ _].
  destruct (IH s1 fl1 (Z.land idx (Z.lxor idx (Z.shiftl 1 k))) (k + 1)
    (wrap64 (b + Z.land idx (Z.lxor idx (Z.shiftl 1 k))))) as (s2 & fl2 & idx2 & k2 & H2 & M2).
  { done. } { destruct S1 as (_ & -> & _). done. } { lia. } { unfold MAX_ORDER in *. lia. }
  { done. } { done. } { done. } { done. }
  exists s2, fl2, idx2, k2. split; [by rewrite H1|by eapply merged_to_trans].
Qed.

(** What freeing the pages [blk] gives. *)
Record freed (s s' : buddy) (fl fl' : free_lists) (blk : Z → Prop) : Prop := {
  freed_inv : inv [] s' fl';
  freed_stable : stable s s';
  freed_free q : freep fl' q ↔ freep fl q ∨ blk q;
  freed_clean z : clean s fl → (∀ q, blk q → managed s z q) → clean s' fl';
}.

Lemma do_free_ok s fl k p z b pg :
  inv [] s fl → 0 <= k <= MAX_ORDER → pages s !! p = Some pg → zone_id pg = z → zones_ s !! z = Some b →
  wrap64 (p - b) mod 2 ^ k = 0 → loose fl k p →
  (∀ q pg, in_block k p q → pages s !! q = Some pg → is_reserved pg = false) →
  ∃ s' fl', do_free page_count p k s = Some (tt, s') ∧ freed s s' fl fl' (in_block k p).
Proof.
  intros I Hk Hpg Hzp Hz Ha Hl Hres.
  assert (0 <= p < page_count) as Hpr by (apply (Hl p), in_block_start; lia).
  destruct (reset_pages_ok (Z.to_nat (Z.shiftl 1 k)) s fl p) as (s1 & H1 & I1 & S1); [done| |].
  { intros q Hq. rewrite Z.shiftl_1_l, Z2Nat.id in Hq by lia. destruct (Hl q Hq) as [Hqr ?].
    split; [done|]. pose proof Hqr as [pgq Hpgq]%(inv_pages _ _ _ I). exists pgq. split; [done|]. by eapply Hres. }
  pose proof S1 as (Einfo & Ezones & _).
  assert (∃ pg1, pages s1 !! p = Some pg1 ∧ zone_id pg1 = z) as (pg1 & Hpg1 & Hz1).
  { assert (pinfo <$> pages s1 !! p = pinfo <$> pages s !! p) as E by by rewrite <- !lookup_fmap, Einfo.
    rewrite Hpg in E. destruct (pages s1 !! p) as [pg1|]; [|done]. exists pg1. split; [done|].
    simpl in E. unfold pinfo in E. congruence. }
  destruct (merge_buddies_ok 13 s1 fl z b (wrap64 (p - b)) k p) as (s2 & fl2 & idx2 & k2 & H2 & [I2 S2 O2 L2 F2 C2]).
  { done. } { by rewrite Ezones. } { done. } { unfold MAX_ORDER in *. lia. } { apply wrap64_range. } { done. }
  { unfold wrap64. rewrite Zplus_mod_idemp_r. symmetry. rewrite Zplus_minus. apply Z.mod_small. lia. } { done. }
  pose proof (stable_trans _ _ _ S1 S2) as S12.
  destruct (run_put [] s2 fl2 k2 (wrap64 (b + idx2))) as (s3 & H3 & I3 & S3); [done|lia|done|apply not_elem_of_nil|].
  exists s3, (fl_set k2 (wrap64 (b + idx2) :: fl2 k2) fl2). split.
  - unfold do_free. rewrite (bind_run _ _ _ (wrap64 (p - b)) s).
    2:{ unfold page_to_index, zone_base. erewrite bind_run by by apply run_load_page.
        by erewrite bind_run by by rewrite Hzp, Hz. }
    rewrite (bind_run _ _ _ tt s). 2:{ apply kassert_true. rewrite aligned_test by lia. by apply bool_decide_eq_true. }
    rewrite (bind_run _ _ _ _ _ H1). erewrite bind_run by by apply run_load_page. rewrite Hz1.
    rewrite (bind_run _ _ _ _ _ H2). unfold index_to_page, zone_base. erewrite bind_run.
    2:{ erewrite bind_run; [done|]. destruct S12 as (_ & -> & _). by rewrite Hz. }
    cbn [fst snd]. apply seq4_end. exact (H3 _ (mret tt)).
  - split; [done|by eapply stable_trans| |].
    + intros q. by rewrite freep_add, F2.
    + intros z' Hc Hm. assert (z' = z) as ->.
      { destruct (Hm p) as [Ez _]; [apply in_block_start; lia|]. rewrite Hpg in Ez. simpl in Ez.
        unfold pinfo in Ez. congruence. }
      destruct C2 as [C2 M2].
      * by eapply clean_sub; [..|intros j q Hq; exists j, q].
      * intros q Hq. rewrite stable_managed by done. auto.
      * by eapply clean_add.
Qed.

(** The assertions of [reset_pages] held if it returned. *)
Lemma reset_pages_inv count p s s' :
  reset_pages count p s = Some (tt, s') →
  ∀ q, p <= q < p + Z.of_nat count → ∃ pg, pages s !! q = Some pg ∧ is_reserved pg = false.
Proof.
  revert p s. induction count as [|count IH]; intros p s Hr q Hq; [lia|]. cbn [reset_pages] in Hr.
  apply bind_inv in Hr as (pg & s1 & H1 & Hr). unfold load_page in H1.
  destruct (pages s !! p) as [pg'|] eqn:Hpg; [|done]. injection H1 as -> ->.
  apply bind_inv in Hr as ([] & s2 & H2 & Hr). unfold kassert in H2.
  destruct (negb (is_reserved pg)) eqn:Hres; [|done]. injection H2 as <-.
  apply bind_inv in Hr as ([] & s2 & H2 & Hr). unfold kassert in H2.
  destruct (negb (has_prop pg)) eqn:Hprop; [|done]. injection H2 as <-.
  apply bind_inv in Hr as ([] & s2 & H2 & Hr). unfold update_page in H2. rewrite Hpg in H2. injection H2 as <-.
  destruct (decide (q = p)) as [->|Hne].
  - exists pg. split; [done|]. by apply negb_true_iff.
  - destruct (IH _ _ Hr q ltac:(lia)) as (pgq & Hpgq & ?). exists pgq. split; [|done].
    simpl in Hpgq. by rewrite lookup_insert_ne in Hpgq.
Qed.

(** [base, base + n) is usable memory of zone [z]; [base] is aligned in it. *)
Definition all_managed (s : buddy) (z base n : Z) : Prop := ∀ q, base <= q < base + n → managed s z q.
Definition aligned_in (s : buddy) (z base k : Z) : Prop :=
  ∀ b, zones_ s !! z = Some b → (base - b) mod 2 ^ k = 0.

Lemma wrap64_mod_pow x j : 0 <= j <= 64 → wrap64 x mod 2 ^ j = x mod 2 ^ j.
Proof.
  intros Hj. unfold wrap64. apply Z.mod_mod_divide.
  exists (2 ^ (64 - j)). rewrite <- Z.pow_add_r by lia. f_equal. lia.
Qed.

(** [do_free] either panics, and then the block is not aligned usable memory of
    one zone, or frees the block. *)
Lemma do_free_cases s fl k p :
  inv [] s fl → 0 <= k <= MAX_ORDER → loose fl k p →
  (do_free page_count p k s = None ∧ ∀ z, all_managed s z p (2 ^ k) → aligned_in s z p k → False) ∨
  (∃ s' fl', do_free page_count p k s = Some (tt, s') ∧ freed s s' fl fl' (in_block k p)).
Proof.
  intros I Hk Hl. assert (0 <= p < page_count) as [pg Hpg]%(inv_pages _ _ _ I) by (apply (Hl p), in_block_start; lia).
  assert (Hgood : ∀ z b, zone_id pg = z → zones_ s !! z = Some b → (p - b) mod 2 ^ k = 0 →
    (∀ q pg, in_block k p q → pages s !! q = Some pg → is_reserved pg = false) →
    ∃ s' fl', do_free page_count p k s = Some (tt, s') ∧ freed s s' fl fl' (in_block k p)).
  { intros z b Hz Hb Ha Hres. eapply do_free_ok; [done..| |done|done].
    rewrite wrap64_mod_pow by (unfold MAX_ORDER in *; lia). done. }
  destruct (do_free page_count p k s) as [[[] s']|] eqn:E.
  - right. unfold do_free in E. apply bind_inv in E as (idx & s1 & H1 & E).
    unfold page_to_index in H1. erewrite bind_run in H1 by by apply run_load_page. unfold zone_base in H1.
    apply bind_inv in H1 as (b & s0 & H0 & H1). destruct (zones_ s !! zone_id pg) as [b'|] eqn:Hb; [|done].
    injection H0 as -> <-. injection H1 as <- <-.
    apply bind_inv in E as ([] & s2 & H2 & E). unfold kassert in H2.
    rewrite aligned_test in H2 by lia. case_bool_decide as Ha; [|done]. injection H2 as <-.
    apply bind_inv in E as ([] & s2 & H2 & E). pose proof (reset_pages_inv _ _ _ _ H2) as Hres.
    eapply Hgood; [done..| |].
    + rewrite wrap64_mod_pow in Ha by (unfold MAX_ORDER in *; lia). done.
    + intros q pgq Hq Hpgq. destruct (Hres q) as (pg' & Hpg' & ?); [|congruence].
      rewrite Z.shiftl_1_l, Z2Nat.id by lia. done.
  - left. split; [done|]. intros z Hm Ha.
    destruct (Hm p) as [Hz [b Hb]]; [lia|]. rewrite Hpg in Hz. injection Hz as Hz Hr0.
    destruct (Hgood z b) as (s' & fl' & Hs & _); [done|done|by apply Ha| |congruence].
    intros q pgq Hq Hpgq. destruct (Hm q Hq) as [Hqz _]. rewrite Hpgq in Hqz. simpl in Hqz.
    unfold pinfo in Hqz. congruence.
Qed.

(** [base, base + n) exists and nothing of it is free. *)
Definition loose_range (fl : free_lists) (base n : Z) : Prop :=
  ∀ q, base <= q < base + n → 0 <= q < page_count ∧ ¬ freep fl q.

Lemma freed_refl s fl (blk : Z → Prop) : inv [] s fl → (∀ q, ¬ blk q) → freed s s fl fl blk.
Proof. intros I Hb. split; [done|done| |done]. intros q. naive_solver. Qed.

Lemma freed_trans s1 s2 s3 fl1 fl2 fl3 (b1 b2 b3 : Z → Prop) :
  freed s1 s2 fl1 fl2 b1 → freed s2 s3 fl2 fl3 b2 → (∀ q, b3 q ↔ b1 q ∨ b2 q) →
  freed s1 s3 fl1 fl3 b3.
Proof.
  intros [I1 S1 F1 C1] [I2 S2 F2 C2] Hb. split; [done|by eapply stable_trans| |].
  - intros q. rewrite F2, F1, Hb. tauto.
  - intros z Hc Hm. apply (C2 z); [apply (C1 z); [done|]|]; intros q Hq.
    + apply Hm, Hb. by left.
    + rewrite stable_managed by done. apply Hm, Hb. by right.
Qed.

Lemma stable_all_managed s s' z base n : stable s s' → all_managed s z base n → all_managed s' z base n.
Proof. intros S H q Hq. rewrite stable_managed by done. auto. Qed.

Lemma stable_aligned s s' z base k : stable s s' → aligned_in s z base k ↔ aligned_in s' z base k.
Proof. intros (_ & E & _). unfold aligned_in. by rewrite E. Qed.

Lemma loose_after s s' fl fl' base n m :
  freed s s' fl fl' (λ q, base <= q < base + m) → loose_range fl base n → 0 <= m <= n →
  loose_range fl' (base + m) (n - m).
Proof.
  intros [_ _ F _] Hl Hm q Hq. destruct (Hl q ltac:(lia)) as [? Hn]. split; [done|].
  rewrite F. intros [?|?]; [done|lia].
Qed.

(** The bit [k] of an index that is a multiple of [2 ^ k]. *)
Lemma index_bit x k :
  0 <= k → x mod 2 ^ k = 0 →
  (Z.land x (Z.shiftl 1 k) = 0 ∧ x mod 2 ^ (k + 1) = 0) ∨
  (Z.land x (Z.shiftl 1 k) ≠ 0 ∧ (x + 2 ^ k) mod 2 ^ (k + 1) = 0).
Proof.
  intros Hk Hm. assert (0 < 2 ^ k) by lia. assert (x = Z.shiftl (x / 2 ^ k) k) as E.
  { rewrite Z.shiftl_mul_pow2 by done. pose proof (Z.div_mod x (2 ^ k) ltac:(lia)). lia. }
  set (m := x / 2 ^ k) in *. rewrite E, <- Z.shiftl_land, pow_split by done.
  destruct (Z.Even_or_Odd m) as [[j ->]|[j ->]]; [left|right].
  - rewrite even_land, Z.shiftl_0_l, Z.shiftl_mul_pow2 by done. split; [done|].
    replace (2 * j * 2 ^ k) with (j * (2 ^ k + 2 ^ k)) by lia. apply Z_mod_mult.
  - assert (Z.land (2 * j + 1) 1 = 1) as ->.
    { rewrite <- even_lxor, Z.lxor_lor by apply even_land.
      by rewrite Z.land_lor_distr_l, even_land. }
    rewrite !Z.shiftl_mul_pow2 by done. split; [lia|].
    replace ((2 * j + 1) * 2 ^ k + 2 ^ k) with ((j + 1) * (2 ^ k + 2 ^ k)) by lia. apply Z_mod_mult.
Qed.

Lemma aligned_bit x b k :
  0 <= k <= MAX_ORDER → (x - b) mod 2 ^ k = 0 →
  (Z.land (wrap64 (x - b)) (Z.shiftl 1 k) = 0 → (x - b) mod 2 ^ (k + 1) = 0) ∧
  (Z.land (wrap64 (x - b)) (Z.shiftl 1 k) ≠ 0 → (x + 2 ^ k - b) mod 2 ^ (k + 1) = 0).
Proof.
  intros Hk Ha. unfold MAX_ORDER in Hk. rewrite <- wrap64_mod_pow in Ha by lia.
  rewrite <- (wrap64_mod_pow (x - b)) by lia.
  replace (x + 2 ^ k - b) with ((x - b) + 2 ^ k) by lia.
  rewrite <- (Zplus_mod_idemp_l (x - b)), <- (wrap64_mod_pow (x - b)), Zplus_mod_idemp_l by lia.
  destruct (index_bit (wrap64 (x - b)) k) as [[? ?]|[? ?]]; [lia|done| |]; split; done.
Qed.

(** The zone of a page as [page_to_index] reads it. *)
Lemma page_to_index_cases s fl p :
  inv [] s fl → 0 <= p < page_count →
  (page_to_index p s = None ∧ ∀ z, managed s z p → False) ∨
  (∃ b, page_to_index p s = Some (wrap64 (p - b), s) ∧ ∀ z, managed s z p → zones_ s !! z = Some b).
Proof.
  intros I Hp. pose proof Hp as [pg Hpg]%(inv_pages _ _ _ I).
  unfold page_to_index. erewrite bind_run by by apply run_load_page. unfold zone_base.
  destruct (zones_ s !! zone_id pg) as [b|] eqn:Hb.
  - right. exists b. split; [unfold mbind, ST_bind; by rewrite Hb|].
    intros z [E _]. rewrite Hpg in E. injection E as <- _. done.
  - left. split; [unfold mbind, ST_bind; by rewrite Hb|].
    intros z [E [b' Hb']]. rewrite Hpg in E. injection E as <- _. congruence.
Qed.

(** The first loop of [free] from order [k]: a panic, for lack of order or of
    usable memory, or a position aligned to more than what is left. *)
Definition up_result (s : buddy) (fl : free_lists) (base n k : Z)
    (r : option ((Z * Z * Z) * buddy)) : Prop :=
  (r = None ∧ (2 ^ 13 <= n ∨ ∀ z, all_managed s z base n → aligned_in s z base k → False)) ∨
  (∃ s' fl' base' n' k', r = Some ((base', n', k'), s') ∧ base <= base' ∧ base' + n' = base + n ∧
    0 <= n' < 2 ^ k' ∧ k <= k' <= 13 ∧ freed s s' fl fl' (λ q, base <= q < base') ∧
    ∀ z, all_managed s z base n → aligned_in s z base k → aligned_in s' z base' k').

Lemma free_up_cases fuel s fl base n k :
  inv [] s fl → loose_range fl base n → 0 <= n → 0 <= k <= 13 → (Z.to_nat (14 - k) < fuel)%nat →
  up_result s fl base n k (free_up page_count fuel base n k s).
Proof.
  revert s fl base n k. induction fuel as [|fuel IH]; intros s fl base n k I Hl Hn Hk Hf; [lia|].
  cbn [free_up]. rewrite Z.shiftl_1_l. assert (0 < 2 ^ k) by lia.
  destruct (Z.leb_spec (2 ^ k) n) as [Hle|Hlt].
  2:{ right. exists s, fl, base, n, k. split_and!; try done; try lia. apply freed_refl; [done|lia]. }
  destruct (Z.leb_spec k MAX_ORDER) as [Hm|Hm].
  2:{ left. split; [done|]. left. unfold MAX_ORDER in Hm. assert (k = 13) as -> by lia. done. }
  rewrite (bind_run _ _ _ tt s) by done.
  destruct (page_to_index_cases s fl base I) as [[Hi Hno]|(b & Hi & Hb)]; [apply Hl; lia| |].
  { left. split; [unfold mbind, ST_bind; by rewrite Hi|]. right. intros z Hz _. apply (Hno z), Hz. lia. }
  rewrite (bind_run _ _ _ _ _ Hi).
  assert (Hbit : ∀ z, all_managed s z base n → aligned_in s z base k →
    (Z.land (wrap64 (base - b)) (2 ^ k) = 0 → aligned_in s z base (k + 1)) ∧
    (Z.land (wrap64 (base - b)) (2 ^ k) ≠ 0 → aligned_in s z (base + 2 ^ k) (k + 1))).
  { intros z Hz Ha. assert (zones_ s !! z = Some b) as Ez by (apply Hb, Hz; lia).
    destruct (aligned_bit base b k ltac:(lia) (Ha b Ez)) as [H1 H2]. rewrite Z.shiftl_1_l in H1, H2.
    split; intros Hb0 b' Hb'; rewrite Ez in Hb'; injection Hb' as <-; auto. }
  destruct (Z.eqb_spec (Z.land (wrap64 (base - b)) (2 ^ k)) 0) as [E0|E1]; simpl.
  - destruct (IH s fl base n (k + 1)) as [[Hr Hc]|(s' & fl' & base' & n' & k' & Hr & ? & ? & ? & ? & ? & Ha')];
      [done..|unfold MAX_ORDER in *; lia|lia| |].
    + left. split; [done|]. destruct Hc as [?|Hc]; [by left|right]. intros z Hz Ha.
      apply (Hc z Hz). by apply Hbit.
    + right. exists s', fl', base', n', k'. split_and!; try done; try lia. intros z Hz Ha.
      apply Ha'; [done|]. by apply Hbit.
  - destruct (do_free_cases s fl k base I) as [[Hr Hno]|(s1 & fl1 & Hr & Fr)].
    { lia. } { intros q Hq. apply Hl. unfold in_block in Hq. lia. }
    { left. split; [unfold mbind, ST_bind; by rewrite Hr|]. right. intros z Hz Ha. apply (Hno z); [|done].
      intros q Hq. apply Hz. lia. }
    rewrite (bind_run _ _ _ _ _ Hr). pose proof (freed_stable _ _ _ _ _ Fr) as S1.
    destruct (IH s1 fl1 (base + 2 ^ k) (n - 2 ^ k) (k + 1))
      as [[Hr' Hc]|(s' & fl' & base' & n' & k' & Hr' & ? & ? & ? & ? & Fr' & Ha')].
    { by eapply freed_inv. } { eapply loose_after; [exact Fr|done|lia]. } { lia. }
    { unfold MAX_ORDER in *. lia. } { lia. }
    + left. split; [done|]. destruct Hc as [?|Hc]; [left; lia|right]. intros z Hz Ha. apply (Hc z).
      * eapply stable_all_managed; [done|]. intros q Hq. apply Hz. lia.
      * rewrite <- stable_aligned by done. by apply Hbit.
    + right. exists s', fl', base', n', k'. split_and!; try done; try lia.
      * eapply freed_trans; [exact Fr|exact Fr'|]. intros q. unfold in_block. lia.
      * intros z Hz Ha. apply Ha'; [eapply stable_all_managed; [done|]; intros q Hq; apply Hz; lia|].
        rewrite <- stable_aligned by done. by apply Hbit.
Qed.

Lemma shrink_order_spec fuel n k :
  1 <= n → n < 2 ^ (k + 1) → 0 <= k → (Z.to_nat k < fuel)%nat →
  shrink_order fuel n k = Some (Z.log2 n).
Proof.
  revert k. induction fuel as [|fuel IH]; intros k Hn Hk H0 Hf; [lia|]. cbn [shrink_order].
  rewrite Z.shiftl_1_l. destruct (Z.ltb_spec n (2 ^ k)).
  - assert (0 < k) by (destruct (decide (k = 0)) as [->|]; [simpl in *; lia|lia]).
    apply IH; [done|by replace (k - 1 + 1) with k by lia|lia|lia].
  - f_equal. symmetry. apply Z.log2_unique; [done|]. by replace (Z.succ k) with (k + 1) by lia.
Qed.

Lemma aligned_le s z base j k : 0 <= j <= k → aligned_in s z base k → aligned_in s z base j.
Proof.
  intros Hj Ha b Hb. specialize (Ha b Hb). apply Z.mod_divide in Ha as [c Hc]; [|lia].
  apply Z.mod_divide; [lia|]. exists (c * 2 ^ (k - j)). rewrite Hc, <- Z.mul_assoc, <- Z.pow_add_r by lia.
  do 2 f_equal. lia.
Qed.

Lemma aligned_next s z base k : 0 <= k → aligned_in s z base k → aligned_in s z (base + 2 ^ k) k.
Proof.
  intros Hk Ha b Hb. specialize (Ha b Hb). replace (base + 2 ^ k - b) with ((base - b) + 1 * 2 ^ k) by lia.
  by rewrite Z_mod_plus_full.
Qed.

(** The second loop of [free]; [2 ^ j] bounds what is left. *)
Lemma free_down_cases j fuel s fl base n k :
  inv [] s fl → loose_range fl base n → 0 <= n < 2 ^ Z.of_nat j → (j < fuel)%nat →
  n < 2 ^ (k + 1) → n < 2 ^ 13 → 0 <= k <= 13 →
  (free_down page_count fuel base n k s = None ∧
    ∀ z, all_managed s z base n → aligned_in s z base k → False) ∨
  (∃ s' fl', free_down page_count fuel base n k s = Some (tt, s') ∧
    freed s s' fl fl' (λ q, base <= q < base + n)).
Proof.
  revert fuel s fl base n k. induction j as [|j IH]; intros fuel s fl base n k I Hl Hn Hf Hk H13 Hk'.
  all: destruct fuel as [|fuel]; [lia|]; cbn [free_down]; destruct (Z.eqb_spec n 0) as [->|Hne].
  1, 3: right; exists s, fl; split; [done|]; apply freed_refl; [done|lia].
  { simpl in Hn. lia. }
  rewrite (shrink_order_spec 64 n k) by lia.
  pose proof (Z.log2_spec n ltac:(lia)) as [Hlo Hhi]. rewrite <- Z.add_1_r, pow_split in Hhi by apply Z.log2_nonneg.
  pose proof (Z.log2_nonneg n). set (c := Z.log2 n) in *.
  assert (c <= k) by (subst c; apply Z.lt_succ_r, Z.log2_lt_pow2; [lia|by rewrite <- Z.add_1_r]).
  assert (c < 13) by (subst c; apply Z.log2_lt_pow2; lia).
  assert (c <= Z.of_nat j) by (subst c; apply Z.lt_succ_r, Z.log2_lt_pow2; [lia|]; rewrite <- Nat2Z.inj_succ; lia).
  assert (2 ^ c <= 2 ^ Z.of_nat j) by (apply Z.pow_le_mono_r; lia).
  rewrite Z.shiftl_1_l.
  destruct (do_free_cases s fl c base I) as [[Hr Hno]|(s1 & fl1 & Hr & Fr)].
  { unfold MAX_ORDER. lia. } { intros q Hq. apply Hl. unfold in_block in Hq. lia. }
  { left. split; [unfold mbind, ST_bind; by rewrite Hr|]. intros z Hz Ha. apply (Hno z).
    - intros q Hq. apply Hz. lia.
    - eapply aligned_le; [|exact Ha]. lia. }
  rewrite (bind_run _ _ _ _ _ Hr). pose proof (freed_stable _ _ _ _ _ Fr) as S1.
  destruct (IH fuel s1 fl1 (base + 2 ^ c) (n - 2 ^ c) c) as [[Hr' Hno]|(s' & fl' & Hr' & Fr')].
  { by eapply freed_inv. } { eapply loose_after; [exact Fr|done|lia]. } { lia. } { lia. }
  { rewrite pow_split by done. lia. } { lia. } { lia. }
  - left. split; [done|]. intros z Hz Ha. apply (Hno z).
    + eapply stable_all_managed; [done|]. intros q Hq. apply Hz. lia.
    + rewrite <- stable_aligned by done. apply aligned_next; [done|]. eapply aligned_le; [|exact Ha]. lia.
  - right. exists s', fl'. split; [done|]. eapply freed_trans; [exact Fr|exact Fr'|].
    intros q. unfold in_block. lia.
Qed.

(** [free] panics, and then the range is too large or not usable memory of one
    zone, or frees exactly the range. *)
Lemma free_cases s fl base n :
  inv [] s fl → loose_range fl base n → 0 < n →
  (free page_count base n s = None ∧ (2 ^ 13 <= n ∨ ∀ z, all_managed s z base n → False)) ∨
  (∃ s' fl', free page_count base n s = Some (tt, s') ∧ freed s s' fl fl' (λ q, base <= q < base + n)).
Proof.
  intros I Hl Hn. unfold free. rewrite (bind_run _ _ _ tt s) by by apply kassert_true, Z.ltb_lt.
  assert (Hal : ∀ z, aligned_in s z base 0) by (intros z b _; apply Z.mod_1_r).
  destruct (Z.eqb_spec n 1) as [->|Hne].
  - destruct (do_free_cases s fl 0 base I) as [[Hr Hno]|(s1 & fl1 & Hr & Fr)].
    { done. } { intros q Hq. apply Hl. unfold in_block in Hq. lia. }
    + left. split; [done|]. right. intros z Hz. by apply (Hno z).
    + right. exists s1, fl1. by split.
  - destruct (free_up_cases 64 s fl base n 0) as [[Hr Hc]|(s1 & fl1 & b1 & n1 & k1 & Hr & ? & ? & ? & ? & Fr & Ha)];
      [done|done|lia|lia|lia| |].
    { left. split; [unfold mbind, ST_bind; by rewrite Hr|]. destruct Hc as [?|Hc]; [by left|right].
      intros z Hz. by apply (Hc z). }
    rewrite (bind_run _ _ _ _ _ Hr). cbn [fst snd]. pose proof (freed_stable _ _ _ _ _ Fr) as S1.
    assert (2 ^ k1 <= 2 ^ 13) by (apply Z.pow_le_mono_r; lia).
    destruct (free_down_cases 13 64 s1 fl1 b1 n1 k1) as [[Hr' Hno]|(s' & fl' & Hr' & Fr')].
    { by eapply freed_inv. }
    { replace b1 with (base + (b1 - base)) by lia. replace n1 with (n - (b1 - base)) by lia.
      eapply loose_after; [|done|lia]. eapply freed_trans; [exact Fr|apply freed_refl|]; [by eapply freed_inv| |].
      - intros q. exact (λ x : False, x).
      - intros q. simpl. lia. }
    { simpl Z.of_nat. lia. } { lia. } { rewrite pow_split by lia. lia. } { lia. } { lia. }
    + left. split; [done|]. right. intros z Hz. apply (Hno z).
      * eapply stable_all_managed; [done|]. intros q Hq. apply Hz. lia.
      * by apply Ha.
    + right. exists s', fl'. split; [done|]. eapply freed_trans; [exact Fr|exact Fr'|]. intros q. simpl. lia.
Qed.

(** ** Allocating *)

Lemma get_order_spec n : 1 <= n < 2 ^ 62 → get_order n = Z.log2 n + 2.
Proof.
  intros Hn. pose proof (Z.log2_nonneg n). assert (Z.log2 n < 62) by (apply Z.log2_lt_pow2; lia).
  unfold get_order. rewrite powerof2_roundup_spec by lia.
  assert (2 ^ (Z.log2 n + 1) < 2 ^ 64) by (apply Z.pow_lt_mono_r; lia).
  rewrite log2_spec by lia. rewrite Z.log2_pow2 by lia. lia.
Qed.

(** What an allocation of [n] pages at [pg] gives. *)
Record allocated (s s' : buddy) (fl fl' : free_lists) (n pg : Z) : Prop := {
  allocated_inv : inv [] s' fl';
  allocated_stable : stable s s';
  allocated_from q : pg <= q < pg + n → freep fl q;
  allocated_free q : freep fl' q ↔ freep fl q ∧ ¬ (pg <= q < pg + n);
  allocated_clean : clean s fl → clean s' fl' ∧ ∃ z, all_managed s' z pg n;
}.

Lemma alloc_rest s s1 s' fl fl1 fl' k n pg :
  inv [] s fl → taken s s1 fl fl1 k pg → 0 <= k → 1 <= n <= 2 ^ k →
  freed s1 s' fl1 fl' (λ q, pg + n <= q < pg + n + (2 ^ k - n)) →
  allocated s s' fl fl' n pg.
Proof.
  intros I [I1 S1 (j & Hj & Hpg) F1 B1] Hk Hn [I2 S2 F2 C2]. pose proof (stable_trans _ _ _ S1 S2) as S12.
  assert (Hin : ∀ q, pg <= q < pg + 2 ^ k → in_block j pg q).
  { intros q Hq. apply (in_block_mono k j); [lia|done]. }
  assert (Hfree : ∀ q, pg <= q < pg + 2 ^ k → freep fl q) by (intros q Hq; exists j, pg; auto).
  split; [done|done| | |].
  - intros q Hq. apply Hfree. lia.
  - intros q. rewrite F2, F1. unfold in_block. split; [|intros [? ?]].
    + intros [[? ?]|?]; split; try done; try lia. apply Hfree. lia.
    + destruct (decide (pg + n <= q < pg + n + (2 ^ k - n))); [by right|left]. split; [done|lia].
  - intros Hc. destruct (Hc j pg Hpg) as [z Hz]. split.
    + apply (C2 z); [by eapply clean_sub|]. intros q Hq. rewrite stable_managed by done. apply Hz, Hin. lia.
    + exists z. intros q Hq. rewrite stable_managed by done. apply Hz, Hin. lia.
Qed.

Lemma allocate_cases s fl n :
  inv [] s fl → 1 <= n < 2 ^ 62 →
  (allocate page_count n s = None ∧ (2048 <= n ∨ ¬ clean s fl)) ∨
  (allocate page_count n s = Some (None, s) ∧ ∀ k, get_order n <= k → fl k = []) ∨
  (∃ pg s' fl', allocate page_count n s = Some (Some pg, s') ∧ allocated s s' fl fl' n pg).
Proof.
  intros I Hn. unfold allocate. rewrite (bind_run _ _ _ tt s) by (apply kassert_true, Z.ltb_lt; lia).
  rewrite get_order_spec by done. set (k := Z.log2 n + 2). pose proof (Z.log2_nonneg n).
  pose proof (Z.log2_spec n ltac:(lia)) as [Hlo Hhi].
  assert (2 ^ k = 4 * 2 ^ Z.log2 n) as Ek by (subst k; rewrite Z.pow_add_r by lia; lia).
  rewrite Z.pow_succ_r in Hhi by lia.
  destruct (decide (k <= MAX_ORDER)) as [Hk|Hk].
  2:{ left. split.
      - unfold do_allocate, mbind, ST_bind, kassert. by rewrite (proj2 (Z.leb_gt k MAX_ORDER)) by lia.
      - left. unfold MAX_ORDER in Hk. change 2048 with (2 ^ 11).
        etransitivity; [|exact Hlo]. apply Z.pow_le_mono_r; lia. }
  destruct (do_allocate_ok s fl k I) as [(pg & s1 & fl1 & Hr & T)|[Hr Hno]]; [lia| |].
  2:{ right. left. split; [|done]. by rewrite (bind_run _ _ _ _ _ Hr). }
  rewrite (bind_run _ _ _ _ _ Hr). rewrite Z.shiftl_1_l.
  destruct (Z.eqb_spec n (2 ^ k)) as [?|Hne]; [lia|]. simpl.
  pose proof T as [I1 S1 (j & Hj & Hpg) F1 B1].
  destruct (free_cases s1 fl1 (pg + n) (2 ^ k - n)) as [[Hf Hc]|(s' & fl' & Hf & Fr)].
  { done. }
  { intros q Hq. split; [|rewrite F1; intros [_ Hb]; apply Hb; unfold in_block; lia].
    eapply (inv_block _ _ _ I j pg); [done|]. apply (in_block_mono k j); [lia|]. unfold in_block. lia. }
  { lia. }
  - left. split; [unfold mbind at 1, ST_bind at 1; by rewrite Hf|]. right. intros Hcl.
    destruct Hc as [Hc|Hc].
    + assert (2 ^ k <= 2 ^ 12) by (apply Z.pow_le_mono_r; unfold MAX_ORDER in *; lia). lia.
    + destruct (Hcl j pg Hpg) as [z Hz]. apply (Hc z). intros q Hq. rewrite stable_managed by done.
      apply Hz, (in_block_mono k j); [lia|]. unfold in_block. lia.
  - right. right. exists pg, s', fl'. split; [by rewrite (bind_run _ _ _ _ _ Hf)|].
    eapply alloc_rest; [exact I|exact T|lia|lia|exact Fr].
Qed.
End invariant.
