(* ===== verification/BuddyTheorems.v ===== *)
(** * What the buddy allocator guarantees

    Setting up a zone, counting free pages, and sequences of allocations and
    frees, with the theorems on [buddy_provider]. *)

From S2P Require Import Prelude Types Links PodList Buddy ListTheorems.

(** ** Counting *)

Definition block_pages (fl : free_lists) (k : Z) : list Z := fl k ≫= λ p, seqZ p (2 ^ k).
Definition free_pages (fl : free_lists) : list Z := seqZ 0 13 ≫= block_pages fl.

Lemma elem_of_block_pages fl k q : q ∈ block_pages fl k ↔ ∃ p, p ∈ fl k ∧ in_block k p q.
Proof.
  unfold block_pages, in_block. rewrite list_elem_of_bind. by setoid_rewrite elem_of_seqZ; naive_solver.
Qed.

Lemma block_pages_length fl k : Z.of_nat (length (block_pages fl k)) = Z.of_nat (length (fl k)) * 2 ^ k.
Proof.
  unfold block_pages. induction (fl k) as [|p l IH]; [done|].
  rewrite bind_cons, length_app, length_seqZ, Nat2Z.inj_add, Z2Nat.id by (apply Z.pow_nonneg; lia).
  rewrite length_cons, Nat2Z.inj_succ, Z.mul_succ_l, <- IH. lia.
Qed.

Lemma free_count_fold (cs : gmap Z Z) fl ks a :
  (∀ k, k ∈ ks → cs !! k = Some (wrap64 (Z.of_nat (length (fl k)))) ∧ 0 <= k) →
  foldl (λ acc order, match acc, cs !! order with
                      | Some a, Some c => Some (a +w c * Z.shiftl 1 order)
                      | _, _ => None
                      end) (Some (wrap64 a)) ks
    = Some (wrap64 (a + Z.of_nat (length (ks ≫= block_pages fl)))).
Proof.
  revert a. induction ks as [|k ks IH]; intros a Hk; [simpl; by rewrite Z.add_0_r|].
  rewrite bind_cons. cbn [foldl]. destruct (Hk k) as [-> ?]; [left|]. rewrite Z.shiftl_1_l.
  assert (wrap64 a +w wrap64 (Z.of_nat (length (fl k))) * 2 ^ k
    = wrap64 (a + Z.of_nat (length (fl k)) * 2 ^ k)) as ->.
  { unfold wrap64. rewrite Zplus_mod_idemp_l, Zplus_mod, Zmult_mod_idemp_l, <- Zplus_mod. done. }
  rewrite IH by (intros j Hj; apply Hk; by right).
  rewrite length_app. do 2 f_equal. rewrite Nat2Z.inj_add, block_pages_length. lia.
Qed.

Section counting.
Context (page_count : Z).

Lemma free_pages_spec X s fl :
  inv page_count X s fl →
  NoDup (free_pages fl) ∧ (∀ q, q ∈ free_pages fl ↔ freep fl q).
Proof.
  intros I. assert (Hin : ∀ q, q ∈ free_pages fl ↔ freep fl q).
  { intros q. unfold free_pages. rewrite list_elem_of_bind. split.
    - intros (k & (p & Hp & Hq)%elem_of_block_pages & _). by exists k, p.
    - intros (k & p & Hp & Hq). exists k. rewrite elem_of_block_pages, elem_of_seqZ. split; [by exists p|].
      pose proof (inv_range _ _ _ _ I _ _ Hp) as Hr. unfold MAX_ORDER in Hr. lia. }
  split; [|done]. apply NoDup_bind; [| |apply NoDup_seqZ].
  - intros k1 k2 q _ _ (p1 & H1 & Hq1)%elem_of_block_pages (p2 & H2 & Hq2)%elem_of_block_pages.
    by destruct (inv_disj _ _ _ _ I k1 p1 k2 p2 q).
  - intros k Hk%elem_of_seqZ. apply NoDup_bind.
    + intros p1 p2 q H1 H2 Hq1%elem_of_seqZ Hq2%elem_of_seqZ. by destruct (inv_disj _ _ _ _ I k p1 k p2 q).
    + intros. apply NoDup_seqZ.
    + pose proof (inv_ring _ _ _ _ I k) as Hr. unfold MAX_ORDER in Hr. specialize (Hr ltac:(lia)).
      apply ring_distinct in Hr as [_ Hr]%NoDup_cons. by eapply NoDup_fmap_1.
Qed.

Lemma free_count_ok s fl :
  inv page_count [] s fl → free_count s = Some (wrap64 (Z.of_nat (length (free_pages fl)))).
Proof.
  intros I. unfold free_count. change (Some 0) with (Some (wrap64 0)).
  rewrite (free_count_fold (free_counts s) fl); [done|].
  intros k Hk%elem_of_seqZ. split; [|lia]. eapply inv_count; [done|]. unfold MAX_ORDER. lia.
Qed.
End counting.

(** ** Setting up *)

Section setup.
Context (page_count : Z).

(** The same four steps as in [Buddy.run_put], in the order of [setup_for_base]. *)
Lemma run_carve s fl k p :
  inv page_count [] s fl → 0 <= k <= MAX_ORDER →
  (∀ q, in_block k p q → 0 <= q < page_count ∧ ¬ freep fl q) →
  ∃ s', (∀ A (rest : ST buddy A),
        (update_page p (page_set_flag PHYSICAL_PAGE_FLAG_PROPERTY);;
         update_page p (with_property k);;
         on_page_links (list_add (page_link p) (freelist k));;
         add_count k 1;; rest) s = rest s') ∧
    inv page_count [] s' (fl_set k (p :: fl k) fl) ∧ stable s s'.
Proof.
  intros I Hk Hb. destruct (Hb p) as [Hp _]; [apply in_block_start; lia|].
  pose proof Hp as [pg Hpg]%(inv_pages _ _ _ _ I).
  set (pg' := with_property k (page_set_flag PHYSICAL_PAGE_FLAG_PROPERTY pg)).
  destruct (inv_insert page_count [] s fl k p pg') as (m' & Hrun & I');
    [done..|apply not_elem_of_nil|apply has_set_flag|done|].
  eexists. split; [|split; [exact I'|]].
  - intros A rest. erewrite bind_run by by apply run_update_page. erewrite bind_run.
    2:{ apply run_update_page. simpl. by rewrite lookup_insert_eq. }
    erewrite bind_run by by apply run_page_links.
    erewrite bind_run by by apply run_add_count; simpl; eapply inv_count.
    unfold upd, add_to. simpl. by rewrite insert_insert_eq.
  - eapply stable_upd; [done|]. unfold pinfo, pg'. simpl. f_equal. apply has_set_other.
Qed.

(** The order of the first block that is carved from [n] pages. *)
Definition top_order (k n : Z) : Z := Z.min k (Z.log2 n).

(** What carving [n] pages down from [p] gives. *)
Record carved (s s' : buddy) (fl fl' : free_lists) (p n k : Z) : Prop := {
  carved_inv : inv page_count [] s' fl';
  carved_stable : stable s s';
  carved_top q : 0 < n → in_block (top_order k n) p q → freep fl' q;
  carved_old q : freep fl q → freep fl' q;
  carved_new q : freep fl' q → freep fl q ∨ p + 1 - n <= q < p + 2 ^ top_order k n;
  carved_length : Z.of_nat (length (free_pages fl')) = Z.of_nat (length (free_pages fl)) + n;
}.

Lemma free_pages_add fl k p :
  0 <= k <= MAX_ORDER →
  Z.of_nat (length (free_pages (fl_set k (p :: fl k) fl))) = Z.of_nat (length (free_pages fl)) + 2 ^ k.
Proof.
  intros Hk. unfold free_pages. assert (∀ ks, NoDup ks →
    Z.of_nat (length (ks ≫= block_pages (fl_set k (p :: fl k) fl)))
      = Z.of_nat (length (ks ≫= block_pages fl)) + if decide (k ∈ ks) then 2 ^ k else 0) as H.
  { induction ks as [|j ks IH]; [done|]. intros [Hj Hks]%NoDup_cons. rewrite !bind_cons.
    rewrite !length_app, !Nat2Z.inj_add, IH, !block_pages_length by done.
    destruct (decide (j = k)) as [->|Hne].
    - rewrite fl_set_eq, (decide_False _ _), decide_True by (done || left). simpl. lia.
    - rewrite fl_set_ne by done. destruct (decide (k ∈ ks)), (decide (k ∈ j :: ks)); first [lia|set_solver]. }
  rewrite H by apply NoDup_seqZ. rewrite decide_True; [done|]. apply elem_of_seqZ. unfold MAX_ORDER in Hk. lia.
Qed.

Lemma carve_ok fuel s fl p n k :
  inv page_count [] s fl → 0 <= k <= MAX_ORDER → 0 <= n → (Z.to_nat n + Z.to_nat k < fuel)%nat →
  (∀ q, p + 1 - n <= q < p + 2 ^ top_order k n → 0 <= q < page_count ∧ ¬ freep fl q) →
  ∃ s' fl', carve fuel p n k s = Some (tt, s') ∧ carved s s' fl fl' p n k.
Proof.
  revert s fl p n k. induction fuel as [|fuel IH]; intros s fl p n k I Hk Hn Hf Hl; [lia|].
  cbn [carve]. destruct (Z.eqb_spec n 0) as [->|Hn0].
  { exists s, fl. split; [done|]. split; [done|done|lia|done|by left|lia]. }
  rewrite Z.shiftl_1_l. assert (0 < 2 ^ k) by lia. destruct (Z.leb_spec (2 ^ k) n) as [Hle|Hlt].
  - assert (top_order k n = k) as Et.
    { unfold top_order. apply Z.min_l. apply Z.log2_le_pow2; lia. } rewrite Et in *.
    destruct (run_carve s fl k p) as (s1 & H1 & I1 & S1); [done|lia|intros q Hq; apply Hl; unfold in_block in Hq; lia|].
    assert (2 ^ top_order k (n - 2 ^ k) <= 2 ^ k).
    { apply Z.pow_le_mono_r; [lia|]. unfold top_order. apply Z.le_min_l. }
    destruct (IH s1 (fl_set k (p :: fl k) fl) (p - 2 ^ k) (n - 2 ^ k) k) as (s2 & fl2 & H2 & [I2 S2 T2 O2 N2 L2]);
      [done|lia|lia|lia| |].
    { intros q Hq. destruct (Hl q ltac:(lia)) as [? Hnf]. split; [done|]. rewrite freep_add.
      intros [?|Hq']; [done|]. unfold in_block in Hq'. lia. }
    exists s2, fl2. split; [by rewrite H1|].
    split; rewrite ?Et; [done|by eapply stable_trans| | | |].
    + intros q _ Hq. apply O2. rewrite freep_add. by right.
    + intros q Hq. apply O2. rewrite freep_add. by left.
    + intros q [[?|Hq]%freep_add|Hq]%N2; [by left|right..]; [unfold in_block in Hq|]; lia.
    + rewrite L2, free_pages_add by lia. lia.
  - assert (Z.log2 n < k) as Hlog by (apply Z.log2_lt_pow2; lia). pose proof (Z.log2_nonneg n).
    assert (top_order (k - 1) n = top_order k n) as Et by (unfold top_order; lia).
    destruct (IH s fl p n (k - 1)) as (s2 & fl2 & H2 & [I2 S2 T2 O2 N2 L2]); [done|lia|lia|lia|by rewrite Et|].
    rewrite Et in *. exists s2, fl2. split; [done|]. by split.
Qed.

(** What the first loop of [setup_for_base] leaves. *)
Lemma init_pages_ok count s fl p zone :
  inv page_count [] s fl →
  (∀ q, p <= q < p + Z.of_nat count → ¬ freep fl q ∧ ∃ pg, pages s !! q = Some pg ∧ is_reserved pg = true) →
  ∃ s', init_pages count p zone s = Some (tt, s') ∧ inv page_count [] s' fl ∧
    zones_ s' = zones_ s ∧ zone_count_ s' = zone_count_ s ∧
    (∀ q, p <= q < p + Z.of_nat count → pinfo <$> pages s' !! q = Some (zone, false)) ∧
    (∀ q, ¬ (p <= q < p + Z.of_nat count) → pages s' !! q = pages s !! q).
Proof.
  revert s p. induction count as [|count IH]; intros s p I Hp.
  { exists s. split_and!; try done. intros q Hq. lia. }
  destruct (Hp p ltac:(lia)) as (Hnf & pg & Hpg & Hres).
  assert (Hno : ∀ k, p ∉ fl k) by (intros k Hk; by apply Hnf; eapply head_free).
  set (pg' := {| ref := 0; flags := 0; property := 0; zone_id := zone |}).
  destruct (IH (upd s (<[p := pg']> (pages s)) (page_links s) (free_counts s)) (p + 1))
    as (s' & Hrun & I' & Hz & Hc & Hin & Hout).
  { eapply inv_page; [done| |done|done| |]; [|set_solver..]. eapply inv_pages; eauto. }
  { intros q Hq. destruct (Hp q ltac:(lia)) as (? & pgq & Hq1 & ?). split; [done|]. exists pgq.
    simpl. rewrite lookup_insert_ne by lia. done. }
  exists s'. split_and!; try done.
  - cbn [init_pages]. erewrite bind_run by by apply run_load_page. rewrite Hres. simpl.
    erewrite bind_run by done. by erewrite bind_run by by apply run_update_page.
  - intros q Hq. destruct (decide (q = p)) as [->|]; [|apply Hin; lia].
    rewrite Hout by lia. simpl. by rewrite lookup_insert_eq.
  - intros q Hq. rewrite Hout by lia. simpl. rewrite lookup_insert_ne by lia. done.
Qed.

Lemma inv_add_zone s fl base :
  inv page_count [] s fl → ∃ s', add_zone base s = Some (tt, s') ∧ inv page_count [] s' fl ∧
    pages s' = pages s ∧ zones_ s' = <[zone_count_ s := base]> (zones_ s).
Proof. intros [I1 I2 I3 I4 I5 I6 I7 I8 I9 I10]. eexists. split; [done|]. split; [by split|done]. Qed.

Lemma setup_ok s fl base n :
  inv page_count [] s fl → 1 <= n → zone_count_ s < ZONE_COUNT_MAX →
  (∀ q, base <= q < base + n - 1 + 2 ^ top_order MAX_ORDER n → 0 <= q < page_count ∧ ¬ freep fl q) →
  (∀ q pg, base <= q < base + n → pages s !! q = Some pg → is_reserved pg = true) →
  ∃ s' fl', setup_for_base base n s = Some (tt, s') ∧ inv page_count [] s' fl' ∧
    (∀ q, in_block (top_order MAX_ORDER n) (base + n - 1) q → freep fl' q) ∧
    (∀ q, freep fl q → freep fl' q) ∧
    (∀ q, freep fl' q → freep fl q ∨ base <= q < base + n - 1 + 2 ^ top_order MAX_ORDER n) ∧
    Z.of_nat (length (free_pages fl')) = Z.of_nat (length (free_pages fl)) + n ∧
    (∀ q, base <= q < base + n → managed s' (zone_count_ s) q) ∧
    (∀ q, ¬ (base <= q < base + n) → pinfo <$> pages s' !! q = pinfo <$> pages s !! q).
Proof.
  intros I Hn Hz Hl Hres. assert (0 < 2 ^ top_order MAX_ORDER n).
  { apply Z.pow_pos_nonneg; [lia|]. unfold top_order, MAX_ORDER. pose proof (Z.log2_nonneg n). lia. }
  destruct (init_pages_ok (Z.to_nat n) s fl base (zone_count_ s)) as (s1 & H1 & I1 & Z1 & C1 & Hin & Hout);
    [done| |].
  { intros q Hq. destruct (Hl q ltac:(lia)) as [Hq1 ?]. split; [done|].
    pose proof Hq1 as [pg Hpg]%(inv_pages _ _ _ _ I). exists pg. split; [done|]. eapply Hres; [|done]. lia. }
  destruct (inv_add_zone s1 fl base I1) as (s2 & H2 & I2 & P2 & Z2).
  destruct (carve_ok (Z.to_nat n + 14) s2 fl (base + (n - 1)) n MAX_ORDER) as (s3 & fl3 & H3 & [I3 S3 T3 O3 N3 L3]).
  { done. } { done. } { lia. } { unfold MAX_ORDER. lia. } { intros q Hq. apply Hl. lia. }
  exists s3, fl3. replace (base + n - 1) with (base + (n - 1)) by lia.
  assert (Hinfo : ∀ q, pinfo <$> pages s3 !! q = pinfo <$> pages s1 !! q).
  { intros q. destruct S3 as (E & _). by rewrite <- !lookup_fmap, E, P2. }
  split_and!; try done.
  - unfold setup_for_base. rewrite (bind_run _ _ _ tt s) by (apply kassert_true, Z.ltb_lt; lia).
    rewrite (bind_run _ _ _ s s) by done. rewrite (bind_run _ _ _ tt s) by (by apply kassert_true, Z.ltb_lt).
    by rewrite (bind_run _ _ _ _ _ H1), (bind_run _ _ _ _ _ H2).
  - intros q Hq. apply T3; [lia|done].
  - intros q Hq%N3. destruct Hq; [by left|right; lia].
  - intros q Hq. split; [rewrite Hinfo; apply Hin; lia|]. destruct S3 as (_ & -> & _).
    rewrite Z2, C1, lookup_insert_eq. eauto.
  - intros q Hq. rewrite Hinfo. by rewrite Hout by lia.
Qed.
End setup.

(** ** Concrete states *)

(** [n] pages with the contents [pg], linked nowhere, before or after the
    constructor has run; [b] is the base of zone 0 when there is one. *)
Definition all_pages (n : Z) (pg : page) : gmap Z page := list_to_map ((λ i, (i, pg)) <$> seqZ 0 n).
Definition all_links (n : Z) : pod_mem :=
  list_to_map (((λ i, (i, {| next := i; prev := i |})) <$> (freelist <$> seqZ 0 13)) ++
               ((λ i, (i, {| next := null; prev := null |})) <$> (page_link <$> seqZ 0 n))).

Definition boot_state (n : Z) : buddy :=
  {| pages := all_pages n {| ref := 0; flags := PHYSICAL_PAGE_FLAG_RESERVED; property := 0; zone_id := 0 |};
     page_links := all_links n; free_counts := ∅; zones_ := ∅; zone_count_ := 0 |}.

Lemma assoc_lookup {A} (f : Z → A) l q :
  NoDup l → (list_to_map ((λ i, (i, f i)) <$> l) : gmap Z A) !! q = if decide (q ∈ l) then Some (f q) else None.
Proof.
  intros Hnd. assert (NoDup (((λ i, (i, f i)) <$> l).*1)) as Hnd'.
  { rewrite <- list_fmap_compose. unfold compose. simpl. by rewrite list_fmap_id. }
  case_decide as Hq.
  - apply elem_of_list_to_map_1; [done|]. apply list_elem_of_fmap. by exists q.
  - apply not_elem_of_list_to_map_1. rewrite <- list_fmap_compose. unfold compose. simpl. by rewrite list_fmap_id.
Qed.

Lemma all_pages_lookup n pg q : all_pages n pg !! q = if decide (0 <= q < n) then Some pg else None.
Proof.
  unfold all_pages. rewrite (assoc_lookup (λ _, pg)) by apply NoDup_seqZ.
  apply decide_ext. rewrite elem_of_seqZ. lia.
Qed.

Lemma all_links_head n k : 0 <= k < 13 → all_links n !! freelist k = Some {| next := freelist k; prev := freelist k |}.
Proof.
  intros Hk. unfold all_links. rewrite list_to_map_app. apply lookup_union_Some_l.
  rewrite (assoc_lookup (λ i, {| next := i; prev := i |})).
  - rewrite decide_True; [done|]. apply list_elem_of_fmap. exists k. rewrite elem_of_seqZ. split; [done|lia].
  - apply NoDup_fmap_2; [|apply NoDup_seqZ]. intros x y. unfold freelist. lia.
Qed.

Lemma all_links_page n q : 0 <= q < n → cell (all_links n) (page_link q).
Proof.
  intros Hq. change (is_Some (next <$> all_links n !! page_link q)). unfold all_links.
  rewrite fmap_is_Some, list_to_map_app, lookup_union_is_Some. right.
  rewrite (assoc_lookup (λ _, {| next := null; prev := null |})).
  - rewrite decide_True; [eauto|]. apply list_elem_of_fmap. exists q. rewrite elem_of_seqZ. split; [done|lia].
  - apply NoDup_fmap_2; [|apply NoDup_seqZ]. intros x y. unfold page_link. lia.
Qed.

Lemma no_free q : ¬ freep (λ _, []) q.
Proof. intros (k & p & Hp & _). set_solver. Qed.

(** A state with nothing free. *)
Lemma inv_nothing_free page_count s :
  (∀ k, 0 <= k <= MAX_ORDER → is_ring (page_links s) (freelist k) [] ∧ free_counts s !! k = Some 0) →
  (∀ q, is_Some (pages s !! q) ↔ 0 <= q < page_count) →
  (∀ q, 0 <= q < page_count → cell (page_links s) (page_link q)) →
  (∀ q pg, pages s !! q = Some pg → has_prop pg = false) →
  inv page_count [] s (λ _, []).
Proof.
  intros Hr Hp Hc Hf. split; [| |intros k Hk; by apply Hr| | |done| | |done|].
  - intros k Hk. by apply Hr.
  - intros k p []%not_elem_of_nil.
  - intros k p []%not_elem_of_nil.
  - intros q pg Hq Hqf. by rewrite (Hf q pg Hq) in Hqf.
  - intros k p q []%not_elem_of_nil.
  - intros k p k' p' q []%not_elem_of_nil.
  - intros p k []%not_elem_of_nil.
Qed.

(** The constructor, from the state at boot. *)
Lemma init_areas_ok count i s :
  (∀ k, i <= k < i + Z.of_nat count → cell (page_links s) (freelist k)) →
  ∃ s', init_areas count i s = Some (tt, s') ∧ pages s' = pages s ∧ zones_ s' = zones_ s ∧
    zone_count_ s' = zone_count_ s ∧
    (∀ k, i <= k < i + Z.of_nat count → is_ring (page_links s') (freelist k) [] ∧ free_counts s' !! k = Some 0) ∧
    frame (freelist <$> seqZ i (Z.of_nat count)) (page_links s) (page_links s') ∧
    (∀ k, k < i → free_counts s' !! k = free_counts s !! k).
Proof.
  revert i s. induction count as [|count IH]; intros i s Hc.
  { exists s. split_and!; try done. intros; lia. }
  destruct (list_init_spec (page_links s) (freelist i)) as (m & Hrun & Hr & F); [apply Hc; lia|].
  destruct (IH (i + 1) (upd s (pages s) m (<[i := 0]> (free_counts s)))) as (s' & H' & P' & Z' & C' & R' & F' & K').
  { intros k Hk. eapply frame_cell; [exact F|]. apply Hc. lia. }
  exists s'. split_and!; try done.
  - cbn [init_areas]. erewrite bind_run by by apply run_page_links. by erewrite bind_run by done.
  - intros k Hk. destruct (decide (k = i)) as [->|]; [|apply R'; lia]. split.
    + eapply frame_ring; [exact F'| |exact Hr]. intros x ->%list_elem_of_singleton Hx.
      apply list_elem_of_fmap in Hx as (j & E & Hj%elem_of_seqZ). unfold freelist in E. lia.
    + rewrite K' by lia. simpl. by rewrite lookup_insert_eq.
  - eapply frame_trans; (eapply frame_weaken; [|done]).
    + intros x ->%list_elem_of_singleton. apply list_elem_of_fmap. exists i. rewrite elem_of_seqZ. split; [done|lia].
    + intros x (j & -> & Hj%elem_of_seqZ)%list_elem_of_fmap. apply list_elem_of_fmap. exists j.
      rewrite elem_of_seqZ. split; [done|lia].
  - intros k Hk. rewrite K' by lia. simpl. by rewrite lookup_insert_ne by lia.
Qed.

Lemma buddy_provider_ok n :
  ∃ s, buddy_provider (boot_state n) = Some (tt, s) ∧ inv n [] s (λ _, []) ∧
    pages s = pages (boot_state n) ∧ zone_count_ s = 0.
Proof.
  destruct (init_areas_ok 13 0 (boot_state n)) as (s & Hrun & P & _ & C & R & F & _).
  { intros k Hk. eexists. simpl. rewrite all_links_head by lia. done. }
  exists s. split_and!; try done. apply inv_nothing_free.
  - intros k Hk. apply R. unfold MAX_ORDER in Hk. lia.
  - intros q. rewrite P. simpl. rewrite all_pages_lookup. case_decide; split; intros; eauto; try done.
  - intros q Hq. eapply frame_cell; [exact F|]. by apply all_links_page.
  - intros q pg. rewrite P. simpl. rewrite all_pages_lookup. case_decide; [|done]. by intros [= <-].
Qed.

(** ** Sequences of operations *)

(** Allocating [n] pages, and freeing the [i]-th live allocation. *)
Inductive buddy_op := BAlloc (n : Z) | BFree (i : nat).

(** The live allocations: first page and number of pages. *)
Abbreviation allocations := (list (Z * Z)).
Definition live_pages (live : allocations) : list Z := live ≫= λ r, seqZ r.1 r.2.

Section traces.
Context (page_count : Z) (Hpc : page_count <= 2 ^ 63).

Definition run_op (o : buddy_op) (live : allocations) : ST buddy allocations :=
  match o with
  | BAlloc n =>
      r ← allocate page_count n;
      mret (match r with Some pg => (pg, n) :: live | None => live end)
  | BFree i =>
      match live !! i with
      | Some (base, n) => free page_count base n;; mret (delete i live)
      | None => mret live
      end
  end.

Fixpoint run_ops (os : list buddy_op) (live : allocations) : ST buddy allocations :=
  match os with
  | [] => mret live
  | o :: os => live' ← run_op o live; run_ops os live'
  end.

(** The sizes the allocator is meant for. *)
Definition op_small (o : buddy_op) : Prop :=
  match o with BAlloc n => 1 <= n < 2048 | BFree _ => True end.

(** Live allocations do not overlap each other or the free pages. *)
Record live_ok (s : buddy) (fl : free_lists) (live : allocations) : Prop := {
  live_inv : inv page_count [] s fl;
  live_disj : NoDup (live_pages live);
  live_size : Forall (λ r, 1 <= r.2 < 2048) live;
  live_range q : q ∈ live_pages live → 0 <= q < page_count ∧ ¬ freep fl q;
}.

(** All memory involved is usable, each allocation in one zone. *)
Definition all_clean (s : buddy) (fl : free_lists) (live : allocations) : Prop :=
  clean s fl ∧ Forall (λ r, ∃ z, all_managed s z r.1 r.2) live.

(** No page is lost or gained. *)
Definition conserved (fl fl' : free_lists) (live live' : allocations) : Prop :=
  ∀ q, freep fl' q ∨ q ∈ live_pages live' ↔ freep fl q ∨ q ∈ live_pages live.

Lemma live_pages_cons r live q : q ∈ live_pages (r :: live) ↔ r.1 <= q < r.1 + r.2 ∨ q ∈ live_pages live.
Proof. unfold live_pages. rewrite bind_cons, elem_of_app, elem_of_seqZ. done. Qed.

Lemma live_pages_perm live live' : live ≡ₚ live' → live_pages live ≡ₚ live_pages live'.
Proof. intros H. unfold live_pages. by rewrite H. Qed.

Lemma managed_stable_all s s' live :
  stable s s' → Forall (λ r, ∃ z, all_managed s z r.1 r.2) live →
  Forall (λ r : Z * Z, ∃ z, all_managed s' z r.1 r.2) live.
Proof.
  intros S H. eapply Forall_impl; [exact H|]. intros r [z Hz]. exists z. by eapply stable_all_managed.
Qed.

Lemma run_op_cases o s fl live :
  live_ok s fl live → op_small o →
  (run_op o live s = None ∧ ¬ all_clean s fl live) ∨
  (∃ s' fl' live', run_op o live s = Some (live', s') ∧ live_ok s' fl' live' ∧
    conserved fl fl' live live' ∧ (all_clean s fl live → all_clean s' fl' live')).
Proof.
  intros [I Hd Hs Hr] Ho. destruct o as [n|i]; simpl in Ho; cbn [run_op].
  - destruct (allocate_cases page_count Hpc s fl n I ltac:(lia))
      as [[Ha Hc]|[[Ha _]|(pg & s' & fl' & Ha & [I' S' Fr Fl Cl])]].
    + left. split; [unfold mbind, ST_bind; by rewrite Ha|]. intros [Hcl _]. destruct Hc; [lia|done].
    + right. exists s, fl, live. split_and!; [by rewrite (bind_run _ _ _ _ _ Ha)|by split|done|done].
    + right. exists s', fl', ((pg, n) :: live). split_and!; [by rewrite (bind_run _ _ _ _ _ Ha)| | |].
      * split; [done| |by constructor|].
        -- unfold live_pages. rewrite bind_cons. apply NoDup_app. split_and!; [apply NoDup_seqZ| |done].
           intros q Hq%elem_of_seqZ Hq'. destruct (Hr q Hq') as [_ Hn]. by apply Hn, Fr.
        -- intros q [Hq|Hq]%live_pages_cons.
           ++ split; [|rewrite Fl; by intros [_ ?]]. destruct (Fr q Hq) as (k & p & Hp & Hb).
              by eapply (inv_block _ _ _ _ I).
           ++ destruct (Hr q Hq) as [? Hn]. split; [done|]. rewrite Fl. by intros [? _].
      * intros q. rewrite live_pages_cons, Fl. cbn [fst snd]. split.
        -- intros [[? _]|[?|?]]; [by left|left; by apply Fr|by right].
        -- intros [?|?]; [|by right; right].
           destruct (decide (pg <= q < pg + n)); [by right; left|by left].
      * intros [Hcl Hm]. destruct (Cl Hcl) as [Hcl' [z Hz]]. split; [done|].
        constructor; [by exists z|by eapply managed_stable_all].
  - destruct (live !! i) as [[base n]|] eqn:E; [|right; by exists s, fl, live; split_and!].
    pose proof (delete_Permutation _ _ _ E) as Hperm. pose proof (live_pages_perm _ _ Hperm) as Hpages.
    rewrite Hpages in Hd. pose proof Hd as Hd'. unfold live_pages in Hd'. rewrite bind_cons in Hd'.
    apply NoDup_app in Hd' as (_ & Hdis & Hrest). rewrite Hperm in Hs. apply Forall_cons in Hs as [Hsz Hs].
    cbn [fst snd] in *.
    assert (Hr' : ∀ q, q ∈ live_pages ((base, n) :: delete i live) → 0 <= q < page_count ∧ ¬ freep fl q).
    { intros q Hq. apply Hr. by rewrite Hpages. }
    destruct (free_cases page_count Hpc s fl base n I) as [[Hf Hc]|(s' & fl' & Hf & [I' S' Fl Cl])].
    { intros q Hq. apply Hr', live_pages_cons. by left. } { lia. }
    + left. split; [unfold mbind, ST_bind; by rewrite Hf|]. intros [Hcl Hm]. destruct Hc as [?|Hc]; [lia|].
      rewrite Hperm in Hm. apply Forall_cons in Hm as [[z Hz] _]. by apply (Hc z).
    + right. exists s', fl', (delete i live). split_and!; [by rewrite (bind_run _ _ _ _ _ Hf)| | |].
      * split; [done|done|done|]. intros q Hq. destruct (Hr' q) as [? Hn]; [apply live_pages_cons; by right|].
        split; [done|]. rewrite Fl. intros [?|Hq']; [done|]. apply (Hdis q); [by apply elem_of_seqZ|done].
      * intros q. rewrite Hpages, live_pages_cons, Fl. cbn [fst snd]. tauto.
      * intros [Hcl Hm]. rewrite Hperm in Hm. apply Forall_cons in Hm as [[z Hz] Hm].
        split; [by apply (Cl z)|by eapply managed_stable_all].
Qed.

Lemma run_ops_cases os s fl live :
  live_ok s fl live → Forall op_small os →
  (run_ops os live s = None ∧ ¬ all_clean s fl live) ∨
  (∃ s' fl' live', run_ops os live s = Some (live', s') ∧ live_ok s' fl' live' ∧
    conserved fl fl' live live' ∧ (all_clean s fl live → all_clean s' fl' live')).
Proof.
  revert s fl live. induction os as [|o os IH]; intros s fl live Hl Ho.
  { right. by exists s, fl, live; split_and!. }
  apply Forall_cons in Ho as [Ho Hos]. cbn [run_ops].
  destruct (run_op_cases o s fl live Hl Ho) as [[Hr Hc]|(s1 & fl1 & live1 & Hr & Hl1 & K1 & C1)].
  { left. split; [unfold mbind, ST_bind; by rewrite Hr|done]. }
  rewrite (bind_run _ _ _ _ _ Hr).
  destruct (IH s1 fl1 live1 Hl1 Hos) as [[Hr' Hc]|(s2 & fl2 & live2 & Hr' & Hl2 & K2 & C2)].
  - left. split; [done|]. intros Hcl. by apply Hc, C1.
  - right. exists s2, fl2, live2. split_and!; [done|done| |auto]. intros q. by rewrite (K2 q), (K1 q).
Qed.
End traces.

(** ** Theorems *)

(** [n] usable pages of one zone, all allocated. *)
Definition full_state (n : Z) : buddy :=
  {| pages := all_pages n {| ref := 0; flags := 0; property := 0; zone_id := 0 |};
     page_links := all_links n; free_counts := list_to_map ((λ i, (i, 0)) <$> seqZ 0 13);
     zones_ := {[0 := 0]}; zone_count_ := 1 |}.

Lemma full_state_inv n : inv n [] (full_state n) (λ _, []).
Proof.
  apply inv_nothing_free; unfold full_state; cbn [pages page_links free_counts].
  - intros k Hk. unfold MAX_ORDER in Hk. split.
    + split; [apply NoDup_singleton|]. split; [|done]. unfold linked.
      change (next <$> all_links n !! freelist k = Some (freelist k) ∧
              prev <$> all_links n !! freelist k = Some (freelist k)). by rewrite all_links_head by lia.
    + rewrite (assoc_lookup (λ _, 0)) by apply NoDup_seqZ. rewrite decide_True; [done|].
      apply elem_of_seqZ. lia.
  - intros q. rewrite all_pages_lookup. case_decide; split; intros; eauto; try done.
  - intros q Hq. by apply all_links_page.
  - intros q pg. rewrite all_pages_lookup. case_decide; [|done]. by intros [= <-].
Qed.

Lemma full_state_live n : 1 <= n < 2048 → live_ok n (full_state n) (λ _, []) [(0, n)].
Proof.
  intros Hn. split; [apply full_state_inv| |by apply Forall_singleton|].
  - unfold live_pages. rewrite bind_cons. simpl. rewrite app_nil_r. apply NoDup_seqZ.
  - intros q [Hq|Hq]%live_pages_cons; [|by apply not_elem_of_nil in Hq]. split; [simpl in Hq; lia|apply no_free].
Qed.

Lemma full_state_clean n : all_clean (full_state n) (λ _, []) [(0, n)].
Proof.
  split; [intros k p []%not_elem_of_nil|]. constructor; [|done]. exists 0. intros q Hq. split.
  - simpl. rewrite all_pages_lookup, decide_True; [done|]. simpl in Hq. lia.
  - exists 0. simpl. by rewrite lookup_singleton_eq.
Qed.

(** C2: the buddy allocator is correct on usable memory: any sequence of
    allocations of fewer than 2048 pages and frees of live allocations runs to
    completion (no assertion fails, no invalid access), the live allocations
    never overlap each other or the free blocks, and every page is always
    either free or in a live allocation, none lost and none gained. *)
Theorem buddy_conserves page_count os s fl live :
  page_count <= 2 ^ 63 → live_ok page_count s fl live → all_clean s fl live → Forall op_small os →
  ∃ s' fl' live', run_ops page_count os live s = Some (live', s') ∧ live_ok page_count s' fl' live' ∧
    all_clean s' fl' live' ∧ conserved fl fl' live live'.
Proof.
  intros Hpc Hl Hc Ho. destruct (run_ops_cases page_count Hpc os s fl live Hl Ho)
    as [[_ Hn]|(s' & fl' & live' & ? & ? & ? & ?)]; [done|]. exists s', fl', live'. auto.
Qed.

Lemma buddy_conserves_witness :
  ∃ s' fl' live', run_ops 64 [BFree 0; BAlloc 3; BAlloc 5; BFree 1; BAlloc 1] [(0, 64)] (full_state 64)
      = Some (live', s') ∧ live_ok 64 s' fl' live' ∧ all_clean s' fl' live' ∧
    conserved (λ _, []) fl' [(0, 64)] live'.
Proof.
  apply (buddy_conserves 64 _ (full_state 64) (λ _, []) [(0, 64)]).
  - lia.
  - apply full_state_live. lia.
  - apply full_state_clean.
  - repeat (apply Forall_cons; split; [simpl; first [exact I|lia]|]); constructor.
Defined.

(** C3: from boot on, after the constructor and [setup_for_base] of one zone
    whose blocks lie in the page array, every sequence of such allocations and
    frees either ends in a failed assertion or keeps the live allocations
    disjoint from each other and from the free blocks: no page is ever handed
    out twice. *)
Theorem buddy_boot_safe page_count base n os :
  0 <= base → 1 <= n → base + n - 1 + 2 ^ top_order MAX_ORDER n <= page_count → page_count <= 2 ^ 63 →
  Forall op_small os →
  ∃ s0 s1 fl1, buddy_provider (boot_state page_count) = Some (tt, s0) ∧
    setup_for_base base n s0 = Some (tt, s1) ∧ Z.of_nat (length (free_pages fl1)) = n ∧
    (run_ops page_count os [] s1 = None ∨
     ∃ s' fl' live', run_ops page_count os [] s1 = Some (live', s') ∧ live_ok page_count s' fl' live' ∧
       conserved fl1 fl' [] live').
Proof.
  intros Hb Hn Hp Hpc Ho. destruct (buddy_provider_ok page_count) as (s0 & H0 & I0 & P0 & C0).
  destruct (setup_ok page_count s0 (λ _, []) base n) as (s1 & fl1 & H1 & I1 & _ & _ & _ & L1 & _).
  { done. } { done. } { by rewrite C0. } { intros q Hq. split; [lia|apply no_free]. }
  { intros q pg Hq. rewrite P0. simpl. rewrite all_pages_lookup. case_decide; [|done]. by intros [= <-]. }
  exists s0, s1, fl1. split_and!; [done|done| |].
  - rewrite L1. simpl. lia.
  - destruct (run_ops_cases page_count Hpc os s1 fl1 []) as [[Hr _]|(s' & fl' & live' & ? & ? & ? & _)].
    { split; [done|constructor|constructor|]. intros q []%not_elem_of_nil. } { done. }
    + by left.
    + right. by exists s', fl', live'.
Qed.

Lemma buddy_boot_safe_witness :
  ∃ s0 s1 fl1, buddy_provider (boot_state 128) = Some (tt, s0) ∧
    setup_for_base 0 63 s0 = Some (tt, s1) ∧ Z.of_nat (length (free_pages fl1)) = 63 ∧
    (run_ops 128 [BAlloc 1; BAlloc 2; BFree 0] [] s1 = None ∨
     ∃ s' fl' live', run_ops 128 [BAlloc 1; BAlloc 2; BFree 0] [] s1 = Some (live', s') ∧
       live_ok 128 s' fl' live' ∧ conserved fl1 fl' [] live').
Proof.
  apply (buddy_boot_safe 128 0 63 [BAlloc 1; BAlloc 2; BFree 0]); [lia|lia|vm_compute; congruence|lia|].
  repeat (apply Forall_cons; split; [simpl; first [exact I|lia]|]); constructor.
Defined.

(** [free_count] is the number of free pages (as a 64-bit value): the pages
    of all blocks on the free lists, which are distinct. *)
Theorem free_count_counts page_count s fl :
  inv page_count [] s fl →
  ∃ ps, NoDup ps ∧ (∀ q, q ∈ ps ↔ freep fl q) ∧ free_count s = Some (wrap64 (Z.of_nat (length ps))).
Proof.
  intros I. exists (free_pages fl). destruct (free_pages_spec _ _ _ _ I). split_and!; [done..|].
  by eapply free_count_ok.
Qed.

Lemma free_count_counts_witness :
  ∃ ps, NoDup ps ∧ (∀ q, q ∈ ps ↔ freep (λ _, []) q) ∧
    free_count (full_state 64) = Some (wrap64 (Z.of_nat (length ps))).
Proof. apply (free_count_counts 64 (full_state 64) (λ _, [])). apply full_state_inv. Defined.

(** [setup_for_base] of two pages or more puts pages on the free lists that
    are not in the zone: the blocks are carved downwards from the last page,
    each upwards from its first page, so that the page right after the zone,
    still reserved, is free afterwards. *)
Theorem setup_overruns page_count base n :
  0 <= base → 2 <= n → base + n - 1 + 2 ^ top_order MAX_ORDER n <= page_count →
  ∃ s0 s1 fl1, buddy_provider (boot_state page_count) = Some (tt, s0) ∧
    setup_for_base base n s0 = Some (tt, s1) ∧ inv page_count [] s1 fl1 ∧
    freep fl1 (base + n) ∧ pinfo <$> pages s1 !! (base + n) = Some (0, true).
Proof.
  intros Hb Hn Hp. destruct (buddy_provider_ok page_count) as (s0 & H0 & I0 & P0 & C0).
  destruct (setup_ok page_count s0 (λ _, []) base n) as (s1 & fl1 & H1 & I1 & T1 & _ & _ & _ & _ & O1).
  { done. } { lia. } { by rewrite C0. } { intros q Hq. split; [lia|apply no_free]. }
  { intros q pg Hq. rewrite P0. simpl. rewrite all_pages_lookup. case_decide; [|done]. by intros [= <-]. }
  assert (1 <= top_order MAX_ORDER n).
  { unfold top_order, MAX_ORDER. pose proof (Z.log2_le_mono 2 n ltac:(lia)). change (Z.log2 2) with 1 in *. lia. }
  assert (2 ^ 1 <= 2 ^ top_order MAX_ORDER n) by (apply Z.pow_le_mono_r; lia).
  exists s0, s1, fl1. split_and!; try done.
  - apply T1. unfold in_block. lia.
  - rewrite O1 by lia. rewrite P0. simpl. rewrite all_pages_lookup, decide_True by lia. done.
Qed.

Lemma setup_overruns_witness :
  ∃ s0 s1 fl1, buddy_provider (boot_state 128) = Some (tt, s0) ∧
    setup_for_base 0 63 s0 = Some (tt, s1) ∧ inv 128 [] s1 fl1 ∧
    freep fl1 63 ∧ pinfo <$> pages s1 !! 63 = Some (0, true).
Proof. apply (setup_overruns 128 0 63); [lia|lia|vm_compute; congruence]. Defined.

(** [get_order] asks for two orders more than the logarithm of the size, so
    that a block taken for [n] pages has more than twice [n] pages, and a
    request of 2048 pages or more always fails the assertion of [do_allocate],
    although blocks of 4096 pages exist. *)
Theorem allocate_large_panics page_count n s :
  1 <= n < 2 ^ 62 →
  2 * n < 2 ^ get_order n ∧ (2048 <= n → allocate page_count n s = None).
Proof.
  intros Hn. pose proof (Z.log2_spec n ltac:(lia)) as [Hlo Hhi]. pose proof (Z.log2_nonneg n).
  rewrite get_order_spec by done. rewrite Z.pow_succ_r in Hhi by lia.
  rewrite (Z.pow_add_r 2 (Z.log2 n) 2) by lia. split; [lia|]. intros Hbig.
  unfold allocate. rewrite (bind_run _ _ _ tt s) by (apply kassert_true, Z.ltb_lt; lia).
  rewrite get_order_spec by done. unfold do_allocate, mbind, ST_bind, kassert.
  assert (11 <= Z.log2 n) by (change 11 with (Z.log2 2048); by apply Z.log2_le_mono).
  by rewrite (proj2 (Z.leb_gt (Z.log2 n + 2) MAX_ORDER)) by (unfold MAX_ORDER; lia).
Qed.

Lemma allocate_large_panics_witness :
  2 * 2048 < 2 ^ get_order 2048 ∧ (2048 <= 2048 → allocate 64 2048 (full_state 64) = None).
Proof. apply (allocate_large_panics 64 2048 (full_state 64)). lia. Defined.
