(* ===== verification/Pmm.v ===== *)
(** * Pages, their addresses, and the page provider: [system/pmm.h], [pmm.cc]

    The conversions between a page (its index) and its physical and virtual
    address, and the interface the rest of the kernel uses the page allocator
    through ([physical_memory_manager::allocate()] and [free]), with the buddy
    allocator as its implementation. *)

From S2P Require Import Prelude Types Links PodList Buddy.

Section addresses.
(** [pages_end] is the virtual address [&pages\[page_count\]]. *)
Context (pages_end page_count : Z).

Definition pavailable_start : option Z := V2P (roundup pages_end PAGE_SIZE).

Definition page_to_pa (p : Z) : option Z :=
  start ← pavailable_start; Some (start +w p * PAGE_SIZE).

Definition page_to_va (p : Z) : option Z := pa ← page_to_pa p; P2V pa.

Definition pa_to_page (pa : Z) : option Z :=
  start ← V2P pages_end;
  let index := rounddown (pa -w start) PAGE_SIZE / PAGE_SIZE in
  if index <? page_count then Some index else None.

Definition va_to_page (va : Z) : option Z := pa ← V2P va; pa_to_page pa.

(** The page array ends in the kernel image, a page before its end at least. *)
Context (Hend : KERNEL_VIRTUALBASE <= pages_end) (Hend2 : pages_end + PAGE_SIZE < 2 ^ 64).

Lemma pavailable_start_spec :
  ∃ d, pavailable_start = Some (pages_end - KERNEL_VIRTUALBASE + d) ∧ 0 <= d < PAGE_SIZE ∧
    0 <= pages_end - KERNEL_VIRTUALBASE + d < KERNEL_SIZE.
Proof.
  assert (PAGE_SIZE = 2097152) as EP by done. assert (KERNEL_VIRTUALBASE = 0xFFFFFFFF80000000) as EK by done.
  destruct (roundup_spec pages_end PAGE_SIZE) as (k & Ek & Hk); [lia|lia|lia|].
  unfold pavailable_start. rewrite Ek. exists (PAGE_SIZE * k - pages_end).
  rewrite V2P_kernel by lia. split; [f_equal; lia|]. split; [lia|].
  assert (KERNEL_SIZE = 2 ^ 64 - KERNEL_VIRTUALBASE) by done. lia.
Qed.

Lemma pa_to_page_ok p start d :
  pavailable_start = Some start → start = pages_end - KERNEL_VIRTUALBASE + d → 0 <= d < PAGE_SIZE →
  0 <= p < page_count → start + p * PAGE_SIZE < 2 ^ 64 →
  page_to_pa p = Some (start + p * PAGE_SIZE) ∧ pa_to_page (start + p * PAGE_SIZE) = Some p.
Proof.
  intros Hs -> Hd Hp Hlt. assert (PAGE_SIZE = 2097152) as EP by done.
  assert (KERNEL_VIRTUALBASE = 0xFFFFFFFF80000000) as EK by done.
  unfold page_to_pa, pa_to_page. rewrite Hs, V2P_kernel by lia. simpl. split.
  - f_equal. apply wrap64_small. unfold is_u64. lia.
  - rewrite wrap64_small by (unfold is_u64; lia). rewrite rounddown_spec by lia.
    assert ((pages_end - KERNEL_VIRTUALBASE + d + p * PAGE_SIZE - (pages_end - KERNEL_VIRTUALBASE)) / PAGE_SIZE = p)
      as ->. { symmetry. apply (Z.div_unique_pos _ _ _ d); lia. }
    rewrite Z.mul_comm, Z.div_mul by lia. by rewrite (proj2 (Z.ltb_lt p page_count)) by lia.
Qed.

(** Pages of a machine with at most 32 TB have distinct virtual addresses, a
    page apart, and [va_to_page] finds them again.  The page at [KERNEL_SIZE],
    which [P2V] takes to the null pointer, is the exception. *)
Context (Hmem : page_count * PAGE_SIZE <= 2 ^ 45).

Lemma page_to_va_inv p b :
  0 <= p < page_count → page_to_va p = Some b → b ≠ 0 →
  ∃ start, pavailable_start = Some start ∧ 0 <= start < KERNEL_SIZE ∧
    b = phys_va (start + p * PAGE_SIZE) ∧ start + p * PAGE_SIZE ≠ KERNEL_SIZE ∧
    start + p * PAGE_SIZE < PHYMEMORY_SIZE ∧ va_to_page b = Some p.
Proof.
  intros Hp Hb Hne. destruct pavailable_start_spec as (d & Hs & Hd & Hr).
  assert (KERNEL_SIZE = 2 ^ 31) by done. assert (PHYMEMORY_SIZE = 2 ^ 46) by done. assert (PAGE_SIZE = 2097152) by done.
  set (start := pages_end - KERNEL_VIRTUALBASE + d) in *.
  destruct (pa_to_page_ok p start d Hs eq_refl Hd Hp) as [E1 E2]; [lia|].
  exists start. unfold page_to_va, va_to_page in *. rewrite E1 in Hb. cbn [mbind option_bind] in Hb.
  assert (start + p * PAGE_SIZE ≠ KERNEL_SIZE) as Hk.
  { intros E. rewrite E in Hb. vm_compute in Hb. injection Hb as <-. done. }
  rewrite P2V_value in Hb by lia. injection Hb as <-. rewrite V2P_phys_va by lia. split_and!; (done || lia).
Qed.

Lemma page_to_va_apart p q b c :
  0 <= p < page_count → 0 <= q < page_count → page_to_va p = Some b → page_to_va q = Some c →
  b ≠ 0 → c ≠ 0 → p ≠ q → b + PAGE_SIZE <= c ∨ c + PAGE_SIZE <= b.
Proof.
  intros Hp Hq Hb Hc Hb0 Hc0 Hne.
  destruct (page_to_va_inv p b) as (s & Hs & Rs & -> & ? & Hl1 & _); [done..|].
  destruct (page_to_va_inv q c) as (s' & Hs' & _ & -> & ? & Hl2 & _); [done..|].
  rewrite Hs in Hs'. injection Hs' as <-. assert (PAGE_SIZE = 2097152) by done.
  assert (PHYMEMORY_SIZE = 2 ^ 46) by done. assert (KERNEL_SIZE = 2 ^ 31) by done. unfold phys_va, KERNEL_VIRTUALBASE, PHYREMAP_VIRTUALBASE.
  repeat case_match; lia.
Qed.

(** Pages lie past the page array, or in the range all memory is remapped to. *)
Lemma page_to_va_range p b :
  0 <= p < page_count → page_to_va p = Some b → b ≠ 0 →
  pages_end <= b < 2 ^ 64 ∨ 0 < b < KERNEL_VIRTUALBASE - 2 ^ 32.
Proof.
  intros Hp Hb Hb0. destruct pavailable_start_spec as (d & Hs & Hd & Hr).
  destruct (page_to_va_inv p b) as (s & Hs' & Rs & -> & ? & Hl1 & _); [done..|].
  rewrite Hs in Hs'. injection Hs' as <-. assert (PAGE_SIZE = 2097152) by done.
  assert (PHYMEMORY_SIZE = 2 ^ 46) by done. assert (KERNEL_SIZE = 2 ^ 31) by done.
  unfold phys_va, KERNEL_VIRTUALBASE, PHYREMAP_VIRTUALBASE in *. case_match eqn:E; [apply Z.ltb_lt in E; left|right]; lia.
Qed.
End addresses.

(** ** The page provider *)

(** What [physical_memory_manager] promises: no panic, a page it hands out was
    not handed out before, and a page that is given back is no longer. *)
Class PageProvider (page_count : Z) (P : Type) := {
  alloc_page : ST P (option Z);
  free_page : Z → ST P unit;
  pp_inv : P → Prop;
  given : P → Z → Prop;
  given_range s p : given s p → 0 <= p < page_count;
  alloc_law s : pp_inv s → ∃ r s', alloc_page s = Some (r, s') ∧ pp_inv s' ∧
    match r with
    | Some p => ¬ given s p ∧ (∀ q, given s' q ↔ given s q ∨ q = p)
    | None => ∀ q, given s' q ↔ given s q
    end;
  free_law s p : pp_inv s → given s p → ∃ s', free_page p s = Some (tt, s') ∧ pp_inv s' ∧
    (∀ q, given s' q ↔ given s q ∧ q ≠ p);
}.

Lemma alloc_some {page_count P} `{!PageProvider page_count P} (s : P) p s' :
  pp_inv s → alloc_page s = Some (Some p, s') →
  pp_inv s' ∧ ¬ given s p ∧ (∀ q, given s' q ↔ given s q ∨ q = p).
Proof. intros I H. destruct (alloc_law s I) as (r & s1 & E & I1 & L). rewrite H in E. by simplify_eq. Qed.

(** [physical_memory_manager::allocate()] and [free(base)], whose lock is the
    one of the manager, over [buddy_provider]. *)
Definition pmm_allocate (page_count : Z) : ST buddy (option Z) := allocate page_count 1.
Definition pmm_free (page_count base : Z) : ST buddy unit := free page_count base 1.

(** A page the buddy allocator does not have on its lists. *)
Definition free_in (s : buddy) (q : Z) : Prop :=
  ∃ p pg, pages s !! p = Some pg ∧ has_prop pg = true ∧ in_block (property pg) p q.

Lemma free_in_freep page_count s fl q : inv page_count [] s fl → free_in s q ↔ freep fl q.
Proof.
  intros I. split.
  - intros (p & pg & Hp & Hf & Hq). destruct (inv_flag _ _ _ _ I p pg Hp Hf) as [k Hk]; [apply not_elem_of_nil|].
    destruct (inv_head _ _ _ _ I k p Hk) as (pg' & Hp' & _ & E). exists k, p. split; [done|]. congruence.
  - intros (k & p & Hp & Hq). destruct (inv_head _ _ _ _ I k p Hp) as (pg & Hpg & Hf & E).
    exists p, pg. split_and!; [done..|]. congruence.
Qed.

Section buddy_pages.
Context (page_count : Z) (Hpc : page_count <= 2 ^ 63).

Definition buddy_pp_inv (s : buddy) : Prop := ∃ fl, inv page_count [] s fl ∧ clean s fl.
Definition buddy_given (s : buddy) (q : Z) : Prop :=
  0 <= q < page_count ∧ ¬ free_in s q ∧ ∃ z, managed s z q.

Lemma buddy_given_ext s s' fl fl' q :
  inv page_count [] s fl → inv page_count [] s' fl' → stable s s' →
  buddy_given s' q ↔ 0 <= q < page_count ∧ ¬ freep fl' q ∧ ∃ z, managed s z q.
Proof.
  intros I I' St. unfold buddy_given. rewrite (free_in_freep page_count s' fl') by done.
  by setoid_rewrite (stable_managed _ _ _ _ St).
Qed.

#[local] Obligation Tactic := idtac.
#[export] Program Instance buddy_pages : PageProvider page_count buddy := {
  alloc_page := pmm_allocate page_count;
  free_page := pmm_free page_count;
  pp_inv := buddy_pp_inv;
  given := buddy_given;
}.
Next Obligation. by intros s p [? _]. Qed.
Next Obligation.
  intros s (fl & I & Cl). unfold pmm_allocate.
  destruct (allocate_cases page_count Hpc s fl 1 I ltac:(lia)) as [[E [?|?]]|[[E _]|(p & s1 & fl1 & E & [I1 St Fr Fl Cl1])]];
    [lia|done|exists None, s; split; [done|]; split; [by exists fl|done]|].
  destruct (Cl1 Cl) as (Cl' & z & Hz). exists (Some p), s1. split; [done|]. split; [by exists fl1|].
  assert (freep fl p) as Hpf by (apply Fr; lia). split.
  { intros (_ & Hn & _). by apply Hn, (free_in_freep page_count s fl). }
  intros q. rewrite (buddy_given_ext s s1 fl fl1 q I I1 St), (buddy_given_ext s s fl fl q I I (stable_refl s)), Fl.
  split.
  - intros (Hq & Hn & Hm). destruct (decide (q = p)); [by right|left]. split; [done|]. split; [|done].
    intros ?. apply Hn. split; [done|lia].
  - intros [(Hq & Hn & Hm)| ->]; [split; [done|]; split; [by intros [? _]|done]|].
    split; [destruct Hpf as (k & h & Hh & Hb); by eapply (inv_block _ _ _ _ I)|].
    split; [intros [_ Hn]; lia|]. exists z. rewrite <- (stable_managed _ _ _ _ St). apply Hz. lia.
Qed.
Next Obligation.
  intros s p (fl & I & Cl) (Hp & Hn & z & Hz). unfold pmm_free.
  rewrite (free_in_freep page_count s fl) in Hn by done.
  destruct (free_cases page_count Hpc s fl p 1 I) as [[E [?|Hc]]|(s1 & fl1 & E & [I1 St Fl Cl1])].
  { intros q Hq. assert (q = p) as -> by lia. by split. } { lia. } { lia. }
  { exfalso. apply (Hc z). intros q Hq. by assert (q = p) as -> by lia. }
  exists s1. split; [done|]. split.
  { exists fl1. split; [done|]. apply (Cl1 z Cl). intros q Hq. by assert (q = p) as -> by lia. }
  intros q. rewrite (buddy_given_ext s s1 fl fl1 q I I1 St), (buddy_given_ext s s fl fl q I I (stable_refl s)), Fl.
  split.
  - intros (Hq & Hnq & Hm). split; [split; [done|]; split; [tauto|done]|]. intros ->. apply Hnq. right. lia.
  - intros [(Hq & Hnq & Hm) Hne]. split; [done|]. split; [|done]. intros [?|?]; [done|lia].
Qed.
End buddy_pages.

(** ** Theorems *)

(** A page is recovered from its physical and from its virtual address: the
    two sides of the conversion round differently ([pavailable_start] is
    rounded up to a page, [pa_to_page] subtracts the unrounded end of the page
    array and rounds down), and agree. *)
Theorem page_address_roundtrip pages_end page_count p pa :
  KERNEL_VIRTUALBASE <= pages_end → pages_end + PAGE_SIZE < 2 ^ 64 → 0 <= p < page_count →
  page_to_pa pages_end p = Some pa → p * PAGE_SIZE < 2 ^ 63 → pa < PHYMEMORY_SIZE → pa ≠ KERNEL_SIZE →
  pa_to_page pages_end page_count pa = Some p ∧
  ∃ va, page_to_va pages_end p = Some va ∧ va_to_page pages_end page_count va = Some p.
Proof.
  intros H1 H2 Hp Hpa Hsz Hlt Hne.
  destruct (pavailable_start_spec pages_end) as (d & Hs & Hd & Hr); [done..|].
  assert (KERNEL_SIZE = 2 ^ 31) by done. assert (0 < PAGE_SIZE) by done.
  destruct (pa_to_page_ok pages_end page_count H1 H2 p _ d Hs eq_refl Hd Hp) as [E1 E2]; [lia|].
  rewrite Hpa in E1. injection E1 as ->. split; [done|].
  exists (phys_va (pages_end - KERNEL_VIRTUALBASE + d + p * PAGE_SIZE)). unfold page_to_va, va_to_page.
  rewrite Hpa. cbn [mbind option_bind]. rewrite P2V_value, V2P_phys_va by (done || lia). done.
Qed.

Lemma page_address_roundtrip_witness :
  pa_to_page 0xFFFFFFFF80523456 512 0xA00000 = Some 2 ∧
  ∃ va, page_to_va 0xFFFFFFFF80523456 2 = Some va ∧ va_to_page 0xFFFFFFFF80523456 512 va = Some 2.
Proof. apply (page_address_roundtrip 0xFFFFFFFF80523456 512 2 0xA00000); (reflexivity || (vm_compute; (split; congruence) || congruence)). Defined.

(** An address inside a page: [pa_to_page] and so [va_to_page], which rounds
    relative to the end of the page array, finds the page only in its first
    part.  If the page array does not end at a page boundary, the addresses at
    the end of a page ([slack] bytes, the distance from the end of the array to
    the next boundary) belong to the next page for it. *)
Theorem pa_to_page_interior pages_end page_count p off start :
  KERNEL_VIRTUALBASE <= pages_end → pages_end + PAGE_SIZE < 2 ^ 64 → page_count * PAGE_SIZE <= 2 ^ 45 →
  pavailable_start pages_end = Some start → 0 <= p → p + 1 < page_count → 0 <= off < PAGE_SIZE →
  let slack := start - (pages_end - KERNEL_VIRTUALBASE) in
  0 <= slack < PAGE_SIZE ∧
  pa_to_page pages_end page_count (start + p * PAGE_SIZE + off) =
    Some (if off + slack <? PAGE_SIZE then p else p + 1).
Proof.
  intros H1 H2 H3 Hs Hp0 Hp1 Ho slack.
  destruct (pavailable_start_spec pages_end H1 H2) as (d & Hs' & Hd & Hr). rewrite Hs in Hs'. injection Hs' as ->.
  assert (slack = d) as -> by lia. split; [done|]. unfold pa_to_page.
  assert (PAGE_SIZE = 2097152) as EP by done. assert (KERNEL_SIZE = 2 ^ 31) by done.
  assert (KERNEL_VIRTUALBASE = 0xFFFFFFFF80000000) as EK by done.
  rewrite V2P_kernel by lia. cbn [mbind option_bind]. rewrite wrap64_small by (unfold is_u64; lia).
  rewrite rounddown_spec by lia. rewrite Z.mul_comm, Z.div_mul by lia.
  destruct (Z.ltb_spec (off + d) PAGE_SIZE).
  - rewrite <- (Z.div_unique_pos _ PAGE_SIZE p (off + d)) by lia. by rewrite (proj2 (Z.ltb_lt p page_count)) by lia.
  - rewrite <- (Z.div_unique_pos _ PAGE_SIZE (p + 1) (off + d - PAGE_SIZE)) by lia. by rewrite (proj2 (Z.ltb_lt (p + 1) page_count)) by lia.
Qed.

Lemma pa_to_page_interior_witness :
  let slack := 0x600000 - (0xFFFFFFFF80523456 - KERNEL_VIRTUALBASE) in
  0 <= slack < PAGE_SIZE ∧
  pa_to_page 0xFFFFFFFF80523456 512 (0x600000 + 2 * PAGE_SIZE + 0x1fffff) =
    Some (if 0x1fffff + slack <? PAGE_SIZE then 2 else 2 + 1).
Proof.
  apply (pa_to_page_interior 0xFFFFFFFF80523456 512 2 0x1fffff 0x600000); (reflexivity || lia || (vm_compute; (split; congruence) || congruence)).
Defined.
