(* ===== verification/Kmem.v ===== *)
(** * The slab allocator: [kern/memory/pmm/kmem.cc]

    Caches of equally sized objects.  A slab is a page of the page provider:
    its header, an index list ([freelist]) and the objects.  The three rings of
    slabs of a cache are the lists of their members (the rings themselves are
    the subject of PodList); the ring of all caches keeps its links, because
    the code loses track of them.

    Constructor and destructor calls are recorded in [calls].  [sizeof(slab)]
    and [sizeof(kmem_cache)] are parameters, as are the addresses of the two
    static objects [cache_cache] and [cache_head]. *)

From S2P Require Import Prelude Types Links PodList Pmm.

Inductive obj_call :=
  | Ctor (obj cache size : Z)
  | Dtor (obj cache size : Z).

Record slab := Slab {
  slab_cache : loc;
  inuse : Z;
  next_free : Z;
  obj_ptr : Z;
  freelist : gmap Z Z;
}.

Record kmem_cache := Cache {
  full : list loc;
  partial : list loc;
  free_slabs : list loc;
  obj_size : Z;
  obj_count : Z;
  flags : Z;
  ctor : bool;
  dtor : bool;
}.

Record kmem (P : Type) := Kmem {
  prov : P;
  slabs : gmap loc slab;
  caches : gmap loc kmem_cache;
  cache_links : pod_mem;
  calls : list obj_call;
  sized_caches : list loc;
}.
Arguments Kmem {P}.
Arguments prov {P}.
Arguments slabs {P}.
Arguments caches {P}.
Arguments cache_links {P}.
Arguments calls {P}.
Arguments sized_caches {P}.

(** Assignments to the parts of the state and of a cache. *)
Section setters.
Context {P : Type}.
Definition with_prov (v : P) (k : kmem P) := Kmem v (slabs k) (caches k) (cache_links k) (calls k) (sized_caches k).
Definition with_slabs v (k : kmem P) := Kmem (prov k) v (caches k) (cache_links k) (calls k) (sized_caches k).
Definition with_caches v (k : kmem P) := Kmem (prov k) (slabs k) v (cache_links k) (calls k) (sized_caches k).
Definition with_links v (k : kmem P) := Kmem (prov k) (slabs k) (caches k) v (calls k) (sized_caches k).
Definition with_calls v (k : kmem P) := Kmem (prov k) (slabs k) (caches k) (cache_links k) v (sized_caches k).
Definition with_sized v (k : kmem P) := Kmem (prov k) (slabs k) (caches k) (cache_links k) (calls k) v.

Definition on_prov {A} (c : ST P A) : ST (kmem P) A := λ k,
  match c (prov k) with Some (x, p) => Some (x, with_prov p k) | None => None end.
Definition on_links {A} (c : ST pod_mem A) : ST (kmem P) A := λ k,
  match c (cache_links k) with Some (x, m) => Some (x, with_links m k) | None => None end.
Definition lift {A} (o : option A) : ST (kmem P) A := λ k,
  match o with Some x => Some (x, k) | None => None end.

Definition get_cache (c : loc) : ST (kmem P) kmem_cache := λ k, lift (caches k !! c) k.
Definition set_cache (c : loc) (kc : kmem_cache) : ST (kmem P) unit := λ k,
  Some (tt, with_caches (<[c := kc]> (caches k)) k).
Definition get_slab (b : loc) : ST (kmem P) slab := λ k, lift (slabs k !! b) k.
Definition set_slab (b : loc) (sl : slab) : ST (kmem P) unit := λ k,
  Some (tt, with_slabs (<[b := sl]> (slabs k)) k).
Definition call (es : list obj_call) : ST (kmem P) unit := λ k, Some (tt, with_calls (calls k ++ es) k).
Definition drop_slab (b : loc) : ST (kmem P) unit := λ k, Some (tt, with_slabs (delete b (slabs k)) k).
Definition drop_cache (c : loc) : ST (kmem P) unit := λ k, Some (tt, with_caches (delete c (caches k)) k).
Definition new_link (c : loc) : ST (kmem P) unit := λ k,
  Some (tt, with_links (<[c := {| next := null; prev := null |}]> (cache_links k)) k).
Definition add_sized (c : loc) : ST (kmem P) unit := λ k,
  Some (tt, with_sized (sized_caches k ++ [c]) k).
End setters.

Definition with_rings (fu pa fr : list loc) (kc : kmem_cache) : kmem_cache :=
  Cache fu pa fr (obj_size kc) (obj_count kc) (flags kc) (ctor kc) (dtor kc).

(** [list_add(&slb->slab_link, &cache->...)] for the three rings, and
    [list_remove(&slb->slab_link)], which takes the slab out of the one it is on. *)
Definition add_full b kc := with_rings (b :: full kc) (partial kc) (free_slabs kc) kc.
Definition add_partial b kc := with_rings (full kc) (b :: partial kc) (free_slabs kc) kc.
Definition add_free b kc := with_rings (full kc) (partial kc) (b :: free_slabs kc) kc.
Definition unlink (b : loc) (kc : kmem_cache) : kmem_cache :=
  with_rings (filter (λ x, x ≠ b) (full kc)) (filter (λ x, x ≠ b) (partial kc))
    (filter (λ x, x ≠ b) (free_slabs kc)) kc.

Definition KMEM_CACHE_4KALIGN : Z := 1.
Definition aligned (fl : Z) : bool := negb (Z.land fl KMEM_CACHE_4KALIGN =? 0).
Definition FREELIST_END : Z := wrap64 (-1).
Definition KMEM_MAX_SIZED_CACHE_SIZE : Z := 10240.
Definition KMEM_MIN_SIZED_CACHE_SIZE : Z := 16.
Definition KMEM_SIZED_CACHE_COUNT : Z := log2p1 (KMEM_MAX_SIZED_CACHE_SIZE / KMEM_MIN_SIZED_CACHE_SIZE).
Definition sizeof_bufctl : Z := 8.

Definition cache_obj_count (fl size : Z) : Z :=
  let header_size := sizeof_bufctl +w size in
  let header_size := if aligned fl then roundup header_size 4096 else header_size in
  PAGE_SIZE / header_size.

Section code.
Context (pages_end page_count : Z) {P : Type} `{!PageProvider page_count P}.
Context (slab_size cache_size : Z) (cache_cache cache_head : loc).

(** Where the objects of the slab at [block] start. *)
Definition after_freelist_addr (fl cnt block : Z) : Z :=
  let a := wrap64 (block + slab_size + sizeof_bufctl * cnt + 16) in
  if aligned fl then roundup a 4096 else a.

(** The loop of [slab_cache_grow] from iteration [i] on, [n] of them left. *)
Fixpoint init_objects (c : loc) (kc : kmem_cache) (n : nat) (i obj : Z) (fl : gmap Z Z)
  (es : list obj_call) : gmap Z Z * list obj_call :=
  match n with
  | O => (fl, es)
  | S n =>
      let es := if ctor kc then es ++ [Ctor obj c (obj_size kc)] else es in
      init_objects c kc n (i + 1) (obj +w obj_size kc) (<[i := i + 1]> fl) es
  end.

(** Returns the slab, null when the page has no address.  Without a page
    [page_to_va] panics.  An empty slab has no last entry to write. *)
Definition slab_cache_grow (c : loc) : ST (kmem P) loc :=
  kc ← get_cache c;
  page ← on_prov alloc_page;
  page ← lift page;
  block ← lift (page_to_va pages_end page);
  if block =? 0 then mret 0 else
  set_cache c (add_free block kc);;
  let base := after_freelist_addr (flags kc) (obj_count kc) block in
  let '(fl, es) := init_objects c kc (Z.to_nat (obj_count kc)) 0 base ∅ [] in
  call es;;
  kassert (0 <? obj_count kc);;
  set_slab block (Slab c 0 0 base (<[obj_count kc - 1 := FREELIST_END]> fl));;
  mret block.

Definition slab_destory (c b : loc) : ST (kmem P) unit :=
  kc ← get_cache c;
  sl ← get_slab b;
  call (if dtor kc then replicate (Z.to_nat (obj_count kc)) (Dtor (obj_ptr sl) c (obj_size kc)) else []);;
  set_cache c (unlink b kc);;
  page ← lift (va_to_page pages_end page_count b);
  drop_slab b;;
  on_prov (free_page page).

(** The inner loop of [slab_find], over the members of one ring. *)
Fixpoint find_in (kc : kmem_cache) (obj : Z) (l : list loc) : ST (kmem P) (option loc) :=
  match l with
  | [] => mret None
  | b :: l =>
      sl ← get_slab b;
      let obj_end := wrap64 (obj_ptr sl + obj_size kc * obj_count kc) in
      if (obj_ptr sl <=? obj) && (obj <? obj_end) then mret (Some b) else find_in kc obj l
  end.

Definition slab_find (kc : kmem_cache) (obj : Z) : ST (kmem P) (option loc) :=
  r1 ← find_in kc obj (partial kc);
  r2 ← find_in kc obj (full kc);
  mret (match r2 with Some b => Some b | None => r1 end).

(** Takes an object of the slab [entry] of the cache. *)
Definition alloc_from (c entry : loc) : ST (kmem P) Z :=
  kc ← get_cache c;
  sl ← get_slab entry;
  let ret := wrap64 (obj_ptr sl + next_free sl * obj_size kc) in
  let n := inuse sl +w 1 in
  nf ← lift (freelist sl !! next_free sl);
  set_slab entry (Slab (slab_cache sl) n nf (obj_ptr sl) (freelist sl));;
  set_cache c (if n =? obj_count kc then add_full entry (unlink entry kc) else add_partial entry (unlink entry kc));;
  kassert (negb (aligned (flags kc)) || (ret mod 4096 =? 0));;
  mret ret.

Definition kmem_cache_alloc (c : loc) : ST (kmem P) Z :=
  kc ← get_cache c;
  match partial kc, free_slabs kc with
  | b :: _, _ => alloc_from c b
  | [], b :: _ => alloc_from c b
  | [], [] =>
      b ← slab_cache_grow c;
      if b =? 0 then mret 0 else alloc_from c b
  end.

Definition kmem_cache_free (c obj : loc) : ST (kmem P) unit :=
  kassert (negb (obj =? 0) && negb (c =? 0));;
  kc ← get_cache c;
  found ← slab_find kc obj;
  b ← lift found;
  sl ← get_slab b;
  let offset := (obj -w obj_ptr sl) / obj_size kc in
  _ ← lift (freelist sl !! offset);
  let n := inuse sl -w 1 in
  set_slab b (Slab (slab_cache sl) n offset (obj_ptr sl) (<[offset := next_free sl]> (freelist sl)));;
  set_cache c (if n =? 0 then add_free b (unlink b kc) else add_partial b (unlink b kc)).

(** Destroys the slabs of a list, which is read before they are taken off it. *)
Fixpoint destroy_all (c : loc) (l : list loc) : ST (kmem P) unit :=
  match l with
  | [] => mret tt
  | b :: l => slab_destory c b;; destroy_all c l
  end.

Definition kmem_cache_shrink (c : loc) : ST (kmem P) Z :=
  kc ← get_cache c;
  destroy_all c (free_slabs kc);;
  mret (wrap64 (Z.of_nat (length (free_slabs kc)))).

(** The storage of the cache goes back to [cache_cache]: there is no cache at
    its address any more. *)
Definition kmem_cache_destroy (c : loc) : ST (kmem P) unit :=
  kc ← get_cache c;
  destroy_all c (full kc);;
  destroy_all c (partial kc);;
  destroy_all c (free_slabs kc);;
  kmem_cache_free cache_cache c;;
  drop_cache c.

(** The object count is computed while [flags] is still zero.  A null result
    of [kmem_cache_alloc] is constructed in place, an invalid access. *)
Definition kmem_cache_create (size : Z) (has_ctor has_dtor : bool) (fl : Z) : ST (kmem P) loc :=
  kassert (size <? PAGE_SIZE - sizeof_bufctl);;
  ret ← kmem_cache_alloc cache_cache;
  if ret =? 0 then st_fail else
  set_cache ret (Cache [] [] [] size (cache_obj_count 0 size) fl has_ctor has_dtor);;
  new_link ret;;
  on_links (list_add ret cache_head);;
  mret ret.

Fixpoint shrink_all (cs : list loc) (count : Z) : ST (kmem P) Z :=
  match cs with
  | [] => mret count
  | c :: cs => n ← kmem_cache_shrink c; shrink_all cs (count +w n)
  end.

(** [shrink] does not touch the links of the caches. *)
Definition kmem_cache_reap (fuel : nat) : ST (kmem P) Z :=
  cs ← on_links (list_for fuel cache_head);
  shrink_all cs 0.

(** The loop of [kmem_init] that creates the sized caches. *)
Fixpoint sized_loop (fuel : nat) (sz : Z) : ST (kmem P) unit :=
  match fuel with
  | O => st_fail
  | S fuel =>
      if sz <=? KMEM_MAX_SIZED_CACHE_SIZE then
        c ← kmem_cache_create sz false false 0;
        add_sized c;;
        sized_loop fuel (sz * 2)
      else mret tt
  end.

Definition kmem_init (fuel : nat) : ST (kmem P) unit :=
  set_cache cache_cache (Cache [] [] [] cache_size (cache_obj_count 0 cache_size) 0 false false);;
  on_links (list_init cache_head);;
  on_links (list_add cache_cache cache_head);;
  sized_loop fuel KMEM_MIN_SIZED_CACHE_SIZE.
End code.

(** ** The invariant *)

(** The free list of a slab: [i] is the first free index, [fs] all of them. *)
Fixpoint chain (fl : gmap Z Z) (i : Z) (fs : list Z) : Prop :=
  match fs with
  | [] => i = FREELIST_END
  | j :: fs => i = j ∧ ∃ n, fl !! j = Some n ∧ chain fl n fs
  end.

(** The indices met by following the free list. *)
Fixpoint free_walk (fuel : nat) (fl : gmap Z Z) (i : Z) : list Z :=
  match fuel, (fl !! i) with
  | S fuel, Some n => i :: free_walk fuel fl n
  | _, _ => []
  end.

Definition free_slots (kc : kmem_cache) (sl : slab) : list Z :=
  free_walk (Z.to_nat (obj_count kc)) (freelist sl) (next_free sl).

Definition rings (kc : kmem_cache) : list loc := full kc ++ partial kc ++ free_slabs kc.

Definition obj_at (kc : kmem_cache) (sl : slab) (i : Z) : Z := obj_ptr sl + i * obj_size kc.

(** The objects of the cache [c] that are handed out. *)
Definition live {P} (k : kmem P) (c : loc) (o : Z) : Prop :=
  ∃ kc b sl i, caches k !! c = Some kc ∧ b ∈ rings kc ∧ slabs k !! b = Some sl ∧
    0 <= i < obj_count kc ∧ (i ∉ free_slots kc sl) ∧ o = obj_at kc sl i.

Record cache_ok (kc : kmem_cache) : Prop := {
  ok_size : 0 < obj_size kc;
  ok_count : 0 < obj_count kc;
  ok_fits : obj_count kc * (sizeof_bufctl + obj_size kc) <= PAGE_SIZE;
  ok_rings : NoDup (rings kc);
}.

Section invariant.
Context (pages_end page_count : Z) {P : Type} `{!PageProvider page_count P}.
Context (slab_size : Z).

Record slab_ok (c : loc) (kc : kmem_cache) (b : loc) (sl : slab) : Prop := {
  sl_cache : slab_cache sl = c;
  sl_base : obj_ptr sl = after_freelist_addr slab_size (flags kc) (obj_count kc) b;
  sl_dom : ∀ i, is_Some (freelist sl !! i) ↔ 0 <= i < obj_count kc;
  sl_chain : chain (freelist sl) (next_free sl) (free_slots kc sl);
  sl_nodup : NoDup (free_slots kc sl);
  sl_inuse : inuse sl + Z.of_nat (length (free_slots kc sl)) = obj_count kc;
}.

(** The ring a slab is on tells how many of its objects are in use. *)
Definition on_ring (kc : kmem_cache) (b : loc) (sl : slab) : Prop :=
  (b ∈ full kc → inuse sl = obj_count kc) ∧
  (b ∈ partial kc → 0 < inuse sl < obj_count kc) ∧
  (b ∈ free_slabs kc → inuse sl = 0).

Record kinv (k : kmem P) : Prop := {
  kinv_prov : pp_inv (prov k);
  kinv_cache c kc : caches k !! c = Some kc → cache_ok kc;
  kinv_member c kc b : caches k !! c = Some kc → b ∈ rings kc →
    ∃ sl, slabs k !! b = Some sl ∧ slab_ok c kc b sl ∧ on_ring kc b sl;
  kinv_slab b sl : slabs k !! b = Some sl →
    ∃ kc p, caches k !! slab_cache sl = Some kc ∧ b ∈ rings kc ∧
      b ≠ 0 ∧ page_to_va pages_end p = Some b ∧ given (prov k) p;
}.

(** ** Free lists *)

Lemma chain_walk fl i fs fuel :
  chain fl i fs → fl !! FREELIST_END = None → (length fs <= fuel)%nat → free_walk fuel fl i = fs.
Proof.
  revert i fuel. induction fs as [|j fs IH]; intros i fuel Hc Hend Hf; simpl in Hc.
  - subst i. destruct fuel; simpl; [done|by rewrite Hend].
  - destruct Hc as (-> & n & Hn & Hc). destruct fuel as [|fuel]; simpl in *; [lia|].
    rewrite Hn. f_equal. apply IH; [done..|lia].
Qed.

Lemma chain_insert fl i fs j v : chain fl i fs → j ∉ fs → chain (<[j := v]> fl) i fs.
Proof.
  revert i. induction fs as [|x fs IH]; intros i Hc Hj; simpl in *; [done|].
  destruct Hc as (-> & n & Hn & Hc). apply not_elem_of_cons in Hj as [Hj Hj'].
  split; [done|]. exists n. rewrite lookup_insert_ne by done. auto.
Qed.

Lemma no_end_entry (fl : gmap Z Z) cnt : cnt <= PAGE_SIZE → (∀ i, is_Some (fl !! i) ↔ 0 <= i < cnt) → fl !! FREELIST_END = None.
Proof.
  intros Hc Hd. apply eq_None_not_Some. rewrite Hd. intros [_ H].
  assert (PAGE_SIZE < FREELIST_END) by done. lia.
Qed.

Lemma cache_bounds kc : cache_ok kc →
  0 < obj_count kc <= PAGE_SIZE ∧ 0 < obj_size kc <= PAGE_SIZE ∧
  0 < obj_count kc * obj_size kc ∧ obj_count kc * obj_size kc + sizeof_bufctl * obj_count kc <= PAGE_SIZE.
Proof. intros [H1 H2 H3 _]. unfold sizeof_bufctl in *. nia. Qed.

(** Indices [i .. i+n-1] chained in order, as [slab_cache_grow] leaves them. *)
Lemma init_objects_spec c kc n i obj fl es :
  (∀ j, i <= j → fl !! j = None) →
  let fl' := (init_objects c kc n i obj fl es).1 in
  (∀ j, j < i → fl' !! j = fl !! j) ∧ (∀ j, i <= j < i + Z.of_nat n → fl' !! j = Some (j + 1)) ∧
  (∀ j, i + Z.of_nat n <= j → fl' !! j = None).
Proof.
  revert i obj fl es. induction n as [|n IH]; intros i obj fl es Hfl; cbn [init_objects].
  - cbn. split_and!; [done|lia|]. intros j Hj. apply Hfl. lia.
  - match goal with |- context [init_objects c kc n ?i' ?o ?f ?e] => specialize (IH i' o f e) end.
    destruct IH as (I1 & I2 & I3). { intros j Hj. rewrite lookup_insert_ne by lia. apply Hfl. lia. }
    split_and!.
    + intros j Hj. rewrite I1 by lia. by rewrite lookup_insert_ne by lia.
    + intros j Hj. destruct (decide (j = i)) as [->|]; [|apply I2; lia].
      rewrite I1 by lia. by rewrite lookup_insert_eq.
    + intros j Hj. apply I3. lia.
Qed.

Lemma chain_seq (fl : gmap Z Z) i n :
  (0 < n)%nat → (∀ j, i <= j < i + Z.of_nat n - 1 → fl !! j = Some (j + 1)) →
  fl !! (i + Z.of_nat n - 1) = Some FREELIST_END → chain fl i (seqZ i (Z.of_nat n)).
Proof.
  revert i. induction n as [|n IH]; intros i Hn Hj Hl; [lia|].
  rewrite Nat2Z.inj_succ, seqZ_cons by lia. rewrite Z.pred_succ. destruct n as [|n].
  - simpl. split; [done|]. exists FREELIST_END. split; [|done]. rewrite <- Hl. f_equal. lia.
  - split; [done|]. exists (Z.succ i). split; [rewrite Hj by lia; done|].
    apply IH; [lia|intros j ?; apply Hj; lia|]. rewrite <- Hl. f_equal. lia.
Qed.
End invariant.

(** ** The machine the allocator runs on *)

(** The page array ends inside the kernel image, before its last page; at most
    32 TB are managed; no managed page is one of the last two of the address
    space; [cache_cache] is a static object of the kernel image. *)
Record platform (pages_end page_count slab_size : Z) (cache_cache : loc) : Prop := {
  pf_end : KERNEL_VIRTUALBASE <= pages_end;
  pf_end2 : pages_end + PAGE_SIZE < 2 ^ 64;
  pf_mem : page_count * PAGE_SIZE <= 2 ^ 45;
  pf_slab : 0 <= slab_size <= 2 ^ 20;
  pf_gap p b : 0 <= p < page_count → page_to_va pages_end p = Some b → b + 2 * PAGE_SIZE <= 2 ^ 64;
  pf_static : KERNEL_VIRTUALBASE <= cache_cache < pages_end;
}.

Section proofs.
Context (pages_end page_count : Z) {P : Type} `{!PageProvider page_count P}.
Context (slab_size cache_size : Z) (cache_cache cache_head : loc).
Context (Hpf : platform pages_end page_count slab_size cache_cache).
Abbreviation inv := (kinv pages_end page_count slab_size).
Abbreviation base := (after_freelist_addr slab_size).

(** [b] is the address of a page the provider has handed out. *)
Definition page_at (b : loc) : Prop := ∃ p, 0 <= p < page_count ∧ page_to_va pages_end p = Some b ∧ b ≠ 0.

Lemma page_at_range b : page_at b →
  0 < b ∧ b + 2 * PAGE_SIZE <= 2 ^ 64 ∧ (pages_end <= b ∨ b < KERNEL_VIRTUALBASE - 2 ^ 32).
Proof.
  intros (p & Hp & Hb & Hne). destruct Hpf as [H1 H2 H3 H4 H5 H6]. pose proof (H5 p b Hp Hb).
  destruct (page_to_va_range pages_end page_count H1 H2 H3 p b Hp Hb Hne); [|lia].
  assert (0 < KERNEL_VIRTUALBASE) by done. lia.
Qed.

Lemma base_bounds kc b : cache_ok kc → page_at b →
  b <= base (flags kc) (obj_count kc) b ∧
  base (flags kc) (obj_count kc) b + obj_count kc * obj_size kc < b + 2 * PAGE_SIZE.
Proof.
  intros Hok (Hb0 & Hb & _)%page_at_range. pose proof (cache_bounds kc Hok) as (B1 & B2 & B3 & B4).
  pose proof (pf_slab _ _ _ _ Hpf). assert (PAGE_SIZE = 2097152) as EP by done. unfold sizeof_bufctl in *.
  unfold after_freelist_addr, sizeof_bufctl. rewrite wrap64_small by (unfold is_u64; lia).
  destruct (aligned (flags kc)); [|lia].
  destruct (roundup_spec (b + slab_size + 8 * obj_count kc + 16) 4096) as (q & -> & Hq); lia.
Qed.

Lemma base_apart kc b b' : cache_ok kc → page_at b → page_at b' → b + PAGE_SIZE <= b' →
  base (flags kc) (obj_count kc) b + PAGE_SIZE <= base (flags kc) (obj_count kc) b'.
Proof.
  intros Hok (Hb0 & Hb & _)%page_at_range (Hb0' & Hb' & _)%page_at_range Hle.
  pose proof (cache_bounds kc Hok) as (B1 & B2 & B3 & B4).
  pose proof (pf_slab _ _ _ _ Hpf). assert (PAGE_SIZE = 2097152) as EP by done. unfold sizeof_bufctl in *.
  unfold after_freelist_addr, sizeof_bufctl. rewrite !wrap64_small by (unfold is_u64; lia).
  destruct (aligned (flags kc)); [|lia].
  destruct (roundup_spec (b + slab_size + 8 * obj_count kc + 16) 4096) as (q & -> & Hq); [lia..|].
  destruct (roundup_spec (b' + slab_size + 8 * obj_count kc + 16) 4096) as (q' & -> & Hq'); lia.
Qed.

Lemma page_at_apart b b' : page_at b → page_at b' → b ≠ b' → b + PAGE_SIZE <= b' ∨ b' + PAGE_SIZE <= b.
Proof.
  intros (p & Hp & Hb & Hn) (p' & Hp' & Hb' & Hn') Hne. destruct Hpf as [H1 H2 H3 _ _ _].
  apply (page_to_va_apart pages_end page_count H1 H2 H3 p p'); try done. congruence.
Qed.

(** Two objects of one cache whose address ranges overlap are the same. *)
Lemma objects_apart kc b b' sl sl' i i' o :
  cache_ok kc → page_at b → page_at b' →
  obj_ptr sl = base (flags kc) (obj_count kc) b → obj_ptr sl' = base (flags kc) (obj_count kc) b' →
  0 <= i < obj_count kc → 0 <= i' < obj_count kc →
  obj_at kc sl i <= o < obj_at kc sl i + obj_size kc →
  obj_at kc sl' i' <= o < obj_at kc sl' i' + obj_size kc → b = b' ∧ i = i'.
Proof.
  intros Hok Hb Hb' E E' Hi Hi' Ho Ho'. unfold obj_at in *.
  pose proof (cache_bounds kc Hok) as (B1 & B2 & B3 & B4). unfold sizeof_bufctl in *.
  assert (i * obj_size kc + obj_size kc <= obj_count kc * obj_size kc) by nia.
  assert (i' * obj_size kc + obj_size kc <= obj_count kc * obj_size kc) by nia.
  assert (0 <= i * obj_size kc ∧ 0 <= i' * obj_size kc) as [??] by nia.
  destruct (decide (b = b')) as [<-|Hne].
  - split; [done|]. rewrite E in *. rewrite E' in *. nia.
  - destruct (page_at_apart b b') as [Hl|Hl]; [done..| |]; eapply (base_apart kc) in Hl; try done; lia.
Qed.

Lemma obj_at_range kc b sl i : cache_ok kc → page_at b →
  obj_ptr sl = base (flags kc) (obj_count kc) b → 0 <= i < obj_count kc →
  0 < obj_at kc sl i < 2 ^ 64 ∧ 0 < obj_ptr sl <= obj_at kc sl i ∧
  obj_at kc sl i + obj_size kc <= obj_ptr sl + obj_count kc * obj_size kc < 2 ^ 64.
Proof.
  intros Hok Hb E Hi. pose proof (base_bounds kc b Hok Hb). pose proof (page_at_range b Hb) as (? & ? & _).
  pose proof (cache_bounds kc Hok) as (B1 & B2 & B3 & B4). unfold obj_at. rewrite E.
  assert (0 <= i * obj_size kc) by nia. assert (i * obj_size kc + obj_size kc <= obj_count kc * obj_size kc) by nia. lia.
Qed.

Lemma member_page_at k c kc b : inv k → caches k !! c = Some kc → b ∈ rings kc → page_at b.
Proof.
  intros I Hc Hb. destruct (kinv_member _ _ _ _ I c kc b Hc Hb) as (sl & Hsl & _ & _).
  destruct (kinv_slab _ _ _ _ I b sl Hsl) as (kc' & p & _ & _ & Hne & Hp & Hg).
  exists p. split; [by eapply given_range|done].
Qed.

(** A slab is on the rings of one cache only. *)
Lemma member_unique k c c' kc kc' b :
  inv k → caches k !! c = Some kc → b ∈ rings kc → caches k !! c' = Some kc' → b ∈ rings kc' → c = c'.
Proof.
  intros I Hc Hb Hc' Hb'. destruct (kinv_member _ _ _ _ I c kc b Hc Hb) as (sl & Hsl & O & _).
  destruct (kinv_member _ _ _ _ I c' kc' b Hc' Hb') as (sl' & Hsl' & O' & _).
  rewrite Hsl in Hsl'. injection Hsl' as <-. by rewrite <- (sl_cache _ _ _ _ _ O), <- (sl_cache _ _ _ _ _ O').
Qed.

(** *** Changing one slab *)

Definition slot_live (kc : kmem_cache) (sl : slab) (o : Z) : Prop :=
  ∃ i, 0 <= i < obj_count kc ∧ (i ∉ free_slots kc sl) ∧ o = obj_at kc sl i.

Definition live_elsewhere (k : kmem P) (kc : kmem_cache) (b : loc) (o : Z) : Prop :=
  ∃ b' sl', b' ≠ b ∧ b' ∈ rings kc ∧ slabs k !! b' = Some sl' ∧ slot_live kc sl' o.

Lemma live_split k c kc b sl o :
  caches k !! c = Some kc → b ∈ rings kc → slabs k !! b = Some sl →
  live k c o ↔ slot_live kc sl o ∨ live_elsewhere k kc b o.
Proof.
  intros Hc Hb Hsl. split.
  - intros (kc' & b' & sl' & i & Hc' & Hb' & Hsl' & Hi & Hf & Ho). simplify_eq.
    destruct (decide (b' = b)) as [->|]; simplify_eq; [left; by exists i|].
    right. exists b', sl'. split_and!; try done. by exists i.
  - intros [(i & Hi & Hf & Ho)|(b' & sl' & _ & Hb' & Hsl' & i & Hi & Hf & Ho)].
    + by exists kc, b, sl, i.
    + by exists kc, b', sl', i.
Qed.

Lemma slab_ok_rings c kc b sl fu pa fr :
  slab_ok slab_size c kc b sl → slab_ok slab_size c (with_rings fu pa fr kc) b sl.
Proof. by intros []. Qed.

Lemma cache_ok_rings kc fu pa fr :
  cache_ok kc → NoDup (fu ++ pa ++ fr) → cache_ok (with_rings fu pa fr kc).
Proof. by intros []. Qed.

(** The slab [b] of the cache [c] changes, and moves between the rings. *)
Record slab_moved (k k' : kmem P) (c : loc) (kc : kmem_cache) (fu pa fr : list loc) (b : loc) (sl' : slab) : Prop := {
  mv_perm : fu ++ pa ++ fr ≡ₚ rings kc;
  mv_full b' : b' ≠ b → b' ∈ fu → b' ∈ full kc;
  mv_partial b' : b' ≠ b → b' ∈ pa → b' ∈ partial kc;
  mv_free b' : b' ≠ b → b' ∈ fr → b' ∈ free_slabs kc;
  mv_ok : slab_ok slab_size c kc b sl';
  mv_ring : on_ring (with_rings fu pa fr kc) b sl';
  mv_prov : prov k' = prov k;
  mv_slabs : slabs k' = <[b := sl']> (slabs k);
  mv_caches : caches k' = <[c := with_rings fu pa fr kc]> (caches k);
}.

Lemma slab_moved_inv k k' c kc fu pa fr b sl' :
  inv k → caches k !! c = Some kc → b ∈ rings kc → slab_moved k k' c kc fu pa fr b sl' → inv k'.
Proof.
  intros I Hc Hb [Hp Hf1 Hf2 Hf3 Hok Hr Ep Es Ec].
  assert (∀ b', b' ∈ rings (with_rings fu pa fr kc) ↔ b' ∈ rings kc) as Hm.
  { intros b'. unfold rings at 1. simpl. by rewrite Hp. }
  split; rewrite ?Ep, ?Es, ?Ec.
  - apply (kinv_prov _ _ _ _ I).
  - intros c' kc' [[<- <-]|[_ Hc']]%lookup_insert_Some; [|by eapply kinv_cache].
    pose proof (kinv_cache _ _ _ _ I c kc Hc) as Hk. apply cache_ok_rings; [done|].
    eapply NoDup_perm; [symmetry; exact Hp|]. apply Hk.
  - intros c' kc' b' [[<- <-]|[Hne Hc']]%lookup_insert_Some Hb'.
    + apply Hm in Hb'. destruct (decide (b' = b)) as [->|Hn].
      { exists sl'. rewrite lookup_insert_eq. split; [done|]. split; [by apply slab_ok_rings|apply Hr]. }
      rewrite lookup_insert_ne by done.
      destruct (kinv_member _ _ _ _ I c kc b' Hc Hb') as (sl1 & Hsl1 & O & (R1 & R2 & R3)).
      exists sl1. split; [done|]. split; [by apply slab_ok_rings|]. split_and!; simpl; eauto.
    + rewrite lookup_insert_ne; [by eapply kinv_member|]. intros ->. apply Hne.
      by eapply member_unique.
  - intros b' sl1 [[<- <-]|[Hn Hsl1]]%lookup_insert_Some.
    + rewrite (sl_cache _ _ _ _ _ Hok), lookup_insert_eq.
      destruct (kinv_member _ _ _ _ I c kc b Hc Hb) as (sl & Hsl & O & _).
      destruct (kinv_slab _ _ _ _ I b sl Hsl) as (kc1 & p & Hc1 & _ & Hp1).
      exists (with_rings fu pa fr kc), p. split; [done|]. split; [by apply Hm|done].
    + destruct (kinv_slab _ _ _ _ I b' sl1 Hsl1) as (kc1 & p & Hc1 & Hb1 & Hp1).
      destruct (decide (slab_cache sl1 = c)) as [E|E].
      * exists (with_rings fu pa fr kc), p. rewrite E, lookup_insert_eq. rewrite E in Hc1. simplify_eq.
        split; [done|]. split; [by apply Hm|done].
      * exists kc1, p. by rewrite lookup_insert_ne by done.
Qed.

Lemma slab_moved_live k k' c kc fu pa fr b sl' c' o :
  inv k → caches k !! c = Some kc → b ∈ rings kc → slab_moved k k' c kc fu pa fr b sl' →
  live k' c' o ↔ if decide (c' = c) then slot_live kc sl' o ∨ live_elsewhere k kc b o else live k c' o.
Proof.
  intros I Hc Hb [Hp Hf1 Hf2 Hf3 Hok Hr Ep Es Ec].
  assert (∀ b', b' ∈ rings (with_rings fu pa fr kc) ↔ b' ∈ rings kc) as Hm.
  { intros b'. unfold rings at 1. simpl. by rewrite Hp. }
  case_decide as Hcc; [subst c'|].
  - rewrite (live_split k' c (with_rings fu pa fr kc) b sl'); [|by rewrite Ec, lookup_insert_eq|by apply Hm|
      by rewrite Es, lookup_insert_eq].
    apply or_iff_compat_l. unfold live_elsewhere. rewrite Es.
    split; intros (b1 & sl1 & Hn & Hb1 & Hsl1 & Hl); exists b1, sl1.
    + rewrite lookup_insert_ne in Hsl1 by done. by rewrite <- Hm.
    + rewrite lookup_insert_ne by done. by rewrite Hm.
  - unfold live. rewrite Ec, Es.
    split; intros (kc1 & b1 & sl1 & i & Hc1 & Hb1 & Hsl1 & Hl); exists kc1, b1, sl1, i;
      rewrite lookup_insert_ne in * by done; (rewrite lookup_insert_ne in *; [done|]);
      intros ->; apply Hcc; by eapply member_unique.
Qed.

Lemma chain_dom (fl : gmap Z Z) i fs j : chain fl i fs → j ∈ fs → is_Some (fl !! j).
Proof.
  revert i. induction fs as [|x fs IH]; intros i Hc; [by intros []%not_elem_of_nil|].
  destruct Hc as (-> & n & Hn & Hc). intros [->|Hj]%elem_of_cons; [by exists n|by eapply IH].
Qed.

Lemma free_slots_range c kc b sl i : slab_ok slab_size c kc b sl → i ∈ free_slots kc sl → 0 <= i < obj_count kc.
Proof. intros O Hi. apply (sl_dom _ _ _ _ _ O). eapply chain_dom; [|done]. apply O. Qed.

Lemma indices_bounded (l : list Z) n : NoDup l → (∀ i, i ∈ l → 0 <= i < n) → Z.of_nat (length l) <= Z.max 0 n.
Proof.
  intros Hnd Hr. assert (length l <= length (seqZ 0 n))%nat.
  { apply submseteq_length, NoDup_submseteq; [done|]. intros i Hi. apply elem_of_seqZ. specialize (Hr i Hi). lia. }
  rewrite length_seqZ in *. lia.
Qed.

(** Taking the first free index of a slab, and giving an index back. *)
Lemma take_slot c kc b sl i fs :
  cache_ok kc → slab_ok slab_size c kc b sl → free_slots kc sl = i :: fs →
  next_free sl = i ∧ ∃ nf, freelist sl !! i = Some nf ∧
    let sl' := Slab (slab_cache sl) (inuse sl + 1) nf (obj_ptr sl) (freelist sl) in
    slab_ok slab_size c kc b sl' ∧ free_slots kc sl' = fs ∧ inuse sl + 1 <= obj_count kc ∧ 0 <= inuse sl.
Proof.
  intros Hok [O1 O2 O3 O4 O5 O6] E. rewrite E in *. destruct O4 as (En & nf & Hnf & Hch).
  split; [done|]. exists nf. split; [done|]. intros sl'.
  pose proof (cache_bounds kc Hok) as (B1 & _). simpl in O6.
  assert (Z.of_nat (length (i :: fs)) <= Z.max 0 (obj_count kc)) as HL.
  { apply indices_bounded; [done|]. intros j Hj. apply O3. eapply (chain_dom _ i (i :: fs)); [|done].
    split; [done|]. by exists nf. }
  simpl in HL. assert (free_slots kc sl' = fs) as Efs.
  { apply chain_walk; [done| |lia]. apply (no_end_entry _ (obj_count kc)); [lia|done]. }
  apply NoDup_cons in O5 as [_ O5]. split; [|split; [done|lia]].
  split; rewrite ?Efs; try done. simpl. lia.
Qed.

Lemma put_slot c kc b sl i :
  cache_ok kc → slab_ok slab_size c kc b sl → 0 <= i < obj_count kc → i ∉ free_slots kc sl →
  let sl' := Slab (slab_cache sl) (inuse sl - 1) i (obj_ptr sl) (<[i := next_free sl]> (freelist sl)) in
  is_Some (freelist sl !! i) ∧ slab_ok slab_size c kc b sl' ∧ free_slots kc sl' = i :: free_slots kc sl ∧
  1 <= inuse sl <= obj_count kc.
Proof.
  intros Hok O Hi Hni sl'. pose proof O as [O1 O2 O3 O4 O5 O6]. pose proof (cache_bounds kc Hok) as (B1 & _).
  assert (NoDup (i :: free_slots kc sl)) as Hnd by by apply NoDup_cons.
  assert (Z.of_nat (length (i :: free_slots kc sl)) <= Z.max 0 (obj_count kc)) as HL.
  { apply indices_bounded; [done|]. intros j [->|Hj]%elem_of_cons; [done|]. by eapply free_slots_range. }
  simpl in HL. assert (∀ j, is_Some (freelist sl' !! j) ↔ 0 <= j < obj_count kc) as Hd.
  { intros j. simpl. destruct (decide (j = i)) as [->|]; [rewrite lookup_insert_eq|by rewrite lookup_insert_ne].
    split; [done|by intros _; eexists]. }
  assert (chain (freelist sl') i (i :: free_slots kc sl)) as Hch.
  { split; [done|]. exists (next_free sl). simpl. rewrite lookup_insert_eq. split; [done|]. by apply chain_insert. }
  assert (free_slots kc sl' = i :: free_slots kc sl) as Efs.
  { apply chain_walk; [done| |simpl; lia]. apply (no_end_entry _ (obj_count kc)); [lia|done]. }
  split; [by apply O3|]. split; [|split; [done|lia]].
  split; rewrite ?Efs; try done. simpl. lia.
Qed.

(** *** The rings *)

Lemma filter_out (b : loc) (l : list loc) : NoDup l → b ∈ l → b :: filter (λ x, x ≠ b) l ≡ₚ l.
Proof.
  intros Hnd (l1 & l2 & ->)%list_elem_of_split. apply NoDup_app in Hnd as (_ & Hd & [Hb2 _]%NoDup_cons).
  assert (b ∉ l1) as Hb1. { intros Hb. eapply Hd; [done|left]. }
  rewrite filter_app, filter_cons_False by tauto. rewrite !filter_absent by done. solve_Permutation.
Qed.

Lemma rings_unlink b kc : rings (unlink b kc) = filter (λ x, x ≠ b) (rings kc).
Proof. unfold rings. by rewrite !filter_app. Qed.

Lemma elem_of_unlink kc b b' : b' ≠ b →
  (b' ∈ full (unlink b kc) → b' ∈ full kc) ∧ (b' ∈ partial (unlink b kc) → b' ∈ partial kc) ∧
  (b' ∈ free_slabs (unlink b kc) → b' ∈ free_slabs kc).
Proof. intros _. simpl. split_and!; intros [_ ?]%list_elem_of_filter; done. Qed.

Lemma unlink_gone kc b : b ∉ rings (unlink b kc).
Proof. rewrite rings_unlink. by intros [? _]%list_elem_of_filter. Qed.

(** The slab [b] put back on one of the rings, according to its use count. *)
Lemma moved_to k k' c kc b sl' kc' :
  inv k → caches k !! c = Some kc → b ∈ rings kc → slab_ok slab_size c kc b sl' →
  (inuse sl' = obj_count kc ∧ kc' = add_full b (unlink b kc)) ∨
  (0 < inuse sl' < obj_count kc ∧ kc' = add_partial b (unlink b kc)) ∨
  (inuse sl' = 0 ∧ kc' = add_free b (unlink b kc)) →
  prov k' = prov k → slabs k' = <[b := sl']> (slabs k) → caches k' = <[c := kc']> (caches k) →
  slab_moved k k' c kc (full kc') (partial kc') (free_slabs kc') b sl'.
Proof.
  intros I Hc Hb Hok Hcase Ep Es Ec. pose proof (kinv_cache _ _ _ _ I c kc Hc) as Hk.
  pose proof (filter_out b (rings kc) (ok_rings _ Hk) Hb) as Hperm. rewrite <- rings_unlink in Hperm.
  pose proof (unlink_gone kc b) as Hg. unfold rings in Hg. rewrite !elem_of_app in Hg.
  pose proof (λ b', elem_of_unlink kc b b') as Hel.
  split; try done.
  - unfold rings in *. rewrite <- Hperm.
    destruct Hcase as [[_ ->]|[[_ ->]|[_ ->]]]; cbn [full partial free_slabs add_full add_partial add_free with_rings];
      solve_Permutation.
  - intros b' Hn. destruct Hcase as [[_ ->]|[[_ ->]|[_ ->]]]; cbn [full add_full add_partial add_free with_rings];
      rewrite ?elem_of_cons; specialize (Hel b' Hn); tauto.
  - intros b' Hn. destruct Hcase as [[_ ->]|[[_ ->]|[_ ->]]]; cbn [partial add_full add_partial add_free with_rings];
      rewrite ?elem_of_cons; specialize (Hel b' Hn); tauto.
  - intros b' Hn. destruct Hcase as [[_ ->]|[[_ ->]|[_ ->]]]; cbn [free_slabs add_full add_partial add_free with_rings];
      rewrite ?elem_of_cons; specialize (Hel b' Hn); tauto.
  - unfold on_ring. destruct Hcase as [[? ->]|[[? ->]|[? ->]]];
      cbn [full partial free_slabs obj_count add_full add_partial add_free with_rings]; tauto.
  - rewrite Ec. destruct Hcase as [[_ ->]|[[_ ->]|[_ ->]]]; done.
Qed.

(** What an allocation and a release do to the objects handed out. *)
Record allocated (k k' : kmem P) (c : loc) (o : Z) : Prop := {
  al_inv : inv k';
  al_fresh : ¬ live k c o;
  al_live c' o' : live k' c' o' ↔ live k c' o' ∨ c' = c ∧ o' = o;
}.

Lemma slot_elsewhere k c kc b sl i :
  inv k → caches k !! c = Some kc → b ∈ rings kc → slabs k !! b = Some sl → 0 <= i < obj_count kc →
  ¬ live_elsewhere k kc b (obj_at kc sl i).
Proof.
  intros I Hc Hb Hsl Hi (b' & sl' & Hn & Hb' & Hsl' & j & Hj & _ & E).
  pose proof (kinv_cache _ _ _ _ I c kc Hc) as Hk. pose proof (ok_size _ Hk).
  destruct (kinv_member _ _ _ _ I c kc b Hc Hb) as (sl1 & Hsl1 & O & _).
  destruct (kinv_member _ _ _ _ I c kc b' Hc Hb') as (sl2 & Hsl2 & O' & _). simplify_eq.
  destruct (objects_apart kc b' b sl' sl j i (obj_at kc sl i)) as [-> _]; try done; try lia;
    [by eapply member_page_at|by eapply member_page_at|apply O'|apply O].
Qed.

Lemma slot_inj kc sl i j : cache_ok kc → obj_at kc sl i = obj_at kc sl j → i = j.
Proof. intros H%ok_size E. unfold obj_at in E. nia. Qed.

(** *** Allocation from a slab *)

Lemma run_get_cache (k : kmem P) c kc : caches k !! c = Some kc → get_cache c k = Some (kc, k).
Proof. unfold get_cache, lift. by intros ->. Qed.
Lemma run_get_slab (k : kmem P) b sl : slabs k !! b = Some sl → get_slab b k = Some (sl, k).
Proof. unfold get_slab, lift. by intros ->. Qed.
Lemma run_lift {A} (k : kmem P) (o : option A) x : o = Some x → lift o k = Some (x, k).
Proof. unfold lift. by intros ->. Qed.

(** The object whose address the code computes, and the assertion on it. *)
Definition align_ok (kc : kmem_cache) (o : Z) : bool := negb (aligned (flags kc)) || (o mod 4096 =? 0).

(** Parts of the state the operations on objects leave alone. *)
Definition same_rest (k k' : kmem P) : Prop :=
  cache_links k' = cache_links k ∧ sized_caches k' = sized_caches k.

(** The caches there are, and their parameters, are the same. *)
Definition params (kc : kmem_cache) := (obj_size kc, obj_count kc, flags kc, ctor kc, dtor kc).
Definition same_caches (k k' : kmem P) : Prop := ∀ c, params <$> caches k' !! c = params <$> caches k !! c.

Lemma same_caches_iff k k' c : same_caches k k' → is_Some (caches k' !! c) ↔ is_Some (caches k !! c).
Proof. intros H. specialize (H c). by rewrite <- !(fmap_is_Some params), H. Qed.

Lemma alloc_from_ok k c kc b :
  inv k → caches k !! c = Some kc → b ∈ rings kc → b ∉ full kc →
  ∃ o k' sl, slabs k !! b = Some sl ∧ o = obj_at kc sl (next_free sl) ∧
    alloc_from c b k = (if align_ok kc o then Some (o, k') else None) ∧
    allocated k k' c o ∧ 0 < o < 2 ^ 64 ∧ same_rest k k'.
Proof.
  intros I Hc Hb Hnf. pose proof (kinv_cache _ _ _ _ I c kc Hc) as Hk. pose proof (cache_bounds kc Hk) as (B1 & _).
  destruct (kinv_member _ _ _ _ I c kc b Hc Hb) as (sl & Hsl & O & (_ & R2 & R3)).
  assert (inuse sl < obj_count kc) as Hlt.
  { unfold rings in Hb. rewrite !elem_of_app in Hb. destruct Hb as [?|[?|?]]; [done|apply R2; done|]. rewrite R3 by done. lia. }
  pose proof (sl_inuse _ _ _ _ _ O) as Hcnt. destruct (free_slots kc sl) as [|i fs] eqn:Efs; [simpl in *; lia|].
  destruct (take_slot c kc b sl i fs Hk O Efs) as (Ei & nf & Hnf' & O' & Efs' & Hle & H0).
  set (sl' := Slab _ _ _ _ _) in O', Efs'.
  assert (0 <= i < obj_count kc) as Hi. { apply (free_slots_range c kc b sl); [done|]. rewrite Efs. left. }
  assert (page_at b) as Hpg by by eapply member_page_at.
  destruct (obj_at_range kc b sl i Hk Hpg (sl_base _ _ _ _ _ O) Hi) as (Ho & _ & _).
  set (kc' := if inuse sl + 1 =? obj_count kc then add_full b (unlink b kc) else add_partial b (unlink b kc)).
  set (k' := with_caches (<[c := kc']> (caches k)) (with_slabs (<[b := sl']> (slabs k)) k)).
  exists (obj_at kc sl i), k', sl. split; [done|]. split; [by rewrite Ei|]. split; [|split; [|done]].
  - unfold alloc_from. run with run_get_cache; [|done]. run with run_get_slab; [|done].
    rewrite Ei. run with @run_lift; [|done]. assert (PAGE_SIZE < 2 ^ 63) by done.
    rewrite (wrap64_small (inuse sl + 1)) by (unfold is_u64; lia).
    unfold align_ok. rewrite wrap64_small by (unfold obj_at in *; unfold is_u64; lia). unfold obj_at.
    unfold mbind, ST_bind, set_slab, set_cache, kassert. by destruct (_ || _).
  - assert (slab_moved k k' c kc (full kc') (partial kc') (free_slabs kc') b sl') as M.
    { eapply moved_to; try done. subst kc'. simpl. destruct (Z.eqb_spec (inuse sl + 1) (obj_count kc)); [by left|].
      right; left. split; [lia|done]. }
    split; [by eapply slab_moved_inv| |].
    + rewrite (live_split k c kc b sl) by done. intros [(j & Hj & Hnj & E)|?]; [|by eapply slot_elsewhere].
      apply slot_inj in E as <-; [|done]. apply Hnj. rewrite Efs. left.
    + intros c' o'. rewrite (slab_moved_live _ _ _ _ _ _ _ _ _ c' o' I Hc Hb M). case_decide as Hcc; [subst c'|by intuition].
      rewrite (live_split k c kc b sl) by done. unfold slot_live. rewrite Efs, Efs'.
      assert (NoDup (i :: fs)) as [Hnd _]%NoDup_cons by (rewrite <- Efs; apply O).
      split; [intros [(j & Hj & Hnj & ->)|?]; [|tauto]|intros [[(j & Hj & Hnj & ->)|?]|[_ ->]]; [|tauto|]].
      * destruct (decide (j = i)) as [->|]; [by right|]. left; left. exists j. by rewrite not_elem_of_cons.
      * left. exists j. by apply not_elem_of_cons in Hnj as [_ ?].
      * left. by exists i.
Qed.

(** *** Release *)

Lemma find_in_ok k c kc b sl i o l :
  inv k → caches k !! c = Some kc → b ∈ rings kc → slabs k !! b = Some sl → 0 <= i < obj_count kc →
  obj_at kc sl i <= o < obj_at kc sl i + obj_size kc → (∀ b', b' ∈ l → b' ∈ rings kc) →
  find_in kc o l k = Some (if decide (b ∈ l) then Some b else None, k).
Proof.
  intros I Hc Hb Hsl Hi Ho. pose proof (kinv_cache _ _ _ _ I c kc Hc) as Hk.
  destruct (kinv_member _ _ _ _ I c kc b Hc Hb) as (sl0 & Hsl0 & O & _). simplify_eq.
  assert (page_at b) as Hpg by by eapply member_page_at.
  destruct (obj_at_range kc b sl i Hk Hpg (sl_base _ _ _ _ _ O) Hi) as (R1 & R2 & R3).
  induction l as [|b1 l IH]; intros Hl; [done|]. cbn [find_in].
  assert (b1 ∈ rings kc) as Hb1 by (apply Hl; left).
  destruct (kinv_member _ _ _ _ I c kc b1 Hc Hb1) as (sl1 & Hsl1 & O1 & _).
  run with run_get_slab; [|done]. assert (page_at b1) as Hpg1 by by eapply member_page_at.
  pose proof (ok_size _ Hk) as Hs. pose proof (ok_count _ Hk) as Hct.
  destruct (obj_at_range kc b1 sl1 0 Hk Hpg1 (sl_base _ _ _ _ _ O1) ltac:(lia)) as (Q1 & Q2 & Q3).
  rewrite wrap64_small by (unfold is_u64; unfold obj_at in *; lia).
  destruct (decide (b1 = b)) as [->|Hne].
  - simplify_eq. rewrite (proj2 (Z.leb_le _ _)), (proj2 (Z.ltb_lt _ _)) by lia. simpl. by rewrite decide_True by left.
  - assert ((obj_ptr sl1 <=? o) && (o <? obj_ptr sl1 + obj_size kc * obj_count kc) = false) as ->.
    { apply not_true_iff_false. rewrite andb_true_iff, Z.leb_le, Z.ltb_lt. intros [L1 L2]. apply Hne.
      pose proof (Z.div_mod (o - obj_ptr sl1) (obj_size kc) ltac:(lia)). pose proof (Z.mod_pos_bound (o - obj_ptr sl1) (obj_size kc) Hs).
      eapply (objects_apart kc b1 b sl1 sl ((o - obj_ptr sl1) / obj_size kc) i o); try done; [apply O1|apply O| |unfold obj_at; lia].
      split; [apply Z.div_pos; lia|apply Z.div_lt_upper_bound; lia]. }
    rewrite IH by (intros b' ?; apply Hl; by right). f_equal. f_equal.
    apply decide_ext. rewrite elem_of_cons. intuition congruence.
Qed.

(** An object of the cache is given back: everything else stays handed out. *)
Record released (k k' : kmem P) (c : loc) (o : Z) : Prop := {
  rl_inv : inv k';
  rl_live c' o' : live k' c' o' ↔ live k c' o' ∧ ¬ (c' = c ∧ o' = o);
}.

Lemma slab_find_ok k c kc b sl i o :
  inv k → caches k !! c = Some kc → b ∈ rings kc → b ∉ free_slabs kc → slabs k !! b = Some sl →
  0 <= i < obj_count kc → obj_at kc sl i <= o < obj_at kc sl i + obj_size kc →
  slab_find kc o k = Some (Some b, k).
Proof.
  intros I Hc Hb Hnf Hsl Hi Ho. unfold slab_find.
  rewrite (bind_run _ _ _ _ _ (find_in_ok k c kc b sl i o (partial kc) I Hc Hb Hsl Hi Ho
    ltac:(intros; unfold rings; rewrite !elem_of_app; auto))).
  rewrite (bind_run _ _ _ _ _ (find_in_ok k c kc b sl i o (full kc) I Hc Hb Hsl Hi Ho
    ltac:(intros; unfold rings; rewrite !elem_of_app; auto))).
  unfold rings in Hb. rewrite !elem_of_app in Hb. repeat case_decide; try done. tauto.
Qed.

Lemma kmem_cache_free_ok k c o :
  inv k → c ≠ 0 → live k c o →
  ∃ k', kmem_cache_free c o k = Some (tt, k') ∧ released k k' c o ∧ same_rest k k' ∧
    same_caches k k' ∧ (∀ c', c' ≠ c → caches k' !! c' = caches k !! c').
Proof.
  intros I Hc0 (kc & b & sl & i & Hc & Hb & Hsl & Hi & Hni & ->).
  pose proof (kinv_cache _ _ _ _ I c kc Hc) as Hk. pose proof (cache_bounds kc Hk) as (B1 & B2 & _).
  destruct (kinv_member _ _ _ _ I c kc b Hc Hb) as (sl0 & Hsl0 & O & (_ & _ & R3)). simplify_eq.
  assert (page_at b) as Hpg by by eapply member_page_at.
  destruct (obj_at_range kc b sl i Hk Hpg (sl_base _ _ _ _ _ O) Hi) as (Ho & Ho2 & _).
  destruct (put_slot c kc b sl i Hk O Hi Hni) as ([nf Hnf] & O' & Efs' & Hle).
  set (sl' := Slab _ _ _ _ _) in O', Efs'.
  set (kc' := if inuse sl - 1 =? 0 then add_free b (unlink b kc) else add_partial b (unlink b kc)).
  set (k' := with_caches (<[c := kc']> (caches k)) (with_slabs (<[b := sl']> (slabs k)) k)).
  assert (slab_moved k k' c kc (full kc') (partial kc') (free_slabs kc') b sl') as M.
  { eapply moved_to; try done. subst kc'. simpl. destruct (Z.eqb_spec (inuse sl - 1) 0); [by right; right|].
    right; left. split; [lia|done]. }
  exists k'. split; [|split; [split|split; [|split]]].
  - unfold kmem_cache_free. rewrite (bind_run _ _ _ tt k).
    2:{ apply kassert_true. rewrite andb_true_iff, !negb_true_iff, !Z.eqb_neq. lia. }
    run with run_get_cache; [|done].
    rewrite (bind_run _ _ _ (Some b) k).
    2:{ eapply slab_find_ok; try done; [|lia]. intros Hf. specialize (R3 Hf). lia. }
    run with @run_lift; [|done]. run with run_get_slab; [|done].
    assert ((obj_at kc sl i -w obj_ptr sl) / obj_size kc = i) as ->.
    { rewrite wrap64_small by (unfold is_u64; unfold obj_at in *; lia).
      unfold obj_at. rewrite (Z.add_comm (obj_ptr sl)), Z.add_simpl_r. apply Z.div_mul. lia. }
    run with @run_lift; [|done]. rewrite (wrap64_small (inuse sl - 1)).
    2:{ assert (PAGE_SIZE < 2 ^ 63) by done. unfold is_u64. lia. }
    done.
  - by eapply slab_moved_inv.
  - intros c' o'. rewrite (slab_moved_live _ _ _ _ _ _ _ _ _ c' o' I Hc Hb M). case_decide as Hcc; [subst c'|by intuition].
    rewrite (live_split k c kc b sl) by done. unfold slot_live. rewrite Efs'. split.
    + intros [(j & Hj & Hnj & ->)|Hl].
      * apply not_elem_of_cons in Hnj as [??]. split; [left; by exists j|].
        intros [_ E]. by apply (slot_inj kc sl j i) in E.
      * split; [by right|]. intros [_ ->]. by eapply slot_elsewhere.
    + intros [[(j & Hj & Hnj & ->)|Hl] Hne]; [|by right]. left. exists j. rewrite not_elem_of_cons.
      split_and!; try done; try lia. intros ->. by apply Hne.
  - done.
  - intros c'. cbn [caches with_caches with_slabs k'].
    destruct (decide (c' = c)) as [->|]; [|by rewrite lookup_insert_ne].
    rewrite lookup_insert_eq, Hc. simpl. f_equal. unfold kc'. by case_match.
  - intros c' Hne. cbn [caches with_caches with_slabs k']. by rewrite lookup_insert_ne.
Qed.

(** *** Growing a cache *)

Lemma grow_slots c kc b es :
  cache_ok kc →
  let base := base (flags kc) (obj_count kc) b in
  let fl := (init_objects c kc (Z.to_nat (obj_count kc)) 0 base ∅ es).1 in
  let sl := Slab c 0 0 base (<[obj_count kc - 1 := FREELIST_END]> fl) in
  slab_ok slab_size c kc b sl ∧ free_slots kc sl = seqZ 0 (obj_count kc).
Proof.
  intros Hk base0 fl sl. pose proof (cache_bounds kc Hk) as (B1 & _).
  destruct (init_objects_spec c kc (Z.to_nat (obj_count kc)) 0 base0 ∅ es) as (_ & F2 & F3); [done|].
  fold fl in F2, F3. rewrite Z2Nat.id in F2, F3 by lia.
  assert (∀ i, is_Some (freelist sl !! i) ↔ 0 <= i < obj_count kc) as Hd.
  { intros i. simpl. destruct (decide (i = obj_count kc - 1)) as [->|].
    { rewrite lookup_insert_eq. split; [lia|by eexists]. }
    rewrite lookup_insert_ne by done. destruct (decide (0 <= i < obj_count kc)).
    { rewrite F2 by lia. split; [lia|by eexists]. }
    split; [|lia]. intros [v Hv]. destruct (decide (i < 0)); [|by rewrite F3 in Hv by lia].
    destruct (init_objects_spec c kc (Z.to_nat (obj_count kc)) 0 base0 ∅ es) as (F1 & _); [done|].
    fold fl in F1. by rewrite F1 in Hv by lia. }
  assert (chain (freelist sl) 0 (seqZ 0 (obj_count kc))) as Hch.
  { replace (obj_count kc) with (Z.of_nat (Z.to_nat (obj_count kc))) at 1 by lia. apply chain_seq; [lia| |].
    - intros j Hj. simpl. rewrite lookup_insert_ne by lia. apply F2. lia.
    - simpl. replace (0 + _ - 1) with (obj_count kc - 1) by lia. by rewrite lookup_insert_eq. }
  assert (free_slots kc sl = seqZ 0 (obj_count kc)) as E.
  { apply chain_walk; [done| |rewrite length_seqZ; lia]. apply (no_end_entry _ (obj_count kc)); [lia|done]. }
  split; [|done]. split; rewrite ?E; try done; [apply NoDup_seqZ|]. rewrite length_seqZ. simpl. lia.
Qed.

Lemma live_ext (k k' : kmem P) : slabs k' = slabs k → caches k' = caches k → ∀ c o, live k' c o ↔ live k c o.
Proof. unfold live. by intros -> ->. Qed.

(** A slab without objects in use joins the free slabs of its cache: its page
    was handed out by the provider between [k] and [k']. *)
Record slab_added (k k' : kmem P) (c : loc) (kc : kmem_cache) (b p : loc) (sl : slab) : Prop := {
  ad_page : page_to_va pages_end p = Some b;
  ad_null : b ≠ 0;
  ad_fresh : ¬ given (prov k) p;
  ad_prov : pp_inv (prov k');
  ad_given q : given (prov k') q ↔ given (prov k) q ∨ q = p;
  ad_ok : slab_ok slab_size c kc b sl;
  ad_slots : free_slots kc sl = seqZ 0 (obj_count kc);
  ad_slabs : slabs k' = <[b := sl]> (slabs k);
  ad_caches : caches k' = <[c := add_free b kc]> (caches k);
}.

Lemma slab_added_new k k' c kc b p sl :
  inv k → slab_added k k' c kc b p sl →
  slabs k !! b = None ∧ ∀ c' kc', caches k !! c' = Some kc' → b ∉ rings kc'.
Proof.
  intros I [Hb Hb0 Hng Hpp Hg _ _ _ _].
  assert (slabs k !! b = None) as Hnew.
  { apply eq_None_not_Some. intros [sl1 Hsl1]. destruct (kinv_slab _ _ _ _ I b sl1 Hsl1) as (_ & q & _ & _ & _ & Hq & Hgq).
    destruct Hpf as [H1 H2 H3 _ _ _]. destruct (decide (p = q)) as [->|Hne]; [done|]. assert (PAGE_SIZE = 2097152) by done.
    destruct (page_to_va_apart pages_end page_count H1 H2 H3 p q b b); try done;
      [eapply given_range, Hg; by right|by eapply given_range|lia..]. }
  split; [done|]. intros c' kc' Hc' Hin.
  destruct (kinv_member _ _ _ _ I c' kc' b Hc' Hin) as (? & ? & _). congruence.
Qed.

Lemma elem_of_add_free b kc b' : b' ∈ rings (add_free b kc) ↔ b' = b ∨ b' ∈ rings kc.
Proof. unfold rings, add_free. simpl. rewrite !elem_of_app, elem_of_cons. tauto. Qed.

Lemma slab_added_inv k k' c kc b p sl :
  inv k → caches k !! c = Some kc → slab_added k k' c kc b p sl → inv k'.
Proof.
  intros I Hc A. destruct (slab_added_new k k' c kc b p sl I A) as [Hnew Hnb].
  destruct A as [Hb Hb0 Hng Hpp Hg Hok Hsl Es Ec]. pose proof (elem_of_add_free b kc) as Hm.
  assert (inuse sl = 0) as Hu.
  { pose proof (sl_inuse _ _ _ _ _ Hok) as H. rewrite Hsl, length_seqZ in H.
    pose proof (ok_count _ (kinv_cache _ _ _ _ I c kc Hc)). lia. }
  assert (NoDup (rings (add_free b kc))) as Hnd.
  { unfold rings, add_free. simpl. eapply NoDup_perm; [symmetry; rewrite !app_assoc; symmetry; apply Permutation_middle|].
    rewrite <- app_assoc. apply NoDup_cons. split; [by eapply Hnb|]. by apply (kinv_cache _ _ _ _ I c kc Hc). }
  split; rewrite ?Es, ?Ec.
  - done.
  - intros c' kc' [[<- <-]|[_ Hc']]%lookup_insert_Some; [|by eapply kinv_cache].
    apply cache_ok_rings; [by eapply kinv_cache|done].
  - intros c' kc' b' [[<- <-]|[Hne Hc']]%lookup_insert_Some Hb'.
    + apply Hm in Hb' as [->|Hb'].
      * exists sl. rewrite lookup_insert_eq. split; [done|]. split; [by apply slab_ok_rings|].
        specialize (Hnb c kc Hc). unfold rings in Hnb. rewrite !elem_of_app in Hnb. unfold on_ring. simpl. tauto.
      * destruct (kinv_member _ _ _ _ I c kc b' Hc Hb') as (sl1 & Hsl1 & O & R1 & R2 & R3).
        exists sl1. rewrite lookup_insert_ne by congruence. split; [done|]. split; [by apply slab_ok_rings|].
        split_and!; simpl; auto. intros [->|?]%elem_of_cons; [congruence|auto].
    + rewrite lookup_insert_ne; [by eapply kinv_member|]. intros ->. by eapply Hnb.
  - intros b' sl1 [[<- <-]|[Hn Hsl1]]%lookup_insert_Some.
    + rewrite (sl_cache _ _ _ _ _ Hok), lookup_insert_eq. exists (add_free b kc), p.
      split_and!; try done; [apply Hm; by left|]. apply Hg. by right.
    + destruct (kinv_slab _ _ _ _ I b' sl1 Hsl1) as (kc1 & q & Hc1 & Hb1 & Hb1' & Hq & Hgq).
      assert (given (prov k') q) by (apply Hg; by left).
      destruct (decide (slab_cache sl1 = c)) as [E|E].
      * exists (add_free b kc), q. rewrite E, lookup_insert_eq. rewrite E in Hc1. simplify_eq.
        split; [done|]. split; [apply Hm; by right|done].
      * exists kc1, q. by rewrite lookup_insert_ne by done.
Qed.

Lemma slab_added_live k k' c kc b p sl c' o :
  inv k → caches k !! c = Some kc → slab_added k k' c kc b p sl → live k' c' o ↔ live k c' o.
Proof.
  intros I Hc A. destruct (slab_added_new k k' c kc b p sl I A) as [Hnew Hnb].
  destruct A as [_ _ _ _ _ _ Hsl Es Ec]. unfold live. rewrite Es, Ec. split.
  - intros (kc1 & b1 & sl1 & i & [[<- <-]|[Hn Hc1]]%lookup_insert_Some & Hb1 & Hsl1 & Hi & Hni & Ho).
    + apply lookup_insert_Some in Hsl1 as [[<- <-]|[Hnb1 Hsl1]].
      { exfalso. apply Hni. change (i ∈ free_slots kc sl). rewrite Hsl. apply elem_of_seqZ. simpl in Hi. lia. }
      apply elem_of_add_free in Hb1 as [->|Hb1]; [done|]. by exists kc, b1, sl1, i.
    + exists kc1, b1, sl1, i. rewrite lookup_insert_ne in Hsl1; [done|]. intros ->. by eapply Hnb.
  - intros (kc1 & b1 & sl1 & i & Hc1 & Hb1 & Hsl1 & Hi & Hni & Ho). assert (b ≠ b1) by congruence.
    destruct (decide (c' = c)) as [->|Hn].
    + simplify_eq. exists (add_free b kc), b1, sl1, i. rewrite lookup_insert_eq, lookup_insert_ne by done.
      split; [done|]. split; [by apply elem_of_add_free; right|done].
    + exists kc1, b1, sl1, i. by rewrite !lookup_insert_ne by done.
Qed.

(** The page provider ran out, or gave a page without an address: a panic.  A
    page at the null address is lost.  Otherwise the cache has one more slab. *)
Lemma slab_cache_grow_cases k c kc :
  inv k → caches k !! c = Some kc →
  (slab_cache_grow pages_end page_count slab_size c k = None ∧
     ∀ p s, alloc_page (prov k) = Some (Some p, s) → page_to_va pages_end p = None) ∨
  ∃ p s, alloc_page (prov k) = Some (Some p, s) ∧
    ((∃ k', slab_cache_grow pages_end page_count slab_size c k = Some (0, k') ∧ page_to_va pages_end p = Some 0 ∧
       inv k' ∧ (∀ c' o, live k' c' o ↔ live k c' o) ∧ caches k' = caches k ∧ same_rest k k') ∨
     (∃ b k' sl, slab_cache_grow pages_end page_count slab_size c k = Some (b, k') ∧
       slab_added k k' c kc b p sl ∧ same_rest k k')).
Proof.
  intros I Hc. unfold slab_cache_grow. rewrite (bind_run _ _ _ _ _ (run_get_cache k c kc Hc)).
  unfold on_prov, mbind, ST_bind. destruct (alloc_page (prov k)) as [[[p|] s]|] eqn:Ha; [|left; split; [done|]; by intros..].
  destruct (alloc_some _ _ _ (kinv_prov _ _ _ _ I) Ha) as (Hpp & Hng & Hg).
  unfold lift. destruct (page_to_va pages_end p) as [b|] eqn:Hb; [|left; split; [done|]; intros; by simplify_eq].
  right. exists p, s. split; [done|]. destruct (Z.eqb_spec b 0) as [->|Hne].
  - left. eexists. split; [done|]. split; [done|]. split; [|done].
    destruct I as [I1 I2 I3 I4]. split; try done. intros b' sl Hsl.
    destruct (I4 b' sl Hsl) as (kc1 & q & H1 & H2 & H3 & H4 & H5). exists kc1, q. split_and!; try done. apply Hg. by left.
  - right. pose proof (kinv_cache _ _ _ _ I c kc Hc) as Hk.
    destruct (grow_slots c kc b [] Hk) as [O E]. unfold set_cache, call, kassert, set_slab.
    destruct (init_objects _ _ _ _ _ _ _) as [fl es]. rewrite (proj2 (Z.ltb_lt 0 _) (ok_count _ Hk)).
    eexists b, _, _. split; [reflexivity|]. split; [|done]. split; try done.
Qed.

(** *** [kmem_cache_alloc] *)

(** A slab with a free object is at hand, or the page provider has a page for
    a new one. *)
Definition available (k : kmem P) (kc : kmem_cache) : Prop :=
  partial kc ≠ [] ∨ free_slabs kc ≠ [] ∨
  ∃ p s b, alloc_page (prov k) = Some (Some p, s) ∧ page_to_va pages_end p = Some b ∧ b ≠ 0.

Lemma alloc_from_same k c b o k' : alloc_from c b k = Some (o, k') → same_caches k k'.
Proof.
  unfold alloc_from. intros (kc & k1 & H1 & H)%bind_inv. unfold get_cache, lift in H1.
  destruct (caches k !! c) as [kc0|] eqn:Hc; [|done]. injection H1 as -> ->.
  apply bind_inv in H as (sl & k2 & H2 & H). unfold get_slab, lift in H2.
  destruct (slabs k1 !! b) as [sl0|] eqn:Hb; [|done]. injection H2 as -> ->.
  apply bind_inv in H as (nf & k3 & H3 & H). unfold lift in H3.
  destruct (freelist sl !! next_free sl); [|done]. injection H3 as -> ->.
  unfold mbind, ST_bind, set_slab, set_cache, kassert, mret, ST_ret in H. destruct (_ || _); [|done]. simplify_eq.
  intros c'. cbn [caches with_caches with_slabs].
  destruct (decide (c' = c)) as [->|]; [|by rewrite lookup_insert_ne].
  rewrite lookup_insert_eq, Hc. simpl. f_equal. by case_match.
Qed.

(** A cache with 4 KB alignment whose objects are not all aligned. *)
Definition misaligned (kc : kmem_cache) : Prop := aligned (flags kc) = true ∧ obj_size kc mod 4096 ≠ 0.

Lemma align_ok_slots c kc b sl i :
  cache_ok kc → page_at b → slab_ok slab_size c kc b sl → align_ok kc (obj_at kc sl i) = false → misaligned kc.
Proof.
  intros Hk Hp O [Ha%negb_false_iff Hm%Z.eqb_neq]%orb_false_iff. split; [done|]. intros Hs. apply Hm.
  pose proof (sl_base _ _ _ _ _ O) as E. pose proof (page_at_range b Hp) as (? & ? & _).
  pose proof (cache_bounds kc Hk) as (B1 & B2 & B3 & B4). pose proof (pf_slab _ _ _ _ Hpf).
  assert (PAGE_SIZE = 2097152) as EP by done. unfold after_freelist_addr, sizeof_bufctl in *. rewrite Ha in E.
  rewrite wrap64_small in E by (unfold is_u64; lia).
  destruct (roundup_spec (b + slab_size + 8 * obj_count kc + 16) 4096) as (q & Eq & _); [lia..|].
  unfold obj_at. rewrite E, Eq. apply Z.mod_divide in Hs as [z ->]; [|done].
  apply Z.mod_divide; [done|]. exists (q + i * z). lia.
Qed.

Lemma alloc_from_cases k c kc b :
  inv k → caches k !! c = Some kc → b ∈ rings kc → b ∉ full kc →
  (alloc_from c b k = None ∧ misaligned kc) ∨
  ∃ o k', alloc_from c b k = Some (o, k') ∧ 0 < o < 2 ^ 64 ∧ align_ok kc o = true ∧ allocated k k' c o ∧
    same_rest k k' ∧ same_caches k k'.
Proof.
  intros I Hc Hb Hf. destruct (alloc_from_ok k c kc b I Hc Hb Hf) as (o & k' & sl & Hsl & Eo & E & A & Ho & R).
  destruct (align_ok kc o) eqn:Ea.
  - right. exists o, k'. split; [done|]. split; [done|]. split; [done|]. split; [done|]. split; [done|]. by eapply alloc_from_same.
  - left. split; [done|]. destruct (kinv_member _ _ _ _ I c kc b Hc Hb) as (sl0 & Hsl0 & O & _). simplify_eq.
    eapply align_ok_slots; [by eapply kinv_cache|by eapply member_page_at|done|done].
Qed.

Lemma ring_member_cases kc b :
  NoDup (rings kc) → b ∈ partial kc ∨ b ∈ free_slabs kc → b ∈ rings kc ∧ b ∉ full kc.
Proof.
  unfold rings. intros (_ & Hd & _)%NoDup_app Hb. rewrite !elem_of_app. split; [tauto|].
  intros Hf. apply (Hd b Hf). by rewrite elem_of_app.
Qed.

Lemma kmem_cache_alloc_cases k c kc :
  inv k → caches k !! c = Some kc →
  (kmem_cache_alloc pages_end page_count slab_size c k = None ∧ (misaligned kc ∨ ¬ available k kc)) ∨
  (∃ k', kmem_cache_alloc pages_end page_count slab_size c k = Some (0, k') ∧ ¬ available k kc ∧ inv k' ∧
     (∀ c' o, live k' c' o ↔ live k c' o) ∧ same_rest k k' ∧ same_caches k k') ∨
  (∃ o k', kmem_cache_alloc pages_end page_count slab_size c k = Some (o, k') ∧ 0 < o < 2 ^ 64 ∧
     align_ok kc o = true ∧ allocated k k' c o ∧ same_rest k k' ∧ same_caches k k').
Proof.
  intros I Hc. pose proof (kinv_cache _ _ _ _ I c kc Hc) as Hk. pose proof (ok_rings _ Hk) as Hnd.
  unfold kmem_cache_alloc. rewrite (bind_run _ _ _ _ _ (run_get_cache k c kc Hc)).
  destruct (partial kc) as [|b bs] eqn:Hp; [destruct (free_slabs kc) as [|b bs] eqn:Hf|].
  - destruct (slab_cache_grow_cases k c kc I Hc) as [[E Hn]|(p & s & Ha & [(k' & E & Hb & I' & Hl & Hcs & R)|(b & k' & sl & E & A & R)])].
    + left. unfold mbind, ST_bind. rewrite E. split; [done|right].
      intros [?|[?|(p & s & b & Ha & Hb & _)]]; [congruence..|]. by rewrite (Hn p s Ha) in Hb.
    + right; left. exists k'. rewrite (bind_run _ _ _ _ _ E). simpl. split; [done|].
      split; [intros [?|[?|(q & s' & b & Ha' & Hb' & Hne)]]; congruence|].
      split; [done|]. split; [done|]. split; [done|]. intros c'. by rewrite Hcs.
    + rewrite (bind_run _ _ _ _ _ E). pose proof (ad_null _ _ _ _ _ _ _ A) as Hb0.
      rewrite (proj2 (Z.eqb_neq b 0) Hb0).
      assert (caches k' !! c = Some (add_free b kc)) as Hc' by by rewrite (ad_caches _ _ _ _ _ _ _ A), lookup_insert_eq.
      pose proof (slab_added_inv _ _ _ _ _ _ _ I Hc A) as I'.
      destruct (ring_member_cases (add_free b kc) b) as [Hb1 Hb2];
        [by eapply ok_rings, kinv_cache|right; left|].
      destruct (alloc_from_cases k' c _ b I' Hc' Hb1 Hb2) as [[E2 ?]|(o & k2 & E2 & Ho & Al & [J1 J2 J3] & R2 & S2)]; [by auto|].
      right; right. exists o, k2. split; [done|]. split; [done|]. split; [done|]. split; [split|].
      * done.
      * by rewrite <- (slab_added_live _ _ _ _ _ _ _ _ _ I Hc A).
      * intros c' o'. by rewrite J3, (slab_added_live _ _ _ _ _ _ _ _ _ I Hc A).
      * split; [destruct R, R2; split; congruence|]. intros c'. etransitivity; [apply S2|].
        rewrite (ad_caches _ _ _ _ _ _ _ A).
        destruct (decide (c' = c)) as [->|]; [by rewrite lookup_insert_eq, Hc|by rewrite lookup_insert_ne].
  - destruct (ring_member_cases kc b Hnd) as [Hb1 Hb2]; [rewrite Hf; right; left|].
    destruct (alloc_from_cases k c kc b I Hc Hb1 Hb2) as [[E2 ?]|(o & k2 & H)]; [by auto|]. right; right. by exists o, k2.
  - destruct (ring_member_cases kc b Hnd) as [Hb1 Hb2]; [rewrite Hp; left; left|].
    destruct (alloc_from_cases k c kc b I Hc Hb1 Hb2) as [[E2 ?]|(o & k2 & H)]; [by auto|]. right; right. by exists o, k2.
Qed.

(** *** Destroying slabs *)

(** The calls the code makes on destroying the slab [b]: the destructor once per
    object, each time on the first object. *)
Definition dtor_calls (k : kmem P) (c : loc) (kc : kmem_cache) (b : loc) : list obj_call :=
  match slabs k !! b with
  | Some sl => if dtor kc then replicate (Z.to_nat (obj_count kc)) (Dtor (obj_ptr sl) c (obj_size kc)) else []
  | None => []
  end.

Lemma elem_of_rings_unlink b kc b' : b' ∈ rings (unlink b kc) ↔ b' ≠ b ∧ b' ∈ rings kc.
Proof. by rewrite rings_unlink, list_elem_of_filter. Qed.

(** The slab [b] leaves the cache [c], and its page goes back to the provider. *)
Record slab_gone (k k' : kmem P) (c : loc) (kc : kmem_cache) (b : loc) : Prop := {
  gn_inv : inv k';
  gn_caches : caches k' = <[c := unlink b kc]> (caches k);
  gn_slabs : slabs k' = delete b (slabs k);
  gn_calls : calls k' = calls k ++ dtor_calls k c kc b;
  gn_given q : given (prov k') q ↔ given (prov k) q ∧ page_to_va pages_end q ≠ Some b;
  gn_rest : same_rest k k';
}.

Lemma slab_gone_inv k k' c kc b p :
  inv k → caches k !! c = Some kc → b ∈ rings kc → page_to_va pages_end p = Some b →
  pp_inv (prov k') → (∀ q, given (prov k') q ↔ given (prov k) q ∧ q ≠ p) →
  slabs k' = delete b (slabs k) → caches k' = <[c := unlink b kc]> (caches k) → inv k'.
Proof.
  intros I Hc Hb Hp Hpp Hg Es Ec. pose proof (elem_of_rings_unlink b kc) as Hm. split; rewrite ?Es, ?Ec.
  - done.
  - intros c' kc' [[<- <-]|[_ Hc']]%lookup_insert_Some; [|by eapply kinv_cache].
    pose proof (kinv_cache _ _ _ _ I c kc Hc) as Hk. apply cache_ok_rings; [done|].
    change (NoDup (rings (unlink b kc))). rewrite rings_unlink. by apply NoDup_filter, ok_rings.
  - intros c' kc' b' [[<- <-]|[Hne Hc']]%lookup_insert_Some Hb'.
    + apply Hm in Hb' as [Hn Hb']. rewrite lookup_delete_ne by done.
      destruct (kinv_member _ _ _ _ I c kc b' Hc Hb') as (sl1 & Hsl1 & O & R1 & R2 & R3).
      exists sl1. split; [done|]. split; [by apply slab_ok_rings|].
      destruct (elem_of_unlink kc b b' Hn) as (U1 & U2 & U3). split_and!; auto.
    + rewrite lookup_delete_ne; [by eapply kinv_member|]. intros ->. apply Hne. by eapply member_unique.
  - intros b' sl1 [Hn Hsl1]%lookup_delete_Some.
    destruct (kinv_slab _ _ _ _ I b' sl1 Hsl1) as (kc1 & q & Hc1 & Hb1 & Hb1' & Hq & Hgq).
    assert (given (prov k') q) by (apply Hg; split; [done|congruence]).
    destruct (decide (slab_cache sl1 = c)) as [E|E].
    + exists (unlink b kc), q. rewrite E, lookup_insert_eq. rewrite E in Hc1. simplify_eq.
      split; [done|]. split; [by apply Hm|done].
    + exists kc1, q. by rewrite lookup_insert_ne by done.
Qed.

Lemma slab_destory_ok k c kc b :
  inv k → caches k !! c = Some kc → b ∈ rings kc →
  ∃ k', slab_destory pages_end page_count c b k = Some (tt, k') ∧ slab_gone k k' c kc b.
Proof.
  intros I Hc Hb. destruct (kinv_member _ _ _ _ I c kc b Hc Hb) as (sl & Hsl & O & _).
  destruct (kinv_slab _ _ _ _ I b sl Hsl) as (kc1 & p & _ & _ & Hb0 & Hp & Hg).
  destruct (free_law (prov k) p (kinv_prov _ _ _ _ I) Hg) as (s' & Hf & Hpp & Hg').
  pose proof (given_range _ _ Hg) as Hr. destruct Hpf as [H1 H2 H3 _ _ _].
  destruct (page_to_va_inv pages_end page_count H1 H2 H3 p b Hr Hp Hb0) as (_ & _ & _ & _ & _ & _ & Hva).
  unfold slab_destory. run with run_get_cache; [|done]. run with run_get_slab; [|done].
  unfold call, set_cache, drop_slab, on_prov, lift, mbind, ST_bind. rewrite Hva. cbn [prov with_slabs with_caches with_calls].
  rewrite Hf. eexists. split; [reflexivity|].
  assert (∀ q, given (prov k) q → page_to_va pages_end q = Some b → q = p) as Hinj.
  { intros q Hgq Hq. destruct (decide (q = p)); [done|]. assert (PAGE_SIZE = 2097152) by done.
    destruct (page_to_va_apart pages_end page_count H1 H2 H3 q p b b); try done; [by eapply given_range|lia..]. }
  split; cbn [prov slabs caches calls with_slabs with_caches with_calls with_prov].
  - by eapply (slab_gone_inv k _ c kc b p).
  - done.
  - done.
  - unfold dtor_calls. by rewrite Hsl.
  - intros q. rewrite Hg'. split; intros [? Hq]; (split; [done|]); [intros E; by apply Hq, Hinj|congruence].
  - done.
Qed.
End proofs.
