(* ===== verification/KmemTheorems.v ===== *)
(** * What the slab allocator guarantees

    Shrinking, creating and destroying caches; traces of operations; the
    layout of a slab; and the behaviours in which the code departs from its
    intention. *)

From S2P Require Import Prelude Types Links PodList ListTheorems Buddy BuddyTheorems Pmm Kmem.

Section whole.
Context (pages_end page_count : Z) {P : Type} `{!PageProvider page_count P}.
Context (slab_size cache_size : Z) (cache_cache cache_head : loc).
Context (Hpf : platform pages_end page_count slab_size cache_cache).
Abbreviation inv := (kinv pages_end page_count slab_size).

Fixpoint unlink_all (l : list loc) (kc : kmem_cache) : kmem_cache :=
  match l with
  | [] => kc
  | b :: l => unlink_all l (unlink b kc)
  end.

Lemma unlink_all_params l kc :
  obj_size (unlink_all l kc) = obj_size kc ∧ obj_count (unlink_all l kc) = obj_count kc ∧
  flags (unlink_all l kc) = flags kc ∧ params (unlink_all l kc) = params kc.
Proof. revert kc. induction l as [|b l IH]; intros kc; [done|]. simpl. apply (IH (unlink b kc)). Qed.

Lemma elem_of_unlink_all l kc b : b ∈ rings (unlink_all l kc) ↔ b ∈ rings kc ∧ b ∉ l.
Proof.
  revert kc. induction l as [|x l IH]; intros kc; simpl.
  { split; [|by intros [? _]]. intros ?. split; [done|]. apply not_elem_of_nil. }
  rewrite IH, elem_of_rings_unlink, not_elem_of_cons. tauto.
Qed.

(** Destroying several slabs of a cache. *)
Record slabs_gone (k k' : kmem P) (c : loc) (kc : kmem_cache) (l : list loc) : Prop := {
  gs_inv : inv k';
  gs_cache : caches k' !! c = Some (unlink_all l kc);
  gs_caches c' : c' ≠ c → caches k' !! c' = caches k !! c';
  gs_slabs b : slabs k' !! b = if decide (b ∈ l) then None else slabs k !! b;
  gs_calls : calls k' = calls k ++ concat (dtor_calls k c kc <$> l);
  gs_given q : given (prov k') q ↔ given (prov k) q ∧ ∀ b, b ∈ l → page_to_va pages_end q ≠ Some b;
  gs_rest : same_rest k k';
}.

Lemma destroy_all_ok k c kc l :
  inv k → caches k !! c = Some kc → NoDup l → (∀ b, b ∈ l → b ∈ rings kc) →
  ∃ k', destroy_all pages_end page_count c l k = Some (tt, k') ∧ slabs_gone k k' c kc l.
Proof.
  revert k kc. induction l as [|b l IH]; intros k kc I Hc Hnd Hl.
  { exists k. split; [done|]. split; try done.
    - by rewrite app_nil_r.
    - intros q. split; [|by intros [? _]]. intros ?. split; [done|]. by intros b []%not_elem_of_nil. }
  apply NoDup_cons in Hnd as [Hb Hnd].
  destruct (slab_destory_ok pages_end page_count slab_size cache_cache Hpf k c kc b I Hc) as (k1 & E1 & [I1 C1 S1 D1 G1 R1]).
  { apply Hl. left. }
  destruct (IH k1 (unlink b kc) I1) as (k2 & E2 & [I2 C2 C2' S2 D2 G2 R2]).
  { by rewrite C1, lookup_insert_eq. } { done. }
  { intros b' Hb'. apply elem_of_rings_unlink. split; [congruence|]. apply Hl. by right. }
  exists k2. cbn [destroy_all]. rewrite (bind_run _ _ _ _ _ E1). split; [done|]. split.
  - done.
  - done.
  - intros c' Hne. rewrite C2', C1 by done. by rewrite lookup_insert_ne.
  - intros b'. rewrite S2, S1. repeat case_decide; rewrite elem_of_cons in *; try tauto.
    + assert (b' = b) as -> by tauto. by rewrite lookup_delete_eq.
    + rewrite lookup_delete_ne; [done|]. intros ->. tauto.
  - rewrite D2, D1, <- app_assoc. f_equal. cbn [fmap list_fmap concat]. f_equal. f_equal.
    apply list_fmap_ext. intros i b' Hb'%list_elem_of_lookup_2. unfold dtor_calls. rewrite S1, lookup_delete_ne by congruence. done.
  - intros q. rewrite G2, G1. split.
    + intros [[? Hq] Hq']. split; [done|]. intros b' [->|?]%elem_of_cons; [done|by apply Hq'].
    + intros [? Hq]. split; [split; [done|apply Hq; left]|]. intros b' ?. apply Hq. by right.
  - destruct R1, R2. split; congruence.
Qed.

Lemma slabs_gone_live k k' c kc l c' o :
  inv k → caches k !! c = Some kc → slabs_gone k k' c kc l → (∀ b, b ∈ l → b ∈ rings kc) →
  live k' c' o ↔ live k c' o ∧
    (c' = c → ∃ b sl, b ∈ rings kc ∧ (b ∉ l) ∧ slabs k !! b = Some sl ∧ slot_live kc sl o).
Proof.
  intros I Hc [_ G1 G2 G3 _ _ _] Hl. unfold live. destruct (unlink_all_params l kc) as (P1 & P2 & P3 & _).
  destruct (decide (c' = c)) as [->|Hne].
  - split.
    + intros (kc' & b & sl & i & Hc' & Hb & Hsl & Hi & Hni & Ho). rewrite G1 in Hc'. simplify_eq.
      apply elem_of_unlink_all in Hb as [Hb Hbl]. rewrite G3, decide_False in Hsl by done.
      unfold free_slots, obj_at in *. rewrite P1 in *. rewrite P2 in *.
      split; [by exists kc, b, sl, i|]. intros _. exists b, sl. split_and!; try done. by exists i.
    + intros [_ H]. destruct (H eq_refl) as (b & sl & Hb & Hbl & Hsl & i & Hi & Hni & Ho).
      exists (unlink_all l kc), b, sl, i. unfold free_slots, obj_at in *. rewrite P1, P2, G3, decide_False by done.
      split; [done|]. split; [by apply elem_of_unlink_all|done].
  - split.
    + intros (kc' & b & sl & i & Hc' & Hb & Hsl & H). rewrite G2 in Hc' by done. rewrite G3 in Hsl.
      case_decide; [done|]. split; [by exists kc', b, sl, i|done].
    + intros [(kc' & b & sl & i & Hc' & Hb & Hsl & H) _]. exists kc', b, sl, i. rewrite G2, G3 by done.
      rewrite decide_False; [done|]. intros Hin. apply Hne. by eapply member_unique; [..|apply Hl].
Qed.

(** *** [kmem_cache_shrink] *)

Lemma unlink_all_free kc : free_slabs (unlink_all (free_slabs kc) kc) = [].
Proof.
  assert (∀ l kc b, b ∈ free_slabs (unlink_all l kc) → b ∈ free_slabs kc ∧ b ∉ l) as H.
  { induction l as [|x l IH]; intros kc' b Hb; [split; [done|apply not_elem_of_nil]|].
    destruct (IH _ _ Hb) as [[Hn Hb']%list_elem_of_filter Hbl]. split; [done|]. by apply not_elem_of_cons. }
  destruct (free_slabs (unlink_all _ kc)) as [|b l] eqn:E; [done|].
  destruct (H (free_slabs kc) kc b) as [??]; [|done]. rewrite E. left.
Qed.

(** All free slabs go back to the page provider; no object in use is lost. *)
Record shrunk (k k' : kmem P) (c : loc) (kc : kmem_cache) : Prop := {
  sh_inv : inv k';
  sh_live c' o : live k' c' o ↔ live k c' o;
  sh_free kc' : caches k' !! c = Some kc' → free_slabs kc' = [];
  sh_given q : given (prov k') q ↔ given (prov k) q ∧ ∀ b, b ∈ free_slabs kc → page_to_va pages_end q ≠ Some b;
  sh_calls : calls k' = calls k ++ concat (dtor_calls k c kc <$> free_slabs kc);
  sh_caches : same_caches k k';
  sh_rest : same_rest k k';
}.

Lemma free_slab_idle k c kc b sl o :
  inv k → caches k !! c = Some kc → b ∈ free_slabs kc → slabs k !! b = Some sl → ¬ slot_live kc sl o.
Proof.
  intros I Hc Hb Hsl (i & Hi & Hni & _). assert (b ∈ rings kc) as Hr by (unfold rings; rewrite !elem_of_app; tauto).
  destruct (kinv_member _ _ _ _ I c kc b Hc Hr) as (sl0 & Hsl0 & O & _ & _ & R3). simplify_eq.
  pose proof (sl_inuse _ _ _ _ _ O) as E. rewrite (R3 Hb) in E.
  assert (Z.of_nat (length (i :: free_slots kc sl)) <= Z.max 0 (obj_count kc)); [|simpl in *; lia].
  apply indices_bounded; [apply NoDup_cons; split; [done|apply O]|].
  intros j [->|Hj]%elem_of_cons; [done|]. by eapply free_slots_range.
Qed.

Lemma kmem_cache_shrink_ok k c kc :
  inv k → caches k !! c = Some kc →
  ∃ k', kmem_cache_shrink pages_end page_count c k = Some (wrap64 (Z.of_nat (length (free_slabs kc))), k') ∧
    shrunk k k' c kc.
Proof.
  intros I Hc. pose proof (kinv_cache _ _ _ _ I c kc Hc) as Hk.
  assert (∀ b, b ∈ free_slabs kc → b ∈ rings kc) as Hin by (intros b ?; unfold rings; rewrite !elem_of_app; tauto).
  assert (NoDup (free_slabs kc)) as Hnd. { pose proof (ok_rings _ Hk) as H. unfold rings in H. rewrite !NoDup_app in H. tauto. }
  destruct (destroy_all_ok k c kc (free_slabs kc) I Hc Hnd Hin) as (k' & E & G).
  exists k'. unfold kmem_cache_shrink. run with @run_get_cache; [|done]. rewrite (bind_run _ _ _ _ _ E). split; [done|].
  pose proof (λ c' o, slabs_gone_live k k' c kc (free_slabs kc) c' o I Hc G Hin) as HL.
  destruct G as [G1 G2 G3 G4 G5 G6 G7]. split; try done.
  - intros c' o. rewrite HL. split; [by intros [? _]|]. intros Hl. split; [done|]. intros ->.
    destruct Hl as (kc' & b & sl & i & Hc' & Hb & Hsl & Hi & Hni & Ho). simplify_eq.
    exists b, sl. split; [done|]. split; [|split; [done|by exists i]].
    intros Hbf. eapply (free_slab_idle k c kc b sl); try done. by exists i.
  - intros kc' Hc'. rewrite G2 in Hc'. simplify_eq. apply unlink_all_free.
  - intros c'. destruct (decide (c' = c)) as [->|]; [|by rewrite G3]. rewrite G2, Hc. simpl. f_equal.
    apply unlink_all_params.
Qed.

(** *** Creating and destroying caches *)

(** The caches are [cache_cache] and the objects allocated from it. *)
Definition caches_known (k : kmem P) : Prop :=
  ∀ c, is_Some (caches k !! c) ↔ c = cache_cache ∨ live k cache_cache c.

Lemma static_apart k c x : inv k → KERNEL_VIRTUALBASE <= x < pages_end → ¬ live k c x.
Proof.
  intros I Hx (kc & b & sl & i & Hc & Hb & Hsl & Hi & _ & E).
  destruct (kinv_member _ _ _ _ I _ kc b Hc Hb) as (sl0 & Hsl0 & O & _). rewrite Hsl in Hsl0. injection Hsl0 as <-.
  pose proof (kinv_cache _ _ _ _ I _ kc Hc) as Hk. pose proof (ok_size _ Hk).
  assert (page_at pages_end page_count b) as Hp by (by eapply (member_page_at _ _ _ k)).
  destruct (obj_at_range pages_end page_count slab_size cache_cache Hpf kc b sl i Hk Hp (sl_base _ _ _ _ _ O) Hi) as (_ & H1 & H2).
  pose proof (base_bounds pages_end page_count slab_size cache_cache Hpf kc b Hk Hp) as [B1 B2].
  pose proof (page_at_range pages_end page_count slab_size cache_cache Hpf b Hp) as (_ & _ & HR).
  rewrite (sl_base _ _ _ _ _ O) in *. rewrite <- E in *. assert (PAGE_SIZE = 2097152) by done.
  lia.
Qed.

(** A cache without slabs appears at a fresh address, or goes. *)
Lemma insert_cache_inv k k' c kc :
  inv k → caches k !! c = None → cache_ok kc → rings kc = [] →
  prov k' = prov k → slabs k' = slabs k → caches k' = <[c := kc]> (caches k) →
  inv k' ∧ ∀ c' o, live k' c' o ↔ live k c' o.
Proof.
  intros I Hc Hok Hr Ep Es Ec. split.
  - split; rewrite ?Ep, ?Es, ?Ec.
    + apply (kinv_prov _ _ _ _ I).
    + intros c' kc' [[<- <-]|[_ Hc']]%lookup_insert_Some; [done|by eapply kinv_cache].
    + intros c' kc' b [[<- <-]|[_ Hc']]%lookup_insert_Some; [rewrite Hr; by intros []%not_elem_of_nil|by eapply kinv_member].
    + intros b sl Hsl. destruct (kinv_slab _ _ _ _ I b sl Hsl) as (kc1 & p & Hc1 & H). exists kc1, p.
      rewrite lookup_insert_ne by congruence. done.
  - intros c' o. unfold live. rewrite Es, Ec.
    split; intros (kc' & b & sl & i & Hc' & Hb & H); exists kc', b, sl, i.
    + apply lookup_insert_Some in Hc' as [[<- <-]|[_ Hc']]; [|done]. rewrite Hr in Hb. by apply not_elem_of_nil in Hb.
    + by rewrite lookup_insert_ne by congruence.
Qed.

Lemma delete_cache_inv k k' c kc :
  inv k → caches k !! c = Some kc → rings kc = [] →
  prov k' = prov k → slabs k' = slabs k → caches k' = delete c (caches k) →
  inv k' ∧ ∀ c' o, live k' c' o ↔ live k c' o.
Proof.
  intros I Hc Hr Ep Es Ec. split.
  - split; rewrite ?Ep, ?Es, ?Ec.
    + apply (kinv_prov _ _ _ _ I).
    + intros c' kc' [_ Hc']%lookup_delete_Some. by eapply kinv_cache.
    + intros c' kc' b [_ Hc']%lookup_delete_Some. by eapply kinv_member.
    + intros b sl Hsl. destruct (kinv_slab _ _ _ _ I b sl Hsl) as (kc1 & p & Hc1 & Hb & H). exists kc1, p.
      rewrite lookup_delete_ne; [done|]. intros E. rewrite <- E in Hc1. simplify_eq. rewrite Hr in Hb. by apply not_elem_of_nil in Hb.
  - intros c' o. unfold live. rewrite Es, Ec.
    split; intros (kc' & b & sl & i & Hc' & Hb & H); exists kc', b, sl, i.
    + by apply lookup_delete_Some in Hc' as [_ Hc'].
    + rewrite lookup_delete_ne; [done|]. intros ->. simplify_eq. rewrite Hr in Hb. by apply not_elem_of_nil in Hb.
Qed.

Context (Hhead : KERNEL_VIRTUALBASE <= cache_head < pages_end).

(** The head of the ring of caches is linked to some cell. *)
Definition head_ok (k : kmem P) : Prop :=
  ∃ n, nx (cache_links k) cache_head = Some n ∧ cell (cache_links k) n.

Lemma list_add_total (m : pod_mem) x h n :
  nx m h = Some n → cell m n → cell m x →
  ∃ m', list_add x h m = Some (tt, m') ∧ ∃ n', nx m' h = Some n' ∧ cell m' n'.
Proof.
  intros Hn Cn Cx. eexists. split.
  { unfold list_add, __list_add. run with @run_load_next; [|done]. run with @run_store_next; [|by eapply nx_cell].
    run with @run_store_prev; [|by apply cell_set_nx]. run with @run_store_next; [|by apply cell_set_pv, cell_set_nx].
    apply run_store_prev. by apply cell_set_nx, cell_set_pv, cell_set_nx. }
  rewrite nx_set_pv, nx_set_nx, nx_set_pv, nx_set_nx, Hn, (decide_True (P := h = h)) by done.
  destruct (decide (h = x)); eexists; (split; [reflexivity|]); by apply cell_set_pv, cell_set_nx, cell_set_pv, cell_set_nx.
Qed.

Lemma new_cache_ok size fl ct dt : 0 < size < PAGE_SIZE - sizeof_bufctl →
  cache_ok (Cache [] [] [] size (cache_obj_count 0 size) fl ct dt).
Proof.
  intros Hs. assert (PAGE_SIZE = 2097152) as EP by done. unfold sizeof_bufctl in Hs.
  assert (cache_obj_count 0 size = PAGE_SIZE / (8 + size)) as E.
  { unfold cache_obj_count, sizeof_bufctl. change (aligned 0) with false. cbv iota zeta.
    rewrite wrap64_small by (unfold is_u64; lia). done. }
  split; cbn [obj_size obj_count]; rewrite ?E; unfold sizeof_bufctl.
  - lia.
  - apply Z.div_str_pos. lia.
  - rewrite Z.mul_comm. apply Z.mul_div_le. lia.
  - apply NoDup_nil_2.
Qed.

(** The state between operations. *)
Record good (k : kmem P) : Prop := {
  good_inv : inv k;
  good_known : caches_known k;
  good_head : head_ok k;
  good_cc kcc : caches k !! cache_cache = Some kcc → aligned (flags kcc) = false;
}.

Record created (k k' : kmem P) (c : loc) (kc : kmem_cache) : Prop := {
  cr_good : good k';
  cr_fresh : caches k !! c = None;
  cr_cache : caches k' !! c = Some kc;
  cr_others c' : c' ≠ c → params <$> caches k' !! c' = params <$> caches k !! c';
  cr_sized : sized_caches k' = sized_caches k;
  cr_live c' o : live k' c' o ↔ live k c' o ∨ c' = cache_cache ∧ o = c;
}.


Lemma cc_flags (k k' : kmem P) : same_caches k k' →
  (∀ kc, caches k !! cache_cache = Some kc → aligned (flags kc) = false) →
  ∀ kc, caches k' !! cache_cache = Some kc → aligned (flags kc) = false.
Proof.
  intros S H kc Hc. specialize (S cache_cache). rewrite Hc in S. symmetry in S.
  apply fmap_Some in S as (kc0 & H0 & E). injection E as _ _ -> _ _. by apply H.
Qed.

Abbreviation create := (kmem_cache_create pages_end page_count slab_size cache_cache cache_head).
Abbreviation destroy := (kmem_cache_destroy pages_end page_count cache_cache).

Lemma kmem_cache_create_cases k size ct dt fl :
  good k → 0 < size < PAGE_SIZE - sizeof_bufctl →
  (create size ct dt fl k = None ∧ ∃ kcc, caches k !! cache_cache = Some kcc ∧ ¬ available pages_end page_count k kcc) ∨
  ∃ c k', create size ct dt fl k = Some (c, k') ∧ created k k' c (Cache [] [] [] size (cache_obj_count 0 size) fl ct dt).
Proof.
  intros [I Kn Hh Hcc] Hs. assert (is_Some (caches k !! cache_cache)) as [kcc Hc] by (apply Kn; by left).
  unfold kmem_cache_create. rewrite (bind_run _ _ _ tt k) by (apply kassert_true, Z.ltb_lt; lia).
  destruct (kmem_cache_alloc_cases pages_end page_count slab_size cache_cache Hpf k cache_cache kcc I Hc)
    as [[E [[Ha _]|Ha]]|[(k1 & E & Ha & _)|(c & k1 & E & Hc0 & _ & [I1 F1 L1] & R1 & S1)]].
  { by rewrite Hcc in Ha. }
  { left. unfold mbind, ST_bind. rewrite E. split; [done|]. by exists kcc. }
  { left. unfold mbind, ST_bind. rewrite E. split; [done|]. by exists kcc. }
  right. rewrite (bind_run _ _ _ _ _ E), (proj2 (Z.eqb_neq c 0)) by lia.
  set (kc := Cache [] [] [] size _ fl ct dt).
  destruct Hh as (n & Hn & Cn). destruct R1 as [R1 R1s]. rewrite <- R1 in Hn, Cn.
  set (m := <[c := {| next := null; prev := null |}]> (cache_links k1)).
  assert (∀ q, cell (cache_links k1) q → cell m q) as Hm.
  { intros q [v Hq]. unfold cell, m. simpl in *. destruct (decide (q = c)) as [->|].
    - rewrite lookup_insert_eq. by eexists.
    - rewrite lookup_insert_ne by done. by exists v. }
  assert (cell m c) as Cc. { unfold cell, m. simpl. rewrite lookup_insert_eq. by eexists. }
  assert (c ≠ cache_head) as Hne.
  { intros ->. apply (static_apart k1 cache_cache cache_head I1 Hhead), L1. by right. }
  destruct (list_add_total m c cache_head n) as (m' & Em & Hm'); [|by apply Hm|done|].
  { unfold m. simpl in *. by rewrite lookup_insert_ne. }
  assert (caches k1 !! c = None) as Hnew.
  { apply eq_None_not_Some. rewrite (same_caches_iff _ _ _ S1). intros [->|?]%Kn; [|done].
    apply (static_apart k1 cache_cache cache_cache I1 (pf_static _ _ _ _ Hpf)), L1. by right. }
  set (k2 := with_links m' (with_caches (<[c := kc]> (caches k1)) k1)).
  exists c, k2. split.
  { unfold set_cache, new_link, on_links, mbind, ST_bind. cbn [cache_links caches with_links with_caches]. fold m. by rewrite Em. }
  assert (cache_ok kc) as Hok by by apply new_cache_ok.
  destruct (insert_cache_inv k1 k2 c kc I1 Hnew Hok) as [I2 L2]; try done.
  assert (c ≠ cache_cache) as Hnc.
  { intros ->. apply (static_apart k1 cache_cache cache_cache I1 (pf_static _ _ _ _ Hpf)), L1. by right. }
  split.
  - split; [done| |done|].
    + intros c'. cbn [caches k2 with_links with_caches]. rewrite L2, L1. destruct (decide (c' = c)) as [->|Hcc'].
      { rewrite lookup_insert_eq. split; [tauto|by eexists]. }
      rewrite lookup_insert_ne by done. rewrite (same_caches_iff k k1 c' S1), (Kn c'). tauto.
    + intros kc'. cbn [caches k2 with_links with_caches]. rewrite lookup_insert_ne by done. by apply (cc_flags k k1).
  - apply eq_None_not_Some. intros H. apply (same_caches_iff _ _ c S1) in H. rewrite Hnew in H. by destruct H.
  - cbn [caches k2 with_links with_caches]. by rewrite lookup_insert_eq.
  - intros c' Hcc'. cbn [caches k2 with_links with_caches]. rewrite lookup_insert_ne by done. apply S1.
  - apply R1s.
  - intros c' o. by rewrite L2, L1.
Qed.

(** A destroyed cache has no objects, and its own storage is free again. *)
Record destroyed (k k' : kmem P) (c : loc) : Prop := {
  de_good : good k';
  de_gone : caches k' !! c = None;
  de_live c' o : live k' c' o ↔ live k c' o ∧ c' ≠ c ∧ ¬ (c' = cache_cache ∧ o = c);
  de_links : cache_links k' = cache_links k;
}.

Lemma destroy_rings k c kc :
  inv k → caches k !! c = Some kc →
  ∃ k' kc', (destroy_all pages_end page_count c (full kc);; destroy_all pages_end page_count c (partial kc);;
             destroy_all pages_end page_count c (free_slabs kc)) k = Some (tt, k') ∧
    inv k' ∧ caches k' !! c = Some kc' ∧ rings kc' = [] ∧ (∀ c', c' ≠ c → caches k' !! c' = caches k !! c') ∧
    (∀ c' o, live k' c' o ↔ live k c' o ∧ c' ≠ c) ∧ same_rest k k'.
Proof.
  intros I Hc. pose proof (ok_rings _ (kinv_cache _ _ _ _ I c kc Hc)) as Hnd.
  assert (∀ l1 l2 (k0 : kmem P), destroy_all pages_end page_count c (l1 ++ l2) k0 =
    (destroy_all pages_end page_count c l1;; destroy_all pages_end page_count c l2) k0) as Happ.
  { induction l1 as [|b l1 IH]; intros l2 k0; [done|]. cbn [app destroy_all].
    unfold mbind, ST_bind in *. destruct (slab_destory _ _ _ _ k0) as [[[] k1]|]; [|done]. apply IH. }
  destruct (destroy_all_ok k c kc (rings kc) I Hc Hnd ltac:(done)) as (k' & E & G).
  pose proof (λ c' o, slabs_gone_live k k' c kc (rings kc) c' o I Hc G ltac:(done)) as HL.
  destruct G as [G1 G2 G3 _ _ _ G7]. exists k', (unlink_all (rings kc) kc).
  split.
  { rewrite <- E. unfold rings. rewrite Happ. unfold mbind, ST_bind.
    destruct (destroy_all _ _ _ (full kc) k) as [[[] k1]|]; [|done]. by rewrite Happ. }
  split; [done|]. split; [done|]. split.
  { destruct (rings (unlink_all _ kc)) as [|b l] eqn:Er; [done|].
    assert (b ∈ rings (unlink_all (rings kc) kc)) as Hb by (rewrite Er; left).
    by apply elem_of_unlink_all in Hb as [??]. }
  split; [done|]. split; [|done]. intros c' o. rewrite HL. destruct (decide (c' = c)) as [->|]; [|by intuition].
  split; [|by intros [_ ?]]. intros [_ H]. destruct (H eq_refl) as (b & sl & ? & ? & _). done.
Qed.

Lemma kmem_cache_destroy_ok k c :
  good k → live k cache_cache c → ∃ k', destroy c k = Some (tt, k') ∧ destroyed k k' c.
Proof.
  intros [I Kn Hh Hcc] Hl. assert (is_Some (caches k !! c)) as [kc Hc] by (apply Kn; by right).
  pose proof (pf_static _ _ _ _ Hpf) as Hst.
  assert (c ≠ cache_cache) as Hne by (intros ->; by apply (static_apart k cache_cache cache_cache I Hst)).
  destruct (destroy_rings k c kc I Hc) as (k1 & kc1 & E1 & I1 & C1 & Hr1 & O1 & L1 & R1).
  assert (live k1 cache_cache c) as Hl1 by (apply L1; by split).
  destruct (kmem_cache_free_ok pages_end page_count slab_size cache_cache Hpf k1 cache_cache c I1) as (k2 & E2 & [I2 L2] & R2 & S2 & O2);
    [assert (0 < KERNEL_VIRTUALBASE) by done; lia|done|].
  assert (caches k2 !! c = Some kc1) as C2 by by rewrite O2.
  set (k3 := with_caches (delete c (caches k2)) k2).
  destruct (delete_cache_inv k2 k3 c kc1 I2 C2 Hr1) as [I3 L3]; try done.
  exists k3. split.
  { unfold kmem_cache_destroy. run with @run_get_cache; [|done]. unfold mbind, ST_bind in *.
    destruct (destroy_all _ _ _ (full kc) k) as [[[] ka]|]; [|done].
    destruct (destroy_all _ _ _ (partial kc) ka) as [[[] kb]|]; [|done].
    rewrite E1. by rewrite E2. }
  assert (∀ c' o, live k3 c' o ↔ live k c' o ∧ c' ≠ c ∧ ¬ (c' = cache_cache ∧ o = c)) as HL.
  { intros c' o. rewrite L3, L2, L1. tauto. }
  destruct R1 as [R1 _], R2 as [R2 _]. split; [split| | |].
  - done.
  - intros c'. rewrite HL. cbn [caches k3 with_caches]. destruct (decide (c' = c)) as [->|Hn].
    { rewrite lookup_delete_eq. split; [by intros [? ?]|tauto]. }
    rewrite lookup_delete_ne by done. rewrite (same_caches_iff _ _ c' S2), O1 by done. rewrite (Kn c').
    split; [intros [?|?]; [by left|right]; split; [done|]; split; [congruence|by intros [_ ?]]|tauto].
  - unfold head_ok. cbn [cache_links k3 with_caches]. by rewrite R2, R1.
  - cbn [caches k3 with_caches]. intros kcc. rewrite lookup_delete_ne by done. apply (cc_flags k1 k2 S2).
    intros kc'. rewrite O1 by done. apply Hcc.
  - cbn [caches k3 with_caches]. by rewrite lookup_delete_eq.
  - done.
  - cbn [cache_links k3 with_caches]. congruence.
Qed.

(** ** Traces *)

Inductive kop :=
  | KAlloc (c : loc)
  | KFree (c : loc) (o : Z)
  | KShrink (c : loc)
  | KCreate (size : Z) (ct dt : bool) (fl : Z)
  | KDestroy (c : loc).

(** What the clients hold: pairs of a cache and an object of it.  The caches a
    client can use are the objects of [cache_cache]. *)
Abbreviation objects := (gset (loc * Z)).
Definition represents (A : objects) (k : kmem P) : Prop := ∀ c o, (c, o) ∈ A ↔ live k c o.

(** One operation.  Clients free what they hold and use caches they hold; other
    requests are not made. *)
Definition run_kop (op : kop) (A : objects) (k : kmem P) : option (objects * kmem P) :=
  match op with
  | KAlloc c =>
      if decide ((cache_cache, c) ∈ A) then
        match kmem_cache_alloc pages_end page_count slab_size c k with
        | Some (o, k') => Some (if o =? 0 then A else {[(c, o)]} ∪ A, k')
        | None => None
        end
      else Some (A, k)
  | KFree c o =>
      if decide ((cache_cache, c) ∈ A ∧ (c, o) ∈ A) then
        match kmem_cache_free c o k with Some (_, k') => Some (A ∖ {[(c, o)]}, k') | None => None end
      else Some (A, k)
  | KShrink c =>
      if decide ((cache_cache, c) ∈ A) then
        match kmem_cache_shrink pages_end page_count c k with Some (_, k') => Some (A, k') | None => None end
      else Some (A, k)
  | KCreate size ct dt fl =>
      if decide (0 < size < PAGE_SIZE - sizeof_bufctl) then
        match create size ct dt fl k with Some (c, k') => Some ({[(cache_cache, c)]} ∪ A, k') | None => None end
      else Some (A, k)
  | KDestroy c =>
      if decide ((cache_cache, c) ∈ A) then
        match destroy c k with
        | Some (_, k') => Some (filter (λ x, x.1 ≠ c ∧ x ≠ (cache_cache, c)) A, k')
        | None => None
        end
      else Some (A, k)
  end.

Fixpoint run_kops (ops : list kop) (A : objects) (k : kmem P) : option (objects * kmem P) :=
  match ops with
  | [] => Some (A, k)
  | op :: ops => '(A, k) ← run_kop op A k; run_kops ops A k
  end.

(** The operations that may panic: an allocation that needs a page when there
    is none, or one from a cache with 4 KB alignment for objects of another
    size. *)
Definition may_panic (k : kmem P) (op : kop) : Prop :=
  match op with
  | KAlloc c => ∃ kc, caches k !! c = Some kc ∧ (misaligned kc ∨ ¬ available pages_end page_count k kc)
  | KCreate _ _ _ _ => ∃ kcc, caches k !! cache_cache = Some kcc ∧ ¬ available pages_end page_count k kcc
  | _ => False
  end.

(** [good] survives when the caches and their objects do. *)
Lemma good_same k k' :
  good k → inv k' → same_caches k k' → cache_links k' = cache_links k →
  (∀ o, live k' cache_cache o ↔ live k cache_cache o) → good k'.
Proof.
  intros [I Kn Hh Hcc] I' S R L. split; [done| | |].
  - intros c. rewrite (same_caches_iff _ _ c S), (Kn c), L. done.
  - unfold head_ok. by rewrite R.
  - by apply (cc_flags k k').
Qed.

Lemma client_cache k c : good k → live k cache_cache c →
  c ≠ cache_cache ∧ c ≠ 0 ∧ ∃ kc, caches k !! c = Some kc.
Proof.
  intros [I Kn _ _] Hl. split.
  { intros ->. by apply (static_apart k cache_cache cache_cache I (pf_static _ _ _ _ Hpf)). }
  split; [|apply Kn; by right].
  destruct Hl as (kc & b & sl & i & Hc & Hb & Hsl & Hi & _ & E).
  destruct (kinv_member _ _ _ _ I _ kc b Hc Hb) as (sl0 & Hsl0 & O & _). rewrite Hsl in Hsl0. injection Hsl0 as <-.
  pose proof (kinv_cache _ _ _ _ I _ kc Hc) as Hk.
  assert (page_at pages_end page_count b) as Hp by (by eapply (member_page_at _ _ _ k)).
  destruct (obj_at_range pages_end page_count slab_size cache_cache Hpf kc b sl i Hk Hp (sl_base _ _ _ _ _ O) Hi) as (H1 & _). lia.
Qed.

Lemma run_kop_cases op A k :
  good k → represents A k →
  (run_kop op A k = None ∧ may_panic k op) ∨
  ∃ A' k', run_kop op A k = Some (A', k') ∧ good k' ∧ represents A' k'.
Proof.
  intros G R. pose proof (good_inv _ G) as I.
  assert (∃ A' k', Some (A, k) = Some (A', k') ∧ good k' ∧ represents A' k') as Hsame by by exists A, k.
  destruct op as [c|c o|c|size ct dt fl|c]; cbn [run_kop may_panic]; (case_decide as Hd; [|by right]).
  - destruct (client_cache k c G) as (Hne & Hc0 & kc & Hc); [by apply R|].
    destruct (kmem_cache_alloc_cases pages_end page_count slab_size cache_cache Hpf k c kc I Hc)
      as [[-> ?]|[(k' & -> & _ & I' & L & Rs & S)|(o & k' & -> & Ho & _ & [I' F L] & Rs & S)]].
    + left. split; [done|]. by exists kc.
    + right. exists A, k'. split; [done|]. split; [by apply (good_same k); try apply Rs; auto|]. intros c' o. by rewrite (R c' o), L.
    + right. rewrite (proj2 (Z.eqb_neq o 0)) by lia. eexists _, k'. split; [done|]. split.
      * apply (good_same k); [done..|apply Rs|]. intros o'. rewrite L. split; [intros [?|[? _]]; [done|congruence]|by left].
      * intros c' o'. rewrite elem_of_union, elem_of_singleton, (R c' o'), L. split; [intros [[= -> ->]|?]; auto|intros [?|[-> ->]]; auto].
  - destruct Hd as [Hd Ho]. destruct (client_cache k c G) as (Hne & Hc0 & kc & Hc); [by apply R|].
    destruct (kmem_cache_free_ok pages_end page_count slab_size cache_cache Hpf k c o I Hc0) as (k' & -> & [I' L] & Rs & S & _); [by apply R|].
    right. eexists _, k'. split; [done|]. split.
    + apply (good_same k); [done..|apply Rs|]. intros o'. rewrite L. split; [by intros [? _]|]. intros ?. split; [done|]. intros [? _]; congruence.
    + intros c' o'. rewrite elem_of_difference, elem_of_singleton, (R c' o'), L. split; intros [? Hn]; (split; [done|]); [intros [-> ->]|intros [= -> ->]]; by apply Hn.
  - destruct (client_cache k c G) as (Hne & Hc0 & kc & Hc); [by apply R|].
    destruct (kmem_cache_shrink_ok k c kc I Hc) as (k' & -> & [I' L _ _ _ S Rs]).
    right. exists A, k'. split; [done|]. split; [by apply (good_same k); try apply Rs|]. intros c' o. by rewrite (R c' o), L.
  - destruct (kmem_cache_create_cases k size ct dt fl G Hd) as [[-> ?]|(c & k' & -> & [G' _ _ _ _ L])]; [by left|].
    right. eexists _, k'. split; [done|]. split; [done|]. intros c' o'. rewrite elem_of_union, elem_of_singleton, (R c' o'), L.
    split; [intros [[= -> ->]|?]; auto|intros [?|[-> ->]]; auto].
  - destruct (kmem_cache_destroy_ok k c G) as (k' & -> & [G' _ L _]); [by apply R|].
    right. eexists _, k'. split; [done|]. split; [done|]. intros c' o'. rewrite elem_of_filter, (R c' o'), L. simpl.
    split; [intros [[? Hn] ?]|intros (? & ? & Hn)]; [split; [done|]; split; [done|]; by intros [-> ->]|].
    split; [split; [done|]|done]. intros [= -> ->]. by apply Hn.
Qed.

(** ** Start *)

Definition boot_kmem (s : P) (m : pod_mem) : kmem P := Kmem s ∅ ∅ m [] [].

Lemma init_head_good s m :
  pp_inv s → cell m cache_head → cell m cache_cache → cache_head ≠ cache_cache →
  0 < cache_size < PAGE_SIZE - sizeof_bufctl →
  let cc := Cache [] [] [] cache_size (cache_obj_count 0 cache_size) 0 false false in
  ∃ m', (set_cache cache_cache cc;; on_links (list_init cache_head);; on_links (list_add cache_cache cache_head))
          (boot_kmem s m) = Some (tt, Kmem s ∅ {[cache_cache := cc]} m' [] []) ∧
    good (Kmem s ∅ {[cache_cache := cc]} m' [] []) ∧ is_ring m' cache_head [cache_cache].
Proof.
  intros Hp Hh Hc Hne Hs cc. destruct (list_init_spec m cache_head Hh) as (m1 & E1 & Hr & F1).
  destruct (list_add_spec m1 cache_head [] [] cache_cache) as (m2 & E2 & Hr2 & F2);
    [done|by eapply frame_cell|by intros ->%list_elem_of_singleton|].
  exists m2. split.
  { unfold boot_kmem, set_cache, on_links, with_caches, with_links, mbind, ST_bind. simpl. rewrite E1. cbn [cache_links].
    change (list_add cache_cache (pred_of cache_head []) m1) with (list_add cache_cache cache_head m1) in E2. by rewrite E2. }
  split; [|done]. split.
  - split; try done.
    + cbn [caches]. intros c kc [<- <-]%lookup_singleton_Some. by apply new_cache_ok.
    + cbn [caches]. intros c kc b [<- <-]%lookup_singleton_Some. by intros []%not_elem_of_nil.
  - intros c. cbn [caches]. split.
    + intros [kc [<- _]%lookup_singleton_Some]. by left.
    + intros [->|(kc & b & sl & i & _ & _ & H & _)]; [rewrite lookup_singleton_eq; by eexists|done].
  - exists cache_cache. cbn [cache_links]. split; [by apply (ring_next_of m2 cache_head [] [cache_cache])|].
    eapply is_ring_cells; [done|]. right. left.
  - cbn [caches]. by intros kcc [_ <-]%lookup_singleton_Some.
Qed.

(** The sized caches from index [n] on: sizes [sz], [2 sz], ... *)
Lemma sized_loop_cases n fuel sz k :
  good k → 0 < sz → sz * 2 ^ Z.of_nat n <= 2 * KMEM_MAX_SIZED_CACHE_SIZE < sz * 2 ^ (Z.of_nat n + 1) → (n < fuel)%nat →
  sized_loop pages_end page_count slab_size cache_cache cache_head fuel sz k = None ∨
  ∃ k' cs, sized_loop pages_end page_count slab_size cache_cache cache_head fuel sz k = Some (tt, k') ∧ good k' ∧
    sized_caches k' = sized_caches k ++ cs ∧ length cs = n ∧
    (∀ i c, cs !! i = Some c → ∃ kc, caches k' !! c = Some kc ∧ obj_size kc = sz * 2 ^ Z.of_nat i) ∧
    (∀ c, is_Some (caches k !! c) → params <$> caches k' !! c = params <$> caches k !! c).
Proof.
  revert fuel sz k. induction n as [|n IH]; intros fuel sz k G Hsz Hn Hf; (destruct fuel as [|fuel]; [lia|]); cbn [sized_loop].
  - rewrite (proj2 (Z.leb_gt _ _)) by (simpl in Hn; lia). right. exists k, []. by rewrite app_nil_r.
  - rewrite Nat2Z.inj_succ, <- Z.add_1_r in Hn. rewrite !Z.pow_add_r in Hn by lia. change (2 ^ 1) with 2 in Hn.
    assert (0 < 2 ^ Z.of_nat n) by lia. assert (KMEM_MAX_SIZED_CACHE_SIZE = 10240) as EM by done. assert (PAGE_SIZE = 2097152) as EP by done.
    rewrite (proj2 (Z.leb_le sz _)) by nia.
    destruct (kmem_cache_create_cases k sz false false 0 G) as [[E _]|(c & k1 & E & [G1 Fr C1 O1 Sz _])].
    { unfold sizeof_bufctl. nia. }
    { left. unfold mbind, ST_bind. by rewrite E. }
    rewrite (bind_run _ _ _ _ _ E). set (k2 := with_sized (sized_caches k1 ++ [c]) k1).
    rewrite (bind_run _ _ _ tt k2) by done.
    assert (good k2) as G2 by (apply (good_same k1); try done; destruct (good_inv _ G1); by split).
    destruct (IH fuel (sz * 2) k2 G2) as [E2|(k' & cs & E2 & G' & S' & Hl & Hcs & Ho)]; [lia|rewrite Z.pow_add_r by lia; lia|lia|by left|].
    right. exists k', (c :: cs). split; [done|]. split; [done|]. split; [rewrite S'; simpl; by rewrite Sz, <- app_assoc|].
    split; [by simpl; f_equal|]. split.
    + intros [|i] c'; simpl.
      * intros [= <-]. assert (params <$> caches k' !! c = Some (params (Cache [] [] [] sz (cache_obj_count 0 sz) 0 false false))) as H1.
        { rewrite Ho; cbn [k2 caches with_sized]; rewrite C1; [done|by eexists]. }
        apply fmap_Some in H1 as (kc & Hkc & E1). injection E1 as E1 _ _ _ _. exists kc. split; [done|]. simpl. lia.
      * intros Hi. destruct (Hcs i c' Hi) as (kc & Hkc & E1). exists kc. split; [done|].
        rewrite E1. change (Z.of_nat (S i)) with (Z.of_nat (1 + i)). rewrite Nat2Z.inj_add, Z.pow_add_r by lia. lia.
    + intros c' Hc'. assert (c' ≠ c) as Hne by (intros ->; rewrite Fr in Hc'; by destruct Hc').
      rewrite Ho; cbn [k2 caches with_sized]; [by apply O1|].
      assert (params <$> caches k1 !! c' = params <$> caches k !! c') as E1 by by apply O1.
      rewrite <- (fmap_is_Some params), E1, fmap_is_Some. done.
Qed.

Abbreviation init := (kmem_init pages_end page_count slab_size cache_size cache_cache cache_head).

Lemma kmem_init_cases s m :
  pp_inv s → cell m cache_head → cell m cache_cache → cache_head ≠ cache_cache →
  0 < cache_size < PAGE_SIZE - sizeof_bufctl →
  init 64 (boot_kmem s m) = None ∨
  ∃ k cs, init 64 (boot_kmem s m) = Some (tt, k) ∧ good k ∧ sized_caches k = cs ∧
    Z.of_nat (length cs) = KMEM_SIZED_CACHE_COUNT - 1 ∧
    ∀ i c, cs !! i = Some c → ∃ kc, caches k !! c = Some kc ∧ obj_size kc = KMEM_MIN_SIZED_CACHE_SIZE * 2 ^ Z.of_nat i.
Proof.
  intros Hp Hh Hc Hne Hs. destruct (init_head_good s m Hp Hh Hc Hne Hs) as (m' & E & G & _).
  set (k1 := Kmem _ _ _ _ _ _) in E, G.
  assert (init 64 (boot_kmem s m) = sized_loop pages_end page_count slab_size cache_cache cache_head 64 KMEM_MIN_SIZED_CACHE_SIZE k1) as ->.
  { unfold kmem_init. revert E. generalize (sized_loop pages_end page_count slab_size cache_cache cache_head 64 KMEM_MIN_SIZED_CACHE_SIZE).
    intros c. unfold mbind, ST_bind. destruct (set_cache _ _ _) as [[? ?]|]; [|done].
    destruct (on_links (list_init _) _) as [[? ?]|]; [|done]. by intros ->. }
  destruct (sized_loop_cases 10 64 KMEM_MIN_SIZED_CACHE_SIZE k1 G) as [E2|(k & cs & E2 & G2 & S & L & Hcs & _)];
    [done|vm_compute; by split|lia|by left|].
  right. exists k, cs. split; [done|]. split; [done|]. split; [done|]. split; [by rewrite L|done].
Qed.

Lemma run_kops_cases ops A k :
  good k → represents A k →
  (∃ pre op post A1 k1, ops = pre ++ op :: post ∧ run_kops pre A k = Some (A1, k1) ∧
     run_kop op A1 k1 = None ∧ may_panic k1 op) ∨
  (∃ A' k', run_kops ops A k = Some (A', k') ∧ good k' ∧ represents A' k').
Proof.
  revert A k. induction ops as [|op ops IH]; intros A k G R; [right; by exists A, k|].
  destruct (run_kop_cases op A k G R) as [[E Hx]|(A1 & k1 & E & G1 & R1)].
  - left. by exists [], op, ops, A, k.
  - destruct (IH A1 k1 G1 R1) as [(pre & op' & post & A2 & k2 & -> & E2 & Hx)|(A' & k' & E2 & H)].
    + left. exists (op :: pre), op', post, A2, k2. cbn [run_kops]. by rewrite E.
    + right. exists A', k'. cbn [run_kops]. by rewrite E.
Qed.

Lemma run_kops_good ops A k A' k' :
  good k → represents A k → run_kops ops A k = Some (A', k') → good k' ∧ represents A' k'.
Proof.
  revert A k. induction ops as [|op ops IH]; intros A k G R; [by intros [= <- <-]|]. cbn [run_kops].
  destruct (run_kop_cases op A k G R) as [[-> _]|(A1 & k1 & -> & G1 & R1)]; [done|]. by apply IH.
Qed.

Lemma live_end k c kc o :
  inv k → caches k !! c = Some kc → live k c o → 0 < o ∧ o + obj_size kc < 2 ^ 64.
Proof.
  intros I Hc (kc1 & b & sl & i & Hc1 & Hb & Hsl & Hi & _ & ->). rewrite Hc in Hc1. injection Hc1 as <-.
  destruct (kinv_member _ _ _ _ I _ kc b Hc Hb) as (sl0 & Hsl0 & O & _). rewrite Hsl in Hsl0. injection Hsl0 as <-.
  assert (page_at pages_end page_count b) as Hp by (by eapply (member_page_at _ _ _ k)).
  destruct (obj_at_range pages_end page_count slab_size cache_cache Hpf kc b sl i (kinv_cache _ _ _ _ I _ kc Hc) Hp
    (sl_base _ _ _ _ _ O) Hi) as (H1 & _ & H2). lia.
Qed.

Lemma live_disjoint k c kc o o' :
  inv k → caches k !! c = Some kc → live k c o → live k c o' → o < o' → o + obj_size kc <= o'.
Proof.
  intros I Hc (kc1 & b & sl & i & Hc1 & Hb & Hsl & Hi & _ & E) (kc2 & b' & sl' & i' & Hc2 & Hb' & Hsl' & Hi' & _ & E') Hlt.
  rewrite Hc in Hc1, Hc2. injection Hc1 as <-. injection Hc2 as <-.
  destruct (kinv_member _ _ _ _ I _ kc b Hc Hb) as (sl0 & Hsl0 & O & _). rewrite Hsl in Hsl0. injection Hsl0 as <-.
  destruct (kinv_member _ _ _ _ I _ kc b' Hc Hb') as (sl0 & Hsl0 & O' & _). rewrite Hsl' in Hsl0. injection Hsl0 as <-.
  pose proof (kinv_cache _ _ _ _ I _ kc Hc) as Hk. pose proof (ok_size _ Hk). apply Z.nlt_ge. intros Hov.
  destruct (objects_apart pages_end page_count slab_size cache_cache Hpf kc b b' sl sl' i i' o') as [-> ->]; try done;
    [by eapply (member_page_at _ _ _ k)|by eapply (member_page_at _ _ _ k)|apply O|apply O'|lia|lia|].
  rewrite Hsl in Hsl'. injection Hsl' as <-. lia.
Qed.
End whole.

(** ** A machine to run it on

    64 pages behind a page array that ends 5 MB into the kernel image; some of
    them are free, the others in use. *)
Section example.
Definition ex_end : Z := 0xFFFFFFFF80523456.
Definition ex_cc : loc := 0xFFFFFFFF80400100.
Definition ex_head : loc := 0xFFFFFFFF80400000.
Definition ex_slab_size : Z := 144.
Definition ex_cache_size : Z := 200.

Lemma ex_platform : platform ex_end 64 ex_slab_size ex_cc.
Proof.
  split; [by vm_compute|by vm_compute|by vm_compute|vm_compute; split; congruence| |vm_compute; split; congruence].
  intros p b Hp Hb. destruct (decide (b = 0)) as [->|Hne]; [done|].
  destruct (page_to_va_inv ex_end 64 ltac:(done) ltac:(done) ltac:(done) p b Hp Hb Hne) as (s & Hs & _ & -> & _ & _ & _).
  vm_compute in Hs. injection Hs as <-. assert (PAGE_SIZE = 2097152) by done. assert (KERNEL_SIZE = 2 ^ 31) by done.
  unfold phys_va. rewrite (proj2 (Z.ltb_lt _ _)) by lia. unfold KERNEL_VIRTUALBASE. lia.
Qed.

Lemma ex_pc : 64 <= 2 ^ 63.
Proof. done. Qed.
#[local] Instance ex_pages : PageProvider 64 buddy := buddy_pages 64 ex_pc.

(** The pages [ps] of the full machine freed. *)
Fixpoint free_some (ps : list Z) (s : buddy) : buddy :=
  match ps with
  | [] => s
  | p :: ps => match pmm_free 64 p s with Some (_, s') => free_some ps s' | None => s end
  end.

Lemma free_some_ok ps s : pp_inv s → NoDup ps → (∀ p, p ∈ ps → given s p) → pp_inv (free_some ps s).
Proof.
  revert s. induction ps as [|p ps IH]; intros s I Hnd Hg; [done|]. apply NoDup_cons in Hnd as [Hp Hnd].
  destruct (free_law s p I) as (s' & E & I' & G'); [apply Hg; left|].
  cbn [free_some]. change (pmm_free 64 p s) with (free_page p s). rewrite E. apply IH; [done..|].
  intros q Hq. apply G'. split; [apply Hg; by right|congruence].
Qed.

Definition ex_prov : buddy := free_some (seqZ 0 32) (full_state 64).

Lemma ex_prov_ok : pp_inv ex_prov.
Proof.
  apply free_some_ok.
  - exists (λ _, []). split; [apply full_state_inv|apply full_state_clean].
  - apply NoDup_seqZ.
  - intros p Hp%elem_of_seqZ. assert (0 <= p < 64) by lia.
    split; [done|]. split; [rewrite (free_in_freep 64 _ (λ _, [])) by apply full_state_inv; apply no_free|].
    destruct (full_state_clean 64) as [_ (z & Hz)%list.Forall_singleton]. exists z. apply Hz. simpl. lia.
Qed.

Definition ex_links : pod_mem := {[ex_head := {| next := 0; prev := 0 |}; ex_cc := {| next := 0; prev := 0 |}]}.

Definition ex_boot : kmem buddy := boot_kmem ex_prov ex_links.
Definition ex_cc_cache : kmem_cache := Cache [] [] [] ex_cache_size (cache_obj_count 0 ex_cache_size) 0 false false.

(** The state before the sized caches are created. *)
Definition ex_start : kmem buddy :=
  match (set_cache ex_cc ex_cc_cache;; on_links (list_init ex_head);; on_links (list_add ex_cc ex_head)) ex_boot with
  | Some (_, k) => k
  | None => ex_boot
  end.

Lemma ex_start_good :
  good ex_end 64 ex_slab_size ex_cc ex_head ex_start ∧ represents ∅ ex_start ∧
  is_ring (cache_links ex_start) ex_head [ex_cc].
Proof.
  destruct (init_head_good ex_end 64 ex_slab_size ex_cache_size ex_cc ex_head ex_platform
    ex_prov ex_links ex_prov_ok) as (m & E & G & Hr);
    [by eexists; vm_compute|by eexists; vm_compute|by vm_compute|by vm_compute|].
  unfold ex_start, ex_boot, ex_cc_cache. rewrite E. split; [done|]. split; [|done].
  intros c o. split; intros H; exfalso.
  - by apply not_elem_of_empty in H.
  - destruct H as (kc & b & sl & i & _ & _ & H & _). cbn [slabs] in H. by rewrite lookup_empty in H.
Qed.
End example.

(** ** Theorems *)

(** C4: the slab allocator hands out distinct objects: from any good state, any
    sequence of creating and destroying caches, allocating, freeing and
    shrinking either reaches an allocation that needs a page when there is none
    or whose alignment assertion fails, or runs to the end; then the objects in
    use are exactly those handed out and not freed (nothing is handed out
    twice, nothing in use is lost), and objects of one cache do not overlap. *)
Theorem kmem_objects pages_end page_count {P} `{!PageProvider page_count P} slab_size cache_cache cache_head
    ops A (k : kmem P) :
  platform pages_end page_count slab_size cache_cache → KERNEL_VIRTUALBASE <= cache_head < pages_end →
  good pages_end page_count slab_size cache_cache cache_head k → represents A k →
  (∃ pre op post A1 k1, ops = pre ++ op :: post ∧
     run_kops pages_end page_count slab_size cache_cache cache_head pre A k = Some (A1, k1) ∧
     run_kop pages_end page_count slab_size cache_cache cache_head op A1 k1 = None ∧
     may_panic pages_end page_count cache_cache k1 op) ∨
  (∃ A' k', run_kops pages_end page_count slab_size cache_cache cache_head ops A k = Some (A', k') ∧
     good pages_end page_count slab_size cache_cache cache_head k' ∧ represents A' k' ∧
     ∀ c kc o o', caches k' !! c = Some kc → (c, o) ∈ A' → (c, o') ∈ A' → o < o' → o + obj_size kc <= o').
Proof.
  intros Hpf Hh G R. destruct (run_kops_cases _ _ slab_size _ cache_head Hpf Hh ops A k G R) as [H|(A' & k' & E & G' & R')]; [by left|].
  right. exists A', k'. split; [done|]. split; [done|]. split; [done|]. intros c kc o o' Hc Ho Ho'.
  eapply live_disjoint; [done|by eapply good_inv|done|by apply R'|by apply R'].
Qed.

(** A cache of three large objects, filled and emptied, then destroyed. *)
Definition ex_ops (c o1 o2 : Z) : list kop :=
  [KCreate 600000 true true 0; KAlloc c; KAlloc c; KFree c o1; KShrink c; KAlloc c; KFree c o2; KDestroy c].

Definition ex_trace : list kop := ex_ops 18446744071568440240 18446744071576748216 18446744071577348216.

Lemma kmem_objects_witness :
  let run ops := run_kops ex_end 64 ex_slab_size ex_cc ex_head (PageProvider0 := ex_pages) ops ∅ ex_start in
  (∃ pre op post A1 k1, ex_trace = pre ++ op :: post ∧ run pre = Some (A1, k1) ∧
     run_kop ex_end 64 ex_slab_size ex_cc ex_head (PageProvider0 := ex_pages) op A1 k1 = None ∧
     may_panic ex_end 64 ex_cc (PageProvider0 := ex_pages) k1 op) ∨
  (∃ A' k', run ex_trace = Some (A', k') ∧
     good ex_end 64 ex_slab_size ex_cc ex_head (PageProvider0 := ex_pages) k' ∧ represents A' k' ∧
     ∀ c kc o o', caches k' !! c = Some kc → (c, o) ∈ A' → (c, o') ∈ A' → o < o' → o + obj_size kc <= o').
Proof.
  apply (kmem_objects ex_end 64 (PageProvider0 := ex_pages) ex_slab_size ex_cc ex_head ex_trace ∅ ex_start).
  - apply ex_platform.
  - vm_compute. split; congruence.
  - apply ex_start_good.
  - apply ex_start_good.
Defined.

(** The same cache after one object has been allocated and freed again: it has
    one free slab. *)
Definition ex_cache : loc := 18446744071568440240.
Definition ex_slab : loc := 18446744071576748032.
Definition ex_idle_ops : list kop := [KCreate 600000 true true 0; KAlloc ex_cache; KFree ex_cache 18446744071576748216].
Definition ex_after (ops : list kop) : kmem buddy :=
  match run_kops ex_end 64 ex_slab_size ex_cc ex_head (PageProvider0 := ex_pages) ops ∅ ex_start with
  | Some (_, k) => k
  | None => ex_start
  end.
Definition ex_idle : kmem buddy := ex_after ex_idle_ops.
Definition ex_idle_cache : kmem_cache := Cache [] [] [ex_slab] 600000 3 0 true true.

Lemma ex_after_good ops : good ex_end 64 ex_slab_size ex_cc ex_head (PageProvider0 := ex_pages) (ex_after ops).
Proof.
  destruct ex_start_good as (G & R & _). unfold ex_after. destruct (run_kops _ _ _ _ _ _ _ _) as [[A k]|] eqn:E; [|done].
  eapply run_kops_good in E as [? _]; [done|apply ex_platform|vm_compute; split; congruence|done|done].
Qed.

Lemma ex_idle_lookup : caches ex_idle !! ex_cache = Some ex_idle_cache.
Proof. vm_compute. reflexivity. Qed.

(** [kmem_cache_shrink] gives back exactly the pages of the slabs without
    objects in use, returns their number, and loses no object; the destructor,
    if there is one, is called [obj_count] times on the first object of each of
    these slabs and never on the others. *)
Theorem kmem_shrink_returns pages_end page_count {P} `{!PageProvider page_count P} slab_size cache_cache
    (k : kmem P) c kc :
  platform pages_end page_count slab_size cache_cache →
  kinv pages_end page_count slab_size k → caches k !! c = Some kc →
  ∃ k', kmem_cache_shrink pages_end page_count c k = Some (wrap64 (Z.of_nat (length (free_slabs kc))), k') ∧
    kinv pages_end page_count slab_size k' ∧
    (∀ c' o, live k' c' o ↔ live k c' o) ∧
    (∀ q, given (prov k') q ↔ given (prov k) q ∧ ∀ b, b ∈ free_slabs kc → page_to_va pages_end q ≠ Some b) ∧
    calls k' = calls k ++ concat (dtor_calls k c kc <$> free_slabs kc).
Proof.
  intros Hpf I Hc. destruct (kmem_cache_shrink_ok _ _ slab_size _ Hpf k c kc I Hc) as (k' & E & [H1 H2 _ H4 H5 _ _]).
  exists k'. by split_and!.
Qed.

Lemma kmem_shrink_returns_witness :
  ∃ k', kmem_cache_shrink ex_end 64 ex_cache ex_idle (PageProvider0 := ex_pages) = Some (wrap64 1, k') ∧
    kinv ex_end 64 ex_slab_size (PageProvider0 := ex_pages) k' ∧
    (∀ c' o, live k' c' o ↔ live ex_idle c' o) ∧
    (∀ q, given (PageProvider := ex_pages) (prov k') q ↔ given (PageProvider := ex_pages) (prov ex_idle) q ∧
       ∀ b, b ∈ [ex_slab] → page_to_va ex_end q ≠ Some b) ∧
    calls k' = calls ex_idle ++ concat (dtor_calls ex_idle ex_cache ex_idle_cache <$> [ex_slab]).
Proof.
  apply (kmem_shrink_returns ex_end 64 (PageProvider0 := ex_pages) ex_slab_size ex_cc ex_idle ex_cache ex_idle_cache).
  - apply ex_platform.
  - apply ex_after_good.
  - apply ex_idle_lookup.
Defined.

(** Where the objects of a slab lie: the number of objects leaves no room for
    the slab header, so the objects fit into the page only if the division of
    the page happens to leave a remainder of the size of the header and the
    padding.  Most of the sized caches have slabs that run over the end of
    their page. *)
Theorem slab_layout pages_end page_count slab_size cache_cache b size :
  platform pages_end page_count slab_size cache_cache → page_at pages_end page_count b →
  0 < size < PAGE_SIZE - sizeof_bufctl →
  let cnt := cache_obj_count 0 size in
  let objects := after_freelist_addr slab_size 0 cnt b in
  (objects + cnt * size <= b + PAGE_SIZE ↔ slab_size + 16 <= PAGE_SIZE mod (sizeof_bufctl + size)) ∧
  (64 <= slab_size → size ∈ [16; 32; 64; 128; 2048; 4096] → b + PAGE_SIZE < objects + cnt * size).
Proof.
  intros Hpf Hb Hs cnt objects. pose proof (new_cache_ok size 0 false false Hs) as Hok.
  pose proof (cache_bounds _ Hok) as (B1 & B2 & B3 & B4). cbn [obj_count obj_size] in *. fold cnt in B1, B3, B4.
  destruct (page_at_range _ _ _ _ Hpf b Hb) as (Hb0 & Hb1 & _). pose proof (pf_slab _ _ _ _ Hpf).
  assert (PAGE_SIZE = 2097152) as EP by done. unfold sizeof_bufctl in *.
  assert (objects = b + slab_size + 8 * cnt + 16) as Eo.
  { unfold objects, after_freelist_addr, sizeof_bufctl. change (aligned 0) with false. cbv iota zeta.
    apply wrap64_small. unfold is_u64. lia. }
  assert (PAGE_SIZE mod (8 + size) = PAGE_SIZE - cnt * (8 + size)) as Em.
  { unfold cnt, cache_obj_count, sizeof_bufctl. change (aligned 0) with false. cbv iota zeta.
    rewrite wrap64_small by (unfold is_u64; lia). rewrite Z.mod_eq by lia. lia. }
  assert (objects + cnt * size <= b + PAGE_SIZE ↔ slab_size + 16 <= PAGE_SIZE mod (8 + size)) as Hiff by lia.
  split; [done|]. intros Hsl Hin. apply Z.nle_gt. rewrite Hiff. apply Z.nle_gt.
  repeat (apply elem_of_cons in Hin as [->|Hin]; [vm_compute (PAGE_SIZE mod _); lia|]). by apply not_elem_of_nil in Hin.
Qed.

Lemma slab_layout_witness :
  let cnt := cache_obj_count 0 16 in
  let objects := after_freelist_addr ex_slab_size 0 cnt ex_slab in
  (objects + cnt * 16 <= ex_slab + PAGE_SIZE ↔ ex_slab_size + 16 <= PAGE_SIZE mod (sizeof_bufctl + 16)) ∧
  (64 <= ex_slab_size → 16 ∈ [16; 32; 64; 128; 2048; 4096] → ex_slab + PAGE_SIZE < objects + cnt * 16).
Proof.
  apply (slab_layout ex_end 64 ex_slab_size ex_cc ex_slab 16).
  - apply ex_platform.
  - exists 4. split; [lia|]. split; [vm_compute; reflexivity|done].
  - vm_compute. split; congruence.
Defined.

(** Objects of a cache with 4 KB alignment whose size is a multiple of 4 KB
    (the page directories) are aligned, and allocating one never fails its
    assertion; but the object count of such a cache is computed before the flag
    is set, and the last page directory of every slab lies outside its page. *)
Theorem pgdir_cache pages_end page_count {P} `{!PageProvider page_count P} slab_size cache_cache (k : kmem P) c kc :
  platform pages_end page_count slab_size cache_cache → kinv pages_end page_count slab_size k →
  caches k !! c = Some kc → aligned (flags kc) = true → obj_size kc mod 4096 = 0 →
  available pages_end page_count k kc →
  (∃ o k', kmem_cache_alloc pages_end page_count slab_size c k = Some (o, k') ∧ 0 < o ∧ o mod 4096 = 0 ∧
    ¬ live k c o ∧ live k' c o) ∧
  (obj_size kc = 4096 → obj_count kc = cache_obj_count 0 4096 → ∀ b sl, b ∈ rings kc → slabs k !! b = Some sl →
    b + PAGE_SIZE < obj_at kc sl (obj_count kc - 1) + obj_size kc).
Proof.
  intros Hpf I Hc Ha Hm Hav. split.
  - destruct (kmem_cache_alloc_cases _ _ _ _ Hpf k c kc I Hc)
      as [[_ [[_ ?]|?]]|[(k' & _ & ? & _)|(o & k' & E & Ho & Al & [_ F L] & _)]]; [done..|].
    exists o, k'. split; [done|]. split; [lia|]. unfold align_ok in Al. rewrite Ha in Al. apply Z.eqb_eq in Al.
    split; [done|]. split; [done|]. apply L. by right.
  - intros Es Ec b sl Hb Hsl. pose proof (kinv_cache _ _ _ _ I c kc Hc) as Hk.
    destruct (kinv_member _ _ _ _ I c kc b Hc Hb) as (sl0 & Hsl0 & O & _). simplify_eq.
    assert (page_at pages_end page_count b) as Hp by by eapply (member_page_at _ _ _ k).
    pose proof (page_at_range _ _ _ _ Hpf b Hp) as (? & ? & _). pose proof (pf_slab _ _ _ _ Hpf).
    pose proof (sl_base _ _ _ _ _ O) as E. change (cache_obj_count 0 4096) with 511 in Ec.
    unfold after_freelist_addr, sizeof_bufctl in E. assert (PAGE_SIZE = 2097152) as EP by done.
    rewrite Ec, Ha, wrap64_small in E by (unfold is_u64; lia).
    destruct (roundup_spec (b + slab_size + 8 * 511 + 16) 4096) as (q & Eq & Hq); [lia..|].
    unfold obj_at. rewrite E, Eq, Es, Ec. lia.
Qed.

(** A cache of page directories, one of them in use. *)
Definition ex_pgdir : kmem buddy := ex_after [KCreate 4096 false false 1; KAlloc ex_cache].
Definition ex_pgdir_cache : kmem_cache := Cache [] [ex_slab] [] 4096 511 1 false false.

Lemma pgdir_cache_witness :
  (∃ o k', kmem_cache_alloc ex_end 64 ex_slab_size ex_cache ex_pgdir (PageProvider0 := ex_pages) = Some (o, k') ∧
    0 < o ∧ o mod 4096 = 0 ∧ ¬ live ex_pgdir ex_cache o ∧ live k' ex_cache o) ∧
  (4096 = 4096 → 511 = cache_obj_count 0 4096 → ∀ b sl, b ∈ rings ex_pgdir_cache → slabs ex_pgdir !! b = Some sl →
    b + PAGE_SIZE < obj_at ex_pgdir_cache sl (511 - 1) + 4096).
Proof.
  apply (pgdir_cache ex_end 64 (PageProvider0 := ex_pages) ex_slab_size ex_cc ex_pgdir ex_cache ex_pgdir_cache).
  - apply ex_platform.
  - apply ex_after_good.
  - vm_compute. reflexivity.
  - reflexivity.
  - reflexivity.
  - left. discriminate.
Defined.

Lemma shrink_all_dangling pages_end page_count {P} `{!PageProvider page_count P} slab_size cache_cache
    (k : kmem P) c cs n :
  platform pages_end page_count slab_size cache_cache → kinv pages_end page_count slab_size k →
  caches k !! c = None → c ∈ cs → shrink_all pages_end page_count cs n k = None.
Proof.
  intros Hpf. revert k n. induction cs as [|c' cs IH]; intros k n I Hc Hin; [by apply not_elem_of_nil in Hin|].
  cbn [shrink_all]. destruct (caches k !! c') as [kc'|] eqn:Hc'.
  - destruct (kmem_cache_shrink_ok _ _ slab_size _ Hpf k c' kc' I Hc') as (k' & E & [I' _ _ _ _ S _]).
    rewrite (bind_run _ _ _ _ _ E). apply IH; [done| |].
    + apply eq_None_not_Some. rewrite (same_caches_iff _ _ c S), Hc. by intros [? ?].
    + apply elem_of_cons in Hin as [->|?]; [congruence|done].
  - unfold kmem_cache_shrink, mbind, ST_bind, get_cache, lift. by rewrite Hc'.
Qed.

(** [kmem_cache_destroy] ends the cache and all its objects and nothing else,
    but leaves it on the ring of caches: [kmem_cache_reap], which visits that
    ring, then uses the destroyed cache. *)
Theorem destroy_leaves_link pages_end page_count {P} `{!PageProvider page_count P} slab_size cache_cache cache_head
    (k : kmem P) c cs :
  platform pages_end page_count slab_size cache_cache → KERNEL_VIRTUALBASE <= cache_head < pages_end →
  good pages_end page_count slab_size cache_cache cache_head k → is_ring (cache_links k) cache_head cs → c ∈ cs →
  live k cache_cache c →
  ∃ k', kmem_cache_destroy pages_end page_count cache_cache c k = Some (tt, k') ∧
    (∀ c' o, live k' c' o ↔ live k c' o ∧ c' ≠ c ∧ ¬ (c' = cache_cache ∧ o = c)) ∧
    caches k' !! c = None ∧
    ∀ fuel, (length cs < fuel)%nat →
      list_for fuel cache_head (cache_links k') = Some (cs, cache_links k') ∧
      kmem_cache_reap pages_end page_count cache_head fuel k' = None.
Proof.
  intros Hpf Hh G Hr Hc Hl.
  destruct (kmem_cache_destroy_ok _ _ slab_size _ cache_head Hpf Hh k c G Hl) as (k' & E & [G' D L K]).
  exists k'. split; [done|]. split; [done|]. split; [done|]. intros fuel Hf.
  assert (list_for fuel cache_head (cache_links k') = Some (cs, cache_links k')) as El by (rewrite K; by apply list_for_spec).
  split; [done|]. unfold kmem_cache_reap, mbind, ST_bind, on_links. rewrite El.
  eapply (shrink_all_dangling _ _ slab_size _ _ c); [done| |done|done].
  destruct (good_inv _ _ _ _ _ _ G'). by split.
Qed.

Lemma destroy_leaves_link_witness :
  ∃ k', kmem_cache_destroy ex_end 64 ex_cc ex_cache ex_idle (PageProvider0 := ex_pages) = Some (tt, k') ∧
    (∀ c' o, live k' c' o ↔ live ex_idle c' o ∧ c' ≠ ex_cache ∧ ¬ (c' = ex_cc ∧ o = ex_cache)) ∧
    caches k' !! ex_cache = None ∧
    ∀ fuel, (length [ex_cache; ex_cc] < fuel)%nat →
      list_for fuel ex_head (cache_links k') = Some ([ex_cache; ex_cc], cache_links k') ∧
      kmem_cache_reap ex_end 64 ex_head fuel k' (PageProvider0 := ex_pages) = None.
Proof.
  apply (destroy_leaves_link ex_end 64 (PageProvider0 := ex_pages) ex_slab_size ex_cc ex_head ex_idle ex_cache [ex_cache; ex_cc]).
  - apply ex_platform.
  - vm_compute. split; congruence.
  - apply ex_after_good.
  - eval_decide.
  - left.
  - assert (is_Some (caches ex_idle !! ex_cache)) as H by (rewrite ex_idle_lookup; by eexists).
    apply (good_known _ _ _ _ _ _ (ex_after_good ex_idle_ops)) in H as [H|H]; [done|exact H].
Defined.

(** [kmem_init] sets up the allocator: if it does not run out of memory, the
    sized caches are created in ascending order of size, [16 * 2 ^ i], and are
    one fewer than the array [sized_caches] has entries (the assertion that
    should have compared the two numbers compares one with itself). *)
Theorem kmem_init_sized pages_end page_count {P} `{!PageProvider page_count P} slab_size cache_size
    cache_cache cache_head (s : P) m :
  platform pages_end page_count slab_size cache_cache → KERNEL_VIRTUALBASE <= cache_head < pages_end →
  pp_inv s → cell m cache_head → cell m cache_cache → cache_head ≠ cache_cache →
  0 < cache_size < PAGE_SIZE - sizeof_bufctl →
  kmem_init pages_end page_count slab_size cache_size cache_cache cache_head 64 (boot_kmem s m) = None ∨
  ∃ k, kmem_init pages_end page_count slab_size cache_size cache_cache cache_head 64 (boot_kmem s m) = Some (tt, k) ∧
    good pages_end page_count slab_size cache_cache cache_head k ∧
    Z.of_nat (length (sized_caches k)) = KMEM_SIZED_CACHE_COUNT - 1 ∧
    ∀ i c, sized_caches k !! i = Some c → ∃ kc, caches k !! c = Some kc ∧
      obj_size kc = KMEM_MIN_SIZED_CACHE_SIZE * 2 ^ Z.of_nat i.
Proof.
  intros Hpf Hh Hs Ch Cc Hne Hsz.
  destruct (kmem_init_cases _ _ slab_size cache_size _ _ Hpf Hh s m Hs Ch Cc Hne Hsz) as [?|(k & cs & E & G & <- & H)]; [by left|].
  right. exists k. split; [done|]. by split.
Qed.

Lemma kmem_init_sized_witness :
  kmem_init ex_end 64 ex_slab_size ex_cache_size ex_cc ex_head 64 ex_boot (PageProvider0 := ex_pages) = None ∨
  ∃ k, kmem_init ex_end 64 ex_slab_size ex_cache_size ex_cc ex_head 64 ex_boot (PageProvider0 := ex_pages) = Some (tt, k) ∧
    good ex_end 64 ex_slab_size ex_cc ex_head (PageProvider0 := ex_pages) k ∧
    Z.of_nat (length (sized_caches k)) = KMEM_SIZED_CACHE_COUNT - 1 ∧
    ∀ i c, sized_caches k !! i = Some c → ∃ kc, caches k !! c = Some kc ∧
      obj_size kc = KMEM_MIN_SIZED_CACHE_SIZE * 2 ^ Z.of_nat i.
Proof.
  apply (kmem_init_sized ex_end 64 (PageProvider0 := ex_pages) ex_slab_size ex_cache_size ex_cc ex_head ex_prov ex_links).
  - apply ex_platform.
  - vm_compute. split; congruence.
  - apply ex_prov_ok.
  - eexists. vm_compute. reflexivity.
  - eexists. vm_compute. reflexivity.
  - discriminate.
  - vm_compute. split; congruence.
Defined.
