(* ===== verification/Kmalloc.v ===== *)
(** * The kernel heap: [kern/memory/vmm/kmalloc.cc]

    [kmalloc] takes small blocks from the sized caches of the slab allocator
    and large ones from the page allocator, and writes a header in front of
    the memory it returns. *)

From S2P Require Import Prelude Types Links PodList ListTheorems Buddy BuddyTheorems Pmm Kmem KmemTheorems.

(** [struct memory_block]: the tag and the union. *)
Inductive memory_block :=
  | PMM (page_count : Z)
  | SLAB (size : Z) (cache : loc).

Definition GUARDIAN_BYTES_AFTER : Z := 16.
(** The tag (4 bytes, padded to 8) and two words. *)
Definition sizeof_memory_block : Z := 24.

Record kheap := Kheap { kmem_of : kmem buddy; blocks : gmap Z memory_block }.

Definition on_kmem {A} (c : ST (kmem buddy) A) : ST kheap A := λ h,
  match c (kmem_of h) with Some (x, k) => Some (x, Kheap k (blocks h)) | None => None end.
Definition set_block (b : Z) (mb : memory_block) : ST kheap unit := λ h,
  Some (tt, Kheap (kmem_of h) (<[b := mb]> (blocks h))).
Definition get_block (b : Z) : ST kheap memory_block := λ h,
  match blocks h !! b with Some mb => Some (mb, h) | None => None end.

Section code.
Context (pages_end page_count slab_size : Z) (Hpc : page_count <= 2 ^ 63).
#[local] Instance heap_pages : PageProvider page_count buddy := buddy_pages page_count Hpc.

(** The entries of [sized_caches] from the [i]-th on, [n] of them; entries that
    were never set are null. *)
Fixpoint find_sized (sz : Z) (n i : nat) : ST (kmem buddy) (option loc) :=
  match n with
  | O => mret None
  | S n =>
      k ← st_get;
      let c := default 0 (sized_caches k !! i) in
      kc ← get_cache c;
      if sz <=? obj_size kc then mret (Some c) else find_sized sz n (S i)
  end.

Definition cache_from_size (sz : Z) : ST (kmem buddy) (option loc) :=
  find_sized sz (Z.to_nat KMEM_SIZED_CACHE_COUNT) 0.

Definition kmalloc (sz : Z) : ST kheap Z :=
  let actual_size := wrap64 (sizeof_memory_block + sz + GUARDIAN_BYTES_AFTER) in
  if KMEM_MAX_SIZED_CACHE_SIZE <? actual_size then
    let npages := roundup actual_size PAGE_SIZE / PAGE_SIZE in
    pg ← on_kmem (on_prov (allocate page_count npages));
    pg ← on_kmem (lift pg);
    ret ← on_kmem (lift (page_to_va pages_end pg));
    if ret =? 0 then st_fail else
    set_block ret (PMM npages);;
    mret (ret +w sizeof_memory_block)
  else
    c ← on_kmem (cache_from_size actual_size);
    c ← on_kmem (lift c);
    ret ← on_kmem (kmem_cache_alloc pages_end page_count slab_size c);
    if ret =? 0 then st_fail else
    kc ← on_kmem (get_cache c);
    set_block ret (SLAB (obj_size kc) c);;
    mret (ret +w sizeof_memory_block).

Definition kfree (ptr : Z) : ST kheap unit :=
  let block := ptr -w sizeof_memory_block in
  mb ← get_block block;
  match mb with
  | PMM n =>
      pg ← on_kmem (lift (va_to_page pages_end page_count ptr));
      on_kmem (on_prov (free page_count pg n))
  | SLAB _ c => on_kmem (kmem_cache_free c block)
  end.

(** ** The sized caches *)

(** As [kmem_init] leaves them. *)
Record sized_ok (k : kmem buddy) : Prop := {
  so_length : Z.of_nat (length (sized_caches k)) = KMEM_SIZED_CACHE_COUNT - 1;
  so_size i c : sized_caches k !! i = Some c → ∃ kc, caches k !! c = Some kc ∧
    obj_size kc = KMEM_MIN_SIZED_CACHE_SIZE * 2 ^ Z.of_nat i;
  so_null : caches k !! 0 = None;
}.

Lemma find_sized_spec k sz n i :
  sized_ok k → (i + n = Z.to_nat KMEM_SIZED_CACHE_COUNT)%nat →
  (∀ j, (j < i)%nat → KMEM_MIN_SIZED_CACHE_SIZE * 2 ^ Z.of_nat j < sz) →
  (n = 0%nat ∧ find_sized sz n i k = Some (None, k)) ∨
  (find_sized sz n i k = None ∧ ∀ j, (j < 10)%nat → KMEM_MIN_SIZED_CACHE_SIZE * 2 ^ Z.of_nat j < sz) ∨
  ∃ j c kc, find_sized sz n i k = Some (Some c, k) ∧ (j < 10)%nat ∧ sized_caches k !! j = Some c ∧ caches k !! c = Some kc ∧
    obj_size kc = KMEM_MIN_SIZED_CACHE_SIZE * 2 ^ Z.of_nat j ∧ sz <= obj_size kc ∧
    ∀ j', (j' < j)%nat → KMEM_MIN_SIZED_CACHE_SIZE * 2 ^ Z.of_nat j' < sz.
Proof.
  intros [L S N]. assert (length (sized_caches k) = 10%nat) as L10.
  { change (KMEM_SIZED_CACHE_COUNT - 1) with 10 in L. lia. }
  change (Z.to_nat KMEM_SIZED_CACHE_COUNT) with 11%nat.
  revert i. induction n as [|n IH]; intros i Hi Hj; [left; done|right]. cbn [find_sized].
  unfold mbind, ST_bind, st_get. destruct (sized_caches k !! i) as [c|] eqn:Ec; simpl.
  - destruct (S i c Ec) as (kc & Hc & E). unfold get_cache, lift. rewrite Hc.
    assert (i < 10)%nat as Hi10 by (apply lookup_lt_Some in Ec; lia).
    destruct (Z.leb_spec sz (obj_size kc)).
    { right. by exists i, c, kc. }
    destruct (IH (Datatypes.S i)) as [[-> _]|[H'|H']]; [lia| |lia|by left|by right].
    intros j Hjl. destruct (decide (j = i)) as [->|]; [lia|apply Hj; lia].
  - left. unfold get_cache, lift. rewrite N. split; [done|]. intros j Hj10. apply Hj.
    apply lookup_ge_None in Ec. lia.
Qed.

(** The smallest sized cache whose objects have at least [sz] bytes. *)
Definition best_fit (k : kmem buddy) (sz : Z) (c : loc) (kc : kmem_cache) : Prop :=
  ∃ j, (j < 10)%nat ∧ sized_caches k !! j = Some c ∧ caches k !! c = Some kc ∧ sz <= obj_size kc ∧
    obj_size kc = KMEM_MIN_SIZED_CACHE_SIZE * 2 ^ Z.of_nat j ∧
    ∀ j', (j' < j)%nat → KMEM_MIN_SIZED_CACHE_SIZE * 2 ^ Z.of_nat j' < sz.

Lemma cache_from_size_cases k sz :
  sized_ok k →
  (cache_from_size sz k = None ∧ 8192 < sz) ∨
  (∃ c kc, cache_from_size sz k = Some (Some c, k) ∧ sz <= 8192 ∧ best_fit k sz c kc).
Proof.
  intros S. unfold cache_from_size.
  destruct (find_sized_spec k sz (Z.to_nat KMEM_SIZED_CACHE_COUNT) 0 S) as [[? _]|[[E H]|(j & c & kc & E & Hj & H1 & H2 & H3 & H4 & H5)]];
    [done|intros; lia|done|left|right].
  - split; [done|]. apply (H 9%nat). lia.
  - exists c, kc. split; [done|]. split; [|by exists j].
    assert (2 ^ Z.of_nat j <= 2 ^ 9) by (apply Z.pow_le_mono_r; lia). unfold KMEM_MIN_SIZED_CACHE_SIZE in H3. lia.
Qed.

Context (cache_cache cache_head : loc).
Context (Hpf : platform pages_end page_count slab_size cache_cache).
Context (Hhead : KERNEL_VIRTUALBASE <= cache_head < pages_end).
Abbreviation good := (good pages_end page_count slab_size cache_cache cache_head).

Lemma cache_not_null k c : good k → is_Some (caches k !! c) → c ≠ 0.
Proof.
  intros G Hc. pose proof (pf_static _ _ _ _ Hpf). assert (0 < KERNEL_VIRTUALBASE) by done.
  apply (good_known _ _ _ _ _ _ G) in Hc as [->|Hl]; [lia|].
  by destruct (client_cache _ _ slab_size _ cache_head Hpf k c G Hl) as (_ & ? & _).
Qed.

Lemma run_on_kmem {A} (c : ST (kmem buddy) A) h x k :
  c (kmem_of h) = Some (x, k) → on_kmem c h = Some (x, Kheap k (blocks h)).
Proof. unfold on_kmem. by intros ->. Qed.

(** What a small allocation does. *)
Record kmalloced (h h' : kheap) (sz ptr : Z) (c : loc) : Prop := {
  km_fresh : ¬ live (kmem_of h) c (ptr - sizeof_memory_block);
  km_inv : kinv pages_end page_count slab_size (kmem_of h');
  km_live c' o : live (kmem_of h') c' o ↔ live (kmem_of h) c' o ∨ c' = c ∧ o = ptr - sizeof_memory_block;
  km_block : ∃ size, blocks h' = <[ptr - sizeof_memory_block := SLAB size c]> (blocks h);
  km_ptr : sizeof_memory_block < ptr < 2 ^ 64;
  km_cache : c ≠ 0;
}.

Lemma kmalloc_small h sz :
  good (kmem_of h) → sized_ok (kmem_of h) → 0 <= sz → sizeof_memory_block + sz + GUARDIAN_BYTES_AFTER <= 8192 →
  ∃ c kc, best_fit (kmem_of h) (sizeof_memory_block + sz + GUARDIAN_BYTES_AFTER) c kc ∧
    ((kmalloc sz h = None ∧ (misaligned kc ∨ ¬ available pages_end page_count (kmem_of h) kc)) ∨
     ∃ ptr h', kmalloc sz h = Some (ptr, h') ∧ kmalloced h h' sz ptr c).
Proof.
  intros G S Hs Hle. destruct (cache_from_size_cases _ (sizeof_memory_block + sz + GUARDIAN_BYTES_AFTER) S) as [[_ ?]|(c & kc & Ec & _ & B)]; [lia|].
  exists c, kc. split; [done|]. destruct B as (j & _ & _ & Hc & Hfit & _). unfold kmalloc.
  rewrite wrap64_small by (unfold is_u64, sizeof_memory_block, GUARDIAN_BYTES_AFTER in *; lia).
  rewrite (proj2 (Z.ltb_ge _ _)) by (unfold KMEM_MAX_SIZED_CACHE_SIZE; lia).
  rewrite (bind_run _ _ _ _ _ (run_on_kmem _ _ _ _ Ec)). rewrite (bind_run _ _ _ c (Kheap (kmem_of h) (blocks h))) by done.
  destruct (kmem_cache_alloc_cases _ _ _ _ Hpf (kmem_of h) c kc (good_inv _ _ _ _ _ _ G) Hc)
    as [[E Hx]|[(k' & E & Hx & _)|(o & k' & E & Ho & _ & [I' F L] & _ & Sm)]].
  - left. split; [|done]. unfold mbind, ST_bind, on_kmem. cbn [kmem_of]. by rewrite E.
  - left. split; [|by right]. unfold mbind, ST_bind, on_kmem. cbn [kmem_of]. by rewrite E.
  - right. rewrite (bind_run _ _ _ o (Kheap k' (blocks h))) by (by apply (run_on_kmem _ (Kheap _ _))).
    rewrite (proj2 (Z.eqb_neq o 0)) by lia.
    assert (is_Some (caches k' !! c)) as [kc' Hc'] by (apply (same_caches_iff _ _ c Sm); by eexists).
    rewrite (bind_run _ _ _ kc' (Kheap k' (blocks h))).
    2:{ apply (run_on_kmem _ (Kheap _ _)). unfold get_cache, lift. simpl. by rewrite Hc'. }
    assert (live k' c o) as Hl by (apply L; by right).
    destruct (live_end _ _ _ _ Hpf k' c kc' o I' Hc' Hl) as [Ho1 Ho2].
    assert (obj_size kc' = obj_size kc) as Esz.
    { specialize (Sm c). rewrite Hc, Hc' in Sm. by injection Sm. }
    unfold sizeof_memory_block, GUARDIAN_BYTES_AFTER in Hfit.
    eexists _, _. split; [reflexivity|]. rewrite wrap64_small by (unfold is_u64, sizeof_memory_block; lia).
    split; rewrite ?Z.add_simpl_r; cbn [kmem_of blocks]; try done.
    + by eexists.
    + unfold sizeof_memory_block. lia.
    + apply (cache_not_null (kmem_of h)); [done|by eexists].
Qed.

Lemma kfree_small h h' sz ptr c :
  kmalloced h h' sz ptr c →
  ∃ h'', kfree ptr h' = Some (tt, h'') ∧ kinv pages_end page_count slab_size (kmem_of h'') ∧
    ∀ c' o, live (kmem_of h'') c' o ↔ live (kmem_of h) c' o.
Proof.
  intros [F I L [size B] Hp Hc]. unfold kfree, get_block.
  rewrite wrap64_small by (unfold is_u64, sizeof_memory_block in *; lia).
  destruct (kmem_cache_free_ok _ _ _ _ Hpf (kmem_of h') c (ptr - sizeof_memory_block) I Hc) as (k' & E & [I' L'] & _).
  { apply L. by right. }
  unfold mbind, ST_bind. rewrite B, lookup_insert_eq. unfold on_kmem. rewrite E. eexists. split; [reflexivity|].
  cbn [kmem_of]. split; [done|]. intros c' o. rewrite L', L.
  split; [intros [[?|?] ?]; tauto|]. intros Hl. split; [by left|]. by intros [-> ->].
Qed.
End code.

(** ** A heap to run it on *)

Definition ex_inited : kmem buddy :=
  match kmem_init ex_end 64 ex_slab_size ex_cache_size ex_cc ex_head 64 ex_boot (PageProvider0 := ex_pages) with
  | Some (_, k) => k
  | None => ex_start
  end.

Lemma ex_inited_ok :
  good ex_end 64 ex_slab_size ex_cc ex_head (PageProvider0 := ex_pages) ex_inited ∧ sized_ok ex_inited.
Proof.
  destruct (kmem_init_cases ex_end 64 (PageProvider0 := ex_pages) ex_slab_size ex_cache_size ex_cc ex_head) with (s := ex_prov) (m := ex_links)
    as [E|(k & cs & E & G & <- & L & H)]; [apply ex_platform|vm_compute; split; congruence|apply ex_prov_ok|
    eexists; vm_compute; reflexivity|eexists; vm_compute; reflexivity|discriminate|vm_compute; split; congruence| |].
  - exfalso. assert (match kmem_init ex_end 64 ex_slab_size ex_cache_size ex_cc ex_head 64 ex_boot (PageProvider0 := ex_pages)
      with Some _ => true | None => false end = true) as H by (vm_compute; reflexivity).
    unfold ex_boot in H. by rewrite E in H.
  - assert (ex_inited = k) as -> by (unfold ex_inited, ex_boot; by rewrite E). split; [done|]. split; [done|done|].
    apply eq_None_not_Some. intros H0.
    exact (cache_not_null ex_end 64 ex_slab_size ex_pc ex_cc ex_head ex_platform k 0 G H0 eq_refl).
Qed.

Definition ex_heap : kheap := Kheap ex_inited ∅.

(** ** Theorems *)



(** Blocks between the largest sized cache (8192 bytes) and the limit from
    which pages are used (10240 bytes): the search for a cache runs into the
    entry of [sized_caches] that is never set, a null pointer. *)
Theorem kmalloc_gap pages_end page_count slab_size (Hpc : page_count <= 2 ^ 63) h sz :
  sized_ok (kmem_of h) → 8192 < sizeof_memory_block + sz + GUARDIAN_BYTES_AFTER <= KMEM_MAX_SIZED_CACHE_SIZE →
  kmalloc pages_end page_count slab_size Hpc sz h = None.
Proof.
  intros S Hs. unfold kmalloc. assert (KMEM_MAX_SIZED_CACHE_SIZE = 10240) as EM by done.
  rewrite wrap64_small by (unfold is_u64; lia). rewrite (proj2 (Z.ltb_ge _ _)) by lia.
  destruct (cache_from_size_cases _ (sizeof_memory_block + sz + GUARDIAN_BYTES_AFTER) S) as [[E _]|(c & kc & _ & ? & _)]; [|lia].
  unfold mbind, ST_bind, on_kmem. by rewrite E.
Qed.

Lemma kmalloc_gap_witness :
  kmalloc ex_end 64 ex_slab_size ex_pc 9000 ex_heap = None.
Proof.
  apply (kmalloc_gap ex_end 64 ex_slab_size ex_pc ex_heap 9000); [apply ex_inited_ok|].
  vm_compute. split; congruence.
Defined.
