(* ===== verification/AvlTree.v ===== *)
(** * The balanced search tree: [kbl/data/avl_tree.hpp]

    [AVLTree<TKey, TData>] with integer keys.  A node is reached from its parent
    only, so the tree of pointers is an inductive tree; [None] is an access
    through a null pointer.  The element count [m_size] is threaded through the
    recursive functions as the code updates it. *)

From Stdlib Require Import Sorted.
From S2P Require Import Prelude.

Inductive tree (D : Type) :=
  | nullptr
  | node (key : Z) (data : D) (height : Z) (left right : tree D).
Arguments nullptr {D}.
Arguments node {D}.

Section code.
Context {D : Type}.
Implicit Types (t l r : tree D) (k h : Z) (d : D).

Definition subtree_height t : Z :=
  match t with nullptr => 0 | node _ _ h _ _ => h end.

Definition new_node k d : tree D := node k d 1 nullptr nullptr.

(** A node with its height recomputed from its children. *)
Definition fix_height k d l r : tree D :=
  node k d (Z.max (subtree_height l) (subtree_height r) + 1) l r.

Definition right_rotate t : option (tree D) :=
  match t with
  | node ky dy _ (node kx dx _ a t2) r => Some (fix_height kx dx a (fix_height ky dy t2 r))
  | _ => None
  end.

Definition left_rotate t : option (tree D) :=
  match t with
  | node kx dx _ l (node ky dy _ t2 b) => Some (fix_height ky dy (fix_height kx dx l t2) b)
  | _ => None
  end.

Definition balance_factor t : Z :=
  match t with nullptr => 0 | node _ _ _ l r => subtree_height l - subtree_height r end.

(** The key of a non-null node, as the guards [root->left && ...] read it. *)
Definition key_test (p : Z → bool) t : bool :=
  match t with nullptr => false | node k _ _ _ _ => p k end.

(** The part of [insert] after the recursive call. *)
Definition rebalance_insert k t : option (tree D) :=
  match t with
  | nullptr => None
  | node kr d _ l r =>
      let root := fix_height kr d l r in
      let factor := balance_factor root in
      if (1 <? factor) && key_test (λ kl, k <? kl) l then right_rotate root
      else if (factor <? -1) && key_test (λ kr, kr <? k) r then left_rotate root
      else if (1 <? factor) && key_test (λ kl, kl <? k) l then
        l' ← left_rotate l; right_rotate (node kr d (subtree_height root) l' r)
      else if (factor <? -1) && key_test (λ kr, k <? kr) r then
        r' ← right_rotate r; left_rotate (node kr d (subtree_height root) l r')
      else Some root
  end.

Fixpoint insert_node k d t (m_size : Z) : option (tree D * Z) :=
  match t with
  | nullptr => Some (new_node k d, m_size +w 1)
  | node kr dr h l r =>
      if k <? kr then
        '(l', m) ← insert_node k d l m_size; t' ← rebalance_insert k (node kr dr h l' r); Some (t', m)
      else if kr <? k then
        '(r', m) ← insert_node k d r m_size; t' ← rebalance_insert k (node kr dr h l r'); Some (t', m)
      else Some (t, m_size)
  end.

(** [min_node(root)->key]. *)
Fixpoint min_key t : option Z :=
  match t with
  | nullptr => None
  | node k _ _ nullptr _ => Some k
  | node _ _ _ l _ => min_key l
  end.

(** The part of [remove] after the deletion. *)
Definition rebalance_remove t : option (tree D) :=
  match t with
  | nullptr => Some nullptr
  | node kr d _ l r =>
      let root := fix_height kr d l r in
      let factor := balance_factor root in
      if (1 <? factor) && (0 <=? balance_factor l) then right_rotate root
      else if (1 <? factor) && (balance_factor l <? 0) then
        l' ← left_rotate l; right_rotate (node kr d (subtree_height root) l' r)
      else if (factor <? -1) && (balance_factor r <=? 0) then left_rotate root
      else if (factor <? -1) && (0 <? balance_factor r) then
        r' ← right_rotate r; left_rotate (node kr d (subtree_height root) l r')
      else Some root
  end.

(** In the case of two children only the key of the successor is copied. *)
Fixpoint remove_node k t (m_size : Z) : option (tree D * Z) :=
  match t with
  | nullptr => Some (nullptr, m_size)
  | node kr dr h l r =>
      if k <? kr then
        '(l', m) ← remove_node k l m_size; t' ← rebalance_remove (node kr dr h l' r); Some (t', m)
      else if kr <? k then
        '(r', m) ← remove_node k r m_size; t' ← rebalance_remove (node kr dr h l r'); Some (t', m)
      else
        match l, r with
        | nullptr, nullptr => Some (nullptr, m_size -w 1)
        | node _ _ _ _ _, nullptr => t' ← rebalance_remove l; Some (t', m_size -w 1)
        | nullptr, node _ _ _ _ _ => t' ← rebalance_remove r; Some (t', m_size -w 1)
        | _, _ =>
            kv ← min_key r;
            '(r', m) ← remove_node kv r m_size;
            t' ← rebalance_remove (node kv dr h l r'); Some (t', m)
        end
  end.

Fixpoint find_node k t : option D :=
  match t with
  | nullptr => None
  | node kr d _ l r => if kr <? k then find_node k r else if k <? kr then find_node k l else Some d
  end.

(** [clear(n)]: the keys in the order their nodes are deleted. *)
Fixpoint clear_node t : option (list Z) :=
  match t with
  | nullptr => None
  | node k _ _ l r =>
      a ← (match l with nullptr => Some [] | _ => clear_node l end);
      b ← (match r with nullptr => Some [] | _ => clear_node r end);
      Some (a ++ b ++ [k])
  end.

Record AVLTree := Avl { root : tree D; m_size : Z }.

Definition AVLTree_new : AVLTree := Avl nullptr 0.
Definition insert (k : Z) (d : D) (a : AVLTree) : option AVLTree :=
  '(t, m) ← insert_node k d (root a) (m_size a); Some (Avl t m).
Definition remove (k : Z) (a : AVLTree) : option AVLTree :=
  '(t, m) ← remove_node k (root a) (m_size a); Some (Avl t m).
Definition clear (a : AVLTree) : option (list Z * AVLTree) :=
  ks ← clear_node (root a); Some (ks, AVLTree_new).
(** [find] inserts a default value for a key that is not there. *)
Definition find (dflt : D) (k : Z) (a : AVLTree) : option (D * AVLTree) :=
  match find_node k (root a) with
  | Some d => Some (d, a)
  | None => a' ← insert k dflt a; d ← find_node k (root a'); Some (d, a')
  end.
Definition size (a : AVLTree) : Z := m_size a.
End code.
Arguments AVLTree : clear implicits.

(** ** Specification *)

Section spec.
Context {D : Type}.
Implicit Types (t l r : tree D) (k h : Z) (d : D) (es : list (Z * D)).

(** The entries in key order. *)
Fixpoint entries t : list (Z * D) :=
  match t with nullptr => [] | node k d _ l r => entries l ++ (k, d) :: entries r end.
Definition keys t : list Z := (entries t).*1.

Definition bst t : Prop := StronglySorted Z.lt (keys t).

(** Stored heights are the heights, and siblings differ by at most one. *)
Fixpoint avl t : Prop :=
  match t with
  | nullptr => True
  | node _ _ h l r => avl l ∧ avl r ∧ h = Z.max (subtree_height l) (subtree_height r) + 1 ∧
      -1 <= subtree_height l - subtree_height r <= 1
  end.

Fixpoint height t : Z :=
  match t with nullptr => 0 | node _ _ _ l r => Z.max (height l) (height r) + 1 end.

(** Insertion in a sorted list of entries that keeps what is there. *)
Fixpoint insert_entry k d es : list (Z * D) :=
  match es with
  | [] => [(k, d)]
  | (k1, d1) :: es1 =>
      if k <? k1 then (k, d) :: es else if k1 <? k then (k1, d1) :: insert_entry k d es1 else es
  end.

(** What is left after a removal.  When the node of the key has two children,
    the successor's entry goes and its key replaces the removed one, in front of
    the data of the removed entry. *)
Fixpoint removed k t : list (Z * D) :=
  match t with
  | nullptr => []
  | node kr dr _ l r =>
      if k <? kr then removed k l ++ (kr, dr) :: entries r
      else if kr <? k then entries l ++ (kr, dr) :: removed k r
      else
        match l, r, entries r with
        | node _ _ _ _ _, node _ _ _ _ _, (kv, _) :: es => entries l ++ (kv, dr) :: es
        | _, _, _ => entries l ++ entries r
        end
  end.

(** *** Order *)

Lemma StronglySorted_app_iff (l1 l2 : list Z) x :
  StronglySorted Z.lt (l1 ++ x :: l2) ↔
  StronglySorted Z.lt l1 ∧ StronglySorted Z.lt l2 ∧ (∀ y, y ∈ l1 → y < x) ∧ (∀ y, y ∈ l2 → x < y).
Proof.
  induction l1 as [|y l1 IH]; simpl.
  - split.
    + intros [H1 H2]%StronglySorted_inv. split; [constructor|]. split; [done|].
      split; [by intros y []%not_elem_of_nil|]. by apply Forall_forall.
    + intros (_ & H1 & _ & H2). constructor; [done|]. by apply Forall_forall.
  - split.
    + intros [H1 H2]%StronglySorted_inv. apply IH in H1 as (H1 & H3 & H4 & H5). rewrite Forall_app, Forall_cons in H2.
      destruct H2 as (H2 & H6 & _). split; [by constructor|]. split; [done|]. split; [|done].
      intros z [->|Hz]%elem_of_cons; [done|by apply H4].
    + intros (H1 & H2 & H3 & H4). apply StronglySorted_inv in H1 as [H1 H5].
      assert (y < x) as Hyx by (apply H3; left). constructor.
      * apply IH. split; [done|]. split; [done|]. split; [|done]. intros z Hz. apply H3. by right.
      * rewrite Forall_app, Forall_cons. split; [done|]. split; [done|]. apply Forall_forall. intros z Hz.
        specialize (H4 z Hz). lia.
Qed.

Lemma keys_node k d h l r : keys (node k d h l r) = keys l ++ k :: keys r.
Proof. unfold keys. simpl. by rewrite fmap_app. Qed.

Lemma bst_node k d h l r :
  bst (node k d h l r) ↔ bst l ∧ bst r ∧ (∀ x, x ∈ keys l → x < k) ∧ (∀ x, x ∈ keys r → k < x).
Proof. unfold bst. rewrite keys_node. apply StronglySorted_app_iff. Qed.

Lemma elem_of_keys k es : k ∈ es.*1 ↔ ∃ d, (k, d) ∈ es.
Proof.
  rewrite list_elem_of_fmap. split.
  - intros ([k' d] & -> & H). by exists d.
  - intros [d H]. by exists (k, d).
Qed.

Lemma insert_entry_left k d es k1 d1 es1 :
  k < k1 → insert_entry k d (es ++ (k1, d1) :: es1) = insert_entry k d es ++ (k1, d1) :: es1.
Proof.
  intros Hk. induction es as [|[k2 d2] es IH]; simpl.
  - by rewrite (proj2 (Z.ltb_lt k k1)).
  - destruct (k <? k2); [done|]. destruct (k2 <? k); [|done]. simpl. by rewrite IH.
Qed.

Lemma insert_entry_right k d es k1 d1 es1 :
  k1 < k → (∀ x, x ∈ es.*1 → x < k1) →
  insert_entry k d (es ++ (k1, d1) :: es1) = es ++ (k1, d1) :: insert_entry k d es1.
Proof.
  intros Hk. induction es as [|[k2 d2] es IH]; simpl; intros Hlt.
  - by rewrite (proj2 (Z.ltb_ge k k1)), (proj2 (Z.ltb_lt k1 k)) by lia.
  - assert (k2 < k1) by (apply Hlt; left). rewrite (proj2 (Z.ltb_ge k k2)), (proj2 (Z.ltb_lt k2 k)) by lia.
    rewrite IH; [done|]. intros x Hx. apply Hlt. by right.
Qed.

Lemma insert_entry_here k d es k1 d1 es1 :
  k = k1 → (∀ x, x ∈ es.*1 → x < k1) → insert_entry k d (es ++ (k1, d1) :: es1) = es ++ (k1, d1) :: es1.
Proof.
  intros ->. induction es as [|[k2 d2] es IH]; simpl; intros Hlt.
  - by rewrite Z.ltb_irrefl.
  - assert (k2 < k1) by (apply Hlt; left). rewrite (proj2 (Z.ltb_ge k1 k2)), (proj2 (Z.ltb_lt k2 k1)) by lia.
    rewrite IH; [done|]. intros x Hx. apply Hlt. by right.
Qed.

Lemma insert_entry_keys k d es x : x ∈ (insert_entry k d es).*1 ↔ x = k ∨ x ∈ es.*1.
Proof.
  induction es as [|[k1 d1] es IH]; simpl.
  - by rewrite elem_of_cons.
  - destruct (Z.ltb_spec k k1); [|destruct (Z.ltb_spec k1 k)]; simpl; rewrite !elem_of_cons, ?IH; [tauto..|].
    assert (k = k1) as -> by lia. tauto.
Qed.

Lemma length_insert_entry k d es :
  StronglySorted Z.lt es.*1 →
  length (insert_entry k d es) = if decide (k ∈ es.*1) then length es else S (length es).
Proof.
  induction es as [|[k1 d1] es IH]; [done|]. rewrite fmap_cons. cbn [fst insert_entry]. intros [H1 H2]%StronglySorted_inv.
  assert (∀ y, y ∈ es.*1 → k1 < y) as Hf by (by apply Forall_forall). specialize (IH H1).
  destruct (Z.ltb_spec k k1); [|destruct (Z.ltb_spec k1 k)]; cbn [length].
  - rewrite decide_False; [done|]. intros [->|Hx%Hf]%elem_of_cons; lia.
  - rewrite IH. destruct (decide (k ∈ es.*1)) as [Hi|Hi].
    + by rewrite decide_True by by right.
    + rewrite decide_False; [done|]. intros [->|?]%elem_of_cons; [lia|done].
  - rewrite decide_True; [done|]. assert (k = k1) as -> by lia. left.
Qed.

Lemma insert_entry_sorted k d es : StronglySorted Z.lt es.*1 → StronglySorted Z.lt (insert_entry k d es).*1.
Proof.
  induction es as [|[k1 d1] es IH]; simpl; [repeat constructor|].
  intros Hs. pose proof Hs as [H1 H2]%StronglySorted_inv.
  destruct (Z.ltb_spec k k1); [|destruct (Z.ltb_spec k1 k)]; simpl.
  - constructor; [done|]. constructor; [done|]. eapply Forall_impl; [exact H2|]. simpl. lia.
  - constructor; [by apply IH|]. apply Forall_forall. intros x [->|Hx]%insert_entry_keys; [done|].
    by eapply (proj1 (Forall_forall _ _) H2).
  - done.
Qed.

(** *** Rotations *)

Lemma right_rotate_entries t t' : right_rotate t = Some t' → entries t' = entries t.
Proof.
  destruct t as [|ky dy h l r]; [done|]. destruct l as [|kx dx h' a t2]; [done|]. simpl. intros [= <-].
  simpl. by rewrite <- app_assoc.
Qed.

Lemma left_rotate_entries t t' : left_rotate t = Some t' → entries t' = entries t.
Proof.
  destruct t as [|kx dx h l r]; [done|]. destruct r as [|ky dy h' t2 b]; [done|]. simpl. intros [= <-].
  simpl. by rewrite <- app_assoc.
Qed.

Lemma left_right_entries kr d h h' l r l' t' :
  left_rotate l = Some l' → right_rotate (node kr d h l' r) = Some t' → entries t' = entries (node kr d h' l r).
Proof. intros E1 E2. rewrite (right_rotate_entries _ _ E2). simpl. by rewrite (left_rotate_entries _ _ E1). Qed.

Lemma right_left_entries kr d h h' l r r' t' :
  right_rotate r = Some r' → left_rotate (node kr d h l r') = Some t' → entries t' = entries (node kr d h' l r).
Proof. intros E1 E2. rewrite (left_rotate_entries _ _ E2). simpl. by rewrite (right_rotate_entries _ _ E1). Qed.

Lemma rebalance_insert_entries k t t' : rebalance_insert k t = Some t' → entries t' = entries t.
Proof.
  destruct t as [|kr d h l r]; [done|]. cbn [rebalance_insert].
  repeat match goal with |- (if ?b then _ else _) = _ → _ => destruct b end; intros E;
    try (by apply right_rotate_entries in E); try (by apply left_rotate_entries in E).
  - destruct (left_rotate l) as [l'|] eqn:El; [|done]. cbn [mbind option_bind] in E. by eapply left_right_entries.
  - destruct (right_rotate r) as [r'|] eqn:Er; [|done]. cbn [mbind option_bind] in E. by eapply right_left_entries.
  - by injection E as <-.
Qed.

Lemma rebalance_remove_entries t t' : rebalance_remove t = Some t' → entries t' = entries t.
Proof.
  destruct t as [|kr d h l r]; cbn [rebalance_remove]; [by intros [= <-]|].
  repeat match goal with |- (if ?b then _ else _) = _ → _ => destruct b end; intros E;
    try (by apply right_rotate_entries in E); try (by apply left_rotate_entries in E).
  - destruct (left_rotate l) as [l'|] eqn:El; [|done]. cbn [mbind option_bind] in E. by eapply left_right_entries.
  - destruct (right_rotate r) as [r'|] eqn:Er; [|done]. cbn [mbind option_bind] in E. by eapply right_left_entries.
  - by injection E as <-.
Qed.

(** *** Balance *)

Lemma avl_height t : avl t → 0 <= subtree_height t ∧ (subtree_height t = 0 ↔ t = nullptr) ∧ height t = subtree_height t.
Proof.
  induction t as [|k d h l IHl r IHr]; simpl; [done|]. intros (Hl & Hr & -> & _).
  destruct (IHl Hl) as (? & _ & ->), (IHr Hr) as (? & _ & ->). split; [lia|]. split; [|done]. split; [lia|done].
Qed.

(** The children of a tree of known height. *)
Lemma avl_tall t : avl t → 0 < subtree_height t → ∃ k d h l r, t = node k d h l r.
Proof. intros _. destruct t as [|k d h l r]; simpl; [lia|]. intros _. by exists k, d, h, l, r. Qed.

Ltac tall t := let k := fresh "k" in let d := fresh "d" in let h := fresh "h" in let a := fresh "a" in let b := fresh "b" in
  destruct (avl_tall t) as (k & d & h & a & b & ->); [done|lia|].

Ltac heights := repeat match goal with H : avl ?t |- _ =>
  lazymatch goal with | _ : 0 <= subtree_height t |- _ => fail | _ => pose proof (proj1 (avl_height t H)) end end.

(** One side is two higher than the other: a rotation, or two, restore the
    balance.  The outer grandchild decides which. *)
Lemma rotate_right_ok k d h l r :
  avl l → avl r → subtree_height l = subtree_height r + 2 → 0 <= balance_factor l →
  ∃ t, right_rotate (node k d h l r) = Some t ∧ avl t ∧
    subtree_height t = subtree_height l + 1 - (if balance_factor l =? 1 then 1 else 0).
Proof.
  intros Hl Hr E Hb. heights. tall l. destruct Hl as (Ha & Hb' & -> & Hbal). simpl in E, Hb |- *. heights.
  eexists. split; [reflexivity|]. simpl. case_match eqn:Eb; rewrite ?Z.eqb_eq, ?Z.eqb_neq in Eb; split_and!; try done; lia.
Qed.

Lemma rotate_left_ok k d h l r :
  avl l → avl r → subtree_height r = subtree_height l + 2 → balance_factor r <= 0 →
  ∃ t, left_rotate (node k d h l r) = Some t ∧ avl t ∧
    subtree_height t = subtree_height r + 1 - (if balance_factor r =? -1 then 1 else 0).
Proof.
  intros Hl Hr E Hb. heights. tall r. destruct Hr as (Ha & Hb' & -> & Hbal). simpl in E, Hb |- *. heights.
  eexists. split; [reflexivity|]. simpl. case_match eqn:Eb; rewrite ?Z.eqb_eq, ?Z.eqb_neq in Eb; split_and!; try done; lia.
Qed.

Lemma rotate_left_right_ok k d h l r :
  avl l → avl r → subtree_height l = subtree_height r + 2 → balance_factor l < 0 →
  ∃ l' t, left_rotate l = Some l' ∧ right_rotate (node k d h l' r) = Some t ∧ avl t ∧
    subtree_height t = subtree_height l.
Proof.
  intros Hl Hr E Hb. heights. tall l. destruct Hl as (Ha & Hb' & -> & Hbal). simpl in E, Hb |- *. heights.
  tall b. destruct Hb' as (Hc & Hd & -> & Hbal'). simpl in *. heights.
  eexists _, _. split; [reflexivity|]. split; [reflexivity|]. simpl. split_and!; try done; lia.
Qed.

Lemma rotate_right_left_ok k d h l r :
  avl l → avl r → subtree_height r = subtree_height l + 2 → 0 < balance_factor r →
  ∃ r' t, right_rotate r = Some r' ∧ left_rotate (node k d h l r') = Some t ∧ avl t ∧
    subtree_height t = subtree_height r.
Proof.
  intros Hl Hr E Hb. heights. tall r. destruct Hr as (Ha & Hb' & -> & Hbal). simpl in E, Hb |- *. heights.
  tall a. destruct Ha as (Hc & Hd & -> & Hbal'). simpl in *. heights.
  eexists _, _. split; [reflexivity|]. split; [reflexivity|]. simpl. split_and!; try done; lia.
Qed.

Lemma rebalance_remove_ok k d h l r :
  avl l → avl r → -2 <= subtree_height l - subtree_height r <= 2 →
  ∃ t, rebalance_remove (node k d h l r) = Some t ∧ avl t ∧
    Z.max (subtree_height l) (subtree_height r) <= subtree_height t <= Z.max (subtree_height l) (subtree_height r) + 1 ∧
    (-1 <= subtree_height l - subtree_height r <= 1 →
     subtree_height t = Z.max (subtree_height l) (subtree_height r) + 1).
Proof.
  intros Hl Hr Hb. cbn [rebalance_remove]. heights.
  change (balance_factor (fix_height k d l r)) with (subtree_height l - subtree_height r).
  destruct (Z.ltb_spec 1 (subtree_height l - subtree_height r)); cbn [andb].
  - destruct (Z.leb_spec 0 (balance_factor l)).
    + destruct (rotate_right_ok k d (Z.max (subtree_height l) (subtree_height r) + 1) l r) as (t & E1 & Ht & E); [done..|lia|done|].
      exists t. split; [exact E1|]. split; [done|]. case_match; lia.
    + rewrite (proj2 (Z.ltb_lt _ _)) by lia.
      destruct (rotate_left_right_ok k d (subtree_height (fix_height k d l r)) l r) as (l' & t & E1 & E2 & Ht & E); [done..|lia|done|].
      rewrite E1. cbn [mbind option_bind]. rewrite E2. exists t. split; [done|]. split; [done|]. lia.
  - destruct (Z.ltb_spec (subtree_height l - subtree_height r) (-1)); cbn [andb].
    + destruct (Z.leb_spec (balance_factor r) 0).
      * destruct (rotate_left_ok k d (Z.max (subtree_height l) (subtree_height r) + 1) l r) as (t & E1 & Ht & E); [done..|lia|done|].
        exists t. split; [exact E1|]. split; [done|]. case_match; lia.
      * rewrite (proj2 (Z.ltb_lt _ _)) by lia.
        destruct (rotate_right_left_ok k d (subtree_height (fix_height k d l r)) l r) as (r' & t & E1 & E2 & Ht & E); [done..|lia|done|].
        rewrite E1. cbn [mbind option_bind]. rewrite E2. exists t. split; [done|]. split; [done|]. lia.
    + eexists. split; [reflexivity|]. simpl. split_and!; try done; lia.
Qed.

(** *** Insertion *)

(** A tree that grew leans to the side the key went to. *)
Definition grown k t t' : Prop :=
  subtree_height t' = subtree_height t ∨
  subtree_height t' = subtree_height t + 1 ∧
    (t = nullptr ∨ ∃ kr d h l r, t' = node kr d h l r ∧
       (k < kr ∧ balance_factor t' = 1 ∨ kr < k ∧ balance_factor t' = -1)).

Lemma rebalance_insert_left k kr dr h l l' r :
  avl l → avl l' → avl r → -1 <= subtree_height l - subtree_height r <= 1 → k < kr → grown k l l' →
  ∃ t', rebalance_insert k (node kr dr h l' r) = Some t' ∧ avl t' ∧
    grown k (node kr dr (Z.max (subtree_height l) (subtree_height r) + 1) l r) t'.
Proof.
  intros Hl Hl' Hr Hb Hk G. cbn [rebalance_insert]. heights.
  change (balance_factor (fix_height kr dr l' r)) with (subtree_height l' - subtree_height r).
  rewrite (proj2 (Z.ltb_ge (subtree_height l' - subtree_height r) (-1))) by (destruct G as [?|[? _]]; lia). cbn [andb].
  destruct (Z.ltb_spec 1 (subtree_height l' - subtree_height r)); cbn [andb].
  - destruct G as [?|[E [->|(kl & dl & hl & a & b & -> & Hcase)]]]; [lia|simpl in *; lia|]. cbn [key_test].
    destruct Hcase as [[Hkl Ebf]|[Hkl Ebf]].
    + rewrite (proj2 (Z.ltb_lt k kl)) by done.
      destruct (rotate_right_ok kr dr (Z.max (subtree_height (node kl dl hl a b)) (subtree_height r) + 1) (node kl dl hl a b) r)
        as (t & E1 & Ht & Eh); [done..|lia|lia|].
      exists t. split; [exact E1|]. split; [done|]. left. rewrite Ebf in Eh. simpl (1 =? 1) in Eh. cbn [subtree_height] in *. lia.
    + rewrite (proj2 (Z.ltb_ge k kl)), (proj2 (Z.ltb_lt kl k)) by lia.
      destruct (rotate_left_right_ok kr dr (subtree_height (fix_height kr dr (node kl dl hl a b) r)) (node kl dl hl a b) r)
        as (l'' & t & E1 & E2 & Ht & Eh); [done..|lia|lia|].
      rewrite E1. cbn [mbind option_bind]. rewrite E2. exists t. split; [done|]. split; [done|]. left. cbn [subtree_height] in *. lia.
  - eexists. split; [reflexivity|]. split; [simpl; split_and!; try done; destruct G as [?|[? _]]; lia|].
    destruct G as [E|[E _]]; [left; simpl; by rewrite E|].
    destruct (decide (subtree_height l < subtree_height r)); [left; simpl; lia|].
    right. simpl. split; [lia|]. right. eexists _, _, _, _, _. split; [reflexivity|]. left. split; [done|]. simpl. lia.
Qed.

Lemma rebalance_insert_right k kr dr h l r r' :
  avl l → avl r → avl r' → -1 <= subtree_height l - subtree_height r <= 1 → kr < k → grown k r r' →
  ∃ t', rebalance_insert k (node kr dr h l r') = Some t' ∧ avl t' ∧
    grown k (node kr dr (Z.max (subtree_height l) (subtree_height r) + 1) l r) t'.
Proof.
  intros Hl Hr Hr' Hb Hk G. cbn [rebalance_insert]. heights.
  change (balance_factor (fix_height kr dr l r')) with (subtree_height l - subtree_height r').
  rewrite (proj2 (Z.ltb_ge 1 (subtree_height l - subtree_height r'))) by (destruct G as [?|[? _]]; lia). cbn [andb].
  destruct (Z.ltb_spec (subtree_height l - subtree_height r') (-1)); cbn [andb].
  - destruct G as [?|[E [->|(kl & dl & hl & a & b & -> & Hcase)]]]; [lia|simpl in *; lia|]. cbn [key_test].
    destruct Hcase as [[Hkl Ebf]|[Hkl Ebf]].
    + rewrite (proj2 (Z.ltb_ge kl k)), (proj2 (Z.ltb_lt k kl)) by lia.
      destruct (rotate_right_left_ok kr dr (subtree_height (fix_height kr dr l (node kl dl hl a b))) l (node kl dl hl a b))
        as (r'' & t & E1 & E2 & Ht & Eh); [done..|lia|lia|].
      rewrite E1. cbn [mbind option_bind]. rewrite E2. exists t. split; [done|]. split; [done|]. left. cbn [subtree_height] in *. lia.
    + rewrite (proj2 (Z.ltb_lt kl k)) by done.
      destruct (rotate_left_ok kr dr (Z.max (subtree_height l) (subtree_height (node kl dl hl a b)) + 1) l (node kl dl hl a b))
        as (t & E1 & Ht & Eh); [done..|lia|lia|].
      exists t. split; [exact E1|]. split; [done|]. left. rewrite Ebf in Eh. simpl (-1 =? -1) in Eh. cbn [subtree_height] in *. lia.
  - eexists. split; [reflexivity|]. split; [simpl; split_and!; try done; destruct G as [?|[? _]]; lia|].
    destruct G as [E|[E _]]; [left; simpl; by rewrite E|].
    destruct (decide (subtree_height r < subtree_height l)); [left; simpl; lia|].
    right. simpl. split; [lia|]. right. eexists _, _, _, _, _. split; [reflexivity|]. right. split; [done|]. simpl. lia.
Qed.

Lemma insert_node_ok k d t m :
  bst t → avl t →
  ∃ t' m', insert_node k d t m = Some (t', m') ∧ avl t' ∧ grown k t t' ∧
    entries t' = insert_entry k d (entries t) ∧ m' = (if decide (k ∈ keys t) then m else m +w 1).
Proof.
  induction t as [|kr dr h l IHl r IHr]; intros Hs Ha.
  { eexists _, _. split; [reflexivity|]. split; [simpl; split_and!; done|]. split; [right; by split; [|left]|]. by split. }
  apply bst_node in Hs as (Hsl & Hsr & Hlt & Hgt). destruct Ha as (Hal & Har & -> & Hb). cbn [insert_node].
  assert (∀ x, x ∈ keys (node kr dr (Z.max (subtree_height l) (subtree_height r) + 1) l r) ↔ x ∈ keys l ∨ x = kr ∨ x ∈ keys r) as Hkeys.
  { intros x. by rewrite keys_node, elem_of_app, elem_of_cons. }
  destruct (Z.ltb_spec k kr) as [Hk|Hk]; [|destruct (Z.ltb_spec kr k) as [Hk2|Hk2]].
  - destruct (IHl Hsl Hal) as (l' & m' & E & Ha' & G & Ee & Em).
    destruct (rebalance_insert_left k kr dr (Z.max (subtree_height l) (subtree_height r) + 1) l l' r) as (t' & E2 & Ht & G2); [done..|].
    rewrite E. cbn [mbind option_bind]. rewrite E2. cbn [mbind option_bind]. exists t', m'. split; [done|]. split; [done|]. split; [done|].
    split; [rewrite (rebalance_insert_entries _ _ _ E2); simpl; by rewrite Ee, insert_entry_left|].
    rewrite Em. apply decide_ext. rewrite Hkeys. split; [tauto|]. intros [?|[->|Hx]]; [done|lia|]. specialize (Hgt k Hx). lia.
  - destruct (IHr Hsr Har) as (r' & m' & E & Ha' & G & Ee & Em).
    destruct (rebalance_insert_right k kr dr (Z.max (subtree_height l) (subtree_height r) + 1) l r r') as (t' & E2 & Ht & G2); [done..|].
    rewrite E. cbn [mbind option_bind]. rewrite E2. cbn [mbind option_bind]. exists t', m'. split; [done|]. split; [done|]. split; [done|].
    split; [rewrite (rebalance_insert_entries _ _ _ E2); simpl; by rewrite Ee, insert_entry_right|].
    rewrite Em. apply decide_ext. rewrite Hkeys. split; [tauto|]. intros [Hx|[->|?]]; [|lia|done]. specialize (Hlt k Hx). lia.
  - assert (k = kr) as -> by lia. eexists _, _. split; [reflexivity|]. split; [done|]. split; [by left|].
    split; [simpl; by rewrite insert_entry_here|]. rewrite decide_True; [done|]. apply Hkeys. tauto.
Qed.

(** *** Removal *)

Lemma min_key_entries k d h l r :
  ∃ kv dv es, min_key (node k d h l r) = Some kv ∧ entries (node k d h l r) = (kv, dv) :: es.
Proof.
  revert k d h r. induction l as [|kl dl hl a IHa b _]; intros k d h r; [by exists k, d, (entries r)|].
  destruct (IHa kl dl hl b) as (kv & dv & es & E1 & E2). exists kv, dv, (es ++ (k, d) :: entries r).
  split; [done|]. change (entries (node k d h (node kl dl hl a b) r)) with (entries (node kl dl hl a b) ++ (k, d) :: entries r).
  by rewrite E2.
Qed.

Lemma removed_min kv dv es t : bst t → entries t = (kv, dv) :: es → removed kv t = es.
Proof.
  revert es. induction t as [|k d h l IHl r IHr]; intros es Hs E; [done|].
  apply bst_node in Hs as (Hsl & Hsr & Hlt & Hgt). cbn [removed]. cbn [entries] in E.
  destruct l as [|kl dl hl a b] eqn:El.
  - simpl in E. injection E as -> -> ->. by rewrite Z.ltb_irrefl.
  - rewrite <- El in *. assert (∃ es1, entries l = (kv, dv) :: es1 ∧ es = es1 ++ (k, d) :: entries r) as (es1 & E1 & ->).
    { destruct (entries l) as [|e es1] eqn:E1; [subst l; destruct (min_key_entries kl dl hl a b) as (? & ? & ? & _ & ?); congruence|].
      simpl in E. injection E as -> <-. by exists es1. }
    rewrite (proj2 (Z.ltb_lt kv k)); [by rewrite (IHl es1)|]. apply Hlt. unfold keys. rewrite E1. left.
Qed.

Lemma rebalance_keeps t : avl t → ∃ t', rebalance_remove t = Some t' ∧ avl t' ∧ subtree_height t' = subtree_height t.
Proof.
  destruct t as [|k d h l r]; [by exists nullptr|]. intros (Hl & Hr & -> & Hb).
  destruct (rebalance_remove_ok k d (Z.max (subtree_height l) (subtree_height r) + 1) l r) as (t' & E & Ht & _ & Eh); [done..|lia|].
  exists t'. split; [done|]. split; [done|]. simpl. by apply Eh.
Qed.

Lemma remove_node_ok k t m :
  bst t → avl t →
  ∃ t' m', remove_node k t m = Some (t', m') ∧ avl t' ∧ subtree_height t - 1 <= subtree_height t' <= subtree_height t ∧
    entries t' = removed k t ∧ m' = (if decide (k ∈ keys t) then m -w 1 else m).
Proof.
  revert k. induction t as [|kr dr h l IHl r IHr]; intros k Hs Ha.
  { exists nullptr, m. split_and!; try done; simpl; lia. }
  apply bst_node in Hs as (Hsl & Hsr & Hlt & Hgt). destruct Ha as (Hal & Har & -> & Hb). cbn [remove_node removed]. heights.
  assert (∀ x, x ∈ keys (node kr dr (Z.max (subtree_height l) (subtree_height r) + 1) l r) ↔ x ∈ keys l ∨ x = kr ∨ x ∈ keys r) as Hkeys.
  { intros x. by rewrite keys_node, elem_of_app, elem_of_cons. }
  remember (Z.max (subtree_height l) (subtree_height r) + 1) as h eqn:Eh.
  destruct (Z.ltb_spec k kr) as [Hk|Hk]; [|destruct (Z.ltb_spec kr k) as [Hk2|Hk2]].
  - destruct (IHl k Hsl Hal) as (l' & m' & E & Ha' & Hh & Ee & Em). heights.
    destruct (rebalance_remove_ok kr dr h l' r) as (t' & E2 & Ht & Hh2 & Hh3); [done..|lia|].
    rewrite E. cbn [mbind option_bind]. rewrite E2. cbn [mbind option_bind]. exists t', m'. split; [done|]. split; [done|].
    split; [cbn [subtree_height]; lia|].
    split; [rewrite (rebalance_remove_entries _ _ E2); simpl; by rewrite Ee|].
    rewrite Em. apply decide_ext. rewrite Hkeys. split; [tauto|]. intros [?|[->|Hx]]; [done|lia|]. specialize (Hgt k Hx). lia.
  - destruct (IHr k Hsr Har) as (r' & m' & E & Ha' & Hh & Ee & Em). heights.
    destruct (rebalance_remove_ok kr dr h l r') as (t' & E2 & Ht & Hh2 & Hh3); [done..|lia|].
    rewrite E. cbn [mbind option_bind]. rewrite E2. cbn [mbind option_bind]. exists t', m'. split; [done|]. split; [done|].
    split; [cbn [subtree_height]; lia|].
    split; [rewrite (rebalance_remove_entries _ _ E2); simpl; by rewrite Ee|].
    rewrite Em. apply decide_ext. rewrite Hkeys. split; [tauto|]. intros [Hx|[->|?]]; [|lia|done]. specialize (Hlt k Hx). lia.
  - assert (k = kr) as -> by lia. rewrite (decide_True (P := kr ∈ keys _)) by (apply Hkeys; tauto).
    destruct l as [|kl dl hl la lb] eqn:El; [|destruct r as [|ks ds hs ra rb] eqn:Er]; [|rewrite <- El in *..].
    + destruct (rebalance_keeps r Har) as (t' & E & Ht & Hh).
      destruct r as [|ks ds hs ra rb]; [exists nullptr, (m -w 1); split_and!; try done; cbn [subtree_height] in *; lia|].
      rewrite E. exists t', (m -w 1). split; [done|]. split; [done|]. split; [cbn [subtree_height] in *; lia|].
      split; [by rewrite (rebalance_remove_entries _ _ E)|done].
    + destruct (rebalance_keeps l Hal) as (t' & E & Ht & Hh).
      rewrite E. exists t', (m -w 1). split; [done|]. split; [done|]. split; [cbn [subtree_height] in *; lia|].
      split; [rewrite (rebalance_remove_entries _ _ E), El; simpl; by rewrite app_nil_r|done].
    + rewrite <- Er in *. destruct (min_key_entries ks ds hs ra rb) as (kv & dv & es & E1 & E2). rewrite <- Er in E1, E2.
      destruct (IHr kv Hsr Har) as (r' & m' & E & Ha' & Hh & Ee & Em). heights.
      destruct (rebalance_remove_ok kv dr h l r') as (t' & E3 & Ht & Hh2 & Hh3); [done..|lia|].
      exists t', m'. split.
      { rewrite E1. cbn [mbind option_bind]. rewrite E. cbn [mbind option_bind]. by rewrite E3. }
      split; [done|]. split; [cbn [subtree_height]; lia|]. split.
      { rewrite (rebalance_remove_entries _ _ E3). simpl. rewrite Ee, (removed_min kv dv es r), E2 by done. done. }
      rewrite Em, decide_True; [done|]. unfold keys. rewrite E2. left.
Qed.
End spec.

(** ** The tree as a map *)

Section maps.
Context {D : Type}.
Implicit Types (t l r : tree D) (k x : Z) (d : D) (a : AVLTree D) (es : list (Z * D)).

Definition map_of es : gmap Z D := list_to_map es.
Definition to_map a : gmap Z D := map_of (entries (root a)).

Record wf a : Prop := {
  wf_bst : bst (root a);
  wf_avl : avl (root a);
  wf_size : m_size a = wrap64 (Z.of_nat (length (entries (root a))));
}.

Lemma sorted_nodup (l : list Z) : StronglySorted Z.lt l → NoDup l.
Proof.
  induction 1 as [|x l H IH Hf]; constructor; [|done]. intros Hx.
  apply (proj1 (Forall_forall _ _) Hf) in Hx. lia.
Qed.

Lemma map_of_lookup es k d : StronglySorted Z.lt es.*1 → map_of es !! k = Some d ↔ (k, d) ∈ es.
Proof. intros H%sorted_nodup. symmetry. by apply elem_of_list_to_map. Qed.

Lemma map_of_none es k : map_of es !! k = None ↔ k ∉ es.*1.
Proof. symmetry. apply not_elem_of_list_to_map. Qed.

Lemma map_ext_entries es m :
  StronglySorted Z.lt es.*1 → (∀ k d, (k, d) ∈ es ↔ m !! k = Some d) → map_of es = m.
Proof.
  intros Hs H. apply map_eq. intros k. apply option_eq. intros d. by rewrite map_of_lookup, H.
Qed.

Lemma find_node_spec t k : bst t → find_node k t = map_of (entries t) !! k.
Proof.
  intros Hs. apply option_eq. intros d. rewrite map_of_lookup by done. revert Hs.
  induction t as [|kr dr h l IHl r IHr]; intros Hs; simpl.
  { split; [done|]. by intros ?%not_elem_of_nil. }
  apply bst_node in Hs as (Hsl & Hsr & Hlt & Hgt). rewrite elem_of_app, elem_of_cons.
  assert (∀ k d, (k, d) ∈ entries l → k < kr) as Hlt'. { intros x dx Hx. apply Hlt, elem_of_keys. by exists dx. }
  assert (∀ k d, (k, d) ∈ entries r → kr < k) as Hgt'. { intros x dx Hx. apply Hgt, elem_of_keys. by exists dx. }
  destruct (Z.ltb_spec kr k) as [Hk|Hk]; [|destruct (Z.ltb_spec k kr) as [Hk2|Hk2]].
  - rewrite IHr by done. split; [tauto|]. intros [H|[[= -> ->]|H]]; [apply Hlt' in H; lia|lia|done].
  - rewrite IHl by done. split; [tauto|]. intros [H|[[= -> ->]|H]]; [done|lia|apply Hgt' in H; lia].
  - assert (k = kr) as -> by lia. split; [intros [= ->]; tauto|]. intros [H|[[= ->]|H]]; [apply Hlt' in H; lia|done|apply Hgt' in H; lia].
Qed.

Lemma insert_entry_elem k d es x dx :
  StronglySorted Z.lt es.*1 →
  (x, dx) ∈ insert_entry k d es ↔ (x, dx) ∈ es ∨ (k ∉ es.*1) ∧ x = k ∧ dx = d.
Proof.
  induction es as [|[k1 d1] es IH]; [cbn [insert_entry]|rewrite fmap_cons; cbn [fst insert_entry]].
  { intros _. rewrite list_elem_of_singleton. split; [intros [= -> ->]|intros [H|(_ & -> & ->)]; [|done]].
    - right. split; [apply not_elem_of_nil|done].
    - by apply not_elem_of_nil in H. }
  intros [H1 H2]%StronglySorted_inv. assert (∀ y, y ∈ es.*1 → k1 < y) as Hf by (by apply Forall_forall).
  specialize (IH H1). destruct (Z.ltb_spec k k1); [|destruct (Z.ltb_spec k1 k)]; rewrite !elem_of_cons.
  - split; [intros [[= -> ->]|?]; [right|tauto]|intros [?|(_ & -> & ->)]; tauto].
    split; [|done]. intros [->|Hx%Hf]; lia.
  - rewrite IH. split; [|tauto]. intros [?|[?|(? & ? & ?)]]; [tauto|tauto|].
    right. split; [|done]. intros [->|?]; [lia|done].
  - split; [tauto|]. intros [?|(Hn & _)]; [done|]. exfalso. apply Hn. left. lia.
Qed.

Lemma map_of_insert k d es :
  StronglySorted Z.lt es.*1 →
  map_of (insert_entry k d es) = match map_of es !! k with Some _ => map_of es | None => <[k := d]> (map_of es) end.
Proof.
  intros Hs. apply map_ext_entries; [by apply insert_entry_sorted|]. intros x dx.
  rewrite insert_entry_elem by done. rewrite <- (map_of_lookup es) by done. destruct (map_of es !! k) as [d0|] eqn:E.
  - split; [|tauto]. intros [?|(Hn & _)]; [done|]. apply map_of_none in Hn. congruence.
  - apply map_of_none in E as E'. rewrite lookup_insert_Some. split.
    + intros [Hx|(_ & -> & ->)]; [right|by left]. split; [congruence|done].
    + intros [[-> ->]|[_ ?]]; tauto.
Qed.

Lemma avl_insert_ok k d a :
  wf a → ∃ a', insert k d a = Some a' ∧ wf a' ∧
    to_map a' = match to_map a !! k with Some _ => to_map a | None => <[k := d]> (to_map a) end.
Proof.
  intros [Hs Ha Hm]. destruct (insert_node_ok k d (root a) (m_size a) Hs Ha) as (t' & m' & E & Ha' & _ & Ee & Em).
  exists (Avl t' m'). unfold insert. rewrite E. split; [done|]. unfold to_map. cbn [root].
  rewrite Ee, map_of_insert by done. split; [|done]. split; cbn [root m_size]; [|done|].
  - unfold bst, keys. rewrite Ee. by apply insert_entry_sorted.
  - rewrite Em, Ee, Hm. rewrite (length_insert_entry _ _ _ Hs). unfold keys.
    destruct (decide (k ∈ (entries (root a)).*1)); [done|].
    unfold wrap64. rewrite Zplus_mod_idemp_l. f_equal. lia.
Qed.

(** The node of a key. *)
Fixpoint subtree_at k t : tree D :=
  match t with
  | nullptr => nullptr
  | node kr _ _ l r => if k <? kr then subtree_at k l else if kr <? k then subtree_at k r else t
  end.

(** The successor of a key whose node has two children, with the data of the
    key itself. *)
Definition moved k t : option (Z * D) :=
  match subtree_at k t with
  | node _ d _ (node _ _ _ _ _) ((node _ _ _ _ _) as r) => kv ← min_key r; Some (kv, d)
  | _ => None
  end.

Lemma removed_keys k t x : bst t → x ∈ (removed k t).*1 ↔ x ∈ keys t ∧ x ≠ k.
Proof.
  induction t as [|kr dr h l IHl r IHr]; intros Hs; cbn [removed].
  { split; [by intros ?%not_elem_of_nil|by intros [?%not_elem_of_nil _]]. }
  apply bst_node in Hs as (Hsl & Hsr & Hlt & Hgt). rewrite keys_node, elem_of_app, elem_of_cons.
  destruct (Z.ltb_spec k kr) as [Hk|Hk]; [|destruct (Z.ltb_spec kr k) as [Hk2|Hk2]].
  - rewrite fmap_app, fmap_cons, elem_of_app, elem_of_cons, (IHl Hsl). cbn [fst]. fold (keys r).
    split; [intros [?|[->|Hx]]; [tauto|split; [tauto|lia]|]|tauto]. split; [tauto|]. specialize (Hgt x Hx). lia.
  - rewrite fmap_app, fmap_cons, elem_of_app, elem_of_cons, (IHr Hsr). cbn [fst]. fold (keys l).
    split; [intros [Hx|[->|?]]; [|split; [tauto|lia]|tauto]|tauto]. split; [tauto|]. specialize (Hlt x Hx). lia.
  - assert (k = kr) as -> by lia.
    assert (x ∈ keys l ∨ x ∈ keys r ↔ (x ∈ keys l ∨ x = kr ∨ x ∈ keys r) ∧ x ≠ kr) as Hiff.
    { split; [intros [Hx|Hx]; (split; [tauto|]); [specialize (Hlt x Hx)|specialize (Hgt x Hx)]; lia|tauto]. }
    rewrite <- Hiff. unfold keys.
    destruct l as [|kl dl hl la lb] eqn:El; [|rewrite <- El]; [by rewrite fmap_app, elem_of_app|].
    destruct r as [|ks ds hs ra rb] eqn:Er; [by rewrite fmap_app, elem_of_app|]. rewrite <- Er.
    destruct (entries r) as [|[kv dv] es]; [by rewrite fmap_app, elem_of_app|].
    rewrite fmap_app, !fmap_cons, elem_of_app, !elem_of_cons. done.
Qed.

Lemma removed_sorted k t : bst t → StronglySorted Z.lt (removed k t).*1.
Proof.
  induction t as [|kr dr h l IHl r IHr]; intros Hs; cbn [removed]; [constructor|].
  apply bst_node in Hs as (Hsl & Hsr & Hlt & Hgt).
  destruct (Z.ltb_spec k kr) as [Hk|Hk]; [|destruct (Z.ltb_spec kr k) as [Hk2|Hk2]].
  - rewrite fmap_app, fmap_cons. apply StronglySorted_app_iff. split_and!; [by apply IHl|done| |done].
    intros y [? _]%removed_keys; [by apply Hlt|done].
  - rewrite fmap_app, fmap_cons. apply StronglySorted_app_iff. split_and!; [done|by apply IHr|done|].
    intros y [? _]%removed_keys; [by apply Hgt|done].
  - assert (∀ es, entries r = es → StronglySorted Z.lt (entries l ++ es).*1) as Hplain.
    { intros es <-. rewrite fmap_app. fold (keys l) (keys r). destruct r as [|ks ds hs ra rb]; [by rewrite app_nil_r|].
      destruct (min_key_entries ks ds hs ra rb) as (kv & dv & es & _ & E). unfold keys at 2. rewrite E. rewrite fmap_cons.
      unfold bst, keys in Hsr. rewrite E, fmap_cons in Hsr. apply StronglySorted_inv in Hsr as [Hs1 Hs2].
      assert (kr < kv) by (apply Hgt; unfold keys; rewrite E; left).
      apply StronglySorted_app_iff. split_and!; [done|done| |by apply Forall_forall]. intros y Hy. simpl. specialize (Hlt y Hy). lia. }
    destruct l as [|kl dl hl la lb] eqn:El; [by apply Hplain|rewrite <- El in *].
    destruct r as [|ks ds hs ra rb] eqn:Er; [by apply Hplain|rewrite <- Er in *].
    destruct (entries r) as [|[kv dv] es] eqn:E; [by apply Hplain|].
    specialize (Hplain _ eq_refl). by rewrite fmap_app, fmap_cons in Hplain |- *.
Qed.

Lemma removed_length k t :
  bst t → length (entries t) = (length (removed k t) + if decide (k ∈ keys t) then 1 else 0)%nat.
Proof.
  intros Hs. assert ((removed k t).*1 ≡ₚ filter (λ x, x ≠ k) (keys t)) as Hp.
  { apply NoDup_Permutation; [by apply sorted_nodup, removed_sorted|by apply NoDup_filter, sorted_nodup|].
    intros x. rewrite removed_keys by done. rewrite list_elem_of_filter. tauto. }
  apply Permutation_length in Hp. rewrite length_fmap in Hp. rewrite Hp.
  assert (length (entries t) = length (keys t)) as -> by by unfold keys; rewrite length_fmap.
  apply sorted_nodup in Hs. clear Hp. induction (keys t) as [|y l IH]; [done|]. apply NoDup_cons in Hs as [Hy Hs].
  destruct (decide (y = k)) as [->|Hne].
  - rewrite filter_cons_False by tauto. rewrite decide_True by left. specialize (IH Hs).
    rewrite decide_False in IH by done. cbn [length]. lia.
  - rewrite filter_cons_True by done. simpl. rewrite (IH Hs). simpl. f_equal. f_equal. apply decide_ext.
    rewrite elem_of_cons. split; [tauto|]. intros [?|?]; [congruence|done].
Qed.

Lemma moved_key k t kv d : moved k t = Some (kv, d) → kv ∈ keys t.
Proof.
  unfold moved. induction t as [|kr dr h l IHl r IHr]; cbn [subtree_at]; [done|]. rewrite keys_node, elem_of_app, elem_of_cons.
  destruct (k <? kr); [tauto|]. destruct (kr <? k); [tauto|].
  destruct l as [|kl dl hl la lb]; [done|]. destruct r as [|ks ds hs ra rb]; [done|].
  destruct (min_key_entries ks ds hs ra rb) as (kv' & dv & es & E1 & E2). rewrite E1. intros [= -> ->].
  right; right. unfold keys. rewrite E2. left.
Qed.

Lemma moved_node k kr dr h l r :
  moved k (node kr dr h l r) =
  if k <? kr then moved k l else if kr <? k then moved k r
  else match l, r with node _ _ _ _ _, node _ _ _ _ _ => kv ← min_key r; Some (kv, dr) | _, _ => None end.
Proof. unfold moved. cbn [subtree_at]. destruct (k <? kr), (kr <? k); try done; by destruct l, r. Qed.

Lemma removed_elem k t x dx :
  bst t →
  (x, dx) ∈ removed k t ↔
  match moved k t with
  | Some (kv, d) => x = kv ∧ dx = d ∨ x ≠ kv ∧ x ≠ k ∧ (x, dx) ∈ entries t
  | None => x ≠ k ∧ (x, dx) ∈ entries t
  end.
Proof.
  induction t as [|kr dr h l IHl r IHr]; intros Hs.
  { simpl. split; [by intros ?%not_elem_of_nil|by intros [_ ?%not_elem_of_nil]]. }
  apply bst_node in Hs as (Hsl & Hsr & Hlt & Hgt). rewrite moved_node. cbn [removed entries].
  assert (∀ y dy, (y, dy) ∈ entries l → y < kr) as Hl'. { intros y dy Hy. apply Hlt, elem_of_keys. by exists dy. }
  assert (∀ y dy, (y, dy) ∈ entries r → kr < y) as Hr'. { intros y dy Hy. apply Hgt, elem_of_keys. by exists dy. }
  destruct (Z.ltb_spec k kr) as [Hk|Hk]; [|destruct (Z.ltb_spec kr k) as [Hk2|Hk2]].
  - specialize (IHl Hsl). destruct (moved k l) as [[kv d]|] eqn:E; rewrite !elem_of_app, !elem_of_cons, IHl.
    + apply moved_key in E. specialize (Hlt kv E). split; [|tauto].
      intros [[?|?]|[[= -> ->]|Hx]]; [tauto|tauto|right; split; [lia|]; split; [lia|tauto]|].
      specialize (Hr' x dx Hx). right. split; [lia|]. split; [lia|tauto].
    + split; [|tauto]. intros [?|[[= -> ->]|Hx]]; [tauto|split; [lia|tauto]|]. specialize (Hr' x dx Hx). split; [lia|tauto].
  - specialize (IHr Hsr). destruct (moved k r) as [[kv d]|] eqn:E; rewrite !elem_of_app, !elem_of_cons, IHr.
    + apply moved_key in E. specialize (Hgt kv E). split; [|tauto].
      intros [Hx|[[= -> ->]|[?|?]]]; [|right; split; [lia|]; split; [lia|tauto]|tauto|tauto].
      specialize (Hl' x dx Hx). right. split; [lia|]. split; [lia|tauto].
    + split; [|tauto]. intros [Hx|[[= -> ->]|?]]; [|split; [lia|tauto]|tauto]. specialize (Hl' x dx Hx). split; [lia|tauto].
  - assert (k = kr) as -> by lia.
    assert ((x, dx) ∈ entries l ++ entries r ↔ x ≠ kr ∧ (x, dx) ∈ entries l ++ (kr, dr) :: entries r) as Hplain.
    { rewrite !elem_of_app, elem_of_cons. split; [|intros [? [?|[[= ? ?]|?]]]; tauto].
      intros [Hx|Hx]; (split; [|tauto]); [specialize (Hl' x dx Hx)|specialize (Hr' x dx Hx)]; lia. }
    destruct l as [|kl dl hl la lb] eqn:El; [done|rewrite <- El in *].
    destruct r as [|ks ds hs ra rb] eqn:Er; [done|].
    destruct (min_key_entries ks ds hs ra rb) as (kv & dv & es & E1 & E2).
    change (entries ra ++ (ks, ds) :: entries rb) with (entries (node ks ds hs ra rb)).
    rewrite E1, <- Er in *. cbn [mbind option_bind].
    rewrite E2 in *. rewrite !elem_of_app, !elem_of_cons. unfold bst, keys in Hsr. rewrite E2, fmap_cons in Hsr.
    apply StronglySorted_inv in Hsr as [_ Hmin]. simpl in Hmin.
    assert (kr < kv) as Hkv by (apply (Hr' kv dv); left).
    assert (∀ y dy, (y, dy) ∈ es → kv < y) as Hes.
    { intros y dy Hy. apply (proj1 (Forall_forall _ _) Hmin), elem_of_keys. by exists dy. }
    split.
    + intros [Hx|[[= -> ->]|Hx]]; [|tauto|]; right.
      * specialize (Hl' x dx Hx). split; [lia|]. split; [lia|tauto].
      * specialize (Hes x dx Hx). split; [lia|]. split; [lia|tauto].
    + intros [[-> ->]|(? & ? & [?|[[= ? ?]|[[= ? ?]|?]]])]; tauto.
Qed.

Lemma avl_remove_ok k a :
  wf a → ∃ a', remove k a = Some a' ∧ wf a' ∧
    to_map a' = match moved k (root a) with
                | Some (kv, d) => <[kv := d]> (delete k (to_map a))
                | None => delete k (to_map a)
                end.
Proof.
  intros [Hs Ha Hm]. destruct (remove_node_ok k (root a) (m_size a) Hs Ha) as (t' & m' & E & Ha' & _ & Ee & Em).
  exists (Avl t' m'). unfold remove. rewrite E. split; [done|]. unfold to_map. cbn [root]. rewrite Ee. split; [split|]; cbn [root m_size].
  - unfold bst, keys. rewrite Ee. by apply removed_sorted.
  - done.
  - rewrite Em, Ee, Hm. pose proof (removed_length k (root a) Hs) as HL. unfold keys in HL. unfold keys.
    destruct (decide (k ∈ (entries (root a)).*1)) as [Hd|Hd]; [|do 2 f_equal; lia].
    unfold wrap64. rewrite Zminus_mod_idemp_l. f_equal. lia.
  - apply map_ext_entries; [by apply removed_sorted|]. intros x dx. rewrite removed_elem by done.
    destruct (moved k (root a)) as [[kv d]|].
    + rewrite lookup_insert_Some, lookup_delete_Some, map_of_lookup by done. naive_solver.
    + rewrite lookup_delete_Some, map_of_lookup by done. naive_solver.
Qed.

Lemma find_ok dflt k a :
  wf a → ∃ a', find dflt k a = Some (default dflt (to_map a !! k), a') ∧ wf a' ∧
    to_map a' = <[k := default dflt (to_map a !! k)]> (to_map a).
Proof.
  intros W. unfold find. rewrite (find_node_spec _ _ (wf_bst _ W)). fold (to_map a).
  destruct (to_map a !! k) as [d|] eqn:E.
  - exists a. split; [done|]. split; [done|]. simpl. by rewrite insert_id.
  - destruct (avl_insert_ok k dflt a W) as (a' & E1 & W' & Em). rewrite E in Em. exists a'. rewrite E1. cbn [mbind option_bind].
    rewrite (find_node_spec _ _ (wf_bst _ W')). fold (to_map a'). rewrite Em, lookup_insert_eq. by split.
Qed.

Lemma clear_node_ok t : t ≠ nullptr → ∃ ks, clear_node t = Some ks ∧ ks ≡ₚ keys t.
Proof.
  assert (∀ t, ∃ ks, (match t with nullptr => Some [] | _ => clear_node t end) = Some ks ∧ ks ≡ₚ keys t) as H.
  { clear t. induction t as [|k d h l (a & El & Pl) r (b & Er & Pr)]; [by exists []|].
    exists (a ++ b ++ [k]). split; [cbn [clear_node]; by rewrite El, Er|].
    rewrite keys_node, Pl, Pr. solve_Permutation. }
  intros Hne. destruct (H t) as (ks & E & Hp). exists ks. split; [|done]. by destruct t.
Qed.

(** A balanced tree of height [h] has at least [2 ^ (h / 2) - 1] nodes. *)
Lemma avl_nodes t : avl t → 2 ^ (subtree_height t / 2) <= Z.of_nat (length (entries t)) + 1.
Proof.
  induction t as [|k d h l IHl r IHr]; intros Ha; [done|]. destruct Ha as (Hl & Hr & -> & Hb).
  specialize (IHl Hl). specialize (IHr Hr). pose proof (proj1 (avl_height l Hl)). pose proof (proj1 (avl_height r Hr)).
  cbn [subtree_height entries]. rewrite length_app. cbn [length].
  set (hl := subtree_height l) in *. set (hr := subtree_height r) in *. set (h := Z.max hl hr - 1).
  assert (∀ b : Z, h <= b → -1 <= h → 2 ^ (h / 2) <= 2 ^ (b / 2) ∨ h = -1) as Hm.
  { intros b Hle Hh. destruct (decide (h = -1)); [by right|left]. apply Z.pow_le_mono_r; [lia|]. apply Z.div_le_mono; lia. }
  assert (Z.max hl hr + 1 = h + 1 * 2) as -> by lia. rewrite Z.div_add by lia.
  destruct (decide (h = -1)) as [Eh|Eh]; [rewrite Eh; change (2 ^ (-1 / 2 + 1)) with 1; lia|].
  rewrite Z.pow_add_r by (try apply Z.div_pos; lia).
  destruct (Hm hl) as [?|?]; [lia..| |lia]. destruct (Hm hr) as [?|?]; [lia..| |lia]. lia.
Qed.
End maps.

(** ** Theorems *)

Inductive avl_op (D : Type) :=
  | AInsert (k : Z) (d : D)
  | AFind (k : Z)
  | ARemove (k : Z).
Arguments AInsert {D}.
Arguments AFind {D}.
Arguments ARemove {D}.

Section trace.
Context {D : Type} (dflt : D).

Definition run_avl (op : avl_op D) (a : AVLTree D) : option (AVLTree D) :=
  match op with
  | AInsert k d => insert k d a
  | AFind k => snd <$> find dflt k a
  | ARemove k => remove k a
  end.

Definition key_op (S : gset Z) (op : avl_op D) : gset Z :=
  match op with
  | AInsert k _ | AFind k => {[k]} ∪ S
  | ARemove k => S ∖ {[k]}
  end.

Fixpoint run_avls (ops : list (avl_op D)) (a : AVLTree D) : option (AVLTree D) :=
  match ops with
  | [] => Some a
  | op :: ops => a' ← run_avl op a; run_avls ops a'
  end.

Lemma run_avl_ok op a : wf a → ∃ a', run_avl op a = Some a' ∧ wf a' ∧ dom (to_map a') = key_op (dom (to_map a)) op.
Proof.
  intros W. destruct op as [k d|k|k]; cbn [run_avl key_op].
  - destruct (avl_insert_ok k d a W) as (a' & -> & W' & E). exists a'. split; [done|]. split; [done|]. rewrite E.
    destruct (to_map a !! k) eqn:Ek; [|by rewrite dom_insert_L]. apply elem_of_dom_2 in Ek. set_solver.
  - destruct (find_ok dflt k a W) as (a' & -> & W' & E). exists a'. split; [done|]. split; [done|]. by rewrite E, dom_insert_L.
  - destruct (avl_remove_ok k a W) as (a' & -> & W' & E). exists a'. split; [done|]. split; [done|]. rewrite E.
    destruct (moved k (root a)) as [[kv d]|] eqn:Em; [|by rewrite dom_delete_L]. rewrite dom_insert_L, dom_delete_L.
    assert (kv ∈ dom (to_map a) ∧ kv ≠ k) as [? ?]; [|set_solver].
    assert ((kv, d) ∈ removed k (root a)) as Hin by (rewrite removed_elem by apply W; rewrite Em; by left).
    assert (kv ∈ (removed k (root a)).*1) as [Hk ?]%removed_keys by (apply elem_of_keys; by exists d); [|apply W].
    split; [|done]. apply elem_of_dom, not_eq_None_Some. intros Hn%map_of_none. done.
Qed.
End trace.

(** C30: the tree is a balanced search tree of the keys inserted: any sequence of
    insertions, lookups (which insert a default) and removals from the empty
    tree runs without a null access and leaves a search tree in key order,
    with correct heights, siblings of height within one, exactly the expected
    keys, and [m_size] their number; its height is at most twice the binary
    logarithm of the number of keys plus one. *)
Theorem avl_trace {D : Type} (dflt : D) (ops : list (avl_op D)) :
  ∃ a, run_avls dflt ops AVLTree_new = Some a ∧ bst (root a) ∧ avl (root a) ∧
    dom (to_map a) = foldl key_op ∅ ops ∧ size a = wrap64 (Z.of_nat (base.size (dom (to_map a)))) ∧
    height (root a) = subtree_height (root a) ∧
    2 ^ (height (root a) / 2) <= Z.of_nat (base.size (dom (to_map a))) + 1.
Proof.
  assert (∀ a, wf a → ∃ a', run_avls dflt ops a = Some a' ∧ wf a' ∧ dom (to_map a') = foldl key_op (dom (to_map a)) ops) as H.
  { induction ops as [|op ops IH]; intros a W; [by exists a|].
    destruct (run_avl_ok dflt op a W) as (a1 & E1 & W1 & D1). destruct (IH a1 W1) as (a2 & E2 & W2 & D2).
    exists a2. cbn [run_avls foldl]. rewrite E1. cbn [mbind option_bind]. split; [done|]. split; [done|]. by rewrite D2, D1. }
  destruct (H AVLTree_new) as (a & E & W & Hd); [by split; [constructor| |]|].
  assert (base.size (dom (to_map a)) = length (entries (root a))) as Hsz.
  { rewrite size_dom. unfold to_map, map_of. rewrite map_size_list_to_map; [done|]. by apply sorted_nodup, W. }
  destruct (avl_height (root a) (wf_avl _ W)) as (_ & _ & Hh).
  exists a. rewrite Hsz, Hh. split_and!; [done|apply W|apply W|done|apply W|done|]. apply avl_nodes, W.
Qed.

(** [find] returns the data stored under the key, or the default, which it
    then stores; [insert] keeps the data of a key that is already there. *)
Theorem avl_find_insert {D : Type} (dflt : D) (k : Z) (d : D) (a : AVLTree D) :
  wf a →
  (∃ a', find dflt k a = Some (default dflt (to_map a !! k), a') ∧ wf a' ∧
     to_map a' = <[k := default dflt (to_map a !! k)]> (to_map a)) ∧
  (∃ a', insert k d a = Some a' ∧ wf a' ∧ to_map a' = <[k := default d (to_map a !! k)]> (to_map a)).
Proof.
  intros W. split; [by apply find_ok|]. destruct (avl_insert_ok k d a W) as (a' & E & W' & Em). exists a'.
  split; [done|]. split; [done|]. rewrite Em. destruct (to_map a !! k) eqn:Ek; [|done]. simpl. by rewrite insert_id.
Qed.

Definition ex_avl : AVLTree Z :=
  match run_avls 0 [AInsert 2 20; AInsert 1 10; AInsert 3 30] AVLTree_new with Some a => a | None => AVLTree_new end.

Lemma ex_avl_wf : wf ex_avl.
Proof.
  split.
  - vm_compute. repeat (constructor; try (repeat constructor; lia)).
  - vm_compute. intuition congruence.
  - reflexivity.
Qed.

Lemma avl_find_insert_witness :
  (∃ a', find 0 3 ex_avl = Some (default 0 (to_map ex_avl !! 3), a') ∧ wf a' ∧
     to_map a' = <[3 := default 0 (to_map ex_avl !! 3)]> (to_map ex_avl)) ∧
  (∃ a', insert 3 7 ex_avl = Some a' ∧ wf a' ∧ to_map a' = <[3 := default 7 (to_map ex_avl !! 3)]> (to_map ex_avl)).
Proof. apply (avl_find_insert 0 3 7 ex_avl). apply ex_avl_wf. Defined.

(** What [remove] does to the data.  Exactly the key goes; but when its node
    has two children, the code moves only the key of the successor, so the
    successor is stored with the data of the removed key afterwards. *)
Theorem avl_remove_data {D : Type} (k : Z) (a : AVLTree D) :
  wf a →
  ∃ a', remove k a = Some a' ∧ wf a' ∧
    match subtree_at k (root a) with
    | node _ d _ (node _ _ _ _ _) ((node _ _ _ _ _) as r) =>
        ∃ kv, min_key r = Some kv ∧ to_map a' = <[kv := d]> (delete k (to_map a))
    | _ => to_map a' = delete k (to_map a)
    end.
Proof.
  intros W. destruct (avl_remove_ok k a W) as (a' & E & W' & Em). exists a'. split; [done|]. split; [done|].
  unfold moved in Em. destruct (subtree_at k (root a)) as [|kr d h l r]; [done|].
  destruct l as [|kl dl hl la lb]; [done|]. destruct r as [|ks ds hs ra rb]; [done|].
  destruct (min_key_entries ks ds hs ra rb) as (kv & dv & es & E1 & _). rewrite E1 in Em |- *. by exists kv.
Qed.

Lemma avl_remove_data_witness :
  ∃ a', remove 2 ex_avl = Some a' ∧ wf a' ∧
    ∃ kv, min_key (node 3 30 1 nullptr nullptr) = Some kv ∧ to_map a' = <[kv := 20]> (delete 2 (to_map ex_avl)).
Proof. apply (avl_remove_data 2 ex_avl). apply ex_avl_wf. Defined.
