(* ===== verification/HandleTable.v ===== *)
(** * Handles: [include/object/], [kern/object/] and [kbl/data/name.hpp]

    Kernel objects are reference counted; a handle entry holds one reference;
    a handle table maps 64-bit handles to entries through four levels of
    tables.  The state holds the table of the current process and the global
    table, the entries and the objects both refer to.  [None] is a panic, an
    access through a null or dangling pointer or outside an array. *)

From S2P Require Import Prelude Types Links.

(** ** [kbl::name<Size>]: a character array of [Size + 1] cells *)

Module Name.

Definition empty (Size : nat) : list Z := replicate (S Size) 0.

(** [ktl::copy(sv.begin(), sv.end(), name_)]: nothing bounds the copy, and
    the cells after the copied ones stay as they are. *)
Definition set (name sv : list Z) : option (list Z) :=
  if (length sv <=? length name)%nat then Some (sv ++ drop (length sv) name) else None.

(** [strncpy(d, s, n)]: copies up to the terminator and fills with zeros. *)
Fixpoint strncpy (n : nat) (s : list Z) : list Z :=
  match n, s with
  | O, _ => []
  | S n, [] => 0 :: strncpy n []
  | S n, c :: s => if c =? 0 then 0 :: strncpy n [] else c :: strncpy n s
  end.

Definition set_len (Size : nat) (name s : list Z) (len : nat) : list Z :=
  strncpy (Nat.min len Size) s ++ drop (Nat.min len Size) name.

(** The string [data()] points to: the characters before the first zero. *)
Fixpoint c_str (name : list Z) : option (list Z) :=
  match name with
  | [] => None
  | c :: name => if c =? 0 then Some [] else cons c <$> c_str name
  end.

End Name.

(** ** [ref_counted] *)

Definition PRE_ADOPT_SENTINEL : Z := 0xC0000000.

(** [add_ref] updates the count with [fetch_and]. *)
Definition add_ref (rc : Z) : option Z := if 1 <=? rc then Some (Z.land rc 1) else None.

(** Whether the last reference went, and the new count. *)
Definition release (rc : Z) : option (bool * Z) := if 1 <=? rc then Some (rc =? 1, rc - 1) else None.

Definition adopt (rc : Z) : option Z := if rc =? PRE_ADOPT_SENTINEL then Some 1 else None.

Definition adopted (rc : Z) : bool := negb (rc =? PRE_ADOPT_SENTINEL).

(** ** State *)

Definition MAX_HANDLE_PER_TABLE : Z := 512.
Definition INVALID_HANDLE_VALUE : Z := 0.
Definition HATTR_GLOBAL : Z := 1.
Definition HATTR_LOCAL_PROC : Z := 2.
Definition NAME_LEN : nat := 16.

(** The table of the current process, or the global one. *)
Inductive which := Proc | Global.

#[export] Instance which_eq : EqDecision which.
Proof. solve_decision. Defined.

Record dispatcher := Disp { koid : Z; ref_count_ : Z }.

Record handle_entry := Entry {
  ptr_ : loc;
  parent_ : option which;
  name_ : list Z;
  owner_process_id : Z;
  value_ : Z;
}.

Abbreviation pos := (Z * Z * Z * Z)%type.

(** [tables] holds the index paths below [root_] with a table: [[l1]],
    [[l1; l2]] and [[l1; l2; l3]]; [entry] the slots that are not null;
    [owner_koid] the [parent_->get_koid()] of a table with a parent. *)
Record handle_table := Table {
  local_ : bool;
  owner_koid : option Z;
  tables : gset (list Z);
  entry : gmap pos loc;
  next_ : pos;
}.

Record hstate := Hs {
  tbl : which → handle_table;
  hents : gmap loc handle_entry;
  objs : gmap loc dispatcher;
}.

Definition set_tbl (w : which) (t : handle_table) (s : hstate) : hstate :=
  Hs (λ v, if decide (v = w) then t else tbl s v) (hents s) (objs s).
Definition set_hents h (s : hstate) : hstate := Hs (tbl s) h (objs s).
Definition set_objs o (s : hstate) : hstate := Hs (tbl s) (hents s) o.

Definition lift {A} (o : hstate → option A) : ST hstate A :=
  λ s, match o s with Some x => Some (x, s) | None => None end.
Definition modify (f : hstate → hstate) : ST hstate unit := λ s, Some (tt, f s).

(** Dereferencing an entry and an object. *)
Definition ent (e : loc) : ST hstate handle_entry := lift (λ s, hents s !! e).
Definition obj (o : loc) : ST hstate dispatcher := lift (λ s, objs s !! o).
Definition put_ent (e : loc) (h : handle_entry) : ST hstate unit := modify (λ s, set_hents (<[e := h]> (hents s)) s).
Definition put_obj (o : loc) (d : dispatcher) : ST hstate unit := modify (λ s, set_objs (<[o := d]> (objs s)) s).

Lemma ent_run e h s : hents s !! e = Some h → ent e s = Some (h, s).
Proof. intros H. unfold ent, lift. by rewrite H. Qed.

Lemma obj_run o d s : objs s !! o = Some d → obj o s = Some (d, s).
Proof. intros H. unfold obj, lift. by rewrite H. Qed.

Lemma put_ent_run e h s : put_ent e h s = Some (tt, set_hents (<[e := h]> (hents s)) s).
Proof. done. Qed.

(** ** Handle entries *)

(** [handle_entry::create]: the new entry at the address [e]; null when the
    object has been adopted before. *)
Definition create (e o : loc) (name : list Z) : ST hstate (option loc) :=
  d ← obj o;
  if adopted (ref_count_ d) then mret None else
  rc ← lift (λ _, adopt (ref_count_ d));
  put_obj o (Disp (koid d) rc);;
  nm ← lift (λ _, Name.set (Name.empty NAME_LEN) name);
  put_ent e (Entry o None nm (-1) INVALID_HANDLE_VALUE);;
  mret (Some e).

(** [handle_entry::duplicate]: the copy constructor takes the object and the
    name and adds a reference. *)
Definition duplicate (e h : loc) : ST hstate (option loc) :=
  src ← ent h;
  d ← obj (ptr_ src);
  if negb (adopted (ref_count_ d)) then mret None else
  nm ← lift (λ _, Name.c_str (name_ src) ≫= Name.set (Name.empty NAME_LEN));
  rc ← lift (λ _, add_ref (ref_count_ d));
  put_obj (ptr_ src) (Disp (koid d) rc);;
  put_ent e (Entry (ptr_ src) None nm (-1) INVALID_HANDLE_VALUE);;
  mret (Some e).

(** [delete h], what the deleter of [handle_entry_owner] does: the entry gives
    its reference back and deletes the object with the last one. *)
Definition release_entry (h : loc) : ST hstate unit :=
  src ← ent h;
  d ← obj (ptr_ src);
  r ← lift (λ _, release (ref_count_ d));
  (if r.1 : bool
   then modify (λ s, set_objs (delete (ptr_ src) (objs s)) s)
   else put_obj (ptr_ src) (Disp (koid d) r.2));;
  modify (λ s, set_hents (delete h (hents s)) s).

(** The destructor of an owner that holds [e] or null. *)
Definition discard (e : option loc) : ST hstate unit :=
  match e with None => mret tt | Some e => release_entry e end.

(** ** Handle values *)

Definition MAKE_HANDLE (attr : Z) (p : pos) : Z :=
  let '(l1, l2, l3, l4) := p in
  wrap64 (Z.lor (Z.lor (Z.lor (Z.lor (Z.shiftl attr 32) (Z.shiftl l1 24)) (Z.shiftl l2 16)) (Z.shiftl l3 8)) l4).

Definition DISASSEMBLE_HANDLE (h : Z) : Z * pos :=
  (Z.shiftr h 32,
   (Z.land (Z.shiftr h 24) 0xFF, Z.land (Z.shiftr h 16) 0xFF, Z.land (Z.shiftr h 8) 0xFF, Z.land h 0xFF)).

Definition HANDLE_ATTRIBUTE (h : Z) : Z := Z.shiftr h 32.

Definition HANDLE_HAS_ATTRIBUTE (h attributes : Z) : bool := Z.land (HANDLE_ATTRIBUTE h) attributes =? attributes.

(** ** Loops *)

(** The slots the four nested loops of the table visit, in their order. *)
Definition slots (n : pos) : list pos :=
  let '(n1, n2, n3, n4) := n in
  l1 ← seqZ 0 (n1 + 1); l2 ← seqZ 0 (n2 + 1); l3 ← seqZ 0 (n3 + 1); l4 ← seqZ 0 n4; mret (l1, l2, l3, l4).

(** A loop whose body may return. *)
Fixpoint scan {A} (f : pos → ST hstate (option A)) (ps : list pos) : ST hstate (option A) :=
  match ps with
  | [] => mret None
  | p :: ps => r ← f p; match r with Some x => mret (Some x) | None => scan f ps end
  end.

(** A loop that runs to its end. *)
Fixpoint for_each {X} (f : X → ST hstate unit) (l : list X) : ST hstate unit :=
  match l with
  | [] => mret tt
  | x :: l => f x;; for_each f l
  end.

(** ** The table *)

Definition increase_next_cur (value : Z) : bool * Z :=
  let new_value := value +w 1 in (MAX_HANDLE_PER_TABLE <=? new_value, new_value mod MAX_HANDLE_PER_TABLE).

(** The error code and the new [next_]. *)
Definition increase_next (n : pos) : error_code_values * pos :=
  let '(l1, l2, l3, l4) := n in
  let '(c4, v4) := increase_next_cur l4 in
  if c4 : bool then
    let '(c3, v3) := increase_next_cur l3 in
    if c3 : bool then
      let '(c2, v2) := increase_next_cur l2 in
      if c2 : bool then
        let '(c1, v1) := increase_next_cur l1 in
        if c1 : bool then (ERROR_TOO_MANY_HANDLES, (v1, l2, l3, l4))
        else (ERROR_SUCCESS, (v1, v2, v3, v4))
      else (ERROR_SUCCESS, (l1, v2, v3, v4))
    else (ERROR_SUCCESS, (l1, l2, v3, v4))
  else (ERROR_SUCCESS, (l1, l2, l3, v4)).

(** The position whose slots are in one table. *)
Definition leaf_of (p : pos) : Z * Z * Z := p.1.

Definition set_next (n : pos) (t : handle_table) : handle_table :=
  Table (local_ t) (owner_koid t) (tables t) (entry t) n.
Definition set_slot (p : pos) (e : option loc) (t : handle_table) : handle_table :=
  Table (local_ t) (owner_koid t) (tables t) (partial_alter (λ _, e) p (entry t)) (next_ t).
Definition drop_table (path : list Z) (t : handle_table) : handle_table :=
  Table (local_ t) (owner_koid t) (tables t ∖ {[path]}) (entry t) (next_ t).

(** [root_.next[l1]->next[l2]->next[l3]->entry[l4]] can be accessed. *)
Definition accessible (t : handle_table) (p : pos) : bool :=
  let '(l1, l2, l3, l4) := p in
  bool_decide ([l1] ∈ tables t) && bool_decide ([l1; l2] ∈ tables t) && bool_decide ([l1; l2; l3] ∈ tables t) &&
  (0 <=? l4) && (l4 <? MAX_HANDLE_PER_TABLE).

(** [initialize_table]: three fresh tables, full of null pointers. *)
Definition initialize_table (t : handle_table) : handle_table :=
  Table (local_ t) (owner_koid t) (tables t ∪ {[ [0]; [0; 0]; [0; 0; 0] ]})
    (filter (λ x, leaf_of x.1 ≠ (0, 0, 0)) (entry t)) (0, 0, 0, 0).

(** The constructors: without arguments no table is allocated. *)
Definition handle_table_default : handle_table := Table true None ∅ ∅ (0, 0, 0, 0).
Definition handle_table_global : handle_table := initialize_table (Table false None ∅ ∅ (0, 0, 0, 0)).
Definition handle_table_for (parent : option Z) : handle_table := initialize_table (Table true parent ∅ ∅ (0, 0, 0, 0)).

(** The attribute of the handles of a table. *)
Definition attr_of (t : handle_table) : Z := if local_ t then HATTR_LOCAL_PROC else HATTR_GLOBAL.

(** The [owner_process_id] an entry gets in the table; [cur_koid] is the
    identifier of the current process, when there is one. *)
Definition process_id (cur_koid : option Z) (t : handle_table) (h : handle_entry) : Z :=
  if local_ t then
    match cur_koid, owner_koid t with
    | Some k, _ => k
    | None, Some k => k
    | None, None => owner_process_id h
    end
  else owner_process_id h.

Section table.
Context (w : which).

Definition this : ST hstate handle_table := lift (λ s, Some (tbl s w)).
Definition update (f : handle_table → handle_table) : ST hstate unit := modify (λ s, set_tbl w (f (tbl s w)) s).

Lemma this_run s : this s = Some (tbl s w, s).
Proof. done. Qed.

Lemma update_run f s : update f s = Some (tt, set_tbl w (f (tbl s w)) s).
Proof. done. Qed.

Definition get_slot (p : pos) : ST hstate (option loc) :=
  t ← this; kassert (accessible t p);; mret (entry t !! p).

Definition put_slot (p : pos) (e : option loc) : ST hstate unit :=
  t ← this; kassert (accessible t p);; update (set_slot p e).

Definition first_free : ST hstate (result pos) :=
  t ← this;
  r ← scan (λ p, slot ← get_slot p; mret (match slot with None => Some p | Some _ => None end)) (slots (next_ t));
  match r with
  | Some p => mret (Ok p)
  | None =>
      let '(err, n) := increase_next (next_ t) in
      update (set_next n);;
      mret (if decide (err = ERROR_SUCCESS) then Ok (next_ t) else Err err)
  end.

Definition allocate_slot : ST hstate (result pos) :=
  free ← first_free;
  if has_error free then mret free else
  t ← this;
  let '(err, n) := increase_next (next_ t) in
  update (set_next n);;
  mret (if decide (err = ERROR_SUCCESS) then free else Err err).

(** [slot && slot->ptr_ == owner->ptr_] for the slot at [p]. *)
Definition same_object (owner : loc) (p : pos) : ST hstate (option pos) :=
  slot ← get_slot p;
  match slot with
  | None => mret None
  | Some e => x ← ent e; h ← ent owner; mret (if ptr_ x =? ptr_ h then Some p else None)
  end.

Definition local_get_locked (owner : loc) : ST hstate (option pos) :=
  t ← this; scan (same_object owner) (slots (next_ t)).

Definition local_exist_locked (owner : loc) : ST hstate bool :=
  t ← this;
  r ← scan (same_object owner) (slots (next_ t));
  mret (match r with Some _ => true | None => false end).

Definition add_handle_locked (cur_koid : option Z) (owner : loc) : ST hstate Z :=
  h ← ent owner;
  t ← this;
  put_ent owner (Entry (ptr_ h) (Some w) (name_ h) (process_id cur_koid t h) (value_ h));;
  local_value ← local_get_locked owner;
  match local_value with
  | Some _ => x ← ent owner; mret (value_ x)
  | None =>
      find_res ← allocate_slot;
      match find_res with
      | Err _ => st_fail
      | Ok p =>
          put_slot p (Some owner);;
          x ← ent owner;
          put_ent owner (Entry (ptr_ x) (parent_ x) (name_ x) (owner_process_id x) (MAKE_HANDLE (attr_of t) p));;
          mret (MAKE_HANDLE (attr_of t) p)
      end
  end.

(** [add_handle]: the owner is asserted not to be null. *)
Definition add_handle (cur_koid : option Z) (owner : option loc) : ST hstate Z :=
  match owner with None => st_fail | Some e => add_handle_locked cur_koid e end.

Definition entry_to_handle (e : loc) : ST hstate Z := h ← ent e; mret (value_ h).

Definition get_handle_entry_locked (h : Z) : ST hstate (option loc) :=
  t ← this;
  let '(attr, (l1, l2, l3, l4)) := DISASSEMBLE_HANDLE h in
  if negb (Z.land attr HATTR_GLOBAL =? 0) && local_ t then mret None else
  let '(n1, n2, n3, n4) := next_ t in
  kassert (l1 <=? n1);; kassert (l2 <=? n2);; kassert (l3 <=? n3);; kassert (l4 <=? n4);;
  get_slot (l1, l2, l3, l4).

(** The entry, whose ownership goes to the caller. *)
Definition remove_entry_locked (e : loc) : ST hstate (option loc) :=
  exist ← local_exist_locked e;
  if negb exist then mret (Some e) else
  t ← this;
  for_each (λ p,
    r ← same_object e p;
    match r with None => mret tt | Some _ => put_slot p None end) (slots (next_ t));;
  h ← ent e;
  put_ent e (Entry (ptr_ h) None (name_ h) (-1) (value_ h));;
  mret (Some e).

Definition remove_handle_locked (h : Z) : ST hstate (option loc) :=
  handle ← get_handle_entry_locked h;
  match handle with None => mret None | Some e => remove_entry_locked e end.

(** [slot && pred( *slot)] for the slot at [p]. *)
Definition test_slot (pred : handle_entry → bool) (p : pos) : ST hstate (option loc) :=
  slot ← get_slot p;
  match slot with
  | None => mret None
  | Some e => h ← ent e; mret (if pred h then Some e else None)
  end.

Definition query_handle_locked (pred : handle_entry → bool) : ST hstate (option loc) :=
  t ← this; scan (test_slot pred) (slots (next_ t)).

(** [name.compare(slot->name_.data()) == 0] *)
Definition query_handle_by_name_locked (name : list Z) : ST hstate (option loc) :=
  t ← this;
  scan (λ p,
    slot ← get_slot p;
    match slot with
    | None => mret None
    | Some e => x ← ent e; n ← lift (λ _, Name.c_str (name_ x)); mret (if decide (n = name) then Some e else None)
    end) (slots (next_ t)).

(** [kmem_cache_free] of the table at the end of [path], which is reached
    through the tables above it. *)
Definition free_table (path : list Z) : ST hstate unit :=
  t ← this;
  kassert (forallb (λ k, bool_decide (take k path ∈ tables t)) (seq 1 (length path)));;
  update (drop_table path).

Definition clear : ST hstate unit :=
  t ← this;
  let '(n1, n2, n3, n4) := next_ t in
  for_each (λ l1,
    for_each (λ l2,
      for_each (λ l3,
        for_each (λ l4, slot ← get_slot (l1, l2, l3, l4); discard slot) (seqZ 0 n4);;
        free_table [l1; l2; l3]) (seqZ 0 (n3 + 1));;
      free_table [l1; l2]) (seqZ 0 (n2 + 1));;
    free_table [l1]) (seqZ 0 (n1 + 1));;
  update initialize_table.

End table.

(** ** [object_manager] *)

Definition get_global_handle (cur_koid : option Z) (h : Z) : ST hstate Z :=
  if negb (HANDLE_HAS_ATTRIBUTE h HATTR_LOCAL_PROC) then mret h else
  entry ← get_handle_entry_locked Proc h;
  match entry with
  | None => st_fail
  | Some e =>
      t ← this Global;
      query_ret ← scan (λ p, slot ← get_slot Global p;
        match slot with
        | None => mret None
        | Some e' =>
            y ← ent e'; x ← ent e;
            d' ← obj (ptr_ y); d ← obj (ptr_ x);
            mret (if koid d' =? koid d then Some e' else None)
        end) (slots (next_ t));
      match query_ret with
      | Some e' => entry_to_handle e'
      | None => add_handle Global cur_koid (Some e)
      end
  end.

Definition get_handle_entry (h : Z) : ST hstate (option loc) :=
  if negb (HANDLE_HAS_ATTRIBUTE h HATTR_LOCAL_PROC) then get_handle_entry_locked Proc h
  else get_handle_entry_locked Global h.

Definition get_global_handle_entry (cur_koid : option Z) (h : Z) : ST hstate (option loc) :=
  h ← get_global_handle cur_koid h;
  get_handle_entry_locked Global h.

(** ** Loops that only read *)

Fixpoint first_some {A} (g : pos → option A) (ps : list pos) : option A :=
  match ps with
  | [] => None
  | p :: ps => match g p with Some x => Some x | None => first_some g ps end
  end.

Lemma first_some_none {A} (g : pos → option A) ps :
  (∀ p, p ∈ ps → g p = None) → first_some g ps = None.
Proof.
  induction ps as [|p ps IH]; [done|]. intros H. simpl. rewrite (H p) by left.
  apply IH. intros q Hq. apply H. by right.
Qed.

Lemma first_some_cases {A} (g : pos → option A) ps :
  (first_some g ps = None ∧ ∀ p, p ∈ ps → g p = None) ∨
  ∃ l1 p l2 x, ps = l1 ++ p :: l2 ∧ (∀ q, q ∈ l1 → g q = None) ∧ g p = Some x ∧ first_some g ps = Some x.
Proof.
  induction ps as [|p ps IH]; simpl.
  - left. split; [done|]. by intros p ?%elem_of_nil.
  - destruct (g p) as [x|] eqn:E.
    + right. exists [], p, ps, x. split; [done|]. split; [by intros q ?%elem_of_nil | done].
    + destruct IH as [(H1 & H2)|(l1 & q & l2 & x & -> & H1 & H2 & H3)].
      * left. split; [done|]. by intros q [->|Hq]%elem_of_cons; [|apply H2].
      * right. exists (p :: l1), q, l2, x. split; [done|]. split; [|done].
        by intros r [->|Hr]%elem_of_cons; [|apply H1].
Qed.

Lemma scan_pure {A} (f : pos → ST hstate (option A)) g ps s :
  (∀ p, p ∈ ps → f p s = Some (g p, s)) → scan f ps s = Some (first_some g ps, s).
Proof.
  induction ps as [|p ps IH]; [done|]. intros H. simpl.
  erewrite bind_run by (apply H; left). destruct (g p); [done|].
  apply IH. intros q Hq. apply H. by right.
Qed.

Lemma slots_first n : slots (0, 0, 0, n) = (λ i, (0, 0, 0, i)) <$> seqZ 0 n.
Proof.
  unfold slots. change (seqZ 0 (0 + 1)) with [0]. simpl. rewrite !app_nil_r.
  by induction (seqZ 0 n) as [|i l IH]; [|simpl; f_equal].
Qed.

Lemma elem_of_slots p n : p ∈ slots (0, 0, 0, n) ↔ ∃ i, p = (0, 0, 0, i) ∧ 0 <= i < n.
Proof.
  rewrite slots_first, list_elem_of_fmap. split.
  - intros (i & -> & Hi%elem_of_seqZ). eauto with lia.
  - intros (i & -> & Hi). exists i. split; [done|]. apply elem_of_seqZ. lia.
Qed.

Lemma slots_before n l1 i l2 j : slots (0, 0, 0, n) = l1 ++ (0, 0, 0, i) :: l2 → 0 <= j < i → (0, 0, 0, j) ∈ l1.
Proof.
  rewrite slots_first. intros H Hj.
  assert (∀ k p, (l1 ++ (0, 0, 0, i) :: l2) !! k = Some p → p = (0, 0, 0, Z.of_nat k)) as Hk.
  { intros k p Hp. rewrite <- H in Hp. apply list_lookup_fmap_Some in Hp as (z & -> & Hz).
    apply lookup_seqZ in Hz. f_equal. lia. }
  pose proof (Hk (length l1) (0, 0, 0, i)) as Hi. rewrite list_lookup_middle in Hi by done. specialize (Hi eq_refl).
  assert (i = Z.of_nat (length l1)) as -> by congruence.
  destruct (lookup_lt_is_Some_2 l1 (Z.to_nat j)) as (p & Hp); [lia|].
  pose proof (Hk (Z.to_nat j) p) as Hpj. rewrite lookup_app_l in Hpj by lia. rewrite Hpj in Hp by done.
  rewrite Z2Nat.id in Hp by lia. by eapply list_elem_of_lookup_2.
Qed.

(** ** Invariant of a table in its first leaf *)

Section invariant.
Context (w : which).

(** The entry at slot [p] of the table and the object it is for. *)
Definition object_at (s : hstate) (p : pos) : option loc :=
  e ← entry (tbl s w) !! p; ptr_ <$> hents s !! e.

(** One leaf, [next_] inside it, occupied slots below [next_] holding live
    entries that know their handle, and no object twice. *)
Record tinv (n : Z) (s : hstate) : Prop := {
  ti_tables : tables (tbl s w) = {[ [0]; [0; 0]; [0; 0; 0] ]};
  ti_next : next_ (tbl s w) = (0, 0, 0, n);
  ti_range : 0 <= n < MAX_HANDLE_PER_TABLE;
  ti_entry p e : entry (tbl s w) !! p = Some e →
    p ∈ slots (0, 0, 0, n) ∧ ∃ x, hents s !! e = Some x ∧ value_ x = MAKE_HANDLE (attr_of (tbl s w)) p;
  ti_inj p q o : object_at s p = Some o → object_at s q = Some o → p = q;
}.

(** A free slot below [next_]. *)
Definition room (n : Z) (s : hstate) : Prop := ∃ p, p ∈ slots (0, 0, 0, n) ∧ entry (tbl s w) !! p = None.

Lemma tbl_set_tbl t s : tbl (set_tbl w t s) w = t.
Proof. simpl. by rewrite decide_True. Qed.

Lemma accessible_first t i :
  tables t = {[ [0]; [0; 0]; [0; 0; 0] ]} → 0 <= i < MAX_HANDLE_PER_TABLE → accessible t (0, 0, 0, i) = true.
Proof.
  intros Ht Hi. unfold accessible. rewrite Ht, !bool_decide_true by set_solver.
  unfold MAX_HANDLE_PER_TABLE in *. simpl. rewrite andb_true_iff. lia.
Qed.

Lemma put_slot_run p e s : accessible (tbl s w) p = true → put_slot w p e s = Some (tt, set_tbl w (set_slot p e (tbl s w)) s).
Proof. intros H. unfold put_slot. run with this_run. run with @kassert_true; done. Qed.

Lemma accessible_leaf n s p : tinv n s → p ∈ slots (0, 0, 0, n) → accessible (tbl s w) p = true.
Proof.
  intros I (i & -> & Hi)%elem_of_slots. pose proof (ti_range _ _ I).
  apply accessible_first; [apply (ti_tables _ _ I) | lia].
Qed.

Lemma get_slot_run n s p : tinv n s → p ∈ slots (0, 0, 0, n) → get_slot w p s = Some (entry (tbl s w) !! p, s).
Proof.
  intros I Hp. unfold get_slot, this, mbind, ST_bind, lift, kassert. simpl.
  by rewrite (accessible_leaf n).
Qed.

(** The slot holds an entry for the object [o]. *)
Definition holds (s : hstate) (o : loc) (p : pos) : option pos :=
  if decide (object_at s p = Some o) then Some p else None.

Lemma same_object_run n s owner h p :
  tinv n s → hents s !! owner = Some h → p ∈ slots (0, 0, 0, n) →
  same_object w owner p s = Some (holds s (ptr_ h) p, s).
Proof.
  intros I Hh Hp. unfold same_object. run with (get_slot_run n); [|done..].
  unfold holds, object_at. destruct (entry (tbl s w) !! p) as [e|] eqn:E; [|done].
  destruct (ti_entry _ _ I _ _ E) as (_ & x & Hx & _).
  unfold ent, lift, mbind, ST_bind. rewrite Hx, Hh. simpl. rewrite Hx. simpl.
  unfold mret, ST_ret. destruct (Z.eqb_spec (ptr_ x) (ptr_ h)); case_decide; congruence.
Qed.

Lemma local_get_run n s owner h :
  tinv n s → hents s !! owner = Some h →
  local_get_locked w owner s = Some (first_some (holds s (ptr_ h)) (slots (0, 0, 0, n)), s).
Proof.
  intros I Hh. unfold local_get_locked, this, mbind, ST_bind, lift. rewrite (ti_next _ _ I).
  apply scan_pure. intros p Hp. by apply (same_object_run n).
Qed.

(** [local_get_locked] finds the one slot of the object. *)
Lemma local_get_found n s owner h p :
  tinv n s → hents s !! owner = Some h → object_at s p = Some (ptr_ h) →
  local_get_locked w owner s = Some (Some p, s).
Proof.
  intros I Hh Hp. rewrite (local_get_run n s owner h) by done.
  destruct (first_some_cases (holds s (ptr_ h)) (slots (0, 0, 0, n))) as [(_ & H)|(? & q & ? & x & _ & _ & H & ->)].
  - assert (p ∈ slots (0, 0, 0, n)) as Hin.
    { unfold object_at in Hp. destruct (entry (tbl s w) !! p) eqn:E; [|done]. by apply (ti_entry _ _ I _ _ E). }
    specialize (H p Hin). unfold holds in H. by rewrite decide_True in H.
  - unfold holds in H. case_decide as Hq; [|done]. injection H as <-. by rewrite (ti_inj _ _ I _ _ _ Hp Hq).
Qed.

Lemma local_get_absent n s owner h :
  tinv n s → hents s !! owner = Some h → (∀ p, object_at s p ≠ Some (ptr_ h)) →
  local_get_locked w owner s = Some (None, s).
Proof.
  intros I Hh Hno. rewrite (local_get_run n s owner h) by done. rewrite first_some_none; [done|].
  intros p _. unfold holds. by rewrite decide_False.
Qed.

(** *** Allocating a slot *)

Definition free_at (s : hstate) (p : pos) : option pos :=
  match entry (tbl s w) !! p with None => Some p | Some _ => None end.

Lemma first_free_room n s :
  tinv n s → room n s →
  ∃ i, 0 <= i < n ∧ entry (tbl s w) !! (0, 0, 0, i) = None ∧ (∀ j, 0 <= j < i → entry (tbl s w) !! (0, 0, 0, j) ≠ None) ∧
    first_free w s = Some (Ok (0, 0, 0, i), s).
Proof.
  intros I (p & Hp & Hfree). unfold first_free, this at 1. unfold mbind at 1, ST_bind at 1, lift. rewrite (ti_next _ _ I).
  erewrite bind_run; [|apply (scan_pure _ (free_at s)); intros q Hq; by run with (get_slot_run n)].
  destruct (first_some_cases (free_at s) (slots (0, 0, 0, n))) as [(_ & H)|(l1 & q & l2 & x & Hl & Hb & H & ->)].
  - specialize (H p Hp). unfold free_at in H. by rewrite Hfree in H.
  - assert (q ∈ slots (0, 0, 0, n)) as (i & -> & Hi)%elem_of_slots by (rewrite Hl; set_solver).
    unfold free_at in H. destruct (entry (tbl s w) !! (0, 0, 0, i)) eqn:E; [done|]. injection H as <-.
    exists i. split; [done|]. split; [done|]. split; [|done].
    intros j Hj F. specialize (Hb _ (slots_before _ _ _ _ _ Hl Hj)). unfold free_at in Hb. by rewrite F in Hb.
Qed.

Lemma increase_next_in l1 l2 l3 l4 :
  0 <= l4 < MAX_HANDLE_PER_TABLE - 1 → increase_next (l1, l2, l3, l4) = (ERROR_SUCCESS, (l1, l2, l3, l4 + 1)).
Proof.
  unfold MAX_HANDLE_PER_TABLE. intros H. unfold increase_next, increase_next_cur, MAX_HANDLE_PER_TABLE.
  rewrite wrap64_small by (unfold is_u64; lia). simpl.
  destruct (512 <=? l4 + 1) eqn:E; [lia|]. by rewrite Z.mod_small by lia.
Qed.

(** The state changed in the table [w] only. *)
Definition updated (t : handle_table) (s s' : hstate) : Prop :=
  tbl s' w = t ∧ (∀ v, v ≠ w → tbl s' v = tbl s v) ∧ hents s' = hents s ∧ objs s' = objs s.

Lemma updated_set t s : updated t s (set_tbl w t s).
Proof. repeat split; simpl; [by rewrite decide_True|]. intros v Hv. by rewrite decide_False. Qed.

Lemma updated_trans t t' s s' s'' : updated t s s' → updated t' s' s'' → updated t' s s''.
Proof.
  intros (H1 & H2 & H3 & H4) (G1 & G2 & G3 & G4). repeat split; [done| |congruence..].
  intros v Hv. by rewrite G2, H2.
Qed.

(** [next_] after an allocation. *)
Definition bump (n : Z) : Z := Z.max 2 (n + 1).
Definition next_after (n : Z) : pos :=
  if n =? MAX_HANDLE_PER_TABLE - 1 then (0, 0, 1, 0) else (0, 0, 0, bump n).

Lemma increase_next_at n :
  0 < n < MAX_HANDLE_PER_TABLE → increase_next (0, 0, 0, n) = (ERROR_SUCCESS, next_after n).
Proof.
  intros Hn. unfold next_after. destruct (Z.eqb_spec n (MAX_HANDLE_PER_TABLE - 1)) as [->|Hne]; [done|].
  rewrite increase_next_in by lia. do 2 f_equal. unfold bump. lia.
Qed.

Lemma allocate_run n s :
  tinv n s → n = 0 ∨ room n s →
  ∃ i s', 0 <= i < Z.max 1 n ∧ entry (tbl s w) !! (0, 0, 0, i) = None ∧
    (∀ j, 0 <= j < i → entry (tbl s w) !! (0, 0, 0, j) ≠ None) ∧
    updated (set_next (next_after n) (tbl s w)) s s' ∧ allocate_slot w s = Some (Ok (0, 0, 0, i), s').
Proof.
  intros I Hroom. pose proof (ti_next _ _ I) as Hx. pose proof (ti_range _ _ I).
  unfold allocate_slot. destruct Hroom as [->|Hroom].
  - exists 0. eexists. split; [lia|]. split.
    { destruct (_ !! _) as [e|] eqn:E; [|done].
      destruct (ti_entry _ _ I _ _ E) as ((i & _ & Hi)%elem_of_slots & _). lia. }
    split; [intros j Hj; lia|].
    erewrite bind_run; [|unfold first_free, this, mbind, ST_bind, lift; rewrite Hx; reflexivity].
    rewrite decide_True by done. cbn [has_error]. unfold this, mbind, ST_bind, lift. rewrite tbl_set_tbl. split; [|reflexivity].
    eapply updated_trans; [apply updated_set|]. rewrite tbl_set_tbl. apply updated_set.
  - destruct (first_free_room n s I Hroom) as (i & Hi & Hfree & Hleast & Hf).
    exists i. eexists. split; [lia|]. split; [done|]. split; [done|].
    run with Hf. simpl. unfold this, mbind, ST_bind, lift. rewrite Hx, increase_next_at by lia.
    rewrite decide_True by done. split; [|reflexivity]. apply updated_set.
Qed.

(** *** Adding an entry *)

(** No entry for the object [o] is in the table. *)
Definition absent (o : loc) (s : hstate) : Prop := ∀ p, object_at s p ≠ Some o.

Lemma absent_entry s owner h p : hents s !! owner = Some h → absent (ptr_ h) s → entry (tbl s w) !! p ≠ Some owner.
Proof. intros Hh Ha E. apply (Ha p). unfold object_at. rewrite E. simpl. by rewrite Hh. Qed.

Lemma object_at_frame s s' p :
  entry (tbl s' w) !! p = entry (tbl s w) !! p → (∀ e, entry (tbl s w) !! p = Some e → hents s' !! e = hents s !! e) →
  object_at s' p = object_at s p.
Proof.
  intros H1 H2. unfold object_at. rewrite H1. destruct (entry (tbl s w) !! p); [|done].
  simpl. by rewrite H2.
Qed.

Lemma tinv_frame n s s' :
  tinv n s → tbl s' w = tbl s w → (∀ p e, entry (tbl s w) !! p = Some e → hents s' !! e = hents s !! e) → tinv n s'.
Proof.
  intros I Ht Hh.
  assert (∀ p, object_at s' p = object_at s p) as Ho.
  { intros p. apply object_at_frame; [by rewrite Ht | apply Hh]. }
  destruct I as [I1 I2 I3 I4 I5]. split; rewrite ?Ht; try done.
  - intros p e E. rewrite (Hh p e E). by apply I4.
  - intros p q o. rewrite !Ho. apply I5.
Qed.

(** The state after [owner] went into slot [p]. *)
Record added (m : pos) (owner : loc) (h : handle_entry) (p : pos) (s s' : hstate) : Prop := {
  ad_tbl : tbl s' w = set_slot p (Some owner) (set_next m (tbl s w));
  ad_other v : v ≠ w → tbl s' v = tbl s v;
  ad_hents : hents s' = <[owner := h]> (hents s);
  ad_objs : objs s' = objs s;
}.

Lemma object_at_added m owner h p s s' q :
  added m owner h p s s' → (∀ q, entry (tbl s w) !! q ≠ Some owner) →
  object_at s' q = if decide (q = p) then Some (ptr_ h) else object_at s q.
Proof.
  intros A Hno. case_decide as Hq.
  - subst q. unfold object_at. rewrite (ad_tbl _ _ _ _ _ _ A), (ad_hents _ _ _ _ _ _ A). simpl.
    rewrite lookup_partial_alter_eq. simpl. by rewrite lookup_insert_eq.
  - apply object_at_frame.
    + rewrite (ad_tbl _ _ _ _ _ _ A). simpl. by rewrite lookup_partial_alter_ne.
    + intros e E. rewrite (ad_hents _ _ _ _ _ _ A), lookup_insert_ne; [done|]. intros ->. by apply (Hno q).
Qed.

Lemma tinv_added n n' owner h0 h p s s' :
  tinv n s → added (0, 0, 0, n') owner h p s s' → n <= n' < MAX_HANDLE_PER_TABLE → p ∈ slots (0, 0, 0, n') →
  hents s !! owner = Some h0 → ptr_ h0 = ptr_ h → absent (ptr_ h) s →
  value_ h = MAKE_HANDLE (attr_of (tbl s w)) p → tinv n' s'.
Proof.
  intros I A Hn Hp Hh0 Eh Ha Hv. pose proof (ti_range _ _ I).
  assert (∀ q, entry (tbl s w) !! q ≠ Some owner) as Hno by (intros q; eapply absent_entry; [done | by rewrite Eh]).
  pose proof (ad_tbl _ _ _ _ _ _ A) as Ht. pose proof (ad_hents _ _ _ _ _ _ A) as Hs.
  split; rewrite ?Ht; cbn [tables next_ set_slot set_next].
  - apply (ti_tables _ _ I).
  - done.
  - lia.
  - intros q e E. change (attr_of _) with (attr_of (tbl s w)). simpl in E. destruct (decide (q = p)) as [->|Hq].
    + rewrite lookup_partial_alter_eq in E. injection E as <-. split; [done|]. exists h. by rewrite Hs, lookup_insert_eq.
    + rewrite lookup_partial_alter_ne in E by done. destruct (ti_entry _ _ I _ _ E) as ((i & -> & Hi)%elem_of_slots & x & Hx & Hvx).
      split; [apply elem_of_slots; eauto with lia|]. exists x.
      rewrite Hs, lookup_insert_ne by (intros ->; by apply (Hno (0, 0, 0, i))). done.
  - intros q1 q2 o. rewrite !(object_at_added _ _ _ _ _ _ _ A Hno).
    repeat case_decide; intros G1 G2; [congruence|..].
    + injection G1 as <-. by apply Ha in G2.
    + injection G2 as <-. by apply Ha in G1.
    + by apply (ti_inj _ _ I _ _ o).
Qed.

Lemma add_run n s ck owner h :
  tinv n s → n = 0 ∨ room n s → hents s !! owner = Some h → absent (ptr_ h) s →
  ∃ i h' s', 0 <= i < Z.max 1 n ∧ entry (tbl s w) !! (0, 0, 0, i) = None ∧
    (∀ j, 0 <= j < i → entry (tbl s w) !! (0, 0, 0, j) ≠ None) ∧
    ptr_ h' = ptr_ h ∧ name_ h' = name_ h ∧ value_ h' = MAKE_HANDLE (attr_of (tbl s w)) (0, 0, 0, i) ∧
    added (next_after n) owner h' (0, 0, 0, i) s s' ∧ add_handle_locked w ck owner s = Some (value_ h', s').
Proof.
  intros I Hroom Hh Ha. pose proof (ti_range _ _ I).
  unfold add_handle_locked. run with ent_run; [|exact Hh]. run with this_run.
  set (h1 := Entry (ptr_ h) _ _ _ _).
  run with put_ent_run.
  set (s1 := set_hents _ s).
  assert (∀ p e, entry (tbl s w) !! p = Some e → hents s1 !! e = hents s !! e) as Hfr.
  { intros p e E. simpl. rewrite lookup_insert_ne; [done|]. intros ->. by apply (absent_entry s e h p) in E. }
  assert (tinv n s1) as I1 by (by apply (tinv_frame n s)).
  assert (hents s1 !! owner = Some h1) as Hh1 by apply lookup_insert_eq.
  run with (local_get_absent n); [|done..|].
  2:{ intros p. rewrite (object_at_frame s s1); [apply Ha | done | apply Hfr]. }
  destruct (allocate_run n s1 I1 Hroom) as (i & s2 & Hi & Hfree & Hleast & (U1 & U2 & U3 & U4) & Hal).
  run with Hal. cbv beta iota. run with put_slot_run.
  2:{ apply accessible_first; [rewrite U1; apply (ti_tables _ _ I) | unfold MAX_HANDLE_PER_TABLE in *; lia]. }
  run with ent_run; [|simpl; by rewrite U3]. run with put_ent_run.
  exists i, (Entry (ptr_ h1) (parent_ h1) (name_ h1) (owner_process_id h1) (MAKE_HANDLE (attr_of (tbl s w)) (0, 0, 0, i))).
  eexists. split; [done|]. split; [done|]. split; [done|]. split; [|split; [|split; [|split; [|reflexivity]]]]; try reflexivity.
  split; simpl.
  - rewrite decide_True by done. by rewrite U1.
  - intros v Hv. rewrite decide_False by done. by rewrite U2.
  - rewrite U3. simpl. by rewrite insert_insert_eq.
  - by rewrite U4.
Qed.

(** The last slot below [next_] is free after an allocation. *)
Lemma room_added n owner h i s s' :
  tinv n s → added (0, 0, 0, bump n) owner h (0, 0, 0, i) s s' → 0 <= i < Z.max 1 n → room (bump n) s'.
Proof.
  intros I A Hi. exists (0, 0, 0, bump n - 1). unfold bump in *.
  split; [apply elem_of_slots; eauto with lia|].
  rewrite (ad_tbl _ _ _ _ _ _ A). simpl. rewrite lookup_partial_alter_ne by (intros [=]; lia).
  destruct (_ !! _) as [e|] eqn:E; [|done].
  destruct (ti_entry _ _ I _ _ E) as ((j & [= <-] & Hj)%elem_of_slots & _). unfold bump in *. lia.
Qed.

(** *** Removing an entry *)

Definition cleared (p : pos) (s : hstate) : hstate := set_tbl w (set_slot p None (tbl s w)) s.

Lemma object_at_cleared p s q : object_at (cleared p s) q = if decide (q = p) then None else object_at s q.
Proof.
  unfold object_at, cleared. rewrite tbl_set_tbl. simpl. case_decide as Hq.
  - subst q. by rewrite lookup_partial_alter_eq.
  - by rewrite lookup_partial_alter_ne.
Qed.

Lemma tinv_cleared n p s : tinv n s → tinv n (cleared p s).
Proof.
  intros [I1 I2 I3 I4 I5]. split; unfold cleared; rewrite ?tbl_set_tbl; try done.
  - intros q e E. simpl in E. destruct (decide (q = p)) as [->|Hq].
    + by rewrite lookup_partial_alter_eq in E.
    + rewrite lookup_partial_alter_ne in E by done. by apply I4.
  - intros q1 q2 o. fold (cleared p s). rewrite !object_at_cleared. repeat case_decide; try done. apply I5.
Qed.

Lemma absent_cleared n p o s : tinv n s → object_at s p = Some o → absent o (cleared p s).
Proof.
  intros I Hp q. rewrite object_at_cleared. case_decide as Hq; [done|].
  intros Ho. by apply Hq, (ti_inj _ _ I _ _ o).
Qed.

Abbreviation clear_same e := (λ p,
  r ← same_object w e p; match r with None => mret tt | Some _ => put_slot w p None end).

Lemma clear_absent n s e h ps :
  tinv n s → hents s !! e = Some h → absent (ptr_ h) s → (∀ p, p ∈ ps → p ∈ slots (0, 0, 0, n)) →
  for_each (clear_same e) ps s = Some (tt, s).
Proof.
  intros I Hh Ha. induction ps as [|p ps IH]; intros Hps; [done|]. simpl.
  erewrite bind_run; [apply IH; intros q Hq; apply Hps; by right|].
  erewrite bind_run; [|apply (same_object_run n s e h); [done..|apply Hps; left]].
  unfold holds. rewrite decide_False; [done | apply Ha].
Qed.

Lemma clear_present n s e h p ps :
  tinv n s → hents s !! e = Some h → object_at s p = Some (ptr_ h) → p ∈ ps →
  (∀ p, p ∈ ps → p ∈ slots (0, 0, 0, n)) → for_each (clear_same e) ps s = Some (tt, cleared p s).
Proof.
  intros I Hh Ho. induction ps as [|q ps IH]; intros Hin Hps; [by apply elem_of_nil in Hin|]. simpl.
  assert (q ∈ slots (0, 0, 0, n)) as Hq by (apply Hps; left).
  assert (∀ p, p ∈ ps → p ∈ slots (0, 0, 0, n)) as Hps' by (intros ? ?; apply Hps; by right).
  pose proof (same_object_run n s e h q I Hh Hq) as Hso. unfold holds in Hso. case_decide as Hd.
  - assert (q = p) as -> by (by apply (ti_inj _ _ I _ _ (ptr_ h))).
    erewrite bind_run; [|run with Hso; apply put_slot_run; by apply (accessible_leaf n)].
    apply (clear_absent n _ e h); [by apply tinv_cleared | done | by apply (absent_cleared n) | done].
  - erewrite bind_run; [|by run with Hso]. apply IH; [|done].
    apply elem_of_cons in Hin as [->|]; [done|done].
Qed.

Lemma object_at_lookup n s p e :
  tinv n s → entry (tbl s w) !! p = Some e → ∃ x, hents s !! e = Some x ∧ object_at s p = Some (ptr_ x).
Proof.
  intros I E. destruct (ti_entry _ _ I _ _ E) as (_ & x & Hx & _). exists x. split; [done|].
  unfold object_at. rewrite E. simpl. by rewrite Hx.
Qed.

(** The entry an owner gets back: out of the table, with its handle value. *)
Definition detached (x : handle_entry) : handle_entry := Entry (ptr_ x) None (name_ x) (-1) (value_ x).

Lemma remove_run n s p e x :
  tinv n s → entry (tbl s w) !! p = Some e → hents s !! e = Some x →
  remove_entry_locked w e s = Some (Some e, set_hents (<[e := detached x]> (hents s)) (cleared p s)).
Proof.
  intros I E Hx. destruct (object_at_lookup n s p e I E) as (y & Hy & Ho). rewrite Hx in Hy. injection Hy as <-.
  destruct (ti_entry _ _ I _ _ E) as (Hp & _).
  unfold remove_entry_locked, local_exist_locked.
  pose proof (local_get_found n s e x p I Hx Ho) as Hl. unfold local_get_locked in Hl.
  erewrite bind_run; [|run with this_run; erewrite bind_run; [reflexivity|exact Hl]].
  cbn [negb]. run with this_run. rewrite (ti_next _ _ I).
  run with (clear_present n s e x p); [|done..]. run with ent_run; [|exact Hx]. done.
Qed.

End invariant.
