(* ===== verification/HandleTheorems.v ===== *)
(** * Properties of handles and handle tables

    Handle values, resolution of the handles a table gives out, what removal
    does, how many handles a table can give out over its life, and the
    references that handle entries hold. *)

From S2P Require Import Prelude Types Links HandleTable.

(** ** Handle values *)

Lemma lor_pack a b k : 0 <= k → 0 <= b < 256 → Z.lor (Z.shiftl a (8 + k)) (Z.shiftl b k) = Z.shiftl (a * 256 + b) k.
Proof.
  intros Hk Hb. rewrite <- Z.shiftl_shiftl by lia. rewrite <- Z.shiftl_lor. by rewrite (lor_low a b 8).
Qed.

Definition is_byte (l : Z) : Prop := 0 <= l < 256.

Lemma MAKE_HANDLE_value attr l1 l2 l3 l4 :
  0 <= attr < 2 ^ 16 → is_byte l1 → is_byte l2 → is_byte l3 → is_byte l4 →
  MAKE_HANDLE attr (l1, l2, l3, l4) = attr * 2 ^ 32 + l1 * 2 ^ 24 + l2 * 2 ^ 16 + l3 * 2 ^ 8 + l4.
Proof.
  unfold is_byte. intros. unfold MAKE_HANDLE.
  rewrite (lor_pack _ _ 24), (lor_pack _ _ 16), (lor_pack _ _ 8), (lor_low _ _ 8) by lia.
  rewrite wrap64_small by (unfold is_u64; lia). lia.
Qed.

Lemma land_byte a : Z.land a 0xFF = a mod 256.
Proof. apply (Z.land_ones a 8). lia. Qed.

Lemma DISASSEMBLE_value attr l1 l2 l3 l4 :
  is_byte l1 → is_byte l2 → is_byte l3 → is_byte l4 →
  DISASSEMBLE_HANDLE (attr * 2 ^ 32 + l1 * 2 ^ 24 + l2 * 2 ^ 16 + l3 * 2 ^ 8 + l4) = (attr, (l1, l2, l3, l4)).
Proof.
  unfold is_byte. intros. unfold DISASSEMBLE_HANDLE. rewrite !land_byte, !Z.shiftr_div_pow2 by lia.
  repeat f_equal.
  - symmetry. apply (Z.div_unique _ _ _ (l1 * 2 ^ 24 + l2 * 2 ^ 16 + l3 * 2 ^ 8 + l4)); lia.
  - rewrite <- (Z.div_unique _ _ (attr * 2 ^ 8 + l1) (l2 * 2 ^ 16 + l3 * 2 ^ 8 + l4)) by lia.
    symmetry. apply (Z.mod_unique _ _ attr); lia.
  - rewrite <- (Z.div_unique _ _ (attr * 2 ^ 16 + l1 * 2 ^ 8 + l2) (l3 * 2 ^ 8 + l4)) by lia.
    symmetry. apply (Z.mod_unique _ _ (attr * 2 ^ 8 + l1)); lia.
  - rewrite <- (Z.div_unique _ _ (attr * 2 ^ 24 + l1 * 2 ^ 16 + l2 * 2 ^ 8 + l3) l4) by lia.
    symmetry. apply (Z.mod_unique _ _ (attr * 2 ^ 16 + l1 * 2 ^ 8 + l2)); lia.
  - symmetry. apply (Z.mod_unique _ _ (attr * 2 ^ 24 + l1 * 2 ^ 16 + l2 * 2 ^ 8 + l3)); lia.
Qed.

Lemma DISASSEMBLE_bytes h attr l1 l2 l3 l4 :
  DISASSEMBLE_HANDLE h = (attr, (l1, l2, l3, l4)) → is_byte l1 ∧ is_byte l2 ∧ is_byte l3 ∧ is_byte l4.
Proof.
  unfold DISASSEMBLE_HANDLE, is_byte. rewrite !land_byte. intros [= <- <- <- <- <-].
  repeat split; (apply Z.mod_pos_bound || (apply Z.mod_pos_bound; lia)); lia.
Qed.

Lemma MAKE_HANDLE_spill attr j : is_byte j → MAKE_HANDLE attr (0, 0, 0, 256 + j) = MAKE_HANDLE attr (0, 0, 1, j).
Proof.
  intros Hj. unfold MAKE_HANDLE. f_equal. rewrite !Z.shiftl_0_l, !Z.lor_0_r.
  unfold is_byte in Hj. replace (256 + j) with (1 * 2 ^ 8 + j) by lia.
  rewrite <- (lor_low 1 j 8) by lia. by rewrite Z.lor_assoc.
Qed.

(** [DISASSEMBLE_HANDLE] gives back the attribute and the four indices
    that [MAKE_HANDLE] packed exactly when every index is below 256, although
    the tables have 512 slots per level; a slot index from 256 on spills into
    the next level: the handle of slot 256 + j is the one of slot j of the
    table after it. *)
Theorem handle_roundtrip attr l1 l2 l3 l4 j :
  0 <= attr < 2 ^ 16 → 0 <= l1 → 0 <= l2 → 0 <= l3 → 0 <= l4 → is_byte j →
  (DISASSEMBLE_HANDLE (MAKE_HANDLE attr (l1, l2, l3, l4)) = (attr, (l1, l2, l3, l4)) ↔
    is_byte l1 ∧ is_byte l2 ∧ is_byte l3 ∧ is_byte l4) ∧
  MAKE_HANDLE attr (0, 0, 0, 256 + j) = MAKE_HANDLE attr (0, 0, 1, j).
Proof.
  intros Ha H1 H2 H3 H4 Hj. split; [split|].
  - apply DISASSEMBLE_bytes.
  - intros (B1 & B2 & B3 & B4). rewrite MAKE_HANDLE_value by done. by apply DISASSEMBLE_value.
  - by apply MAKE_HANDLE_spill.
Qed.

Lemma handle_roundtrip_witness :
  DISASSEMBLE_HANDLE (MAKE_HANDLE 2 (0, 0, 0, 255)) = (2, (0, 0, 0, 255)) ∧
  MAKE_HANDLE 2 (0, 0, 0, 256 + 7) = MAKE_HANDLE 2 (0, 0, 1, 7).
Proof.
  destruct (handle_roundtrip 2 0 0 0 255 7) as (H & H'); try (unfold is_byte; lia).
  split; [|exact H']. apply H. unfold is_byte. lia.
Defined.

(** ** New tables *)

Lemma tinv_fresh w s t :
  tbl s w = initialize_table t → tables t = ∅ → entry t = ∅ → tinv w 0 s.
Proof.
  intros H Ht He.
  assert (entry (tbl s w) = ∅) as E by (rewrite H; simpl; rewrite He; apply map_filter_empty).
  split; rewrite ?H; simpl.
  - by rewrite Ht, (left_id_L ∅ (∪)).
  - done.
  - unfold MAX_HANDLE_PER_TABLE. lia.
  - intros p e. by rewrite He, map_filter_empty, lookup_empty.
  - intros p q o. unfold object_at. by rewrite E, lookup_empty.
Qed.

(** Two new tables, and entries for two objects. *)
Definition ex_new : hstate := Hs
  (λ v, match v with Proc => handle_table_for (Some 7) | Global => handle_table_global end)
  {[ 100 := Entry 1000 None (Name.empty NAME_LEN) (-1) 0; 101 := Entry 1001 None (Name.empty NAME_LEN) (-1) 0 ]}
  {[ 1000 := Disp 8 1; 1001 := Disp 9 PRE_ADOPT_SENTINEL ]}.

Lemma ex_new_inv w : tinv w 0 ex_new.
Proof. destruct w; by eapply tinv_fresh. Qed.

(** The first entry in the global table. *)
Definition ex_entry : handle_entry := Entry 1000 (Some Global) (Name.empty NAME_LEN) (-1) (MAKE_HANDLE HATTR_GLOBAL (0, 0, 0, 0)).
Definition ex_one : hstate := Hs
  (λ v, match v with
        | Proc => handle_table_for (Some 7)
        | Global => Table false None {[ [0]; [0; 0]; [0; 0; 0] ]} {[ (0, 0, 0, 0) := 100 ]} (0, 0, 0, 2)
        end)
  {[ 100 := ex_entry ]} {[ 1000 := Disp 8 1 ]}.

Lemma ex_one_inv : tinv Global 2 ex_one.
Proof.
  assert (∀ p o, object_at Global ex_one p = Some o → p = (0, 0, 0, 0)) as Hp.
  { intros p o. unfold object_at. simpl. destruct (decide (p = (0, 0, 0, 0))); [done|].
    rewrite lookup_singleton_ne by done. done. }
  split.
  - done.
  - done.
  - done.
  - intros p e. cbn [tbl ex_one entry]. intros (<- & <-)%lookup_singleton_Some. split; [apply elem_of_slots; exists 0; split; [done|lia]|].
    exists ex_entry. done.
  - intros p q o H1%Hp H2%Hp. congruence.
Qed.

(** ** Resolution *)

Section resolution.
Context (w : which).

Abbreviation handle_of s i := (MAKE_HANDLE (attr_of (tbl s w)) (0, 0, 0, i)).

Lemma attr_range s : 0 <= attr_of (tbl s w) < 2 ^ 16.
Proof. unfold attr_of, HATTR_LOCAL_PROC, HATTR_GLOBAL. destruct (local_ _); lia. Qed.

Lemma attr_decode s l3 l4 :
  0 <= l3 < 256 → 0 <= l4 < 256 →
  DISASSEMBLE_HANDLE (MAKE_HANDLE (attr_of (tbl s w)) (0, 0, l3, l4)) = (attr_of (tbl s w), (0, 0, l3, l4)).
Proof.
  intros H3 H4. rewrite MAKE_HANDLE_value by (apply attr_range || unfold is_byte; lia).
  apply DISASSEMBLE_value; unfold is_byte; lia.
Qed.

Lemma attr_own s : negb (Z.land (attr_of (tbl s w)) HATTR_GLOBAL =? 0) && local_ (tbl s w) = false.
Proof. unfold attr_of. by destruct (local_ (tbl s w)). Qed.

Lemma get_at s n3 n4 i :
  tables (tbl s w) = {[ [0]; [0; 0]; [0; 0; 0] ]} → next_ (tbl s w) = (0, 0, n3, n4) → 0 <= n3 → 0 <= i < 256 → i <= n4 →
  get_handle_entry_locked w (handle_of s i) s = Some (entry (tbl s w) !! (0, 0, 0, i), s).
Proof.
  intros Ht Hx H3 Hi Hn. unfold get_handle_entry_locked. run with this_run.
  rewrite attr_decode, attr_own, Hx by lia.
  do 4 (run with @kassert_true; [|lia]). unfold get_slot. run with this_run.
  run with @kassert_true; [done|]. apply accessible_first; [done | unfold MAX_HANDLE_PER_TABLE; lia].
Qed.

Lemma get_run n s i :
  tinv w n s → 0 <= i < 256 → i <= n →
  get_handle_entry_locked w (handle_of s i) s = Some (entry (tbl s w) !! (0, 0, 0, i), s).
Proof. intros I. apply (get_at s 0 n); [apply (ti_tables _ _ _ I) | apply (ti_next _ _ _ I) | lia]. Qed.

Lemma get_high n s i :
  tinv w n s → 256 <= i < 512 → get_handle_entry_locked w (handle_of s i) s = None.
Proof.
  intros I Hi. unfold get_handle_entry_locked. run with this_run.
  assert (handle_of s i = MAKE_HANDLE (attr_of (tbl s w)) (0, 0, 1, i - 256)) as ->.
  { rewrite <- MAKE_HANDLE_spill by (unfold is_byte; lia). do 2 f_equal. lia. }
  rewrite attr_decode, attr_own, (ti_next _ _ _ I) by lia.
  do 2 (run with @kassert_true; [|lia]). done.
Qed.

(** C15: adding an entry for an object that is not in the table, while fewer
    than 511 slots have been given out, puts it into the lowest free slot and returns
    that slot's handle, leaves every other slot as it was and keeps the table
    well formed, with room for the next one.  A handle of one of the first 256
    slots resolves to its entry; a handle of any later slot makes resolution
    panic. *)
Theorem handle_add_resolves n s ck owner x :
  tinv w n s → n < MAX_HANDLE_PER_TABLE - 1 → n = 0 ∨ room w n s → hents s !! owner = Some x → absent w (ptr_ x) s →
  ∃ i h s', add_handle w ck (Some owner) s = Some (h, s') ∧
    entry (tbl s w) !! (0, 0, 0, i) = None ∧ (∀ j, 0 <= j < i → entry (tbl s w) !! (0, 0, 0, j) ≠ None) ∧
    entry (tbl s' w) = <[(0, 0, 0, i) := owner]> (entry (tbl s w)) ∧
    object_at w s' (0, 0, 0, i) = Some (ptr_ x) ∧ tinv w (bump n) s' ∧ room w (bump n) s' ∧
    get_handle_entry_locked w h s' = (if i <? 256 then Some (Some owner, s') else None) ∧
    (∀ j, 0 <= j < 256 → j < bump n → j ≠ i →
      get_handle_entry_locked w (handle_of s j) s' = Some (entry (tbl s w) !! (0, 0, 0, j), s')).
Proof.
  intros I Hn Hroom Hx Ha. pose proof (ti_range _ _ _ I).
  destruct (add_run w n s ck owner x I Hroom Hx Ha) as (i & h' & s' & Hi & Hfree & Hleast & E1 & E2 & E3 & A & Hadd).
  unfold next_after in A. destruct (Z.eqb_spec n (MAX_HANDLE_PER_TABLE - 1)) as [|_]; [lia|].
  assert (entry (tbl s' w) = <[(0, 0, 0, i) := owner]> (entry (tbl s w))) as Hent by (by rewrite (ad_tbl _ _ _ _ _ _ _ A)).
  assert (attr_of (tbl s' w) = attr_of (tbl s w)) as Hat by (by rewrite (ad_tbl _ _ _ _ _ _ _ A)).
  assert (tinv w (bump n) s') as I'.
  { apply (tinv_added w n (bump n) owner x h' (0, 0, 0, i) s); try done; [unfold bump, MAX_HANDLE_PER_TABLE in *; lia| |by rewrite E1].
    apply elem_of_slots. exists i. split; [done|unfold bump; lia]. }
  exists i, (value_ h'), s'. split; [done|]. split; [done|]. split; [done|]. split; [done|]. split.
  { rewrite (object_at_added w _ _ _ _ _ _ _ A) by (intros q; by apply (absent_entry w s owner x)).
    rewrite decide_True by done. by rewrite E1. }
  split; [done|]. split; [by apply (room_added w n owner h' i s)|]. split.
  - rewrite E3, <- Hat. destruct (Z.ltb_spec i 256).
    + rewrite (get_run (bump n)) by (done || unfold bump; lia). by rewrite Hent, lookup_insert_eq.
    + apply (get_high (bump n)); [done|]. unfold bump, MAX_HANDLE_PER_TABLE in *. lia.
  - intros j Hj Hjn Hne. rewrite <- Hat, (get_run (bump n)) by (done || lia).
    rewrite Hent, lookup_insert_ne by congruence. done.
Qed.

(** *** Removal *)

Lemma remove_handle_run n s i e x :
  tinv w n s → entry (tbl s w) !! (0, 0, 0, i) = Some e → hents s !! e = Some x → 0 <= i < 256 →
  ∃ s', remove_handle_locked w (handle_of s i) s = Some (Some e, s') ∧
    tinv w n s' ∧ entry (tbl s' w) = delete (0, 0, 0, i) (entry (tbl s w)) ∧ attr_of (tbl s' w) = attr_of (tbl s w) ∧
    hents s' = <[e := detached x]> (hents s) ∧ objs s' = objs s ∧ 0 <= i < n.
Proof.
  intros I E Hx Hi. destruct (ti_entry _ _ _ I _ _ E) as ((j & [= <-] & Hj)%elem_of_slots & _).
  destruct (object_at_lookup w n s _ e I E) as (y & Hy & Ho). rewrite Hx in Hy. injection Hy as <-.
  eexists. split; [|split].
  - unfold remove_handle_locked. run with (get_run n); [|done||lia..]. rewrite E. by apply (remove_run w n s (0, 0, 0, i) e x).
  - apply (tinv_frame w n (cleared w (0, 0, 0, i) s)); [by apply tinv_cleared | done |].
    intros q f F. cbn [hents set_hents]. rewrite lookup_insert_ne; [done|]. intros <-. revert F.
    by apply (absent_entry w (cleared w (0, 0, 0, i) s) e x); [|apply (absent_cleared w n)].
  - cbn [tbl set_hents]. unfold cleared. rewrite tbl_set_tbl. repeat split; done || lia.
Qed.

(** Removing the handle of one of the first 256 slots gives the entry
    back to the caller, detached from the table, empties exactly that slot
    and keeps the table well formed: the handle no longer resolves, every
    other handle resolves as before, and the slot is available again. *)
Theorem handle_remove_forgets n s i e x :
  tinv w n s → entry (tbl s w) !! (0, 0, 0, i) = Some e → hents s !! e = Some x → 0 <= i < 256 →
  ∃ s', remove_handle_locked w (handle_of s i) s = Some (Some e, s') ∧
    hents s' !! e = Some (detached x) ∧ tinv w n s' ∧ room w n s' ∧ absent w (ptr_ x) s' ∧
    get_handle_entry_locked w (handle_of s i) s' = Some (None, s') ∧
    (∀ j, 0 <= j < 256 → j <= n → j ≠ i →
      get_handle_entry_locked w (handle_of s j) s' = Some (entry (tbl s w) !! (0, 0, 0, j), s')).
Proof.
  intros I E Hx Hi. destruct (remove_handle_run n s i e x I E Hx Hi) as (s' & Hr & I' & He & Hat & Hh & _ & Hin).
  exists s'. split; [done|]. split; [by rewrite Hh, lookup_insert_eq|]. split; [done|]. split.
  { exists (0, 0, 0, i). split; [apply elem_of_slots; eauto|]. by rewrite He, lookup_delete_eq. }
  split; [|split].
  - intros q Hq. destruct (object_at_lookup w n s _ e I E) as (y & Hy & Ho). rewrite Hx in Hy. injection Hy as <-.
    unfold object_at in Hq. rewrite He in Hq. destruct (decide (q = (0, 0, 0, i))) as [->|Hne].
    + by rewrite lookup_delete_eq in Hq.
    + rewrite lookup_delete_ne in Hq by done. destruct (entry (tbl s w) !! q) as [f|] eqn:F; [|done]. simpl in Hq.
      apply Hne, (ti_inj _ _ _ I _ _ (ptr_ x)); [|done]. unfold object_at. rewrite F. simpl.
      rewrite Hh in Hq. destruct (decide (f = e)) as [->|Hf]; [|by rewrite lookup_insert_ne in Hq]. by rewrite Hx.
  - rewrite <- Hat, (get_run n) by (done || lia). by rewrite He, lookup_delete_eq.
  - intros j Hj Hjn Hne. rewrite <- Hat, (get_run n) by (done || lia).
    rewrite He, lookup_delete_ne by congruence. done.
Qed.

(** *** The life of a table *)

(** Opening and closing one handle after the other. *)
Definition open_close (ck : option Z) (e : loc) : ST hstate (option loc) :=
  h ← add_handle w ck (Some e); remove_handle_locked w h.

Fixpoint churn (ck : option Z) (es : list loc) : ST hstate unit :=
  match es with
  | [] => mret tt
  | e :: es => open_close ck e;; churn ck es
  end.

(** [next_] has moved to the second leaf, for which there is no table. *)
Definition spent (s : hstate) : Prop :=
  next_ (tbl s w) = (0, 0, 1, 0) ∧ tables (tbl s w) = {[ [0]; [0; 0]; [0; 0; 0] ]}.

Lemma empty_absent s o : entry (tbl s w) = ∅ → absent w o s.
Proof. intros E q. unfold object_at. by rewrite E. Qed.

(** Adding to an empty table uses slot 0. *)
Lemma add_empty n s ck e x :
  tinv w n s → entry (tbl s w) = ∅ → hents s !! e = Some x →
  ∃ h' s', ptr_ h' = ptr_ x ∧ value_ h' = handle_of s 0 ∧
    added w (next_after n) e h' (0, 0, 0, 0) s s' ∧ add_handle w ck (Some e) s = Some (handle_of s 0, s').
Proof.
  intros I E Hx. pose proof (ti_range _ _ _ I).
  assert (n = 0 ∨ room w n s) as Hroom.
  { destruct (decide (n = 0)); [by left|]. right. exists (0, 0, 0, 0). rewrite E. split; [|done].
    apply elem_of_slots. exists 0. split; [done|lia]. }
  destruct (add_run w n s ck e x I Hroom Hx) as (i & h' & s' & Hi & _ & Hleast & E1 & E2 & E3 & A & Hadd);
    [by apply empty_absent|].
  assert (i = 0) as ->.
  { destruct (decide (i = 0)); [done|]. destruct (Hleast 0); [lia|]. by rewrite E. }
  exists h', s'. split; [done|]. split; [done|]. split; [done|]. unfold add_handle. by rewrite Hadd, E3.
Qed.

Lemma open_close_run n s ck e :
  tinv w n s → n < MAX_HANDLE_PER_TABLE - 1 → entry (tbl s w) = ∅ → is_Some (hents s !! e) →
  ∃ s', open_close ck e s = Some (Some e, s') ∧ tinv w (bump n) s' ∧ entry (tbl s' w) = ∅ ∧ dom (hents s') = dom (hents s).
Proof.
  intros I Hn E (x & Hx). pose proof (ti_range _ _ _ I).
  destruct (add_empty n s ck e x I E Hx) as (h' & s1 & E1 & E3 & A & Hadd).
  unfold next_after in A. destruct (Z.eqb_spec n (MAX_HANDLE_PER_TABLE - 1)) as [|_]; [lia|].
  assert (tinv w (bump n) s1) as I1.
  { apply (tinv_added w n (bump n) e x h' (0, 0, 0, 0) s); try done.
    - unfold bump, MAX_HANDLE_PER_TABLE in *. lia.
    - apply elem_of_slots. exists 0. split; [done|unfold bump; lia].
    - by apply empty_absent. }
  pose proof (ad_tbl _ _ _ _ _ _ _ A) as Ht. pose proof (ad_hents _ _ _ _ _ _ _ A) as Hh.
  destruct (remove_handle_run (bump n) s1 0 e h') as (s2 & Hr & I2 & He & _ & Hh2 & _); [done| | |lia|].
  { rewrite Ht. simpl. apply lookup_partial_alter_eq. }
  { rewrite Hh. apply lookup_insert_eq. }
  exists s2. split.
  - unfold open_close. run with Hadd. rewrite Ht in Hr. exact Hr.
  - split; [done|]. split.
    + rewrite He, Ht. simpl. rewrite E. apply map_eq. intros q. destruct (decide (q = (0, 0, 0, 0))) as [->|Hq].
      * by rewrite lookup_delete_eq.
      * by rewrite lookup_delete_ne, lookup_partial_alter_ne by done.
    + apply elem_of_dom_2 in Hx. rewrite Hh2, Hh, !dom_insert_L. set_solver.
Qed.

(** The 511th opening succeeds, but [next_] leaves the only leaf and the
    closing does not find the slot it should empty. *)
Lemma open_close_last s ck e :
  tinv w (MAX_HANDLE_PER_TABLE - 1) s → entry (tbl s w) = ∅ → is_Some (hents s !! e) →
  ∃ s', open_close ck e s = Some (Some e, s') ∧ spent s' ∧ dom (hents s') = dom (hents s).
Proof.
  intros I E (x & Hx). destruct (add_empty _ s ck e x I E Hx) as (h' & s1 & E1 & E3 & A & Hadd).
  pose proof (ad_tbl _ _ _ _ _ _ _ A) as Ht. pose proof (ad_hents _ _ _ _ _ _ _ A) as Hh.
  change (next_after (MAX_HANDLE_PER_TABLE - 1)) with (0, 0, 1, 0) in Ht.
  exists s1. split.
  - unfold open_close. run with Hadd. unfold remove_handle_locked.
    replace (handle_of s 0) with (handle_of s1 0) by (by rewrite Ht).
    run with (get_at s1 1 0); [|rewrite Ht; apply (ti_tables _ _ _ I)|by rewrite Ht|lia..].
    replace (entry (tbl s1 w) !! (0, 0, 0, 0)) with (Some e) by (rewrite Ht; symmetry; apply lookup_partial_alter_eq).
    unfold remove_entry_locked, local_exist_locked, this, mbind, ST_bind, lift. rewrite Ht. done.
  - split; [|apply elem_of_dom_2 in Hx; rewrite Hh, dom_insert_L; set_solver].
    split; rewrite Ht; [done | apply (ti_tables _ _ _ I)].
Qed.

Lemma allocate_spent s :
  spent s → ∃ s', allocate_slot w s = Some (Ok (0, 0, 1, 0), s') ∧ tables (tbl s' w) = {[ [0]; [0; 0]; [0; 0; 0] ]}.
Proof.
  intros (Hn & Ht). eexists. unfold allocate_slot.
  erewrite bind_run; [|unfold first_free, this, mbind, ST_bind, lift; rewrite Hn; reflexivity].
  rewrite decide_True by done. cbn [has_error]. unfold this, mbind, ST_bind, lift. rewrite tbl_set_tbl.
  split; [reflexivity|]. rewrite !tbl_set_tbl. exact Ht.
Qed.

Lemma spent_add s ck e : spent s → is_Some (hents s !! e) → add_handle w ck (Some e) s = None.
Proof.
  intros (Hn & Ht) (x & Hx). unfold add_handle, add_handle_locked. run with ent_run; [|exact Hx].
  run with this_run. run with put_ent_run. set (s1 := set_hents _ s). change (tbl s w) with (tbl s1 w) in Hn, Ht.
  erewrite bind_run; [|unfold local_get_locked, this, mbind, ST_bind, lift; rewrite Hn; reflexivity]. cbv beta iota.
  destruct (allocate_spent s1 (conj Hn Ht)) as (s2 & Hal & Ht2). run with Hal. cbv beta iota.
  unfold put_slot, this, mbind, ST_bind, lift, kassert, accessible.
  rewrite Ht2, (bool_decide_false ([0; 0; 1] ∈ _)) by set_solver. by rewrite !andb_false_r.
Qed.

Lemma churn_iff ck es n s :
  tinv w n s → entry (tbl s w) = ∅ → (∀ e, e ∈ es → e ∈ dom (hents s)) →
  is_Some (churn ck es s) ↔ Z.max 1 n + Z.of_nat (length es) <= MAX_HANDLE_PER_TABLE.
Proof.
  revert n s. induction es as [|e es IH]; intros n s I E Hes; pose proof (ti_range _ _ _ I).
  { simpl. split; [intros _; lia | by eauto]. }
  assert (is_Some (hents s !! e)) as He by (apply elem_of_dom, Hes; left). simpl.
  destruct (decide (n < MAX_HANDLE_PER_TABLE - 1)) as [Hn|Hn].
  - destruct (open_close_run n s ck e I Hn E He) as (s' & Hr & I' & E' & Hd).
    run with Hr. rewrite (IH (bump n) s'); [unfold bump; lia|done..|].
    intros f Hf. rewrite Hd. apply Hes. by right.
  - assert (n = MAX_HANDLE_PER_TABLE - 1) as -> by lia.
    destruct (open_close_last s ck e I E He) as (s' & Hr & Hs & Hd). run with Hr. destruct es as [|f es].
    + simpl. split; [intros _; unfold MAX_HANDLE_PER_TABLE; lia | by eauto].
    + simpl. unfold open_close, mbind, ST_bind. rewrite (spent_add s'); [|done|].
      * split; [by intros []|]. unfold MAX_HANDLE_PER_TABLE. lia.
      * apply elem_of_dom. rewrite Hd. apply Hes. set_solver.
Qed.

(** A new table survives exactly 511 openings in its life, even when each
    handle is closed before the next is opened: every addition advances
    [next_], whether it reuses a slot or not, and the 512th dereferences the
    null table that [next_] has come to. *)
Theorem handle_table_life ck es s :
  tinv w 0 s → (∀ e, e ∈ es → is_Some (hents s !! e)) → is_Some (churn ck es s) ↔ (length es <= 511)%nat.
Proof.
  intros I Hes. rewrite (churn_iff ck es 0 s I).
  - unfold MAX_HANDLE_PER_TABLE. lia.
  - apply map_eq. intros q. rewrite lookup_empty. destruct (_ !! _) as [e|] eqn:E; [|done].
    destruct (ti_entry _ _ _ I _ _ E) as ((i & _ & Hi)%elem_of_slots & _). lia.
  - intros e He. apply elem_of_dom. by apply Hes.
Qed.

End resolution.

Lemma ex_new_absent w o : absent w o ex_new.
Proof. apply empty_absent. destruct w; apply map_filter_empty. Qed.

Lemma handle_add_resolves_witness :
  ∃ i h s', add_handle Proc None (Some 100) ex_new = Some (h, s') ∧ entry (tbl s' Proc) !! (0, 0, 0, i) = Some 100 ∧
    tinv Proc 2 s'.
Proof.
  destruct (handle_add_resolves Proc 0 ex_new None 100 (Entry 1000 None (Name.empty NAME_LEN) (-1) 0))
    as (i & h & s' & H1 & _ & _ & H2 & _ & H3 & _).
  - apply ex_new_inv.
  - unfold MAX_HANDLE_PER_TABLE. lia.
  - by left.
  - done.
  - apply ex_new_absent.
  - exists i, h, s'. split; [done|]. split; [by rewrite H2, lookup_insert_eq | done].
Defined.

Lemma handle_remove_forgets_witness :
  ∃ s', remove_handle_locked Global (MAKE_HANDLE HATTR_GLOBAL (0, 0, 0, 0)) ex_one = Some (Some 100, s') ∧ tinv Global 2 s'.
Proof.
  destruct (handle_remove_forgets Global 2 ex_one 0 100 ex_entry) as (s' & H1 & _ & H2 & _).
  - apply ex_one_inv.
  - done.
  - done.
  - lia.
  - exists s'. split; [exact H1 | exact H2].
Defined.

Lemma handle_table_life_witness :
  is_Some (churn Proc None (replicate 511 100) ex_new) ∧ ¬ is_Some (churn Proc None (replicate 512 100) ex_new).
Proof.
  assert (∀ k e, e ∈ replicate k 100 → is_Some (hents ex_new !! e)) as H.
  { intros k e (-> & _)%elem_of_replicate. done. }
  split.
  - apply (handle_table_life Proc None (replicate 511 100) ex_new (ex_new_inv Proc) (H 511%nat)).
    rewrite length_replicate. lia.
  - intros Hs. apply (handle_table_life Proc None (replicate 512 100) ex_new (ex_new_inv Proc) (H 512%nat)) in Hs.
    rewrite length_replicate in Hs. lia.
Defined.

(** ** References *)

Lemma c_str_set name k : (0 ∉ name) → Name.c_str (name ++ replicate (S k) 0) = Some name.
Proof.
  induction name as [|c name IH]; intros H; [done|]. cbn [app Name.c_str].
  apply not_elem_of_cons in H as (Hc & H). destruct (Z.eqb_spec c 0); [congruence|].
  by rewrite (IH H).
Qed.

(** A name of at most [Size] characters is stored and read back. *)
Lemma name_roundtrip Size name :
  (length name <= Size)%nat → (0 ∉ name) →
  ∃ a, Name.set (Name.empty Size) name = Some a ∧ Name.c_str a = Some name.
Proof.
  intros Hl Hz. unfold Name.set, Name.empty. rewrite length_replicate.
  destruct (Nat.leb_spec (length name) (S Size)); [|lia]. eexists. split; [done|].
  rewrite drop_replicate. replace (S Size - length name)%nat with (S (Size - length name)) by lia.
  by apply c_str_set.
Qed.

(** Duplicating a handle entry does not count the new reference, because
    [add_ref] is a bitwise [fetch_and] with 1: after creating an entry for an
    object and duplicating it, releasing the duplicate deletes the object
    while the first entry still refers to it, and releasing the first entry
    then accesses a deleted object. *)
Theorem duplicate_uncounted s o k name h e :
  objs s !! o = Some (Disp k PRE_ADOPT_SENTINEL) → (length name <= NAME_LEN)%nat → (0 ∉ name) → h ≠ e →
  ∃ s1 s2 s3 x, create h o name s = Some (Some h, s1) ∧ objs s1 !! o = Some (Disp k 1) ∧
    duplicate e h s1 = Some (Some e, s2) ∧ objs s2 !! o = Some (Disp k 1) ∧
    release_entry e s2 = Some (tt, s3) ∧ hents s3 !! h = Some x ∧ ptr_ x = o ∧ objs s3 !! o = None ∧
    release_entry h s3 = None.
Proof.
  intros Ho Hl Hz Hne. destruct (name_roundtrip NAME_LEN name Hl Hz) as (a & Ha & Hc).
  do 3 eexists. exists (Entry o None a (-1) INVALID_HANDLE_VALUE). split; [|split; [|split; [|split; [|split; [|split]]]]].
  - unfold create. run with obj_run; [|exact Ho]. cbn [adopted ref_count_]. change (adopted PRE_ADOPT_SENTINEL) with false.
    cbv iota. unfold mbind, ST_bind, lift. change (adopt PRE_ADOPT_SENTINEL) with (Some 1). rewrite Ha. reflexivity.
  - apply lookup_insert_eq.
  - unfold duplicate. run with ent_run; [|apply lookup_insert_eq]. run with obj_run; [|apply lookup_insert_eq].
    cbn [ref_count_ negb]. change (adopted 1) with true. cbn [negb]. unfold mbind at 1, ST_bind at 1, lift at 1.
    cbn [name_]. rewrite Hc. cbn [mbind option_bind]. rewrite Ha. reflexivity.
  - apply lookup_insert_eq.
  - unfold release_entry. run with ent_run; [|apply lookup_insert_eq]. run with obj_run; [|apply lookup_insert_eq]. reflexivity.
  - cbn [hents set_hents set_objs]. rewrite lookup_delete_ne, lookup_insert_ne by done. apply lookup_insert_eq.
  - split; [done|]. split; [apply lookup_delete_eq|]. unfold release_entry.
    run with ent_run; [|cbn [hents set_hents set_objs]; rewrite lookup_delete_ne, lookup_insert_ne by done; apply lookup_insert_eq].
    unfold obj, lift, mbind, ST_bind. cbn [objs set_objs set_hents ptr_]. by rewrite lookup_delete_eq.
Qed.

Lemma duplicate_uncounted_witness :
  ∃ s1 s2 s3 x, create 200 1001 [109; 109] ex_new = Some (Some 200, s1) ∧ duplicate 201 200 s1 = Some (Some 201, s2) ∧
    release_entry 201 s2 = Some (tt, s3) ∧ hents s3 !! 200 = Some x ∧ objs s3 !! ptr_ x = None.
Proof.
  destruct (duplicate_uncounted ex_new 1001 9 [109; 109] 200 201) as (s1 & s2 & s3 & x & H1 & _ & H2 & _ & H3 & H4 & H5 & H6 & _).
  - done.
  - unfold NAME_LEN. simpl. lia.
  - set_solver.
  - done.
  - exists s1, s2, s3, x. rewrite H5. done.
Defined.

(** ** The object manager *)

(** [object_manager::get_handle_entry] looks handles up in the wrong
    table: a global handle that resolves in the global table gives null, since
    it is looked up in the table of the process, and a handle of the process
    is looked up in the global table. *)
Theorem manager_misroutes n s i e h :
  tinv Global n s → local_ (tbl s Global) = false → local_ (tbl s Proc) = true →
  entry (tbl s Global) !! (0, 0, 0, i) = Some e → 0 <= i < 256 →
  HANDLE_HAS_ATTRIBUTE h HATTR_LOCAL_PROC = true →
  let g := MAKE_HANDLE HATTR_GLOBAL (0, 0, 0, i) in
  get_handle_entry_locked Global g s = Some (Some e, s) ∧ get_handle_entry g s = Some (None, s) ∧
  get_handle_entry h s = get_handle_entry_locked Global h s.
Proof.
  intros I Hg Hp He Hi Hh g. assert (g = MAKE_HANDLE (attr_of (tbl s Global)) (0, 0, 0, i)) as Eg.
  { unfold attr_of. by rewrite Hg. }
  destruct (ti_entry _ _ _ I _ _ He) as ((j & [= <-] & Hj)%elem_of_slots & _).
  split; [|split].
  - rewrite Eg, (get_run Global n) by (done || lia). by rewrite He.
  - assert (DISASSEMBLE_HANDLE g = (HATTR_GLOBAL, (0, 0, 0, i))) as Hd.
    { rewrite Eg, attr_decode by lia. unfold attr_of. by rewrite Hg. }
    assert (HANDLE_ATTRIBUTE g = HATTR_GLOBAL) as Ha by (by injection Hd).
    unfold get_handle_entry, HANDLE_HAS_ATTRIBUTE. rewrite Ha. simpl.
    unfold get_handle_entry_locked. run with this_run. rewrite Hd, Hp. done.
  - unfold get_handle_entry. by rewrite Hh.
Qed.

Lemma manager_misroutes_witness :
  get_handle_entry_locked Global (MAKE_HANDLE HATTR_GLOBAL (0, 0, 0, 0)) ex_one = Some (Some 100, ex_one) ∧
  get_handle_entry (MAKE_HANDLE HATTR_GLOBAL (0, 0, 0, 0)) ex_one = Some (None, ex_one).
Proof.
  destruct (manager_misroutes 2 ex_one 0 100 (MAKE_HANDLE HATTR_LOCAL_PROC (0, 0, 0, 0))) as (H1 & H2 & _).
  - apply ex_one_inv.
  - done.
  - done.
  - done.
  - lia.
  - done.
  - split; [exact H1 | exact H2].
Defined.
