(* ===== verification/Scheduler.v ===== *)
(** * Threads and scheduling: [kern/task/scheduler/], [kern/task/thread/], [kbl/lock/semaphore.cc]

    The state holds the threads, the processors with their scheduler, the wait
    queues, the semaphores and the timers.  Every operation runs on one
    processor under [global_thread_lock], so operations of several processors
    interleave as a sequence.  A queue is the sequence of its members: the
    intrusive lists implement such sequences as long as no object is linked
    twice, and linking an object twice or removing one that is not a member is
    an error here, as are failed assertions ([None]).  Waiting is split at the
    context switch: the first part ends with another thread running, the
    second is what the thread does when it is switched to again. *)

From S2P Require Import Prelude Types Links.

(** ** Data *)

Inductive thread_states :=
  INITIAL | READY | RUNNING | SUSPENDED | BLOCKED | BLOCKED_READ_LOCK | SLEEPING | DYING | DEAD.

#[export] Instance thread_states_eq : EqDecision thread_states.
Proof. solve_decision. Defined.

Inductive cpu_affinity_type := SOFT | HARD.

#[export] Instance cpu_affinity_type_eq : EqDecision cpu_affinity_type.
Proof. solve_decision. Defined.

Definition FLAG_DETACHED : Z := 1.
Definition FLAG_IDLE : Z := 2.
Definition FLAG_INIT : Z := 4.

(** The enumerators have no initialisers. *)
Definition SIGNAL_KILLED : Z := 0.
Definition SIGNAL_SUSPEND : Z := 1.

(** [parented]: the thread belongs to a process.  An affinity without a
    processor is [CPU_NUM_INVALID]. *)
Record thread := Thread {
  state : thread_states;
  parented : bool;
  flags_ : Z;
  signals_ : Z;
  affinity_cpu : option nat;
  affinity_type : cpu_affinity_type;
  need_reschedule_ : bool;
  blocking_on_ : option loc;
  block_code_ : error_code_values;
  interruptible_ : bool;
  exit_code_ : error_code_values;
  exit_code_wait_queue_ : loc;
}.

Definition set_state v t := Thread v (parented t) (flags_ t) (signals_ t) (affinity_cpu t) (affinity_type t)
  (need_reschedule_ t) (blocking_on_ t) (block_code_ t) (interruptible_ t) (exit_code_ t) (exit_code_wait_queue_ t).
Definition set_need_reschedule v t := Thread (state t) (parented t) (flags_ t) (signals_ t) (affinity_cpu t) (affinity_type t)
  v (blocking_on_ t) (block_code_ t) (interruptible_ t) (exit_code_ t) (exit_code_wait_queue_ t).
Definition set_signals v t := Thread (state t) (parented t) (flags_ t) v (affinity_cpu t) (affinity_type t)
  (need_reschedule_ t) (blocking_on_ t) (block_code_ t) (interruptible_ t) (exit_code_ t) (exit_code_wait_queue_ t).
Definition set_blocking on code t := Thread (state t) (parented t) (flags_ t) (signals_ t) (affinity_cpu t) (affinity_type t)
  (need_reschedule_ t) on code (interruptible_ t) (exit_code_ t) (exit_code_wait_queue_ t).
Definition set_interruptible v t := Thread (state t) (parented t) (flags_ t) (signals_ t) (affinity_cpu t) (affinity_type t)
  (need_reschedule_ t) (blocking_on_ t) (block_code_ t) v (exit_code_ t) (exit_code_wait_queue_ t).
Definition set_exit_code v t := Thread (state t) (parented t) (flags_ t) (signals_ t) (affinity_cpu t) (affinity_type t)
  (need_reschedule_ t) (blocking_on_ t) (block_code_ t) (interruptible_ t) v (exit_code_wait_queue_ t).

Definition is_idle (t : thread) : bool := negb (Z.land (flags_ t) FLAG_IDLE =? 0).

(** A processor: its current and idle threads and its scheduler. *)
Record cpu_struct := Cpu {
  cur_thread : loc;
  idle : loc;
  run_queue_ : list loc;
  zombie_queue_ : list loc;
  timer_list : list loc;
  timer_lock : bool;
}.

Definition set_cur v c := Cpu v (idle c) (run_queue_ c) (zombie_queue_ c) (timer_list c) (timer_lock c).
Definition set_rq v c := Cpu (cur_thread c) (idle c) v (zombie_queue_ c) (timer_list c) (timer_lock c).
Definition set_zq v c := Cpu (cur_thread c) (idle c) (run_queue_ c) v (timer_list c) (timer_lock c).
Definition set_timers v c := Cpu (cur_thread c) (idle c) (run_queue_ c) (zombie_queue_ c) v (timer_lock c).

Definition set_timer_lock v c := Cpu (cur_thread c) (idle c) (run_queue_ c) (zombie_queue_ c) (timer_list c) v.

Record semaphore := Sem { count_ : Z; wait_queue_ : loc }.

(** [valid_cpus] are the processors [0 .. ncpu - 1]; [this_cpu] is the one
    that executes.  [expires] holds the timers' counters, 64-bit and signed,
    which the code assumes do not overflow. *)
Record sys := Sys {
  threads : gmap loc thread;
  ncpu : nat;
  cpus : gmap nat cpu_struct;
  this_cpu : nat;
  wait_queues : gmap loc (list loc);
  semaphores : gmap loc semaphore;
  expires : gmap loc Z;
}.

Definition set_threads v s := Sys v (ncpu s) (cpus s) (this_cpu s) (wait_queues s) (semaphores s) (expires s).
Definition set_cpus v s := Sys (threads s) (ncpu s) v (this_cpu s) (wait_queues s) (semaphores s) (expires s).
Definition set_wqs v s := Sys (threads s) (ncpu s) (cpus s) (this_cpu s) v (semaphores s) (expires s).
Definition set_sems v s := Sys (threads s) (ncpu s) (cpus s) (this_cpu s) (wait_queues s) v (expires s).
Definition set_expires v s := Sys (threads s) (ncpu s) (cpus s) (this_cpu s) (wait_queues s) (semaphores s) v.
Definition set_this v s := Sys (threads s) (ncpu s) (cpus s) v (wait_queues s) (semaphores s) (expires s).

Abbreviation SY := (ST sys).

Definition look {A} (f : sys → option A) : SY A := λ s, match f s with Some x => Some (x, s) | None => None end.
Definition change (f : sys → sys) : SY unit := λ s, Some (tt, f s).

Definition thr (t : loc) : SY thread := look (λ s, threads s !! t).
Definition put_thr (t : loc) (v : thread) : SY unit := change (λ s, set_threads (<[t := v]> (threads s)) s).
Definition upd_thr (t : loc) (f : thread → thread) : SY unit := th ← thr t; put_thr t (f th).
Definition cpu_at (k : nat) : SY cpu_struct := look (λ s, cpus s !! k).
Definition put_cpu (k : nat) (c : cpu_struct) : SY unit := change (λ s, set_cpus (<[k := c]> (cpus s)) s).
Definition here : SY nat := look (λ s, Some (this_cpu s)).
Definition cpu : SY cpu_struct := k ← here; cpu_at k.
Definition wq_at (q : loc) : SY (list loc) := look (λ s, wait_queues s !! q).
Definition put_wq (q : loc) (l : list loc) : SY unit := change (λ s, set_wqs (<[q := l]> (wait_queues s)) s).

(** [run_queue_link], [wait_queue_link] not [is_empty_or_detached]. *)
Definition run_linked (t : loc) (s : sys) : bool :=
  existsb (λ x : nat * cpu_struct, bool_decide (t ∈ run_queue_ x.2)) (map_to_list (cpus s)).
Definition wait_linked (t : loc) (s : sys) : bool :=
  existsb (λ x : loc * list loc, bool_decide (t ∈ x.2)) (map_to_list (wait_queues s)).

Definition zombie_linked (t : loc) (s : sys) : bool :=
  existsb (λ x : nat * cpu_struct, bool_decide (t ∈ zombie_queue_ x.2)) (map_to_list (cpus s)).

(** [intrusive_list::remove] of a member. *)
Definition list_without (t : loc) (l : list loc) : option (list loc) :=
  if decide (t ∈ l) then Some (filter (λ x, x ≠ t) l) else None.

(** ** [fcfs_scheduler_class] of processor [k] *)

Definition assert_here (k : nat) : SY unit := h ← here; kassert (bool_decide (h = k)).

Definition fcfs_enqueue (k : nat) (t : loc) : SY unit :=
  assert_here k;;
  c ← cpu_at k;
  th ← thr t;
  if decide (state th = DYING) then
    linked ← look (λ s, Some (zombie_linked t s));
    kassert (negb linked);;
    put_cpu k (set_zq (zombie_queue_ c ++ [t]) c)
  else
    linked ← look (λ s, Some (run_linked t s));
    kassert (negb linked);;
    put_cpu k (set_rq (run_queue_ c ++ [t]) c).

Definition fcfs_dequeue (k : nat) (t : loc) : SY unit :=
  assert_here k;;
  c ← cpu_at k;
  linked ← look (λ s, Some (run_linked t s));
  if linked : bool then
    l ← look (λ _, list_without t (run_queue_ c));
    put_cpu k (set_rq l c)
  else mret tt.

Definition fcfs_fetch (k : nat) : SY (option loc) :=
  assert_here k;;
  c ← cpu_at k;
  match run_queue_ c with
  | [] => mret None
  | t :: l => put_cpu k (set_rq l c);; mret (Some t)
  end.

(** [finish_dead_transition]: the destructor goes through [parent_], which a
    kernel thread does not have. *)
Definition finish_dead_transition (t : loc) : SY unit :=
  th ← thr t;
  kassert (parented th);;
  change (λ s, set_threads (delete t (threads s)) s).

Fixpoint reap (ts : list loc) : SY unit :=
  match ts with
  | [] => mret tt
  | t :: ts => finish_dead_transition t;; reap ts
  end.

Definition fcfs_tick (k : nat) : SY unit :=
  assert_here k;;
  c ← cpu_at k;
  put_cpu k (set_zq [] c);;
  reap (zombie_queue_ c);;
  me ← cpu;
  upd_thr (cur_thread me) (set_need_reschedule true).

(** The last queued thread the processor [me] may take that satisfies [p]. *)
Definition candidate (me : cpu_struct) (s : sys) (p : thread → bool) (t : loc) : bool :=
  match threads s !! t with
  | Some th =>
      negb (cur_thread me =? t) && bool_decide (state th = READY) && (Z.land (flags_ th) FLAG_IDLE =? 0) &&
      (Z.land (flags_ th) FLAG_INIT =? 0) && p th
  | None => false
  end.

Definition steal_pass (me : cpu_struct) (p : thread → bool) (l : list loc) (s : sys) : option loc :=
  List.find (candidate me s p) (rev l).

Definition fcfs_steal (k stealer : nat) : SY (option loc) :=
  c ← cpu_at k;
  me ← cpu;
  s ← st_get;
  let pass p := steal_pass me p (run_queue_ c) s in
  let found :=
    match pass (λ th, bool_decide (affinity_cpu th = Some stealer)) with
    | Some t => Some t
    | None =>
        match pass (λ th, bool_decide (affinity_type th = SOFT)) with
        | Some t => Some t
        | None => pass (λ th, bool_decide (affinity_type th = HARD))
        end
    end in
  match found with
  | None => mret None
  | Some t =>
      l ← look (λ _, list_without t (run_queue_ c));
      put_cpu k (set_rq l c);;
      mret (Some t)
  end.

Definition workload_size (k : nat) (s : sys) : Z :=
  match cpus s !! k with Some c => Z.of_nat (length (run_queue_ c)) | None => 0 end.

(** ** [scheduler] of processor [k] *)

Definition enqueue (k : nat) (t : loc) : SY unit :=
  th ← thr t;
  me ← cpu;
  if decide (state th = DYING ∧ t = idle me) then st_fail else fcfs_enqueue k t.

Definition switch_to (t : loc) : SY unit :=
  th ← thr t;
  kassert (bool_decide (state th = READY));;
  put_thr t (set_state RUNNING th);;
  k ← here;
  c ← cpu_at k;
  put_cpu k (set_cur t c).

Definition schedule (k : nat) : SY unit :=
  me ← cpu;
  let cur := cur_thread me in
  upd_thr cur (set_need_reschedule false);;
  th ← thr cur;
  (if decide (state th = READY) then enqueue k cur else mret tt);;
  next ← fcfs_fetch k;
  next' ← match next with
    | Some t => fcfs_dequeue k t;; mret t
    | None => mret (idle me)
    end;
  if decide (next' = cur) then mret tt else switch_to next'.

Definition reschedule_locked (k : nat) : SY unit :=
  assert_here k;;
  me ← cpu;
  th ← thr (cur_thread me);
  (if decide (state th = RUNNING) then put_thr (cur_thread me) (set_state READY th) else mret tt);;
  schedule k.

Definition yield_locked (k : nat) : SY unit :=
  assert_here k;;
  me ← cpu;
  upd_thr (cur_thread me) (set_need_reschedule true).

Definition unblock_locked (k : nat) (t : loc) : SY unit :=
  assert_here k;; upd_thr t (set_state READY);; enqueue k t.

Definition insert_locked (k : nat) (t : loc) : SY unit := assert_here k;; enqueue k t.

(** *** Timers: a list whose counters are relative to the timer before *)

Definition lock_timers (k : nat) : SY unit :=
  c ← cpu_at k; kassert (negb (timer_lock c));; put_cpu k (set_timer_lock true c).
Definition unlock_timers (k : nat) : SY unit :=
  c ← cpu_at k; kassert (timer_lock c);; put_cpu k (set_timer_lock false c).

(** The loop of [add_timer]: the remaining counter of the new timer, where the
    iterator stopped, and the counters. *)
Fixpoint timer_walk (e : Z) (l : list loc) (i : nat) (m : gmap loc Z) : option (Z * nat * gmap loc Z) :=
  match l with
  | [] => Some (e, i, m)
  | x :: l =>
      match m !! x with
      | None => None
      | Some ex => if e <? ex then Some (e, i, <[x := ex - e]> m) else timer_walk (e - ex) l (S i) m
      end
  end.

(** [if (iter != begin) iter--; insert(iter, timer)], where [insert] puts the
    new member after the iterator and [begin] of an empty list is the head. *)
Definition insert_index (i : nat) (l : list loc) : nat :=
  match i, l with
  | O, [] => O
  | O, _ :: _ => 1
  | S _, _ => i
  end.

Definition add_timer (k : nat) (timer : loc) : SY unit :=
  lock_timers k;;
  c ← cpu_at k;
  e ← look (λ s, expires s !! timer);
  r ← look (λ s, timer_walk e (timer_list c) 0 (expires s));
  let '(e', i, m) := r in
  change (set_expires (<[timer := e']> m));;
  kassert (bool_decide (timer ∉ timer_list c));;
  let j := insert_index i (timer_list c) in
  put_cpu k (set_timers (take j (timer_list c) ++ timer :: drop j (timer_list c)) c);;
  unlock_timers k.

(** The member after [timer], [None] at the end (the head has no parent). *)
Fixpoint timer_next (timer : loc) (l : list loc) : option loc :=
  match l with
  | [] => None
  | x :: l' => if x =? timer then head l' else timer_next timer l'
  end.

Definition remove_timer (k : nat) (timer : loc) : SY unit :=
  lock_timers k;;
  c ← cpu_at k;
  match timer_list c with
  | [] => unlock_timers k
  | _ :: _ =>
      e ← look (λ s, expires s !! timer);
      (if e =? 0 then mret tt else
       match timer_next timer (timer_list c) with
       | None => mret tt
       | Some next => en ← look (λ s, expires s !! next); change (λ s, set_expires (<[next := en + e]> (expires s)) s)
       end);;
      l ← look (λ _, list_without timer (timer_list c));
      put_cpu k (set_timers l c);;
      unlock_timers k
  end.

(** The loop of [check_timers_locked] from [timer].  [callback] is the call of
    the timer's own callback.  The fuel bounds the iterations, which are at
    most one per timer of the list. *)
Fixpoint expire_loop (callback : loc → SY unit) (k fuel : nat) (timer : loc) : SY unit :=
  match fuel with
  | O => st_fail
  | S fuel =>
      e ← look (λ s, expires s !! timer);
      if e =? 0 then
        c ← cpu_at k;
        let next := timer_next timer (timer_list c) in
        callback timer;;
        remove_timer k timer;;
        match next with None => mret tt | Some x => expire_loop callback k fuel x end
      else mret tt
  end.

Definition check_timers_locked (callback : loc → SY unit) (k : nat) : SY unit :=
  c ← cpu_at k;
  match timer_list c with
  | [] => mret tt
  | timer :: _ =>
      e ← look (λ s, expires s !! timer);
      change (λ s, set_expires (<[timer := e - 1]> (expires s)) s);;
      expire_loop callback k (length (timer_list c)) timer
  end.

(** *** Load balancing *)

Definition busiest (s : sys) (test : nat → bool) : nat :=
  fold_left (λ m c, if (workload_size m s <? workload_size c s) && test c then c else m) (seq 0 (ncpu s)) 0%nat.
Definition idlest (s : sys) : nat :=
  fold_left (λ m c, if workload_size c s <? workload_size m s then c else m) (seq 0 (ncpu s)) 0%nat.

(** [max_cpu] and [min_cpu] differ and the first has at least two more
    threads waiting. *)
Definition unbalanced (s : sys) : bool :=
  let max_cpu := busiest s (λ _, true) in
  let min_cpu := idlest s in
  bool_decide (max_cpu ≠ min_cpu) && (workload_size min_cpu s + 1 <? workload_size max_cpu s).

Definition tick (k : nat) (t : loc) : SY unit :=
  me ← cpu;
  (if decide (t = idle me) then upd_thr t (set_need_reschedule true) else fcfs_tick k);;
  s ← st_get;
  if unbalanced s then
    h ← here;
    victim ← fcfs_steal (busiest s (λ _, true)) h;
    match victim with
    | None => mret tt
    | Some v => enqueue (idlest s) v
    end
  else mret tt.

Definition timer_tick_handle (callback : loc → SY unit) (k : nat) : SY unit :=
  lock_timers k;;
  check_timers_locked callback k;;
  unlock_timers k;;
  me ← cpu;
  tick k (cur_thread me).

(** One round of the idle thread's loop. *)
Definition idle_round : SY unit :=
  h ← here;
  s ← st_get;
  stolen ← fcfs_steal (busiest s (λ c, negb (bool_decide (h = c)))) h;
  (match stolen with None => mret tt | Some t => enqueue h t end);;
  reschedule_locked h.

(** *** [scheduler::current] *)

Module current.

Definition reschedule_locked : SY unit := h ← here; Scheduler.reschedule_locked h.
Definition block_locked : SY unit := reschedule_locked.

(** [yield]: the current thread asks to be rescheduled. *)
Definition yield : SY unit := h ← here; yield_locked h.

Definition unblock (t : loc) : SY bool :=
  th ← thr t;
  h ← here;
  match affinity_cpu th with
  | Some k =>
      n ← look (λ s, Some (ncpu s));
      kassert (k <? n)%nat;;
      unblock_locked k t;;
      mret (bool_decide (k = h))
  | None => unblock_locked h t;; mret false
  end.

(** [insert]: there is no return after the insertion at the affine
    processor. *)
Definition insert (t : loc) : SY unit :=
  th ← thr t;
  h ← here;
  (match affinity_cpu th with
   | Some k =>
       n ← look (λ s, Some (ncpu s));
       kassert (k <? n)%nat;;
       insert_locked k t
   | None => mret tt
   end);;
  insert_locked h t.

Fixpoint unblock_all (ts : list loc) : SY bool :=
  match ts with
  | [] => mret true
  | t :: ts =>
      th ← thr t;
      kassert (negb (is_idle th));;
      put_thr t (set_state READY th);;
      unblock t;;
      unblock_all ts
  end.

End current.

(** ** [wait_queue] *)

Inductive resource_ownership := Normal | Reader.

Definition is_blocked (th : thread) : bool := bool_decide (state th = BLOCKED ∨ state th = BLOCKED_READ_LOCK).

Definition holding (t : loc) : SY bool := look (λ s, Some (wait_linked t s)).

Definition wq_dequeue (q t : loc) (err : error_code_values) : SY unit :=
  th ← thr t;
  held ← holding t;
  kassert held;;
  kassert (is_blocked th);;
  kassert (bool_decide (blocking_on_ th = Some q));;
  l ← wq_at q;
  l' ← look (λ _, list_without t l);
  put_wq q l';;
  put_thr t (set_blocking None err th).

(** The guard is a conjunction, so only [BLOCKED_READ_LOCK] fails it. *)
Definition unblock_thread (t : loc) (code : error_code_values) : SY error_code_values :=
  th ← thr t;
  if decide (state th ≠ BLOCKED ∧ state th = BLOCKED_READ_LOCK) then mret ERROR_INVALID else
  wq ← look (λ _, blocking_on_ th);
  held ← holding t;
  kassert held;;
  wq_dequeue wq t code;;
  r ← current.unblock t;
  (if r : bool then current.reschedule_locked else mret tt);;
  mret ERROR_SUCCESS.

(** [block_etc] up to the context switch: the code it returns without
    blocking, or [None] when the thread blocks.  [ddl] is the deadline, if it
    is not infinite; [now] the clock; [timer] the timer on the stack. *)
Definition block_etc (q : loc) (ddl : option Z) (now : Z) (timer : loc) (signal_mask : Z)
    (reason : resource_ownership) (intr : bool) : SY (option error_code_values) :=
  me ← cpu;
  let cur := cur_thread me in
  th ← thr cur;
  kassert (bool_decide (state th = RUNNING));;
  if match ddl with Some when => when <? now | None => false end then mret (Some ERROR_TIMEOUT) else
  let pending := intr && negb (Z.land (signals_ th) (Z.lxor signal_mask 0xFFFFFFFF) =? 0) in
  if pending && negb (Z.land (signals_ th) SIGNAL_KILLED =? 0) then mret (Some ERROR_INTERNAL_INTR_KILLED) else
  if pending && negb (Z.land (signals_ th) SIGNAL_SUSPEND =? 0) then mret (Some ERROR_INTERNAL_INTR_RETRY) else
  linked ← holding cur;
  kassert (negb linked);;
  l ← wq_at q;
  put_wq q (l ++ [cur]);;
  put_thr cur (set_blocking (Some q) ERROR_SUCCESS
    (set_state (match reason with Normal => BLOCKED | Reader => BLOCKED_READ_LOCK end) (set_interruptible intr th)));;
  (match ddl with
   | None => mret tt
   | Some when =>
       change (λ s, set_expires (<[timer := when - now]> (expires s)) s);;
       h ← here;
       add_timer h timer
   end);;
  current.block_locked;;
  mret None.

(** [block_etc] after the switch back. *)
Definition block_resume (t : loc) : SY error_code_values :=
  th ← thr t;
  put_thr t (set_interruptible false th);;
  mret (block_code_ th).

Definition peek (q : loc) : SY (option loc) := l ← wq_at q; mret (head l).

Definition wake_one (q : loc) (reschedule : bool) (code : error_code_values) : SY bool :=
  t ← peek q;
  match t with
  | None => mret false
  | Some t =>
      wq_dequeue q t code;;
      local_reschedule ← current.unblock t;
      if reschedule && local_reschedule then current.reschedule_locked;; mret true else mret false
  end.

(** [while ((t = peek()) != nullptr)]: every round takes a member out, so the
    number of members bounds the rounds. *)
Fixpoint drain (fuel : nat) (q : loc) (code : error_code_values) : SY (list loc) :=
  t ← peek q;
  match t with
  | None => mret []
  | Some t =>
      match fuel with
      | O => st_fail
      | S fuel => wq_dequeue q t code;; ts ← drain fuel q code; mret (t :: ts)
      end
  end.

Definition wake_all (q : loc) (reschedule : bool) (code : error_code_values) : SY unit :=
  l ← wq_at q;
  match l with
  | [] => mret tt
  | _ :: _ =>
      list ← drain (length l) q code;
      local_resched ← current.unblock_all list;
      if reschedule && local_resched then current.reschedule_locked else mret tt
  end.

(** Without the release of [global_thread_lock] at the end, which the interrupt
    does not hold. *)
Definition timeout_handle (timer t : loc) : SY unit :=
  h ← here; remove_timer h timer;; unblock_thread t ERROR_TIMEOUT;; mret tt.

(** *** [wait_queue_state] *)

Definition unblock_if_interruptible (t : loc) (status : error_code_values) : SY unit :=
  th ← thr t;
  if interruptible_ th then unblock_thread t status;; mret tt else mret tt.

Definition unsleep (t : loc) (status : error_code_values) : SY bool :=
  th ← thr t;
  put_thr t (set_blocking (blocking_on_ th) status th);;
  current.unblock t.

Definition unsleep_if_interruptible (t : loc) (status : error_code_values) : SY bool :=
  th ← thr t;
  if interruptible_ th then unsleep t status else mret false.

(** ** [thread] *)

Definition kill_locked (t : loc) : SY unit :=
  upd_thr t (λ th, set_signals (Z.lor (signals_ th) SIGNAL_KILLED) th);;
  me ← cpu;
  if decide (t = cur_thread me) then mret tt else
  th ← thr t;
  r ← match state th with
    | SUSPENDED => current.unblock t
    | BLOCKED | BLOCKED_READ_LOCK => unblock_if_interruptible t ERROR_INTERNAL_INTR_KILLED;; mret false
    | SLEEPING => unsleep_if_interruptible t ERROR_INTERNAL_INTR_KILLED
    | INITIAL | READY | RUNNING | DYING | DEAD => mret false
    end;
  if r : bool then current.reschedule_locked else mret tt.

(** [resched]: interrupts were disabled at the call. *)
Definition resume (t : loc) (resched : bool) : SY unit :=
  th ← thr t;
  if decide (state th = DEAD ∨ state th = DYING) then mret tt else
  put_thr t (set_signals (Z.land (signals_ th) (Z.lxor SIGNAL_SUSPEND (2 ^ 64 - 1))) th);;
  if decide (state th = INITIAL ∨ state th = SUSPENDED) then
    local_reschedule ← current.unblock t;
    if resched && local_reschedule then current.reschedule_locked else mret tt
  else mret tt.

(** The pending signal is recorded as [SIGNAL_KILLED]. *)
Definition suspend (t : loc) : SY (result unit) :=
  th ← thr t;
  kassert (negb (is_idle th));;
  if decide (state th = DEAD) then mret (Err ERROR_INVALID) else
  put_thr t (set_signals (Z.lor (signals_ th) SIGNAL_KILLED) th);;
  local_reschedule ← match state th with
    | INITIAL => current.unblock t
    | READY | RUNNING | SUSPENDED => mret false
    | BLOCKED | BLOCKED_READ_LOCK => unblock_if_interruptible t ERROR_INTERNAL_INTR_RETRY;; mret false
    | SLEEPING => unsleep_if_interruptible t ERROR_INTERNAL_INTR_RETRY
    | DYING | DEAD => st_fail
    end;
  th' ← thr t;
  (if need_reschedule_ th' && local_reschedule then current.reschedule_locked else mret tt);;
  mret (Ok tt).

(** [thread::current::exit]; the process's own list of threads is not part of
    the state. *)
Definition exit (code : error_code_values) : SY unit :=
  me ← cpu;
  let cur := cur_thread me in
  upd_thr cur (λ th, set_exit_code code (set_state DYING th));;
  th ← thr cur;
  (if negb (Z.land (flags_ th) FLAG_DETACHED =? 0) then mret tt
   else wake_all (exit_code_wait_queue_ th) false code);;
  current.reschedule_locked.

(** [join] up to the context switch: the code it returns without blocking, or
    [None]. *)
Definition join (t : loc) (ddl : option Z) (now : Z) (timer : loc) : SY (option error_code_values) :=
  th ← thr t;
  if negb (Z.land (flags_ th) FLAG_DETACHED =? 0) then mret (Some ERROR_INVALID) else
  if decide (state th = DEAD) then mret (Some ERROR_SUCCESS) else
  block_etc (exit_code_wait_queue_ th) ddl now timer 0 Normal false.

(** [join] after waiting: the exit code; the thread is deleted unless a
    zombie queue holds it. *)
Definition join_finish (t : loc) : SY error_code_values :=
  th ← thr t;
  kassert (bool_decide (state th = DYING ∨ state th = DEAD));;
  held ← holding t;
  kassert (negb held);;
  zombie ← look (λ s, Some (zombie_linked t s));
  (if zombie : bool then mret tt
   else kassert (parented th);; change (λ s, set_threads (delete t (threads s)) s));;
  mret (exit_code_ th).

(** ** [semaphore] *)

Definition sem_at (m : loc) : SY semaphore := look (λ s, semaphores s !! m).
Definition put_sem (m : loc) (v : semaphore) : SY unit := change (λ s, set_sems (<[m := v]> (semaphores s)) s).

Definition try_wait_locked (m : loc) : SY bool :=
  sm ← sem_at m;
  if 0 <? count_ sm then put_sem m (Sem (count_ sm -w 1) (wait_queue_ sm));; mret true else mret false.

Definition wait_locked (m : loc) (ddl : option Z) (now : Z) (timer : loc) : SY (option error_code_values) :=
  sm ← sem_at m;
  l ← wq_at (wait_queue_ sm);
  kassert ((count_ sm =? 0) || bool_decide (l = []));;
  if 0 <? count_ sm then put_sem m (Sem (count_ sm -w 1) (wait_queue_ sm));; mret (Some ERROR_SUCCESS)
  else block_etc (wait_queue_ sm) ddl now timer 0 Normal true.

Definition signal_locked (m : loc) : SY unit :=
  sm ← sem_at m;
  l ← wq_at (wait_queue_ sm);
  kassert ((count_ sm =? 0) || bool_decide (l = []));;
  if decide (l = []) then put_sem m (Sem (count_ sm +w 1) (wait_queue_ sm))
  else wake_one (wait_queue_ sm) true ERROR_SUCCESS;; mret tt.
