(* ===== verification/SchedInvariant.v ===== *)
(** * The scheduler's invariant

    Where a thread is: running on one processor, in one run queue, or in the
    wait queue it blocks on, in accordance with its state; and the effect of
    the scheduler's steps on it. *)

From S2P Require Import Prelude Types Links Scheduler.

(** The threads a processor runs or will run. *)
Definition members (c : cpu_struct) : list loc := cur_thread c :: run_queue_ c.

(** The state of a processor's current thread: the idle thread keeps [READY]
    when it is picked again. *)
Definition cur_state (c : cpu_struct) (th : thread) : Prop :=
  state th = RUNNING ∨ (state th = READY ∧ cur_thread c = idle c).

Definition waits_on (s : sys) (t q : loc) : Prop :=
  ∃ th, threads s !! t = Some th ∧ is_blocked th = true ∧ blocking_on_ th = Some q.

(** The invariant without the state of the executing processor's current
    thread. *)
Record winv (s : sys) : Prop := {
  wi_here : is_Some (cpus s !! this_cpu s) ∧ (this_cpu s < ncpu s)%nat;
  wi_nodup k c : cpus s !! k = Some c → NoDup (members c);
  wi_disj k1 k2 c1 c2 t : cpus s !! k1 = Some c1 → cpus s !! k2 = Some c2 →
    t ∈ members c1 → t ∈ members c2 → k1 = k2;
  wi_queued k c t : cpus s !! k = Some c → t ∈ run_queue_ c → ∃ th, threads s !! t = Some th ∧ state th = READY;
  wi_cur k c : cpus s !! k = Some c →
    ∃ th, threads s !! cur_thread c = Some th ∧ (k ≠ this_cpu s → cur_state c th);
  wi_idle k c : cpus s !! k = Some c →
    idle c ∈ members c ∧ ∃ th, threads s !! idle c = Some th ∧ is_idle th = true;
  wi_flag t th : threads s !! t = Some th → is_idle th = true → ∃ k c, cpus s !! k = Some c ∧ idle c = t;
  wi_zombie k c : cpus s !! k = Some c → zombie_queue_ c = [];
  wi_wait q l t : wait_queues s !! q = Some l → t ∈ l ↔ waits_on s t q;
  wi_wait_nodup q l : wait_queues s !! q = Some l → NoDup l;
  wi_timers k c : cpus s !! k = Some c → timer_lock c = false ∧ ∀ x, x ∈ timer_list c → is_Some (expires s !! x);
  wi_sem m sm : semaphores s !! m = Some sm → 0 <= count_ sm ∧
    ∃ l, wait_queues s !! wait_queue_ sm = Some l ∧ (count_ sm = 0 ∨ l = []);
  wi_sem_own m m' sm sm' : semaphores s !! m = Some sm → semaphores s !! m' = Some sm' →
    wait_queue_ sm = wait_queue_ sm' → m = m';
  wi_wait_dom t q : waits_on s t q → is_Some (wait_queues s !! q);
  wi_all k : (k < ncpu s)%nat → is_Some (cpus s !! k);
}.

Definition cur_ok (s : sys) : Prop :=
  ∀ c th, cpus s !! this_cpu s = Some c → threads s !! cur_thread c = Some th → cur_state c th.

Definition sinv (s : sys) : Prop := winv s ∧ cur_ok s.

(** The running thread is in no run queue. *)
Lemma cur_not_queued s c k d :
  winv s → cpus s !! this_cpu s = Some c → cpus s !! k = Some d → cur_thread c ∉ run_queue_ d.
Proof.
  intros I Hc Hk Hu. assert (k = this_cpu s) as -> by (apply (wi_disj _ I k _ d c (cur_thread c)); [done..|by right|by left]).
  rewrite Hc in Hk. injection Hk as <-. pose proof (wi_nodup _ I _ _ Hc) as Hn. by apply NoDup_cons in Hn as (? & _).
Qed.

(** ** Reading the state *)

Lemma look_run {A} (f : sys → option A) x s : f s = Some x → look f s = Some (x, s).
Proof. intros H. unfold look. by rewrite H. Qed.

Lemma cpu_run c s : cpus s !! this_cpu s = Some c → cpu s = Some (c, s).
Proof. intros H. unfold cpu, here, cpu_at. run with @look_run; [|done]. by apply look_run. Qed.

Lemma assert_here_run k s : this_cpu s = k → assert_here k s = Some (tt, s).
Proof.
  intros H. unfold assert_here, here. run with @look_run; [|done]. apply kassert_true.
  by apply bool_decide_eq_true_2.
Qed.

Lemma run_linked_false t s : (∀ k c, cpus s !! k = Some c → t ∉ run_queue_ c) → run_linked t s = false.
Proof.
  intros H. unfold run_linked. apply not_true_iff_false. rewrite existsb_exists. intros ([k c] & Hin & Ht).
  apply list_elem_of_In, elem_of_map_to_list in Hin. apply bool_decide_eq_true in Ht. by apply (H k c).
Qed.

Lemma wait_linked_true t q l s : wait_queues s !! q = Some l → t ∈ l → wait_linked t s = true.
Proof.
  intros H Ht. unfold wait_linked. apply existsb_exists. exists (q, l). split.
  - by apply list_elem_of_In, elem_of_map_to_list.
  - by apply bool_decide_eq_true.
Qed.

Lemma wait_linked_false t s : (∀ q l, wait_queues s !! q = Some l → t ∉ l) → wait_linked t s = false.
Proof.
  intros H. unfold wait_linked. apply not_true_iff_false. rewrite existsb_exists. intros ([q l] & Hin & Ht).
  apply list_elem_of_In, elem_of_map_to_list in Hin. apply bool_decide_eq_true in Ht. by apply (H q l).
Qed.

(** ** Steps of the invariant *)

(** A thread's fields that the invariant is about. *)
Definition aspect (th : thread) : thread_states * Z * option loc := (state th, flags_ th, blocking_on_ th).

Lemma aspect_eq th th' : aspect th = aspect th' →
  state th = state th' ∧ is_idle th = is_idle th' ∧ is_blocked th = is_blocked th' ∧ blocking_on_ th = blocking_on_ th'.
Proof. unfold aspect, is_idle, is_blocked. intros [= -> -> ->]. done. Qed.

(** Changing other fields of a thread. *)
Lemma winv_inert s t th th' :
  winv s → threads s !! t = Some th → aspect th = aspect th' → winv (set_threads (<[t := th']> (threads s)) s).
Proof.
  intros I Ht Ha. destruct (aspect_eq _ _ Ha) as (E1 & E2 & E3 & E4).
  assert (∀ u v, <[t := th']> (threads s) !! u = Some v → ∃ w, threads s !! u = Some w ∧ aspect w = aspect v) as Hb.
  { intros u v [[<- <-]|[_ H]]%lookup_insert_Some; eauto. }
  assert (∀ u v, threads s !! u = Some v → ∃ w, <[t := th']> (threads s) !! u = Some w ∧ aspect v = aspect w) as Hf.
  { intros u v H. destruct (decide (t = u)) as [<-|Hne].
    - exists th'. rewrite lookup_insert_eq. split; [done|]. congruence.
    - exists v. by rewrite lookup_insert_ne. }
  destruct I as [I1 I2 I3 I4 I5 I6 I7 I8 I9 I10 I11 I12 I13 I14 I15].
  split; cbn [threads cpus this_cpu wait_queues semaphores ncpu expires set_threads]; try done.
  - intros k c u Hc Hu. destruct (I4 k c u Hc Hu) as (v & Hv & Hs). destruct (Hf u v Hv) as (x & Hx & E).
    exists x. split; [done|]. apply aspect_eq in E as (<- & _). done.
  - intros k c Hc. destruct (I5 k c Hc) as (v & Hv & Hs). destruct (Hf _ v Hv) as (x & Hx & E).
    exists x. split; [done|]. apply aspect_eq in E as (E & _). intros Hk. specialize (Hs Hk).
    unfold cur_state in *. by rewrite <- E.
  - intros k c Hc. destruct (I6 k c Hc) as (Hm & v & Hv & Hs). split; [done|]. destruct (Hf _ v Hv) as (x & Hx & E).
    exists x. split; [done|]. apply aspect_eq in E as (_ & <- & _). done.
  - intros u v Hu Hi. destruct (Hb u v Hu) as (x & Hx & E). apply (I7 u x Hx).
    by apply aspect_eq in E as (_ & -> & _).
  - intros q l u Hq. rewrite (I9 q l u Hq). unfold waits_on. cbn [threads set_threads]. split.
    + intros (v & Hv & H1 & H2). destruct (Hf u v Hv) as (x & Hx & E). apply aspect_eq in E as (_ & _ & E & F).
      exists x. by rewrite <- E, <- F.
    + intros (v & Hv & H1 & H2). destruct (Hb u v Hv) as (x & Hx & E). apply aspect_eq in E as (_ & _ & E & F).
      exists x. by rewrite E, F.
  - intros u q (v & Hv & H1 & H2). destruct (Hb u v Hv) as (x & Hx & E). apply aspect_eq in E as (_ & _ & E & F).
    apply (I14 u q). exists x. by rewrite E, F.
Qed.

(** Splits a lookup in an updated map. *)
Ltac upd H := apply lookup_insert_Some in H as [[<- <-]|[? H]].

(** The thread [t] is at no processor. *)
Definition off_cpus (s : sys) (t : loc) : Prop := ∀ k c, cpus s !! k = Some c → t ∉ members c.

Lemma off_queue s t k c : off_cpus s t → cpus s !! k = Some c → t ∉ run_queue_ c.
Proof. intros H Hc Ht. apply (H k c Hc). by right. Qed.

Lemma off_idle s t k c : winv s → off_cpus s t → cpus s !! k = Some c → idle c ≠ t.
Proof. intros I H Hc <-. apply (H k c Hc), (wi_idle _ I k c Hc). Qed.

(** A thread that is nowhere goes to the end of the executing processor's run
    queue. *)
Definition queued (t : loc) (th : thread) (c : cpu_struct) (s : sys) : sys :=
  set_cpus (<[this_cpu s := set_rq (run_queue_ c ++ [t]) c]> (cpus s))
    (set_threads (<[t := set_state READY th]> (threads s)) s).

Lemma members_queued c t : members (set_rq (run_queue_ c ++ [t]) c) = members c ++ [t].
Proof. done. Qed.

Lemma elem_of_snoc (x y : loc) (l : list loc) : x ∈ l ++ [y] ↔ x ∈ l ∨ x = y.
Proof. rewrite elem_of_app, list_elem_of_singleton. done. Qed.

Lemma queued_waits s t th c u q :
  threads s !! t = Some th → (∀ q, ¬ waits_on s t q) → waits_on (queued t th c s) u q ↔ waits_on s u q.
Proof.
  intros Ht Hw. unfold waits_on at 1. cbn [threads queued set_cpus set_threads]. split.
  - intros (v & Hv & H1 & H2). upd Hv; [done|]. exists v. done.
  - intros (v & Hv & H1 & H2). exists v. rewrite lookup_insert_ne; [done|]. intros <-. apply (Hw q). by exists v.
Qed.

Lemma winv_queued s t th c :
  winv s → cpus s !! this_cpu s = Some c → threads s !! t = Some th → off_cpus s t → (∀ q, ¬ waits_on s t q) →
  winv (queued t th c s).
Proof.
  intros I Hc Ht Hoff Hw. pose proof (queued_waits s t th c) as Hwait.
  split; cbn [threads cpus this_cpu wait_queues semaphores ncpu expires queued set_threads set_cpus].
  - split; [|apply (wi_here _ I)]. rewrite lookup_insert_eq. eauto.
  - intros k c' Hk. upd Hk; [|by apply (wi_nodup _ I k)]. rewrite members_queued.
    apply NoDup_app. split; [by apply (wi_nodup _ I _ _ Hc)|]. split; [|apply NoDup_singleton].
    intros x Hx ->%list_elem_of_singleton. by apply (Hoff _ _ Hc).
  - intros k1 k2 c1 c2 u H1 H2 M1 M2. upd H1; upd H2; [done| | |by apply (wi_disj _ I k1 k2 c1 c2 u)].
    + rewrite members_queued, elem_of_snoc in M1. destruct M1 as [M1| ->]; [by apply (wi_disj _ I (this_cpu s) k2 c c2 u)|].
      by apply (Hoff _ _ H2) in M2.
    + rewrite members_queued, elem_of_snoc in M2. destruct M2 as [M2| ->]; [by apply (wi_disj _ I k1 (this_cpu s) c1 c u)|].
      by apply (Hoff _ _ H1) in M1.
  - intros k c' u Hk Hu. destruct (decide (t = u)) as [<-|Hne].
    { rewrite lookup_insert_eq. eauto. }
    rewrite lookup_insert_ne by done. upd Hk; [|by apply (wi_queued _ I k c')].
    cbn [run_queue_ set_rq] in Hu. apply elem_of_snoc in Hu as [Hu| ->]; [by apply (wi_queued _ I _ c u Hc)|done].
  - intros k c' Hk.
    assert (∃ c0, cpus s !! k = Some c0 ∧ cur_thread c' = cur_thread c0 ∧ idle c' = idle c0) as (c0 & Hk0 & E1 & E2).
    { upd Hk; eauto. }
    destruct (wi_cur _ I k c0 Hk0) as (v & Hv & Hs). exists v. unfold cur_state in *. rewrite E1, E2. split; [|done].
    rewrite lookup_insert_ne; [done|]. intros ->. apply (Hoff k c0 Hk0). by left.
  - intros k c' Hk.
    assert (∃ c0, cpus s !! k = Some c0 ∧ idle c' = idle c0 ∧ (∀ x, x ∈ members c0 → x ∈ members c')) as (c0 & Hk0 & E1 & E2).
    { upd Hk; [|eauto]. exists c. split; [done|]. split; [done|]. intros x Hx. rewrite members_queued, elem_of_snoc. by left. }
    rewrite E1. destruct (wi_idle _ I k c0 Hk0) as (Hm & v & Hv & Hs). split; [by apply E2|]. exists v.
    rewrite lookup_insert_ne; [done|]. intros ->. by apply (off_idle _ _ _ _ I Hoff Hk0).
  - intros u v Hu Hi.
    assert (∃ k c0, cpus s !! k = Some c0 ∧ idle c0 = u) as (k & c0 & Hk & E).
    { upd Hu; [by apply (wi_flag _ I _ th)|by apply (wi_flag _ I _ v)]. }
    destruct (decide (this_cpu s = k)) as [<-|Hne].
    + eexists _, _. rewrite lookup_insert_eq. split; [done|]. simpl. congruence.
    + exists k, c0. by rewrite lookup_insert_ne.
  - intros k c' Hk. upd Hk; [|by apply (wi_zombie _ I k)]. by apply (wi_zombie _ I _ c Hc).
  - intros q l u Hq. rewrite Hwait by done. by apply (wi_wait _ I).
  - apply (wi_wait_nodup _ I).
  - intros k c' Hk. upd Hk; [|by apply (wi_timers _ I k)]. by apply (wi_timers _ I _ c Hc).
  - apply (wi_sem _ I).
  - apply (wi_sem_own _ I).
  - intros u q Hu. apply (wi_wait_dom _ I u). by rewrite <- (Hwait u q).
  - intros k Hk. apply lookup_insert_is_Some'. right. by apply (wi_all _ I).
Qed.

Lemma enqueue_run s c t th :
  cpus s !! this_cpu s = Some c → threads s !! t = Some th → state th ≠ DYING →
  (∀ k c, cpus s !! k = Some c → t ∉ run_queue_ c) →
  enqueue (this_cpu s) t s = Some (tt, set_cpus (<[this_cpu s := set_rq (run_queue_ c ++ [t]) c]> (cpus s)) s).
Proof.
  intros Hc Ht Hd Hl. unfold enqueue. run with @look_run; [|exact Ht]. run with cpu_run; [|exact Hc].
  rewrite decide_False by tauto. unfold fcfs_enqueue. run with assert_here_run; [|done].
  run with @look_run; [|exact Hc]. run with @look_run; [|exact Ht]. rewrite decide_False by done.
  run with @look_run; [|done]. rewrite run_linked_false by done. run with @kassert_true; done.
Qed.

(** [scheduler::current::unblock] of a thread that may run here. *)
Lemma unblock_run s c t th :
  cpus s !! this_cpu s = Some c → (this_cpu s < ncpu s)%nat → threads s !! t = Some th →
  affinity_cpu th = None ∨ affinity_cpu th = Some (this_cpu s) → (∀ k c, cpus s !! k = Some c → t ∉ run_queue_ c) →
  current.unblock t s = Some (bool_decide (affinity_cpu th = Some (this_cpu s)), queued t th c s).
Proof.
  intros Hc Hn Ht Ha Hl. unfold current.unblock. run with @look_run; [|exact Ht]. run with @look_run; [|done].
  assert (unblock_locked (this_cpu s) t s = Some (tt, queued t th c s)) as Hu.
  { unfold unblock_locked. run with assert_here_run; [|done].
    erewrite bind_run; [|unfold upd_thr; run with @look_run; [reflexivity|exact Ht]].
    set (s1 := set_threads _ s). change (this_cpu s) with (this_cpu s1).
    rewrite (enqueue_run s1 c t (set_state READY th)); [done|done|apply lookup_insert_eq|done|done]. }
  destruct Ha as [-> | ->].
  - run with Hu. by rewrite bool_decide_false.
  - run with @look_run; [|done]. run with @kassert_true; [|by apply Nat.ltb_lt]. run with Hu.
    by rewrite !bool_decide_true.
Qed.

(** ** Scheduling *)

(** The threads after [next] was picked in place of [cur]. *)
Definition picked (cur next : loc) (thn : thread) (m : gmap loc thread) : gmap loc thread :=
  if decide (next = cur) then m else <[next := set_state RUNNING thn]> m.

Lemma pick_run s c cur next rest thn :
  cpus s !! this_cpu s = Some c → cur_thread c = cur → run_queue_ c = next :: rest →
  (∀ k c', cpus s !! k = Some c' → k ≠ this_cpu s → next ∉ run_queue_ c') → (next ∉ rest) →
  threads s !! next = Some thn → state thn = READY →
  (n ← fcfs_fetch (this_cpu s);
   n' ← match n with Some t => fcfs_dequeue (this_cpu s) t;; mret t | None => mret (idle c) end;
   if decide (n' = cur) then mret tt else switch_to n') s =
  Some (tt, set_cpus (<[this_cpu s := set_cur next (set_rq rest c)]> (cpus s))
              (set_threads (picked cur next thn (threads s)) s)).
Proof.
  intros Hc Hcur Hrq Hoth Hrest Hn Hst. unfold fcfs_fetch.
  erewrite bind_run; [|run with assert_here_run; [|done]; run with @look_run; [|exact Hc]; rewrite Hrq; reflexivity].
  set (s1 := set_cpus _ s). cbv beta iota.
  assert (cpus s1 !! this_cpu s1 = Some (set_rq rest c)) as Hc1 by apply lookup_insert_eq.
  assert (run_linked next s1 = false) as Hl.
  { apply run_linked_false. intros k c' Hk. cbn [cpus s1 set_cpus] in Hk. upd Hk; [done|]. by apply (Hoth k c'). }
  erewrite bind_run.
  2:{ unfold fcfs_dequeue. change (this_cpu s) with (this_cpu s1).
      erewrite bind_run; [|run with assert_here_run; [|done]; run with @look_run; [|exact Hc1];
        run with @look_run; [|done]; rewrite Hl; reflexivity]. reflexivity. }
  unfold picked. case_decide as Hd.
  - subst next. unfold mret, ST_ret. do 2 f_equal. subst cur. done.
  - unfold switch_to. run with @look_run; [|exact Hn]. run with @kassert_true; [|by apply bool_decide_eq_true_2].
    unfold put_thr, change at 1. erewrite bind_run; [|reflexivity]. run with @look_run; [|done].
    run with @look_run; [|exact Hc1]. unfold put_cpu, change. do 2 f_equal. simpl.
    unfold set_cpus, set_threads. simpl. by rewrite insert_insert_eq.
Qed.

(** The queue [schedule] picks from. *)
Definition next_queue (c : cpu_struct) (th : thread) : list loc :=
  if decide (state th = READY) then run_queue_ c ++ [cur_thread c] else run_queue_ c.

(** The state after [schedule]. *)
Definition switched (c : cpu_struct) (th : thread) (next : loc) (rest : list loc) (thn : thread) (s : sys) : sys :=
  set_cpus (<[this_cpu s := set_cur next (set_rq rest c)]> (cpus s))
    (set_threads (picked (cur_thread c) next thn (<[cur_thread c := set_need_reschedule false th]> (threads s))) s).

Lemma next_queue_members c th t : t ∈ next_queue c th → t ∈ members c.
Proof.
  unfold next_queue, members. case_decide; [rewrite elem_of_snoc|]; intros H1; [destruct H1 as [H1| ->]|]; set_solver.
Qed.

Lemma next_queue_nodup s c th :
  winv s → cpus s !! this_cpu s = Some c → NoDup (next_queue c th).
Proof.
  intros I Hc. pose proof (wi_nodup _ I _ _ Hc) as Hn. apply NoDup_cons in Hn as (Hn1 & Hn2).
  unfold next_queue. case_decide; [|done]. apply NoDup_app. split; [done|]. split; [|apply NoDup_singleton].
  by intros x Hx ->%list_elem_of_singleton.
Qed.

Lemma next_queue_ready s c th t :
  winv s → cpus s !! this_cpu s = Some c → threads s !! cur_thread c = Some th → t ∈ next_queue c th →
  ∃ v, <[cur_thread c := set_need_reschedule false th]> (threads s) !! t = Some v ∧ state v = READY.
Proof.
  intros I Hc Hth Ht. destruct (decide (cur_thread c = t)) as [<-|Hne].
  - rewrite lookup_insert_eq. eexists. split; [done|]. unfold next_queue in Ht. simpl. case_decide; [done|].
    pose proof (wi_nodup _ I _ _ Hc) as Hn. by apply NoDup_cons in Hn as (Hn1 & _).
  - rewrite lookup_insert_ne by done. apply (wi_queued _ I (this_cpu s) c); [done|].
    unfold next_queue in Ht. case_decide; [|done]. apply elem_of_snoc in Ht as [Ht| ->]; done.
Qed.

(** [schedule] of the executing processor: the first of the queue runs. *)
Lemma schedule_run s c th :
  winv s → cpus s !! this_cpu s = Some c → threads s !! cur_thread c = Some th →
  (state th = READY ∨ cur_thread c ≠ idle c) →
  ∃ next rest thn, next_queue c th = next :: rest ∧
    <[cur_thread c := set_need_reschedule false th]> (threads s) !! next = Some thn ∧ state thn = READY ∧
    schedule (this_cpu s) s = Some (tt, switched c th next rest thn s).
Proof.
  intros I Hc Hth Hor.
  assert (∃ next rest, next_queue c th = next :: rest) as (next & rest & Hl).
  { unfold next_queue. case_decide as Hr.
    - destruct (run_queue_ c); simpl; eauto.
    - destruct (wi_idle _ I _ _ Hc) as (Hi & _). apply elem_of_cons in Hi as [Hi|Hi]; [by destruct Hor|].
      destruct (run_queue_ c); [by apply elem_of_nil in Hi|eauto]. }
  pose proof (next_queue_nodup s c th I Hc) as Hnd. rewrite Hl in Hnd. apply NoDup_cons in Hnd as (Hnd & _).
  destruct (next_queue_ready s c th next I Hc Hth) as (thn & Hthn & Hst); [rewrite Hl; by left|].
  exists next, rest, thn. split; [done|]. split; [done|]. split; [done|].
  set (s1 := set_threads (<[cur_thread c := set_need_reschedule false th]> (threads s)) s).
  set (s2 := set_cpus (<[this_cpu s := set_rq (next_queue c th) c]> (cpus s)) s1).
  unfold schedule. run with cpu_run; [|exact Hc]. cbv zeta.
  erewrite bind_run; [|unfold upd_thr; run with @look_run; [reflexivity|exact Hth]]. fold s1.
  run with @look_run; [|apply lookup_insert_eq]. cbn [state set_need_reschedule].
  assert ((if decide (state th = READY) then enqueue (this_cpu s) (cur_thread c) else mret tt) s1 = Some (tt, s2)) as He.
  { unfold s2, next_queue. case_decide as Hr.
    - change (this_cpu s) with (this_cpu s1). rewrite (enqueue_run s1 c _ (set_need_reschedule false th)); [done|done|apply lookup_insert_eq|by simpl; rewrite Hr|].
      intros k c' Hk. by apply (cur_not_queued s c k c' I Hc Hk).
    - unfold mret, ST_ret. do 2 f_equal. unfold set_cpus. simpl. rewrite (insert_id (cpus s)); [done|]. rewrite Hc. by destruct c. }
  run with He. change (this_cpu s) with (this_cpu s2). change (idle c) with (idle (set_rq (next_queue c th) c)).
  rewrite (pick_run s2 (set_rq (next_queue c th) c) (cur_thread c) next rest thn).
  - unfold switched, set_cpus, set_threads. simpl. by rewrite insert_insert_eq.
  - apply lookup_insert_eq.
  - done.
  - exact Hl.
  - intros k c' Hk Hne Hin. cbn [cpus s2 set_cpus] in Hk. rewrite lookup_insert_ne in Hk by (intros E; by apply Hne).
    apply Hne. apply (wi_disj _ I k _ c' c next); [done|done|by right|]. apply (next_queue_members c th). rewrite Hl. by left.
  - done.
  - exact Hthn.
  - done.
Qed.

(** What switching leaves of a thread. *)
Definition keeps (v v' : thread) : Prop :=
  flags_ v = flags_ v' ∧ is_blocked v = is_blocked v' ∧ blocking_on_ v = blocking_on_ v' ∧
  affinity_cpu v = affinity_cpu v' ∧ exit_code_wait_queue_ v = exit_code_wait_queue_ v' ∧ block_code_ v = block_code_ v'.

Lemma keeps_refl v : keeps v v.
Proof. by repeat split. Qed.

Lemma keeps_trans v v' v'' : keeps v v' → keeps v' v'' → keeps v v''.
Proof. intros (?&?&?&?&?&?) (?&?&?&?&?&?). repeat split; congruence. Qed.

Lemma keeps_idle v v' : keeps v v' → is_idle v = is_idle v'.
Proof. intros (H & _). unfold is_idle. by rewrite H. Qed.

(** The same threads, up to what switching changes. *)
Definition same_threads (m m' : gmap loc thread) : Prop :=
  (∀ t v, m !! t = Some v → ∃ v', m' !! t = Some v' ∧ keeps v v') ∧
  (∀ t v', m' !! t = Some v' → ∃ v, m !! t = Some v ∧ keeps v v').

Lemma same_threads_insert m t v v' :
  m !! t = Some v → keeps v v' → same_threads m (<[t := v']> m).
Proof.
  intros Hv Hk. split.
  - intros u w Hw. destruct (decide (t = u)) as [<-|Hne].
    + exists v'. rewrite lookup_insert_eq. split; [done|]. congruence.
    + exists w. rewrite lookup_insert_ne by done. split; [done|apply keeps_refl].
  - intros u w Hw. upd Hw; [eauto|]. exists w. split; [done|apply keeps_refl].
Qed.

Lemma same_threads_refl m : same_threads m m.
Proof. split; eauto using keeps_refl. Qed.

Lemma same_threads_trans m m' m'' : same_threads m m' → same_threads m' m'' → same_threads m m''.
Proof.
  intros (F & B) (F' & B'). split.
  - intros t v Hv. destruct (F t v Hv) as (v' & Hv' & K). destruct (F' t v' Hv') as (v'' & Hv'' & K').
    eauto using keeps_trans.
  - intros t v Hv. destruct (B' t v Hv) as (v' & Hv' & K). destruct (B t v' Hv') as (v'' & Hv'' & K').
    eauto using keeps_trans.
Qed.

Lemma same_threads_waits s s' t q : same_threads (threads s) (threads s') → waits_on s t q ↔ waits_on s' t q.
Proof.
  intros (F & B). unfold waits_on. split.
  - intros (v & Hv & H1 & H2). destruct (F t v Hv) as (v' & Hv' & (_ & K1 & K2 & _)). exists v'. by rewrite <- K1, <- K2.
  - intros (v & Hv & H1 & H2). destruct (B t v Hv) as (v' & Hv' & (_ & K1 & K2 & _)). exists v'. by rewrite K1, K2.
Qed.

Lemma switched_threads s c th next rest thn :
  threads s !! cur_thread c = Some th →
  <[cur_thread c := set_need_reschedule false th]> (threads s) !! next = Some thn → state thn = READY →
  same_threads (threads s) (threads (switched c th next rest thn s)).
Proof.
  intros Hth Hn Hst. cbn [threads switched set_cpus set_threads]. unfold picked.
  assert (same_threads (threads s) (<[cur_thread c := set_need_reschedule false th]> (threads s))) as H1.
  { eapply same_threads_insert; [done|]. by repeat split. }
  case_decide; [done|]. eapply same_threads_trans; [exact H1|]. eapply same_threads_insert; [done|].
  repeat split. unfold is_blocked. simpl. by rewrite Hst.
Qed.

(** A thread other than the two keeps its record. *)
Lemma switched_other s c th next rest thn t :
  t ≠ cur_thread c → t ≠ next → threads (switched c th next rest thn s) !! t = threads s !! t.
Proof.
  intros H1 H2. cbn [threads switched set_cpus set_threads]. unfold picked.
  case_decide; rewrite ?lookup_insert_ne by done; done.
Qed.

Lemma switched_next s c th next rest thn :
  <[cur_thread c := set_need_reschedule false th]> (threads s) !! next = Some thn → state thn = READY →
  ∃ v, threads (switched c th next rest thn s) !! next = Some v ∧
    state v = if decide (next = cur_thread c) then READY else RUNNING.
Proof.
  intros Hn Hst. cbn [threads switched set_cpus set_threads]. unfold picked.
  case_decide; [eauto|]. rewrite lookup_insert_eq. eauto.
Qed.

Section switched.
Context (s : sys) (c : cpu_struct) (th : thread) (next : loc) (rest : list loc) (thn : thread).
Context (I : winv s) (Hc : cpus s !! this_cpu s = Some c) (Hth : threads s !! cur_thread c = Some th).
Context (Hor : state th = READY ∨ cur_thread c ≠ idle c) (Hq : next_queue c th = next :: rest).
Context (Hn : <[cur_thread c := set_need_reschedule false th]> (threads s) !! next = Some thn) (Hst : state thn = READY).

Let c' := set_cur next (set_rq rest c).
Let s' := switched c th next rest thn s.

Lemma switched_members t : t ∈ members c' → t ∈ members c.
Proof. change (members c') with (next :: rest). rewrite <- Hq. apply next_queue_members. Qed.

Lemma switched_idle : idle c ∈ members c'.
Proof.
  change (members c') with (next :: rest). rewrite <- Hq. destruct (wi_idle _ I _ _ Hc) as (Hi & _).
  unfold next_queue. apply elem_of_cons in Hi as [Hi|Hi].
  - destruct Hor as [Hr|Hr]; [|done]. rewrite decide_True by done. rewrite Hi. apply elem_of_snoc. by right.
  - case_decide; [apply elem_of_snoc; by left|done].
Qed.

(** When the same thread is picked again it is the idle thread, alone. *)
Lemma switched_same : next = cur_thread c → next = idle c.
Proof.
  intros ->. pose proof (wi_nodup _ I _ _ Hc) as Hnd. apply NoDup_cons in Hnd as (Hnd & _).
  destruct (wi_idle _ I _ _ Hc) as (Hi & _). apply elem_of_cons in Hi as [Hi|Hi]; [done|].
  destruct (run_queue_ c) as [|x l] eqn:E; [by apply elem_of_nil in Hi|].
  unfold next_queue in Hq. rewrite E in Hq. case_decide; injection Hq as -> _; by destruct Hnd; left.
Qed.

Lemma switched_queued t : t ∈ rest → ∃ v, threads s' !! t = Some v ∧ state v = READY.
Proof.
  intros Ht. pose proof (next_queue_nodup s c th I Hc) as Hnd. rewrite Hq in Hnd. apply NoDup_cons in Hnd as (Hnd & _).
  destruct (next_queue_ready s c th t I Hc Hth) as (v & Hv & Hs); [rewrite Hq; by right|].
  exists v. split; [|done]. cbn [threads s' switched set_cpus set_threads]. unfold picked. case_decide; [done|].
  rewrite lookup_insert_ne; [done|]. by intros ->.
Qed.

Lemma other_cpu k d t : cpus s !! k = Some d → k ≠ this_cpu s → t ∈ members d → threads s' !! t = threads s !! t.
Proof.
  intros Hk Hne Ht. apply switched_other.
  - intros ->. apply Hne, (wi_disj _ I k _ d c (cur_thread c)); [done..|]. by left.
  - intros ->. apply Hne, (wi_disj _ I k _ d c next); [done..|]. apply switched_members. by left.
Qed.

Lemma winv_switched : winv s'.
Proof.
  pose proof (switched_threads s c th next rest thn Hth Hn Hst) as Hsame. fold s' in Hsame.
  assert (∀ k d, cpus s' !! k = Some d → (k = this_cpu s ∧ d = c') ∨ (k ≠ this_cpu s ∧ cpus s !! k = Some d)) as Hcases.
  { intros k d Hk. cbn [cpus s' switched set_cpus] in Hk. upd Hk; [by left|]. right. split; [by intros ->|done]. }
  split; change (this_cpu s') with (this_cpu s).
  - split; [|apply (wi_here _ I)]. cbn [cpus s' switched set_cpus]. rewrite lookup_insert_eq. eauto.
  - intros k d [(-> & ->)|(_ & Hk)]%Hcases; [|by apply (wi_nodup _ I k)].
    change (members c') with (next :: rest). rewrite <- Hq. by apply (next_queue_nodup s).
  - intros k1 k2 d1 d2 t [(-> & ->)|(_ & Hk1)]%Hcases [(-> & ->)|(_ & Hk2)]%Hcases M1 M2; [done|..].
    + apply (wi_disj _ I _ k2 c d2 t); [done..| |done]. by apply switched_members.
    + apply (wi_disj _ I k1 _ d1 c t); [done..|]. by apply switched_members.
    + by apply (wi_disj _ I k1 k2 d1 d2 t).
  - intros k d t [(-> & ->)|(Hne & Hk)]%Hcases Ht; [by apply switched_queued|].
    rewrite (other_cpu k d) by (done || by right). by apply (wi_queued _ I k d).
  - intros k d [(-> & ->)|(Hne & Hk)]%Hcases.
    + destruct (switched_next s c th next rest thn Hn Hst) as (v & Hv & _). exists v. split; [exact Hv|done].
    + rewrite (other_cpu k d) by (done || by left). by apply (wi_cur _ I k d).
  - intros k d [(-> & ->)|(Hne & Hk)]%Hcases.
    + split; [apply switched_idle|]. destruct (wi_idle _ I _ _ Hc) as (_ & v & Hv & Hi).
      destruct Hsame as (F & _). destruct (F _ v Hv) as (v' & Hv' & K). exists v'. split; [done|]. by rewrite <- (keeps_idle v v').
    + destruct (wi_idle _ I _ _ Hk) as (Hm & Hv). split; [done|]. by rewrite (other_cpu k d).
  - intros t v Hv Hi. destruct Hsame as (_ & B). destruct (B t v Hv) as (v' & Hv' & K).
    destruct (wi_flag _ I t v' Hv') as (k & d & Hk & E); [by rewrite (keeps_idle v' v)|].
    destruct (decide (this_cpu s = k)) as [<-|Hne].
    + exists (this_cpu s), c'. cbn [cpus s' switched set_cpus]. rewrite lookup_insert_eq. split; [done|].
      rewrite Hc in Hk. injection Hk as <-. done.
    + exists k, d. cbn [cpus s' switched set_cpus]. by rewrite lookup_insert_ne.
  - intros k d [(-> & ->)|(_ & Hk)]%Hcases; [|by apply (wi_zombie _ I k)]. by apply (wi_zombie _ I _ c Hc).
  - intros q l t Hl. rewrite <- (same_threads_waits s s' t q Hsame). by apply (wi_wait _ I).
  - apply (wi_wait_nodup _ I).
  - intros k d [(-> & ->)|(_ & Hk)]%Hcases; [|by apply (wi_timers _ I k)]. by apply (wi_timers _ I _ c Hc).
  - apply (wi_sem _ I).
  - apply (wi_sem_own _ I).
  - intros t q Ht. apply (wi_wait_dom _ I t). by rewrite (same_threads_waits s s' t q Hsame).
  - intros k Hk. apply lookup_insert_is_Some'. right. by apply (wi_all _ I).
Qed.

Lemma sinv_switched : sinv s'.
Proof.
  split; [apply winv_switched|]. intros d v Hd Hv. change (this_cpu s') with (this_cpu s) in Hd.
  cbn [cpus s' switched set_cpus] in Hd. rewrite lookup_insert_eq in Hd. injection Hd as <-.
  destruct (switched_next s c th next rest thn Hn Hst) as (v' & Hv' & Es). cbn [cur_thread set_cur] in Hv.
  fold s' in Hv'. rewrite Hv in Hv'. injection Hv' as <-. unfold cur_state. rewrite Es. case_decide as Hd; [|by left].
  right. split; [done|]. by apply switched_same.
Qed.

End switched.

(** ** Wait queues *)

Definition dequeued (q t : loc) (l : list loc) (th : thread) (err : error_code_values) (s : sys) : sys :=
  set_threads (<[t := set_blocking None err th]> (threads s)) (set_wqs (<[q := filter (λ x, x ≠ t) l]> (wait_queues s)) s).

Lemma wq_dequeue_run s q l t th err :
  winv s → wait_queues s !! q = Some l → t ∈ l → threads s !! t = Some th →
  wq_dequeue q t err s = Some (tt, dequeued q t l th err s).
Proof.
  intros I Hq Ht Hth. destruct (proj1 (wi_wait _ I q l t Hq) Ht) as (v & Hv & Hb & Ho).
  rewrite Hth in Hv. injection Hv as <-. unfold wq_dequeue, holding.
  run with @look_run; [|exact Hth]. run with @look_run; [|done].
  rewrite (wait_linked_true t q l) by done. run with @kassert_true; [|done].
  run with @kassert_true; [|done]. run with @kassert_true; [|by apply bool_decide_eq_true_2].
  run with @look_run; [|exact Hq]. run with @look_run; [|unfold list_without; by rewrite decide_True]. done.
Qed.

Lemma dequeued_waits s q l t th err u r :
  winv s → waits_on (dequeued q t l th err s) u r ↔ waits_on s u r ∧ u ≠ t.
Proof.
  intros I. unfold waits_on. cbn [threads dequeued set_threads]. split.
  - intros (v & Hv & H1 & H2). upd Hv; [done|]. split; [by exists v|]. congruence.
  - intros ((v & Hv & H1 & H2) & Hne). exists v. by rewrite lookup_insert_ne.
Qed.

Lemma winv_dequeued s q l t th err :
  winv s → wait_queues s !! q = Some l → t ∈ l → threads s !! t = Some th → winv (dequeued q t l th err s).
Proof.
  intros I Hq Ht Hth. destruct (proj1 (wi_wait _ I q l t Hq) Ht) as (v & Hv & Hb & Ho).
  rewrite Hth in Hv. injection Hv as <-.
  assert (∀ u w, threads s !! u = Some w → ∃ w', threads (dequeued q t l th err s) !! u = Some w' ∧
    state w = state w' ∧ is_idle w = is_idle w') as Hf.
  { intros u w Hu. cbn [threads dequeued set_threads]. destruct (decide (t = u)) as [<-|Hne].
    - rewrite lookup_insert_eq. eexists. split; [done|]. by rewrite Hth in Hu; injection Hu as <-.
    - rewrite lookup_insert_ne by done. eauto. }
  split; change (cpus (dequeued q t l th err s)) with (cpus s); change (this_cpu (dequeued q t l th err s)) with (this_cpu s).
  - apply (wi_here _ I).
  - apply (wi_nodup _ I).
  - apply (wi_disj _ I).
  - intros k c u Hk Hu. destruct (wi_queued _ I k c u Hk Hu) as (w & Hw & Hs). destruct (Hf u w Hw) as (w' & Hw' & E & _).
    exists w'. split; [done|congruence].
  - intros k c Hk. destruct (wi_cur _ I k c Hk) as (w & Hw & Hs). destruct (Hf _ w Hw) as (w' & Hw' & E & _).
    exists w'. split; [done|]. intros Hne. specialize (Hs Hne). unfold cur_state in *. by rewrite <- E.
  - intros k c Hk. destruct (wi_idle _ I k c Hk) as (Hm & w & Hw & Hs). destruct (Hf _ w Hw) as (w' & Hw' & _ & E).
    split; [done|]. exists w'. split; [done|congruence].
  - intros u w Hu Hi. cbn [threads dequeued set_threads] in Hu. upd Hu; [by apply (wi_flag _ I _ th)|by apply (wi_flag _ I _ w)].
  - apply (wi_zombie _ I).
  - intros r l' u Hr. rewrite dequeued_waits by done. cbn [wait_queues dequeued set_threads set_wqs] in Hr. upd Hr.
    + rewrite list_elem_of_filter, (wi_wait _ I q l u Hq). tauto.
    + rewrite (wi_wait _ I r l' u Hr). split; [|tauto]. intros Hu. split; [done|]. intros ->.
      destruct Hu as (w & Hw & _ & Hw2). rewrite Hth in Hw. injection Hw as <-. congruence.
  - intros r l' Hr. cbn [wait_queues dequeued set_threads set_wqs] in Hr. upd Hr; [|by apply (wi_wait_nodup _ I r)].
    apply NoDup_filter. by apply (wi_wait_nodup _ I q).
  - apply (wi_timers _ I).
  - intros m sm Hm. destruct (wi_sem _ I m sm Hm) as (H0 & l' & Hl' & Hor). split; [done|].
    cbn [wait_queues dequeued set_threads set_wqs]. destruct (decide (q = wait_queue_ sm)) as [->|Hne].
    + rewrite lookup_insert_eq. eexists. split; [done|]. rewrite Hq in Hl'. injection Hl' as <-.
      destruct Hor as [Hor| ->]; [by left|]. by apply elem_of_nil in Ht.
    + rewrite lookup_insert_ne by done. eauto.
  - apply (wi_sem_own _ I).
  - intros u r Hu. apply dequeued_waits in Hu as (Hu & _); [|done]. cbn [wait_queues dequeued set_threads set_wqs].
    apply lookup_insert_is_Some'. right. by apply (wi_wait_dom _ I u).
  - apply (wi_all _ I).
Qed.

(** The current thread goes to the end of a wait queue. *)
Definition blocked (q : loc) (l : list loc) (cur : loc) (th : thread) (s : sys) : sys :=
  set_threads (<[cur := th]> (threads s)) (set_wqs (<[q := l ++ [cur]]> (wait_queues s)) s).

Lemma blocked_waits s q l cur th u r :
  is_blocked th = true → blocking_on_ th = Some q → (∀ r, ¬ waits_on s cur r) →
  waits_on (blocked q l cur th s) u r ↔ waits_on s u r ∨ (u = cur ∧ r = q).
Proof.
  intros Hb Ho Hw. unfold waits_on at 1. cbn [threads blocked set_threads]. split.
  - intros (v & Hv & H1 & H2). upd Hv; [right; split; congruence|]. left. by exists v.
  - intros [(v & Hv & H1 & H2)|(-> & ->)]; [|exists th; by rewrite lookup_insert_eq].
    exists v. rewrite lookup_insert_ne; [done|]. intros <-. apply (Hw r). by exists v.
Qed.

Lemma winv_blocked s q l c th0 th :
  winv s → cpus s !! this_cpu s = Some c → threads s !! cur_thread c = Some th0 → is_blocked th0 = false →
  wait_queues s !! q = Some l → (∀ m sm, semaphores s !! m = Some sm → wait_queue_ sm = q → count_ sm = 0) →
  is_blocked th = true → blocking_on_ th = Some q → flags_ th = flags_ th0 →
  winv (blocked q l (cur_thread c) th s).
Proof.
  intros I Hc Hth0 Hnb Hq Hsem Hb Ho Hfl. set (s' := blocked q l (cur_thread c) th s).
  assert (∀ r, ¬ waits_on s (cur_thread c) r) as Hw.
  { intros r (v & Hv & H1 & _). rewrite Hth0 in Hv. injection Hv as <-. congruence. }
  assert (is_idle th = is_idle th0) as Hid by (unfold is_idle; by rewrite Hfl).
  assert (∀ u, u ≠ cur_thread c → threads s' !! u = threads s !! u) as Hoth.
  { intros u Hu. cbn [threads s' blocked set_threads]. by rewrite lookup_insert_ne. }
  assert (threads s' !! cur_thread c = Some th) as Hself by apply lookup_insert_eq.
  assert (cur_thread c ∉ l) as Hnl by (rewrite (wi_wait _ I q l) by done; apply Hw).
  split; change (cpus s') with (cpus s); change (this_cpu s') with (this_cpu s).
  - apply (wi_here _ I).
  - apply (wi_nodup _ I).
  - apply (wi_disj _ I).
  - intros k d u Hk Hu. rewrite Hoth; [by apply (wi_queued _ I k d)|]. intros ->. by apply (cur_not_queued s c k d I Hc Hk).
  - intros k d Hk. destruct (decide (k = this_cpu s)) as [->|Hne].
    + rewrite Hc in Hk. injection Hk as <-. exists th. by split.
    + rewrite Hoth; [by apply (wi_cur _ I k d)|]. intros E. apply Hne.
      apply (wi_disj _ I k _ d c (cur_thread d)); [done..|by left|rewrite E; by left].
  - intros k d Hk. destruct (wi_idle _ I k d Hk) as (Hm & v & Hv & Hi). split; [done|].
    destruct (decide (idle d = cur_thread c)) as [E|E].
    + exists th. rewrite E, Hid. split; [done|]. congruence.
    + exists v. by rewrite Hoth.
  - intros u v Hu Hi. destruct (decide (u = cur_thread c)) as [->|E].
    + apply (wi_flag _ I _ th0 Hth0). congruence.
    + rewrite Hoth in Hu by done. by apply (wi_flag _ I u v).
  - apply (wi_zombie _ I).
  - intros r l' u Hr. unfold s'. rewrite blocked_waits by done. cbn [wait_queues s' blocked set_threads set_wqs] in Hr. upd Hr.
    + rewrite elem_of_snoc, (wi_wait _ I q l u Hq). tauto.
    + rewrite (wi_wait _ I r l' u Hr). split; [by left|]. intros [?|(_ & ->)]; done.
  - intros r l' Hr. cbn [wait_queues s' blocked set_threads set_wqs] in Hr. upd Hr; [|by apply (wi_wait_nodup _ I r)].
    apply NoDup_app. split; [by apply (wi_wait_nodup _ I q)|]. split; [|apply NoDup_singleton].
    by intros x Hx ->%list_elem_of_singleton.
  - apply (wi_timers _ I).
  - intros m sm Hm. destruct (wi_sem _ I m sm Hm) as (H0 & l' & Hl' & Hor). split; [done|].
    cbn [wait_queues s' blocked set_threads set_wqs]. destruct (decide (q = wait_queue_ sm)) as [->|Hne].
    + rewrite lookup_insert_eq. eexists. split; [done|]. left. by apply (Hsem m).
    + rewrite lookup_insert_ne by done. eauto.
  - apply (wi_sem_own _ I).
  - intros u r Hu. apply blocked_waits in Hu; [|done..]. cbn [wait_queues s' blocked set_threads set_wqs].
    apply lookup_insert_is_Some'. destruct Hu as [Hu|(_ & ->)]; [right; by apply (wi_wait_dom _ I u)|by left].
  - apply (wi_all _ I).
Qed.

(** ** Timers *)

(** Only counters and the executing processor's timer list change. *)
Definition retimed (c : cpu_struct) (tl : list loc) (m : gmap loc Z) (s : sys) : sys :=
  set_cpus (<[this_cpu s := set_timers tl c]> (cpus s)) (set_expires m s).

Lemma winv_retimed s c tl m :
  winv s → cpus s !! this_cpu s = Some c → (∀ x, x ∈ tl → is_Some (m !! x)) → (∀ x, is_Some (expires s !! x) → is_Some (m !! x)) →
  winv (retimed c tl m s).
Proof.
  intros I Hc Htl Hm.
  assert (∀ k d, cpus (retimed c tl m s) !! k = Some d → ∃ d0, cpus s !! k = Some d0 ∧ cur_thread d = cur_thread d0 ∧
    run_queue_ d = run_queue_ d0 ∧ idle d = idle d0 ∧ zombie_queue_ d = zombie_queue_ d0 ∧ timer_lock d = timer_lock d0 ∧
    (timer_list d = timer_list d0 ∨ timer_list d = tl)) as Hback.
  { intros k d Hk. cbn [cpus retimed set_cpus] in Hk. upd Hk; [exists c | exists d]; repeat split; auto. }
  assert (∀ d d0, cur_thread d = cur_thread d0 → run_queue_ d = run_queue_ d0 → members d = members d0) as Hmem.
  { intros d d0 E1 E2. unfold members. by rewrite E1, E2. }
  split; change (this_cpu (retimed c tl m s)) with (this_cpu s); change (threads (retimed c tl m s)) with (threads s);
    change (wait_queues (retimed c tl m s)) with (wait_queues s).
  - split; [|apply (wi_here _ I)]. cbn [cpus retimed set_cpus]. rewrite lookup_insert_eq. eauto.
  - intros k d (d0 & Hk & E1 & E2 & _)%Hback. rewrite (Hmem d d0) by done. by apply (wi_nodup _ I k).
  - intros k1 k2 d1 d2 t (x & Hx & E1 & E2 & _)%Hback (y & Hy & F1 & F2 & _)%Hback.
    rewrite (Hmem d1 x), (Hmem d2 y) by done. by apply (wi_disj _ I).
  - intros k d t (d0 & Hk & E1 & -> & _)%Hback. by apply (wi_queued _ I k).
  - intros k d (d0 & Hk & E1 & E2 & E3 & _)%Hback. unfold cur_state. rewrite E1, E3. by apply (wi_cur _ I k).
  - intros k d (d0 & Hk & E1 & E2 & E3 & _)%Hback. rewrite (Hmem d d0), E3 by done. by apply (wi_idle _ I k).
  - intros t v Hv Hi. destruct (wi_flag _ I t v Hv Hi) as (k & d & Hk & E). destruct (decide (this_cpu s = k)) as [<-|Hne].
    + exists (this_cpu s), (set_timers tl c). cbn [cpus retimed set_cpus]. rewrite lookup_insert_eq. split; [done|].
      rewrite Hc in Hk. injection Hk as <-. done.
    + exists k, d. cbn [cpus retimed set_cpus]. by rewrite lookup_insert_ne.
  - intros k d (d0 & Hk & _ & _ & _ & -> & _)%Hback. by apply (wi_zombie _ I k).
  - apply (wi_wait _ I).
  - apply (wi_wait_nodup _ I).
  - intros k d (d0 & Hk & _ & _ & _ & _ & -> & Hl)%Hback. destruct (wi_timers _ I k d0 Hk) as (H1 & H2).
    split; [done|]. intros x. destruct Hl as [-> | ->]; [|apply Htl]. intros Hx. by apply Hm, H2.
  - apply (wi_sem _ I).
  - apply (wi_sem_own _ I).
  - apply (wi_wait_dom _ I).
  - intros k Hk. apply lookup_insert_is_Some'. right. by apply (wi_all _ I).
Qed.

Lemma timer_walk_total e l i m :
  (∀ x, x ∈ l → is_Some (m !! x)) →
  ∃ e' i' m', timer_walk e l i m = Some (e', i', m') ∧ dom m' = dom m.
Proof.
  revert e i. induction l as [|x l IH]; intros e i H; simpl; [eauto|].
  destruct (H x) as (ex & Hx); [by left|]. rewrite Hx. destruct (e <? ex).
  - do 3 eexists. split; [done|]. apply elem_of_dom_2 in Hx. rewrite dom_insert_L. set_solver.
  - apply IH. intros y Hy. apply H. by right.
Qed.

Lemma lock_timers_run s k c :
  cpus s !! k = Some c → timer_lock c = false →
  lock_timers k s = Some (tt, set_cpus (<[k := set_timer_lock true c]> (cpus s)) s).
Proof. intros Hc Hlock. unfold lock_timers. run with @look_run; [|exact Hc]. rewrite Hlock. run with @kassert_true; done. Qed.

(** The state [add_timer] leaves. *)
Lemma add_timer_eq s c timer e e' i m :
  cpus s !! this_cpu s = Some c → timer_lock c = false → expires s !! timer = Some e → (timer ∉ timer_list c) →
  timer_walk e (timer_list c) 0 (expires s) = Some (e', i, m) →
  let j := insert_index i (timer_list c) in
  add_timer (this_cpu s) timer s =
    Some (tt, retimed c (take j (timer_list c) ++ timer :: drop j (timer_list c)) (<[timer := e']> m) s).
Proof.
  intros Hc Hlock He Hn Hw j. unfold add_timer. run with (lock_timers_run s (this_cpu s) c Hc Hlock).
  run with @look_run; [|apply lookup_insert_eq]. run with @look_run; [|exact He]. run with @look_run; [|exact Hw].
  cbv beta iota. erewrite bind_run; [|reflexivity].
  run with @kassert_true; [|by apply bool_decide_eq_true_2]. cbv zeta. erewrite bind_run; [|reflexivity].
  unfold unlock_timers. run with @look_run; [|apply lookup_insert_eq]. run with @kassert_true; [|done].
  unfold put_cpu, change, retimed, set_cpus, set_expires. simpl. rewrite !insert_insert_eq.
  do 4 f_equal. unfold set_timers, set_timer_lock. simpl. by rewrite Hlock.
Qed.

Lemma add_timer_run s c timer :
  winv s → cpus s !! this_cpu s = Some c → is_Some (expires s !! timer) → (timer ∉ timer_list c) →
  ∃ tl m, add_timer (this_cpu s) timer s = Some (tt, retimed c tl m s) ∧ winv (retimed c tl m s).
Proof.
  intros I Hc (e & He) Hn. destruct (wi_timers _ I _ _ Hc) as (Hlock & Hex).
  destruct (timer_walk_total e (timer_list c) 0 (expires s) Hex) as (e' & i & m & Hw & Hdom).
  eexists _, _. split; [by eapply add_timer_eq|]. set (j := insert_index i (timer_list c)).
  assert (∀ x, is_Some (expires s !! x) → is_Some (<[timer := e']> m !! x)) as Hm.
  { intros x Hx. apply lookup_insert_is_Some'. right. apply elem_of_dom. rewrite Hdom. by apply elem_of_dom. }
  apply winv_retimed; [done|done| |done]. intros x Hx. rewrite elem_of_app, elem_of_cons in Hx.
  destruct Hx as [Hx|[->|Hx]]; apply Hm; [apply Hex; revert Hx; apply subseteq_take|eauto|apply Hex; revert Hx; apply subseteq_drop].
Qed.

(** ** Rescheduling *)

(** The state of the executing processor's current thread may change as long
    as it waits as before. *)
Lemma winv_self s c th th' :
  winv s → cpus s !! this_cpu s = Some c → threads s !! cur_thread c = Some th → keeps th th' →
  winv (set_threads (<[cur_thread c := th']> (threads s)) s).
Proof.
  intros I Hc Hth K. set (s' := set_threads _ s).
  assert (same_threads (threads s) (threads s')) as Hsame by (by apply (same_threads_insert _ _ th)).
  assert (∀ u, u ≠ cur_thread c → threads s' !! u = threads s !! u) as Hoth.
  { intros u Hu. cbn [threads s' set_threads]. by rewrite lookup_insert_ne. }
  split; change (cpus s') with (cpus s); change (this_cpu s') with (this_cpu s); change (wait_queues s') with (wait_queues s).
  - apply (wi_here _ I).
  - apply (wi_nodup _ I).
  - apply (wi_disj _ I).
  - intros k d u Hk Hu. rewrite Hoth; [by apply (wi_queued _ I k d)|]. intros ->. by apply (cur_not_queued s c k d I Hc Hk).
  - intros k d Hk. destruct (decide (k = this_cpu s)) as [->|Hne].
    + rewrite Hc in Hk. injection Hk as <-. exists th'. split; [apply lookup_insert_eq|done].
    + rewrite Hoth; [by apply (wi_cur _ I k d)|]. intros E. apply Hne.
      apply (wi_disj _ I k _ d c (cur_thread d)); [done..|by left|rewrite E; by left].
  - intros k d Hk. destruct (wi_idle _ I k d Hk) as (Hm & v & Hv & Hi). split; [done|].
    destruct (proj1 Hsame _ v Hv) as (v' & Hv' & Kv). exists v'. split; [done|]. by rewrite <- (keeps_idle v v').
  - intros u v Hu Hi. destruct (proj2 Hsame _ v Hu) as (v' & Hv' & Kv). apply (wi_flag _ I u v'); [done|].
    by rewrite (keeps_idle v' v).
  - apply (wi_zombie _ I).
  - intros q l u Hq. rewrite <- (same_threads_waits s s' u q Hsame). by apply (wi_wait _ I).
  - apply (wi_wait_nodup _ I).
  - apply (wi_timers _ I).
  - apply (wi_sem _ I).
  - apply (wi_sem_own _ I).
  - intros u q Hu. apply (wi_wait_dom _ I u). by rewrite (same_threads_waits s s' u q Hsame).
  - apply (wi_all _ I).
Qed.

(** The current thread stays runnable. *)
Definition goes_on (th : thread) : bool := bool_decide (state th = RUNNING ∨ state th = READY).

(** The queue the next thread comes from, and what a reschedule leaves. *)
Definition turn (c : cpu_struct) (th : thread) : list loc :=
  if goes_on th then run_queue_ c ++ [cur_thread c] else run_queue_ c.

Record rescheduled (c : cpu_struct) (next : loc) (rest : list loc) (s s' : sys) : Prop := {
  re_cpus : cpus s' = <[this_cpu s := set_cur next (set_rq rest c)]> (cpus s);
  re_threads : same_threads (threads s) (threads s');
  re_this : this_cpu s' = this_cpu s;
  re_ncpu : ncpu s' = ncpu s;
  re_wqs : wait_queues s' = wait_queues s;
  re_sems : semaphores s' = semaphores s;
  re_expires : expires s' = expires s;
}.

Lemma reschedule_run s c th :
  winv s → cpus s !! this_cpu s = Some c → threads s !! cur_thread c = Some th →
  goes_on th = true ∨ cur_thread c ≠ idle c →
  ∃ next rest s', turn c th = next :: rest ∧ reschedule_locked (this_cpu s) s = Some (tt, s') ∧
    sinv s' ∧ rescheduled c next rest s s'.
Proof.
  intros I Hc Hth Hor. set (th1 := if decide (state th = RUNNING) then set_state READY th else th).
  set (s1 := set_threads (<[cur_thread c := th1]> (threads s)) s).
  assert (keeps th th1) as K.
  { unfold th1. case_decide as Hd; [|apply keeps_refl]. repeat split. unfold is_blocked. simpl. by rewrite Hd. }
  assert (winv s1) as I1 by (by apply (winv_self s c th)).
  assert (threads s1 !! cur_thread c = Some th1) as Hth1 by apply lookup_insert_eq.
  assert (turn c th = next_queue c th1) as Hturn.
  { unfold turn, next_queue, th1, goes_on. destruct (decide (state th = RUNNING)) as [Hd|Hd].
    - rewrite bool_decide_true by auto. by rewrite decide_True.
    - destruct (decide (state th = READY)); [by rewrite bool_decide_true by auto|].
      rewrite bool_decide_false; [done|]. tauto. }
  destruct (schedule_run s1 c th1 I1 Hc Hth1) as (next & rest & thn & Hq & Hn & Hst & Hrun).
  { destruct Hor as [Hg|Hg]; [|by right]. left. unfold goes_on in Hg. apply bool_decide_eq_true in Hg.
    unfold th1. case_decide; [done|]. tauto. }
  exists next, rest, (switched c th1 next rest thn s1). split; [by rewrite Hturn|]. split; [|split].
  - unfold reschedule_locked. run with assert_here_run; [|done]. run with cpu_run; [|exact Hc].
    run with @look_run; [|exact Hth]. erewrite bind_run; [exact Hrun|]. unfold s1, th1. case_decide; [done|].
    unfold mret, ST_ret. rewrite insert_id by done. by destruct s.
  - apply sinv_switched; try done. destruct Hor as [Hg|Hg]; [|by right]. left.
    unfold goes_on in Hg. apply bool_decide_eq_true in Hg. unfold th1. case_decide; [done|]. tauto.
  - split; try done. apply (same_threads_trans _ (threads s1)); [by apply (same_threads_insert _ _ th)|].
    by apply switched_threads.
Qed.
