(* ===== verification/SchedOps.v ===== *)
(** * The scheduler's operations under its invariant

    Each operation, called as its callers call it, runs to its end without a
    failed assertion, keeps the invariant and loses no thread. *)

From S2P Require Import Prelude Types Links Scheduler SchedInvariant.

(** ** Where threads are *)

Definition runnable (s : sys) (t : loc) : Prop := ∃ k c, cpus s !! k = Some c ∧ t ∈ members c.
Definition waiting (s : sys) (t : loc) : Prop := ∃ q, waits_on s t q.
Definition placed (s : sys) (t : loc) : Prop := runnable s t ∨ waiting s t.

Lemma off_not_runnable s t : off_cpus s t ↔ ¬ runnable s t.
Proof.
  split.
  - intros H (k & c & Hk & Ht). by apply (H k c).
  - intros H k c Hk Ht. apply H. by exists k, c.
Qed.

(** The invariant together with a condition on the executing processor's
    current thread, its idle thread and the current thread's record; [sinv]
    is the invariant with the condition [normal]. *)
Definition held (P : loc → loc → thread → Prop) (s : sys) : Prop :=
  winv s ∧ ∀ c th, cpus s !! this_cpu s = Some c → threads s !! cur_thread c = Some th → P (cur_thread c) (idle c) th.

Definition normal (cur idl : loc) (th : thread) : Prop := state th = RUNNING ∨ (state th = READY ∧ cur = idl).

(** The condition while the current thread [t] exits. *)
Definition dying (t cur idl : loc) (th : thread) : Prop := cur = t ∧ state th = DYING ∧ cur ≠ idl.

Class Awake (P : loc → loc → thread → Prop) : Prop := awake cur idl th : P cur idl th → is_blocked th = false.

#[export] Instance normal_awake : Awake normal.
Proof. intros cur idl th H. unfold is_blocked. apply bool_decide_eq_false. destruct H as [->|(-> & _)]; by intros [|]. Qed.

#[export] Instance dying_awake t : Awake (dying t).
Proof. intros cur idl th (_ & H & _). unfold is_blocked. apply bool_decide_eq_false. rewrite H. by intros [|]. Qed.

(** The state of a waiting thread. *)
Lemma waiting_off P `{!Awake P} s t :
  held P s → waiting s t → off_cpus s t.
Proof.
  intros (I & C) (q & v & Hv & Hb & _) k c Hk Ht. apply elem_of_cons in Ht as [->|Ht].
  - destruct (wi_cur _ I k c Hk) as (w & Hw & Hs). rewrite Hv in Hw. injection Hw as <-.
    assert (is_blocked v = false); [|congruence]. destruct (decide (k = this_cpu s)) as [->|Hne].
    + by apply (awake _ _ _ (C c v Hk Hv)).
    + by apply (normal_awake (cur_thread c) (idle c)), Hs.
  - destruct (wi_queued _ I k c t Hk Ht) as (w & Hw & E). rewrite Hv in Hw. injection Hw as <-.
    unfold is_blocked in Hb. rewrite E in Hb. by apply bool_decide_eq_true in Hb as [|].
Qed.

Lemma runnable_cpu s k c t u c' :
  cpus s !! k = Some c → (∀ x, x ∈ members c' ↔ x ∈ members c ∨ x = t) →
  (∃ j d, <[k := c']> (cpus s) !! j = Some d ∧ u ∈ members d) ↔ runnable s u ∨ u = t.
Proof.
  intros Hk Hm. split.
  - intros (j & d & Hj & Hu). upd Hj.
    + apply Hm in Hu as [Hu|Hu]; [|by right]. left. by exists k, c.
    + left. by exists j, d.
  - intros [(j & d & Hj & Hu)| ->].
    + destruct (decide (k = j)) as [<-|Hne].
      * exists k, c'. rewrite lookup_insert_eq. split; [done|]. apply Hm. left. congruence.
      * exists j, d. by rewrite lookup_insert_ne.
    + exists k, c'. rewrite lookup_insert_eq. split; [done|]. apply Hm. by right.
Qed.

(** Changing a processor without changing the threads it runs. *)
Lemma runnable_same s s' c c' u :
  cpus s !! this_cpu s = Some c → cpus s' = <[this_cpu s := c']> (cpus s) → members c' = members c → runnable s' u ↔ runnable s u.
Proof.
  intros Hc E Em. unfold runnable. rewrite E. split.
  - intros (k & d & Hk & Hu). upd Hk; [exists (this_cpu s), c; by rewrite <- Em|by exists k, d].
  - intros (k & d & Hk & Hu). destruct (decide (this_cpu s = k)) as [<-|Hne].
    + exists (this_cpu s), c'. rewrite lookup_insert_eq, Em. split; [done|]. congruence.
    + exists k, d. by rewrite lookup_insert_ne.
Qed.

Lemma placed_queued s t th c u :
  cpus s !! this_cpu s = Some c → threads s !! t = Some th → ¬ waiting s t →
  placed (queued t th c s) u ↔ placed s u ∨ u = t.
Proof.
  intros Hc Ht Hw. assert (∀ q, ¬ waits_on s t q) as Hw' by (intros q Hq; apply Hw; by exists q).
  assert (runnable (queued t th c s) u ↔ runnable s u ∨ u = t) as Hr.
  { apply (runnable_cpu s _ c t); [done|]. intros x. rewrite members_queued. apply elem_of_snoc. }
  assert (waiting (queued t th c s) u ↔ waiting s u) as Hq.
  { unfold waiting. by setoid_rewrite queued_waits. }
  unfold placed. rewrite Hr, Hq. tauto.
Qed.

Lemma waiting_dequeued s q l t th err u :
  winv s → waiting (dequeued q t l th err s) u ↔ waiting s u ∧ u ≠ t.
Proof.
  intros I. unfold waiting. setoid_rewrite dequeued_waits; [|done..]. split.
  - intros (r & Hr & Hne). eauto.
  - intros ((r & Hr) & Hne). eauto.
Qed.

(** Where threads are after a reschedule. *)
Lemma runnable_rescheduled s c th next rest s' u :
  winv s → cpus s !! this_cpu s = Some c → turn c th = next :: rest → rescheduled c next rest s s' →
  runnable s' u ↔ runnable s u ∧ (u = cur_thread c → goes_on th = true).
Proof.
  intros I Hc Ht R. unfold runnable at 1. rewrite (re_cpus _ _ _ _ _ R).
  pose proof (wi_nodup _ I _ _ Hc) as Hnd. apply NoDup_cons in Hnd as (Hnd & _).
  assert (∀ x, x ∈ next :: rest ↔ x ∈ members c ∧ (x = cur_thread c → goes_on th = true)) as Hm.
  { intros x. rewrite <- Ht. unfold turn, members. rewrite elem_of_cons. destruct (goes_on th).
    - rewrite elem_of_snoc. naive_solver.
    - split; [|naive_solver]. intros Hx. split; [by right|]. by intros ->. }
  split.
  - intros (k & d & Hk & Hu). upd Hk.
    + change (members _) with (next :: rest) in Hu. apply Hm in Hu as (Hu & Hg). split; [by exists (this_cpu s), c|done].
    + split; [by exists k, d|]. intros ->. exfalso. match goal with H : this_cpu s ≠ k |- _ => apply H end.
      apply (wi_disj _ I _ k c d (cur_thread c)); [done..|by left|done].
  - intros ((k & d & Hk & Hu) & Hg). destruct (decide (this_cpu s = k)) as [<-|Hne].
    + eexists _, _. rewrite lookup_insert_eq. split; [done|]. change (members _) with (next :: rest). apply Hm.
      split; [congruence|done].
    + exists k, d. by rewrite lookup_insert_ne.
Qed.

Lemma waiting_rescheduled c next rest s s' u : rescheduled c next rest s s' → waiting s' u ↔ waiting s u.
Proof.
  intros R. unfold waiting. setoid_rewrite <- (same_threads_waits s s' u); [done|apply (re_threads _ _ _ _ _ R)].
Qed.

(** ** Steps *)

(** The thread may run on the executing processor. *)
Definition local (s : sys) (t : loc) : Prop :=
  ∃ th, threads s !! t = Some th ∧ (affinity_cpu th = None ∨ affinity_cpu th = Some (this_cpu s)).

Lemma held_here P s :
  held P s → ∃ c th, cpus s !! this_cpu s = Some c ∧ threads s !! cur_thread c = Some th ∧ P (cur_thread c) (idle c) th.
Proof.
  intros (I & C). destruct (wi_here _ I) as ((c & Hc) & _). destruct (wi_cur _ I _ c Hc) as (th & Hth & _).
  exists c, th. split; [done|]. split; [done|]. by apply C.
Qed.

Lemma cur_goes_on cur idl th : normal cur idl th → goes_on th = true.
Proof. intros H. apply bool_decide_eq_true. destruct H as [?|(? & _)]; auto. Qed.

(** What operations keep: the executing processor, the number of processors
    and each thread's affinity. *)
Definition framed (s s' : sys) : Prop :=
  this_cpu s' = this_cpu s ∧ ncpu s' = ncpu s ∧
  ∀ t, affinity_cpu <$> threads s' !! t = affinity_cpu <$> threads s !! t.

Lemma framed_refl s : framed s s.
Proof. done. Qed.

Lemma framed_trans s s' s'' : framed s s' → framed s' s'' → framed s s''.
Proof. intros (H1 & H2 & H3) (G1 & G2 & G3). repeat split; [congruence..|]. intros t. by rewrite G3, H3. Qed.

Lemma framed_local s s' t : framed s s' → local s t → local s' t.
Proof.
  intros (H1 & _ & H3) (th & Hth & Ha). specialize (H3 t). rewrite Hth in H3.
  destruct (threads s' !! t) as [v|] eqn:E; [|done]. simpl in H3. injection H3 as H3.
  exists v. by rewrite H1, H3.
Qed.

Lemma framed_insert s t th th' :
  threads s !! t = Some th → affinity_cpu th' = affinity_cpu th →
  ∀ u, affinity_cpu <$> <[t := th']> (threads s) !! u = affinity_cpu <$> threads s !! u.
Proof.
  intros Ht Ha u. destruct (decide (t = u)) as [<-|Hne].
  - rewrite lookup_insert_eq, Ht. simpl. by rewrite Ha.
  - by rewrite lookup_insert_ne.
Qed.

Lemma framed_rescheduled c next rest s s' : rescheduled c next rest s s' → framed s s'.
Proof.
  intros R. split; [apply (re_this _ _ _ _ _ R)|]. split; [apply (re_ncpu _ _ _ _ _ R)|].
  intros t. destruct (re_threads _ _ _ _ _ R) as (F & B). destruct (threads s !! t) as [v|] eqn:E.
  - destruct (F t v E) as (v' & -> & (_ & _ & _ & H & _)). simpl. by rewrite H.
  - destruct (threads s' !! t) as [v'|] eqn:E'; [|done]. destruct (B t v' E') as (v & Hv & _). congruence.
Qed.

(** A completed operation: invariant, frame, and where threads are. *)
Definition completes (P : loc → loc → thread → Prop) {A} (m : SY A) (s : sys) (Q : loc → Prop) : Prop :=
  ∃ x s', m s = Some (x, s') ∧ held P s' ∧ framed s s' ∧ ∀ u, placed s' u ↔ Q u.

Lemma reschedule_ok s : sinv s → completes normal current.reschedule_locked s (placed s).
Proof.
  intros (I & C). destruct (held_here normal s (conj I C)) as (c & th & Hc & Hth & Hcs).
  destruct (reschedule_run s c th I Hc Hth) as (next & rest & s' & Ht & Hr & Hs & R); [left; by eapply cur_goes_on|].
  exists tt, s'. split; [exact Hr|]. split; [done|]. split; [by eapply framed_rescheduled|]. intros u.
  unfold placed. rewrite (runnable_rescheduled s c th next rest s' u I Hc Ht R), (waiting_rescheduled c next rest s s' u R).
  pose proof (cur_goes_on _ _ th Hcs). tauto.
Qed.

Section steps.
Context (P : loc → loc → thread → Prop) `{!Awake P}.

Lemma held_queued s t th c :
  held P s → cpus s !! this_cpu s = Some c → threads s !! t = Some th → ¬ placed s t → held P (queued t th c s).
Proof.
  intros (I & C) Hc Ht Hp.
  assert (off_cpus s t) as Hoff by (apply off_not_runnable; unfold placed in Hp; tauto).
  assert (∀ q, ¬ waits_on s t q) as Hw by (intros q Hq; apply Hp; right; by exists q).
  split; [by apply winv_queued|]. intros d v Hd Hv. change (this_cpu (queued t th c s)) with (this_cpu s) in Hd.
  cbn [cpus queued set_cpus] in Hd. rewrite lookup_insert_eq in Hd. injection Hd as <-.
  cbn [threads queued set_cpus set_threads cur_thread set_rq] in Hv. rewrite lookup_insert_ne in Hv.
  - by apply (C c).
  - intros ->. apply (Hoff _ _ Hc). by left.
Qed.

Lemma unblock_ok s t :
  held P s → local s t → ¬ placed s t → completes P (current.unblock t) s (λ u, placed s u ∨ u = t).
Proof.
  intros S (th & Hth & Ha) Hp. destruct (held_here P s S) as (c & th0 & Hc & Hth0 & Hcs). destruct S as (I & C).
  destruct (wi_here _ I) as (_ & Hn).
  eexists _, (queued t th c s). split.
  - apply (unblock_run s c t th); try done. intros k d Hk Hin. apply Hp. left. exists k, d. split; [done|by right].
  - split; [by apply held_queued|]. split.
    + repeat split. by apply (framed_insert s t th).
    + intros u. apply placed_queued; [done..|]. unfold placed in Hp. tauto.
Qed.

Lemma held_dequeued s q l t th err :
  held P s → wait_queues s !! q = Some l → t ∈ l → threads s !! t = Some th → held P (dequeued q t l th err s).
Proof.
  intros S Hq Ht Hth. pose proof S as (I & C).
  assert (off_cpus s t) as Hoff by (apply (waiting_off P); [done|]; exists q; by apply (wi_wait _ I q l)).
  split; [by apply winv_dequeued|]. intros d v Hd Hv. change (cpus (dequeued q t l th err s)) with (cpus s) in Hd.
  change (this_cpu (dequeued q t l th err s)) with (this_cpu s) in Hd.
  cbn [threads dequeued set_threads] in Hv. rewrite lookup_insert_ne in Hv; [by apply (C d)|].
  intros ->. apply (Hoff _ _ Hd). by left.
Qed.

Lemma dequeue_ok s q l t code :
  held P s → wait_queues s !! q = Some l → t ∈ l →
  ∃ th s', threads s !! t = Some th ∧ wq_dequeue q t code s = Some (tt, s') ∧ s' = dequeued q t l th code s ∧
    held P s' ∧ framed s s' ∧ (∀ u, placed s' u ↔ placed s u ∧ u ≠ t) ∧ ¬ placed s' t.
Proof.
  intros S Hq Ht. pose proof S as (I & C). destruct (proj1 (wi_wait _ I q l t Hq) Ht) as (th & Hth & Hb & Ho).
  assert (waiting s t) as Hw by (exists q; by exists th).
  pose proof (waiting_off P s t S Hw) as Hoff. apply off_not_runnable in Hoff.
  exists th, (dequeued q t l th code s). split; [done|].
  assert (∀ u, placed (dequeued q t l th code s) u ↔ placed s u ∧ u ≠ t) as Hp.
  { intros u. unfold placed. change (runnable (dequeued q t l th code s) u) with (runnable s u).
    rewrite waiting_dequeued by done. split; [|tauto]. intros [H|H]; [|tauto]. split; [tauto|]. by intros ->. }
  split; [by apply wq_dequeue_run|]. split; [done|]. split; [by apply held_dequeued|]. split; [|split; [done|]].
  - repeat split. by apply (framed_insert s t th).
  - rewrite Hp. tauto.
Qed.

(** Taking a thread out of its wait queue and making it ready. *)
Lemma wake_ok s q l t code :
  held P s → wait_queues s !! q = Some l → t ∈ l → local s t →
  completes P (wq_dequeue q t code;; current.unblock t) s (placed s).
Proof.
  intros S Hq Ht Hl. pose proof S as (I & _).
  destruct (dequeue_ok s q l t code S Hq Ht) as (th & s1 & Hth & Hd & _ & S1 & F1 & P1 & N1).
  destruct (unblock_ok s1 t S1) as (b & s2 & Hu & S2 & F2 & P2); [by apply (framed_local s)|done|].
  exists b, s2. split; [by run with Hd|]. split; [done|]. split; [by apply (framed_trans s s1)|].
  intros u. rewrite P2, P1. assert (placed s t) as Hpt by (right; exists q; by apply (wi_wait _ I q l)).
  destruct (decide (u = t)) as [->|]; tauto.
Qed.

(** A following step that depends on the first. *)
Lemma completes_bind {A B} (m : SY A) (f : A → SY B) s Q R :
  completes P m s Q → (∀ x s', m s = Some (x, s') → held P s' → framed s s' → (∀ u, placed s' u ↔ Q u) → completes P (f x) s' R) →
  completes P (x ← m; f x) s R.
Proof.
  intros (x & s1 & H1 & S1 & F1 & P1) H. destruct (H x s1 H1 S1 F1 P1) as (y & s2 & H2 & S2 & F2 & P2).
  exists y, s2. split; [by run with H1|]. split; [done|]. split; [by apply (framed_trans s s1)|done].
Qed.

Lemma completes_ret {A} (x : A) s Q : held P s → (∀ u, placed s u ↔ Q u) → completes P (mret x) s Q.
Proof. intros S HP. exists x, s. split; [done|]. split; [done|]. split; [apply framed_refl|done]. Qed.

Lemma completes_iff {A} (m : SY A) s Q R : completes P m s Q → (∀ u, Q u ↔ R u) → completes P m s R.
Proof.
  intros (x & s' & H1 & H2 & H3 & H4) H. exists x, s'. split; [done|]. split; [done|]. split; [done|].
  intros u. by rewrite H4.
Qed.

(** A thread that is nowhere may change its state. *)
Lemma held_loose s t th th' :
  held P s → threads s !! t = Some th → ¬ placed s t → flags_ th' = flags_ th → is_blocked th' = false →
  held P (set_threads (<[t := th']> (threads s)) s) ∧
  (∀ u, placed (set_threads (<[t := th']> (threads s)) s) u ↔ placed s u).
Proof.
  intros (I & C) Ht Hp Hf Hb. set (s' := set_threads _ s).
  assert (off_cpus s t) as Hoff by (apply off_not_runnable; unfold placed in Hp; tauto).
  assert (∀ q, ¬ waits_on s t q) as Hw by (intros q Hq; apply Hp; right; by exists q).
  assert (∀ u, u ≠ t → threads s' !! u = threads s !! u) as Hoth.
  { intros u Hu. cbn [threads s' set_threads]. by rewrite lookup_insert_ne. }
  assert (∀ u q, waits_on s' u q ↔ waits_on s u q) as Hwait.
  { intros u q. destruct (decide (u = t)) as [->|Hu]; [|unfold waits_on; by rewrite Hoth]. split.
    - intros (v & Hv & H1 & _). cbn [threads s' set_threads] in Hv. rewrite lookup_insert_eq in Hv. injection Hv as <-. congruence.
    - intros H. by apply Hw in H. }
  assert (∀ k c u, cpus s !! k = Some c → u ∈ members c → threads s' !! u = threads s !! u) as Hmem.
  { intros k c u Hk Hu. apply Hoth. intros ->. by apply (Hoff k c). }
  split; [split|].
  - split; change (cpus s') with (cpus s); change (this_cpu s') with (this_cpu s); change (wait_queues s') with (wait_queues s).
    + apply (wi_here _ I).
    + apply (wi_nodup _ I).
    + apply (wi_disj _ I).
    + intros k c u Hk Hu. rewrite (Hmem k c) by (done || by right). by apply (wi_queued _ I k c).
    + intros k c Hk. rewrite (Hmem k c) by (done || by left). by apply (wi_cur _ I k c).
    + intros k c Hk. destruct (wi_idle _ I k c Hk) as (Hm & Hv). split; [done|]. by rewrite (Hmem k c).
    + intros u v Hu Hi. destruct (decide (u = t)) as [->|Hne].
      * cbn [threads s' set_threads] in Hu. rewrite lookup_insert_eq in Hu. injection Hu as <-.
        apply (wi_flag _ I t th Ht). unfold is_idle in *. by rewrite <- Hf.
      * rewrite Hoth in Hu by done. by apply (wi_flag _ I u v).
    + apply (wi_zombie _ I).
    + intros q l u Hq. rewrite Hwait. by apply (wi_wait _ I).
    + apply (wi_wait_nodup _ I).
    + apply (wi_timers _ I).
    + apply (wi_sem _ I).
    + apply (wi_sem_own _ I).
    + intros u q Hu. apply (wi_wait_dom _ I u). by rewrite <- (Hwait u q).
    + apply (wi_all _ I).
  - intros c v Hc Hv. change (cpus s') with (cpus s) in Hc. change (this_cpu s') with (this_cpu s) in Hc.
    rewrite (Hmem _ c) in Hv by (done || by left). by apply (C c).
  - intros u. unfold placed. change (runnable s' u) with (runnable s u). unfold waiting. by setoid_rewrite Hwait.
Qed.

Lemma unblock_all_ok s ts :
  held P s → NoDup ts → (∀ t, t ∈ ts → local s t ∧ ¬ placed s t) →
  completes P (current.unblock_all ts) s (λ u, placed s u ∨ u ∈ ts).
Proof.
  revert s. induction ts as [|t ts IH]; intros s S Hnd Hts; cbn [current.unblock_all].
  { apply completes_ret; [done|]. intros u. rewrite elem_of_nil. tauto. }
  apply NoDup_cons in Hnd as (Hnt & Hnd). destruct (Hts t) as ((th & Hth & Ha) & Hp); [by left|].
  destruct (held_loose s t th (set_state READY th) S Hth Hp) as (S1 & P1); [done..|].
  set (s1 := set_threads _ s) in *.
  assert (framed s s1) as F1 by (repeat split; by apply (framed_insert s t th)).
  assert (is_idle th = false) as Hid.
  { destruct (is_idle th) eqn:E; [|done]. destruct S as (I & _). destruct (wi_flag _ I t th Hth E) as (k & c & Hk & <-).
    destruct Hp. left. exists k, c. split; [done|]. apply (wi_idle _ I k c Hk). }
  destruct (unblock_ok s1 t S1) as (b & s2 & Hu & S2 & F2 & P2).
  { exists (set_state READY th). split; [apply lookup_insert_eq|done]. }
  { by rewrite P1. }
  destruct (IH s2 S2 Hnd) as (b' & s3 & Hr & S3 & F3 & P3).
  { intros x Hx. destruct (Hts x) as (Hl & Hn); [by right|]. split.
    - apply (framed_local s1); [done|]. by apply (framed_local s).
    - rewrite P2, P1. intros [H|H]; [done|]. by subst x. }
  exists b', s3. split; [|split; [done|split]].
  - run with @look_run; [|exact Hth]. rewrite Hid. run with @kassert_true; [|done].
    erewrite bind_run; [|reflexivity]. by run with Hu.
  - apply (framed_trans s s1); [done|]. by apply (framed_trans s1 s2).
  - intros u. rewrite P3, P2, P1, elem_of_cons. tauto.
Qed.

Lemma filter_head (t : loc) l : (t ∉ l) → filter (λ x, x ≠ t) (t :: l) = l.
Proof. intros H. rewrite filter_cons_False by tauto. by apply filter_absent. Qed.

Lemma drain_ok s q l code fuel :
  held P s → wait_queues s !! q = Some l → (length l <= fuel)%nat →
  ∃ s', drain fuel q code s = Some (l, s') ∧ held P s' ∧ framed s s' ∧ ∀ u, placed s' u ↔ placed s u ∧ u ∉ l.
Proof.
  revert s fuel. induction l as [|t l IH]; intros s fuel S Hq Hlen.
  - exists s. split; [|split; [done|split; [apply framed_refl|]]].
    + assert (peek q s = Some (None, s)) as Hp by (unfold peek; run with @look_run; [|exact Hq]; done).
      destruct fuel; cbn [drain]; by run with Hp.
    + intros u. rewrite elem_of_nil. tauto.
  - destruct fuel as [|fuel]; [simpl in Hlen; lia|]. pose proof S as (I & _).
    destruct (dequeue_ok s q (t :: l) t code S Hq) as (th & s1 & Hth & Hd & E1 & S1 & F1 & P1 & _); [by left|].
    pose proof (wi_wait_nodup _ I q _ Hq) as Hnd. apply NoDup_cons in Hnd as (Hnt & _).
    assert (wait_queues s1 !! q = Some l) as Hq1.
    { rewrite E1. cbn [wait_queues dequeued set_threads set_wqs]. by rewrite lookup_insert_eq, filter_head. }
    destruct (IH s1 fuel S1 Hq1) as (s2 & Hr & S2 & F2 & P2); [simpl in Hlen; lia|].
    exists s2. split; [|split; [done|split; [by apply (framed_trans s s1)|]]].
    + cbn [drain]. unfold peek. erewrite bind_run; [|run with @look_run; [reflexivity|exact Hq]]. cbn [head].
      run with Hd. by run with Hr.
    + intros u. rewrite P2, P1, not_elem_of_cons. tauto.
Qed.

Lemma completes_run {A B} (m : SY A) (f : A → SY B) s x Q : m s = Some (x, s) → completes P (f x) s Q → completes P (x ← m; f x) s Q.
Proof. intros H (y & s' & Hf & HS). exists y, s'. split; [by run with H|done]. Qed.

Lemma completes_step {A B} (m : SY A) (f : A → SY B) s x s' Q :
  m s = Some (x, s') → framed s s' → completes P (f x) s' Q → completes P (x ← m; f x) s Q.
Proof.
  intros H F (y & s2 & Hf & S2 & F2 & P2). exists y, s2. split; [by run with H|]. split; [done|].
  split; [by apply (framed_trans s s')|done].
Qed.

(** All waiting threads of a queue become ready. *)
Lemma wake_list_ok s q l code :
  held P s → wait_queues s !! q = Some l → (∀ t, t ∈ l → local s t) →
  completes P (list ← drain (length l) q code; current.unblock_all list) s (placed s).
Proof.
  intros S Hq Hl. pose proof S as (I & _).
  destruct (drain_ok s q l code (length l) S Hq) as (s1 & Hd & S1 & F1 & P1); [done|].
  destruct (unblock_all_ok s1 l S1) as (b & s2 & Hu & S2 & F2 & P2).
  { by apply (wi_wait_nodup _ I q). }
  { intros t Ht. split; [by apply (framed_local s), Hl|]. rewrite P1. tauto. }
  exists b, s2. split; [by run with Hd|]. split; [done|]. split; [by apply (framed_trans s s1)|].
  intros u. rewrite P2, P1. destruct (decide (u ∈ l)) as [Hin|]; [|tauto].
  assert (placed s u) by (right; exists q; by apply (wi_wait _ I q l)). tauto.
Qed.

Lemma wake_all_quiet_ok s q l code :
  held P s → wait_queues s !! q = Some l → (∀ t, t ∈ l → local s t) → completes P (wake_all q false code) s (placed s).
Proof.
  intros S Hq Hl. unfold wake_all. apply (completes_run _ _ s l); [by apply look_run|].
  destruct (wake_list_ok s q l code S Hq Hl) as (b & s2 & Hu & S2 & F2 & P2). apply bind_inv in Hu as (ts & s1 & Hd & Hu).
  destruct l; [by apply completes_ret|]. exists tt, s2. split; [run with Hd; by run with Hu|done].
Qed.

End steps.

(** A reschedule that may follow. *)
Lemma maybe_reschedule (b : bool) s (Q : loc → Prop) :
  sinv s → (∀ u, placed s u ↔ Q u) → completes normal (if b then current.reschedule_locked else mret tt) s Q.
Proof.
  intros S HP. destruct b; [|by apply completes_ret]. by eapply completes_iff; [apply reschedule_ok|].
Qed.

Lemma wake_one_ok s q l r code :
  sinv s → wait_queues s !! q = Some l → (∀ t, head l = Some t → local s t) → completes normal (wake_one q r code) s (placed s).
Proof.
  intros S Hq Hl. unfold wake_one, peek. apply (completes_run normal _ _ s (head l)); [run with @look_run; [|exact Hq]; done|].
  destruct l as [|t l]; [by apply completes_ret|]. cbn [head].
  destruct (wake_ok normal s q (t :: l) t code S Hq) as (b & s1 & Hw & S1 & F1 & P1); [by left|by apply Hl|].
  apply bind_inv in Hw as (x & s0 & Hd & Hu).
  assert (completes normal (if r && b then current.reschedule_locked;; mret true else mret false) s1 (placed s)) as (y & s2 & Hr & S2 & F2 & P2).
  { destruct (r && b); [|by apply completes_ret]. eapply completes_bind; [by apply reschedule_ok|].
    intros [] s2 _ S2 _ P2. apply completes_ret; [done|]. intros u. by rewrite P2. }
  exists y, s2. split; [|split; [done|split; [by apply (framed_trans s s1)|done]]].
  run with Hd. by run with Hu.
Qed.

Lemma wake_all_ok s q l r code :
  sinv s → wait_queues s !! q = Some l → (∀ t, t ∈ l → local s t) → completes normal (wake_all q r code) s (placed s).
Proof.
  intros S Hq Hl. unfold wake_all. apply (completes_run normal _ _ s l); [by apply look_run|].
  destruct (wake_list_ok normal s q l code S Hq Hl) as (b & s2 & Hu & S2 & F2 & P2). apply bind_inv in Hu as (ts & s1 & Hd & Hu).
  destruct l; [by apply completes_ret|].
  destruct (maybe_reschedule (r && b) s2 (placed s) S2 P2) as (y & s3 & Hr & S3 & F3 & P3).
  exists y, s3. split; [run with Hd; by run with Hu|]. split; [done|]. split; [by apply (framed_trans s s2)|done].
Qed.

Lemma unblock_thread_ok s t code :
  sinv s → waiting s t → local s t → completes normal (unblock_thread t code) s (placed s).
Proof.
  intros S (q & Hwait) Hl. pose proof S as (I & _). destruct (wi_wait_dom _ I t q Hwait) as (l & Hq).
  assert (t ∈ l) as Ht by (by apply (wi_wait _ I q)). destruct Hwait as (th & Hth & Hb & Ho).
  unfold unblock_thread. apply (completes_run normal _ _ s th); [by apply look_run|].
  destruct (decide _) as [_|Hd]; [by apply completes_ret|].
  apply (completes_run normal _ _ s q); [by apply look_run|]. apply (completes_run normal _ _ s true).
  { unfold holding. apply look_run. by rewrite (wait_linked_true t q l). }
  apply (completes_run normal _ _ s tt); [done|].
  destruct (wake_ok normal s q l t code S Hq Ht Hl) as (b & s1 & Hw & S1 & F1 & P1). apply bind_inv in Hw as (x & s0 & Hd' & Hu).
  destruct (maybe_reschedule b s1 (placed s) S1 P1) as (y & s2 & Hr & S2 & F2 & P2).
  exists ERROR_SUCCESS, s2. split; [run with Hd'; run with Hu; by run with Hr|].
  split; [done|]. split; [by apply (framed_trans s s1)|done].
Qed.

Lemma winv_expires s m :
  winv s → (∀ x, is_Some (expires s !! x) → is_Some (m !! x)) → winv (set_expires m s).
Proof.
  intros I Hm. destruct (wi_here _ I) as ((c & Hc) & _).
  replace (set_expires m s) with (retimed c (timer_list c) m s).
  - apply winv_retimed; [done..| |done]. intros x Hx. by apply Hm, (wi_timers _ I _ c Hc).
  - unfold retimed, set_cpus, set_expires. simpl. rewrite insert_id; [done|]. rewrite Hc. by destruct c.
Qed.

(** Adding the deadline's timer, if there is one. *)
Lemma deadline_run s c ddl now timer :
  winv s → cpus s !! this_cpu s = Some c → (timer ∉ timer_list c) →
  ∃ s' d, (match ddl with
       | None => mret tt
       | Some when =>
           change (λ s, set_expires (<[timer := when - now]> (expires s)) s);; h ← here; add_timer h timer
       end) s = Some (tt, s') ∧ winv s' ∧ threads s' = threads s ∧ this_cpu s' = this_cpu s ∧ ncpu s' = ncpu s ∧
      wait_queues s' = wait_queues s ∧ semaphores s' = semaphores s ∧
      cpus s' = <[this_cpu s := d]> (cpus s) ∧ members d = members c ∧ idle d = idle c ∧ cur_thread d = cur_thread c.
Proof.
  intros I Hc Hn. destruct ddl as [when|].
  - set (s1 := set_expires (<[timer := when - now]> (expires s)) s).
    assert (winv s1) as I1 by (apply winv_expires; [done|]; intros x Hx; apply lookup_insert_is_Some'; by right).
    destruct (add_timer_run s1 c timer I1 Hc) as (tl & m & Hr & I2); [cbn [expires s1 set_expires]; rewrite lookup_insert_eq; eauto|done|].
    exists (retimed c tl m s1), (set_timers tl c). split; [|split; [exact I2|by repeat split]].
    erewrite bind_run; [|reflexivity]. fold s1. run with @look_run; [|done]. exact Hr.
  - exists s, c. split; [done|]. split; [done|]. repeat split. by rewrite insert_id.
Qed.

Definition not_semaphore (s : sys) (q : loc) : Prop :=
  ∀ m sm, semaphores s !! m = Some sm → wait_queue_ sm = q → count_ sm = 0.

(** The current thread blocks and another one runs. *)
Lemma block_switch s c th q l th' ddl now timer :
  sinv s → cpus s !! this_cpu s = Some c → threads s !! cur_thread c = Some th → cur_thread c ≠ idle c →
  wait_queues s !! q = Some l → not_semaphore s q → (timer ∉ timer_list c) → is_blocked th = false →
  is_blocked th' = true → blocking_on_ th' = Some q → flags_ th' = flags_ th → affinity_cpu th' = affinity_cpu th →
  ∃ s2, (put_wq q (l ++ [cur_thread c]);; put_thr (cur_thread c) th';;
    (match ddl with
     | None => mret tt
     | Some when =>
         change (λ s, set_expires (<[timer := when - now]> (expires s)) s);; h ← here; add_timer h timer
     end);; current.block_locked) s = Some (tt, s2) ∧ sinv s2 ∧ framed s s2 ∧ (∀ u, placed s2 u ↔ placed s u) ∧
    wait_queues s2 = <[q := l ++ [cur_thread c]]> (wait_queues s).
Proof.
  intros S Hc Hth Hni Hq Hsem Htm Hnb Hb Ho Hfl Haff. pose proof S as (I & _).
  pose proof (winv_blocked s q l c th th' I Hc Hth Hnb Hq Hsem Hb Ho Hfl) as I1. set (s0 := blocked q l (cur_thread c) th' s) in *.
  destruct (deadline_run s0 c ddl now timer I1 Hc Htm) as (s1 & c1 & Hr & I2 & Et & Eth & En & Ew & Es & Ec & Em & Ei & Ecur).
  assert (cpus s1 !! this_cpu s1 = Some c1) as Hc1 by (rewrite Eth, Ec; apply lookup_insert_eq).
  assert (threads s1 !! cur_thread c1 = Some th') as Hth1 by (rewrite Et, Ecur; apply lookup_insert_eq).
  assert (goes_on th' = false) as Hg.
  { unfold goes_on, is_blocked in *. apply bool_decide_eq_true in Hb. apply bool_decide_eq_false.
    destruct Hb as [->| ->]; by intros [|]. }
  destruct (reschedule_run s1 c1 th' I2 Hc1 Hth1) as (next & rest & s2 & Ht & Hrs & S2 & R); [right; by rewrite Ei, Ecur|].
  exists s2. split; [|split; [done|split; [|split]]].
  - do 2 (erewrite bind_run; [|reflexivity]). run with Hr. exact Hrs.
  - apply (framed_trans s s1); [|by apply (framed_rescheduled c1 next rest)]. repeat split; [done..|].
    intros t. rewrite Et. by apply (framed_insert s _ th).
  - intros u. unfold placed. rewrite (runnable_rescheduled s1 c1 th' next rest s2 u I2 Hc1 Ht R).
    rewrite (waiting_rescheduled c1 next rest s1 s2 u R), Hg, Ecur.
    assert (waiting s1 u ↔ waiting s u ∨ u = cur_thread c) as ->.
    { unfold waiting. assert (∀ r, waits_on s1 u r ↔ waits_on s u r ∨ (u = cur_thread c ∧ r = q)) as Hw.
      { intros r. unfold waits_on at 1. rewrite Et. apply (blocked_waits s q l); [done..|].
        intros r' (v & Hv & H1 & _). rewrite Hth in Hv. injection Hv as <-. congruence. }
      setoid_rewrite Hw. naive_solver. }
    assert (runnable s1 u ↔ runnable s u) as -> by (apply (runnable_same s s1 c c1); done).
    assert (u = cur_thread c → runnable s u) as Hrun by (intros ->; exists (this_cpu s), c; split; [done|by left]).
    destruct (decide (u = cur_thread c)); tauto.
  - rewrite (re_wqs _ _ _ _ _ R), Ew. done.
Qed.

(** [block_etc] when neither the deadline nor a signal makes it return. *)
Lemma block_etc_blocks s c th q l ddl now timer mask reason intr :
  sinv s → cpus s !! this_cpu s = Some c → threads s !! cur_thread c = Some th → cur_thread c ≠ idle c →
  wait_queues s !! q = Some l → not_semaphore s q → (timer ∉ timer_list c) →
  match ddl with Some when => when <? now | None => false end = false →
  (∀ n, intr && negb (Z.land (signals_ th) (Z.lxor mask 0xFFFFFFFF) =? 0) && negb (Z.land (signals_ th) n =? 0) = true →
     n ≠ SIGNAL_KILLED ∧ n ≠ SIGNAL_SUSPEND) →
  ∃ s2, block_etc q ddl now timer mask reason intr s = Some (None, s2) ∧ sinv s2 ∧ framed s s2 ∧
    (∀ u, placed s2 u ↔ placed s u) ∧ wait_queues s2 = <[q := l ++ [cur_thread c]]> (wait_queues s).
Proof.
  intros S Hc Hth Hni Hq Hsem Htm Hddl Hsig. pose proof S as (I & C).
  destruct (C c th Hc Hth) as [Hrun|(_ & ?)]; [|done].
  set (th' := set_blocking (Some q) ERROR_SUCCESS (set_state (match reason with Normal => BLOCKED | Reader => BLOCKED_READ_LOCK end) (set_interruptible intr th))).
  destruct (block_switch s c th q l th' ddl now timer) as (s2 & Hr & S2 & F2 & P2 & W2); try done.
  { unfold is_blocked. by rewrite Hrun. }
  { by destruct reason. }
  exists s2. split; [|done]. unfold block_etc. run with cpu_run; [|exact Hc]. cbv zeta.
  run with @look_run; [|exact Hth]. run with @kassert_true; [|by apply bool_decide_eq_true_2]. rewrite Hddl.
  set (pending := intr && _) in *.
  destruct (pending && negb (Z.land (signals_ th) SIGNAL_KILLED =? 0)) eqn:E1; [by destruct (Hsig _ E1)|].
  destruct (pending && negb (Z.land (signals_ th) SIGNAL_SUSPEND =? 0)) eqn:E2; [by destruct (Hsig _ E2)|].
  erewrite bind_run; [|apply look_run; reflexivity]. rewrite wait_linked_false.
  - run with @kassert_true; [|done]. run with @look_run; [|exact Hq]. fold th'.
    apply bind_inv in Hr as (x0 & t0 & H0 & Hr). apply bind_inv in Hr as (x1 & t1 & H1 & Hr). apply bind_inv in Hr as (x2 & t2 & H2 & Hr).
    run with H0. run with H1. run with H2. by run with Hr.
  - intros r l' Hr' Hin. apply (wi_wait _ I r l' _ Hr') in Hin as (v & Hv & Hb & _). rewrite Hth in Hv. injection Hv as <-.
    unfold is_blocked in Hb. by rewrite Hrun in Hb.
Qed.

Lemma block_etc_ok s c q ddl now timer mask reason intr :
  sinv s → cpus s !! this_cpu s = Some c → cur_thread c ≠ idle c → is_Some (wait_queues s !! q) → not_semaphore s q →
  (timer ∉ timer_list c) → completes normal (block_etc q ddl now timer mask reason intr) s (placed s).
Proof.
  intros S Hc Hni (l & Hq) Hsem Htm. pose proof S as (I & C). destruct (wi_cur _ I _ c Hc) as (th & Hth & _).
  destruct (C c th Hc Hth) as [Hrun|(_ & ?)]; [|done].
  set (pending := intr && negb (Z.land (signals_ th) (Z.lxor mask 0xFFFFFFFF) =? 0)).
  assert (∀ code, (if match ddl with Some when => when <? now | None => false end then Some ERROR_TIMEOUT else
      if pending && negb (Z.land (signals_ th) SIGNAL_KILLED =? 0) then Some ERROR_INTERNAL_INTR_KILLED else
      if pending && negb (Z.land (signals_ th) SIGNAL_SUSPEND =? 0) then Some ERROR_INTERNAL_INTR_RETRY else None) = Some code →
    block_etc q ddl now timer mask reason intr s = Some (Some code, s)) as Hearly.
  { intros code. unfold block_etc. erewrite bind_run; [|by apply cpu_run]. cbv zeta. erewrite bind_run; [|by apply look_run].
    erewrite bind_run; [|apply kassert_true; by apply bool_decide_eq_true_2]. fold pending.
    destruct (match ddl with Some when => when <? now | None => false end); [by intros [= <-]|].
    destruct (pending && negb (Z.land (signals_ th) SIGNAL_KILLED =? 0)); [by intros [= <-]|].
    destruct (pending && negb (Z.land (signals_ th) SIGNAL_SUSPEND =? 0)); [by intros [= <-]|done]. }
  destruct (match ddl with Some when => when <? now | None => false end) eqn:E0.
  { exists (Some ERROR_TIMEOUT), s. split; [by apply Hearly|]. split; [done|]. split; [apply framed_refl|done]. }
  destruct (pending && negb (Z.land (signals_ th) SIGNAL_KILLED =? 0)) eqn:E1.
  { exists (Some ERROR_INTERNAL_INTR_KILLED), s. split; [by apply Hearly|]. split; [done|]. split; [apply framed_refl|done]. }
  destruct (pending && negb (Z.land (signals_ th) SIGNAL_SUSPEND =? 0)) eqn:E2.
  { exists (Some ERROR_INTERNAL_INTR_RETRY), s. split; [by apply Hearly|]. split; [done|]. split; [apply framed_refl|done]. }
  destruct (block_etc_blocks s c th q l ddl now timer mask reason intr) as (s2 & Hr & S2 & F2 & P2 & _); try done.
  - intros n Hn. fold pending in Hn. split; intros ->; congruence.
  - by exists None, s2.
Qed.

(** ** Thread operations *)

(** Changing fields that neither the invariant nor the frame mention. *)
Lemma inert_ok s t th th' :
  sinv s → threads s !! t = Some th → aspect th = aspect th' → affinity_cpu th' = affinity_cpu th →
  let s' := set_threads (<[t := th']> (threads s)) s in
  sinv s' ∧ framed s s' ∧ (∀ u, waiting s' u ↔ waiting s u) ∧ ∀ u, placed s' u ↔ placed s u.
Proof.
  intros (I & C) Ht Ha Haff s'. destruct (aspect_eq _ _ Ha) as (E1 & _ & E3 & E4).
  assert (∀ u, waiting s' u ↔ waiting s u) as Hwait.
  { intros u. assert (∀ q, waits_on s' u q ↔ waits_on s u q) as Hw; [|unfold waiting; by setoid_rewrite Hw].
    intros q. unfold waits_on. cbn [threads s' set_threads]. destruct (decide (t = u)) as [<-|Hne]; [|by rewrite lookup_insert_ne].
    rewrite lookup_insert_eq. split.
    - intros (v & [= <-] & H1 & H2). exists th. by rewrite E3, E4.
    - intros (v & Hv & H1 & H2). rewrite Ht in Hv. injection Hv as <-. exists th'. by rewrite <- E3, <- E4. }
  split; [split|split; [|split; [done|]]].
  - by apply (winv_inert s t th).
  - intros c v Hc Hv. change (cpus s') with (cpus s) in Hc. cbn [threads s' set_threads] in Hv.
    apply lookup_insert_Some in Hv as [(Et & <-)|(_ & Hv)]; [|by apply (C c)].
    unfold cur_state. rewrite <- E1. apply (C c); [done|]. by rewrite <- Et.
  - repeat split. by apply (framed_insert s t th).
  - intros u. unfold placed. change (runnable s' u) with (runnable s u).
    by rewrite Hwait.
Qed.

Lemma framed_thread s s' t : framed s s' → is_Some (threads s !! t) → is_Some (threads s' !! t).
Proof. intros (_ & _ & H) (v & Hv). specialize (H t). rewrite Hv in H. destruct (threads s' !! t); [eauto|done]. Qed.

(** The state of a thread that is placed. *)
Lemma placed_state s t :
  sinv s → placed s t → ∃ th, threads s !! t = Some th ∧
    ((state th = READY ∨ state th = RUNNING) ∨ (is_blocked th = true ∧ waiting s t)).
Proof.
  intros (I & C) [(k & c & Hk & Ht)|Hw].
  - apply elem_of_cons in Ht as [->|Ht].
    + destruct (wi_cur _ I k c Hk) as (v & Hv & Hs). exists v. split; [done|]. left.
      assert (cur_state c v) as [?|(? & _)]; auto. destruct (decide (k = this_cpu s)) as [->|]; [by apply C|by apply Hs].
    + destruct (wi_queued _ I k c t Hk Ht) as (v & Hv & Hs). exists v. auto.
  - pose proof Hw as (q & v & Hv & Hb & _). exists v. auto.
Qed.

Lemma interrupt_ok s t code :
  sinv s → waiting s t → local s t → completes normal (unblock_if_interruptible t code) s (placed s).
Proof.
  intros S Hw Hl. unfold unblock_if_interruptible. pose proof Hw as (q & th & Hth & _).
  apply (completes_run normal _ _ s th); [by apply look_run|]. destruct (interruptible_ th); [|by apply completes_ret].
  eapply completes_bind; [by apply unblock_thread_ok|]. intros x s' _ S' _ P'. by apply completes_ret.
Qed.

(** What [kill] and [suspend] do with a placed thread. *)
Lemma signalled_ok s t th code (m1 m2 m3 m4 : SY bool) :
  sinv s → threads s !! t = Some th → ((state th = READY ∨ state th = RUNNING) ∨ (is_blocked th = true ∧ waiting s t)) →
  (waiting s t → local s t) →
  completes normal (match state th with
    | INITIAL => m1
    | SUSPENDED => m2
    | READY | RUNNING => mret false
    | BLOCKED | BLOCKED_READ_LOCK => unblock_if_interruptible t code;; mret false
    | SLEEPING => m3
    | DYING | DEAD => m4
    end) s (placed s).
Proof.
  intros S Hth [[E|E]|(Hb & Hw)] Hl; [rewrite E; by apply completes_ret..|].
  unfold is_blocked in Hb. apply bool_decide_eq_true in Hb.
  assert (completes normal (unblock_if_interruptible t code;; mret false) s (placed s)).
  { eapply completes_bind; [by apply interrupt_ok; [..|apply Hl]|]. intros; by apply completes_ret. }
  by destruct Hb as [E|E]; rewrite E.
Qed.

Lemma kill_ok s t :
  sinv s → placed s t → (waiting s t → local s t) → completes normal (kill_locked t) s (placed s).
Proof.
  intros S Hp Hl. destruct (placed_state s t S Hp) as (th & Hth & Hst). unfold kill_locked.
  set (th1 := set_signals (Z.lor (signals_ th) SIGNAL_KILLED) th).
  destruct (inert_ok s t th th1 S Hth) as (S1 & F1 & Hw1 & P1); [done..|]. set (s1 := set_threads _ s) in *.
  destruct (held_here normal s1 S1) as (c & _ & Hc & _).
  apply (completes_step normal _ _ s tt s1); [unfold upd_thr; run with @look_run; [|exact Hth]; done|done|].
  apply (completes_run normal _ _ s1 c); [by apply cpu_run|]. destruct (decide _); [by apply completes_ret|].
  apply (completes_run normal _ _ s1 th1); [apply look_run, lookup_insert_eq|].
  eapply completes_bind.
  - apply (signalled_ok s1 t th1); [done|apply lookup_insert_eq| |].
    + destruct Hst as [Hst|(Hb & Hw)]; [by left|right]. split; [done|by apply Hw1].
    + intros Hw. apply (framed_local s), Hl; [done|]. by apply Hw1.
  - intros b s2 _ S2 _ P2. apply maybe_reschedule; [done|]. intros u. by rewrite P2, P1.
Qed.


Lemma suspend_ok s t :
  sinv s → placed s t → (∀ th, threads s !! t = Some th → is_idle th = false) → (waiting s t → local s t) →
  completes normal (suspend t) s (placed s).
Proof.
  intros S Hp Hid Hl. destruct (placed_state s t S Hp) as (th & Hth & Hst). unfold suspend.
  apply (completes_run normal _ _ s th); [by apply look_run|].
  apply (completes_run normal _ _ s tt); [apply kassert_true; by rewrite (Hid th)|].
  destruct (decide (state th = DEAD)); [by apply completes_ret|].
  set (th1 := set_signals (Z.lor (signals_ th) SIGNAL_KILLED) th).
  destruct (inert_ok s t th th1 S Hth) as (S1 & F1 & Hw1 & P1); [done..|]. set (s1 := set_threads _ s) in *.
  apply (completes_step normal _ _ s tt s1); [done|done|].
  eapply completes_bind.
  - apply (signalled_ok s1 t th1); [done|apply lookup_insert_eq| |].
    + destruct Hst as [Hst|(Hb & Hw)]; [by left|right]. split; [done|by apply Hw1].
    + intros Hw. apply (framed_local s), Hl; [done|]. by apply Hw1.
  - intros b s2 _ S2 F2 P2. destruct (framed_thread s1 s2 t F2) as (th2 & Hth2); [eexists; apply lookup_insert_eq|].
    apply (completes_run normal _ _ s2 th2); [by apply look_run|].
    eapply completes_bind; [apply (maybe_reschedule _ s2 (placed s)); [done|]; intros u; by rewrite P2, P1|].
    intros [] s3 _ S3 _ P3. by apply completes_ret.
Qed.

Lemma resume_ok s t r : sinv s → placed s t → completes normal (resume t r) s (placed s).
Proof.
  intros S Hp. destruct (placed_state s t S Hp) as (th & Hth & Hst). unfold resume.
  apply (completes_run normal _ _ s th); [by apply look_run|]. destruct (decide _); [by apply completes_ret|].
  set (th1 := set_signals _ th).
  destruct (inert_ok s t th th1 S Hth) as (S1 & F1 & _ & P1); [done..|]. set (s1 := set_threads _ s) in *.
  apply (completes_step normal _ _ s tt s1); [done|done|]. rewrite decide_False; [by apply completes_ret|].
  intros Hs. destruct Hst as [Hst|(Hb & _)].
  - destruct Hst as [E|E]; rewrite E in Hs; by destruct Hs.
  - unfold is_blocked in Hb. apply bool_decide_eq_true in Hb. destruct Hb as [E|E]; rewrite E in Hs; by destruct Hs.
Qed.

Lemma flag_cur_ok s c v :
  sinv s → cpus s !! this_cpu s = Some c → completes normal (upd_thr (cur_thread c) (set_need_reschedule v)) s (placed s).
Proof.
  intros S Hc. pose proof S as (I & _). destruct (wi_cur _ I _ c Hc) as (th & Hth & _).
  destruct (inert_ok s _ th (set_need_reschedule v th) S Hth) as (S1 & F1 & _ & P1); [done..|].
  exists tt. eexists. split; [unfold upd_thr; run with @look_run; [|exact Hth]; reflexivity|done].
Qed.

Lemma yield_ok s : sinv s → completes normal current.yield s (placed s).
Proof.
  intros S. destruct (held_here normal s S) as (c & th & Hc & _). unfold current.yield, yield_locked.
  apply (completes_run normal _ _ s (this_cpu s)); [by apply look_run|].
  apply (completes_run normal _ _ s tt); [by apply assert_here_run|].
  apply (completes_run normal _ _ s c); [by apply cpu_run|]. by apply flag_cur_ok.
Qed.

(** The exit of the current thread: every thread but it stays placed. *)
Lemma exit_ok s c th code :
  sinv s → cpus s !! this_cpu s = Some c → threads s !! cur_thread c = Some th → cur_thread c ≠ idle c →
  (∃ l, wait_queues s !! exit_code_wait_queue_ th = Some l ∧ ∀ t, t ∈ l → local s t) →
  completes normal (exit code) s (λ u, placed s u ∧ u ≠ cur_thread c).
Proof.
  intros S Hc Hth Hni (l & Hq & Hl). pose proof S as (I & C). pose proof (C c th Hc Hth) as Hcs.
  destruct Hcs as [Hrun|(_ & ?)]; [|done]. set (th1 := set_exit_code code (set_state DYING th)).
  assert (keeps th th1) as K by (repeat split; unfold is_blocked; simpl; by rewrite Hrun).
  pose proof (winv_self s c th th1 I Hc Hth K) as I1. set (s1 := set_threads (<[cur_thread c := th1]> (threads s)) s) in *.
  assert (same_threads (threads s) (threads s1)) as Hsame by (by apply (same_threads_insert _ _ th)).
  assert (threads s1 !! cur_thread c = Some th1) as Hth1 by apply lookup_insert_eq.
  assert (held (dying (cur_thread c)) s1) as S1.
  { split; [done|]. intros d v Hd Hv. change (cpus s !! this_cpu s = Some d) in Hd. rewrite Hc in Hd. injection Hd as <-.
    rewrite Hth1 in Hv. injection Hv as <-. done. }
  assert (framed s s1) as F1 by (repeat split; by apply (framed_insert s _ th)).
  assert (∀ u, placed s1 u ↔ placed s u) as P1.
  { intros u. unfold placed. change (runnable s1 u) with (runnable s u). unfold waiting.
    by setoid_rewrite <- (same_threads_waits s s1 u). }
  unfold exit. apply (completes_run normal _ _ s c); [by apply cpu_run|]. cbv zeta.
  apply (completes_step normal _ _ s tt s1); [unfold upd_thr; run with @look_run; [|exact Hth]; done|done|].
  apply (completes_run normal _ _ s1 th1); [by apply look_run|].
  assert (completes (dying (cur_thread c)) (if negb (Z.land (flags_ th1) FLAG_DETACHED =? 0) then mret tt
    else wake_all (exit_code_wait_queue_ th1) false code) s1 (placed s)) as ([] & s2 & Hr & S2 & F2 & P2).
  { destruct (negb _); [by apply completes_ret|].
    eapply completes_iff; [apply (wake_all_quiet_ok (dying (cur_thread c)) s1 _ l); [done..|]|done]. intros t Ht. by apply (framed_local s), Hl. }
  apply (completes_step normal _ _ s1 tt s2); [done|done|].
  pose proof S2 as (I2 & C2). destruct (held_here _ s2 S2) as (c2 & th2 & Hc2 & Hth2 & (Ecur & Hd2 & Hn2)).
  destruct (reschedule_run s2 c2 th2 I2 Hc2 Hth2) as (next & rest & s3 & Ht & Hrs & S3 & R); [by right|].
  assert (goes_on th2 = false) as Hg by (unfold goes_on; rewrite Hd2; apply bool_decide_eq_false; by intros [|]).
  exists tt, s3. split; [exact Hrs|]. split; [done|]. split; [by apply (framed_rescheduled c2 next rest)|]. intros u.
  rewrite <- P2. unfold placed. rewrite (runnable_rescheduled s2 c2 th2 next rest s3 u I2 Hc2 Ht R), (waiting_rescheduled c2 next rest s2 s3 u R).
  rewrite Hg, Ecur. destruct (decide (u = cur_thread c)) as [->|Hne]; [|tauto].
  assert (¬ waiting s2 (cur_thread c)); [|naive_solver]. intros Hw. rewrite <- Ecur in Hw.
  apply (waiting_off _ s2 _ S2 Hw _ _ Hc2). by left.
Qed.

(** ** Stealing *)

(** The thread [t] leaves the run queue of processor [k]. *)
Definition unqueued (k : nat) (c : cpu_struct) (t : loc) (s : sys) : sys :=
  set_cpus (<[k := set_rq (filter (λ x, x ≠ t) (run_queue_ c)) c]> (cpus s)) s.

Lemma members_unqueued c t u :
  (t ≠ cur_thread c) → u ∈ members (set_rq (filter (λ x, x ≠ t) (run_queue_ c)) c) ↔ u ∈ members c ∧ u ≠ t.
Proof.
  intros Ht. unfold members. cbn [cur_thread run_queue_ set_rq]. rewrite !elem_of_cons, list_elem_of_filter. naive_solver.
Qed.

(** Where the processors of [unqueued] come from. *)
Lemma unqueued_back s k c t :
  winv s → cpus s !! k = Some c → t ∈ run_queue_ c →
  ∀ j d, cpus (unqueued k c t s) !! j = Some d →
    ∃ d0, cpus s !! j = Some d0 ∧ cur_thread d = cur_thread d0 ∧ idle d = idle d0 ∧
      zombie_queue_ d = zombie_queue_ d0 ∧ timer_lock d = timer_lock d0 ∧ timer_list d = timer_list d0 ∧
      (∀ u, u ∈ run_queue_ d → u ∈ run_queue_ d0) ∧ (∀ u, u ∈ members d ↔ u ∈ members d0 ∧ u ≠ t) ∧
      (NoDup (members d0) → NoDup (members d)).
Proof.
  intros I Hk Ht j d Hj. pose proof (wi_nodup _ I k c Hk) as Hnd. apply NoDup_cons in Hnd as (Hnc & Hnd).
  cbn [cpus unqueued set_cpus] in Hj. upd Hj.
  - exists c. repeat (split; [done|]). split; [|split; [intros u; apply members_unqueued; by intros ->|]].
    + intros u Hu. cbn [run_queue_ set_rq] in Hu. by apply list_elem_of_filter in Hu as (_ & Hu).
    + intros _. apply NoDup_cons. split; [|by apply NoDup_filter]. cbn [run_queue_ cur_thread set_rq].
      rewrite list_elem_of_filter. tauto.
  - exists d. repeat (split; [done|]). split; [|done]. intros u. split; [|tauto].
    intros Hu. split; [done|]. intros ->. match goal with H : k ≠ j |- _ => apply H end.
    apply (wi_disj _ I k j c d t); [done..|by right|done].
Qed.

Lemma winv_unqueued s k c t :
  winv s → cpus s !! k = Some c → t ∈ run_queue_ c → (∀ j d, cpus s !! j = Some d → idle d ≠ t) →
  winv (unqueued k c t s).
Proof.
  intros I Hk Ht Hidle. pose proof (unqueued_back s k c t I Hk Ht) as Hback. set (s' := unqueued k c t s) in *.
  split; change (threads s') with (threads s); change (this_cpu s') with (this_cpu s); change (wait_queues s') with (wait_queues s).
  - split; [|apply (wi_here _ I)]. cbn [cpus s' unqueued set_cpus]. apply lookup_insert_is_Some'. right. apply (wi_here _ I).
  - intros j d (d0 & Hj & _ & _ & _ & _ & _ & _ & _ & Hn)%Hback. by apply Hn, (wi_nodup _ I j).
  - intros j1 j2 d1 d2 u (x & Hx & _ & _ & _ & _ & _ & _ & Mx & _)%Hback (y & Hy & _ & _ & _ & _ & _ & _ & My & _)%Hback U1 U2.
    apply Mx in U1 as (U1 & _). apply My in U2 as (U2 & _). by apply (wi_disj _ I j1 j2 x y u).
  - intros j d u (d0 & Hj & _ & _ & _ & _ & _ & Hq & _)%Hback Hu. by apply (wi_queued _ I j d0), Hq.
  - intros j d (d0 & Hj & E1 & E2 & _)%Hback. unfold cur_state. rewrite E1, E2. by apply (wi_cur _ I j).
  - intros j d (d0 & Hj & E1 & E2 & _ & _ & _ & _ & Hm & _)%Hback. destruct (wi_idle _ I j d0 Hj) as (Hi & Hv).
    rewrite E2. split; [|done]. apply Hm. split; [done|]. by apply (Hidle j d0).
  - intros u v Hv Hi. destruct (wi_flag _ I u v Hv Hi) as (j & d & Hj & E). destruct (decide (k = j)) as [<-|Hne].
    + eexists _, _. cbn [cpus s' unqueued set_cpus]. rewrite lookup_insert_eq. split; [done|]. simpl. congruence.
    + exists j, d. cbn [cpus s' unqueued set_cpus]. by rewrite lookup_insert_ne.
  - intros j d (d0 & Hj & _ & _ & -> & _)%Hback. by apply (wi_zombie _ I j).
  - apply (wi_wait _ I).
  - apply (wi_wait_nodup _ I).
  - intros j d (d0 & Hj & _ & _ & _ & -> & -> & _)%Hback. by apply (wi_timers _ I j).
  - apply (wi_sem _ I).
  - apply (wi_sem_own _ I).
  - apply (wi_wait_dom _ I).
  - intros j Hj. apply lookup_insert_is_Some'. right. by apply (wi_all _ I).
Qed.

Lemma runnable_unqueued s k c t u :
  winv s → cpus s !! k = Some c → t ∈ run_queue_ c → runnable (unqueued k c t s) u ↔ runnable s u ∧ u ≠ t.
Proof.
  intros I Hk Ht. pose proof (wi_nodup _ I k c Hk) as Hnd. apply NoDup_cons in Hnd as (Hnc & _). split.
  - intros (j & d & Hj & Hu). destruct (unqueued_back s k c t I Hk Ht j d Hj) as (d0 & Hd & _ & _ & _ & _ & _ & _ & Hm & _).
    destruct (proj1 (Hm u) Hu) as (Hu0 & Hne). split; [by exists j, d0|done].
  - intros ((j & d & Hj & Hu) & Hne). destruct (decide (k = j)) as [<-|Hkj].
    + eexists _, _. cbn [cpus unqueued set_cpus]. rewrite lookup_insert_eq. split; [done|].
      apply members_unqueued; [by intros ->|]. split; [congruence|done].
    + exists j, d. cbn [cpus unqueued set_cpus]. by rewrite lookup_insert_ne.
Qed.

Lemma held_unqueued s k c t :
  sinv s → cpus s !! k = Some c → t ∈ run_queue_ c → (∀ j d, cpus s !! j = Some d → idle d ≠ t) →
  sinv (unqueued k c t s) ∧ framed s (unqueued k c t s) ∧ (∀ u, placed (unqueued k c t s) u ↔ placed s u ∧ u ≠ t) ∧
  off_cpus (unqueued k c t s) t.
Proof.
  intros S Hk Ht Hidle. pose proof S as (I & C). pose proof (unqueued_back s k c t I Hk Ht) as Hback.
  split; [split; [by apply winv_unqueued|]|split; [done|split]].
  - intros d v (d0 & Hd & E1 & E2 & _)%Hback Hv. unfold cur_state. rewrite E1, E2 in *. by apply (C d0).
  - intros u. unfold placed. change (waiting (unqueued k c t s) u) with (waiting s u). rewrite runnable_unqueued by done.
    split; [|tauto]. intros [H|H]; [tauto|]. split; [by right|]. intros ->.
    apply (waiting_off normal s t S H k c Hk). by right.
  - intros j d (d0 & _ & _ & _ & _ & _ & _ & _ & Hm & _)%Hback Hu. by apply Hm in Hu as (_ & []).
Qed.

Lemma steal_pass_some me p l s t :
  steal_pass me p l s = Some t →
  t ∈ l ∧ ∃ th, threads s !! t = Some th ∧ is_idle th = false ∧ state th = READY ∧ p th = true.
Proof.
  intros (Hin & Hc)%List.find_some. apply in_rev, list_elem_of_In in Hin. split; [done|].
  unfold candidate in Hc. destruct (threads s !! t) as [th|]; [|done]. exists th. split; [done|].
  apply andb_true_iff in Hc as (Hc & Hp). apply andb_true_iff in Hc as (Hc & _). apply andb_true_iff in Hc as (Hc & Hi).
  apply andb_true_iff in Hc as (_ & Hr). apply bool_decide_eq_true in Hr. unfold is_idle. by rewrite Hi.
Qed.

(** [steal] takes nothing, or a ready thread that is not an idle thread. *)
Lemma steal_run s k c h :
  sinv s → cpus s !! k = Some c →
  fcfs_steal k h s = Some (None, s) ∨
  ∃ t th, t ∈ run_queue_ c ∧ threads s !! t = Some th ∧ is_idle th = false ∧ state th = READY ∧
    fcfs_steal k h s = Some (Some t, unqueued k c t s).
Proof.
  intros S Hk. destruct (held_here normal s S) as (me & _ & Hme & _). unfold fcfs_steal, st_get.
  erewrite bind_run; [|by apply look_run]. erewrite bind_run; [|by apply cpu_run]. erewrite bind_run; [|reflexivity]. cbv zeta.
  match goal with |- context [match ?f with Some _ => _ | None => mret None end] => set (found := f) end.
  assert (∀ t, found = Some t → t ∈ run_queue_ c ∧ ∃ th, threads s !! t = Some th ∧ is_idle th = false ∧ state th = READY) as Hf.
  { intros t Ht. assert (∃ p, steal_pass me p (run_queue_ c) s = Some t) as (p & (Hin & th & H1 & H2 & H3 & _)%steal_pass_some); [|eauto].
    unfold found in Ht. repeat match type of Ht with context [match steal_pass ?a ?b ?c ?d with _ => _ end] => destruct (steal_pass a b c d) eqn:? end; simplify_eq; eauto. }
  destruct found as [t|]; [|by left]. right. destruct (Hf t eq_refl) as (Hin & th & H1 & H2 & H3).
  exists t, th. repeat (split; [done|]). unfold list_without. erewrite bind_run; [|apply look_run; by rewrite decide_True]. done.
Qed.

(** A stolen thread is queued at the executing processor. *)
Lemma steal_enqueue_ok s k c t :
  sinv s → cpus s !! k = Some c → t ∈ run_queue_ c →
  (∃ th, threads s !! t = Some th ∧ is_idle th = false ∧ state th = READY) →
  completes normal (enqueue (this_cpu s) t) (unqueued k c t s) (placed s).
Proof.
  intros S Hk Ht (th & Hth & Hid & Hr). pose proof S as (I & _).
  destruct (held_unqueued s k c t S Hk Ht) as (S1 & F1 & P1 & Hoff).
  { intros j d Hj <-. destruct (wi_idle _ I j d Hj) as (_ & v & Hv & Hi). rewrite Hth in Hv. injection Hv as <-. congruence. }
  set (s1 := unqueued k c t s) in *. destruct (held_here normal s1 S1) as (d & _ & Hd & _).
  assert (¬ placed s1 t) as Hn by (rewrite P1; tauto).
  exists tt, (queued t th d s1). split; [|split; [|split]].
  - change (this_cpu s) with (this_cpu s1). rewrite (enqueue_run s1 d t th); [|done..|by rewrite Hr|].
    + unfold queued, set_cpus, set_threads. simpl. do 3 f_equal. rewrite insert_id; [done|]. rewrite Hth. f_equal. destruct th. simpl in *. by subst.
    + intros j e Hj. by apply (off_queue s1 t j e).
  - by apply held_queued.
  - repeat split. by apply (framed_insert s1 t th).
  - intros u. rewrite (placed_queued s1 t th d u Hd Hth), P1 by (unfold placed in Hn; tauto).
    assert (placed s t) by (left; exists k, c; split; [done|by right]). destruct (decide (u = t)) as [->|]; tauto.
Qed.

Lemma busiest_in s test : (0 < ncpu s)%nat → (busiest s test < ncpu s)%nat.
Proof.
  intros Hn. unfold busiest. assert (∀ l m, (∀ c, c ∈ l → (c < ncpu s)%nat) → (m < ncpu s)%nat →
    (fold_left (λ m c, if (workload_size m s <? workload_size c s)%Z && test c then c else m) l m < ncpu s)%nat) as H.
  { induction l as [|c l IH]; intros m Hl Hm; simpl; [done|]. apply IH; [intros x Hx; apply Hl; by right|].
    destruct (_ && _); [apply Hl; by left|done]. }
  apply H; [|done]. intros c. rewrite elem_of_seq. lia.
Qed.

Lemma idle_round_ok s : sinv s → completes normal idle_round s (placed s).
Proof.
  intros S. pose proof S as (I & _). destruct (wi_here _ I) as (_ & Hn). unfold idle_round, st_get.
  apply (completes_run normal _ _ s (this_cpu s)); [by apply look_run|]. apply (completes_run normal _ _ s s); [done|].
  set (k := busiest s _). destruct (wi_all _ I k) as (c & Hk); [apply busiest_in; lia|].
  assert (∀ s', sinv s' → this_cpu s' = this_cpu s → (∀ u, placed s' u ↔ placed s u) →
    completes normal (reschedule_locked (this_cpu s)) s' (placed s)) as Hre.
  { intros s' S' E' P'. destruct (reschedule_ok s' S') as (x & s2 & Hx & H2). unfold current.reschedule_locked in Hx.
    apply bind_inv in Hx as (h & s3 & [= <- <-] & Hx). rewrite E' in Hx. exists x, s2. split; [done|].
    destruct H2 as (S2 & F2 & P2). split; [done|]. split; [done|]. intros u. by rewrite P2. }
  destruct (steal_run s k c (this_cpu s) S Hk) as [H|(t & th & Ht & Hth & Hid & Hr & H)].
  - apply (completes_run normal _ _ s None); [done|]. apply (completes_run normal _ _ s tt); [done|]. by apply Hre.
  - destruct (steal_enqueue_ok s k c t S Hk Ht) as ([] & s2 & He & S2 & F2 & P2); [eauto|].
    apply (completes_step normal _ _ s (Some t) (unqueued k c t s)); [done|done|].
    apply (completes_step normal _ _ _ tt s2); [done|done|]. apply Hre; [done| |done]. by destruct F2.
Qed.

(** ** The timer interrupt *)

(** Before a timer expires, counting down only changes its counter. *)
Lemma check_timers_run s c callback :
  winv s → cpus s !! this_cpu s = Some c → (∀ x, head (timer_list c) = Some x → expires s !! x ≠ Some 1) →
  ∃ m, (lock_timers (this_cpu s);; check_timers_locked callback (this_cpu s);; unlock_timers (this_cpu s)) s =
      Some (tt, set_expires m s) ∧ ∀ x, is_Some (expires s !! x) → is_Some (m !! x).
Proof.
  intros I Hc Hne. destruct (wi_timers _ I _ c Hc) as (Hlock & Hex).
  set (s1 := set_cpus (<[this_cpu s := set_timer_lock true c]> (cpus s)) s).
  assert (lock_timers (this_cpu s) s = Some (tt, s1)) as Hl.
  { by apply lock_timers_run. }
  assert (∀ m, unlock_timers (this_cpu s) (set_expires m s1) = Some (tt, set_expires m s)) as Hu.
  { intros m. unfold unlock_timers. run with @look_run; [|apply lookup_insert_eq]. run with @kassert_true; [|done].
    unfold put_cpu, change, set_cpus, set_expires. simpl. rewrite insert_insert_eq. do 3 f_equal. apply insert_id.
    rewrite Hc. f_equal. destruct c. simpl in *. by subst. }
  assert (∃ m, check_timers_locked callback (this_cpu s) s1 = Some (tt, set_expires m s1) ∧
    ∀ x, is_Some (expires s !! x) → is_Some (m !! x)) as (m & Hm & Hdom); [|exists m; split; [run with Hl; by run with Hm|done]].
  unfold check_timers_locked. erewrite bind_run; [|apply look_run, lookup_insert_eq]. cbn [timer_list set_timer_lock].
  destruct (timer_list c) as [|x tl] eqn:E; [exists (expires s); by destruct s|].
  destruct (Hex x) as (e & He); [by left|]. exists (<[x := e - 1]> (expires s)).
  split; [|intros y Hy; apply lookup_insert_is_Some'; by right].
  run with @look_run; [|exact He]. erewrite bind_run; [|reflexivity]. cbn [length expire_loop].
  run with @look_run; [|apply lookup_insert_eq]. destruct (Z.eqb_spec (e - 1) 0) as [H0|]; [|done].
  destruct (Hne x); [done|]. rewrite He. f_equal. lia.
Qed.

(** With no zombies, a tick only asks for a reschedule. *)
Lemma fcfs_tick_run s c :
  sinv s → cpus s !! this_cpu s = Some c →
  fcfs_tick (this_cpu s) s = upd_thr (cur_thread c) (set_need_reschedule true) s.
Proof.
  intros (I & _) Hc. unfold fcfs_tick. run with assert_here_run; [|done]. run with @look_run; [|exact Hc].
  erewrite bind_run; [|reflexivity]. rewrite (wi_zombie _ I _ c Hc). erewrite bind_run; [|reflexivity].
  assert (set_cpus (<[this_cpu s := set_zq [] c]> (cpus s)) s = s) as ->; [|by run with cpu_run].
  unfold set_cpus. rewrite insert_id; [by destruct s|]. rewrite Hc. pose proof (wi_zombie _ I _ c Hc).
  f_equal. destruct c. simpl in *. by subst.
Qed.

(** The first part of [tick] only asks for a reschedule. *)
Lemma tick_first s c :
  sinv s → cpus s !! this_cpu s = Some c →
  ∃ s', (if decide (cur_thread c = idle c) then upd_thr (cur_thread c) (set_need_reschedule true)
         else fcfs_tick (this_cpu s)) s = Some (tt, s') ∧ sinv s' ∧ framed s s' ∧ cpus s' = cpus s ∧ ncpu s' = ncpu s ∧
    ∀ t v, threads s !! t = Some v → ∃ v', threads s' !! t = Some v' ∧ flags_ v' = flags_ v.
Proof.
  intros S Hc. pose proof S as (I & _). destruct (wi_cur _ I _ c Hc) as (th & Hth & _).
  set (s' := set_threads (<[cur_thread c := set_need_reschedule true th]> (threads s)) s).
  assert (upd_thr (cur_thread c) (set_need_reschedule true) s = Some (tt, s')) as Hr.
  { unfold upd_thr. run with @look_run; [|exact Hth]. done. }
  destruct (inert_ok s _ th (set_need_reschedule true th) S Hth) as (S1 & F1 & _); [done..|]. fold s' in S1, F1.
  exists s'. split; [destruct (decide _); [done|]; by rewrite (fcfs_tick_run s c)|]. repeat (split; [done|]).
  intros t v Hv. cbn [threads s' set_threads]. destruct (decide (cur_thread c = t)) as [<-|Hne].
  - rewrite lookup_insert_eq. eexists. split; [done|]. rewrite Hth in Hv. by injection Hv as <-.
  - rewrite lookup_insert_ne by done. eauto.
Qed.

Lemma tick_ok s c :
  sinv s → cpus s !! this_cpu s = Some c → unbalanced s = false →
  completes normal (tick (this_cpu s) (cur_thread c)) s (placed s).
Proof.
  intros S Hc Hb. destruct (tick_first s c S Hc) as (s' & H & S' & F' & E1 & E2 & _).
  assert (∀ u, placed s' u ↔ placed s u) as P'.
  { destruct (decide (cur_thread c = idle c)).
    - destruct (flag_cur_ok s c true S Hc) as (x & s2 & H2 & _ & _ & P2). rewrite H in H2. by injection H2 as _ <-.
    - destruct (flag_cur_ok s c true S Hc) as (x & s2 & H2 & _ & _ & P2). rewrite (fcfs_tick_run s c S Hc) in H. rewrite H in H2. by injection H2 as _ <-. }
  unfold tick. apply (completes_run normal _ _ s c); [by apply cpu_run|].
  apply (completes_step normal _ _ s tt s'); [done|done|]. apply (completes_run normal _ _ s' s'); [done|].
  assert (unbalanced s' = unbalanced s) as ->; [unfold unbalanced, busiest, idlest, workload_size; by rewrite E1, E2|].
  rewrite Hb. by apply completes_ret.
Qed.

Lemma timer_tick_ok s c callback :
  sinv s → cpus s !! this_cpu s = Some c → unbalanced s = false →
  (∀ x, head (timer_list c) = Some x → expires s !! x ≠ Some 1) →
  completes normal (timer_tick_handle callback (this_cpu s)) s (placed s).
Proof.
  intros S Hc Hb Hne. pose proof S as (I & C).
  destruct (check_timers_run s c callback I Hc Hne) as (m & Hr & Hm).
  apply bind_inv in Hr as (x1 & s1 & H1 & Hr). apply bind_inv in Hr as (x2 & s2 & H2 & H3).
  assert (sinv (set_expires m s)) as S' by (split; [by apply winv_expires|apply C]).
  destruct (tick_ok (set_expires m s) c S' Hc Hb) as (x & s' & Hx & S2 & F2 & P2).
  exists x, s'. split; [|done]. unfold timer_tick_handle. run with H1. run with H2. run with H3.
  by run with cpu_run.
Qed.

(** ** Semaphores *)

Lemma held_sem P s m sm sm' l :
  held P s → semaphores s !! m = Some sm → wait_queue_ sm' = wait_queue_ sm → 0 <= count_ sm' →
  wait_queues s !! wait_queue_ sm = Some l → count_ sm' = 0 ∨ l = [] →
  held P (set_sems (<[m := sm']> (semaphores s)) s) ∧ framed s (set_sems (<[m := sm']> (semaphores s)) s).
Proof.
  intros (I & C) Hm E H0 Hl Hor. split; [|done]. split; [|done]. destruct I. split; try done.
  - intros n x Hn. cbn [semaphores set_sems] in Hn. upd Hn; [|by apply (wi_sem n)]. split; [done|]. exists l. by rewrite E.
  - intros n n' x x' Hn Hn' Ex. cbn [semaphores set_sems] in *. upd Hn; upd Hn'; [done|..].
    + apply (wi_sem_own m n' sm x'); [done..|congruence].
    + apply (wi_sem_own n m x sm); [done..|congruence].
    + by apply (wi_sem_own n n' x x').
Qed.

Lemma sem_take_ok s m sm :
  sinv s → semaphores s !! m = Some sm → 0 < count_ sm < 2 ^ 64 →
  completes normal (put_sem m (Sem (count_ sm -w 1) (wait_queue_ sm))) s (placed s).
Proof.
  intros S Hm Hc. pose proof S as (I & _). destruct (wi_sem _ I m sm Hm) as (_ & l & Hl & [?| ->]); [lia|].
  destruct (held_sem normal s m sm (Sem (count_ sm -w 1) (wait_queue_ sm)) [] S Hm) as (S1 & F1); [done| |done|by right|].
  { simpl. rewrite wrap64_small by (unfold is_u64; lia). lia. }
  exists tt. eexists. split; [reflexivity|]. done.
Qed.

Lemma try_wait_ok s m sm :
  sinv s → semaphores s !! m = Some sm → count_ sm < 2 ^ 64 → completes normal (try_wait_locked m) s (placed s).
Proof.
  intros S Hm Hc. unfold try_wait_locked. apply (completes_run normal _ _ s sm); [by apply look_run|].
  destruct (Z.ltb_spec 0 (count_ sm)); [|by apply completes_ret].
  eapply completes_bind; [by apply sem_take_ok|]. intros [] s1 _ S1 _ P1. by apply completes_ret.
Qed.

Lemma sem_guard s m sm l :
  sinv s → semaphores s !! m = Some sm → wait_queues s !! wait_queue_ sm = Some l →
  (count_ sm =? 0) || bool_decide (l = []) = true.
Proof.
  intros (I & _) Hm Hl. destruct (wi_sem _ I m sm Hm) as (_ & l' & Hl' & Hor). rewrite Hl in Hl'. injection Hl' as <-.
  apply orb_true_iff. destruct Hor as [->| ->]; [by left|right]. by apply bool_decide_eq_true_2.
Qed.

Lemma sem_wait_ok s c m sm ddl now timer :
  sinv s → cpus s !! this_cpu s = Some c → semaphores s !! m = Some sm → count_ sm < 2 ^ 64 →
  cur_thread c ≠ idle c → (timer ∉ timer_list c) → completes normal (wait_locked m ddl now timer) s (placed s).
Proof.
  intros S Hc Hm Hcnt Hni Htm. pose proof S as (I & _). destruct (wi_sem _ I m sm Hm) as (H0 & l & Hl & _).
  unfold wait_locked. apply (completes_run normal _ _ s sm); [by apply look_run|].
  apply (completes_run normal _ _ s l); [by apply look_run|].
  apply (completes_run normal _ _ s tt); [apply kassert_true; by apply (sem_guard s m)|].
  destruct (Z.ltb_spec 0 (count_ sm)).
  - eapply completes_bind; [by apply sem_take_ok|]. intros [] s1 _ S1 _ P1. by apply completes_ret.
  - apply (block_etc_ok s c); [done..|eauto| |done]. intros m' sm' Hm' E.
    assert (m' = m) as -> by (by apply (wi_sem_own _ I m' m sm' sm)). rewrite Hm in Hm'. injection Hm' as <-. lia.
Qed.

Lemma sem_signal_ok s m sm l :
  sinv s → semaphores s !! m = Some sm → wait_queues s !! wait_queue_ sm = Some l → count_ sm + 1 < 2 ^ 64 →
  (∀ t, head l = Some t → local s t) → completes normal (signal_locked m) s (placed s).
Proof.
  intros S Hm Hl Hcnt Hloc. pose proof S as (I & _). destruct (wi_sem _ I m sm Hm) as (H0 & _).
  unfold signal_locked. apply (completes_run normal _ _ s sm); [by apply look_run|].
  apply (completes_run normal _ _ s l); [by apply look_run|].
  apply (completes_run normal _ _ s tt); [apply kassert_true; by apply (sem_guard s m)|].
  destruct (decide (l = [])) as [->|Hne].
  - destruct (held_sem normal s m sm (Sem (count_ sm +w 1) (wait_queue_ sm)) [] S Hm) as (S1 & F1); [done| |done|by right|].
    { simpl. rewrite wrap64_small by (unfold is_u64; lia). lia. }
    exists tt. eexists. split; [reflexivity|]. done.
  - eapply completes_bind; [by apply (wake_one_ok s _ l)|]. intros b s1 _ S1 _ P1. by apply completes_ret.
Qed.
