(* ===== verification/SchedTheorems.v ===== *)
(** * Properties of the scheduler, wait queues, semaphores and timers

    Safety of every sequence of operations of all processors, progress of
    queued threads, the order semaphores wake in, the order timers are kept
    in, and the operations that always fail. *)

From S2P Require Import Prelude Types Links Scheduler SchedInvariant SchedOps.

(** ** Sequences of operations *)

Inductive sop :=
  | OCpu (k : nat)
  | OReschedule
  | OYield
  | OTick (callback : loc → ST sys unit)
  | OIdle
  | OStart (t : loc)
  | OExit (code : error_code_values)
  | OKill (t : loc)
  | OSuspend (t : loc)
  | OResume (t : loc) (resched : bool)
  | OBlock (q : loc) (ddl : option Z) (now : Z) (timer : loc) (mask : Z) (reason : resource_ownership) (intr : bool)
  | OWakeOne (q : loc) (resched : bool) (code : error_code_values)
  | OWakeAll (q : loc) (resched : bool) (code : error_code_values)
  | OInterrupt (t : loc) (code : error_code_values)
  | OSemTry (m : loc)
  | OSemWait (m : loc) (ddl : option Z) (now : Z) (timer : loc)
  | OSemSignal (m : loc).

Definition ignore {A} (m : ST sys A) : ST sys unit := m;; mret tt.

(** [OCpu] lets another processor go on. *)
Definition run_sop (op : sop) : ST sys unit :=
  match op with
  | OCpu k => change (set_this k)
  | OReschedule => current.reschedule_locked
  | OYield => current.yield
  | OTick callback => h ← here; timer_tick_handle callback h
  | OIdle => idle_round
  | OStart t => ignore (current.unblock t)
  | OExit code => exit code
  | OKill t => kill_locked t
  | OSuspend t => ignore (suspend t)
  | OResume t r => resume t r
  | OBlock q ddl now timer mask reason intr => ignore (block_etc q ddl now timer mask reason intr)
  | OWakeOne q r code => ignore (wake_one q r code)
  | OWakeAll q r code => wake_all q r code
  | OInterrupt t code => ignore (unblock_thread t code)
  | OSemTry m => ignore (try_wait_locked m)
  | OSemWait m ddl now timer => ignore (wait_locked m ddl now timer)
  | OSemSignal m => signal_locked m
  end.

(** How operations are called: the idle thread neither blocks nor exits, a
    thread is started once, threads are woken on the processor they are bound
    to, no timer is due, the load needs no balancing, and counts do not
    overflow. *)
Definition allowed (s : sys) (op : sop) : Prop :=
  let busy timer := ∃ c, cpus s !! this_cpu s = Some c ∧ cur_thread c ≠ idle c ∧ timer ∉ timer_list c in
  match op with
  | OCpu k => is_Some (cpus s !! k) ∧ (k < ncpu s)%nat
  | OReschedule | OYield | OIdle => True
  | OTick _ => unbalanced s = false ∧
      ∀ c x, cpus s !! this_cpu s = Some c → head (timer_list c) = Some x → expires s !! x ≠ Some 1
  | OStart t => local s t ∧ ¬ placed s t
  | OExit _ => ∃ c th l, cpus s !! this_cpu s = Some c ∧ threads s !! cur_thread c = Some th ∧ cur_thread c ≠ idle c ∧
      wait_queues s !! exit_code_wait_queue_ th = Some l ∧ ∀ t, t ∈ l → local s t
  | OKill t => placed s t ∧ (waiting s t → local s t)
  | OSuspend t => placed s t ∧ (waiting s t → local s t) ∧ ∀ th, threads s !! t = Some th → is_idle th = false
  | OResume t _ => placed s t
  | OBlock q _ _ timer _ _ _ => busy timer ∧ is_Some (wait_queues s !! q) ∧ not_semaphore s q
  | OWakeOne q _ _ => ∃ l, wait_queues s !! q = Some l ∧ ∀ t, head l = Some t → local s t
  | OWakeAll q _ _ => ∃ l, wait_queues s !! q = Some l ∧ ∀ t, t ∈ l → local s t
  | OInterrupt t _ => waiting s t ∧ local s t
  | OSemTry m => ∃ sm, semaphores s !! m = Some sm ∧ count_ sm < 2 ^ 64
  | OSemWait m _ _ timer => busy timer ∧ ∃ sm, semaphores s !! m = Some sm ∧ count_ sm < 2 ^ 64
  | OSemSignal m => ∃ sm l, semaphores s !! m = Some sm ∧ wait_queues s !! wait_queue_ sm = Some l ∧
      count_ sm + 1 < 2 ^ 64 ∧ ∀ t, head l = Some t → local s t
  end.

(** The threads that run, are queued or wait after the operation. *)
Definition placed_after (s : sys) (op : sop) (u : loc) : Prop :=
  match op with
  | OStart t => placed s u ∨ u = t
  | OExit _ => placed s u ∧ ∀ c, cpus s !! this_cpu s = Some c → u ≠ cur_thread c
  | _ => placed s u
  end.

Lemma completes_ignore {A} (m : ST sys A) s Q : completes normal m s Q → completes normal (ignore m) s Q.
Proof. intros H. eapply completes_bind; [exact H|]. intros x s' _ S' _ P'. by apply completes_ret. Qed.

(** Another processor executes. *)
Lemma sinv_cpu s k : sinv s → is_Some (cpus s !! k) → (k < ncpu s)%nat → sinv (set_this k s).
Proof.
  intros (I & C) Hk Hn.
  assert (∀ j c, cpus s !! j = Some c → ∃ th, threads s !! cur_thread c = Some th ∧ cur_state c th) as Hcur.
  { intros j c Hj. destruct (wi_cur _ I j c Hj) as (th & Hth & Hs). exists th. split; [done|].
    destruct (decide (j = this_cpu s)) as [->|Hne]; [by apply C|by apply Hs]. }
  split.
  - destruct I. split; try done. intros j c Hj. destruct (Hcur j c Hj) as (th & Hth & Hs). eauto.
  - intros c th Hc Hth. destruct (Hcur k c Hc) as (v & Hv & Hs). cbn [threads set_this] in Hth. congruence.
Qed.

(** Every allowed operation completes. *)
Lemma sop_ok s op :
  sinv s → allowed s op → ∃ s', run_sop op s = Some (tt, s') ∧ sinv s' ∧ ∀ u, placed s' u ↔ placed_after s op u.
Proof.
  intros S Ha.
  assert (∀ Q, completes normal (run_sop op) s Q → ∃ s', run_sop op s = Some (tt, s') ∧ sinv s' ∧ ∀ u, placed s' u ↔ Q u) as Hc.
  { intros Q ([] & s' & H & S' & _ & P'). by exists s'. }
  destruct op; cbn [allowed placed_after] in *.
  - exists (set_this k s). destruct Ha as (Hk & Hn). split; [done|]. split; [exact (sinv_cpu s k S Hk Hn)|]. by intros u.
  - apply Hc. by apply reschedule_ok.
  - apply Hc. by apply yield_ok.
  - apply Hc. destruct (held_here normal s S) as (c & th & Hcpu & _). destruct Ha as (Hb & Hx).
    apply (completes_run normal _ _ s (this_cpu s)); [by apply look_run|].
    apply (timer_tick_ok s c); [done..|]. intros x. by apply Hx.
  - apply Hc. by apply idle_round_ok.
  - apply Hc, completes_ignore. destruct Ha. by apply (unblock_ok normal).
  - apply Hc. destruct Ha as (c & th & l & Hcpu & Hth & Hni & Hl & Hloc).
    eapply completes_iff; [apply (exit_ok s c th); eauto|]. intros u. rewrite Hcpu. naive_solver.
  - apply Hc. destruct Ha. by apply kill_ok.
  - apply Hc, completes_ignore. destruct Ha as (H1 & H2 & H3). by apply suspend_ok.
  - apply Hc. by apply resume_ok.
  - apply Hc, completes_ignore. destruct Ha as ((c & Hcpu & Hni & Htm) & Hq & Hsem). by apply (block_etc_ok s c).
  - apply Hc, completes_ignore. destruct Ha as (l & Hl & Hloc). by apply (wake_one_ok s q l).
  - apply Hc. destruct Ha as (l & Hl & Hloc). by apply (wake_all_ok s q l).
  - apply Hc, completes_ignore. destruct Ha. by apply unblock_thread_ok.
  - apply Hc, completes_ignore. destruct Ha as (sm & Hm & Hcnt). by apply (try_wait_ok s m sm).
  - apply Hc, completes_ignore. destruct Ha as ((c & Hcpu & Hni & Htm) & sm & Hm & Hcnt). by apply (sem_wait_ok s c m sm).
  - apply Hc. destruct Ha as (sm & l & Hm & Hl & Hcnt & Hloc). by apply (sem_signal_ok s m sm l).
Qed.

(** The states allowed operations lead to. *)
Inductive reach (s : sys) : sys → Prop :=
  | reach_refl : reach s s
  | reach_step s1 s2 op : reach s s1 → allowed s1 op → run_sop op s1 = Some (tt, s2) → reach s s2.

Lemma reach_sinv s s' : sinv s → reach s s' → sinv s'.
Proof.
  intros S H. induction H as [|s1 s2 op _ IH Ha Hr]; [done|].
  destruct (sop_ok s1 op IH Ha) as (s3 & Hr' & S3 & _). rewrite Hr in Hr'. by injection Hr' as <-.
Qed.


(** ** Progress *)

Fixpoint reschedules (n : nat) : ST sys unit :=
  match n with O => mret tt | S n => current.reschedule_locked;; reschedules n end.

(** A reschedule of a runnable thread rotates the queue. *)
Lemma rotate_run s c x l :
  sinv s → cpus s !! this_cpu s = Some c → run_queue_ c = x :: l →
  ∃ s', current.reschedule_locked s = Some (tt, s') ∧ sinv s' ∧ this_cpu s' = this_cpu s ∧
    cpus s' !! this_cpu s = Some (set_cur x (set_rq (l ++ [cur_thread c]) c)).
Proof.
  intros (I & C) Hc Hq. destruct (wi_cur _ I _ c Hc) as (th & Hth & _).
  assert (goes_on th = true) as Hg by (apply (cur_goes_on (cur_thread c) (idle c)), (C c th Hc Hth)).
  destruct (reschedule_run s c th I Hc Hth) as (next & rest & s' & Ht & Hr & S' & R); [by left|].
  unfold turn in Ht. rewrite Hg, Hq in Ht. injection Ht as <- <-.
  exists s'. split; [exact Hr|]. split; [done|]. split; [apply (re_this _ _ _ _ _ R)|].
  rewrite (re_cpus _ _ _ _ _ R). apply lookup_insert_eq.
Qed.

(** C12: no starvation: the thread at position [i] of the executing
    processor's run queue runs after at most [i + 1] reschedules. *)
Theorem fcfs_progress s c i t :
  sinv s → cpus s !! this_cpu s = Some c → run_queue_ c !! i = Some t →
  ∃ s' c', reschedules (S i) s = Some (tt, s') ∧ cpus s' !! this_cpu s' = Some c' ∧ cur_thread c' = t.
Proof.
  revert s c. induction i as [|i IH]; intros s c S Hc Ht; (destruct (run_queue_ c) as [|x l] eqn:Hq; [done|]).
  - destruct (rotate_run s c x l S Hc Hq) as (s' & Hr & _ & Et & Hc'). injection Ht as <-.
    exists s'. eexists. split; [cbn [reschedules]; by run with Hr|]. rewrite Et. split; [exact Hc'|done].
  - destruct (rotate_run s c x l S Hc Hq) as (s' & Hr & S' & Et & Hc'). cbn in Ht. rewrite <- Et in Hc'.
    destruct (IH s' _ S' Hc') as (s'' & c'' & Hrs & H).
    { cbn [run_queue_ set_cur set_rq]. rewrite lookup_app_l; [done|]. by eapply lookup_lt_Some. }
    exists s'', c''. split; [|done]. change (reschedules (Datatypes.S (Datatypes.S i))) with (current.reschedule_locked;; reschedules (Datatypes.S i)).
    by run with Hr.
Qed.

(** ** Semaphores *)

(** Waking the first waiter: it becomes runnable with the code. *)
Lemma wake_one_run s q t l r code :
  sinv s → wait_queues s !! q = Some (t :: l) → local s t →
  ∃ b s' th, wake_one q r code s = Some (b, s') ∧ wait_queues s' = <[q := l]> (wait_queues s) ∧
    semaphores s' = semaphores s ∧ threads s' !! t = Some th ∧ block_code_ th = code ∧ runnable s' t.
Proof.
  intros S Hq Hl. pose proof S as (I & _). pose proof (wi_wait_nodup _ I q _ Hq) as Hnd. apply NoDup_cons in Hnd as (Hnt & _).
  destruct (dequeue_ok normal s q (t :: l) t code S Hq) as (th & s1 & Hth & Hd & E1 & S1 & F1 & P1 & N1); [by left|].
  destruct (held_here normal s1 S1) as (c & thc & Hc & Hthc & Hcs). pose proof S1 as (I1 & _).
  set (th1 := set_blocking None code th).
  assert (threads s1 !! t = Some th1) as Hth1 by (rewrite E1; apply lookup_insert_eq).
  destruct (framed_local s s1 t F1 Hl) as (v & Hv & Ha). rewrite Hth1 in Hv. injection Hv as <-.
  assert (current.unblock t s1 = Some (bool_decide (affinity_cpu th1 = Some (this_cpu s1)), queued t th1 c s1)) as Hu.
  { apply unblock_run; [done|apply (wi_here _ I1)|done|done|]. intros k d Hk Hin. apply N1. left. exists k, d. split; [done|by right]. }
  pose proof (held_queued normal s1 t th1 c S1 Hc Hth1 N1) as S2. set (s2 := queued t th1 c s1) in *. set (b := bool_decide _) in Hu.
  assert (threads s2 !! t = Some (set_state READY th1)) as Hth2 by apply lookup_insert_eq.
  assert (runnable s2 t) as Hrun.
  { eexists (this_cpu s1), _. split; [apply lookup_insert_eq|]. rewrite members_queued. apply elem_of_snoc. by right. }
  assert (wait_queues s2 = <[q := l]> (wait_queues s)) as Hw2 by (change (wait_queues s2) with (wait_queues s1); rewrite E1; simpl; by rewrite filter_head).
  assert (semaphores s2 = semaphores s) as Hs2 by (change (semaphores s2) with (semaphores s1); by rewrite E1).
  unfold wake_one, peek. erewrite bind_run; [|run with @look_run; [reflexivity|exact Hq]]. cbn [head]. run with Hd. run with Hu.
  destruct (r && b) eqn:Erb; [|by exists false, s2, (set_state READY th1)].
  pose proof S2 as (I2 & C2). destruct (held_here normal s2 S2) as (c2 & th2 & Hc2 & Hthc2 & Hcs2).
  destruct (reschedule_run s2 c2 th2 I2 Hc2 Hthc2) as (next & rest & s3 & Ht & Hr & S3 & R); [left; by apply (cur_goes_on (cur_thread c2) (idle c2))|].
  destruct (proj1 (re_threads _ _ _ _ _ R) t _ Hth2) as (th3 & Hth3 & (_ & _ & _ & _ & _ & K)).
  exists true, s3, th3. split; [by run with Hr|]. rewrite (re_wqs _ _ _ _ _ R), (re_sems _ _ _ _ _ R).
  repeat (split; [done|]). apply (runnable_rescheduled s2 c2 th2 next rest s3 t I2 Hc2 Ht R). split; [done|].
  intros _. by apply (cur_goes_on (cur_thread c2) (idle c2)).
Qed.

(** C18: a semaphore serves its waiters first come, first served.  Signalling
    wakes the first waiter with success, or counts up when nobody waits;
    waiting takes one from a positive count without blocking, and otherwise
    blocks the caller at the end of the queue.  The count is positive only
    while nobody waits, so the assertions in the code hold. *)
Theorem semaphore_fifo s c m sm l :
  sinv s → cpus s !! this_cpu s = Some c → semaphores s !! m = Some sm → wait_queues s !! wait_queue_ sm = Some l →
  count_ sm + 1 < 2 ^ 64 →
  let q := wait_queue_ sm in
  (l = [] → signal_locked m s = Some (tt, set_sems (<[m := Sem (count_ sm + 1) q]> (semaphores s)) s)) ∧
  (∀ t l', l = t :: l' → local s t →
    ∃ s' th, signal_locked m s = Some (tt, s') ∧ wait_queues s' !! q = Some l' ∧ semaphores s' = semaphores s ∧
      runnable s' t ∧ threads s' !! t = Some th ∧ block_code_ th = ERROR_SUCCESS) ∧
  (∀ now tm, 0 < count_ sm →
    l = [] ∧ wait_locked m None now tm s = Some (Some ERROR_SUCCESS, set_sems (<[m := Sem (count_ sm - 1) q]> (semaphores s)) s)) ∧
  (∀ now tm th, count_ sm = 0 → threads s !! cur_thread c = Some th → cur_thread c ≠ idle c → (tm ∉ timer_list c) → signals_ th = 0 →
    ∃ s', wait_locked m None now tm s = Some (None, s') ∧ wait_queues s' !! q = Some (l ++ [cur_thread c]) ∧ waits_on s' (cur_thread c) q).
Proof.
  intros S Hc Hm Hl Hcnt q. pose proof S as (I & C). destruct (wi_sem _ I m sm Hm) as (H0 & l0 & Hl0 & Hor).
  rewrite Hl in Hl0. injection Hl0 as <-. pose proof (sem_guard s m sm l S Hm Hl) as Hg.
  split; [|split; [|split]].
  - intros ->. unfold signal_locked. run with @look_run; [|exact Hm]. run with @look_run; [|exact Hl].
    run with @kassert_true; [|exact Hg]. rewrite decide_True by done.
    rewrite wrap64_small by (unfold is_u64; lia). done.
  - intros t l' -> Hloc. destruct (wake_one_run s q t l' true ERROR_SUCCESS S Hl Hloc) as (b & s' & th & Hw & W & M & Ht & Hb & Hr).
    exists s', th. split; [|rewrite W; split; [apply lookup_insert_eq|done]].
    unfold signal_locked. run with @look_run; [|exact Hm]. run with @look_run; [|exact Hl].
    run with @kassert_true; [|exact Hg]. rewrite decide_False by done. by run with Hw.
  - intros now tm Hpos. split; [destruct Hor; [lia|done]|].
    unfold wait_locked. run with @look_run; [|exact Hm]. run with @look_run; [|exact Hl]. run with @kassert_true; [|exact Hg].
    destruct (Z.ltb_spec 0 (count_ sm)); [|lia]. rewrite wrap64_small by (unfold is_u64; lia). done.
  - intros now tm th Hz Hth Hni Htm Hsig.
    destruct (block_etc_blocks s c th q l None now tm 0 Normal true) as (s' & Hb & (I' & _) & _ & _ & W); try done.
    { intros m' sm' Hm' E. assert (m' = m) as -> by (by apply (wi_sem_own _ I m' m sm' sm)). congruence. }
    { intros n. by rewrite Hsig. }
    assert (wait_queues s' !! q = Some (l ++ [cur_thread c])) as Wq by (rewrite W; apply lookup_insert_eq).
    exists s'. split; [|split; [done|]].
    + unfold wait_locked. run with @look_run; [|exact Hm]. run with @look_run; [|exact Hl]. run with @kassert_true; [|exact Hg].
      by rewrite Hz.
    + apply (wi_wait _ I' q _ _ Wq). apply elem_of_snoc. by right.
Qed.

(** ** Operations that fail *)

Lemma assert_here_inv k s x s' : assert_here k s = Some (x, s') → this_cpu s = k ∧ s' = s.
Proof.
  unfold assert_here, here, look, mbind, ST_bind, kassert. destruct (bool_decide (this_cpu s = k)) eqn:E; [|done].
  intros [= <- <-]. by apply bool_decide_eq_true in E.
Qed.

Lemma enqueue_inv k t s x s' :
  enqueue k t s = Some (x, s') →
  ∃ th c, this_cpu s = k ∧ threads s !! t = Some th ∧ cpus s !! k = Some c ∧
    (state th = DYING ∧ zombie_linked t s = false ∧ s' = set_cpus (<[k := set_zq (zombie_queue_ c ++ [t]) c]> (cpus s)) s ∨
     state th ≠ DYING ∧ run_linked t s = false ∧ s' = set_cpus (<[k := set_rq (run_queue_ c ++ [t]) c]> (cpus s)) s).
Proof.
  intros H. unfold enqueue, thr, look in H. apply bind_inv in H as (th & s0 & H1 & H).
  destruct (threads s !! t) as [v|] eqn:E; [|done]. injection H1 as <- <-.
  apply bind_inv in H as (me & s0 & H2 & H). assert (s0 = s) as ->.
  { unfold cpu, here, cpu_at, look in H2. apply bind_inv in H2 as (h & s1 & [= <- <-] & H2). by destruct (cpus s !! _); simplify_eq. }
  destruct (decide (state v = DYING ∧ t = idle me)) as [Hd|Hd]; [done|].
  unfold fcfs_enqueue in H. apply bind_inv in H as (? & s0 & (Hk & ->)%assert_here_inv & H).
  unfold cpu_at, thr, look, kassert, put_cpu, change, mbind, ST_bind in H. destruct (cpus s !! k) as [c|] eqn:Hc; [|done].
  rewrite E in H. exists v, c. repeat (split; [done|]).
  destruct (decide (state v = DYING)); [left; destruct (zombie_linked t s)|right; destruct (run_linked t s)]; by simplify_eq/=.
Qed.

(** A thread cannot be queued twice, nor at another processor. *)
Lemma enqueue_twice_fails k t j s x s' : enqueue k t s = Some (x, s') → enqueue j t s' = None.
Proof.
  intros (th & c & _ & Hth & _ & Hor)%enqueue_inv. destruct (enqueue j t s') as [[y s'']|] eqn:E; [|done]. exfalso.
  apply enqueue_inv in E as (v & d & _ & Hv & _ & Hor').
  destruct Hor as [(Hs & _ & ->)|(Hs & _ & ->)], Hor' as [(Hs' & Hl & _)|(Hs' & Hl & _)]; cbn [threads set_cpus] in Hv; try congruence;
    (apply not_true_iff_false in Hl; apply Hl; apply existsb_exists; eexists (k, _);
     split; [apply list_elem_of_In, elem_of_map_to_list, lookup_insert_eq|]; apply bool_decide_eq_true_2; apply elem_of_snoc; by right).
Qed.

Lemma enqueue_remote_fails k t s : this_cpu s ≠ k → enqueue k t s = None.
Proof.
  intros H. destruct (enqueue k t s) as [[x s']|] eqn:E; [|done]. by apply enqueue_inv in E as (_ & _ & ? & _).
Qed.

Lemma insert_affine_fails s t th k :
  threads s !! t = Some th → affinity_cpu th = Some k → current.insert t s = None.
Proof.
  intros Hth Ha. destruct (current.insert t s) as [[x s']|] eqn:E; [|done]. exfalso.
  unfold current.insert, thr, here, look in E. apply bind_inv in E as (v & s0 & H1 & E). rewrite Hth in H1. injection H1 as <- <-.
  apply bind_inv in E as (h & s0 & [= <- <-] & E). rewrite Ha in E. apply bind_inv in E as (y & s1 & E1 & E2).
  apply bind_inv in E1 as (n & s2 & [= <- <-] & E1). apply bind_inv in E1 as (z & s2 & H2 & E1).
  unfold kassert in H2. destruct (k <? ncpu s)%nat; [|done]. injection H2 as <- <-.
  unfold insert_locked in *. apply bind_inv in E1 as (? & s3 & H3 & E1). apply bind_inv in E2 as (? & s4 & H4 & E2).
  apply assert_here_inv in H3 as (_ & ->). apply assert_here_inv in H4 as (_ & ->).
  by rewrite (enqueue_twice_fails _ _ _ _ _ _ E1) in E2.
Qed.

(** A thread that [steal] may take, for any processor. *)
Definition stealable (s : sys) (t : loc) : Prop :=
  ∃ th, threads s !! t = Some th ∧ Z.land (flags_ th) FLAG_IDLE = 0 ∧ Z.land (flags_ th) FLAG_INIT = 0.

Lemma steal_pass_none me p l s t :
  steal_pass me p l s = None → t ∈ l → candidate me s p t = false.
Proof. intros H Ht. apply (List.find_none _ _ H). rewrite <- in_rev. by apply list_elem_of_In. Qed.

Lemma steal_takes s k c h t :
  sinv s → cpus s !! k = Some c → t ∈ run_queue_ c → stealable s t →
  ∃ v, fcfs_steal k h s = Some (Some v, unqueued k c v s).
Proof.
  intros S Hk Ht (th & Hth & Hi & Hn). destruct (steal_run s k c h S Hk) as [H|(v & _ & _ & _ & _ & _ & H)]; [|by exists v].
  exfalso. destruct (held_here normal s S) as (me & _ & Hme & _). pose proof S as (I & _).
  destruct (wi_queued _ I k c t Hk Ht) as (v & Hv & Hr). rewrite Hth in Hv. injection Hv as <-.
  assert (cur_thread me ≠ t) as Hcur.
  { intros <-. by apply (cur_not_queued s me k c I Hme Hk). }
  assert (∀ p, candidate me s p t = p th) as Hcand.
  { intros p. unfold candidate. rewrite Hth, Hi, Hn. rewrite bool_decide_true by done. apply Z.eqb_neq in Hcur. by rewrite Hcur. }
  unfold fcfs_steal, st_get in H. erewrite bind_run in H by (by apply look_run). erewrite bind_run in H by (by apply cpu_run).
  erewrite bind_run in H by reflexivity. cbv zeta in H.
  destruct (steal_pass me (λ th, bool_decide (affinity_cpu th = Some h)) _ s) eqn:E1;
    [|destruct (steal_pass me (λ th, bool_decide (affinity_type th = SOFT)) _ s) eqn:E2;
      [|destruct (steal_pass me (λ th, bool_decide (affinity_type th = HARD)) _ s) eqn:E3]];
    try (unfold list_without, look, mbind, ST_bind in H; destruct (decide _); done).
  pose proof (steal_pass_none me _ _ s t E2 Ht) as H2. pose proof (steal_pass_none me _ _ s t E3 Ht) as H3. rewrite Hcand in H2, H3.
  apply bool_decide_eq_false in H2. apply bool_decide_eq_false in H3. by destruct (affinity_type th).
Qed.

(** Operations that need another processor's run queue fail: a thread
    with an affinity cannot be inserted at all (it is inserted twice), a
    thread bound to another processor cannot be woken, and the timer tick
    that finds the load unbalanced panics when it moves a thread to a
    processor other than its own. *)
Theorem smp_operations_fail s c t th k :
  sinv s → cpus s !! this_cpu s = Some c → threads s !! t = Some th → affinity_cpu th = Some k →
  current.insert t s = None ∧ (k ≠ this_cpu s → current.unblock t s = None) ∧
  (∀ d v, unbalanced s = true → idlest s ≠ this_cpu s →
    cpus s !! busiest s (λ _, true) = Some d → v ∈ run_queue_ d → stealable s v →
    tick (this_cpu s) (cur_thread c) s = None).
Proof.
  intros S Hc Hth Ha. split; [by apply (insert_affine_fails s t th k)|]. split.
  - intros Hk. unfold current.unblock. run with @look_run; [|exact Hth]. run with @look_run; [|done]. rewrite Ha.
    run with @look_run; [|done]. unfold kassert at 1, mbind at 1, ST_bind at 1. destruct (k <? ncpu s)%nat; [|done].
    unfold unblock_locked, mbind, ST_bind. destruct (assert_here k s) as [[x s']|] eqn:E; [|done].
    by apply assert_here_inv in E as (<- & _).
  - intros d v Hu Hmin Hd Hv (w & Hw & Hi & Hn).
    destruct (tick_first s c S Hc) as (s' & Ht & S' & F' & E1 & E2 & Hthr).
    unfold tick. erewrite bind_run by (by apply cpu_run). erewrite bind_run by exact Ht. erewrite bind_run by reflexivity.
    assert (unbalanced s' = unbalanced s ∧ busiest s' (λ _, true) = busiest s (λ _, true) ∧ idlest s' = idlest s) as (-> & -> & ->).
    { unfold unbalanced, busiest, idlest, workload_size. by rewrite E1, E2. }
    rewrite Hu. run with @look_run; [|done]. rewrite <- E1 in Hd.
    destruct (steal_takes s' _ d (this_cpu s') v S' Hd Hv) as (x & Hs).
    { destruct (Hthr v w Hw) as (w' & Hw' & Hf). exists w'. by rewrite Hf. }
    run with Hs. apply enqueue_remote_fails. destruct F' as (E & _). cbn [this_cpu unqueued set_cpus]. congruence.
Qed.

(** ** Timers *)

(** When the timers of a list are due, counted from [acc]. *)
Fixpoint due (acc : Z) (l : list loc) (m : gmap loc Z) : list (loc * Z) :=
  match l with
  | [] => []
  | x :: l => let d := acc + default 0 (m !! x) in (x, d) :: due d l m
  end.

(** A timer put before the first that is due later. *)
Fixpoint insert_due (timer : loc) (d : Z) (l : list (loc * Z)) : list (loc * Z) :=
  match l with
  | [] => [(timer, d)]
  | x :: l' => if d <? x.2 then (timer, d) :: l else x :: insert_due timer d l'
  end.

Lemma due_ext acc l m m' : (∀ x, x ∈ l → m !! x = m' !! x) → due acc l m = due acc l m'.
Proof.
  revert acc. induction l as [|x l IH]; intros acc H; simpl; [done|].
  rewrite (H x) by by left. f_equal. apply IH. intros y Hy. apply H. by right.
Qed.

Lemma timer_walk_frame e l i m e' j m' x :
  timer_walk e l i m = Some (e', j, m') → (x ∉ l) → m' !! x = m !! x.
Proof.
  revert e i. induction l as [|y l IH]; intros e i H Hx; simpl in H; [by injection H as _ _ <-|].
  apply not_elem_of_cons in Hx as (Hne & Hx). destruct (m !! y) as [ey|]; [|done].
  destruct (e <? ey); [|by apply (IH _ _ H)]. injection H as _ _ <-. by apply lookup_insert_ne.
Qed.

Lemma timer_walk_le e l i m e' j m' : timer_walk e l i m = Some (e', j, m') → (i ≤ j)%nat.
Proof.
  revert e i. induction l as [|y l IH]; intros e i H; simpl in H; [by simplify_eq|].
  destruct (m !! y); [|done]. destruct (_ <? _); [by simplify_eq|]. apply IH in H. lia.
Qed.

(** The walk finds the place and the counters that keep all due times. *)
Lemma timer_walk_due timer acc e l i m e' j m' :
  NoDup l → (timer ∉ l) → timer_walk e l i m = Some (e', j, m') →
  ∃ n, j = (i + n)%nat ∧
    due acc (take n l ++ timer :: drop n l) (<[timer := e']> m') = insert_due timer (acc + e) (due acc l m).
Proof.
  revert acc e i. induction l as [|x l IH]; intros acc e i Hn Ht H; simpl in H.
  - injection H as <- <- <-. exists 0%nat. split; [lia|]. simpl. by rewrite lookup_insert_eq.
  - apply NoDup_cons in Hn as (Hx & Hn). apply not_elem_of_cons in Ht as (Hne & Ht).
    destruct (m !! x) as [ex|] eqn:Ex; [|done]. destruct (Z.ltb_spec e ex) as [Hlt|Hge].
    + injection H as <- <- <-. exists 0%nat. split; [lia|]. simpl. rewrite Ex, lookup_insert_eq, lookup_insert_ne, lookup_insert_eq by done. simpl.
      destruct (Z.ltb_spec (acc + e) (acc + ex)); [|lia]. replace (acc + e + (ex - e)) with (acc + ex) by lia.
      do 2 f_equal. apply due_ext. intros y Hy. rewrite !lookup_insert_ne; [done|by intros ->..].
    + destruct (IH (acc + ex) (e - ex) (S i) Hn Ht H) as (n & -> & E). exists (S n). split; [lia|]. simpl.
      rewrite lookup_insert_ne, (timer_walk_frame _ _ _ _ _ _ _ x H Hx), Ex by done. simpl. rewrite E.
      destruct (Z.ltb_spec (acc + e) (acc + ex)); [lia|]. do 2 f_equal. lia.
Qed.

(** Timers are kept in the order they are due, each counter relative to
    the timer before: adding a timer that is not due before the first one puts
    it in its place and changes no due time.  A timer that is due before the
    first is put behind it instead: the first then fires early, by the new
    timer's time, and the new one only when the first should have. *)
Theorem add_timer_order s c timer e :
  sinv s → cpus s !! this_cpu s = Some c → NoDup (timer_list c) → (timer ∉ timer_list c) → expires s !! timer = Some e →
  ∃ s' c', add_timer (this_cpu s) timer s = Some (tt, s') ∧ cpus s' = <[this_cpu s := c']> (cpus s) ∧ sinv s' ∧
    let before := due 0 (timer_list c) (expires s) in
    let after := due 0 (timer_list c') (expires s') in
    match before with
    | (x, d) :: rest => if e <? d then after = (x, d - e) :: (timer, d) :: rest else after = insert_due timer e before
    | [] => after = [(timer, e)]
    end.
Proof.
  intros (I & C) Hc Hn Ht He. destruct (wi_timers _ I _ _ Hc) as (Hlock & Hex).
  destruct (timer_walk_total e (timer_list c) 0 (expires s) Hex) as (e' & i & m & Hw & Hdom).
  destruct (timer_walk_due timer 0 e _ 0 _ e' i m Hn Ht Hw) as (n & -> & E).
  pose proof (add_timer_eq s c timer e e' n m Hc Hlock He Ht Hw) as Hr. cbv zeta in Hr.
  destruct (add_timer_run s c timer I Hc) as (tl & m2 & Hr' & I'); [by eexists|done|].
  rewrite Hr in Hr'. apply Some_inj, (f_equal snd) in Hr'. cbn [snd] in Hr'. rewrite <- Hr' in I'.
  eexists _, _. split; [exact Hr|]. split; [reflexivity|]. split; [split; [exact I'|]|].
  { intros d th Hd Hth. cbn in Hd, Hth. rewrite lookup_insert_eq in Hd. injection Hd as <-. exact (C c th Hc Hth). }
  cbn [timer_list set_timers expires retimed set_cpus set_expires]. destruct (timer_list c) as [|x l] eqn:El.
  - simpl. destruct n; simpl in *; by rewrite E.
  - cbn [due]. destruct (Hex x) as (ex & Hx); [by left|]. cbn [timer_walk] in Hw. rewrite Hx in Hw |- *. cbn [default].
    change (0 + id ex) with (0 + ex). destruct (Z.ltb_spec e (0 + ex)) as [Hlt|Hge].
    + destruct (Z.ltb_spec e ex); [|lia]. injection Hw as <- <- <-. apply NoDup_cons in Hn as (Hxl & _).
      apply not_elem_of_cons in Ht as (Hne & Ht). simpl. rewrite lookup_insert_ne, !lookup_insert_eq by done. simpl.
      replace (0 + (ex - e) + e) with (0 + ex) by lia.
      replace (0 + (ex - e)) with (0 + ex - e) by lia. do 2 f_equal. apply due_ext. intros y Hy. rewrite !lookup_insert_ne; [done|by intros ->..].
    + destruct (Z.ltb_spec e ex); [lia|]. destruct n as [|n].
      { apply timer_walk_le in Hw. lia. }
      cbn [insert_index]. cbn [due] in E. rewrite Hx in E. exact E.
Qed.

(** The lock the timer interrupt holds. *)
Definition timers_locked (k : nat) (s : sys) : Prop := ∃ c, cpus s !! k = Some c ∧ timer_lock c = true.

Lemma remove_timer_locked k timer s : timers_locked k s → remove_timer k timer s = None.
Proof.
  intros (c & Hc & Hl). unfold remove_timer, lock_timers, cpu_at, look, mbind, ST_bind, kassert. by rewrite Hc, Hl.
Qed.

(** No timeout can ever fire: the interrupt that finds the first timer
    expired fails with every callback, because the timer is removed under the
    lock that the interrupt already holds; the callback of [block_etc]
    already fails on it. *)
Theorem timer_expiry_fails s c timer l callback :
  sinv s → cpus s !! this_cpu s = Some c → timer_list c = timer :: l → expires s !! timer = Some 1 →
  (∀ x s0 y s1, timers_locked (this_cpu s) s0 → callback x s0 = Some (y, s1) → timers_locked (this_cpu s) s1) →
  timer_tick_handle callback (this_cpu s) s = None ∧
  ∀ t s0, timers_locked (this_cpu s0) s0 → timeout_handle timer t s0 = None.
Proof.
  intros (I & _) Hc Hl He Hcb. destruct (wi_timers _ I _ c Hc) as (Hlock & _). split.
  - unfold timer_tick_handle. run with (lock_timers_run s (this_cpu s) c Hc Hlock).
    unfold check_timers_locked at 1, mbind at 1, ST_bind at 1.
    erewrite bind_run; [|apply look_run, lookup_insert_eq]. cbn [timer_list set_timer_lock]. rewrite Hl.
    run with @look_run; [|exact He]. erewrite bind_run; [|reflexivity]. cbn [length expire_loop].
    run with @look_run; [|apply lookup_insert_eq]. change (1 - 1 =? 0) with true. cbv iota. run with @look_run; [|apply lookup_insert_eq]. cbv zeta.
    unfold mbind at 1, ST_bind at 1. destruct (callback timer _) as [[y s1]|] eqn:E; [|done].
    unfold mbind, ST_bind. rewrite remove_timer_locked; [done|]. eapply Hcb, E.
    eexists. split; [apply lookup_insert_eq|done].
  - intros t s0 H. unfold timeout_handle. run with @look_run; [|reflexivity]. unfold mbind, ST_bind. by rewrite remove_timer_locked.
Qed.

(** ** An example *)

Module Example.

Definition ex_thread (st : thread_states) (flags : Z) (aff : option nat) (on : option loc) : thread :=
  Thread st true flags 0 aff SOFT false on ERROR_SUCCESS false ERROR_SUCCESS 502.

(** Two processors: the first runs 101 with 100 (idle), 102 and 103 queued,
    the second runs its idle thread 110.  Thread 104 is new and bound to the
    second processor, 105 waits for the semaphore 600. *)
Definition ex_sys : sys :=
  Sys {[ 100 := ex_thread READY FLAG_IDLE (Some 0%nat) None; 101 := ex_thread RUNNING 0 None None;
         102 := ex_thread READY 0 (Some 0%nat) None; 103 := ex_thread READY 0 None None;
         104 := ex_thread INITIAL 0 (Some 1%nat) None; 105 := ex_thread BLOCKED 0 None (Some 501);
         110 := ex_thread RUNNING FLAG_IDLE (Some 1%nat) None ]}
    2 {[ 0%nat := Cpu 101 100 [100; 102; 103] [] [700; 701] false; 1%nat := Cpu 110 110 [] [] [] false ]}
    0 {[ 500 := []; 501 := [105]; 502 := [] ]} {[ 600 := Sem 0 501; 601 := Sem 2 500 ]}
    {[ 700 := 1; 701 := 5; 702 := 3 ]}.

(** Splits a lookup in a concrete map. *)
Ltac entries H :=
  repeat (apply lookup_insert_Some in H as [[<- <-]|[_ H]]); try (apply lookup_singleton_Some in H as [<- <-]).

Lemma ex_waits t q : waits_on ex_sys t q → t = 105 ∧ q = 501.
Proof. intros (th & Hth & Hb & Hq). cbn [threads ex_sys] in Hth. entries Hth; by simplify_eq/=. Qed.

Lemma ex_sinv : sinv ex_sys.
Proof.
  split; [split|]; cbn [threads cpus wait_queues semaphores expires ncpu this_cpu ex_sys].
  - split; [by eexists|lia].
  - intros k c H. entries H; vm_compute; repeat constructor; set_solver.
  - intros k1 k2 c1 c2 t H1 H2 M1 M2. entries H1; entries H2; try done; exfalso; unfold members in *; simpl in *; set_solver.
  - intros k c t H Ht. entries H; simpl in Ht; repeat (apply elem_of_cons in Ht as [->|Ht]; [eexists; split; reflexivity|]); by apply elem_of_nil in Ht.
  - intros k c H. entries H; eexists; (split; [reflexivity|]); intros _; left; reflexivity.
  - intros k c H. entries H; (split; [unfold members; simpl; set_solver|]); eexists; split; reflexivity.
  - intros t th H Hi. entries H; try done; [exists 0%nat|exists 1%nat]; eexists; split; reflexivity.
  - intros k c H. by entries H.
  - intros q l t H. split.
    + intros Ht. entries H; try (by apply elem_of_nil in Ht). apply list_elem_of_singleton in Ht as ->. eexists. repeat split; reflexivity.
    + intros (-> & ->)%ex_waits. vm_compute in H. injection H as <-. by left.
  - intros q l H. entries H; repeat constructor; set_solver.
  - intros k c H. entries H; (split; [done|]); intros x Hx; simpl in Hx;
      repeat (apply elem_of_cons in Hx as [->|Hx]; [eexists; reflexivity|]); by apply elem_of_nil in Hx.
  - intros m sm H. entries H; (split; [done|]); eexists; (split; [reflexivity|]); [by left|by right].
  - intros m m' sm sm' H H'. entries H; by entries H'.
  - intros t q (-> & ->)%ex_waits. by eexists.
  - intros k H. destruct k as [|[|k]]; [by eexists..|lia].
  - intros c th H Hth. cbn [cpus threads ex_sys this_cpu] in *. vm_compute in H. injection H as <-. vm_compute in Hth. injection Hth as <-. by left.
Qed.

Lemma ex_local t : threads ex_sys !! t = Some (ex_thread BLOCKED 0 None (Some 501)) → local ex_sys t.
Proof. intros H. eexists. split; [exact H|]. by left. Qed.


(** The second queued thread runs after two reschedules. *)
Lemma fcfs_progress_witness :
  ∃ s' c', reschedules 2 ex_sys = Some (tt, s') ∧ cpus s' !! this_cpu s' = Some c' ∧ cur_thread c' = 102.
Proof. apply (fcfs_progress ex_sys (Cpu 101 100 [100; 102; 103] [] [700; 701] false) 1 102); [exact ex_sinv|reflexivity..]. Defined.

Lemma semaphore_fifo_witness :
  (∃ s' th, signal_locked 600 ex_sys = Some (tt, s') ∧ wait_queues s' !! 501 = Some [] ∧ semaphores s' = semaphores ex_sys ∧
    runnable s' 105 ∧ threads s' !! 105 = Some th ∧ block_code_ th = ERROR_SUCCESS) ∧
  (∃ s', wait_locked 600 None 0 800 ex_sys = Some (None, s') ∧ wait_queues s' !! 501 = Some [105; 101]).
Proof.
  destruct (semaphore_fifo ex_sys (Cpu 101 100 [100; 102; 103] [] [700; 701] false) 600 (Sem 0 501) [105])
    as (_ & H & _ & H'); [exact ex_sinv|reflexivity..|]. split.
  - apply (H 105 []); [reflexivity|]. by apply ex_local.
  - destruct (H' 0 800 (ex_thread RUNNING 0 None None)) as (s' & Hs & Hq & _); [done|done|done|set_solver|done|by exists s'].
Defined.

Lemma smp_operations_fail_witness :
  current.insert 104 ex_sys = None ∧ current.unblock 104 ex_sys = None ∧ tick 0 101 ex_sys = None.
Proof.
  destruct (smp_operations_fail ex_sys (Cpu 101 100 [100; 102; 103] [] [700; 701] false) 104 (ex_thread INITIAL 0 (Some 1%nat) None) 1)
    as (H1 & H2 & H3); [exact ex_sinv|reflexivity..|].
  split; [done|]. split; [by apply H2|].
  apply (H3 (Cpu 101 100 [100; 102; 103] [] [700; 701] false) 102);
    [reflexivity|by vm_compute|reflexivity|simpl; set_solver|by exists (ex_thread READY 0 (Some 0%nat) None)].
Defined.

(** A timer of three ticks between those of one and six. *)
Lemma add_timer_order_witness :
  ∃ s' c', add_timer 0 702 ex_sys = Some (tt, s') ∧ cpus s' = <[0%nat := c']> (cpus ex_sys) ∧
    due 0 (timer_list c') (expires s') = [(700, 1); (702, 3); (701, 6)].
Proof.
  destruct (add_timer_order ex_sys (Cpu 101 100 [100; 102; 103] [] [700; 701] false) 702 3) as (s' & c' & H1 & H2 & _ & H3);
    [exact ex_sinv|reflexivity|repeat constructor; set_solver|simpl; set_solver|reflexivity|].
  exists s', c'. split; [done|]. split; [done|]. exact H3.
Defined.

Lemma timer_expiry_fails_witness : timer_tick_handle (λ _, mret tt) 0 ex_sys = None.
Proof.
  apply (timer_expiry_fails ex_sys (Cpu 101 100 [100; 102; 103] [] [700; 701] false) 700 [701] (λ _, mret tt));
    [exact ex_sinv|reflexivity..|]. intros x s0 y s1 H [= _ <-]. exact H.
Defined.

End Example.
