(* ===== verification/Paging.v ===== *)
(** * Page tables: [kern/memory/vmm/paging.cc], [vmm.cc]

    Three levels of tables of 512 entries with 2 MB pages.  The state holds the
    words of the tables, at their virtual addresses, and the provider the
    tables come from ([pgdir_cache]).  Reading or writing a word that belongs to
    no table, a null pointer among them, fails, as do failed assertions and
    panics ([None]).  Invalidations of the TLB have no effect here.  Error codes
    are written without their sign. *)

From S2P Require Import Prelude Types Links Buddy Pmm.

Definition PDENTRIES_COUNT : Z := 512.
Definition PGTABLE_SIZE : Z := 4096.
Definition PML4T_SIZE : Z := 512 * 2 ^ 30.
Definition PDPT_SIZE : Z := 2 ^ 30.
Definition PG_PWT : Z := 0x008.
Definition PG_PCD : Z := 0x010.

(** The address of a table: 4 KB aligned memory at the address [P2V] gives. *)
Definition table_at (t : Z) : Prop :=
  ∃ pa, t = phys_va pa ∧ 0 <= pa < PHYMEMORY_SIZE ∧ pa ≠ KERNEL_SIZE ∧ pa mod 4096 = 0.

(** ** The provider of tables *)

(** What [pgdir_entry_alloc] and [pgdir_entry_free] promise: a table that is
    handed out is none of those in use; the null pointer is [0]. *)
Class TableProvider (A : Type) := {
  alloc_table : ST A Z;
  free_table : Z → ST A unit;
  tp_inv : A → Prop;
  in_use : A → Z → Prop;
  alloc_table_law a t a' : tp_inv a → alloc_table a = Some (t, a') → t ≠ 0 →
    tp_inv a' ∧ table_at t ∧ ¬ in_use a t ∧ (∀ q, in_use a' q ↔ in_use a q ∨ q = t);
}.

(** The next [n] allocations succeed. *)
Fixpoint supplies {A} `{!TableProvider A} (n : nat) (a : A) : Prop :=
  match n with
  | O => True
  | S n => ∃ t a', alloc_table a = Some (t, a') ∧ t ≠ 0 ∧ supplies n a'
  end.

(** ** State *)

Record vm (A : Type) := Vm { words : gmap Z Z; prov : A }.
Arguments Vm {A}.
Arguments words {A}.
Arguments prov {A}.

(** An entry of the memory map of the boot loader. *)
Record mmap_entry := Mmap { addr : Z; len : Z; available : bool }.

Definition remove_flags (pde : Z) : Z := Z.shiftl (Z.shiftr pde 8) 8.

Definition pde_to_pa (pde : Z) : Z := Z.land (remove_flags pde) (bnot64 PG_PS).

(** [&table\[i\]] *)
Definition entry (table i : Z) : Z := table + 8 * i.

Definition present (pde : Z) : bool := negb (Z.land pde PG_P =? 0).

Fixpoint zero_words (t : Z) (n : nat) (m : gmap Z Z) : gmap Z Z :=
  match n with O => m | S n => <[entry t (Z.of_nat n) := 0]> (zero_words t n m) end.

(** [memmove] of [n] entries from a table to another. *)
Fixpoint copy_words (to from : Z) (n : nat) (m : gmap Z Z) : option (gmap Z Z) :=
  match n with
  | O => Some m
  | S n =>
      m' ← copy_words to from n m;
      v ← m !! entry from (Z.of_nat n);
      Some (<[entry to (Z.of_nat n) := v]> m')
  end.

Section paging.
Context {A : Type} `{!TableProvider A}.
Implicit Types s : vm A.

Abbreviation VM := (ST (vm A)).

Definition lift {B} (o : option B) : VM B := λ s, match o with Some x => Some (x, s) | None => None end.
Definition read (p : Z) : VM Z := λ s, lift (words s !! p) s.
Definition write (p v : Z) : VM unit := λ s,
  match words s !! p with Some _ => Some (tt, Vm (<[p := v]> (words s)) (prov s)) | None => None end.
Definition change_words (f : gmap Z Z → gmap Z Z) : VM unit := λ s, Some (tt, Vm (f (words s)) (prov s)).

Definition pgdir_entry_alloc : VM Z := λ s,
  match alloc_table (prov s) with Some (t, a) => Some (t, Vm (words s) a) | None => None end.
Definition pgdir_entry_free (t : Z) : VM unit := λ s,
  match free_table t (prov s) with Some (_, a) => Some (tt, Vm (words s) a) | None => None end.

Definition memset_table (t : Z) : VM unit := change_words (zero_words t (Z.to_nat (PGTABLE_SIZE / 8))).

(** ** Operations *)

(** The table the entry at [e] points to; a new one when it is absent and
    [create] is set; [None] is the null pointer. *)
Definition next_level (e : Z) (create : bool) (perm : Z) : VM (option Z) :=
  v ← read e;
  if present v then t ← lift (P2V (remove_flags v)); mret (Some t)
  else if create then
    t ← pgdir_entry_alloc;
    kassert (negb (t =? 0));;
    memset_table t;;
    pa ← lift (V2P t);
    write e (Z.lor (Z.lor (Z.lor pa PG_P) PG_U) perm);;
    mret (Some t)
  else mret None.

Definition walk_pgdir (pml4t vaddr : Z) (create : bool) (perm : Z) : VM (option Z) :=
  pdpt ← next_level (entry pml4t (P4X vaddr)) create perm;
  match pdpt with
  | None => mret None
  | Some pdpt =>
      pgdir ← next_level (entry pdpt (P3X vaddr)) create perm;
      match pgdir with
      | None => mret None
      | Some pgdir => mret (Some (entry pgdir (P2X vaddr)))
      end
  end.

(** [vmm::walk_pgdir] *)
Definition vmm_walk_pgdir (pgdir va : Z) (create : bool) : VM (option Z) := walk_pgdir pgdir va create (Z.lor PG_U PG_W).

Definition map_page (pml4 va pa perm : Z) : VM error_code_values :=
  pde ← walk_pgdir pml4 va true perm;
  match pde with
  | None => mret ERROR_MEMORY_ALLOC
  | Some pde =>
      v ← read pde;
      if present v then mret ERROR_REWRITE
      else write pde (Z.lor (Z.lor (Z.lor (Z.lor pa PG_PS) PG_P) PG_U) perm);; mret ERROR_SUCCESS
  end.

(** The loop of [map_pages]; the number of pages bounds it. *)
Fixpoint map_loop (fuel : nat) (pml4 va pa pa_end perm : Z) : VM error_code_values :=
  if (pa <? pa_end) && (pa +w PAGE_SIZE <=? pa_end) then
    match fuel with
    | O => st_fail
    | S fuel =>
        ret ← map_page pml4 va pa perm;
        if decide (ret = ERROR_SUCCESS) then map_loop fuel pml4 (va +w PAGE_SIZE) (pa +w PAGE_SIZE) pa_end perm
        else mret ret
    end
  else mret ERROR_SUCCESS.

Definition map_pages (pml4 va_start pa_start pa_end perm : Z) : VM error_code_values :=
  map_loop (Z.to_nat ((pa_end - pa_start) / PAGE_SIZE)) pml4 va_start pa_start pa_end perm.

Definition map_range (pgdir va_start pa_start len : Z) : VM error_code_values :=
  let va := PAGE_ROUNDDOWN va_start in
  let pa := PAGE_ROUNDDOWN pa_start in
  map_pages pgdir va pa (PAGE_ROUNDUP (pa +w len)) (Z.lor PG_W PG_U).

(** The loops over [addr <= last] in steps of a size. *)
Fixpoint for_range (fuel : nat) (step last a : Z) (body : Z → VM unit) : VM unit :=
  if a <=? last then
    match fuel with
    | O => st_fail
    | S fuel => body a;; for_range fuel step last (a +w step) body
    end
  else mret tt.

Definition range_fuel (step first last : Z) : nat := Z.to_nat ((last - first) / step + 1).

(** One page of [unmap_range]; a null entry is dereferenced. *)
Definition unmap_one (pgdir a : Z) : VM unit :=
  pte ← walk_pgdir pgdir a false 0;
  match pte with
  | None => st_fail
  | Some pte => v ← read pte; if present v then write pte 0 else mret tt
  end.

Definition unmap_range (pgdir start last : Z) : VM unit :=
  kassert ((start mod PAGE_SIZE =? 0) && (last mod PAGE_SIZE =? 0));;
  kassert (VALID_USER_REGION start last);;
  for_range (range_fuel PAGE_SIZE start last) PAGE_SIZE last start (unmap_one pgdir).

Definition do_free_range_pgdir (pdpte : Z) : VM unit :=
  v ← read pdpte;
  pgdir ← lift (P2V (remove_flags v));
  write pgdir 0;;
  pgdir_entry_free pgdir.

Definition do_free_range_pdpt (pml4e st ed : Z) : VM unit :=
  v ← read pml4e;
  pdpt ← lift (P2V (remove_flags v));
  for_range (range_fuel PDPT_SIZE st ed) PDPT_SIZE ed st (λ a,
    let pdpte := entry pdpt (P3X a) in
    do_free_range_pgdir pdpte;;
    write pdpte 0;;
    pgdir_entry_free pdpte).

Definition do_free_range_pml4t (pml4t st ed : Z) : VM unit :=
  for_range (range_fuel PML4T_SIZE st ed) PML4T_SIZE ed st (λ a,
    let pml4e := entry pml4t (P4X a) in
    v ← read pml4e;
    if present v then
      do_free_range_pdpt pml4e st ed;;
      write pml4e 0;;
      pgdir_entry_free pml4e
    else mret tt).

Definition free_range (pml4t start last : Z) : VM unit :=
  kassert ((start mod PAGE_SIZE =? 0) && (last mod PAGE_SIZE =? 0));;
  kassert (VALID_USER_REGION start last);;
  do_free_range_pml4t pml4t start last.

Definition duplicate_kernel_pml4t (g_kpml4t pml4t : Z) : VM unit := λ s,
  match copy_words pml4t g_kpml4t (Z.to_nat (PGTABLE_SIZE / 8)) (words s) with
  | Some m => Some (tt, Vm m (prov s))
  | None => None
  end.

(** [init_vmm] after [pgdir_cache_init]: the kernel's own top-level table. *)
Definition init_vmm : VM Z := t ← pgdir_entry_alloc; (if t =? 0 then st_fail else memset_table t);; mret t.

(** [address_space::initialize] *)
Definition initialize (g_kpml4t : Z) : VM (option Z) :=
  t ← pgdir_entry_alloc;
  if t =? 0 then mret None else duplicate_kernel_pml4t g_kpml4t t;; mret (Some t).

Definition default_perm : Z := Z.lor PG_W PG_U.

Definition is_sorted (es : list mmap_entry) : bool :=
  match es with
  | [] => true
  | e :: es => fst (fold_left (λ '(ok, last) x, (ok && negb (addr x <? last), addr x)) es (true, addr e))
  end.

Definition max_pa (es : list mmap_entry) : Z :=
  fold_left (λ m e, Z.max m (Z.min (addr e +w len e) PHYMEMORY_SIZE)) es 0.

Definition init_map (g_kpml4t va last : Z) : VM unit :=
  ret ← map_pages g_kpml4t va 0 last default_perm;
  if decide (ret = ERROR_MEMORY_ALLOC ∨ ret = ERROR_REWRITE) then st_fail else mret tt.

Definition mark_page (g_kpml4t x : Z) : VM unit :=
  pte ← walk_pgdir g_kpml4t x false 0;
  match pte with
  | None => st_fail
  | Some pte => v ← read pte; write pte (Z.lor v (Z.lor (Z.lor default_perm PG_PWT) PG_PCD))
  end.

(** The pages of a region that is not available become device memory. *)
Definition mark_region (g_kpml4t : Z) (e : mmap_entry) : VM unit :=
  vaddr ← lift (P2V_PHYREMAP (addr e));
  vend ← lift (P2V_PHYREMAP (addr e +w len e));
  let a := PAGE_ROUNDDOWN vaddr in
  let b := PAGE_ROUNDDOWN vend in
  for_range (range_fuel PAGE_SIZE a b) PAGE_SIZE b a (mark_page g_kpml4t).

Fixpoint mark_devices (g_kpml4t : Z) (es : list mmap_entry) : VM unit :=
  match es with
  | [] => mret tt
  | e :: es => (if available e then mret tt else mark_region g_kpml4t e);; mark_devices g_kpml4t es
  end.

Definition paging_init (g_kpml4t : Z) (es : list mmap_entry) : VM unit :=
  init_map g_kpml4t KERNEL_VIRTUALBASE KERNEL_SIZE;;
  kassert (is_sorted es);;
  init_map g_kpml4t PHYREMAP_VIRTUALBASE (max_pa es);;
  mark_devices g_kpml4t es.

(** ** What the tables say *)

(** The address of the last-level entry of an address, if the tables on the way
    exist, and the entry when it is present: what the processor finds. *)
Definition table_of (s : vm A) (e : Z) : option Z :=
  v ← words s !! e; if present v then P2V (remove_flags v) else None.

Definition leaf (s : vm A) (r va : Z) : option Z :=
  pdpt ← table_of s (entry r (P4X va));
  pgdir ← table_of s (entry pdpt (P3X va));
  Some (entry pgdir (P2X va)).

Definition mapped (s : vm A) (r va : Z) : option Z :=
  p ← leaf s r va; v ← words s !! p; if present v then Some v else None.

(** The physical address the processor translates to. *)
Definition translate (s : vm A) (r va : Z) : option Z :=
  v ← mapped s r va; Some (pde_to_pa v + va mod PAGE_SIZE).

End paging.
