(* ===== verification/PageTables.v ===== *)
(** * The invariant of the page tables

    The tables form a tree below each top-level table; only the upper half, the
    kernel's, is shared between address spaces.  The operations of [Paging] are
    described by what the tables map afterwards. *)

From S2P Require Import Prelude Types Links Buddy Pmm Paging.

(** ** Entries *)

Lemma phys_va_aligned pa : pa mod 4096 = 0 → phys_va pa mod 4096 = 0.
Proof.
  intros H. unfold phys_va, KERNEL_VIRTUALBASE, PHYREMAP_VIRTUALBASE.
  destruct (pa <? KERNEL_SIZE); rewrite Z.add_mod, H by done; done.
Qed.

Lemma table_at_aligned t : table_at t → t mod 4096 = 0.
Proof. intros (pa & -> & _ & _ & H). by apply phys_va_aligned. Qed.

Lemma entry_inj t u i j :
  table_at t → table_at u → 0 <= i < 512 → 0 <= j < 512 → entry t i = entry u j → t = u ∧ i = j.
Proof.
  intros Ht%table_at_aligned Hu%table_at_aligned Hi Hj E. unfold entry in E.
  apply Z.mod_divide in Ht as (a & ->); [|done]. apply Z.mod_divide in Hu as (b & ->); [|done]. lia.
Qed.

Lemma P4X_range va : 0 <= P4X va < 512.
Proof. by apply px_bounds. Qed.
Lemma P3X_range va : 0 <= P3X va < 512.
Proof. by apply px_bounds. Qed.
Lemma P2X_range va : 0 <= P2X va < 512.
Proof. by apply px_bounds. Qed.

Create HintDb paging.
#[export] Hint Resolve P4X_range P3X_range P2X_range : paging.

Lemma present_odd v : present v = Z.odd v.
Proof.
  unfold present. change PG_P with (Z.ones 1). rewrite Z.land_ones by done. change (2 ^ 1) with 2.
  rewrite Zmod_odd. by destruct (Z.odd v).
Qed.

Lemma odd_lor a b : Z.odd (Z.lor a b) = Z.odd a || Z.odd b.
Proof. by rewrite <- !Z.bit0_odd, Z.lor_spec. Qed.

Lemma land_low_zero a b : a mod 256 = 0 → 0 <= b < 256 → Z.land a b = 0.
Proof.
  intros Ha Hb. apply Z.bits_inj'. intros n Hn. rewrite Z.land_spec, Z.bits_0.
  destruct (Z.ltb_spec n 8).
  - rewrite <- (Z.mod_pow2_bits_low a 8 n) by done. change (2 ^ 8) with 256. by rewrite Ha, Z.bits_0.
  - rewrite (Z.bits_above_log2 b n); [apply andb_false_r|lia|].
    destruct (decide (b = 0)) as [->|]; [simpl; lia|]. apply Z.log2_lt_pow2; [lia|].
    eapply Z.lt_le_trans; [apply Hb|]. change 256 with (2 ^ 8). apply Z.pow_le_mono_r; lia.
Qed.

(** Flags are the low eight bits. *)
Lemma remove_flags_lor a b : a mod 256 = 0 → 0 <= b < 256 → remove_flags (Z.lor a b) = a.
Proof.
  intros Ha Hb. unfold remove_flags. rewrite Z.shiftr_lor.
  assert (Z.shiftr b 8 = 0) as -> by (rewrite Z.shiftr_div_pow2 by done; apply Z.div_small; by change (2 ^ 8) with 256).
  rewrite Z.lor_0_r, Z.shiftr_div_pow2, Z.shiftl_mul_pow2 by done. change (2 ^ 8) with 256.
  pose proof (Z.div_mod a 256 ltac:(done)). lia.
Qed.

Lemma lor_flags a b : 0 <= a < 256 → 0 <= b < 256 → 0 <= Z.lor a b < 256.
Proof.
  intros Ha Hb. split; [apply Z.lor_nonneg; lia|].
  destruct (decide (Z.lor a b = 0)) as [->|Hne]; [done|]. change 256 with (2 ^ 8). apply Z.log2_lt_pow2.
  - assert (0 <= Z.lor a b) by (apply Z.lor_nonneg; lia). lia.
  - rewrite Z.log2_lor by lia. apply Z.max_lub_lt.
    + destruct (decide (a = 0)) as [->|]; [done|]. apply Z.log2_lt_pow2; lia.
    + destruct (decide (b = 0)) as [->|]; [done|]. apply Z.log2_lt_pow2; lia.
Qed.

(** The entry that points to a new table. *)
Definition table_entry (pa perm : Z) : Z := Z.lor (Z.lor (Z.lor pa PG_P) PG_U) perm.

Lemma table_entry_ok t perm :
  table_at t → 0 <= perm < 256 →
  ∃ pa, V2P t = Some pa ∧ present (table_entry pa perm) = true ∧ P2V (remove_flags (table_entry pa perm)) = Some t.
Proof.
  intros (pa & -> & Hr & Hne & Hal) Hp. exists pa. split; [by apply V2P_phys_va|]. unfold table_entry. split.
  - rewrite present_odd, !odd_lor. change (Z.odd PG_P) with true. by rewrite orb_true_r.
  - rewrite <- !Z.lor_assoc, remove_flags_lor; [by apply P2V_value| |].
    + apply Z.mod_divide in Hal as (k & ->); [|done]. apply Z.mod_divide; [done|]. exists (16 * k). lia.
    + apply lor_flags; [done|]. by apply lor_flags.
Qed.

Lemma zero_words_in t n m i : 0 <= i < Z.of_nat n → zero_words t n m !! entry t i = Some 0.
Proof.
  induction n as [|n IH]; intros Hi; [lia|]. cbn [zero_words].
  destruct (decide (entry t (Z.of_nat n) = entry t i)) as [->|Hne]; [apply lookup_insert_eq|].
  rewrite lookup_insert_ne by done. apply IH. destruct (decide (i = Z.of_nat n)) as [->|]; [done|]. lia.
Qed.

Lemma zero_words_out t n m p :
  (∀ i, 0 <= i < Z.of_nat n → p ≠ entry t i) → zero_words t n m !! p = m !! p.
Proof.
  induction n as [|n IH]; intros H; [done|]. cbn [zero_words]. rewrite lookup_insert_ne.
  - apply IH. intros i Hi. apply H. lia.
  - intros E. apply (H (Z.of_nat n)); [lia|done].
Qed.

Lemma zero_words_some t n m p : is_Some (m !! p) → is_Some (zero_words t n m !! p).
Proof. intros H. induction n as [|n IH]; [done|]. cbn [zero_words]. apply lookup_insert_is_Some'. by right. Qed.

Arguments zero_words : simpl never.

(** ** The tree *)

Section tables.
Context {A : Type} `{!TableProvider A}.
Implicit Types s : vm A.

(** [K] is the kernel's top-level table, [R] all top-level tables, [L2] and [L3]
    the tables of the other levels. *)
Record tree (K : Z) (R L2 L3 : gset Z) (s : vm A) : Prop := {
  tr_prov : tp_inv (prov s);
  tr_kernel : K ∈ R;
  tr_table t : t ∈ R ∪ L2 ∪ L3 → table_at t ∧ in_use (prov s) t;
  tr_words t i : t ∈ R ∪ L2 ∪ L3 → 0 <= i < 512 → is_Some (words s !! entry t i);
  tr_disj : R ## L2 ∧ R ## L3 ∧ L2 ## L3;
  tr_top r i t : r ∈ R → 0 <= i < 512 → table_of s (entry r i) = Some t → t ∈ L2;
  tr_mid u i t : u ∈ L2 → 0 <= i < 512 → table_of s (entry u i) = Some t → t ∈ L3;
  tr_dead t i v : t ∈ R ∪ L2 → 0 <= i < 512 → words s !! entry t i = Some v → present v = true →
    is_Some (P2V (remove_flags v));
  tr_top_own r r' i j t : r ∈ R → r' ∈ R → 0 <= i < 512 → 0 <= j < 512 →
    table_of s (entry r i) = Some t → table_of s (entry r' j) = Some t → i = j ∧ (r = r' ∨ 256 <= i);
  tr_mid_own u u' i j t : u ∈ L2 → u' ∈ L2 → 0 <= i < 512 → 0 <= j < 512 →
    table_of s (entry u i) = Some t → table_of s (entry u' j) = Some t → u = u' ∧ i = j;
  tr_lower i : 0 <= i < 256 → table_of s (entry K i) = None;
}.

Definition pt_inv (K : Z) (R : gset Z) (s : vm A) : Prop := ∃ L2 L3, tree K R L2 L3 s.

Definition same_page (va va' : Z) : Prop := P4X va = P4X va' ∧ P3X va = P3X va' ∧ P2X va = P2X va'.

#[export] Instance same_page_dec va va' : Decision (same_page va va').
Proof. unfold same_page. apply _. Defined.

Lemma table_of_spec s e v : words s !! e = Some v →
  table_of s e = if present v then P2V (remove_flags v) else None.
Proof. unfold table_of. by intros ->. Qed.

Lemma leaf_top s r va : leaf s r va = match table_of s (entry r (P4X va)) with
  | Some t2 => match table_of s (entry t2 (P3X va)) with Some t3 => Some (entry t3 (P2X va)) | None => None end
  | None => None
  end.
Proof. done. Qed.

(** *** A new table *)

(** The state after the entry [i] of [u] got the new table [t]. *)
Definition grown (u i t nv : Z) (a : A) (s : vm A) : vm A :=
  Vm (<[entry u i := nv]> (zero_words t 512 (words s))) a.

Lemma pair_ne (w u j i : Z) : ¬ (w = u ∧ j = i) → w ≠ u ∨ j ≠ i.
Proof. intros H. destruct (decide (w = u)); [right|by left]. intros ->. by apply H. Qed.

Lemma in_all_1 (R L2 L3 : gset Z) t : t ∈ R → t ∈ R ∪ L2 ∪ L3.
Proof. intros H. by do 2 apply elem_of_union_l. Qed.
Lemma in_all_2 (R L2 L3 : gset Z) t : t ∈ L2 → t ∈ R ∪ L2 ∪ L3.
Proof. intros H. apply elem_of_union_l. by apply elem_of_union_r. Qed.
Lemma in_all_3 (R L2 L3 : gset Z) t : t ∈ L3 → t ∈ R ∪ L2 ∪ L3.
Proof. intros H. by apply elem_of_union_r. Qed.
Lemma in_all_12 (R L2 L3 : gset Z) t : t ∈ R ∪ L2 → t ∈ R ∪ L2 ∪ L3.
Proof. intros H. by apply elem_of_union_l. Qed.
Hint Resolve in_all_1 in_all_2 in_all_3 in_all_12 : paging.

Section grown.
Context (K : Z) (R L2 L3 : gset Z) (s : vm A) (Ht : tree K R L2 L3 s).
Context (u i t nv : Z) (a : A).
Context (Hu : u ∈ R ∪ L2) (Hi : 0 <= i < 512) (Habs : table_of s (entry u i) = None).
Context (Hal : alloc_table (prov s) = Some (t, a)) (Hn0 : t ≠ 0).
Context (Hnv : present nv = true) (Hpv : P2V (remove_flags nv) = Some t).
Abbreviation s' := (grown u i t nv a s).

Lemma grown_fresh : tp_inv a ∧ table_at t ∧ (t ∉ R ∪ L2 ∪ L3) ∧ ∀ q, in_use a q ↔ in_use (prov s) q ∨ q = t.
Proof.
  destruct (alloc_table_law _ _ _ (tr_prov _ _ _ _ _ Ht) Hal Hn0) as (H1 & H2 & H3 & H4). split; [done|]. split; [done|].
  split; [|done]. intros H%(tr_table _ _ _ _ _ Ht). tauto.
Qed.

Lemma grown_old w j :
  w ∈ R ∪ L2 ∪ L3 → 0 <= j < 512 → (w ≠ u ∨ j ≠ i) → words s' !! entry w j = words s !! entry w j.
Proof.
  intros Hw Hj Hne. destruct grown_fresh as (_ & Hta & Hf & _).
  destruct (tr_table _ _ _ _ _ Ht w Hw) as (Hwt & _).
  destruct (tr_table _ _ _ _ _ Ht u) as (Hut & _); [by apply in_all_12|].
  cbn [words grown]. rewrite lookup_insert_ne.
  - apply zero_words_out. intros k Hk E. apply entry_inj in E as (-> & _); [done..|lia].
  - intros E. apply entry_inj in E as (-> & ->); [|done..]. by destruct Hne.
Qed.

Lemma grown_new j : 0 <= j < 512 → words s' !! entry t j = Some 0.
Proof.
  intros Hj. destruct grown_fresh as (_ & Hta & Hf & _). destruct (tr_table _ _ _ _ _ Ht u) as (Hut & _); [by apply in_all_12|].
  cbn [words grown]. rewrite lookup_insert_ne; [by apply zero_words_in|].
  intros E. apply entry_inj in E as (-> & _); [by apply Hf, in_all_12|done..].
Qed.

Lemma grown_at : table_of s' (entry u i) = Some t.
Proof. unfold table_of. cbn [words grown]. rewrite lookup_insert_eq. simpl. by rewrite Hnv. Qed.

Lemma grown_table_old w j :
  w ∈ R ∪ L2 ∪ L3 → 0 <= j < 512 → (w ≠ u ∨ j ≠ i) → table_of s' (entry w j) = table_of s (entry w j).
Proof. intros Hw Hj Hne. unfold table_of. by rewrite grown_old. Qed.

Lemma grown_table_new j : 0 <= j < 512 → table_of s' (entry t j) = None.
Proof. intros Hj. unfold table_of. by rewrite grown_new. Qed.

(** A pointer out of an old or new table of the first two levels. *)
Lemma grown_table_inv w j x :
  (w ∈ R ∪ L2 ∨ w = t) → 0 <= j < 512 → table_of s' (entry w j) = Some x →
  w ∈ R ∪ L2 ∧ (w = u ∧ j = i ∧ x = t ∨ (w ≠ u ∨ j ≠ i) ∧ table_of s (entry w j) = Some x).
Proof.
  intros [Hw| ->] Hj Hx; [|by rewrite grown_table_new in Hx]. split; [done|].
  destruct (decide (w = u ∧ j = i)) as [(-> & ->)|Hne].
  - left. rewrite grown_at in Hx. by injection Hx as <-.
  - apply pair_ne in Hne. right. split; [done|]. rewrite grown_table_old in Hx; [done|by apply in_all_12|done|done].
Qed.

Lemma grown_dead w j v :
  w ∈ R ∪ L2 ∨ w = t → 0 <= j < 512 → words s' !! entry w j = Some v → present v = true → is_Some (P2V (remove_flags v)).
Proof.
  intros [Hw| ->] Hj Hv Hp.
  - destruct (decide (w = u ∧ j = i)) as [(-> & ->)|Hne].
    + cbn [words grown] in Hv. rewrite lookup_insert_eq in Hv. injection Hv as <-. by eexists.
    + rewrite grown_old in Hv; [by apply (tr_dead _ _ _ _ _ Ht w j)|by apply in_all_12|done|by apply pair_ne].
  - rewrite grown_new in Hv by done. by injection Hv as <-.
Qed.

Lemma grown_words w j : w ∈ R ∪ L2 ∪ L3 ∨ w = t → 0 <= j < 512 → is_Some (words s' !! entry w j).
Proof.
  intros [Hw| ->] Hj; [|by rewrite grown_new]. destruct (decide (w = u ∧ j = i)) as [(-> & ->)|Hne].
  - cbn [words grown]. by rewrite lookup_insert_eq.
  - rewrite grown_old; [by apply (tr_words _ _ _ _ _ Ht)|done|done|by apply pair_ne].
Qed.

Lemma grown_all (S : gset Z) : (∀ w, w ∈ S ↔ w ∈ R ∪ L2 ∪ L3 ∨ w = t) →
  ∀ w, w ∈ S → table_at w ∧ in_use a w.
Proof.
  intros HS w Hw. destruct grown_fresh as (_ & Hta & _ & Hin). apply HS in Hw as [Hw| ->].
  - destruct (tr_table _ _ _ _ _ Ht w Hw). split; [done|]. apply Hin. by left.
  - split; [done|]. apply Hin. by right.
Qed.

(** A table below a top-level entry. *)
Lemma grown_top : u ∈ R → (u = K → 256 <= i) → tree K R ({[t]} ∪ L2) L3 s'.
Proof.
  intros HuR HuK. destruct grown_fresh as (Htp & Hta & Hf & Hin). destruct (tr_disj _ _ _ _ _ Ht) as (D1 & D2 & D3).
  assert ((t ∉ R) ∧ (t ∉ L2) ∧ (t ∉ L3)) as (F1 & F2 & F3) by (rewrite !not_elem_of_union in Hf; tauto).
  assert (∀ w, w ∈ R ∪ ({[t]} ∪ L2) ∪ L3 ↔ w ∈ R ∪ L2 ∪ L3 ∨ w = t) as HS.
  { intros w. rewrite !elem_of_union, elem_of_singleton. tauto. }
  assert (∀ w, w ∈ R ∪ ({[t]} ∪ L2) → w ∈ R ∪ L2 ∨ w = t) as HS2.
  { intros w. rewrite !elem_of_union, elem_of_singleton. tauto. }
  assert (∀ r j x, r ∈ R → 0 <= j < 512 → table_of s (entry r j) = Some x → x ≠ t) as Hxt.
  { intros r j x Hr Hj Hx ->. by apply F2, (tr_top _ _ _ _ _ Ht r j). }
  split; [done|apply Ht|exact (grown_all _ HS)| | | | | | | |].
  - intros w j Hw%HS. by apply grown_words.
  - split; [|split; [done|]]; rewrite disjoint_union_r || rewrite disjoint_union_l; (split; [|done]);
      [apply disjoint_singleton_r|apply disjoint_singleton_l]; done.
  - intros r j x Hr Hj Hx. apply grown_table_inv in Hx as (_ & [(_ & _ & ->)|(_ & Hx)]); [|by apply elem_of_union_r, (tr_top _ _ _ _ _ Ht r j)|left; by apply elem_of_union_l|done].
    apply elem_of_union_l. by apply elem_of_singleton.
  - intros w j x Hw Hj Hx. apply elem_of_union in Hw as [->%elem_of_singleton|Hw]; [by rewrite grown_table_new in Hx|].
    apply grown_table_inv in Hx as (_ & [(-> & _)|(_ & Hx)]); [by destruct (D1 u)|by apply (tr_mid _ _ _ _ _ Ht w j)|left; by apply elem_of_union_r|done].
  - intros w j v Hw%HS2. by apply grown_dead.
  - intros r r' j k x Hr Hr' Hj Hk Hx Hx'.
    apply grown_table_inv in Hx as (_ & [(-> & -> & ->)|(_ & Hx)]); [| |left; by apply elem_of_union_l|done];
    apply grown_table_inv in Hx' as (_ & [(-> & -> & E)|(_ & Hx')]); try (left; by apply elem_of_union_l); try done; subst.
    + split; [done|by left].
    + by apply Hxt in Hx'.
    + by apply Hxt in Hx.
    + by apply (tr_top_own _ _ _ _ _ Ht r r' j k x).
  - intros w w' j k x Hw Hw' Hj Hk Hx Hx'.
    apply elem_of_union in Hw as [->%elem_of_singleton|Hw]; [by rewrite grown_table_new in Hx|].
    apply elem_of_union in Hw' as [->%elem_of_singleton|Hw']; [by rewrite grown_table_new in Hx'|].
    rewrite grown_table_old in Hx; [|by apply in_all_2|done|left; intros ->; by destruct (D1 u)].
    rewrite grown_table_old in Hx'; [|by apply in_all_2|done|left; intros ->; by destruct (D1 u)].
    by apply (tr_mid_own _ _ _ _ _ Ht w w' j k x).
  - intros j Hj. rewrite grown_table_old; [by apply (tr_lower _ _ _ _ _ Ht)|apply in_all_1, Ht|lia|].
    destruct (decide (u = K)) as [E|]; [right; specialize (HuK E); lia|left; congruence].
Qed.

(** A table below an entry of the second level. *)
Lemma grown_mid : u ∈ L2 → tree K R L2 ({[t]} ∪ L3) s'.
Proof.
  intros HuL. destruct grown_fresh as (Htp & Hta & Hf & Hin). destruct (tr_disj _ _ _ _ _ Ht) as (D1 & D2 & D3).
  assert ((t ∉ R) ∧ (t ∉ L2) ∧ (t ∉ L3)) as (F1 & F2 & F3) by (rewrite !not_elem_of_union in Hf; tauto).
  assert (∀ w, w ∈ R ∪ L2 ∪ ({[t]} ∪ L3) ↔ w ∈ R ∪ L2 ∪ L3 ∨ w = t) as HS.
  { intros w. rewrite !elem_of_union, elem_of_singleton. tauto. }
  assert (∀ r j, r ∈ R → 0 <= j < 512 → table_of s' (entry r j) = table_of s (entry r j)) as Htop.
  { intros r j Hr Hj. apply grown_table_old; [by apply in_all_1|done|]. left. intros ->. by destruct (D1 u). }
  split; [done|apply Ht|exact (grown_all _ HS)| | | | | | | |].
  - intros w j Hw%HS. by apply grown_words.
  - split; [done|]. split; rewrite disjoint_union_r; (split; [|done]); by apply disjoint_singleton_r.
  - intros r j x Hr Hj. rewrite Htop by done. by apply (tr_top _ _ _ _ _ Ht).
  - intros w j x Hw Hj Hx. apply grown_table_inv in Hx as (_ & [(_ & _ & ->)|(_ & Hx)]);
      [apply elem_of_union_l; by apply elem_of_singleton|by apply elem_of_union_r, (tr_mid _ _ _ _ _ Ht w j)|left; by apply elem_of_union_r|done].
  - intros w j v Hw. apply grown_dead. by left.
  - intros r r' j k x Hr Hr' Hj Hk. rewrite !Htop by done. by apply (tr_top_own _ _ _ _ _ Ht).
  - intros w w' j k x Hw Hw' Hj Hk Hx Hx'.
    assert (∀ w0 j0 x0, w0 ∈ L2 → 0 <= j0 < 512 → table_of s (entry w0 j0) = Some x0 → x0 ≠ t) as Hxt.
    { intros w0 j0 x0 Hw0 Hj0 Hx0 ->. by apply F3, (tr_mid _ _ _ _ _ Ht w0 j0). }
    apply grown_table_inv in Hx as (_ & [(-> & -> & ->)|(_ & Hx)]); [| |left; by apply elem_of_union_r|done];
    apply grown_table_inv in Hx' as (_ & [(-> & -> & E)|(_ & Hx')]); try (left; by apply elem_of_union_r); try done; subst.
    + by apply Hxt in Hx'.
    + by apply Hxt in Hx.
    + by apply (tr_mid_own _ _ _ _ _ Ht w w' j k x).
  - intros j Hj. rewrite Htop; [by apply (tr_lower _ _ _ _ _ Ht)|apply Ht|lia].
Qed.

(** New tables are empty: nothing is mapped or unmapped. *)
Lemma grown_mapped_top r va : u ∈ R → r ∈ R → mapped s' r va = mapped s r va.
Proof.
  intros HuR Hr. destruct (tr_disj _ _ _ _ _ Ht) as (D1 & D2 & D3). unfold mapped, leaf.
  destruct (decide (r = u ∧ P4X va = i)) as [(-> & ->)|Hne%pair_ne].
  - rewrite grown_at, Habs. cbn [mbind option_bind]. rewrite grown_table_new by auto with paging. done.
  - rewrite grown_table_old; [|by apply in_all_1|auto with paging|done].
    destruct (table_of s (entry r (P4X va))) as [t2|] eqn:E2; [cbn [mbind option_bind]|done].
    apply (tr_top _ _ _ _ _ Ht) in E2; [|done|auto with paging].
    rewrite grown_table_old; [|by apply in_all_2|auto with paging|left; intros ->; by destruct (D1 u)].
    destruct (table_of s (entry t2 (P3X va))) as [t3|] eqn:E3; [cbn [mbind option_bind]|done].
    apply (tr_mid _ _ _ _ _ Ht) in E3; [|done|auto with paging].
    rewrite grown_old; [done|by apply in_all_3|auto with paging|left; intros ->; by destruct (D2 u)].
Qed.

Lemma grown_mapped_mid r va : u ∈ L2 → r ∈ R → mapped s' r va = mapped s r va.
Proof.
  intros HuL Hr. destruct (tr_disj _ _ _ _ _ Ht) as (D1 & D2 & D3). unfold mapped, leaf.
  rewrite grown_table_old; [|by apply in_all_1|auto with paging|left; intros ->; by destruct (D1 u)].
  destruct (table_of s (entry r (P4X va))) as [t2|] eqn:E2; [cbn [mbind option_bind]|done].
  apply (tr_top _ _ _ _ _ Ht) in E2; [|done|auto with paging].
  destruct (decide (t2 = u ∧ P3X va = i)) as [(-> & ->)|Hne%pair_ne].
  - rewrite grown_at, Habs. cbn [mbind option_bind]. rewrite grown_new by auto with paging. done.
  - rewrite grown_table_old; [|by apply in_all_2|auto with paging|done].
    destruct (table_of s (entry t2 (P3X va))) as [t3|] eqn:E3; [cbn [mbind option_bind]|done].
    apply (tr_mid _ _ _ _ _ Ht) in E3; [|done|auto with paging].
    rewrite grown_old; [done|by apply in_all_3|auto with paging|left; intros ->; by destruct (D3 u)].
Qed.

Lemma grown_leaf_top r va p : u ∈ R → r ∈ R → leaf s' r va = Some p → leaf s r va = Some p.
Proof.
  intros HuR Hr. destruct (tr_disj _ _ _ _ _ Ht) as (D1 & D2 & D3). rewrite !leaf_top.
  destruct (decide (r = u ∧ P4X va = i)) as [(-> & ->)|Hne%pair_ne].
  - rewrite grown_at, Habs. by rewrite grown_table_new by auto with paging.
  - rewrite grown_table_old; [|by apply in_all_1|auto with paging|done].
    destruct (table_of s (entry r (P4X va))) as [t2|] eqn:E2; [|done].
    apply (tr_top _ _ _ _ _ Ht) in E2; [|done|auto with paging].
    rewrite grown_table_old; [done|by apply in_all_2|auto with paging|left; intros ->; by destruct (D1 u)].
Qed.

Lemma grown_leaf_mid r va p : u ∈ L2 → r ∈ R → leaf s' r va = Some p →
  leaf s r va = Some p ∨ table_of s (entry r (P4X va)) = Some u ∧ P3X va = i.
Proof.
  intros HuL Hr. destruct (tr_disj _ _ _ _ _ Ht) as (D1 & D2 & D3). rewrite !leaf_top.
  rewrite grown_table_old; [|by apply in_all_1|auto with paging|left; intros ->; by destruct (D1 u)].
  destruct (table_of s (entry r (P4X va))) as [t2|] eqn:E2; [|done].
  apply (tr_top _ _ _ _ _ Ht) in E2; [|done|auto with paging].
  destruct (decide (t2 = u ∧ P3X va = i)) as [(-> & ->)|Hne%pair_ne]; [by right|].
  rewrite grown_table_old; [by left|by apply in_all_2|auto with paging|done].
Qed.

End grown.

(** *** Walking *)

Lemma supplies_S n (a : A) : supplies (S n) a → supplies n a.
Proof.
  revert a. induction n as [|n IH]; intros a; [done|]. intros (t & a' & E & Ht & H).
  exists t, a'. split; [done|]. split; [done|]. by apply IH.
Qed.

Lemma next_level_has s e create perm t : table_of s e = Some t → next_level e create perm s = Some (Some t, s).
Proof.
  unfold table_of, next_level, read, lift, mbind, ST_bind. destruct (words s !! e) as [v|]; [|done]. cbn [mbind option_bind].
  destruct (present v); [|done]. by intros ->.
Qed.

Lemma next_level_absent s e v perm : words s !! e = Some v → present v = false → next_level e false perm s = Some (None, s).
Proof. intros Hv Hp. unfold next_level, read, lift, mbind, ST_bind. by rewrite Hv, Hp. Qed.

Lemma next_level_new s u i v t a pa perm :
  words s !! entry u i = Some v → present v = false → alloc_table (prov s) = Some (t, a) → t ≠ 0 → V2P t = Some pa →
  next_level (entry u i) true perm s = Some (Some t, grown u i t (table_entry pa perm) a s).
Proof.
  intros Hv Hp Ha Hn Hpa. unfold next_level, read, lift, pgdir_entry_alloc, kassert, memset_table, change_words, write, mbind, ST_bind.
  rewrite Hv, Hp, Ha, (proj2 (Z.eqb_neq t 0) Hn), Hpa. cbn [words prov negb].
  change (Z.to_nat (PGTABLE_SIZE / 8)) with 512%nat.
  destruct (zero_words_some t 512 (words s) (entry u i)) as (w & ->); [by rewrite Hv|done].
Qed.

Section walk.
Context (K : Z) (R : gset Z).

(** An entry of the first two levels that leads nowhere is not present. *)
Lemma absent_level L2 L3 s t i :
  tree K R L2 L3 s → t ∈ R ∪ L2 → 0 <= i < 512 → table_of s (entry t i) = None →
  ∃ v, words s !! entry t i = Some v ∧ present v = false.
Proof.
  intros Ht Hin Hi Hn. destruct (tr_words _ _ _ _ _ Ht t i) as (v & Hv); [by apply in_all_12|done|].
  exists v. split; [done|]. destruct (present v) eqn:Hp; [|done].
  destruct (tr_dead _ _ _ _ _ Ht t i v) as (x & Hx); [done..|]. rewrite (table_of_spec s _ v Hv), Hp in Hn. congruence.
Qed.

Lemma top_level L2 L3 s r i perm n :
  tree K R L2 L3 s → r ∈ R → 0 <= i < 512 → (r = K → 256 <= i) → 0 <= perm < 256 → supplies (S n) (prov s) →
  ∃ t s' L2', next_level (entry r i) true perm s = Some (Some t, s') ∧ tree K R L2' L3 s' ∧
    table_of s' (entry r i) = Some t ∧ (∀ r' va, r' ∈ R → mapped s' r' va = mapped s r' va) ∧
    (∀ r' va p, r' ∈ R → leaf s' r' va = Some p → leaf s r' va = Some p) ∧ supplies n (prov s').
Proof.
  intros Ht Hr Hi HK Hp Hs. destruct (table_of s (entry r i)) as [t|] eqn:E.
  { exists t, s, L2. split; [by apply next_level_has|]. do 4 (split; [done|]). by apply supplies_S. }
  assert (r ∈ R ∪ L2) as Hr2 by by apply elem_of_union_l.
  destruct (absent_level L2 L3 s r i Ht Hr2 Hi E) as (v & Hv & Hpv). destruct Hs as (t & a & Ha & Hn & Hs).
  destruct (alloc_table_law _ _ _ (tr_prov _ _ _ _ _ Ht) Ha Hn) as (_ & Hta & _).
  destruct (table_entry_ok t perm Hta Hp) as (pa & Hpa & Hpr & Hrf).
  eexists t, _, _. split; [by eapply next_level_new|].
  split; [eapply grown_top; try done|]. split; [by apply grown_at|]. split; [|split; [|done]].
  - intros r' va Hr'. by eapply grown_mapped_top.
  - intros r' va p Hr'. by eapply grown_leaf_top.
Qed.

Lemma mid_level L2 L3 s u i perm n :
  tree K R L2 L3 s → u ∈ L2 → 0 <= i < 512 → 0 <= perm < 256 → supplies (S n) (prov s) →
  ∃ t s' L3', next_level (entry u i) true perm s = Some (Some t, s') ∧ tree K R L2 L3' s' ∧
    table_of s' (entry u i) = Some t ∧ (∀ r j, r ∈ R → 0 <= j < 512 → table_of s' (entry r j) = table_of s (entry r j)) ∧
    (∀ r' va, r' ∈ R → mapped s' r' va = mapped s r' va) ∧
    (∀ r' va p, r' ∈ R → leaf s' r' va = Some p →
      leaf s r' va = Some p ∨ table_of s (entry r' (P4X va)) = Some u ∧ P3X va = i) ∧ supplies n (prov s').
Proof.
  intros Ht Hu Hi Hp Hs. destruct (table_of s (entry u i)) as [t|] eqn:E.
  { exists t, s, L3. split; [by apply next_level_has|]. do 4 (split; [done|]). split; [by left|]. by apply supplies_S. }
  assert (u ∈ R ∪ L2) as Hu2 by by apply elem_of_union_r.
  destruct (absent_level L2 L3 s u i Ht Hu2 Hi E) as (v & Hv & Hpv). destruct Hs as (t & a & Ha & Hn & Hs).
  destruct (alloc_table_law _ _ _ (tr_prov _ _ _ _ _ Ht) Ha Hn) as (_ & Hta & _).
  destruct (table_entry_ok t perm Hta Hp) as (pa & Hpa & Hpr & Hrf).
  destruct (tr_disj _ _ _ _ _ Ht) as (D1 & _).
  eexists t, _, _. split; [by eapply next_level_new|]. split; [eapply grown_mid; try done|].
  split; [by apply grown_at|]. split; [|split; [|split; [|done]]].
  - intros r j Hr Hj. eapply grown_table_old; try done; [by apply in_all_1|]. left. intros ->. by destruct (D1 u).
  - intros r' va Hr'. by eapply grown_mapped_mid.
  - intros r' va p Hr'. by eapply grown_leaf_mid.
Qed.

(** Walking with [create] finds or makes the tables on the way. *)
Lemma walk_create s r va perm n :
  pt_inv K R s → r ∈ R → (r = K → 256 <= P4X va) → 0 <= perm < 256 → supplies (2 + n) (prov s) →
  ∃ p s', walk_pgdir r va true perm s = Some (Some p, s') ∧ pt_inv K R s' ∧ leaf s' r va = Some p ∧
    (∀ r' va', r' ∈ R → mapped s' r' va' = mapped s r' va') ∧
    (∀ r' va', r' ∈ R → is_Some (leaf s' r' va') → is_Some (leaf s r' va') ∨ P4X va' = P4X va ∧ P3X va' = P3X va) ∧
    supplies n (prov s').
Proof.
  intros (L2 & L3 & Ht) Hr HK Hp Hs.
  destruct (top_level L2 L3 s r (P4X va) perm (S n) Ht Hr) as (t2 & s1 & L2' & H1 & Ht1 & E1 & M1 & F1 & Hs1); auto with paging.
  pose proof (tr_top _ _ _ _ _ Ht1 r _ t2 Hr (P4X_range va) E1) as Hu.
  destruct (mid_level L2' L3 s1 t2 (P3X va) perm n Ht1 Hu) as (t3 & s2 & L3' & H2 & Ht2 & E2 & T2 & M2 & F2 & Hs2); auto with paging.
  exists (entry t3 (P2X va)), s2. split; [|split; [by exists L2', L3'|split; [|split; [|split; [|done]]]]].
  - unfold walk_pgdir. run with H1. cbv beta iota. by run with H2.
  - unfold leaf. rewrite T2, E1 by auto with paging. cbn [mbind option_bind]. by rewrite E2.
  - intros r' va' Hr'. by rewrite M2, M1.
  - intros r' va' Hr' (p & [Hl|(Hl & E)]%F2); [|by right; split; [apply (tr_top_own _ _ _ _ _ Ht1 r' r _ _ t2)|]; auto with paging|done].
    left. exists p. by apply F1.
Qed.

(** Walking without it is a lookup. *)
Lemma walk_find s r va perm : pt_inv K R s → r ∈ R → walk_pgdir r va false perm s = Some (leaf s r va, s).
Proof.
  intros (L2 & L3 & Ht) Hr. unfold walk_pgdir. rewrite leaf_top.
  destruct (table_of s (entry r (P4X va))) as [t2|] eqn:E1.
  2:{ destruct (absent_level L2 L3 s r (P4X va) Ht) as (v & Hv & Hp); [by apply elem_of_union_l|auto with paging|done|].
      by run with (next_level_absent s _ v perm Hv Hp). }
  pose proof (tr_top _ _ _ _ _ Ht r _ t2 Hr (P4X_range va) E1) as Hu. run with (next_level_has s _ false perm t2 E1). cbv beta iota.
  destruct (table_of s (entry t2 (P3X va))) as [t3|] eqn:E2.
  2:{ destruct (absent_level L2 L3 s t2 (P3X va) Ht) as (v & Hv & Hp); [by apply elem_of_union_r|auto with paging|done|].
      by run with (next_level_absent s _ v perm Hv Hp). }
  by run with (next_level_has s _ false perm t3 E2).
Qed.

(** *** Writing last-level entries *)

Lemma leaf_inv L2 L3 s r va p :
  tree K R L2 L3 s → r ∈ R → leaf s r va = Some p →
  ∃ t2 t3, t2 ∈ L2 ∧ t3 ∈ L3 ∧ table_of s (entry r (P4X va)) = Some t2 ∧ table_of s (entry t2 (P3X va)) = Some t3 ∧
    p = entry t3 (P2X va).
Proof.
  intros Ht Hr. rewrite leaf_top. destruct (table_of s (entry r (P4X va))) as [t2|] eqn:E1; [|done].
  pose proof (tr_top _ _ _ _ _ Ht r _ t2 Hr (P4X_range va) E1) as H2.
  destruct (table_of s (entry t2 (P3X va))) as [t3|] eqn:E2; [|done]. intros [= <-].
  exists t2, t3. split; [done|]. split; [by apply (tr_mid _ _ _ _ _ Ht t2 _ t3 H2 (P3X_range va))|done].
Qed.

(** Only one page of one address space, or of the kernel, has an entry. *)
Lemma leaf_inj s r va r' va' p :
  pt_inv K R s → r ∈ R → r' ∈ R → leaf s r va = Some p → leaf s r' va' = Some p →
  same_page va va' ∧ (r = r' ∨ 256 <= P4X va).
Proof.
  intros (L2 & L3 & Ht) Hr Hr' H H'.
  destruct (leaf_inv L2 L3 s r va p Ht Hr H) as (t2 & t3 & I2 & I3 & E2 & E3 & ->).
  destruct (leaf_inv L2 L3 s r' va' _ Ht Hr' H') as (u2 & u3 & J2 & J3 & F2 & F3 & E).
  destruct (tr_table _ _ _ _ _ Ht t3 (in_all_3 _ _ _ _ I3)) as (Ht3 & _).
  destruct (tr_table _ _ _ _ _ Ht u3 (in_all_3 _ _ _ _ J3)) as (Hu3 & _).
  apply entry_inj in E as (<- & EP2); auto with paging.
  destruct (tr_mid_own _ _ _ _ _ Ht t2 u2 (P3X va) (P3X va') t3) as (<- & EP3); auto with paging.
  destruct (tr_top_own _ _ _ _ _ Ht r r' (P4X va) (P4X va') t2) as (EP4 & Hor); auto with paging.
  by split.
Qed.

(** [leaf] is a function of the page. *)
Lemma leaf_page s r va va' : same_page va va' → leaf s r va = leaf s r va'.
Proof. intros (E4 & E3 & E2). rewrite !leaf_top, E4. destruct (table_of _ _); [|done]. by rewrite E3, E2. Qed.

Lemma leaf_word s r va p : pt_inv K R s → r ∈ R → leaf s r va = Some p → ∃ v, words s !! p = Some v.
Proof.
  intros (L2 & L3 & Ht) Hr H. destruct (leaf_inv L2 L3 s r va p Ht Hr H) as (t2 & t3 & _ & I3 & _ & _ & ->).
  apply (tr_words _ _ _ _ _ Ht); auto with paging.
Qed.

Lemma mapped_leaf s r va p v :
  leaf s r va = Some p → words s !! p = Some v → mapped s r va = if present v then Some v else None.
Proof. intros H Hv. unfold mapped. rewrite H. cbn [mbind option_bind]. by rewrite Hv. Qed.

(** The state after writing an entry. *)
Definition written (p v : Z) (s : vm A) : vm A := Vm (<[p := v]> (words s)) (prov s).

Lemma write_leaf s r va p v :
  pt_inv K R s → r ∈ R → leaf s r va = Some p →
  write p v s = Some (tt, written p v s) ∧ pt_inv K R (written p v s) ∧
  (∀ r' va', r' ∈ R → leaf (written p v s) r' va' = leaf s r' va') ∧
  (∀ r' va', r' ∈ R → mapped (written p v s) r' va' =
    if decide (leaf s r' va' = Some p) then if present v then Some v else None else mapped s r' va').
Proof.
  intros HI Hr H. destruct (leaf_word s r va p HI Hr H) as (w & Hw). pose proof HI as (L2 & L3 & Ht).
  destruct (leaf_inv L2 L3 s r va p Ht Hr H) as (t2 & t3 & I2 & I3 & E2 & E3 & ->).
  destruct (tr_disj _ _ _ _ _ Ht) as (D1 & D2 & D3). set (s' := written (entry t3 (P2X va)) v s).
  destruct (tr_table _ _ _ _ _ Ht t3 (in_all_3 _ _ _ _ I3)) as (Ht3 & _).
  assert (∀ u i, u ∈ R ∪ L2 → 0 <= i < 512 → words s' !! entry u i = words s !! entry u i) as Hold.
  { intros u i Hu Hi. destruct (tr_table _ _ _ _ _ Ht u (in_all_12 _ _ _ _ Hu)) as (Hut & _).
    apply lookup_insert_ne. intros E. apply entry_inj in E as (<- & _); auto with paging.
    apply elem_of_union in Hu as [?|?]; [by destruct (D2 t3)|by destruct (D3 t3)]. }
  assert (∀ u i, u ∈ R ∪ L2 → 0 <= i < 512 → table_of s' (entry u i) = table_of s (entry u i)) as Htab.
  { intros u i Hu Hi. unfold table_of. by rewrite Hold. }
  assert (∀ r' va', r' ∈ R → leaf s' r' va' = leaf s r' va') as Hleaf.
  { intros r' va' Hr'. rewrite !leaf_top, Htab; [|by apply elem_of_union_l|auto with paging].
    destruct (table_of s (entry r' (P4X va'))) as [u2|] eqn:F2; [|done].
    pose proof (tr_top _ _ _ _ _ Ht r' _ u2 Hr' (P4X_range va') F2) as J2.
    rewrite Htab; [done|by apply elem_of_union_r|auto with paging]. }
  split; [unfold write; by rewrite Hw|]. split; [|split; [done|]].
  - exists L2, L3. destruct Ht. split; try done.
    + intros u i Hu Hi. apply lookup_insert_is_Some'. right. by apply tr_words0.
    + intros r' i x Hr' Hi. rewrite Htab; [by apply tr_top0|by apply elem_of_union_l|done].
    + intros u i x Hu Hi. rewrite Htab; [by apply tr_mid0|by apply elem_of_union_r|done].
    + intros u i x Hu Hi. rewrite Hold by done. by apply tr_dead0.
    + intros a b i j x Ha Hb Hi Hj. rewrite !Htab; [by apply tr_top_own0|by apply elem_of_union_l|done..|by apply elem_of_union_l|done].
    + intros a b i j x Ha Hb Hi Hj. rewrite !Htab; [by apply tr_mid_own0|by apply elem_of_union_r|done..|by apply elem_of_union_r|done].
    + intros i Hi. rewrite Htab; [by apply tr_lower0|by apply elem_of_union_l|lia].
  - intros r' va' Hr'. destruct (decide (leaf s r' va' = Some (entry t3 (P2X va)))) as [E|Hne].
    + apply (mapped_leaf s' r' va' (entry t3 (P2X va))); [by rewrite Hleaf|apply lookup_insert_eq].
    + unfold mapped. rewrite Hleaf by done. destruct (leaf s r' va') as [q|]; [|done]. cbn [mbind option_bind].
      unfold s', written. cbn [words]. rewrite lookup_insert_ne; [done|congruence].
Qed.

End walk.
End tables.
