(* ===== verification/PageOps.v ===== *)
(** * What the operations on page tables map and unmap

    One lemma per operation of [Paging], in terms of [mapped]. *)

From S2P Require Import Prelude Types Links Buddy Pmm Paging PageTables.

(** ** Page numbers *)

Definition page_no (va : Z) : Z := (va / PAGE_SIZE) mod 2 ^ 27.

Lemma page_no_split va : page_no va = P4X va * 2 ^ 18 + P3X va * 2 ^ 9 + P2X va.
Proof.
  unfold page_no, P4X, P3X, P2X. rewrite !px_spec, PAGE_SIZE_pow by lia.
  replace (va / 2 ^ 39) with (va / 2 ^ 21 / 512 / 512) by by rewrite !Z.div_div by lia.
  replace (va / 2 ^ 30) with (va / 2 ^ 21 / 512) by by rewrite Z.div_div by lia.
  set (n := va / 2 ^ 21). change (2 ^ 27) with (512 * (512 * 512)).
  rewrite Z.rem_mul_r, (Z.rem_mul_r (n / 512)) by lia. lia.
Qed.

Lemma same_page_no va va' : same_page va va' ↔ page_no va = page_no va'.
Proof.
  rewrite !page_no_split. pose proof (P3X_range va). pose proof (P3X_range va'). pose proof (P2X_range va). pose proof (P2X_range va').
  split; [intros (-> & -> & ->); done|]. intros E. unfold same_page. lia.
Qed.

#[export] Instance same_page_equiv : Equivalence same_page.
Proof.
  split; [by intros x|by intros x y H; rewrite same_page_no in *|].
  intros x y z. rewrite !same_page_no. congruence.
Qed.

(** Pages of a range are distinct. *)
Lemma range_pages va j k :
  0 <= j < 2 ^ 27 → 0 <= k < 2 ^ 27 → same_page (va + j * PAGE_SIZE) (va + k * PAGE_SIZE) → j = k.
Proof.
  intros Hj Hk. rewrite same_page_no. unfold page_no. rewrite PAGE_SIZE_pow, !Z.div_add by lia. intros E.
  apply (f_equal (λ z, (z - va / 2 ^ 21) mod 2 ^ 27)) in E.
  rewrite !Zminus_mod_idemp_l in E. rewrite !Z.add_simpl_l, !Z.mod_small in E by done. done.
Qed.

Section ops.
Context {A : Type} `{!TableProvider A} (K : Z) (R : gset Z).
Implicit Types s : vm A.

(** A user page of a process, or a kernel page while only the kernel's tables
    exist. *)
Definition target (r va : Z) : Prop :=
  r ∈ R ∧ (r ≠ K ∧ P4X va < 256 ∨ r = K ∧ R = {[K]} ∧ 256 <= P4X va).

Lemma target_kernel r va : target r va → r = K → 256 <= P4X va.
Proof. intros (_ & [(? & _)|(_ & _ & ?)]) E; done. Qed.

Lemma sole_leaf s r va p r' va' :
  pt_inv K R s → target r va → r' ∈ R → leaf s r va = Some p → leaf s r' va' = Some p ↔ r' = r ∧ same_page va va'.
Proof.
  intros HI (Hr & Htg) Hr' Hp. split.
  - intros Hp'. destruct (leaf_inj K R s r va r' va' p) as (Hs & Hor); [done..|]. split; [|done].
    destruct Htg as [(_ & ?)|(-> & -> & _)]; [destruct Hor; [done|lia]|]. by apply elem_of_singleton in Hr'.
  - intros (-> & Hs). by rewrite <- (leaf_page s r va va').
Qed.

(** [s'] maps the page of [va] in [r] to [o] and the rest as [s]. *)
Definition assigned (s s' : vm A) (r va : Z) (o : option Z) : Prop :=
  ∀ r' va', r' ∈ R → mapped s' r' va' = if decide (r' = r ∧ same_page va va') then o else mapped s r' va'.

Definition page_entry (pa perm : Z) : Z := Z.lor (Z.lor (Z.lor (Z.lor pa PG_PS) PG_P) PG_U) perm.

Lemma page_entry_present pa perm : present (page_entry pa perm) = true.
Proof.
  unfold page_entry. rewrite present_odd, !odd_lor. change (Z.odd PG_P) with true. by rewrite !orb_true_r.
Qed.

Lemma write_assigned s r va p v :
  pt_inv K R s → target r va → leaf s r va = Some p →
  write p v s = Some (tt, written p v s) ∧ pt_inv K R (written p v s) ∧
  (∀ r' va', r' ∈ R → leaf (written p v s) r' va' = leaf s r' va') ∧
  assigned s (written p v s) r va (if present v then Some v else None).
Proof.
  intros HI Htg Hp. destruct (write_leaf K R s r va p v HI (proj1 Htg) Hp) as (Hw & HI' & Hl & Hm).
  do 3 (split; [done|]). intros r' va' Hr'. rewrite Hm by done.
  pose proof (sole_leaf s r va p r' va' HI Htg Hr' Hp) as Hiff. by apply decide_ext.
Qed.

Definition same_mapped (s s' : vm A) : Prop := ∀ r va, r ∈ R → mapped s' r va = mapped s r va.

(** No new tables outside the gigabyte of [va]. *)
Definition tables_near (s s' : vm A) (va : Z) : Prop :=
  ∀ r' va', r' ∈ R → is_Some (leaf s' r' va') → is_Some (leaf s r' va') ∨ P4X va' = P4X va ∧ P3X va' = P3X va.

Lemma map_page_ok s r va pa perm n :
  pt_inv K R s → target r va → 0 <= perm < 256 → supplies (2 + n) (prov s) →
  ∃ code s', map_page r va pa perm s = Some (code, s') ∧ pt_inv K R s' ∧ supplies n (prov s') ∧ tables_near s s' va ∧
    match mapped s r va with
    | None => code = ERROR_SUCCESS ∧ assigned s s' r va (Some (page_entry pa perm))
    | Some _ => code = ERROR_REWRITE ∧ same_mapped s s'
    end.
Proof.
  intros HI Htg Hp Hs. pose proof Htg as (Hr & _).
  destruct (walk_create K R s r va perm n HI Hr (target_kernel r va Htg) Hp Hs) as (p & s1 & Hw & HI1 & Hl & Hm & Hnear & Hs1).
  destruct (leaf_word K R s1 r va p HI1 Hr Hl) as (v & Hv).
  rewrite <- (Hm r va Hr), (mapped_leaf s1 r va p v Hl Hv).
  assert (read p s1 = Some (v, s1)) as Hrd by (unfold read, lift; by rewrite Hv).
  unfold map_page. rewrite (bind_run _ _ _ _ _ Hw). cbv beta iota. rewrite (bind_run _ _ _ _ _ Hrd).
  destruct (present v) eqn:Hpr; [by exists ERROR_REWRITE, s1|].
  destruct (write_assigned s1 r va p (page_entry pa perm) HI1 Htg Hl) as (Hwr & HI2 & Hl2 & Ha).
  rewrite page_entry_present in Ha. exists ERROR_SUCCESS, (written p (page_entry pa perm) s1).
  split; [by rewrite (bind_run _ _ _ _ _ Hwr)|]. do 2 (split; [done|]). split; [|split; [done|]].
  - intros r' va' Hr' Hl'. rewrite Hl2 in Hl' by done. by apply Hnear.
  - intros r' va' Hr'. rewrite Ha by done. destruct (decide _); [done|]. by apply Hm.
Qed.

(** The pages of [\[va, va + n pages)] map to consecutive pages from [pa] on. *)
Record range_mapped (s s' : vm A) (r va pa perm n : Z) : Prop := {
  rm_in k va' : 0 <= k < n → same_page (va + k * PAGE_SIZE) va' →
    mapped s' r va' = Some (page_entry (pa + k * PAGE_SIZE) perm);
  rm_out r' va' : r' ∈ R → (r' = r → ∀ k, 0 <= k < n → ¬ same_page (va + k * PAGE_SIZE) va') →
    mapped s' r' va' = mapped s r' va';
}.

Lemma range_mapped_cons s s1 s' r va va' pa perm n :
  r ∈ R → 0 <= n → n + 1 < 2 ^ 27 → (0 < n → va' = va + PAGE_SIZE) →
  assigned s s1 r va (Some (page_entry pa perm)) → range_mapped s1 s' r va' (pa + PAGE_SIZE) perm n →
  range_mapped s s' r va pa perm (n + 1).
Proof.
  intros Hr H0 Hn Hva Ha [Hin Hout].
  assert (∀ k, 0 <= k < n → va' + k * PAGE_SIZE = va + (k + 1) * PAGE_SIZE) as Hshift by (intros k Hk; rewrite Hva by lia; lia).
  split.
  - intros k x Hk Hx. destruct (decide (k = 0)) as [->|Hk0].
    + rewrite Z.mul_0_l, Z.add_0_r in *. rewrite Hout; [|done|].
      * rewrite Ha by done. by rewrite decide_True.
      * intros _ j Hj Hj'. rewrite Hshift in Hj' by done.
        assert (0 = j + 1); [|lia]. apply (range_pages va); [lia..|]. rewrite Z.mul_0_l, Z.add_0_r. by transitivity x.
    + rewrite (Hin (k - 1)); [f_equal; f_equal; lia|lia|]. rewrite Hshift by lia. by replace (k - 1 + 1) with k by lia.
  - intros r' x Hr' Hx. rewrite Hout; [|done|].
    + rewrite Ha by done. rewrite decide_False; [done|]. intros (-> & Hs). apply (Hx eq_refl 0); [lia|]. by rewrite Z.mul_0_l, Z.add_0_r.
    + intros -> k Hk. rewrite Hshift by done. apply Hx; [done|lia].
Qed.

(** The condition of the loop says whether a page is left. *)
Lemma map_guard pa pa_end :
  0 <= pa → pa_end < 2 ^ 63 → (pa <? pa_end) && (pa +w PAGE_SIZE <=? pa_end) = (0 <? (pa_end - pa) / PAGE_SIZE).
Proof.
  intros Hpa Hend. assert (PAGE_SIZE = 2097152) as EP by done.
  pose proof (Z.mul_div_le (pa_end - pa) PAGE_SIZE ltac:(lia)). pose proof (Z.mul_succ_div_gt (pa_end - pa) PAGE_SIZE ltac:(lia)).
  destruct (Z.ltb_spec 0 ((pa_end - pa) / PAGE_SIZE)).
  - rewrite wrap64_small by (unfold is_u64; nia). apply andb_true_iff. rewrite Z.ltb_lt, Z.leb_le. nia.
  - destruct (Z.ltb_spec pa pa_end); [|done]. rewrite wrap64_small by (unfold is_u64; lia). apply Z.leb_gt. nia.
Qed.

(** Tables only appear for the pages of the range. *)
Definition tables_in (s s' : vm A) (va n : Z) : Prop :=
  ∀ r' va', r' ∈ R → is_Some (leaf s' r' va') → is_Some (leaf s r' va') ∨
    ∃ k, 0 <= k < n ∧ P4X va' = P4X (va + k * PAGE_SIZE) ∧ P3X va' = P3X (va + k * PAGE_SIZE).

Lemma map_loop_ok n m s r va pa pa_end perm :
  pt_inv K R s → r ∈ R → 0 <= perm < 256 → 0 <= pa → pa_end < 2 ^ 63 → 0 <= va →
  (pa_end - pa) / PAGE_SIZE = Z.of_nat n → va + Z.of_nat n * PAGE_SIZE <= 2 ^ 64 → Z.of_nat n < 2 ^ 27 →
  (∀ k, 0 <= k < Z.of_nat n → target r (va + k * PAGE_SIZE) ∧ mapped s r (va + k * PAGE_SIZE) = None) →
  supplies (2 * n + m) (prov s) →
  ∃ s', map_loop n r va pa pa_end perm s = Some (ERROR_SUCCESS, s') ∧ pt_inv K R s' ∧ supplies m (prov s') ∧
    range_mapped s s' r va pa perm (Z.of_nat n) ∧ tables_in s s' va (Z.of_nat n).
Proof.
  assert (PAGE_SIZE = 2097152) as EP by done.
  revert s va pa. induction n as [|n IH]; intros s va pa HI Hr Hp Hpa Hend Hva Hn Hle Hsm Hk Hs.
  { exists s. cbn [map_loop]. rewrite map_guard, Hn by done. do 3 (split; [done|]). split; [split; [lia|done]|by left]. }
  destruct (Hk 0) as (Htg & Hnone); [lia|]. rewrite Z.mul_0_l, Z.add_0_r in Htg, Hnone.
  destruct (map_page_ok s r va pa perm (2 * n + m) HI Htg Hp) as (code & s1 & H1 & HI1 & Hs1 & Hnear & Hc).
  { by replace (2 + (2 * n + m))%nat with (2 * S n + m)%nat by lia. }
  rewrite Hnone in Hc. destruct Hc as (-> & Ha).
  assert ((pa_end - (pa + PAGE_SIZE)) / PAGE_SIZE = Z.of_nat n) as Hn'.
  { replace (pa_end - (pa + PAGE_SIZE)) with (pa_end - pa + -1 * PAGE_SIZE) by lia. rewrite Z.div_add by lia. lia. }
  assert (0 < Z.of_nat n → va +w PAGE_SIZE = va + PAGE_SIZE) as Hw by (intros ?; apply wrap64_small; unfold is_u64; nia).
  pose proof (wrap64_range (va + PAGE_SIZE)) as Hwr. unfold is_u64 in Hwr.
  assert (pa +w PAGE_SIZE = pa + PAGE_SIZE) as Ew.
  { apply wrap64_small. unfold is_u64. pose proof (Z.mul_div_le (pa_end - pa) PAGE_SIZE ltac:(lia)). nia. }
  destruct (IH s1 (va +w PAGE_SIZE) (pa + PAGE_SIZE)) as (s' & H2 & HI2 & Hs2 & Hr2 & Ht2); [done..|lia|done|lia|done| |lia| |done|].
  { destruct (decide (n = 0%nat)) as [->|]; [lia|]. rewrite Hw by lia. lia. }
  { intros k Hk1. rewrite Hw by lia. replace (va + PAGE_SIZE + k * PAGE_SIZE) with (va + (k + 1) * PAGE_SIZE) by lia.
    destruct (Hk (k + 1)) as (Htk & Hnk); [lia|]. split; [done|]. rewrite Ha by done. rewrite decide_False; [done|].
    intros (_ & Hsp). assert (0 = k + 1); [|lia]. apply (range_pages va); [lia..|]. by rewrite Z.mul_0_l, Z.add_0_r. }
  exists s'. cbn [map_loop]. rewrite map_guard, Hn by done. split.
  { rewrite (proj2 (Z.ltb_lt 0 (Z.of_nat (S n)))) by lia. rewrite (bind_run _ _ _ _ _ H1), decide_True, Ew by done. done. }
  do 2 (split; [done|]). rewrite Nat2Z.inj_succ, <- Z.add_1_r. split; [by apply (range_mapped_cons s s1 s' r va (va +w PAGE_SIZE)); try lia|].
  intros r' x Hr' [Hx|(k & Hk1 & E4 & E3)]%Ht2; [|right|done].
  - destruct (Hnear r' x Hr' Hx) as [?|(E4 & E3)]; [by left|right]. exists 0. split; [lia|]. by rewrite Z.mul_0_l, Z.add_0_r.
  - exists (k + 1). rewrite Hw in E4, E3 by lia. split; [lia|]. by replace (va + (k + 1) * PAGE_SIZE) with (va + PAGE_SIZE + k * PAGE_SIZE) by lia.
Qed.

(** ** Loops over ranges *)

Lemma range_step step last a n :
  0 < step → (last - a) / step + 1 = Z.of_nat (S n) → (last - (a + step)) / step + 1 = Z.of_nat n.
Proof.
  intros H E. replace (last - (a + step)) with (last - a + -1 * step) by lia. rewrite Z.div_add by lia. lia.
Qed.

Lemma range_guard step last a n : 0 < step → (last - a) / step + 1 = Z.of_nat n → (a <=? last) = (0 <? n)%nat.
Proof.
  intros H E. pose proof (Z.mul_div_le (last - a) step H). pose proof (Z.mul_succ_div_gt (last - a) step H).
  destruct (Z.leb_spec a last), (Nat.ltb_spec 0 n); try done; nia.
Qed.

(** The loop runs its body on every step, and [P k] holds after [k] of them. *)
Lemma for_range_ok (P : nat → vm A → Prop) n step last a body s :
  0 < step → 0 <= a → last + step < 2 ^ 64 → (last - a) / step + 1 = Z.of_nat n → P 0%nat s →
  (∀ k s, (k < n)%nat → P k s → ∃ s', body (a + Z.of_nat k * step) s = Some (tt, s') ∧ P (S k) s') →
  ∃ s', for_range n step last a body s = Some (tt, s') ∧ P n s'.
Proof.
  revert P a s. induction n as [|n IH]; intros P a s Hst Ha Hl Hn H0 Hb; cbn [for_range];
    rewrite (range_guard step last a _ Hst Hn); [by exists s|].
  destruct (Hb 0%nat s) as (s1 & H1 & P1); [lia|done|]. rewrite Z.mul_0_l, Z.add_0_r in H1.
  assert (a <= last) as Hal by (apply Z.leb_le; by rewrite (range_guard step last a _ Hst Hn)).
  assert (a +w step = a + step) as Ew by (apply wrap64_small; unfold is_u64; lia).
  destruct (IH (λ k, P (S k)) (a + step) s1) as (s' & H2 & P2); [done|lia|done|by apply range_step|done| |].
  { intros k s2 Hk HP. destruct (Hb (S k) s2) as (s3 & H3 & P3); [lia|done|]. exists s3. split; [|done].
    rewrite <- H3. f_equal. lia. }
  exists s'. split; [|done]. cbn [Nat.ltb Nat.leb]. rewrite (bind_run _ _ _ _ _ H1), Ew. exact H2.
Qed.

(** A loop that completes has run its body on every step. *)
Lemma for_range_all (P : vm A → Prop) n step last a body s s' :
  for_range n step last a body s = Some (tt, s') →
  0 < step → 0 <= a → last + step < 2 ^ 64 → (last - a) / step + 1 = Z.of_nat n → P s →
  (∀ x s s', P s → body x s = Some (tt, s') → P s') →
  P s' ∧ ∀ k, 0 <= k < Z.of_nat n → ∃ s1 s2, P s1 ∧ body (a + k * step) s1 = Some (tt, s2).
Proof.
  revert a s. induction n as [|n IH]; intros a s H Hst Ha Hl Hn HP Hb; cbn [for_range] in H;
    rewrite (range_guard step last a _ Hst Hn) in H; [injection H as <-; split; [done|lia]|].
  cbn [Nat.ltb Nat.leb] in H. apply bind_inv in H as ([] & s1 & H1 & H).
  assert (a <= last) as Hal by (apply Z.leb_le; by rewrite (range_guard step last a _ Hst Hn)).
  assert (a +w step = a + step) as Ew by (apply wrap64_small; unfold is_u64; lia). rewrite Ew in H.
  destruct (IH (a + step) s1) as (HP' & Hall); [done|done|lia|done|by apply range_step|by eapply Hb|done|].
  split; [done|]. intros k Hk.
  destruct (decide (k = 0)) as [->|Hk0]; [exists s, s1; by rewrite Z.mul_0_l, Z.add_0_r|].
  destruct (Hall (k - 1)) as (s2 & s3 & P2 & H2); [lia|]. exists s2, s3. split; [done|]. rewrite <- H2. f_equal. lia.
Qed.

(** ** [unmap_range] *)

Lemma unmap_one_ok s r a p :
  pt_inv K R s → target r a → leaf s r a = Some p →
  ∃ s', unmap_one r a s = Some (tt, s') ∧ pt_inv K R s' ∧ (∀ r' va', r' ∈ R → leaf s' r' va' = leaf s r' va') ∧
    assigned s s' r a None.
Proof.
  intros HI Htg Hp. pose proof Htg as (Hr & _). destruct (leaf_word K R s r a p HI Hr Hp) as (v & Hv).
  assert (read p s = Some (v, s)) as Hrd by (unfold read, lift; by rewrite Hv).
  unfold unmap_one. rewrite (bind_run _ _ _ _ _ (walk_find K R s r a 0 HI Hr)), Hp. rewrite (bind_run _ _ _ _ _ Hrd).
  destruct (present v) eqn:Hpv.
  - destruct (write_assigned s r a p 0 HI Htg Hp) as (H1 & H2 & H3 & H4). by exists (written p 0 s).
  - exists s. do 3 (split; [done|]). intros r' va' Hr'. destruct (decide _) as [(-> & Hs)|]; [|done].
    apply (mapped_leaf s r va' p v) in Hv; [by rewrite Hpv in Hv|]. by rewrite <- (leaf_page s r a va').
Qed.

Lemma unmap_one_none s r a : pt_inv K R s → r ∈ R → leaf s r a = None → unmap_one r a s = None.
Proof. intros HI Hr Hp. unfold unmap_one. by rewrite (bind_run _ _ _ _ _ (walk_find K R s r a 0 HI Hr)), Hp. Qed.

Lemma user_target r va : r ∈ R → r ≠ K → 0 <= va <= USER_TOP → target r va.
Proof.
  intros Hr Hne Hva. split; [done|]. left. split; [done|]. unfold P4X. rewrite px_spec by done.
  assert (USER_TOP = 2 ^ 47 - 1) as EU by done. rewrite Z.mod_small.
  - apply Z.div_lt_upper_bound; lia.
  - split; [apply Z.div_pos; lia|]. apply Z.div_lt_upper_bound; lia.
Qed.

(** The pages of [\[start, last\]] are no longer mapped. *)
Record range_unmapped (s s' : vm A) (r start n : Z) : Prop := {
  ru_in k va : 0 <= k < n → same_page (start + k * PAGE_SIZE) va → mapped s' r va = None;
  ru_out r' va : r' ∈ R → (r' = r → ∀ k, 0 <= k < n → ¬ same_page (start + k * PAGE_SIZE) va) →
    mapped s' r' va = mapped s r' va;
}.

Lemma range_unmapped_snoc s s1 s' r start n :
  r ∈ R → range_unmapped s s1 r start n → 0 <= n → assigned s1 s' r (start + n * PAGE_SIZE) None →
  range_unmapped s s' r start (n + 1).
Proof.
  intros Hr [Hin Hout] Hn Ha. split.
  - intros k va Hk Hs. rewrite Ha by done. destruct (decide _); [done|]. apply (Hin k); [|done].
    destruct (decide (k = n)) as [->|]; [|lia]. exfalso. by apply n0.
  - intros r' va Hr' H. rewrite Ha by done. rewrite decide_False; [|intros (-> & Hs); by apply (H eq_refl n); [lia|]].
    apply Hout; [done|]. intros -> k Hk. apply H; [done|lia].
Qed.

Lemma user_region start last :
  VALID_USER_REGION start last = true → 0 <= start → start mod PAGE_SIZE = 0 → last mod PAGE_SIZE = 0 →
  0 <= start < last ∧ last <= USER_TOP ∧ last + PAGE_SIZE < 2 ^ 64 ∧
  ∃ n, (last - start) / PAGE_SIZE + 1 = Z.of_nat n ∧ range_fuel PAGE_SIZE start last = n ∧
    start + (Z.of_nat n - 1) * PAGE_SIZE = last.
Proof.
  unfold VALID_USER_REGION. rewrite andb_true_iff, Z.ltb_lt, Z.leb_le. intros (H1 & H2) H0 Hs Hl.
  assert (PAGE_SIZE = 2097152) as EP by done. assert (USER_TOP = 2 ^ 47 - 1) as EU by done.
  split; [lia|]. split; [done|]. split; [lia|]. exists (range_fuel PAGE_SIZE start last). unfold range_fuel.
  apply Z.mod_divide in Hs as (a & ->); [|done]. apply Z.mod_divide in Hl as (b & ->); [|done].
  rewrite <- Z.mul_sub_distr_r, Z.div_mul by done. rewrite Z2Nat.id by nia. split; [done|]. split; [done|]. lia.
Qed.

End ops.

(** ** Address spaces *)

Lemma copy_words_ok to from n m :
  (∀ i, 0 <= i < Z.of_nat n → is_Some (m !! entry from i)) →
  ∃ m', copy_words to from n m = Some m' ∧
    (∀ i, 0 <= i < Z.of_nat n → m' !! entry to i = m !! entry from i) ∧
    (∀ p, (∀ i, 0 <= i < Z.of_nat n → p ≠ entry to i) → m' !! p = m !! p).
Proof.
  induction n as [|n IH]; intros H; [exists m; split; [done|split; [lia|done]]|].
  destruct IH as (m1 & E & Hin & Hout); [intros i Hi; apply H; lia|]. destruct (H (Z.of_nat n)) as (v & Hv); [lia|].
  exists (<[entry to (Z.of_nat n) := v]> m1). cbn [copy_words]. rewrite E. cbn [mbind option_bind]. rewrite Hv.
  split; [done|]. split.
  - intros i Hi. destruct (decide (i = Z.of_nat n)) as [->|Hne]; [by rewrite lookup_insert_eq, Hv|].
    rewrite lookup_insert_ne by (unfold entry; lia). apply Hin. lia.
  - intros p Hp. rewrite lookup_insert_ne; [|intros <-; by apply (Hp (Z.of_nat n)); [lia|]]. apply Hout. intros i Hi. apply Hp. lia.
Qed.

Section spaces.
Context {A : Type} `{!TableProvider A} (K : Z).
Implicit Types s : vm A.

(** A new top-level table with the entries of the kernel's. *)
Lemma tree_copied R L2 L3 s t a m :
  tree K R L2 L3 s → tp_inv a → table_at t → (t ∉ R ∪ L2 ∪ L3) → (∀ q, in_use a q ↔ in_use (prov s) q ∨ q = t) →
  (∀ i, 0 <= i < 512 → m !! entry t i = words s !! entry K i) →
  (∀ u i, u ∈ R ∪ L2 ∪ L3 → 0 <= i < 512 → m !! entry u i = words s !! entry u i) →
  tree K ({[t]} ∪ R) L2 L3 (Vm m a).
Proof.
  intros Ht Hta Htt Hf Hin Hnew Hold. set (s' := Vm m a). pose proof (tr_kernel _ _ _ _ _ Ht) as HK.
  assert ((t ∉ R) ∧ (t ∉ L2) ∧ (t ∉ L3)) as (F1 & F2 & F3) by (rewrite !not_elem_of_union in Hf; tauto).
  destruct (tr_disj _ _ _ _ _ Ht) as (D1 & D2 & D3).
  assert (∀ w, w ∈ {[t]} ∪ R ∪ L2 ∪ L3 ↔ w ∈ R ∪ L2 ∪ L3 ∨ w = t) as HS.
  { intros w. rewrite !elem_of_union, elem_of_singleton. tauto. }
  assert (∀ u i, u ∈ R ∪ L2 ∪ L3 → 0 <= i < 512 → table_of s' (entry u i) = table_of s (entry u i)) as Told.
  { intros u i Hu Hi. unfold table_of. cbn [words s']. by rewrite Hold. }
  assert (∀ i, 0 <= i < 512 → table_of s' (entry t i) = table_of s (entry K i)) as Tnew.
  { intros i Hi. unfold table_of. cbn [words s']. by rewrite Hnew. }
  assert (∀ r i x, r ∈ {[t]} ∪ R → 0 <= i < 512 → table_of s' (entry r i) = Some x →
    ∃ r0, r0 ∈ R ∧ table_of s (entry r0 i) = Some x ∧ (r = r0 ∨ r = t ∧ r0 = K)) as Hsrc.
  { intros r i x [->%elem_of_singleton|Hr]%elem_of_union Hi Hx.
    - rewrite Tnew in Hx by done. exists K. auto.
    - rewrite Told in Hx; [|by apply in_all_1|done]. exists r. auto. }
  split; [done|by apply elem_of_union_r| | | | | | | | |].
  - intros w [Hw| ->]%HS; [|split; [done|apply Hin; by right]]. destruct (tr_table _ _ _ _ _ Ht w Hw). split; [done|]. apply Hin. by left.
  - intros w i [Hw| ->]%HS Hi; cbn [words s']; [rewrite Hold by done|rewrite Hnew by done]; apply (tr_words _ _ _ _ _ Ht); auto using in_all_1.
  - split; [|split; [|done]]; rewrite disjoint_union_l; (split; [|done]); by apply disjoint_singleton_l.
  - intros r i x Hr Hi (r0 & Hr0 & Hx & _)%Hsrc; [|done..]. by apply (tr_top _ _ _ _ _ Ht r0 i).
  - intros u i x Hu Hi. rewrite Told; [by apply (tr_mid _ _ _ _ _ Ht)|by apply in_all_2|done].
  - intros w i v Hw Hi. assert (w ∈ R ∪ L2 ∨ w = t) as [Hw'| ->] by (revert Hw; rewrite !elem_of_union, elem_of_singleton; tauto); cbn [words s'].
    + rewrite Hold; [by apply (tr_dead _ _ _ _ _ Ht)|by apply in_all_12|done].
    + rewrite Hnew by done. apply (tr_dead _ _ _ _ _ Ht); [by apply elem_of_union_l|done].
  - intros r r' i j x Hr Hr' Hi Hj (r0 & Hr0 & Hx & Hor)%Hsrc (r1 & Hr1 & Hx' & Hor')%Hsrc; [|done..].
    destruct (tr_top_own _ _ _ _ _ Ht r0 r1 i j x) as (<- & Hc); [done..|]. split; [done|].
    destruct (Z.le_gt_cases 256 i); [by right|left]. assert (r0 ≠ K) as Hk.
    { intros ->. rewrite (tr_lower _ _ _ _ _ Ht) in Hx by lia. done. }
    assert (r1 ≠ K) as Hk1. { intros ->. rewrite (tr_lower _ _ _ _ _ Ht) in Hx' by lia. done. }
    destruct Hor as [->|(_ & ?)], Hor' as [->|(_ & ?)], Hc as [->|?]; done || lia.
  - intros u u' i j x Hu Hu' Hi Hj. rewrite !Told; auto using in_all_2. by apply (tr_mid_own _ _ _ _ _ Ht).
  - intros i Hi. rewrite Told; [by apply (tr_lower _ _ _ _ _ Ht)|by apply in_all_1|lia].
Qed.

Lemma initialize_ok R s n :
  pt_inv K R s → supplies (S n) (prov s) →
  ∃ t s', initialize K s = Some (Some t, s') ∧ (t ∉ R) ∧ pt_inv K ({[t]} ∪ R) s' ∧ supplies n (prov s') ∧
    (∀ va, mapped s' t va = mapped s K va) ∧ (∀ r va, r ∈ R → mapped s' r va = mapped s r va).
Proof.
  intros (L2 & L3 & Ht) (t & a & Ha & Hn & Hs).
  destruct (alloc_table_law _ _ _ (tr_prov _ _ _ _ _ Ht) Ha Hn) as (Hta & Htt & Hf & Hin).
  assert (t ∉ R ∪ L2 ∪ L3) as Hfr. { intros H%(tr_table _ _ _ _ _ Ht). tauto. }
  pose proof (tr_kernel _ _ _ _ _ Ht) as HK.
  destruct (copy_words_ok t K 512 (words s)) as (m & Hm & Hnew & Hold).
  { intros i Hi. apply (tr_words _ _ _ _ _ Ht); [by apply in_all_1|lia]. }
  assert (∀ u i, u ∈ R ∪ L2 ∪ L3 → 0 <= i < 512 → m !! entry u i = words s !! entry u i) as Hold'.
  { intros u i Hu Hi. apply Hold. intros j Hj E. destruct (tr_table _ _ _ _ _ Ht u Hu) as (Hut & _).
    apply entry_inj in E as (-> & _); [done|done|done|done|lia]. }
  pose proof (tree_copied R L2 L3 s t a m Ht Hta Htt Hfr Hin Hnew Hold') as Ht'.
  exists t, (Vm m a). split.
  { unfold initialize, pgdir_entry_alloc, duplicate_kernel_pml4t, mbind, ST_bind. rewrite Ha.
    rewrite (proj2 (Z.eqb_neq t 0) Hn). cbn [words]. change (Z.to_nat (PGTABLE_SIZE / 8)) with 512%nat. by rewrite Hm. }
  split; [intros H; apply Hfr; by apply in_all_1|]. split; [by exists L2, L3|]. split; [done|].
  assert (∀ r r0, r0 ∈ R → (∀ i, 0 <= i < 512 → m !! entry r i = words s !! entry r0 i) →
    ∀ va, mapped (Vm m a) r va = mapped s r0 va) as Hmap.
  { intros r r0 Hr0 He va. unfold mapped. rewrite !leaf_top. unfold table_of at 1. cbn [words]. rewrite He by auto with paging.
    change (v ← words s !! entry r0 (P4X va); if present v then P2V (remove_flags v) else None) with (table_of s (entry r0 (P4X va))).
    destruct (table_of s (entry r0 (P4X va))) as [t2|] eqn:E2; [|done].
    apply (tr_top _ _ _ _ _ Ht) in E2; [|done|auto with paging]. unfold table_of at 1. cbn [words].
    rewrite Hold'; [|by apply in_all_2|auto with paging].
    change (v ← words s !! entry t2 (P3X va); if present v then P2V (remove_flags v) else None) with (table_of s (entry t2 (P3X va))).
    destruct (table_of s (entry t2 (P3X va))) as [t3|] eqn:E3; [|done].
    apply (tr_mid _ _ _ _ _ Ht) in E3; [|done|auto with paging]. cbn [mbind option_bind words].
    by rewrite Hold'; [|by apply in_all_3|auto with paging]. }
  split; [by apply Hmap|]. intros r va Hr. apply Hmap; [done|]. intros i Hi. apply Hold'; [by apply in_all_1|done].
Qed.

(** The kernel's own table, to begin with. *)
Lemma init_vmm_ok (a : A) n :
  tp_inv a → supplies (S n) a →
  ∃ k s', init_vmm (Vm ∅ a) = Some (k, s') ∧ pt_inv k {[k]} s' ∧ supplies n (prov s') ∧ (∀ va, leaf s' k va = None).
Proof.
  intros Hinv (t & a' & Ha & Hn & Hs). destruct (alloc_table_law _ _ _ Hinv Ha Hn) as (Hta & Htt & Hf & Hin).
  set (s' := Vm (zero_words t 512 ∅) a').
  assert (∀ i, 0 <= i < 512 → words s' !! entry t i = Some 0) as Hz by (intros i Hi; apply zero_words_in; lia).
  assert (∀ i, 0 <= i < 512 → table_of s' (entry t i) = None) as Hnone by (intros i Hi; unfold table_of; by rewrite Hz).
  exists t, s'. split.
  { unfold init_vmm, pgdir_entry_alloc, mbind, ST_bind. cbn [prov]. rewrite Ha. by rewrite (proj2 (Z.eqb_neq t 0) Hn). }
  split; [|split; [done|]].
  - assert (∀ u, u ∈ ({[t]} : gset Z) ∪ ∅ ∪ ∅ → u = t) as HS.
    { intros u. rewrite !elem_of_union, elem_of_singleton. intros [[?|[]%not_elem_of_empty]|[]%not_elem_of_empty]; done. }
    exists ∅, ∅. split.
    + done.
    + by apply elem_of_singleton.
    + intros u ->%HS. split; [done|]. apply Hin. by right.
    + intros u i ->%HS Hi. by rewrite Hz.
    + split; [apply disjoint_empty_r|split; apply disjoint_empty_r].
    + intros r i x ->%elem_of_singleton Hi. by rewrite Hnone.
    + by intros u i x []%not_elem_of_empty.
    + intros u i v Hu Hi Hv Hp. assert (u = t) as -> by (apply HS; by apply elem_of_union_l).
      rewrite Hz in Hv by done. by injection Hv as <-.
    + intros r r' i j x ->%elem_of_singleton _ Hi _ Hx. by rewrite Hnone in Hx.
    + by intros u u' i j x []%not_elem_of_empty.
    + intros i Hi. apply Hnone. lia.
  - intros va. rewrite leaf_top. by rewrite Hnone by auto with paging.
Qed.

End spaces.
