(* ===== verification/PagingInit.v ===== *)
(** * The kernel's own mappings: [paging_init]

    What the tables that [paging_init] builds translate, and the memory maps on
    which it fails. *)

From S2P Require Import Prelude Types Links Buddy Pmm Paging PageTables PageOps.

(** ** Entries and addresses *)

Lemma remove_flags_low v f : 0 <= f < 256 → remove_flags (Z.lor v f) = remove_flags v.
Proof.
  intros Hf. unfold remove_flags. rewrite Z.shiftr_lor.
  assert (Z.shiftr f 8 = 0) as -> by (rewrite Z.shiftr_div_pow2 by done; by apply Z.div_small).
  by rewrite Z.lor_0_r.
Qed.

Lemma flagged_pa pa fl : 0 <= pa < 2 ^ 63 → pa mod PAGE_SIZE = 0 → 0 <= fl < 256 → pde_to_pa (Z.lor pa fl) = pa.
Proof.
  intros Hpa Hal Hp. unfold pde_to_pa. apply Z.mod_divide in Hal as (k & ->); [|done].
  assert ((k * PAGE_SIZE) mod 256 = 0) as Hm by (apply Z.mod_divide; [done|]; exists (k * 8192); unfold PAGE_SIZE; lia).
  rewrite remove_flags_lor by done.
  apply Z.bits_inj'. intros n Hn. rewrite Z.land_spec.
  destruct (Z.testbit (k * PAGE_SIZE) n) eqn:E; [|done].
  assert (8 <= n) as H8.
  { apply Z.le_ngt. intros Hlt. rewrite <- (Z.mod_pow2_bits_low _ 8 n) in E by lia. change (2 ^ 8) with 256 in E. by rewrite Hm, Z.bits_0 in E. }
  assert (n < 64) as H64.
  { apply Z.lt_nge. intros Hge. rewrite Z.bits_above_log2 in E; [done|lia|].
    destruct (decide (k * PAGE_SIZE = 0)) as [->|]; [simpl; lia|]. apply Z.log2_lt_pow2; [lia|].
    eapply Z.lt_trans; [apply Hpa|]. apply Z.pow_lt_mono_r; lia. }
  rewrite andb_true_l. change (bnot64 PG_PS) with (Z.lxor (Z.ones 64) (2 ^ 7)).
  rewrite Z.lxor_spec, Z.ones_spec_low, Z.pow2_bits_false by lia. done.
Qed.

Lemma page_entry_pa pa perm :
  0 <= pa < 2 ^ 63 → pa mod PAGE_SIZE = 0 → 0 <= perm < 256 → pde_to_pa (page_entry pa perm) = pa.
Proof.
  intros Hpa Hal Hp. unfold page_entry. rewrite <- !Z.lor_assoc. apply flagged_pa; [done..|]. by repeat apply lor_flags.
Qed.

Lemma gigabyte va va' : va / 2 ^ 30 = va' / 2 ^ 30 → P4X va = P4X va' ∧ P3X va = P3X va'.
Proof.
  intros E. unfold P4X, P3X. rewrite !px_spec by done.
  replace (va / 2 ^ 39) with (va / 2 ^ 30 / 512) by by rewrite Z.div_div by lia.
  replace (va' / 2 ^ 39) with (va' / 2 ^ 30 / 512) by by rewrite Z.div_div by lia.
  by rewrite E.
Qed.

Lemma gigabyte_inv va va' :
  KERNEL_ADDRESS_SPACE_BASE <= va < 2 ^ 64 → KERNEL_ADDRESS_SPACE_BASE <= va' < 2 ^ 64 →
  P4X va = P4X va' → P3X va = P3X va' → va / 2 ^ 30 = va' / 2 ^ 30.
Proof.
  intros H H' E4 E3. assert (KERNEL_ADDRESS_SPACE_BASE = (2 ^ 34 - 2 ^ 17) * 2 ^ 30) as EB by done.
  assert (∀ x, KERNEL_ADDRESS_SPACE_BASE <= x < 2 ^ 64 → x / 2 ^ 30 = (2 ^ 34 - 2 ^ 18) + P4X x * 512 + P3X x) as Hx.
  { intros x Hx. assert (2 ^ 34 - 2 ^ 17 <= x / 2 ^ 30) by (apply Z.div_le_lower_bound; lia).
    assert (x / 2 ^ 30 < 2 ^ 34) by (apply Z.div_lt_upper_bound; lia). unfold P4X, P3X. rewrite !px_spec by done.
    replace (x / 2 ^ 39) with (x / 2 ^ 30 / 512) by by rewrite Z.div_div by lia.
    pose proof (Z.rem_mul_r (x / 2 ^ 30) 512 512 ltac:(lia) ltac:(lia)).
    assert ((x / 2 ^ 30) mod (512 * 512) = x / 2 ^ 30 - (2 ^ 34 - 2 ^ 18)); [|lia].
    symmetry. apply (Z.mod_unique_pos _ _ (2 ^ 16 - 1)); lia. }
  rewrite !Hx by done. lia.
Qed.

(** Addresses of the upper half. *)
Lemma kernel_page va va' :
  KERNEL_ADDRESS_SPACE_BASE <= va < 2 ^ 64 → KERNEL_ADDRESS_SPACE_BASE <= va' < 2 ^ 64 →
  same_page va va' ↔ va / PAGE_SIZE = va' / PAGE_SIZE.
Proof.
  intros H H'. rewrite same_page_no. unfold page_no. rewrite PAGE_SIZE_pow.
  assert (KERNEL_ADDRESS_SPACE_BASE = (2 ^ 43 - 2 ^ 26) * 2 ^ 21) as EB by done.
  assert (∀ x, KERNEL_ADDRESS_SPACE_BASE <= x < 2 ^ 64 → (x / 2 ^ 21) mod 2 ^ 27 = x / 2 ^ 21 - (2 ^ 43 - 2 ^ 27)) as Hx.
  { intros x Hx. assert (2 ^ 43 - 2 ^ 26 <= x / 2 ^ 21) by (apply Z.div_le_lower_bound; lia).
    assert (x / 2 ^ 21 < 2 ^ 43) by (apply Z.div_lt_upper_bound; lia).
    symmetry. apply (Z.mod_unique_pos _ _ (2 ^ 16 - 1)); lia. }
  rewrite !Hx by done. lia.
Qed.

Lemma kernel_target K va : KERNEL_ADDRESS_SPACE_BASE <= va < 2 ^ 64 → target K {[K]} K va.
Proof.
  intros H. split; [by apply elem_of_singleton|]. right. do 2 (split; [done|]). unfold P4X. rewrite px_spec by done.
  assert (KERNEL_ADDRESS_SPACE_BASE = (2 ^ 25 - 2 ^ 8) * 2 ^ 39) as EB by done.
  assert (2 ^ 25 - 2 ^ 8 <= va / 2 ^ 39) by (apply Z.div_le_lower_bound; lia).
  assert (va / 2 ^ 39 < 2 ^ 25) by (apply Z.div_lt_upper_bound; lia).
  assert ((va / 2 ^ 39) mod 512 = va / 2 ^ 39 - (2 ^ 25 - 2 ^ 9)) as ->; [|lia].
  symmetry. apply (Z.mod_unique_pos _ _ (2 ^ 16 - 1)); lia.
Qed.

(** A page with an offset. *)
Lemma page_offset base va :
  base mod PAGE_SIZE = 0 → base <= va → same_page (base + (va - base) / PAGE_SIZE * PAGE_SIZE) va ∧
  (va - base) / PAGE_SIZE * PAGE_SIZE + va mod PAGE_SIZE = va - base.
Proof.
  intros Hb Hle. apply Z.mod_divide in Hb as (b & ->); [|done].
  assert ((va - b * PAGE_SIZE) / PAGE_SIZE = va / PAGE_SIZE - b) as E.
  { replace (va - b * PAGE_SIZE) with (va + - b * PAGE_SIZE) by lia. rewrite Z.div_add by done. lia. }
  rewrite E. pose proof (Z.div_mod va PAGE_SIZE ltac:(done)). split; [|lia].
  apply same_page_no. unfold page_no. f_equal. rewrite <- Z.mul_add_distr_r, Z.div_mul by done. lia.
Qed.

Section init.
Context {A : Type} `{!TableProvider A} (K : Z).
Implicit Types s : vm A.
Abbreviation inv s := (pt_inv K {[K]} s).

Lemma map_kernel_range n m s base last :
  inv s → KERNEL_ADDRESS_SPACE_BASE <= base → base + Z.of_nat n * PAGE_SIZE <= 2 ^ 64 → base mod PAGE_SIZE = 0 →
  0 <= last < 2 ^ 63 → last / PAGE_SIZE = Z.of_nat n →
  (∀ va, base <= va < base + Z.of_nat n * PAGE_SIZE → mapped s K va = None) → supplies (2 * n + m) (prov s) →
  ∃ s', init_map K base last s = Some (tt, s') ∧ inv s' ∧ supplies m (prov s') ∧
    range_mapped {[K]} s s' K base 0 default_perm (Z.of_nat n) ∧ tables_in {[K]} s s' base (Z.of_nat n).
Proof.
  intros HI Hb Hle Hal Hl Hn Hun Hs. assert (PAGE_SIZE = 2097152) as EP by done.
  assert (KERNEL_ADDRESS_SPACE_BASE = 0xFFFF800000000000) as EK by done.
  destruct (map_loop_ok K {[K]} n m s K base 0 last default_perm) as (s' & H & HI' & Hs' & Hr & Ht);
    [done|by apply elem_of_singleton|done|done|lia|lia|by rewrite Z.sub_0_r|done|lia| |done|].
  { intros k Hk. split; [apply kernel_target; nia|apply Hun; nia]. }
  exists s'. split; [|done]. unfold init_map, map_pages. rewrite Z.sub_0_r, Hn, Nat2Z.id. rewrite (bind_run _ _ _ _ _ H).
  rewrite decide_False; [done|]. by intros [?|?].
Qed.

(** *** Device memory *)

Lemma mark_page_ok s x p :
  inv s → leaf s K x = Some p →
  ∃ s', mark_page K x s = Some (tt, s') ∧
    inv s' ∧ (∀ va, leaf s' K va = leaf s K va) ∧ (∀ va, translate s' K va = translate s K va).
Proof.
  intros HI Hp. assert (K ∈ ({[K]} : gset Z)) as HK by by apply elem_of_singleton.
  destruct (leaf_word K {[K]} s K x p HI HK Hp) as (v & Hv). set (f := Z.lor (Z.lor default_perm PG_PWT) PG_PCD).
  assert (read p s = Some (v, s)) as Hrd by (unfold read, lift; by rewrite Hv).
  destruct (write_leaf K {[K]} s K x p (Z.lor v f) HI HK Hp) as (Hw & HI' & Hl & Hm).
  exists (written p (Z.lor v f) s). split.
  { unfold mark_page. rewrite (bind_run _ _ _ _ _ (walk_find K {[K]} s K x 0 HI HK)), Hp. by rewrite (bind_run _ _ _ _ _ Hrd). }
  split; [done|]. split; [intros va; by apply Hl|]. intros va. unfold translate. rewrite Hm by done.
  destruct (decide (leaf s K va = Some p)) as [E|]; [|done]. rewrite (mapped_leaf s K va p v E Hv).
  assert (present (Z.lor v f) = present v) as -> by (rewrite !present_odd, odd_lor; apply orb_false_r).
  destruct (present v); [|done]. cbn [mbind option_bind]. unfold pde_to_pa. by rewrite remove_flags_low.
Qed.

(** Regions within the remapped memory whose last gigabyte has a table. *)
Definition region_ok (top : Z) (e : mmap_entry) : Prop :=
  0 <= addr e ∧ 0 <= len e ∧ addr e + len e <= PHYMEMORY_SIZE ∧
  (available e = false → 2 ^ 30 * ((addr e + len e) / 2 ^ 30) < top).

Lemma PHYREMAP_value x : 0 <= x <= PHYMEMORY_SIZE → P2V_PHYREMAP x = Some (x + PHYREMAP_VIRTUALBASE).
Proof.
  intros H. assert (PHYMEMORY_SIZE = 2 ^ 46) as EP by done. unfold P2V_PHYREMAP. rewrite (proj2 (Z.leb_le _ _)) by lia.
  f_equal. apply wrap64_small. unfold is_u64, PHYREMAP_VIRTUALBASE. lia.
Qed.

Lemma rounddown_remap x : 0 <= x <= PHYMEMORY_SIZE →
  PAGE_ROUNDDOWN (x + PHYREMAP_VIRTUALBASE) = PHYREMAP_VIRTUALBASE + x / PAGE_SIZE * PAGE_SIZE.
Proof.
  intros H. assert (PHYMEMORY_SIZE = 2 ^ 46) as EP by done. assert (PHYREMAP_VIRTUALBASE = 0x7FFFC440000 * PAGE_SIZE) as EB by done.
  assert (PAGE_SIZE = 2097152) as EPS by done.
  rewrite page_rounddown_spec, rounddown_spec by lia. rewrite EB, Z.div_add by done. lia.
Qed.

(** The pages [mark_region] visits. *)
Lemma region_pages e :
  0 <= addr e → 0 <= len e → addr e + len e <= PHYMEMORY_SIZE →
  ∃ p q, p = addr e / PAGE_SIZE ∧ q = (addr e + len e) / PAGE_SIZE ∧ 0 <= p <= q ∧ q * PAGE_SIZE <= addr e + len e ∧
    mark_region (A := A) K e = for_range (Z.to_nat (q - p + 1)) PAGE_SIZE (PHYREMAP_VIRTUALBASE + q * PAGE_SIZE)
      (PHYREMAP_VIRTUALBASE + p * PAGE_SIZE) (mark_page K) ∧
    (PHYREMAP_VIRTUALBASE + q * PAGE_SIZE - (PHYREMAP_VIRTUALBASE + p * PAGE_SIZE)) / PAGE_SIZE + 1 = q - p + 1.
Proof.
  intros H1 H2 H3. assert (PHYMEMORY_SIZE = 2 ^ 46) as EM by done.
  set (p := addr e / PAGE_SIZE). set (q := (addr e + len e) / PAGE_SIZE). exists p, q. do 2 (split; [done|]).
  assert (0 <= p <= q) as Hpq by (split; [by apply Z.div_pos|apply Z.div_le_mono; [done|lia]]). split; [done|].
  split; [unfold q; pose proof (Z.mul_div_le (addr e + len e) PAGE_SIZE ltac:(done)); lia|].
  assert ((PHYREMAP_VIRTUALBASE + q * PAGE_SIZE - (PHYREMAP_VIRTUALBASE + p * PAGE_SIZE)) / PAGE_SIZE + 1 = q - p + 1) as En.
  { replace (_ - _) with ((q - p) * PAGE_SIZE) by lia. by rewrite Z.div_mul. }
  split; [|done]. unfold mark_region. rewrite (wrap64_small (addr e + len e)) by (unfold is_u64; lia).
  unfold lift, mbind, ST_bind. rewrite !PHYREMAP_value by lia. cbv zeta. rewrite !rounddown_remap by lia.
  fold p q. unfold range_fuel. by rewrite En.
Qed.

Lemma mark_region_ok top e s :
  inv s → region_ok top e → available e = false →
  (∀ y, 0 <= y <= PHYMEMORY_SIZE → 2 ^ 30 * (y / 2 ^ 30) < top → is_Some (leaf s K (PHYREMAP_VIRTUALBASE + y))) →
  ∃ s', mark_region K e s = Some (tt, s') ∧ inv s' ∧ (∀ va, leaf s' K va = leaf s K va) ∧ (∀ va, translate s' K va = translate s K va).
Proof.
  intros HI (H1 & H2 & H3 & H4) Ha Htab. specialize (H4 Ha).
  assert (PHYMEMORY_SIZE = 2 ^ 46) as EM by done. assert (PAGE_SIZE = 2097152) as EPS by done.
  assert (PHYREMAP_VIRTUALBASE = 0xffff888000000000) as EB by done.
  destruct (region_pages e H1 H2 H3) as (p & q & _ & _ & Hpq & Hq & -> & En).
  apply (for_range_ok (λ _ s', inv s' ∧ (∀ va, leaf s' K va = leaf s K va) ∧ (∀ va, translate s' K va = translate s K va)));
    [lia|lia|lia|lia|done|].
  intros k s0 Hk (HI0 & Hl0 & Ht0).
  destruct (Htab ((p + Z.of_nat k) * PAGE_SIZE)) as (lf & Hlf).
  { nia. }
  { eapply Z.le_lt_trans; [|exact H4]. apply Z.mul_le_mono_nonneg_l; [done|]. apply Z.div_le_mono; nia. }
  destruct (mark_page_ok s0 (PHYREMAP_VIRTUALBASE + p * PAGE_SIZE + Z.of_nat k * PAGE_SIZE) lf HI0) as (s2 & E2 & HI2 & Hl2 & Ht2).
  { rewrite Hl0, <- Hlf. f_equal. lia. }
  exists s2. split; [done|]. split; [done|]. split; intros va; [by rewrite Hl2|by rewrite Ht2].
Qed.

Lemma mark_devices_ok top es s :
  inv s → (∀ e, e ∈ es → region_ok top e) →
  (∀ y, 0 <= y <= PHYMEMORY_SIZE → 2 ^ 30 * (y / 2 ^ 30) < top → is_Some (leaf s K (PHYREMAP_VIRTUALBASE + y))) →
  ∃ s', mark_devices K es s = Some (tt, s') ∧ inv s' ∧ (∀ va, translate s' K va = translate s K va).
Proof.
  intros HI Hok. revert s HI. induction es as [|e es IH]; intros s HI Htab; [by exists s|]. cbn [mark_devices].
  assert (∃ s1, (if available e then mret tt else mark_region K e) s = Some (tt, s1) ∧ inv s1 ∧
    (∀ va, leaf s1 K va = leaf s K va) ∧ (∀ va, translate s1 K va = translate s K va)) as (s1 & Hs1 & HI1 & Hl1 & Ht1).
  { destruct (available e) eqn:Ea; [by exists s|]. apply (mark_region_ok top); [done|apply Hok; by left|done..]. }
  destruct IH with (s := s1) as (s' & H & HI' & Ht'); [intros x Hx; apply Hok; by right|done| |].
  { intros y Hy Hty. rewrite Hl1. by apply Htab. }
  exists s'. split; [by rewrite (bind_run _ _ _ _ _ Hs1)|]. split; [done|]. intros va. by rewrite Ht'.
Qed.

Lemma leaf_sibling s va va' : va / 2 ^ 30 = va' / 2 ^ 30 → is_Some (leaf s K va) → is_Some (leaf s K va').
Proof.
  intros (E4 & E3)%gigabyte. rewrite !leaf_top, E4. destruct (table_of s _) as [t2|]; [|by intros []]. rewrite E3.
  by destruct (table_of s _).
Qed.

Lemma mark_page_inv s x s' : inv s → mark_page K x s = Some (tt, s') →
  is_Some (leaf s K x) ∧ inv s' ∧ ∀ va, leaf s' K va = leaf s K va.
Proof.
  intros HI H. destruct (leaf s K x) as [p|] eqn:Hp.
  - destruct (mark_page_ok s x p HI Hp) as (s1 & H1 & HI1 & Hl & _). rewrite H in H1. injection H1 as <-. by split.
  - unfold mark_page in H. rewrite (bind_run _ _ _ _ _ (walk_find K {[K]} s K x 0 HI ltac:(by apply elem_of_singleton))), Hp in H. done.
Qed.

(** A region that is completed has tables for its pages, the one at its end
    included. *)
Lemma mark_region_inv e s s' :
  0 <= addr e → 0 <= len e → addr e + len e <= PHYMEMORY_SIZE → inv s → mark_region K e s = Some (tt, s') →
  inv s' ∧ (∀ va, leaf s' K va = leaf s K va) ∧
  is_Some (leaf s K (PHYREMAP_VIRTUALBASE + (addr e + len e) / PAGE_SIZE * PAGE_SIZE)).
Proof.
  intros H1 H2 H3 HI H. assert (PHYMEMORY_SIZE = 2 ^ 46) as EM by done. assert (PAGE_SIZE = 2097152) as EPS by done.
  assert (PHYREMAP_VIRTUALBASE = 0xffff888000000000) as EB by done.
  destruct (region_pages e H1 H2 H3) as (p & q & _ & <- & Hpq & Hq & E & En). rewrite E in H.
  apply (for_range_all (λ s', inv s' ∧ ∀ va, leaf s' K va = leaf s K va)) in H as ((HI' & Hl') & Hall);
    [|lia|lia|lia|lia|done|].
  - split; [done|]. split; [done|]. destruct (Hall (q - p)) as (s1 & s2 & (HI1 & Hl1) & Hm); [lia|].
    destruct (mark_page_inv s1 _ s2 HI1 Hm) as ((lf & Hlf) & _). exists lf. rewrite <- Hlf, Hl1. f_equal. lia.
  - intros x s1 s2 (HI1 & Hl1) Hm. destruct (mark_page_inv s1 x s2 HI1 Hm) as (_ & HI2 & Hl2). split; [done|].
    intros va. by rewrite Hl2.
Qed.

Lemma mark_devices_inv es s s' e :
  (∀ x, x ∈ es → 0 <= addr x ∧ 0 <= len x ∧ addr x + len x <= PHYMEMORY_SIZE) → inv s → mark_devices K es s = Some (tt, s') →
  e ∈ es → available e = false → is_Some (leaf s K (PHYREMAP_VIRTUALBASE + (addr e + len e) / PAGE_SIZE * PAGE_SIZE)).
Proof.
  revert s. induction es as [|x es IH]; intros s Hok HI H He Ha; [by apply not_elem_of_nil in He|].
  cbn [mark_devices] in H. apply bind_inv in H as ([] & s1 & H1 & H).
  assert (inv s1 ∧ ∀ va, leaf s1 K va = leaf s K va) as (HI1 & Hl1).
  { destruct (available x); [by injection H1 as <-|]. destruct (Hok x) as (? & ? & ?); [by left|].
    by destruct (mark_region_inv x s s1) as (? & ? & _). }
  apply elem_of_cons in He as [->|He].
  - rewrite Ha in H1. destruct (Hok x) as (? & ? & ?); [by left|]. by destruct (mark_region_inv x s s1) as (_ & _ & ?).
  - rewrite <- Hl1. apply (IH s1); [intros y Hy; apply Hok; by right|done..].
Qed.

End init.

Lemma max_pa_range es : 0 <= max_pa es <= PHYMEMORY_SIZE.
Proof.
  unfold max_pa. assert (0 <= PHYMEMORY_SIZE) by done.
  assert (∀ m, 0 <= m <= PHYMEMORY_SIZE →
    0 <= fold_left (λ m e, Z.max m (Z.min (addr e +w len e) PHYMEMORY_SIZE)) es m <= PHYMEMORY_SIZE) as Hm; [|by apply Hm].
  induction es as [|e es IH]; intros m Hm; [done|]. cbn [fold_left]. apply IH. lia.
Qed.

(** ** Booting *)

Section boot.
Context {A : Type} `{!TableProvider A}.
Implicit Types s : vm A.

(** [init_vmm], then [paging_init]. *)
Definition boot (es : list mmap_entry) : ST (vm A) Z := k ← init_vmm; paging_init k es;; mret k.

Record booted (es : list mmap_entry) (k : Z) (s0 s1 s2 : vm A) : Prop := {
  bo_inv : pt_inv k {[k]} s2;
  bo_none va : leaf s0 k va = None;
  bo_kernel : range_mapped {[k]} s0 s1 k KERNEL_VIRTUALBASE 0 default_perm 1024;
  bo_remap : range_mapped {[k]} s1 s2 k PHYREMAP_VIRTUALBASE 0 default_perm (max_pa es / PAGE_SIZE);
  bo_tables : tables_in {[k]} s0 s1 KERNEL_VIRTUALBASE 1024;
  bo_tables2 : tables_in {[k]} s1 s2 PHYREMAP_VIRTUALBASE (max_pa es / PAGE_SIZE);
}.

(** Tables for one page each are more than enough. *)
Definition boot_tables (es : list mmap_entry) : nat := S (2 * Z.to_nat (KERNEL_SIZE / PAGE_SIZE) + 2 * Z.to_nat (max_pa es / PAGE_SIZE)).

Lemma boot_maps a es :
  tp_inv a → supplies (boot_tables es) a →
  ∃ k s0 s1 s2, init_vmm (Vm ∅ a) = Some (k, s0) ∧ init_map k KERNEL_VIRTUALBASE KERNEL_SIZE s0 = Some (tt, s1) ∧
    init_map k PHYREMAP_VIRTUALBASE (max_pa es) s1 = Some (tt, s2) ∧ booted es k s0 s1 s2.
Proof.
  intros Hinv Hs. pose proof (max_pa_range es) as Hmx. assert (PHYMEMORY_SIZE = 2 ^ 46) as EM by done.
  assert (PAGE_SIZE = 2097152) as EPS by done. assert (PHYREMAP_VIRTUALBASE = 0xffff888000000000) as EB by done.
  assert (KERNEL_VIRTUALBASE = 0xFFFFFFFF80000000) as EK by done. assert (KERNEL_ADDRESS_SPACE_BASE = 0xFFFF800000000000) as EA by done.
  unfold boot_tables in Hs. set (n1 := Z.to_nat (KERNEL_SIZE / PAGE_SIZE)) in *. set (n2 := Z.to_nat (max_pa es / PAGE_SIZE)) in *.
  assert (KERNEL_SIZE / PAGE_SIZE = Z.of_nat n1) as En1 by (unfold n1; by rewrite Z2Nat.id).
  assert (max_pa es / PAGE_SIZE = Z.of_nat n2) as En2 by (unfold n2; rewrite Z2Nat.id; [done|apply Z.div_pos; lia]).
  clearbody n1 n2. change (KERNEL_SIZE / PAGE_SIZE) with 1024 in En1.
  assert (max_pa es / PAGE_SIZE <= 2 ^ 25) as Hn2 by (apply Z.div_le_upper_bound; lia).
  destruct (init_vmm_ok a (2 * n1 + 2 * n2) Hinv Hs) as (k & s0 & H0 & HI0 & Hs0 & Hl0).
  assert (∀ va, mapped s0 k va = None) as Hm0 by (intros va; unfold mapped; by rewrite Hl0).
  destruct (map_kernel_range k n1 (2 * n2) s0 KERNEL_VIRTUALBASE KERNEL_SIZE HI0) as (s1 & H1 & HI1 & Hs1 & Hr1 & Ht1);
    [lia|lia|done|done|done|intros va _; apply Hm0|done|].
  destruct (map_kernel_range k n2 0 s1 PHYREMAP_VIRTUALBASE (max_pa es) HI1) as (s2 & H2 & HI2 & _ & Hr2 & Ht2);
    [lia|lia|done|lia|done| |by rewrite Nat.add_0_r|].
  { intros va Hva. destruct Hr1 as [_ Hout]. rewrite Hout; [apply Hm0|by apply elem_of_singleton|]. intros _ j Hj Hsp.
    apply kernel_page in Hsp; [|lia..]. rewrite Z.div_add in Hsp by done.
    assert (va / PAGE_SIZE < KERNEL_VIRTUALBASE / PAGE_SIZE); [|lia]. apply Z.div_lt_upper_bound; [lia|].
    change (PAGE_SIZE * (KERNEL_VIRTUALBASE / PAGE_SIZE)) with KERNEL_VIRTUALBASE. lia. }
  exists k, s0, s1, s2. do 3 (split; [done|]). rewrite <- En1 in Hr1, Ht1. rewrite <- En2 in Hr2, Ht2. by split.
Qed.

(** The address the kernel's tables should translate to. *)
Definition direct_map (es : list mmap_entry) (va : Z) : option Z :=
  pa ← V2P va; if VALID_KERNEL_PTR va || (pa <? max_pa es / PAGE_SIZE * PAGE_SIZE) then Some pa else None.

Lemma entry_translate s k va base n :
  base mod PAGE_SIZE = 0 → base <= va < base + n * PAGE_SIZE → n <= 2 ^ 25 →
  (∀ j va', 0 <= j < n → same_page (base + j * PAGE_SIZE) va' → mapped s k va' = Some (page_entry (0 + j * PAGE_SIZE) default_perm)) →
  translate s k va = Some (va - base).
Proof.
  intros Hb Hva Hn Hin. assert (PAGE_SIZE = 2097152) as EPS by done.
  destruct (page_offset base va Hb) as (Hsp & Hoff); [lia|]. pose proof (Z.div_pos (va - base) PAGE_SIZE ltac:(lia) ltac:(done)).
  assert ((va - base) / PAGE_SIZE < n) by (apply Z.div_lt_upper_bound; lia).
  unfold translate. rewrite (Hin ((va - base) / PAGE_SIZE) va) by (lia || done). cbn [mbind option_bind].
  rewrite page_entry_pa; [f_equal; lia|lia| |done]. rewrite Z.add_0_l. by apply Z.mod_mul.
Qed.

(** Pages outside a mapped range. *)
Lemma outside_range base n va k :
  KERNEL_ADDRESS_SPACE_BASE <= base → base + n * PAGE_SIZE <= 2 ^ 64 → base mod PAGE_SIZE = 0 →
  KERNEL_ADDRESS_SPACE_BASE <= va < 2 ^ 64 → va < base ∨ base + n * PAGE_SIZE <= va →
  0 <= k < n → ¬ same_page (base + k * PAGE_SIZE) va.
Proof.
  intros H1 H2 Hb Hva Hor Hk Hsp. assert (PAGE_SIZE = 2097152) as EPS by done.
  apply kernel_page in Hsp; [|lia..]. apply Z.mod_divide in Hb as (b & ->); [|done].
  rewrite <- Z.mul_add_distr_r, Z.div_mul in Hsp by done.
  pose proof (Z.div_mod va PAGE_SIZE ltac:(done)). pose proof (Z.mod_pos_bound va PAGE_SIZE ltac:(done)). lia.
Qed.

Lemma booted_translate es k s0 s1 s2 va :
  booted es k s0 s1 s2 → KERNEL_ADDRESS_SPACE_BASE <= va < 2 ^ 64 → translate s2 k va = direct_map es va.
Proof.
  intros [HI Hl [Kin Kout] [Rin Rout] _ _] Hva. pose proof (max_pa_range es) as Hmx. assert (PHYMEMORY_SIZE = 2 ^ 46) as EM by done.
  assert (PAGE_SIZE = 2097152) as EPS by done. assert (PHYREMAP_VIRTUALBASE = 0xffff888000000000) as EB by done.
  assert (KERNEL_VIRTUALBASE = 0xFFFFFFFF80000000) as EK by done. assert (KERNEL_ADDRESS_SPACE_BASE = 0xFFFF800000000000) as EA by done.
  set (n := max_pa es / PAGE_SIZE) in *. assert (0 <= n <= 2 ^ 25) as Hn by (split; [apply Z.div_pos; lia|apply Z.div_le_upper_bound; lia]).
  assert (k ∈ ({[k]} : gset Z)) as Hk by by apply elem_of_singleton.
  assert (va < PHYREMAP_VIRTUALBASE ∨ PHYREMAP_VIRTUALBASE + n * PAGE_SIZE <= va → mapped s2 k va = mapped s1 k va) as Hout2.
  { intros Hor. apply Rout; [done|]. intros _ j Hj. apply (outside_range _ n); try done; lia. }
  assert (va < KERNEL_VIRTUALBASE → mapped s1 k va = None) as Hout1.
  { intros Hor. rewrite Kout; [unfold mapped; by rewrite Hl|done|]. intros _ j Hj. apply (outside_range _ 1024); try done; lia. }
  unfold direct_map. fold n. destruct (Z.le_gt_cases KERNEL_VIRTUALBASE va) as [Hkv|Hkv].
  - rewrite V2P_kernel by lia. cbn [mbind option_bind]. assert (VALID_KERNEL_PTR va = true) as ->.
    { unfold VALID_KERNEL_PTR. rewrite andb_true_iff, !Z.leb_le. change KERNEL_VIRTUALEND with (2 ^ 64 - 1). lia. }
    cbn [orb]. rewrite <- (entry_translate s1 k va KERNEL_VIRTUALBASE 1024); [|done|lia|lia|exact Kin].
    unfold translate. rewrite Hout2; [done|lia].
  - assert (VALID_KERNEL_PTR va = false) as -> by (unfold VALID_KERNEL_PTR; apply andb_false_iff; left; apply Z.leb_gt; lia).
    destruct (decide (PHYREMAP_VIRTUALBASE <= va < PHYREMAP_VIRTUALBASE + 2 ^ 46)) as [Hr|Hr].
    + assert (V2P va = Some (va - PHYREMAP_VIRTUALBASE)) as ->.
      { unfold_layout. split_leb. f_equal. apply wrap64_small. unfold is_u64. lia. }
      cbn [mbind option_bind orb]. destruct (Z.ltb_spec (va - PHYREMAP_VIRTUALBASE) (n * PAGE_SIZE)).
      * apply (entry_translate s2 k va PHYREMAP_VIRTUALBASE n); [done|lia|lia|exact Rin].
      * unfold translate. rewrite Hout2, Hout1 by lia. done.
    + assert (V2P va = None) as -> by (unfold_layout; split_leb; done).
      unfold translate. rewrite Hout2, Hout1 by lia. done.
Qed.

Lemma booted_user es k s0 s1 s2 va : booted es k s0 s1 s2 → 0 <= va <= USER_TOP → translate s2 k va = None.
Proof.
  intros B Hva. pose proof (bo_inv _ _ _ _ _ B) as (L2 & L3 & Ht).
  assert (P4X va < 256) as H4.
  { unfold P4X. rewrite px_spec by done. assert (USER_TOP = 2 ^ 47 - 1) as EU by done. rewrite Z.mod_small.
    - apply Z.div_lt_upper_bound; lia.
    - split; [apply Z.div_pos; lia|]. apply Z.div_lt_upper_bound; lia. }
  unfold translate, mapped. rewrite leaf_top, (tr_lower _ _ _ _ _ Ht); [done|]. pose proof (P4X_range va). lia.
Qed.

Lemma mapped_has_leaf s k va v : mapped s k va = Some v → is_Some (leaf s k va).
Proof. unfold mapped. by destruct (leaf s k va). Qed.

(** Which gigabytes of the remapped memory have a table. *)
Lemma booted_tables es k s0 s1 s2 y :
  booted es k s0 s1 s2 → 0 <= y <= PHYMEMORY_SIZE →
  is_Some (leaf s2 k (PHYREMAP_VIRTUALBASE + y)) ↔ 2 ^ 30 * (y / 2 ^ 30) < max_pa es / PAGE_SIZE * PAGE_SIZE.
Proof.
  intros [HI Hl [Kin Kout] [Rin Rout] T1 T2] Hy. pose proof (max_pa_range es) as Hmx. assert (PHYMEMORY_SIZE = 2 ^ 46) as EM by done.
  assert (PAGE_SIZE = 2097152) as EPS by done. assert (PHYREMAP_VIRTUALBASE = 0x3FFFE2200 * 2 ^ 30) as EB by done.
  assert (KERNEL_VIRTUALBASE = 0x3FFFFFFFE * 2 ^ 30) as EK by done. assert (KERNEL_ADDRESS_SPACE_BASE = 0xFFFF800000000000) as EA by done.
  set (n := max_pa es / PAGE_SIZE) in *. assert (0 <= n <= 2 ^ 25) as Hn by (split; [apply Z.div_pos; lia|apply Z.div_le_upper_bound; lia]).
  pose proof (Z.mul_div_le y (2 ^ 30) ltac:(lia)) as Hy1. pose proof (Z.mul_succ_div_gt y (2 ^ 30) ltac:(lia)) as Hy2.
  assert ((PHYREMAP_VIRTUALBASE + y) / 2 ^ 30 = 0x3FFFE2200 + y / 2 ^ 30) as Eg by (rewrite EB, Z.add_comm, Z.div_add by lia; lia).
  split.
  - assert (k ∈ ({[k]} : gset Z)) as Hk by by apply elem_of_singleton.
    intros H. destruct (T2 k _ Hk H) as [H1|(j & Hj & E4 & E3)].
    + destruct (T1 k _ Hk H1) as [H2|(j & Hj & E4 & E3)]; [rewrite Hl in H2; by destruct H2|]. exfalso.
      apply gigabyte_inv in E3; [|lia|lia|exact E4]. rewrite Eg in E3.
      assert (0x3FFFFFFFE <= (KERNEL_VIRTUALBASE + j * PAGE_SIZE) / 2 ^ 30) by (apply Z.div_le_lower_bound; lia).
      assert (y / 2 ^ 30 <= 2 ^ 16) by (apply Z.div_le_upper_bound; lia). lia.
    + apply gigabyte_inv in E3; [|lia|lia|exact E4]. rewrite Eg in E3. pose proof (Z.mul_div_le (PHYREMAP_VIRTUALBASE + j * PAGE_SIZE) (2 ^ 30) ltac:(lia)). nia.
  - intros Hlt. set (z := 2 ^ 30 * (y / 2 ^ 30)) in *. assert (0 <= y / 2 ^ 30) as Hq by (apply Z.div_pos; lia).
    apply (leaf_sibling k s2 (PHYREMAP_VIRTUALBASE + z)).
    { rewrite Eg, EB. unfold z. rewrite (Z.mul_comm (2 ^ 30)), <- Z.mul_add_distr_r, Z.div_mul by lia. done. }
    apply (mapped_has_leaf s2 k _ (page_entry (0 + y / 2 ^ 30 * 512 * PAGE_SIZE) default_perm)). apply Rin; [unfold z in Hlt; lia|].
    replace (PHYREMAP_VIRTUALBASE + y / 2 ^ 30 * 512 * PAGE_SIZE) with (PHYREMAP_VIRTUALBASE + z) by (unfold z; lia). done.
Qed.

End boot.
