(* ===== verification/PagingTheorems.v ===== *)
(** * Properties of paging

    Address spaces are isolated and follow the map and unmap operations; the
    boot-time tables translate exactly the addresses [V2P] converts; and where
    [unmap_range] and [paging_init] fail. *)

From S2P Require Import Prelude Types Links Buddy Pmm Paging PageTables PageOps PagingInit.

(** ** Sequences of operations on address spaces *)

Section trace.
Context {A : Type} `{!TableProvider A} (K : Z).
Implicit Types s : vm A.

Inductive vop :=
  | VNew
  | VMap (r va pa perm : Z)
  | VUnmap (r start last : Z).

(** The result of [VNew] is the new top-level table. *)
Definition run_vop (op : vop) : ST (vm A) (option Z) :=
  match op with
  | VNew => initialize K
  | VMap r va pa perm => map_page r va pa perm;; mret None
  | VUnmap r start last => unmap_range r start last;; mret None
  end.

(** User addresses of processes; ranges whose tables all exist. *)
Definition allowed (R : gset Z) (s : vm A) (op : vop) : Prop :=
  match op with
  | VNew => True
  | VMap r va pa perm => r ∈ R ∧ r ≠ K ∧ 0 <= va <= USER_TOP ∧ 0 <= perm < 256
  | VUnmap r start last => r ∈ R ∧ r ≠ K ∧ 0 <= start ∧ start mod PAGE_SIZE = 0 ∧ last mod PAGE_SIZE = 0 ∧
      VALID_USER_REGION start last = true ∧ ∀ va, start <= va <= last → is_Some (leaf s r va)
  end.

Definition roots_after (R : gset Z) (op : vop) (ret : option Z) : gset Z :=
  match op, ret with VNew, Some t => {[t]} ∪ R | _, _ => R end.

(** What the address spaces map after the operation. *)
Definition vspec (R : gset Z) (s s' : vm A) (op : vop) (ret : option Z) : Prop :=
  match op with
  | VNew => ∃ t, ret = Some t ∧ (t ∉ R) ∧ (∀ va, mapped s' t va = mapped s K va) ∧
      ∀ r va, r ∈ R → mapped s' r va = mapped s r va
  | VMap r va pa perm => ret = None ∧ ∀ r' va', r' ∈ R →
      mapped s' r' va' = if decide (r' = r ∧ same_page va va' ∧ mapped s r va = None)
                         then Some (page_entry pa perm) else mapped s r' va'
  | VUnmap r start last => ret = None ∧
      (∀ va, start <= va < last + PAGE_SIZE → mapped s' r va = None) ∧
      ∀ r' va, r' ∈ R → 0 <= va <= USER_TOP → (r' = r → va < start ∨ last + PAGE_SIZE <= va) → mapped s' r' va = mapped s r' va
  end.

Lemma user_page va va' : 0 <= va <= USER_TOP → 0 <= va' <= USER_TOP → same_page va va' ↔ va / PAGE_SIZE = va' / PAGE_SIZE.
Proof.
  intros H H'. rewrite same_page_no. unfold page_no. assert (USER_TOP = 2 ^ 47 - 1) as EU by done. rewrite PAGE_SIZE_pow.
  rewrite !Z.mod_small; [done|split; [apply Z.div_pos; lia|apply Z.div_lt_upper_bound; lia]..].
Qed.

Lemma unmap_range_ok R s r start last :
  pt_inv K R s → allowed R s (VUnmap r start last) →
  ∃ s', unmap_range r start last s = Some (tt, s') ∧ pt_inv K R s' ∧
    range_unmapped R s s' r start ((last - start) / PAGE_SIZE + 1).
Proof.
  intros HI (Hr & Hne & H0 & Hs & Hl & Hv & Hleaf).
  destruct (user_region start last Hv H0 Hs Hl) as (Hlt & Htop & Hw & n & Hn & Hf & Hlast).
  assert (PAGE_SIZE = 2097152) as EP by done.
  destruct (for_range_ok (λ k s', pt_inv K R s' ∧ (∀ r' va', r' ∈ R → leaf s' r' va' = leaf s r' va') ∧
    range_unmapped R s s' r start (Z.of_nat k)) n PAGE_SIZE last start (unmap_one r) s) as (s' & H1 & HI' & _ & Hu); [lia..|done| | |].
  { split; [done|]. split; [done|]. split; [lia|done]. }
  { intros k s1 Hk (HI1 & Hl1 & Hu1). destruct (Hleaf (start + Z.of_nat k * PAGE_SIZE)) as (p & Hp); [lia|].
    destruct (unmap_one_ok K R s1 r (start + Z.of_nat k * PAGE_SIZE) p HI1) as (s2 & H2 & HI2 & Hl2 & Ha);
      [apply user_target; [done..|lia]|by rewrite Hl1|].
    exists s2. split; [done|]. split; [done|]. split; [intros r' va' Hr'; by rewrite Hl2, Hl1|].
    rewrite Nat2Z.inj_succ, <- Z.add_1_r. by apply (range_unmapped_snoc R s s1); [|done|lia|]. }
  exists s'. rewrite Hn. split; [|done]. unfold unmap_range. rewrite Hs, Hl, Hv, Hf. exact H1.
Qed.

Lemma vop_ok R s op :
  pt_inv K R s → allowed R s op → supplies 2 (prov s) →
  ∃ ret s', run_vop op s = Some (ret, s') ∧ pt_inv K (roots_after R op ret) s' ∧ vspec R s s' op ret.
Proof.
  intros HI Ha Hsup. destruct op as [|r va pa perm|r start last]; cbn [run_vop vspec].
  - destruct (initialize_ok K R s 1 HI Hsup) as (t & s' & H1 & Hf & HI' & _ & Hm & Hold).
    exists (Some t), s'. split; [done|]. split; [done|]. by exists t.
  - destruct Ha as (Hr & Hne & Hva & Hp). pose proof (user_target K R r va Hr Hne Hva) as Htg.
    destruct (map_page_ok K R s r va pa perm 0 HI Htg Hp Hsup) as (code & s' & H1 & HI' & _ & _ & Hc).
    exists None, s'. split; [by rewrite (bind_run _ _ _ _ _ H1)|]. split; [done|]. split; [done|].
    intros r' va' Hr'. destruct (mapped s r va) eqn:E; destruct Hc as (_ & Hc).
    + rewrite decide_False; [by apply Hc|]. by intros (_ & _ & ?).
    + rewrite Hc by done. apply decide_ext. tauto.
  - destruct (unmap_range_ok R s r start last HI Ha) as (s' & H1 & HI' & [Hin Hout]).
    exists None, s'. split; [by rewrite (bind_run _ _ _ _ _ H1)|]. split; [done|]. split; [done|].
    destruct Ha as (Hr & Hne & H0 & Hs & Hl & Hv & _). destruct (user_region start last Hv H0 Hs Hl) as (Hlt & Htop & Hw & n & Hn & _ & Hlast).
    assert (PAGE_SIZE = 2097152) as EP by done. assert (USER_TOP = 2 ^ 47 - 1) as EU by done.
    apply Z.mod_divide in Hs as (a & ->); [|done]. apply Z.mod_divide in Hl as (b & ->); [|done].
    assert (0 <= a < b) as Hab by lia. assert (b < 2 ^ 26) as Hb by lia.
    assert ((b * PAGE_SIZE - a * PAGE_SIZE) / PAGE_SIZE + 1 = b - a + 1) as En by (rewrite <- Z.mul_sub_distr_r, Z.div_mul by done; done).
    rewrite En in Hin, Hout. split.
    + intros va Hva. pose proof (Z.div_mod va PAGE_SIZE ltac:(done)). pose proof (Z.mod_pos_bound va PAGE_SIZE ltac:(done)).
      apply (Hin (va / PAGE_SIZE - a)); [nia|]. apply same_page_no. unfold page_no. f_equal.
      rewrite <- Z.mul_add_distr_r, Z.div_mul by done. lia.
    + intros r' va Hr' Hva Hor. apply Hout; [done|]. intros -> k Hk Hsp.
      apply user_page in Hsp; [|nia|done]. rewrite <- Z.mul_add_distr_r, Z.div_mul in Hsp by done.
      pose proof (Z.div_mod va PAGE_SIZE ltac:(done)). pose proof (Z.mod_pos_bound va PAGE_SIZE ltac:(done)).
      destruct (Hor eq_refl); nia.
Qed.

Inductive vreach (R : gset Z) (s : vm A) : gset Z → vm A → Prop :=
  | vreach_refl : vreach R s R s
  | vreach_step R1 s1 s2 op ret : vreach R s R1 s1 → allowed R1 s1 op → supplies 2 (prov s1) →
      run_vop op s1 = Some (ret, s2) → vreach R s (roots_after R1 op ret) s2.

(** C9: address spaces are isolated.  Whatever sequence of creating address
    spaces and of mapping and unmapping user pages in them is run, as long as
    tables can be allocated: a new space starts with the kernel's mappings;
    mapping a page takes effect exactly on that page of that space, and not at
    all if it was mapped; unmapping a range removes exactly its pages and the
    one that starts at its end, from that space only. *)
Theorem spaces_isolated R s R' s' op :
  pt_inv K R s → vreach R s R' s' → allowed R' s' op → supplies 2 (prov s') →
  ∃ ret s'', run_vop op s' = Some (ret, s'') ∧ pt_inv K (roots_after R' op ret) s'' ∧ vspec R' s' s'' op ret.
Proof.
  intros HI Hre. assert (pt_inv K R' s') as HI'; [|by apply vop_ok].
  induction Hre as [|R1 s1 s2 o ret _ IH Ha Hs Hr]; [done|].
  destruct (vop_ok R1 s1 o IH Ha Hs) as (ret' & s3 & Hr' & HI3 & _). rewrite Hr in Hr'. by injection Hr' as <- <-.
Qed.

(** [unmap_range] needs every table of the range, the page at its end
    included: it completes exactly when they exist, and otherwise dereferences
    the null pointer that [walk_pgdir] returns. *)
Theorem unmap_range_tables R s r start last :
  pt_inv K R s → r ∈ R → r ≠ K → 0 <= start → start mod PAGE_SIZE = 0 → last mod PAGE_SIZE = 0 →
  VALID_USER_REGION start last = true →
  is_Some (unmap_range r start last s) ↔ ∀ va, start <= va <= last → is_Some (leaf s r va).
Proof.
  intros HI Hr Hne H0 Hs Hl Hv. split.
  2:{ intros Hleaf. destruct (unmap_range_ok R s r start last HI) as (s' & H & _); [by repeat split|by eexists]. }
  intros ([[] s'] & H) va Hva. destruct (user_region start last Hv H0 Hs Hl) as (Hlt & Htop & Hw & n & Hn & Hf & Hlast).
  assert (PAGE_SIZE = 2097152) as EP by done.
  unfold unmap_range in H. rewrite Hs, Hl, Hv, Hf in H. set (k := (va - start) / PAGE_SIZE).
  pose proof (Z.mul_div_le (va - start) PAGE_SIZE ltac:(done)) as Hk1.
  pose proof (Z.mul_succ_div_gt (va - start) PAGE_SIZE ltac:(done)) as Hk2.
  destruct (for_range_all (λ s', pt_inv K R s' ∧ ∀ va, leaf s' r va = leaf s r va) n PAGE_SIZE last start (unmap_one r) s s' H)
    as (_ & Hall); [lia..|done|done| |].
  { intros x s1 s2 (HI1 & Hl1) H1. destruct (leaf s1 r x) as [p|] eqn:Hp; [|by rewrite (unmap_one_none K R) in H1].
    unfold unmap_one in H1. rewrite (bind_run _ _ _ _ _ (walk_find K R s1 r x 0 HI1 Hr)), Hp in H1.
    destruct (leaf_word K R s1 r x p HI1 Hr Hp) as (v & Hwv). unfold read, lift, mbind, ST_bind in H1. rewrite Hwv in H1.
    destruct (present v); [|by injection H1 as <-]. destruct (write_leaf K R s1 r x p 0 HI1 Hr Hp) as (Hwr & HI2 & Hl2 & _).
    rewrite Hwr in H1. injection H1 as <-. split; [done|]. intros y. by rewrite Hl2, Hl1. }
  destruct (Hall k) as (s1 & s2 & (HI1 & Hl1) & H1); [unfold k; nia|].
  destruct (leaf s1 r (start + k * PAGE_SIZE)) as [p|] eqn:Hp; [|by rewrite (unmap_one_none K R) in H1].
  rewrite Hl1 in Hp. exists p. rewrite <- Hp. apply leaf_page. apply user_page; [unfold k; nia|nia|].
  symmetry. apply Z.mod_divide in Hs as (a & ->); [|done]. rewrite <- Z.mul_add_distr_r, Z.div_mul by done.
  replace va with (va - a * PAGE_SIZE + a * PAGE_SIZE) at 1 by lia. rewrite Z.div_add by done. unfold k. lia.
Qed.

End trace.

(** ** Boot *)

Section boot_theorems.
Context {A : Type} `{!TableProvider A}.


(** Boot fails when the memory map ends with a reserved region at a
    multiple of 1 GB, such as the firmware region below 4 GB: marking it as
    device memory goes on to the page after its end, for which there is no
    table, and dereferences a null pointer. *)
Theorem boot_overruns (a : A) es e :
  tp_inv a → supplies (boot_tables es) a →
  (∀ x, x ∈ es → 0 <= addr x ∧ 0 <= len x ∧ addr x + len x <= PHYMEMORY_SIZE) →
  e ∈ es → available e = false → addr e + len e = max_pa es → max_pa es mod 2 ^ 30 = 0 →
  boot es (Vm ∅ a) = None.
Proof.
  intros Hinv Hs Hok He Ha Hend Hm. destruct (boot_maps a es Hinv Hs) as (k & s0 & s1 & s2 & H0 & H1 & H2 & B).
  destruct (boot es (Vm ∅ a)) as [[k' s3]|] eqn:E; [exfalso|done]. unfold boot in E. rewrite (bind_run _ _ _ _ _ H0) in E.
  apply bind_inv in E as ([] & s4 & E & _). unfold paging_init in E. rewrite (bind_run _ _ _ _ _ H1) in E.
  apply bind_inv in E as ([] & s5 & E5 & E). unfold kassert in E5. destruct (is_sorted es); [|done]. injection E5 as <-.
  rewrite (bind_run _ _ _ _ _ H2) in E.
  apply (mark_devices_inv k es s2 s4 e Hok (bo_inv _ _ _ _ _ B)) in E; [|done..]. rewrite Hend in E.
  apply Z.mod_divide in Hm as (g & Hm); [|done]. assert (max_pa es / PAGE_SIZE = g * 512) as Eq.
  { rewrite Hm, PAGE_SIZE_pow. replace (g * 2 ^ 30) with (g * 512 * 2 ^ 21) by lia. by rewrite Z.div_mul. }
  pose proof (max_pa_range es). rewrite Eq in E. replace (g * 512 * PAGE_SIZE) with (max_pa es) in E by (rewrite Hm, PAGE_SIZE_pow; lia).
  apply (booted_tables es k s0 s1 s2 _ B) in E; [|done]. rewrite Eq, Hm, Z.div_mul, PAGE_SIZE_pow in E by done. lia.
Qed.

End boot_theorems.

(** ** An example *)

(** Tables taken in sequence from 60 MB of the kernel image. *)
Definition bump_first : Z := KERNEL_VIRTUALBASE + 0x400000.
Definition bump_limit : Z := KERNEL_VIRTUALBASE + 0x4000000.

Lemma bump_law a :
  bump_first <= a → a mod 4096 = 0 → a < bump_limit →
  (bump_first <= a + 4096 ∧ (a + 4096) mod 4096 = 0) ∧ table_at a ∧
  ∀ q, (bump_first <= q < a + 4096 ∧ q mod 4096 = 0) ↔ (bump_first <= q < a ∧ q mod 4096 = 0) ∨ q = a.
Proof.
  intros H1 H2 Hlt. assert (bump_first = KERNEL_VIRTUALBASE + 0x400000) as EF by done.
  assert (bump_limit = KERNEL_VIRTUALBASE + 0x4000000) as EL by done.
  split; [split; [lia|rewrite Z.add_mod, H2 by done; done]|]. split.
  - exists (a - KERNEL_VIRTUALBASE). assert (KERNEL_SIZE = 2 ^ 31) as EK by done. assert (PHYMEMORY_SIZE = 2 ^ 46) as EM by done.
    unfold phys_va. rewrite (proj2 (Z.ltb_lt _ _)) by lia. split; [lia|]. split; [lia|]. split; [lia|]. rewrite Zminus_mod, H2. done.
  - intros q. apply Z.mod_divide in H2 as (y & ->); [|done]. split; [|intros [(? & ?)| ->]; (split; [lia|])]; [|done|by apply Z.mod_mul].
    intros (Hq & Hm). apply Z.mod_divide in Hm as (x & ->); [|done].
    destruct (Z.lt_ge_cases x y); [left; split; [lia|by apply Z.mod_mul]|right; lia].
Qed.

#[refine] Instance bump_tables : TableProvider Z := {
  alloc_table a := if a <? bump_limit then Some (a, a + 4096) else Some (0, a);
  free_table _ a := Some (tt, a);
  tp_inv a := bump_first <= a ∧ a mod 4096 = 0;
  in_use a q := bump_first <= q < a ∧ q mod 4096 = 0;
}.
Proof.
  intros a t a' (H1 & H2). destruct (Z.ltb_spec a bump_limit) as [Hlt|]; intros [= <- <-] Ht; [|done].
  destruct (bump_law a H1 H2 Hlt) as (B1 & B2 & B3). do 2 (split; [done|]). split; [lia|done].
Defined.

Lemma bump_supplies n a : bump_first <= a → a + Z.of_nat n * 4096 <= bump_limit → supplies n a.
Proof.
  revert a. induction n as [|n IH]; intros a H1 H2; [done|]. exists a, (a + 4096). assert (0 < bump_first) by done.
  split; [|split; [lia|apply IH; lia]]. cbn. rewrite (proj2 (Z.ltb_lt a bump_limit)) by lia. done.
Qed.

(** A process with a page that the kernel and other processes do not see. *)
Lemma spaces_isolated_witness :
  ∃ k s t s1 ret s2, init_vmm (Vm ∅ bump_first) = Some (k, s) ∧ run_vop k VNew s = Some (Some t, s1) ∧
    run_vop k (VMap t 0x400000 0x800000 PG_W) s1 = Some (ret, s2) ∧
    mapped s2 t 0x412345 = Some (page_entry 0x800000 PG_W) ∧ mapped s2 k 0x412345 = None.
Proof.
  destruct (init_vmm_ok bump_first 9) as (k & s & H0 & HI & Hs & Hl); [by split|by apply bump_supplies|].
  assert (∀ va, mapped s k va = None) as Hm by (intros va; unfold mapped; by rewrite Hl).
  destruct (spaces_isolated k {[k]} s {[k]} s VNew HI (vreach_refl k _ _)) as (ret & s1 & H1 & HI1 & t & -> & Ht & Hm1 & Hm1');
    [done|by do 7 apply supplies_S|].
  assert (t ≠ k) as Hne by (intros ->; by apply Ht, elem_of_singleton).
  destruct (spaces_isolated k {[k]} s _ s1 (VMap t 0x400000 0x800000 PG_W) HI
    (vreach_step k _ _ _ _ _ VNew _ (vreach_refl k _ _) I ltac:(by do 7 apply supplies_S) H1)) as (ret & s2 & H2 & HI2 & -> & Hm2).
  { repeat split; try done. by apply elem_of_union_l, elem_of_singleton. }
  { destruct (initialize_ok k {[k]} s 8 HI Hs) as (t' & s1' & H1' & _ & _ & Hs1 & _). cbn [run_vop] in H1. rewrite H1 in H1'. injection H1' as <- <-.
    by do 6 apply supplies_S. }
  exists k, s, t, s1, None, s2. do 3 (split; [done|]). split.
  - rewrite Hm2 by (by apply elem_of_union_l, elem_of_singleton). rewrite decide_True; [done|]. by rewrite Hm1, Hm.
  - rewrite Hm2 by (by apply elem_of_union_r, elem_of_singleton). rewrite decide_False; [|intros (E & _); by apply Hne].
    by rewrite Hm1', Hm by by apply elem_of_singleton.
Defined.

(** A process without tables cannot unmap anything. *)
Lemma unmap_range_tables_witness :
  ∃ k s t s1, init_vmm (Vm ∅ bump_first) = Some (k, s) ∧ run_vop k VNew s = Some (Some t, s1) ∧
    (is_Some (unmap_range t 0x400000 0x600000 s1) ↔ ∀ va, 0x400000 <= va <= 0x600000 → is_Some (leaf s1 t va)).
Proof.
  destruct (init_vmm_ok bump_first 9) as (k & s & H0 & HI & Hs & Hl); [by split|by apply bump_supplies|].
  destruct (initialize_ok k {[k]} s 8 HI Hs) as (t & s1 & H1 & Ht & HI1 & _).
  exists k, s, t, s1. split; [done|]. split; [done|].
  apply (unmap_range_tables k ({[t]} ∪ {[k]}) s1 t 0x400000 0x600000 HI1);
    [by apply elem_of_union_l, elem_of_singleton|intros ->; by apply Ht, elem_of_singleton|done..].
Defined.

(** 512 MB of memory. *)
Definition ex_memory : list mmap_entry := [Mmap 0 0x9fc00 true; Mmap 0x9fc00 0x60400 false; Mmap 0x100000 0x1ff00000 true].


(** The memory map of a machine with 512 MB and firmware below 4 GB. *)
Definition ex_firmware : list mmap_entry := [Mmap 0 0x20000000 true; Mmap 0xfffc0000 0x40000 false].

Lemma boot_overruns_witness : boot ex_firmware (Vm ∅ bump_first) = None.
Proof.
  apply (boot_overruns bump_first ex_firmware (Mmap 0xfffc0000 0x40000 false)); [by split|by apply bump_supplies| |by right; left|done..].
  intros x Hx. repeat (apply elem_of_cons in Hx as [->|Hx]; [repeat split; done|]). by apply not_elem_of_nil in Hx.
Defined.
