(* ===== verification/PageRefs.v ===== *)
(** * Pages in page tables: [kern/memory/pmm/pmm.cc], [copy_range] of [paging.cc]

    [physical_memory_manager] maps pages it allocates and counts in [page->ref]
    how many entries map a page.  The state is that of [Paging] with the
    reference counts of the pages beside it, indexed as the page array is; the
    locks of the manager are taken and released within its operations.  Pages
    come from a provider that is a class, as the tables do. *)

From S2P Require Import Prelude Types Links Buddy Pmm Paging.

(** What [allocate(n)] and [free(base, n)] promise for single pages, next to
    what [pgdir_entry_alloc] promises: a page that is handed out is in nobody's
    hands, and tables do not take pages away. *)
Class FrameProvider (page_count : Z) (A : Type) := {
  fp_tables :: TableProvider A;
  alloc_frames : Z → ST A (option Z);
  free_frames : Z → Z → ST A unit;
  frame : A → Z → Prop;
  frame_range a p : frame a p → 0 <= p < page_count;
  alloc_frame_law a : tp_inv a → ∃ r a', alloc_frames 1 a = Some (r, a') ∧ tp_inv a' ∧
    (∀ t, in_use a' t ↔ in_use a t) ∧
    match r with
    | Some p => ¬ frame a p ∧ ∀ q, frame a' q ↔ frame a q ∨ q = p
    | None => ∀ q, frame a' q ↔ frame a q
    end;
  free_frame_law a p : tp_inv a → frame a p → ∃ a', free_frames p 1 a = Some (tt, a') ∧ tp_inv a' ∧
    (∀ t, in_use a' t ↔ in_use a t) ∧ ∀ q, frame a' q ↔ frame a q ∧ q ≠ p;
  table_frame_law a t a' q : tp_inv a → alloc_table a = Some (t, a') → frame a' q ↔ frame a q;
}.

Record pm (A : Type) := Pm { tables : vm A; refs : gmap Z Z }.
Arguments Pm {A}.
Arguments tables {A}.
Arguments refs {A}.

Section page_refs.
Context {A : Type} (pages_end page_count : Z) `{!FrameProvider page_count A}.

Abbreviation PM := (ST (pm A)).

(** A computation on the tables. *)
Definition on_tables {B} (c : ST (vm A) B) : PM B := λ s,
  match c (tables s) with Some (x, v) => Some (x, Pm v (refs s)) | None => None end.

Definition on_frames {B} (c : ST A B) : PM B :=
  on_tables (λ v, match c (prov v) with Some (x, a) => Some (x, Vm (words v) a) | None => None end).

Definition lift_pm {B} (o : option B) : PM B := λ s, match o with Some x => Some (x, s) | None => None end.

Definition ref_of (p : Z) : PM Z := λ s, lift_pm (refs s !! p) s.
Definition set_ref (p n : Z) : PM unit := λ s, Some (tt, Pm (tables s) (<[p := n]> (refs s))).

(** [allocate(n)]; a null pointer is [None]. *)
Definition pm_allocate (n : Z) : PM (option Z) := on_frames (alloc_frames n).

(** The provider clears the count of the pages it takes back. *)
Fixpoint clear_refs (n : nat) (p : Z) (m : gmap Z Z) : gmap Z Z :=
  match n with O => m | S n => <[p := 0]> (clear_refs n (p + 1) m) end.

Definition reset_refs (p n : Z) : PM unit := λ s, Some (tt, Pm (tables s) (clear_refs (Z.to_nat n) p (refs s))).

Definition pm_free (p n : Z) : PM unit := on_frames (free_frames p n);; reset_refs p n.

Definition pde_to_page (pde : Z) : option Z := pa_to_page pages_end page_count (pde_to_pa pde).

Definition remove_from_pgdir (pde : Z) : PM unit :=
  v ← on_tables (read pde);
  if present v then
    page ← lift_pm (pde_to_page v);
    n ← ref_of page;
    set_ref page (n -w 1);;
    (if n -w 1 =? 0 then pm_free page 1 else mret tt);;
    on_tables (write pde 0)
  else mret tt.

(** The entry of a page that is mapped with [perm]. *)
Definition frame_entry (pa perm : Z) : Z := Z.lor (Z.lor (Z.lor pa PG_PS) PG_P) perm.

(** The entry [pde] with value [v] makes room for [page]; [true] if it belongs to
    another page that must stay. *)
Definition displace (page pde v : Z) (allow_rewrite : bool) : PM bool :=
  if v =? 0 then mret false else
  other ← (if allow_rewrite then mret false else q ← lift_pm (pde_to_page v); mret (negb (q =? page)));
  if (other : bool) then mret true else
  same ← (if present v then q ← lift_pm (pde_to_page v); mret (q =? page) else mret false);
  (if (same : bool) then n ← ref_of page; set_ref page (n -w 1) else remove_from_pgdir pde);;
  mret false.

Definition insert_page (page va perm pgdir : Z) (allow_rewrite : bool) : PM error_code_values :=
  pde ← on_tables (vmm_walk_pgdir pgdir va true);
  match pde with
  | None => mret ERROR_MEMORY_ALLOC
  | Some pde =>
      n ← ref_of page;
      set_ref page (n +w 1);;
      v ← on_tables (read pde);
      stop ← displace page pde v allow_rewrite;
      if (stop : bool) then mret ERROR_REWRITE else
      pa ← lift_pm (page_to_pa pages_end page);
      on_tables (write pde (frame_entry pa perm));;
      mret ERROR_SUCCESS
  end.

Definition remove_page (va pgdir : Z) : PM unit :=
  pde ← on_tables (vmm_walk_pgdir pgdir va false);
  match pde with None => mret tt | Some pde => remove_from_pgdir pde end.

(** [error_code_with_result<page *>]: an error or a page, which may be null. *)
Abbreviation page_result := (error_code_values + option Z)%type.

(** [allocate(va, perm, pgdir, rewrite_if_exist)] *)
Definition allocate_at (va perm pgdir : Z) (rewrite : bool) : PM page_result :=
  kassert (negb (pgdir =? 0));;
  kassert (negb (va =? 0));;
  page ← pm_allocate 1;
  match page with
  | None => mret (inr None)
  | Some page =>
      ret ← insert_page page va perm pgdir rewrite;
      if decide (ret = ERROR_SUCCESS) then mret (inr (Some page)) else pm_free page 1;; mret (inl ret)
  end.

(** The loop of [allocate(va, n, perm, pgdir, rewrite_if_exist)]: [p] is the next
    page, [i] the next page of the range; an address that is mapped is skipped. *)
Fixpoint allocate_loop (fuel : nat) (va n perm pgdir : Z) (rewrite : bool) (base p i : Z) : PM page_result :=
  match fuel with
  | O => st_fail
  | S fuel =>
      ret ← insert_page p (va +w i * PAGE_SIZE) perm pgdir rewrite;
      if decide (ret = ERROR_SUCCESS) then
        if p + 1 =? base + n then mret (inr (Some base))
        else allocate_loop fuel va n perm pgdir rewrite base (p + 1) (i + 1)
      else if decide (ret = ERROR_REWRITE) then
        if p =? base + n then mret (inr (Some base))
        else allocate_loop fuel va n perm pgdir rewrite base p (i + 1)
      else pm_free base n;; mret (inl ret)
  end.

Definition allocate_range (fuel : nat) (va n perm pgdir : Z) (rewrite : bool) : PM page_result :=
  pages ← pm_allocate n;
  match pages with
  | None => mret (inr None)
  | Some base => allocate_loop fuel va n perm pgdir rewrite base base 0
  end.

(** [vmm::copy_range]: the body and the loop. *)
Definition copy_one (from to a : Z) : PM unit :=
  pte ← on_tables (walk_pgdir from a false 0);
  match pte with
  | None => st_fail
  | Some pte =>
      v ← on_tables (read pte);
      if present v then
        page ← lift_pm (pde_to_page v);
        insert_page page a (Z.land v (Z.lor (Z.lor PG_P PG_W) PG_U)) to true;;
        mret tt
      else mret tt
  end.

Fixpoint copy_loop (fuel : nat) (from to last a : Z) : PM unit :=
  if a <=? last then
    match fuel with
    | O => st_fail
    | S fuel => copy_one from to a;; copy_loop fuel from to last (a +w PAGE_SIZE)
    end
  else mret tt.

Definition copy_range (from to start last : Z) : PM unit :=
  copy_loop (range_fuel PAGE_SIZE start last) from to last start.

End page_refs.

Arguments pm_allocate {A page_count _} n.
Arguments pm_free {A page_count _} p n.
