(* ===== verification/PageRefInv.v ===== *)
(** * Reference counts of mapped pages

    An abstract map [M] from user pages (a top-level table and a page number) to
    the page that is mapped there and its permission bits.  The invariant says
    that the tables map what [M] says, that the count of every page is the
    number of its entries in [M], and that the pages in use are those with a
    count; one lemma per operation of [PageRefs] says what becomes of [M]. *)

From S2P Require Import Prelude Types Links Buddy Pmm Paging PageTables PageOps PagingInit PageRefs.

Abbreviation key := (Z * Z)%type.

(** ** Counting *)

Definition maps_frame (f : Z) (kv : key * (Z * Z)) : Prop := kv.2.1 = f.

#[export] Instance maps_frame_dec f kv : Decision (maps_frame f kv).
Proof. unfold maps_frame. apply _. Defined.

Definition count (M : gmap key (Z * Z)) (f : Z) : Z := Z.of_nat (size (filter (maps_frame f) M)).

Definition one (f g : Z) : Z := if decide (f = g) then 1 else 0.

Lemma count_nonneg M f : 0 <= count M f.
Proof. unfold count. lia. Qed.

Lemma count_insert M k f perm g : M !! k = None → count (<[k := (f, perm)]> M) g = count M g + one f g.
Proof.
  intros Hk. unfold count, one. rewrite map_filter_insert. case_decide as E; unfold maps_frame in E; simpl in E.
  - rewrite map_size_insert_None by (apply map_lookup_filter_None; by left). rewrite decide_True by done. lia.
  - rewrite delete_id by done. rewrite decide_False by done. lia.
Qed.

Lemma count_delete M k f perm g : M !! k = Some (f, perm) → count M g = count (delete k M) g + one f g.
Proof.
  intros Hk. rewrite <- (insert_delete_id M k (f, perm)) at 1 by done. apply count_insert, lookup_delete_eq.
Qed.

Lemma count_pos M f : 0 < count M f ↔ ∃ k perm, M !! k = Some (f, perm).
Proof.
  unfold count. split.
  - intros H. destruct (map_choose (filter (maps_frame f) M)) as (k & [g perm] & E).
    { intros E. rewrite E, map_size_empty in H. lia. }
    apply map_lookup_filter_Some in E as (E & Hf). unfold maps_frame in Hf. simpl in Hf. subst. eauto.
  - intros (k & perm & E). assert (size (filter (maps_frame f) M) ≠ 0%nat); [|lia].
    apply (map_size_ne_0_lookup_2 _ k). exists (f, perm). by apply map_lookup_filter_Some.
Qed.

Lemma count_le M f : count M f <= Z.of_nat (size M).
Proof. unfold count. apply inj_le, map_subseteq_size, map_filter_subseteq. Qed.

(** Keys within a set of tables times a number of pages. *)
Lemma keys_bound (M : gmap key (Z * Z)) (R : gset Z) (N : nat) :
  (∀ r n x, M !! (r, n) = Some x → r ∈ R ∧ 0 <= n < Z.of_nat N) → (size M <= size R * N)%nat.
Proof.
  intros H. set (l := elements R ≫= λ r, (λ n, (r, Z.of_nat n)) <$> seq 0 N).
  assert (length l = size R * N)%nat as <-.
  { unfold l, size, set_size. cbn. induction (elements R) as [|r rs IH]; [done|]. cbn.
    rewrite length_app, length_fmap, length_seq, IH. done. }
  rewrite <- size_dom. unfold size, set_size. cbn. apply submseteq_length, NoDup_submseteq; [apply NoDup_elements|].
  intros [r n] (x & Hx)%elem_of_elements%elem_of_dom. destruct (H _ _ _ Hx) as (Hr & Hn). unfold l.
  apply list_elem_of_bind. exists r. split; [|by apply elem_of_elements].
  apply list_elem_of_fmap. exists (Z.to_nat n). split; [f_equal; lia|]. apply elem_of_seq. lia.
Qed.

(** ** What walking the tables leaves alone *)

(** Entries that are not present are zero. *)
Definition tidy {A} (s : vm A) : Prop := ∀ p v, words s !! p = Some v → present v = false → v = 0.

Lemma zero_words_cases t n m p v : zero_words t n m !! p = Some v → v = 0 ∨ m !! p = Some v.
Proof.
  induction n as [|n IH]; [by right|]. change (zero_words t (S n) m) with (<[entry t (Z.of_nat n) := 0]> (zero_words t n m)).
  rewrite lookup_insert. case_decide; [intros [= <-]; by left|done].
Qed.

Lemma tidy_insert {A} (s : vm A) p v (a : A) :
  tidy s → (present v = false → v = 0) → tidy (Vm (<[p := v]> (words s)) a).
Proof. intros H Hv q w. cbn [words]. rewrite lookup_insert. case_decide; [intros [= <-]; done|apply H]. Qed.

Section walk.
Context {A : Type} {page_count : Z} `{!FrameProvider page_count A}.
Implicit Types s : vm A.

(** The walk keeps the entries tidy and the pages in use. *)
Definition kept (s s' : vm A) : Prop :=
  tidy s' ∧ tp_inv (prov s') ∧ ∀ f, frame (prov s') f ↔ frame (prov s) f.

Lemma next_level_kept s e perm o s' :
  tp_inv (prov s) → tidy s → next_level e true perm s = Some (o, s') → kept s s'.
Proof.
  intros Ha Ht H. unfold next_level in H. apply bind_inv in H as (v & s1 & H1 & H).
  unfold read, lift in H1. destruct (words s !! e); [|done]. injection H1 as <- <-. destruct (present z).
  { apply bind_inv in H as (t & s1 & H1 & H). unfold lift in H1. destruct (P2V _); [|done]. injection H1 as _ <-. injection H as <- <-. done. }
  apply bind_inv in H as (t & s1 & H1 & H). unfold pgdir_entry_alloc in H1.
  destruct (alloc_table (prov s)) as [[t' a]|] eqn:Hal; [|done]. injection H1 as <- <-.
  apply bind_inv in H as ([] & s1 & H1 & H). unfold kassert in H1. destruct (t' =? 0) eqn:Ht0; [done|]. injection H1 as <-.
  apply Z.eqb_neq in Ht0. apply bind_inv in H as ([] & s1 & H1 & H). unfold memset_table, change_words in H1. injection H1 as <-.
  apply bind_inv in H as (pa & s1 & H1 & H). unfold lift in H1. destruct (V2P t'); [|done]. injection H1 as <- <-.
  apply bind_inv in H as ([] & s1 & H1 & H). unfold write in H1. destruct (words _ !! e); [|done]. injection H1 as <-. injection H as <- <-.
  split; [|split; [by apply (alloc_table_law _ _ _ Ha Hal)|intros f; by apply (table_frame_law _ t')]].
  apply (tidy_insert (Vm (zero_words t' (Z.to_nat (PGTABLE_SIZE / 8)) (words s)) a)).
  - intros p w. cbn [words]. intros [->|Hw]%zero_words_cases Hp; [done|by apply (Ht p)].
  - by rewrite present_odd, !odd_lor, orb_true_r.
Qed.

Lemma walk_kept s r va perm o s' :
  tp_inv (prov s) → tidy s → walk_pgdir r va true perm s = Some (o, s') → kept s s'.
Proof.
  intros Ha Ht H. unfold walk_pgdir in H. apply bind_inv in H as (o1 & s1 & H1 & H).
  destruct (next_level_kept s _ perm o1 s1 Ha Ht H1) as (Ht1 & Ha1 & Hf1).
  destruct o1 as [t|]; [|injection H as <- <-; done]. apply bind_inv in H as (o2 & s2 & H2 & H).
  destruct (next_level_kept s1 _ perm o2 s2 Ha1 Ht1 H2) as (Ht2 & Ha2 & Hf2).
  assert (s2 = s') as -> by (destruct o2; by injection H).
  split; [done|]. split; [done|]. intros f. by rewrite Hf2.
Qed.

Lemma pt_inv_prov K R s a :
  pt_inv K R s → tp_inv a → (∀ t, in_use a t ↔ in_use (prov s) t) → pt_inv K R (Vm (words s) a).
Proof.
  intros (L2 & L3 & []) Ha Hu. exists L2, L3. split; try done. intros t Ht. split; [by apply tr_table|]. by apply Hu, tr_table.
Qed.

End walk.

(** ** The invariant *)

Section refs.
Context {A : Type} (pages_end page_count : Z) `{!FrameProvider page_count A} (K : Z) (R : gset Z).
Context (Hend : KERNEL_VIRTUALBASE <= pages_end) (Hend2 : pages_end + PAGE_SIZE < 2 ^ 64).
Context (Hmem : page_count * PAGE_SIZE <= 2 ^ 45) (Hspaces : Z.of_nat (size R) < 2 ^ 32).
Implicit Types s : pm A.

Definition entry_of (x : Z * Z) : Z := frame_entry (default 0 (page_to_pa pages_end x.1)) x.2.

Lemma page_pa f :
  0 <= f < page_count → ∃ pa, page_to_pa pages_end f = Some pa ∧ 0 <= pa < 2 ^ 63 ∧ pa mod PAGE_SIZE = 0 ∧
    pa_to_page pages_end page_count pa = Some f.
Proof.
  intros Hf. destruct (pavailable_start_spec pages_end Hend Hend2) as (d & Hs & Hd & Hr).
  assert (KERNEL_SIZE = 2 ^ 31) as EK by done. assert (PAGE_SIZE = 2097152) as EP by done.
  destruct (pa_to_page_ok pages_end page_count Hend Hend2 f _ d Hs eq_refl Hd Hf) as (H1 & H2); [lia|].
  eexists. split; [exact H1|]. split; [lia|]. split; [|exact H2]. unfold pavailable_start in Hs.
  destruct (roundup_spec pages_end PAGE_SIZE) as (k & Ek & Hk); [|lia..|]. { unfold KERNEL_VIRTUALBASE in Hend. lia. }
  rewrite Ek, V2P_kernel in Hs by (unfold KERNEL_VIRTUALBASE in *; lia). injection Hs as <-.
  replace (PAGE_SIZE * k - KERNEL_VIRTUALBASE + f * PAGE_SIZE) with ((k - KERNEL_VIRTUALBASE / PAGE_SIZE + f) * PAGE_SIZE).
  - by apply Z.mod_mul.
  - change (KERNEL_VIRTUALBASE / PAGE_SIZE) with 0x7fffffffc00. unfold KERNEL_VIRTUALBASE. lia.
Qed.

Lemma entry_of_present x : present (entry_of x) = true.
Proof. unfold entry_of, frame_entry. rewrite present_odd, !odd_lor. change (Z.odd PG_P) with true. by rewrite orb_true_r. Qed.

Lemma entry_of_nonzero x : (entry_of x =? 0) = false.
Proof. apply Z.eqb_neq. intros E. pose proof (entry_of_present x) as H. by rewrite E in H. Qed.

Lemma entry_of_page f perm :
  0 <= f < page_count → 0 <= perm < 256 → pde_to_page pages_end page_count (entry_of (f, perm)) = Some f.
Proof.
  intros Hf Hp. destruct (page_pa f Hf) as (pa & H1 & H2 & H3 & H4). unfold pde_to_page, entry_of, frame_entry.
  cbn [fst snd]. rewrite H1. cbn [default]. rewrite <- !Z.lor_assoc, flagged_pa; [done..|]. by repeat apply lor_flags.
Qed.

(** A page held by the operation that runs, with what has been added to its
    count already. *)
Abbreviation hold := (option (Z * Z)).

Definition pending (h : hold) (f : Z) : Z := match h with Some (g, d) => if decide (g = f) then d else 0 | None => 0 end.
Definition holds (h : hold) (f : Z) : Prop := match h with Some (g, _) => g = f | None => False end.

(** [hole] is a user page whose entry is about to be written. *)
Record refs_inv (h : hold) (hole : option key) (M : gmap key (Z * Z)) (s : pm A) : Prop := {
  ri_pt : pt_inv K R (tables s);
  ri_tidy : tidy (tables s);
  ri_dom r n x : M !! (r, n) = Some x → r ∈ R ∧ r ≠ K ∧ 0 <= n < 2 ^ 26 ∧ 0 <= x.1 < page_count ∧ 0 <= x.2 < 256;
  ri_maps r va : r ∈ R → r ≠ K → 0 <= va <= USER_TOP → hole ≠ Some (r, page_no va) →
    mapped (tables s) r va = entry_of <$> M !! (r, page_no va);
  ri_ref f : 0 <= f < page_count → refs s !! f = Some (count M f + pending h f);
  ri_frame f : frame (prov (tables s)) f ↔ 0 < count M f ∨ holds h f;
}.

Lemma user_page_no va : 0 <= va <= USER_TOP → 0 <= page_no va < 2 ^ 26.
Proof.
  intros H. assert (USER_TOP = 2 ^ 47 - 1) as EU by done. unfold page_no. rewrite PAGE_SIZE_pow.
  assert (0 <= va / 2 ^ 21 < 2 ^ 26) by (split; [apply Z.div_pos; lia|apply Z.div_lt_upper_bound; lia]).
  rewrite Z.mod_small; lia.
Qed.

Lemma refs_small h hole M s f : refs_inv h hole M s → count M f + 2 ^ 32 < 2 ^ 64.
Proof.
  intros HI. pose proof (count_le M f). destruct (Z_of_nat_complete (2 ^ 26)) as (N & EN); [done|].
  assert (size M <= size R * N)%nat as Hk.
  { apply keys_bound. intros r n x Hx. destruct (ri_dom _ _ _ _ HI r n x Hx) as (Hr & _ & Hn & _). split; [done|]. by rewrite <- EN. }
  apply inj_le in Hk. rewrite Nat2Z.inj_mul, <- EN in Hk. lia.
Qed.

Lemma ri_tp h hole M s : refs_inv h hole M s → tp_inv (prov (tables s)).
Proof. intros HI. destruct (ri_pt _ _ _ _ HI) as (L2 & L3 & Ht). by apply (tr_prov _ _ _ _ _ Ht). Qed.

(** ** One lemma per step *)

Lemma on_tables_run {B} (c : ST (vm A) B) s x v : c (tables s) = Some (x, v) → on_tables c s = Some (x, Pm v (refs s)).
Proof. unfold on_tables. by intros ->. Qed.

Lemma read_run (v : vm A) p x : words v !! p = Some x → read p v = Some (x, v).
Proof. unfold read, lift. by intros ->. Qed.

Lemma ref_of_run s f n : refs s !! f = Some n → ref_of f s = Some (n, s).
Proof. unfold ref_of, lift_pm. by intros ->. Qed.

Lemma mapped_words (s s' : vm A) r va : words s' = words s → mapped s' r va = mapped s r va.
Proof. intros E. unfold mapped, leaf, table_of. by rewrite !E. Qed.

Lemma leaf_words (s s' : vm A) r va : words s' = words s → leaf s' r va = leaf s r va.
Proof. intros E. unfold leaf, table_of. by rewrite !E. Qed.

Definition user (r va : Z) : Prop := r ∈ R ∧ r ≠ K ∧ 0 <= va <= USER_TOP.

Lemma user_is_target r va : user r va → target K R r va.
Proof. intros (H1 & H2 & H3). by apply user_target. Qed.

Lemma walk_refs h hole M s r va n :
  refs_inv h hole M s → user r va → supplies (2 + n) (prov (tables s)) →
  ∃ p s', on_tables (vmm_walk_pgdir r va true) s = Some (Some p, s') ∧ refs_inv h hole M s' ∧ leaf (tables s') r va = Some p ∧
    supplies n (prov (tables s')).
Proof.
  intros HI Hu Hs. pose proof Hu as (Hr & Hne & Hva). destruct HI as [Hpt Hti Hd Hm Hrf Hfr].
  destruct (walk_create K R (tables s) r va (Z.lor PG_U PG_W) n Hpt Hr) as (p & v & Hw & Hpt' & Hl & Hmp & _ & Hsn);
    [by apply (target_kernel K R r va), user_is_target|done|done|].
  assert (tp_inv (prov (tables s))) as Htp by (destruct Hpt as (? & ? & []); done).
  destruct (walk_kept _ _ _ _ _ _ Htp Hti Hw) as (Hti' & _ & Hf).
  exists p, (Pm v (refs s)). split; [by apply on_tables_run|]. split; [|by split]. split; try done.
  - intros r' va' H1 H2 H3 H4. cbn [tables]. rewrite Hmp by done. by apply Hm.
  - intros f. cbn [tables]. rewrite Hf. apply Hfr.
Qed.

Lemma word_at h M s r va p :
  refs_inv h None M s → user r va → leaf (tables s) r va = Some p →
  words (tables s) !! p = Some (match M !! (r, page_no va) with Some x => entry_of x | None => 0 end).
Proof.
  intros HI (Hr & Hne & Hva) Hl. destruct (leaf_word K R (tables s) r va p (ri_pt _ _ _ _ HI) Hr Hl) as (v & Hv).
  pose proof (ri_maps _ _ _ _ HI r va Hr Hne Hva ltac:(done)) as Hm. rewrite (mapped_leaf _ _ _ _ _ Hl Hv) in Hm.
  rewrite Hv. destruct (M !! (r, page_no va)) as [x|], (present v) eqn:Hp; try done.
  by rewrite (ri_tidy _ _ _ _ HI p v Hv Hp).
Qed.

(** Filling the hole. *)
Lemma write_refs h h' M M' s r va p v :
  refs_inv h (Some (r, page_no va)) M s → user r va → leaf (tables s) r va = Some p →
  (present v = false → v = 0) → (if present v then Some v else None) = entry_of <$> M' !! (r, page_no va) →
  (∀ k, k ≠ (r, page_no va) → M' !! k = M !! k) →
  (∀ x, M' !! (r, page_no va) = Some x → 0 <= x.1 < page_count ∧ 0 <= x.2 < 256) →
  (∀ f, count M' f + pending h' f = count M f + pending h f) →
  (∀ f, 0 < count M' f ∨ holds h' f ↔ 0 < count M f ∨ holds h f) →
  ∃ s', on_tables (write p v) s = Some (tt, s') ∧ refs_inv h' None M' s' ∧ leaf (tables s') r va = Some p ∧
    prov (tables s') = prov (tables s).
Proof.
  intros HI Hu Hl Hv Hx Hk Hok Hc Hf. pose proof Hu as (Hr & Hne & Hva).
  destruct (write_assigned K R (tables s) r va p v (ri_pt _ _ _ _ HI) (user_is_target r va Hu) Hl) as (Hw & Hpt & Hlf & Ha).
  exists (Pm (written p v (tables s)) (refs s)). split; [by apply on_tables_run|]. split; [|cbn [tables]; by rewrite Hlf].
  destruct HI as [_ Hti Hd Hm Hrf Hfr]. split; cbn [tables refs].
  - done.
  - by apply tidy_insert.
  - intros r' n x Hx'. destruct (decide ((r', n) = (r, page_no va))) as [[= -> ->]|Hne'].
    + split; [done|]. split; [done|]. split; [by apply user_page_no|by apply Hok].
    + rewrite Hk in Hx' by done. by apply Hd in Hx'.
  - intros r' va' Hr' Hne' Hva' _. rewrite Ha by done. destruct (decide _) as [(-> & Hs)|Hns].
    + rewrite Hx. by rewrite (proj1 (same_page_no va va') Hs).
    + assert ((r', page_no va') ≠ (r, page_no va)) as Hnk.
      { intros [= -> E]. apply Hns. split; [done|]. by apply same_page_no. }
      rewrite Hk by done. apply Hm; [done..|]. intros E. apply Hnk. congruence.
  - intros f Hf'. by rewrite Hc, Hrf.
  - intros f. rewrite Hf. apply Hfr.
Qed.

Lemma one_pos f : one f f = 1.
Proof. unfold one. by rewrite decide_True. Qed.

Lemma one_pending f g : one f g = pending (Some (f, 1)) g.
Proof. done. Qed.

(** Giving a page back. *)
Lemma free_run s f :
  tp_inv (prov (tables s)) → pt_inv K R (tables s) → frame (prov (tables s)) f →
  ∃ s', pm_free f 1 s = Some (tt, s') ∧ pt_inv K R (tables s') ∧ words (tables s') = words (tables s) ∧
    refs s' = <[f := 0]> (refs s) ∧ ∀ g, frame (prov (tables s')) g ↔ frame (prov (tables s)) g ∧ g ≠ f.
Proof.
  intros Htp Hpt Hf. destruct (free_frame_law _ _ Htp Hf) as (a & Hr & Ha & Hu & Hfr).
  exists (Pm (Vm (words (tables s)) a) (<[f := 0]> (refs s))). unfold pm_free, on_frames, on_tables, reset_refs, mbind, ST_bind.
  rewrite Hr. split; [done|]. split; [by apply pt_inv_prov|]. done.
Qed.

(** One mapping less: the count goes down and the page is given back with the
    last one. *)
Lemma drop_refs h M s r va f perm :
  refs_inv h None M s → user r va → M !! (r, page_no va) = Some (f, perm) → ¬ holds h f →
  ∃ s', (set_ref f (count M f -w 1);; if count M f -w 1 =? 0 then pm_free f 1 else mret tt) s = Some (tt, s') ∧
    refs_inv h (Some (r, page_no va)) (delete (r, page_no va) M) s' ∧ words (tables s') = words (tables s).
Proof.
  intros HI Hu Hk Hh. set (k := (r, page_no va)) in *. pose proof (refs_small _ _ _ _ f HI) as Hsm. pose proof (ri_tp _ _ _ _ HI) as Htp.
  destruct HI as [Hpt Hti Hd Hm Hrf Hfr]. destruct (Hd _ _ _ Hk) as (_ & _ & _ & Hf & _). cbn [fst] in Hf.
  assert (∀ g, count (delete k M) g = count M g - one f g) as Hc by (intros g; rewrite (count_delete M k f perm) by done; lia).
  pose proof (count_nonneg (delete k M) f) as H0. rewrite Hc, one_pos in H0.
  assert (count M f -w 1 = count (delete k M) f) as Ew by (rewrite Hc, one_pos; apply wrap64_small; unfold is_u64; lia).
  assert (pending h f = 0) as Hpf.
  { destruct h as [[g d]|]; [|done]. simpl in *. by rewrite decide_False. }
  rewrite Ew. cbn [mbind ST_bind]. unfold mbind, ST_bind, set_ref. set (s1 := Pm (tables s) (<[f := count (delete k M) f]> (refs s))).
  assert (∀ a w, words w = words (tables s) → prov w = a → pt_inv K R w →
    (∀ g, frame a g ↔ 0 < count (delete k M) g ∨ holds h g) →
    refs_inv h (Some k) (delete k M) (Pm w (<[f := count (delete k M) f]> (refs s)))) as Hmk.
  { intros a w Ew' Ep Hpt' Hfr'. split; cbn [tables refs].
    - done.
    - intros p v. rewrite Ew'. apply Hti.
    - intros r' n x (_ & Hx)%lookup_delete_Some. by apply Hd.
    - intros r' va' H1 H2 H3 H4. rewrite (mapped_words (tables s)) by done. rewrite lookup_delete_ne by congruence. by apply Hm.
    - intros g Hg. rewrite lookup_insert. case_decide as E; [subst; f_equal; lia|].
      rewrite Hrf, Hc by done. f_equal. unfold one. rewrite decide_False by done. lia.
    - by rewrite Ep. }
  destruct (Z.eqb_spec (count (delete k M) f) 0) as [Ez|Hnz].
  - destruct (free_run s1 f Htp Hpt) as (s2 & H2 & Hpt2 & Ew2 & Er2 & Hf2); [apply Hfr; left; lia|].
    exists s2. split; [done|]. split; [|done]. destruct s2 as [w2 r2]. cbn [tables refs] in *. subst r2. unfold s1. cbn [refs].
    rewrite insert_insert_eq.
    rewrite Ez in Hmk. rewrite Hc, one_pos in Ez. apply (Hmk (prov w2)); [done..|]. intros g. rewrite Hf2. change (tables s1) with (tables s).
    rewrite Hfr, Hc. unfold one. case_decide as E.
    + subst g. split; [by intros (_ & [])|]. intros [?|?]; [lia|done].
    + split; [intros ([?|?] & _); [left; lia|by right]|]. intros [?|?]; (split; [|congruence]); [left; lia|by right].
  - rewrite Hc, one_pos in Hnz. exists s1. split; [done|]. split; [|done]. apply (Hmk (prov (tables s))); [done..|].
    intros g. rewrite Hfr, Hc. unfold one. case_decide as E; [subst g; split; intros _; left; lia|].
    by rewrite Z.sub_0_r.
Qed.

Lemma remove_entry_ok h M s r va p :
  refs_inv h None M s → user r va → leaf (tables s) r va = Some p →
  (∀ x, M !! (r, page_no va) = Some x → ¬ holds h x.1) →
  ∃ s', remove_from_pgdir pages_end page_count p s = Some (tt, s') ∧ refs_inv h None (delete (r, page_no va) M) s' ∧
    leaf (tables s') r va = Some p.
Proof.
  intros HI Hu Hl Hh. pose proof (word_at _ _ _ _ _ _ HI Hu Hl) as Hw.
  unfold remove_from_pgdir. rewrite (bind_run _ _ _ _ _ (on_tables_run _ s _ _ (read_run _ _ _ Hw))).
  destruct s as [v m]. cbn [tables refs] in *. destruct (M !! (r, page_no va)) as [[f perm]|] eqn:Hk.
  2:{ exists (Pm v m). cbn. split; [done|]. by rewrite delete_id. }
  rewrite entry_of_present. destruct (ri_dom _ _ _ _ HI _ _ _ Hk) as (_ & _ & _ & Hf & Hp). cbn [fst snd] in *.
  unfold lift_pm. rewrite (entry_of_page f perm Hf Hp), (bind_run _ _ _ f (Pm v m)) by done.
  pose proof (ri_ref _ _ _ _ HI f Hf) as Hr. assert (pending h f = 0) as E0.
  { pose proof (Hh _ eq_refl) as Hnh. destruct h as [[g d]|]; [|done]. simpl in *. by rewrite decide_False. }
  rewrite E0, Z.add_0_r in Hr. rewrite (bind_run _ _ _ _ _ (ref_of_run _ _ _ Hr)).
  destruct (drop_refs h M _ r va f perm HI Hu Hk (Hh _ eq_refl)) as (s1 & H1 & HI1 & Ew).
  rewrite (seq_run _ _ _ _ _ _ H1). assert (leaf (tables s1) r va = Some p) as Hl1 by (by rewrite (leaf_words v)).
  destruct (write_refs h h _ (delete (r, page_no va) M) s1 r va p 0 HI1 Hu Hl1) as (s2 & H2 & HI2 & Hl2 & _); try done.
  { by rewrite lookup_delete_eq. } { intros x. by rewrite lookup_delete_eq. }
  by exists s2.
Qed.

Lemma set_pending f d d' hole M s :
  refs_inv (Some (f, d)) hole M s → 0 <= f < page_count →
  refs_inv (Some (f, d')) hole M (Pm (tables s) (<[f := count M f + d']> (refs s))).
Proof.
  intros [Hpt Hti Hd Hm Hrf Hfr] Hf. split; try done. intros g Hg. cbn [refs]. rewrite lookup_insert. cbn [pending] in *.
  case_decide as E; [by subst|]. rewrite Hrf by done. by rewrite decide_False.
Qed.

Lemma weaken_hole h hole M s : refs_inv h None M s → refs_inv h hole M s.
Proof. intros [Hpt Hti Hd Hm Hrf Hfr]. split; try done. intros r va H1 H2 H3 _. by apply Hm. Qed.

(** An entry of the held page itself is about to be replaced. *)
Lemma punch_hole f d perm r n M s :
  refs_inv (Some (f, d)) None M s → M !! (r, n) = Some (f, perm) → refs_inv (Some (f, d + 1)) (Some (r, n)) (delete (r, n) M) s.
Proof.
  intros [Hpt Hti Hd Hm Hrf Hfr] Hk.
  assert (∀ g, count (delete (r, n) M) g = count M g - one f g) as Hc by (intros g; rewrite (count_delete M (r, n) f perm) by done; lia).
  split; try done.
  - intros r' n' x (_ & Hx)%lookup_delete_Some. by apply Hd.
  - intros r' va' H1 H2 H3 H4. rewrite lookup_delete_ne by congruence. by apply Hm.
  - intros g Hg. rewrite Hrf, Hc by done. f_equal. unfold one. simpl. repeat case_decide; lia.
  - intros g. rewrite Hfr, Hc. unfold one. cbn [holds]. case_decide; [|by rewrite Z.sub_0_r]. tauto.
Qed.

Lemma finish_insert f d perm r va p M s :
  refs_inv (Some (f, d + 1)) (Some (r, page_no va)) M s → user r va → leaf (tables s) r va = Some p →
  M !! (r, page_no va) = None → 0 <= f < page_count → 0 <= perm < 256 →
  ∃ s', on_tables (write p (entry_of (f, perm))) s = Some (tt, s') ∧
    refs_inv (Some (f, d)) None (<[(r, page_no va) := (f, perm)]> M) s' ∧ prov (tables s') = prov (tables s).
Proof.
  intros HI Hu Hl Hk Hf Hp. set (k := (r, page_no va)) in *.
  destruct (write_refs (Some (f, d + 1)) (Some (f, d)) M (<[k := (f, perm)]> M) s r va p (entry_of (f, perm)) HI Hu Hl) as (s' & H & HI' & _ & Ep).
  - by rewrite entry_of_present.
  - fold k. by rewrite entry_of_present, lookup_insert_eq.
  - intros k' Hk'. by rewrite lookup_insert_ne.
  - fold k. rewrite lookup_insert_eq. by intros x [= <-].
  - intros g. rewrite count_insert by done. cbn [pending]. unfold one. case_decide; lia.
  - intros g. rewrite count_insert by done. cbn [holds]. pose proof (count_nonneg M g). unfold one.
    case_decide as E; [split; by right|]. rewrite Z.add_0_r. tauto.
  - by exists s'.
Qed.

Lemma insert_tail f d perm r va p M s :
  refs_inv (Some (f, d + 1)) (Some (r, page_no va)) M s → user r va → leaf (tables s) r va = Some p →
  M !! (r, page_no va) = None → 0 <= f < page_count → 0 <= perm < 256 →
  ∃ s', (pa ← lift_pm (page_to_pa pages_end f); on_tables (write p (frame_entry pa perm));; mret ERROR_SUCCESS) s =
    Some (ERROR_SUCCESS, s') ∧ refs_inv (Some (f, d)) None (<[(r, page_no va) := (f, perm)]> M) s' ∧
    prov (tables s') = prov (tables s).
Proof.
  intros HI Hu Hl Hk Hf Hp. destruct (page_pa f Hf) as (pa & Hpa & _).
  destruct (finish_insert f d perm r va p M s HI Hu Hl Hk Hf Hp) as (s' & H & HI' & Ep). exists s'. split; [|done].
  rewrite (bind_run _ _ s pa s) by (unfold lift_pm; by rewrite Hpa). unfold entry_of in H. cbn [fst snd] in H. rewrite Hpa in H.
  exact (bind_run _ _ _ _ _ H).
Qed.

(** Making room: another page's mapping is removed, or the page's own count
    corrected. *)
Lemma displace_ok f d r va p allow x M s :
  refs_inv (Some (f, d + 1)) None M s → 0 <= d < 2 ^ 31 → user r va → leaf (tables s) r va = Some p → 0 <= f < page_count →
  M !! (r, page_no va) = Some x →
  if decide (allow = true ∨ x.1 = f)
  then ∃ s', displace pages_end page_count f p (entry_of x) allow s = Some (false, s') ∧
    refs_inv (Some (f, d + 1)) (Some (r, page_no va)) (delete (r, page_no va) M) s' ∧ leaf (tables s') r va = Some p
  else displace pages_end page_count f p (entry_of x) allow s = Some (true, s).
Proof.
  intros HI Hdr Hu Hl Hf Hk. destruct x as [g q], (ri_dom _ _ _ _ HI _ _ _ Hk) as (_ & _ & _ & Hg & Hq). cbn [fst snd] in *.
  unfold displace. rewrite entry_of_nonzero, entry_of_present. unfold lift_pm. rewrite (entry_of_page g q Hg Hq).
  change (λ s0 : pm A, Some (g, s0)) with (mret (M := ST (pm A)) g).
  rewrite (bind_run _ _ s (if allow then false else negb (g =? f)) s) by by destruct allow. case_decide as Ha.
  - assert ((if allow then false else negb (g =? f)) = false) as -> by (destruct Ha as [->|Ha]; [done|by rewrite Ha, Z.eqb_refl; destruct allow]).
    rewrite (bind_run _ _ s (g =? f) s) by done. destruct (Z.eqb_spec g f) as [->|Hne].
    + pose proof (ri_ref _ _ _ _ HI f Hf) as Hr. cbn [pending] in Hr. rewrite decide_True in Hr by done.
      rewrite (bind_run _ _ s tt (Pm (tables s) (<[f := count M f + d]> (refs s)))).
      2:{ rewrite (bind_run _ _ _ _ _ (ref_of_run _ _ _ Hr)). unfold set_ref. rewrite Z.add_assoc, Z.add_simpl_r. do 4 f_equal.
          apply wrap64_small. pose proof (count_nonneg M f). pose proof (refs_small _ _ _ _ f HI). unfold is_u64. lia. }
      eexists. split; [done|]. split; [|done]. apply (punch_hole f d q); [|done]. by apply (set_pending f (d + 1)).
    + destruct (remove_entry_ok _ _ _ r va p HI Hu Hl) as (s1 & H1 & HI1 & Hl1).
      { intros x. rewrite Hk. intros [= <-] E. by apply Hne. }
      rewrite (bind_run _ _ _ _ _ H1). exists s1. split; [done|]. split; [by apply weaken_hole|done].
  - destruct allow, (Z.eqb_spec g f); naive_solver.
Qed.

(** What [insert_page] does to the mappings; a page that is in the way and may
    not be replaced leaves the count of the new one too high. *)
Definition insert_outcome (M : gmap key (Z * Z)) (k : key) (f d perm : Z) (allow : bool) (s' : pm A) (ret : error_code_values) : Prop :=
  if decide (allow = true ∨ default f (fst <$> M !! k) = f)
  then ret = ERROR_SUCCESS ∧ refs_inv (Some (f, d)) None (<[k := (f, perm)]> M) s'
  else ret = ERROR_REWRITE ∧ refs_inv (Some (f, d + 1)) None M s'.

Lemma insert_page_ok f d perm r va allow M s n :
  refs_inv (Some (f, d)) None M s → 0 <= d < 2 ^ 31 → user r va → 0 <= f < page_count → 0 <= perm < 256 →
  supplies (2 + n) (prov (tables s)) →
  ∃ ret s', insert_page pages_end page_count f va perm r allow s = Some (ret, s') ∧
    insert_outcome M (r, page_no va) f d perm allow s' ret ∧ (ret = ERROR_REWRITE ∨ M !! (r, page_no va) = None → supplies n (prov (tables s'))).
Proof.
  intros HI Hd Hu Hf Hp Hs. unfold insert_page, insert_outcome.
  destruct (walk_refs _ _ _ _ _ _ _ HI Hu Hs) as (p & s1 & H1 & HI1 & Hl & Hsn). run with H1. cbv beta iota.
  pose proof (ri_ref _ _ _ _ HI1 f Hf) as Hr. cbn [pending] in Hr. rewrite decide_True in Hr by done.
  rewrite (bind_run _ _ _ _ _ (ref_of_run _ _ _ Hr)).
  assert (count M f + d +w 1 = count M f + (d + 1)) as ->.
  { rewrite <- Z.add_assoc. apply wrap64_small. pose proof (refs_small _ _ _ _ f HI). pose proof (count_nonneg M f). unfold is_u64. lia. }
  set (s2 := Pm (tables s1) (<[f := count M f + (d + 1)]> (refs s1))).
  assert (refs_inv (Some (f, d + 1)) None M s2) as HI2 by (by apply (set_pending f d)).
  rewrite (bind_run _ _ _ tt s2) by done. change (tables s1) with (tables s2) in Hl.
  rewrite (bind_run _ _ _ _ _ (on_tables_run _ s2 _ _ (read_run _ _ _ (word_at _ _ _ _ _ _ HI2 Hu Hl)))).
  change (Pm (tables s2) (refs s2)) with s2. destruct (M !! (r, page_no va)) as [x|] eqn:Hk; cbn [fmap option_fmap option_map default from_option id].
  - pose proof (displace_ok f d r va p allow x M s2 HI2 Hd Hu Hl Hf Hk) as Hdis. case_decide as Ha.
    + destruct Hdis as (s3 & H3 & HI3 & Hl3). rewrite (bind_run _ _ _ _ _ H3).
      destruct (insert_tail f d perm r va p _ s3 HI3 Hu Hl3) as (s4 & H4 & HI4 & _); [apply lookup_delete_eq|done..|].
      rewrite insert_delete_eq in HI4. exists ERROR_SUCCESS, s4. split; [done|]. split; [done|]. by intros [?|?].
    + rewrite (bind_run _ _ _ _ _ Hdis). by exists ERROR_REWRITE, s2.
  - rewrite (bind_run _ _ _ false s2) by done.
    destruct (insert_tail f d perm r va p M s2 (weaken_hole _ _ _ _ HI2) Hu Hl Hk Hf Hp) as (s3 & H3 & HI3 & Ep).
    exists ERROR_SUCCESS, s3. rewrite decide_True, Ep by by right. done.
Qed.

(** The page in hand is mapped. *)
Lemma release_hold f M s : refs_inv (Some (f, 0)) None M s → 0 < count M f → refs_inv None None M s.
Proof.
  intros [Hpt Hti Hd Hm Hrf Hfr] Hc. split; try done.
  - intros g Hg. rewrite Hrf by done. cbn [pending]. by destruct (decide (f = g)).
  - intros g. rewrite Hfr. cbn [holds]. split; [intros [?| <-]; by left|]. intros [?|[]]; by left.
Qed.

Lemma remove_page_ok r va M s :
  refs_inv None None M s → user r va →
  ∃ s', remove_page pages_end page_count va r s = Some (tt, s') ∧ refs_inv None None (delete (r, page_no va) M) s'.
Proof.
  intros HI Hu. pose proof Hu as (Hr & Hne & Hva). unfold remove_page, vmm_walk_pgdir.
  rewrite (bind_run _ _ _ _ _ (on_tables_run _ s _ _ (walk_find K R (tables s) r va _ (ri_pt _ _ _ _ HI) Hr))).
  destruct (leaf (tables s) r va) as [p|] eqn:Hl.
  - destruct s as [v m]. destruct (remove_entry_ok None M (Pm v m) r va p HI Hu Hl) as (s1 & H1 & HI1 & _); [by intros x _ []|by exists s1].
  - pose proof (ri_maps _ _ _ _ HI r va Hr Hne Hva ltac:(done)) as Hm. unfold mapped in Hm. rewrite Hl in Hm.
    destruct (M !! (r, page_no va)) eqn:Hk; [done|]. rewrite delete_id by done. exists s. by destruct s.
Qed.

(** A page in hand that nothing maps is given back. *)
Lemma give_back f d M s :
  refs_inv (Some (f, d)) None M s → 0 <= f < page_count → count M f = 0 →
  ∃ s', pm_free f 1 s = Some (tt, s') ∧ refs_inv None None M s'.
Proof.
  intros HI Hf Hc. pose proof (ri_tp _ _ _ _ HI) as Htp. destruct HI as [Hpt Hti Hd Hm Hrf Hfr].
  destruct (free_run s f Htp Hpt) as (s' & H & Hpt' & Ew & Er & Hf'); [apply Hfr; by right|].
  exists s'. split; [done|]. split; try done.
  - intros p v. rewrite Ew. apply Hti.
  - intros r va H1 H2 H3 H4. rewrite (mapped_words (tables s)) by done. by apply Hm.
  - intros g Hg. rewrite Er, lookup_insert. cbn [pending] in *. case_decide as E; [subst; by rewrite Hc|].
    rewrite Hrf by done. by rewrite decide_False.
  - intros g. rewrite Hf', Hfr. cbn [holds]. split; [intros ([?|?] & ?); [by left|congruence]|].
    intros [?|[]]. split; [by left|]. intros ->. lia.
Qed.

(** A page from the allocator is in hand, and nothing maps it. *)
Lemma take_page M s r s' :
  refs_inv None None M s → pm_allocate 1 s = Some (r, s') →
  match r with
  | Some f => 0 <= f < page_count ∧ count M f = 0 ∧ refs_inv (Some (f, 0)) None M s'
  | None => refs_inv None None M s'
  end.
Proof.
  intros HI H. pose proof (ri_tp _ _ _ _ HI) as Htp. destruct HI as [Hpt Hti Hd Hm Hrf Hfr].
  destruct (alloc_frame_law _ Htp) as (o & a & Ha & Hta & Hu & Ho). unfold pm_allocate, on_frames, on_tables in H.
  rewrite Ha in H. injection H as <- <-. pose proof (pt_inv_prov K R (tables s) a Hpt Hta Hu) as Hpt'. destruct o as [f|].
  - destruct Ho as (Hn & Hiff). assert (count M f = 0) as Hc.
    { pose proof (count_nonneg M f). destruct (decide (count M f = 0)); [done|]. exfalso. apply Hn, Hfr. left. lia. }
    split; [apply (frame_range a), Hiff; by right|]. split; [done|]. split; try done.
    + intros g Hg. cbn [refs]. rewrite Hrf by done. cbn [pending]. by destruct (decide (f = g)).
    + intros g. cbn [tables prov holds]. rewrite Hiff, Hfr. cbn [holds]. intuition congruence.
  - split; try done. intros g. cbn [tables prov]. by rewrite Ho, Hfr.
Qed.

(** [allocate(va, perm, pgdir, rewrite)]: without memory a null page, otherwise a
    fresh page is mapped, or given back if another one may not be replaced. *)
Definition allocate_outcome (M : gmap key (Z * Z)) (k : key) (perm : Z) (rewrite : bool) (ret : error_code_values + option Z)
    (M' : gmap key (Z * Z)) : Prop :=
  match ret with
  | inr None => M' = M
  | inr (Some f) => 0 <= f < page_count ∧ count M f = 0 ∧ (rewrite = true ∨ M !! k = None) ∧ M' = <[k := (f, perm)]> M
  | inl code => code = ERROR_REWRITE ∧ rewrite = false ∧ is_Some (M !! k) ∧ M' = M
  end.

Lemma allocate_at_ok r va perm rewrite M s :
  refs_inv None None M s → user r va → va ≠ 0 → r ≠ 0 → 0 <= perm < 256 →
  (∀ o s', pm_allocate 1 s = Some (o, s') → supplies 2 (prov (tables s'))) →
  ∃ ret s' M', allocate_at pages_end page_count va perm r rewrite s = Some (ret, s') ∧ refs_inv None None M' s' ∧
    allocate_outcome M (r, page_no va) perm rewrite ret M' ∧
    match pm_allocate 1 s with Some (o, _) => rewrite = true → ret = inr o | None => False end.
Proof.
  intros HI Hu Hv0 Hr0 Hp Hs. unfold allocate_at. apply Z.eqb_neq in Hv0, Hr0. rewrite Hv0, Hr0.
  rewrite (bind_run _ _ _ _ _ (kassert_true (negb false) s eq_refl)), (bind_run _ _ _ _ _ (kassert_true (negb false) s eq_refl)).
  destruct (pm_allocate 1 s) as [[o s1]|] eqn:H1.
  2:{ destruct (alloc_frame_law _ (ri_tp _ _ _ _ HI)) as (o & a & Ha & _). unfold pm_allocate, on_frames, on_tables in H1. by rewrite Ha in H1. }
  rewrite (bind_run _ _ _ _ _ H1). pose proof (take_page M s o s1 HI H1) as Ht.
  destruct o as [f|]; [|by exists (inr None), s1, M]. destruct Ht as (Hf & Hc & HI1).
  destruct (insert_page_ok f 0 perm r va rewrite M s1 0 HI1 ltac:(lia) Hu Hf Hp (Hs _ _ eq_refl)) as (ret & s2 & H2 & Ho & _).
  rewrite (bind_run _ _ _ _ _ H2). unfold insert_outcome in Ho. case_decide as Ha; destruct Ho as (-> & HI2).
  - exists (inr (Some f)), s2, (<[(r, page_no va) := (f, perm)]> M). split; [done|]. split.
    { apply (release_hold f); [done|]. apply count_pos. eexists _, perm. apply lookup_insert_eq. }
    split; [|done]. do 2 (split; [done|]). split; [|done]. destruct (M !! (r, page_no va)) as [x|] eqn:Hk; [left|by right].
    destruct Ha as [?|E]; [done|]. exfalso. cbn in E.
    assert (0 < count M f); [|lia]. apply count_pos. exists (r, page_no va), x.2. rewrite Hk, <- E. by destruct x.
  - assert (rewrite = false) as -> by (destruct rewrite; [|done]; exfalso; apply Ha; by left).
    destruct (give_back f 1 M s2 HI2 Hf Hc) as (s3 & H3 & HI3). rewrite decide_False by done.
    rewrite (bind_run _ _ _ _ _ H3). exists (inl ERROR_REWRITE), s3, M. do 2 (split; [done|]). split; [|done].
    do 2 (split; [done|]). destruct (M !! (r, page_no va)); [done|]. exfalso. apply Ha. by right.
Qed.

End refs.
