(* ===== verification/PageRefTheorems.v ===== *)
(** * Theorems about mapped pages and their counts *)

From S2P Require Import Prelude Types Links Buddy Pmm Paging PageTables PageOps PagingInit PagingTheorems PageRefs PageRefInv.

Inductive page_op :=
  | PAllocate (r va perm : Z) (rewrite : bool)
  | PInsert (r va f perm : Z)
  | PRemove (r va : Z).

Section theorems.
Context {A : Type} (pages_end page_count : Z) `{!FrameProvider page_count A} (K : Z) (R : gset Z).
Context (Hend : KERNEL_VIRTUALBASE <= pages_end) (Hend2 : pages_end + PAGE_SIZE < 2 ^ 64).
Context (Hmem : page_count * PAGE_SIZE <= 2 ^ 45) (Hspaces : Z.of_nat (size R) < 2 ^ 32).
Implicit Types s : pm A.

Definition run_page_op (op : page_op) : ST (pm A) (error_code_values + option Z) :=
  match op with
  | PAllocate r va perm rewrite => allocate_at pages_end page_count va perm r rewrite
  | PInsert r va f perm => ret ← insert_page pages_end page_count f va perm r true; mret (inl ret)
  | PRemove r va => remove_page pages_end page_count va r;; mret (inl ERROR_SUCCESS)
  end.

(** User addresses of processes; only pages in use are inserted once more. *)
Definition page_op_ok (M : gmap key (Z * Z)) (op : page_op) : Prop :=
  match op with
  | PAllocate r va perm _ => user K R r va ∧ va ≠ 0 ∧ 0 <= perm < 256
  | PInsert r va f perm => user K R r va ∧ 0 < count M f ∧ 0 <= f < page_count ∧ 0 <= perm < 256
  | PRemove r va => user K R r va
  end.

(** What the user pages of all processes map after the operation. *)
Definition page_op_after (M : gmap key (Z * Z)) (op : page_op) (ret : error_code_values + option Z) : gmap key (Z * Z) :=
  match op, ret with
  | PAllocate r va perm _, inr (Some f) => <[(r, page_no va) := (f, perm)]> M
  | PInsert r va f perm, _ => <[(r, page_no va) := (f, perm)]> M
  | PRemove r va, _ => delete (r, page_no va) M
  | _, _ => M
  end.

(** The results: a page nobody maps, no page when there is none, the error when
    another page may not be replaced. *)
Definition page_op_spec (M : gmap key (Z * Z)) (op : page_op) (ret : error_code_values + option Z) : Prop :=
  match op, ret with
  | PAllocate r va _ rewrite, inr (Some f) => 0 <= f < page_count ∧ count M f = 0 ∧ (rewrite = true ∨ M !! (r, page_no va) = None)
  | PAllocate r va _ rewrite, inl code => code = ERROR_REWRITE ∧ rewrite = false ∧ is_Some (M !! (r, page_no va))
  | PAllocate _ _ _ _, inr None => True
  | _, _ => ret = inl ERROR_SUCCESS
  end.

(** Tables can be allocated when the operation comes to need them. *)
Definition op_supplied (s : pm A) (op : page_op) : Prop :=
  match op with
  | PAllocate _ _ _ _ => ∀ o s', pm_allocate 1 s = Some (o, s') → supplies 2 (prov (tables s'))
  | _ => supplies 2 (prov (tables s))
  end.

Lemma root_nonzero s r : pt_inv K R (tables s) → r ∈ R → r ≠ 0.
Proof.
  intros (L2 & L3 & Ht) Hr. destruct (tr_table _ _ _ _ _ Ht r (in_all_1 _ _ _ _ Hr)) as ((pa & -> & H & _) & _).
  unfold phys_va, KERNEL_VIRTUALBASE, PHYREMAP_VIRTUALBASE. case_match; lia.
Qed.

Lemma hold_used f M s : refs_inv pages_end page_count K R None None M s → 0 < count M f →
  refs_inv pages_end page_count K R (Some (f, 0)) None M s.
Proof.
  intros [Hpt Hti Hd Hm Hrf Hfr] Hc. split; try done.
  - intros g Hg. rewrite Hrf by done. cbn [pending]. by destruct (decide (f = g)).
  - intros g. rewrite Hfr. cbn [holds]. split; [intros [?|[]]; by left|]. intros [?| <-]; by left.
Qed.

Abbreviation inv := (refs_inv pages_end page_count K R None None).

Lemma page_op_step M s op :
  inv M s → page_op_ok M op → op_supplied s op →
  ∃ ret s', run_page_op op s = Some (ret, s') ∧ inv (page_op_after M op ret) s' ∧ page_op_spec M op ret.
Proof.
  intros HI Hok Hs. destruct op as [r va perm rw|r va f perm|r va]; cbn [run_page_op page_op_ok op_supplied] in *.
  - destruct Hok as (Hu & Hv & Hp).
    destruct (allocate_at_ok pages_end page_count K R Hend Hend2 Hmem Hspaces r va perm rw M s HI Hu Hv) as (ret & s' & M' & H & HI' & Ho & _);
      [apply (root_nonzero s); [apply (ri_pt _ _ _ _ _ _ _ _ HI)|apply Hu]|done..|].
    exists ret, s'. split; [done|]. unfold allocate_outcome in Ho. destruct ret as [code|[f|]]; cbn.
    + by destruct Ho as (-> & -> & Hk & ->).
    + by destruct Ho as (Hf & Hc & Hk & ->).
    + by subst M'.
  - destruct Hok as (Hu & Hc & Hf & Hp).
    destruct (insert_page_ok pages_end page_count K R Hend Hend2 Hmem Hspaces f 0 perm r va true M s 0 (hold_used f M s HI Hc) ltac:(lia) Hu Hf Hp Hs)
      as (ret & s' & H & Ho & _).
    exists (inl ret), s'. rewrite (bind_run _ _ _ _ _ H). split; [done|]. unfold insert_outcome in Ho.
    rewrite decide_True in Ho by by left. destruct Ho as (-> & Ho). split; [|done].
    apply (release_hold _ _ _ _ f); [done|]. apply count_pos. eexists _, perm. apply lookup_insert_eq.
  - destruct (remove_page_ok pages_end page_count K R Hend Hend2 Hmem Hspaces r va M s HI Hok) as (s' & H & HI').
    exists (inl ERROR_SUCCESS), s'. by rewrite (bind_run _ _ _ _ _ H).
Qed.

Inductive page_reach (M : gmap key (Z * Z)) (s : pm A) : gmap key (Z * Z) → pm A → Prop :=
  | page_reach_refl : page_reach M s M s
  | page_reach_step M1 s1 op ret s2 :
      page_reach M s M1 s1 → page_op_ok M1 op → op_supplied s1 op → run_page_op op s1 = Some (ret, s2) →
      page_reach M s (page_op_after M1 op ret) s2.

Lemma page_reach_inv M s M' s' : inv M s → page_reach M s M' s' → inv M' s'.
Proof.
  intros HI. induction 1 as [|M1 s1 op ret s2 _ IH Hok Hs H]; [done|].
  destruct (page_op_step M1 s1 op IH Hok Hs) as (ret' & s2' & H' & HI' & _). rewrite H in H'. by injection H' as <- <-.
Qed.


(** [allocate(va, n, ..)] without permission to rewrite does not stay within
    its range: where a page is mapped it goes on to the next address, and each
    mapping it passes raises the count of the page once more.  A request for
    one page at a mapped address maps the page after it and counts it twice, so
    that it is never given back. *)
Theorem allocate_range_escapes M s r va perm x f s1 fuel :
  inv M s → user K R r va → user K R r (va + PAGE_SIZE) → 0 <= perm < 256 →
  M !! (r, page_no va) = Some x → M !! (r, page_no (va + PAGE_SIZE)) = None →
  pm_allocate 1 s = Some (Some f, s1) → supplies 4 (prov (tables s1)) →
  ∃ s', allocate_range pages_end page_count (S (S fuel)) va 1 perm r false s = Some (inr (Some f), s') ∧
    mapped (tables s') r va = Some (entry_of pages_end x) ∧
    mapped (tables s') r (va + PAGE_SIZE) = Some (entry_of pages_end (f, perm)) ∧ refs s' !! f = Some 2.
Proof.
  intros HI Hu Hu2 Hp Hk Hk2 Ha Hs. destruct (take_page _ _ _ _ M s _ s1 HI Ha) as (Hf & Hc & HI1).
  assert (x.1 ≠ f) as Hne.
  { intros E. assert (0 < count M f); [|lia]. apply count_pos. exists (r, page_no va), x.2. rewrite Hk, <- E. by destruct x. }
  unfold allocate_range. rewrite (bind_run _ _ _ _ _ Ha). cbn [allocate_loop].
  destruct (insert_page_ok pages_end page_count K R Hend Hend2 Hmem Hspaces f 0 perm r va false M s1 2 HI1 ltac:(lia) Hu Hf Hp Hs)
    as (ret & s2 & H2 & Ho & Hs2). unfold insert_outcome in Ho. rewrite Hk in Ho. cbn in Ho.
  rewrite decide_False in Ho by (intros [?|?]; done). destruct Ho as (-> & HI2).
  assert (is_u64 (va + PAGE_SIZE)) as H64.
  { destruct Hu2 as (_ & _ & ?). assert (USER_TOP < 2 ^ 64) by done. unfold is_u64. lia. }
  assert (is_u64 va) as H64'.
  { destruct Hu as (_ & _ & ?). assert (USER_TOP < 2 ^ 64) by done. unfold is_u64. lia. }
  rewrite Z.mul_0_l, Z.add_0_r, (wrap64_small va) by done. rewrite (bind_run _ _ _ _ _ H2).
  rewrite decide_False, decide_True by done. rewrite (proj2 (Z.eqb_neq f (f + 1))) by lia.
  destruct (insert_page_ok pages_end page_count K R Hend Hend2 Hmem Hspaces f 1 perm r (va + PAGE_SIZE) false M s2 0 HI2 ltac:(lia) Hu2 Hf Hp (Hs2 (or_introl eq_refl)))
    as (ret & s3 & H3 & Ho & _). unfold insert_outcome in Ho. rewrite Hk2 in Ho. rewrite decide_True in Ho by by right. destruct Ho as (-> & HI3).
  replace ((0 + 1) * PAGE_SIZE) with PAGE_SIZE by lia. rewrite wrap64_small by done. rewrite (bind_run _ _ _ _ _ H3).
  rewrite decide_True, Z.eqb_refl by done. exists s3. split; [done|].
  destruct Hu as (Hr & Hn & Hva), Hu2 as (_ & _ & Hva2).
  rewrite !(ri_maps _ _ _ _ _ _ _ _ HI3), (ri_ref _ _ _ _ _ _ _ _ HI3) by done.
  rewrite lookup_insert_eq, lookup_insert_ne by congruence. rewrite Hk, count_insert, Hc by done.
  cbn [pending]. unfold one. by rewrite !decide_True.
Qed.

End theorems.

(** ** An example: tables as in [PagingTheorems] and a pool of four pages *)

#[refine] Instance pool_tables : TableProvider (Z * list Z) := {
  alloc_table '(a, l) := if a <? bump_limit then Some (a, (a + 4096, l)) else Some (0, (a, l));
  free_table _ s := Some (tt, s);
  tp_inv '(a, l) := (bump_first <= a ∧ a mod 4096 = 0) ∧ NoDup l ∧ ∀ p, p ∈ l → 0 <= p < 4;
  in_use '(a, l) q := bump_first <= q < a ∧ q mod 4096 = 0;
}.
Proof.
  intros [a l] t [a' l'] ((H1 & H2) & Hl). destruct (Z.ltb_spec a bump_limit) as [Hlt|]; intros [= <- <- <-] Ht; [|done].
  destruct (bump_law a H1 H2 Hlt) as (B1 & B2 & B3). split; [done|]. split; [done|]. split; [lia|done].
Defined.

#[refine] Instance pool_frames : FrameProvider 4 (Z * list Z) := {
  alloc_frames n '(a, l) := match l with p :: l' => if n =? 1 then Some (Some p, (a, l')) else Some (None, (a, l)) | [] => Some (None, (a, l)) end;
  free_frames p n '(a, l) := Some (tt, (a, p :: l));
  frame '(a, l) p := 0 <= p < 4 ∧ p ∉ l;
}.
Proof.
  - by intros [a l] p (H & _).
  - intros [a [|p l]] (H1 & H2 & H3); [by exists None, (a, [])|]. exists (Some p), (a, l). split; [done|].
    apply NoDup_cons in H2 as (H2 & H2'). split; [split; [done|]; split; [done|]; intros q Hq; apply H3; by right|]. split; [done|].
    split; [intros (_ & Hn); apply Hn; by left|]. intros q. rewrite not_elem_of_cons.
    destruct (decide (q = p)) as [->|Hne]; [|tauto]. split; [by right|]. intros _. split; [|done]. apply H3. by left.
  - intros [a l] p (H1 & H2 & H3) (Hp & Hn). exists (a, p :: l). split; [done|]. split.
    { split; [done|]. split; [by apply NoDup_cons|]. intros q [->|Hq]%elem_of_cons; [done|by apply H3]. }
    split; [done|]. intros q. rewrite not_elem_of_cons. tauto.
  - intros [a l] t [a' l'] q _ H. unfold alloc_table, pool_tables in H. destruct (a <? bump_limit); by injection H as _ _ <-.
Defined.

Lemma pool_supplies n a l : bump_first <= a → a + Z.of_nat n * 4096 <= bump_limit → supplies n (a, l).
Proof.
  revert a. induction n as [|n IH]; intros a H1 H2; [done|]. exists a, (a + 4096, l). assert (0 < bump_first) by done.
  split; [|split; [lia|apply IH; lia]]. cbn. rewrite (proj2 (Z.ltb_lt a bump_limit)) by lia. done.
Qed.

Lemma copy_words_from to from n m m' p v : copy_words to from n m = Some m' → m' !! p = Some v → ∃ q, m !! q = Some v.
Proof.
  revert m'. induction n as [|n IH]; intros m'; [intros [= <-]; eauto|]. cbn [copy_words].
  destruct (copy_words to from n m) as [m1|]; [|done]. cbn [mbind option_bind].
  destruct (m !! entry from (Z.of_nat n)) as [w|] eqn:Hw; [|done]. intros [= <-]. rewrite lookup_insert.
  case_decide; [intros [= <-]; eauto|]. by apply IH.
Qed.

Lemma init_vmm_state {A} `{!TableProvider A} (a : A) k s :
  init_vmm (Vm ∅ a) = Some (k, s) → tidy s ∧ alloc_table a = Some (k, prov s).
Proof.
  unfold init_vmm, pgdir_entry_alloc. intros H. apply bind_inv in H as (t & s1 & H1 & H). cbn [prov] in H1.
  destruct (alloc_table a) as [[t' a']|] eqn:Ha; [|done]. injection H1 as <- <-.
  apply bind_inv in H as ([] & s2 & H2 & H). injection H as <- <-. destruct (t' =? 0); [done|].
  unfold memset_table, change_words in H2. injection H2 as <-. split; [|done]. intros p v. cbn [words].
  by intros [->|?]%zero_words_cases.
Qed.

Lemma initialize_state {A} `{!TableProvider A} K (s : vm A) t s' :
  tidy s → initialize K s = Some (Some t, s') → tidy s' ∧ alloc_table (prov s) = Some (t, prov s').
Proof.
  unfold initialize, pgdir_entry_alloc. intros Ht H. apply bind_inv in H as (t' & s1 & H1 & H).
  destruct (alloc_table (prov s)) as [[t1 a]|]; [|done]. injection H1 as <- <-. destruct (t1 =? 0); [done|].
  apply bind_inv in H as ([] & s2 & H2 & H). injection H as <- <-. unfold duplicate_kernel_pml4t in H2. cbn [words prov] in H2.
  destruct (copy_words _ _ _ _) as [m|] eqn:Hc; [|done]. injection H2 as <-. split; [|done].
  intros p v Hv Hp. destruct (copy_words_from _ _ _ _ _ _ _ Hc Hv) as (q & Hq). by apply (Ht q).
Qed.

(** The kernel and a process, without user pages. *)
Definition ex_pages_end : Z := 0xFFFFFFFF80523456.
Definition ex_refs : gmap Z Z := {[0 := 0; 1 := 0; 2 := 0; 3 := 0]}.

Lemma ex_start : ∃ k t s, t ≠ k ∧ prov s = (bump_first + 8192, [0; 1; 2; 3]) ∧
  refs_inv ex_pages_end 4 k ({[t]} ∪ {[k]}) None None ∅ (Pm s ex_refs).
Proof.
  destruct (init_vmm_ok (A := Z * list Z) (bump_first, [0; 1; 2; 3]) 1) as (k & s0 & H0 & HI0 & Hs0 & Hl0).
  { split; [done|]. split; [by apply (bool_decide_unpack (NoDup [0; 1; 2; 3]))|].
    intros p Hp. repeat (apply elem_of_cons in Hp as [->|Hp]; [done|]). by apply not_elem_of_nil in Hp. }
  { by apply pool_supplies. }
  destruct (init_vmm_state _ _ _ H0) as (Ht0 & Ha0). destruct (initialize_ok k {[k]} s0 0 HI0 Hs0) as (t & s & H1 & Hf & HI & _ & Hm & _).
  destruct (initialize_state k s0 t s Ht0 H1) as (Ht & Ha).
  assert (t ≠ k) as Hne by (intros ->; by apply Hf, elem_of_singleton). exists k, t, s. split; [done|].
  assert (prov s = (bump_first + 8192, [0; 1; 2; 3])) as Ep.
  { assert (∀ a l, (a <? bump_limit) = true → alloc_table (a, l) = Some (a, (a + 4096, l))) as E by (intros a l E; cbn; by rewrite E).
    rewrite E in Ha0 by done. apply Some_inj, (f_equal snd) in Ha0. cbn [snd] in Ha0. rewrite <- Ha0, E in Ha by done.
    apply Some_inj, (f_equal snd) in Ha. cbn [snd] in Ha. by rewrite <- Ha. }
  split; [done|]. split; try done.
  - intros r va [E%elem_of_singleton|E%elem_of_singleton]%elem_of_union Hk Hva _; [|done]. subst r.
    cbn [tables]. rewrite Hm. unfold mapped. by rewrite Hl0.
  - intros f Hf4. assert (f = 0 ∨ f = 1 ∨ f = 2 ∨ f = 3) as [-> | [-> | [-> | ->]]] by lia; reflexivity.
  - intros f. cbn [tables]. rewrite Ep. change (count ∅ f) with 0. split; [|intros [?|[]]; lia].
    intros (H4 & Hn). exfalso. apply Hn. assert (f = 0 ∨ f = 1 ∨ f = 2 ∨ f = 3) as [-> | [-> | [-> | ->]]] by lia; set_solver.
Qed.


Lemma pool_supplies_pages n a l l' : supplies n (a, l) → supplies n (a, l').
Proof.
  revert a l l'. induction n as [|n IH]; intros a l l'; [done|]. intros (t & [b m] & H & Ht & Hs). exists t, (b, l'). revert H. cbn.
  destruct (a <? bump_limit); intros [= <- <- <-]; (split; [done|split; [done|by apply (IH _ l)]]).
Qed.

(** A second page at the address of the first. *)
Lemma allocate_range_escapes_witness :
  ∃ k t s f s', k ≠ t ∧ allocate_range ex_pages_end 4 2 0x400000 1 PG_W t false s = Some (inr (Some f), s') ∧
    mapped (tables s') t 0x600000 = Some (entry_of ex_pages_end (f, PG_W)) ∧ refs s' !! f = Some 2.
Proof.
  destruct ex_start as (k & t & s & Hne & Ep & HI). set (R := {[t]} ∪ {[k]}) in *.
  assert (Z.of_nat (size R) < 2 ^ 32) as HR.
  { unfold R. rewrite size_union by (apply disjoint_singleton_l; intros ?%elem_of_singleton; done). by rewrite !size_singleton. }
  assert (∀ va, 0 <= va <= USER_TOP → user k R t va) as Hu by (intros va Hva; split; [by apply elem_of_union_l, elem_of_singleton|done]).
  assert (pm_allocate 1 (Pm s ex_refs) = Some (Some 0, Pm (Vm (words s) (bump_first + 8192, [1; 2; 3])) ex_refs)) as Ha.
  { unfold pm_allocate, on_frames, on_tables. cbn [tables refs]. by rewrite Ep. }
  destruct (take_page _ _ _ _ ∅ _ _ _ HI Ha) as (_ & _ & HI1).
  destruct (insert_page_ok ex_pages_end 4 k R ltac:(done) ltac:(done) ltac:(done) HR 0 0 PG_W t 0x400000 true ∅ _ 6 HI1 ltac:(done))
    as (ret & s2 & H2 & Ho & Hs); [by apply Hu|done..|by apply pool_supplies|].
  unfold insert_outcome in Ho. rewrite decide_True in Ho by by left. destruct Ho as (-> & HI2).
  apply release_hold in HI2; [|apply count_pos; eexists _, PG_W; apply lookup_insert_eq]. specialize (Hs (or_intror eq_refl)).
  destruct s2 as [[w [a l]] m]. cbn [tables prov] in Hs. destruct l as [|f l].
  { exfalso. assert (frame (a, []) 1) as Hf by (split; [done|apply not_elem_of_nil]). apply (ri_frame _ _ _ _ _ _ _ _ HI2) in Hf as [Hc|[]].
    rewrite count_insert in Hc by done. done. }
  destruct (allocate_range_escapes ex_pages_end 4 k R ltac:(done) ltac:(done) ltac:(done) HR _ _ t 0x400000 PG_W (0, PG_W) f
    (Pm (Vm w (a, l)) m) 0 HI2) as (s' & H & _ & H3 & H4); [by apply Hu|by apply Hu|done|apply lookup_insert_eq| |done| |].
  { rewrite lookup_insert_ne; [done|]. intros E. apply (f_equal snd) in E. by vm_compute in E. }
  { by apply supplies_S, supplies_S, (pool_supplies_pages 6 a (f :: l)). }
  exists k, t, (Pm (Vm w (a, f :: l)) m), f, s'. done.
Defined.
