(* ===== verification/Fpage.v ===== *)
(** * Flexpages: [memory/fpage.hpp]

    A flexpage is a 64-bit word with the bit fields [rights_] (4), [s_] (6) and
    [b_div_1024_] (54), from the lowest bit on. *)

From S2P Require Import Prelude Types.

Definition AR_X : Z := 1.
Definition AR_W : Z := 2.
Definition AR_R : Z := 4.

(** The shorthands as they are defined: none of them contains [AR_R]. *)
Definition AR_RX : Z := Z.lor AR_X AR_X.
Definition AR_RW : Z := Z.lor AR_X AR_W.
Definition AR_FULL : Z := Z.lor (Z.lor AR_X AR_W) AR_X.

Definition rights_ (raw : Z) : Z := raw mod 2 ^ 4.
Definition s_ (raw : Z) : Z := Z.shiftr raw 4 mod 2 ^ 6.
Definition b_div_1024_ (raw : Z) : Z := Z.shiftr raw 10 mod 2 ^ 54.

(** [fpage(b, s, rights)]: every field takes the low bits of its value. *)
Definition fpage (b s rights : Z) : Z :=
  rights mod 2 ^ 4 + 2 ^ 4 * (s mod 2 ^ 6) + 2 ^ 10 * (Z.shiftr b 10 mod 2 ^ 54).

Definition check_rights (raw rights : Z) : bool := Z.land rights (rights_ raw) =? rights.

Definition get_size (raw : Z) : Z := Z.shiftl 1 (s_ raw).

Definition get_base_address (raw : Z) : Z := wrap64 (b_div_1024_ raw * Z.shiftl 1 10).

(** ** The fields of a flexpage *)

Lemma fpage_fields b s rights :
  rights_ (fpage b s rights) = rights mod 2 ^ 4 ∧ s_ (fpage b s rights) = s mod 2 ^ 6 ∧
  b_div_1024_ (fpage b s rights) = Z.shiftr b 10 mod 2 ^ 54.
Proof.
  unfold rights_, s_, b_div_1024_, fpage. rewrite !Z.shiftr_div_pow2 by done.
  set (x := rights mod 2 ^ 4). set (y := s mod 2 ^ 6). set (z := (b / 2 ^ 10) mod 2 ^ 54).
  assert (0 <= x < 2 ^ 4) as Hx by by apply Z.mod_pos_bound.
  assert (0 <= y < 2 ^ 6) as Hy by by apply Z.mod_pos_bound.
  assert (0 <= z < 2 ^ 54) as Hz by by apply Z.mod_pos_bound.
  replace (x + 2 ^ 4 * y + 2 ^ 10 * z) with (x + (y + z * 2 ^ 6) * 2 ^ 4) by lia. split.
  - rewrite Z.mod_add, Z.mod_small by lia. done.
  - rewrite Z.div_add, Z.div_small, Z.add_0_l by lia. split; [rewrite Z.mod_add, Z.mod_small by lia; done|].
    change (2 ^ 10) with (2 ^ 4 * 2 ^ 6). rewrite <- Z.div_div, Z.div_add, (Z.div_small x), Z.add_0_l by lia.
    rewrite Z.div_add, (Z.div_small y), Z.add_0_l, Z.mod_small by lia. done.
Qed.

(** A flexpage gives back the base, rounded down to 1 KB, the size and the
    rights it was made of. *)
Lemma fpage_roundtrip b s rights :
  is_u64 b → 0 <= s < 64 → 0 <= rights < 16 →
  get_base_address (fpage b s rights) = b - b mod 1024 ∧ get_size (fpage b s rights) = 2 ^ s ∧
  rights_ (fpage b s rights) = rights.
Proof.
  unfold is_u64. intros Hb Hs Hr. destruct (fpage_fields b s rights) as (E1 & E2 & E3).
  unfold get_base_address, get_size. rewrite E1, E2, E3, !Z.shiftl_1_l, Z.shiftr_div_pow2 by done.
  rewrite (Z.mod_small s), (Z.mod_small rights) by lia.
  assert (0 <= b / 2 ^ 10 < 2 ^ 54) by (split; [apply Z.div_pos; lia|apply Z.div_lt_upper_bound; lia]).
  rewrite (Z.mod_small (b / 2 ^ 10)) by done. split; [|done]. pose proof (Z.div_mod b 1024 ltac:(done)). change (2 ^ 10) with 1024 in *.
  rewrite wrap64_small by (unfold is_u64; pose proof (Z.mod_pos_bound b 1024 ltac:(done)); lia). lia.
Qed.
