(* ===== verification/AddressSpace.v ===== *)
(** * Address spaces: [kern/memory/vmm/address_space.cc], [page_fault.cc]

    An address space is a list of segments, each with its bounds and flags, and
    a top-level page table.  The segments are in an intrusive list, whose cells
    are those of [IntrusiveList], with locks enabled; the page tables are those
    of [PageRefs].  [heap] holds the addresses [operator new] hands out next, and
    [locked] the locks of address spaces and segments this processor holds,
    under the address of their owner.  [parent_] of a segment is never read. *)

From S2P Require Import Prelude Types Links Buddy Pmm PodList IntrusiveList Paging PageRefs Fpage.

Definition VM_READ : Z := 0x1.
Definition VM_WRITE : Z := 0x2.
Definition VM_EXEC : Z := 0x4.
Definition VM_STACK : Z := 0x8.
Definition VM_SHARE : Z := 0x10.

Record segment := Seg { seg_start : Z; seg_end : Z; seg_flags : Z }.

Record aspace := ASpace {
  segments : intrusive_list;
  search_cache_ : loc;
  pgdir_ : Z;
  uheap_ : Z;
  uheap_begin_ : Z;
  uheap_end_ : Z;
}.

Definition set_segments l a := ASpace l (search_cache_ a) (pgdir_ a) (uheap_ a) (uheap_begin_ a) (uheap_end_ a).
Definition set_cache c a := ASpace (segments a) c (pgdir_ a) (uheap_ a) (uheap_begin_ a) (uheap_end_ a).
Definition set_pgdir t a := ASpace (segments a) (search_cache_ a) t (uheap_ a) (uheap_begin_ a) (uheap_end_ a).
Definition set_heap v a := ASpace (segments a) (search_cache_ a) (pgdir_ a) v (uheap_begin_ a) (uheap_end_ a).
Definition set_heap_begin v a := ASpace (segments a) (search_cache_ a) (pgdir_ a) (uheap_ a) v (uheap_end_ a).
Definition set_heap_end v a := ASpace (segments a) (search_cache_ a) (pgdir_ a) (uheap_ a) (uheap_begin_ a) v.

Record mm (A : Type) := MM {
  list_mem : lmem;
  segs : gmap loc segment;
  spaces : gmap loc aspace;
  locked : gset loc;
  memory : pm A;
  heap : list loc;
}.
Arguments MM {A}.
Arguments list_mem {A}.
Arguments segs {A}.
Arguments spaces {A}.
Arguments locked {A}.
Arguments memory {A}.
Arguments heap {A}.

Section address_space.
Context {A : Type} (pages_end page_count : Z) `{!FrameProvider page_count A}.
(** [&seg->link_], [&space->segments.head_], and the kernel's top-level table. *)
Context (link head_of : loc → loc) (g_kpml4t : Z).

Abbreviation MS := (ST (mm A)).

(** ** Access to the parts of the state *)

Definition on_list {B} (c : ST lmem B) : MS B := λ s,
  match c (list_mem s) with
  | Some (x, m) => Some (x, MM m (segs s) (spaces s) (locked s) (memory s) (heap s))
  | None => None
  end.

Definition on_memory {B} (c : ST (pm A) B) : MS B := λ s,
  match c (memory s) with
  | Some (x, m) => Some (x, MM (list_mem s) (segs s) (spaces s) (locked s) m (heap s))
  | None => None
  end.

Definition get_seg (p : loc) : MS segment := λ s, match segs s !! p with Some g => Some (g, s) | None => None end.
Definition put_seg (p : loc) (g : segment) : MS unit := λ s,
  Some (tt, MM (list_mem s) (<[p := g]> (segs s)) (spaces s) (locked s) (memory s) (heap s)).
Definition get_space (a : loc) : MS aspace := λ s, match spaces s !! a with Some x => Some (x, s) | None => None end.
Definition put_space (a : loc) (x : aspace) : MS unit := λ s,
  Some (tt, MM (list_mem s) (segs s) (<[a := x]> (spaces s)) (locked s) (memory s) (heap s)).
Definition upd_space (a : loc) (f : aspace → aspace) : MS unit := x ← get_space a; put_space a (f x).

(** [lock_guard g{ lock_ }] of the object at [o]: taking a lock that is held
    panics. *)
Definition set_locked (l : gset loc) : MS unit := λ s,
  Some (tt, MM (list_mem s) (segs s) (spaces s) l (memory s) (heap s)).
Definition take_lock (o : loc) : MS unit := λ s, if decide (o ∈ locked s) then None else set_locked ({[o]} ∪ locked s) s.
Definition drop_lock (o : loc) : MS unit := λ s, set_locked (locked s ∖ {[o]}) s.
Definition locking {B} (o : loc) (c : MS B) : MS B := take_lock o;; x ← c; drop_lock o;; mret x.

(** [new(&ck) address_space_segment(start, end, flags)]: null without memory,
    otherwise the constructor runs. *)
Definition new_segment (start last flags : Z) : MS loc := λ s,
  match heap s with
  | [] => Some (null, s)
  | p :: rest =>
      (kassert (start <? last);;
       put_seg p (Seg start last flags);;
       on_list (new_link (link p) p);;
       mret p) (MM (list_mem s) (segs s) (spaces s) (locked s) (memory s) rest)
  end.

(** [delete seg] *)
Definition delete_segment (p : loc) : MS unit := λ s,
  on_list (free_link (link p)) (MM (list_mem s) (delete p (segs s)) (spaces s) (locked s) (memory s) (heap s)).

(** Loops over the list visit each of its cells once. *)
Definition list_fuel : MS nat := λ s, Some (S (base.size (links (list_mem s))), s).

(** ** Segments *)

(** [address_space_segment::resize] *)
Definition segment_resize (p start last : Z) : MS error_code_values :=
  locking p (
    g ← get_seg p;
    if negb (start mod PAGE_SIZE =? 0) || negb (last mod PAGE_SIZE =? 0) then mret ERROR_INVALID else
    if last <=? start then mret ERROR_INVALID else
    if negb ((seg_start g <=? start) && (last <=? seg_end g)) then mret ERROR_INVALID else
    put_seg p (Seg start last (seg_flags g));;
    mret ERROR_SUCCESS).

Definition assert_segment_overlap (prev next : loc) : MS unit :=
  if (prev =? null) || (next =? null) then mret tt else
  p ← get_seg prev;
  n ← get_seg next;
  kassert (seg_start p <? seg_end p);;
  kassert (seg_end p <=? seg_start n);;
  kassert (seg_start n <? seg_end n).

(** The loop of [insert_vma_locked]: the last cell whose segment does not start
    after [start], null if there is none. *)
Fixpoint last_not_after (fuel : nat) (h iter prev start : Z) : MS loc :=
  match fuel with
  | O => st_fail
  | S fuel =>
      if decide (iter = h) then mret prev else
      p ← on_list (load_parent iter);
      g ← get_seg p;
      if start <? seg_start g then mret prev else
      n ← on_list (on_links (load_next iter));
      last_not_after fuel h n iter start
  end.

Definition insert_vma_locked (a vma : loc) : MS unit :=
  x ← get_space a;
  e ← on_list (list_empty true false (head_ (segments x)));
  if (e : bool) then
    l ← on_list (push_back true link (segments x) vma);
    upd_space a (set_segments l)
  else
    v ← get_seg vma;
    fuel ← list_fuel;
    first ← on_list (begin_ (segments x));
    prev_iter ← last_not_after fuel (head_ (segments x)) first null (seg_start v);
    (* [prev->link_.next_->parent_], where [prev] may be null *)
    prev ← on_list (load_parent prev_iter);
    next_link ← on_list (on_links (load_next (link prev)));
    next ← on_list (load_parent next_link);
    assert_segment_overlap prev vma;;
    assert_segment_overlap vma next;;
    l ← on_list (insert true link (segments x) prev_iter vma);
    upd_space a (set_segments l).

Definition contains (g : segment) (addr : Z) : bool := (seg_start g <=? addr) && (addr <? seg_end g).

Fixpoint find_loop (fuel : nat) (h iter addr : Z) : MS loc :=
  match fuel with
  | O => st_fail
  | S fuel =>
      if decide (iter = h) then mret null else
      p ← on_list (load_parent iter);
      g ← get_seg p;
      if contains g addr then mret p else
      n ← on_list (on_links (load_next iter));
      find_loop fuel h n addr
  end.

Definition find_vma_locked (a addr : Z) : MS loc :=
  x ← get_space a;
  hit ← (if search_cache_ x =? null then mret false else g ← get_seg (search_cache_ x); mret (contains g addr));
  ret ← (if (hit : bool) then mret (search_cache_ x) else
    fuel ← list_fuel;
    first ← on_list (begin_ (segments x));
    find_loop fuel (head_ (segments x)) first addr);
  (if ret =? null then mret tt else upd_space a (set_cache ret));;
  mret ret.

Definition insert_vma (a vma : loc) : MS unit := locking a (insert_vma_locked a vma).

Definition find_vma (a addr : Z) : MS loc := locking a (find_vma_locked a addr).

Definition intersect_vma (a start last : Z) : MS loc :=
  locking a (
    vma ← find_vma_locked a start;
    if vma =? null then mret null else
    g ← get_seg vma;
    mret (if last <=? seg_start g then null else vma)).

(** ** Operations *)

(** Results of type [error_code_with_result<address_space_segment *>]. *)
Abbreviation seg_result := (error_code_values + loc)%type.

(** Only an error is returned early; [ERROR_SUCCESS] is not one ([has_error]). *)
Definition has_error (r : seg_result) : bool := match r with inl c => negb (bool_decide (c = ERROR_SUCCESS)) | inr _ => false end.

Definition initialize_space (a : loc) : MS error_code_values :=
  locking a (
    t ← on_memory (on_tables (initialize g_kpml4t));
    match t with
    | None => mret ERROR_MEMORY_ALLOC
    | Some t => upd_space a (set_pgdir t);; mret ERROR_SUCCESS
    end).

Definition map (a addr len flags : Z) : MS seg_result :=
  let start := rounddown addr PAGE_SIZE in
  let last := Z.min (roundup (addr +w len) PAGE_SIZE) USER_TOP in
  if negb (VALID_USER_REGION start last) then mret (inl ERROR_INVALID) else
  locking a (
    vma ← find_vma_locked a start;
    exist ← (if vma =? null then mret false else g ← get_seg vma; mret (seg_start g <? last));
    if (exist : bool) then mret (inl ERROR_ALREADY_EXIST) else
    vma ← new_segment start last (Z.land flags (bnot64 VM_SHARE));
    if vma =? null then mret (inl ERROR_MEMORY_ALLOC) else
    insert_vma_locked a vma;;
    mret (inr vma)).

(** The loops of [unmap]: the segments from [iter] on that start before [last] are
    pushed to [freelist], through the link by which they are in the list
    already; then they are taken out one after the other. *)
Fixpoint collect (fuel : nat) (h iter last : Z) (freelist : intrusive_list) : MS intrusive_list :=
  match fuel with
  | O => st_fail
  | S fuel =>
      if decide (iter = h) then mret freelist else
      p ← on_list (load_parent iter);
      g ← get_seg p;
      if last <=? seg_start g then mret freelist else
      freelist ← on_list (push_back true link freelist p);
      n ← on_list (on_links (load_next iter));
      collect fuel h n last freelist
  end.

Definition remove_segment (a p : loc) : MS unit :=
  x ← get_space a;
  l ← on_list (remove true link (segments x) p);
  upd_space a (set_segments l).

(** What is done with a segment of the free list; the range to unmap. *)
Definition cut_segment (a p start last : Z) : MS (Z * Z) :=
  remove_segment a p;;
  g ← get_seg p;
  if seg_start g <? start then
    segment_resize p (seg_start g) start;;
    insert_vma_locked a p;;
    mret (start, seg_end g)
  else if last <? seg_end g then
    segment_resize p last (seg_end g);;
    insert_vma_locked a p;;
    mret (seg_start g, last)
  else
    delete_segment p;;
    mret (seg_start g, seg_end g).

Fixpoint release_loop (fuel : nat) (a h iter start last : Z) : MS unit :=
  match fuel with
  | O => st_fail
  | S fuel =>
      if decide (iter = h) then mret tt else
      p ← on_list (load_parent iter);
      r ← cut_segment a p start last;
      x ← get_space a;
      on_memory (on_tables (unmap_range (pgdir_ x) r.1 r.2));;
      n ← on_list (on_links (load_next iter));
      release_loop fuel a h n start last
  end.

(** [freelist] is a local of [unmap]; its head is at the address [fl]. *)
Definition unmap (fl a addr len : Z) : MS error_code_values :=
  let start := PAGE_ROUNDDOWN addr in
  let last := PAGE_ROUNDUP (addr +w len) in
  if negb (VALID_USER_REGION start last) then mret ERROR_INVALID else
  locking a (
    vma ← find_vma_locked a start;
    if vma =? null then mret ERROR_SUCCESS else
    g ← get_seg vma;
    if last <? seg_start g then mret ERROR_SUCCESS else
    if (seg_start g <? start) && (last <? seg_end g) then
      new_vma ← new_segment (seg_start g) start (seg_flags g);
      if new_vma =? null then mret ERROR_MEMORY_ALLOC else
      ret ← segment_resize vma last (seg_end g);
      if negb (bool_decide (ret = ERROR_SUCCESS)) then mret ret else
      insert_vma_locked a new_vma;;
      x ← get_space a;
      on_memory (on_tables (unmap_range (pgdir_ x) start last));;
      mret ERROR_SUCCESS
    else
      x ← get_space a;
      freelist ← on_list (intrusive_list_new true fl);
      fuel ← list_fuel;
      freelist ← collect fuel (head_ (segments x)) (link vma) last freelist;
      first ← on_list (begin_ freelist);
      release_loop fuel a (head_ freelist) first start last;;
      mret ERROR_SUCCESS).

(** [resize] takes the lock and calls [unmap], which takes it again. *)
Definition resize_locked (fl a addr len : Z) : MS error_code_values :=
  let start := PAGE_ROUNDDOWN addr in
  let last := PAGE_ROUNDUP (addr +w len) in
  if negb (VALID_USER_REGION start last) then mret ERROR_INVALID else
  ret ← unmap fl a start (last -w start);
  if negb (bool_decide (ret = ERROR_SUCCESS)) then mret ret else
  let flags := Z.lor VM_READ VM_WRITE in
  vma ← find_vma_locked a (start -w 1);
  grow ← (if vma =? null then mret false else
    g ← get_seg vma; mret ((seg_end g =? start) && (seg_flags g =? flags)));
  if (grow : bool) then
    g ← get_seg vma;
    put_seg vma (Seg (seg_start g) last (seg_flags g));;
    mret ERROR_SUCCESS
  else
    vma ← new_segment start last flags;
    if vma =? null then mret ERROR_MEMORY_ALLOC else
    insert_vma_locked a vma;;
    mret ERROR_SUCCESS.

Definition resize (fl a addr len : Z) : MS error_code_values := locking a (resize_locked fl a addr len).

(** *** Flexpages *)

Definition fpage_flags (send : Z) : Z :=
  let f := VM_SHARE in
  let f := if check_rights send AR_W then Z.lor f VM_WRITE else f in
  let f := if check_rights send AR_R then Z.lor f VM_READ else f in
  if check_rights send AR_X then Z.lor f VM_EXEC else f.

(** A pointer that is null is dereferenced. *)
Definition deref (p : option Z) : MS Z := match p with Some p => mret p | None => st_fail end.

(** One page of the loops: the entry at [start] is copied to the corresponding
    address of the other space, and cleared if it is granted. *)
Definition share_page (from to send receive start : Z) (grant : bool) : MS unit :=
  x ← get_space from;
  pde ← on_memory (on_tables (vmm_walk_pgdir (pgdir_ x) start false));
  y ← get_space to;
  to_pde ← on_memory (on_tables (vmm_walk_pgdir (pgdir_ y)
    (start -w get_base_address send +w get_base_address receive) true));
  pde ← deref pde;
  v ← on_memory (on_tables (read pde));
  to_pde ← deref to_pde;
  on_memory (on_tables (write to_pde v));;
  if grant then on_memory (on_tables (write pde 0)) else mret tt.

Fixpoint share_loop (fuel : nat) (from to send receive start : Z) (grant : bool) : MS unit :=
  if start +w PAGE_SIZE <=? get_base_address send +w get_size send then
    match fuel with
    | O => st_fail
    | S fuel => share_page from to send receive start grant;; share_loop fuel from to send receive (start +w PAGE_SIZE) grant
    end
  else mret tt.

Definition share_fuel (send : Z) : nat := Z.to_nat (get_size send / PAGE_SIZE + 1).

Definition mm_fpage_map (this to send receive : Z) : MS seg_result :=
  ret ← map to (get_base_address send) (get_size send) (fpage_flags send);
  if has_error ret then mret ret else
  locking this (locking to (
    share_loop (share_fuel send) this to send receive (get_base_address send) false));;
  mret (inl ERROR_SUCCESS).

Definition fpage_grant (fl this to send receive : Z) : MS seg_result :=
  ret ← map to (get_base_address send) (get_size send) (fpage_flags send);
  if has_error ret then mret ret else
  ret ← unmap fl this (get_base_address send) (get_size send);
  if has_error (inl ret) then mret (inl ret) else
  locking this (locking to (
    share_loop (share_fuel send) this to send receive (get_base_address send) true));;
  mret (inl ERROR_SUCCESS).

(** *** Duplication *)

(** [new(&ck) address_space{}] *)
Definition new_space : MS loc := λ s,
  match heap s with
  | [] => Some (null, s)
  | p :: rest =>
      (l ← on_list (intrusive_list_new true (head_of p));
       put_space p (ASpace l null 0 0 0 0);;
       mret p) (MM (list_mem s) (segs s) (spaces s) (locked s) (memory s) rest)
  end.

Fixpoint duplicate_loop (fuel : nat) (this to h iter : loc) : MS seg_result :=
  match fuel with
  | O => st_fail
  | S fuel =>
      if decide (iter = h) then mret (inr to) else
      p ← on_list (load_parent iter);
      g ← get_seg p;
      new_seg ← new_segment (seg_start g) (seg_end g) (seg_flags g);
      if new_seg =? null then mret (inl ERROR_MEMORY_ALLOC) else
      insert_vma_locked to new_seg;;
      x ← get_space this;
      y ← get_space to;
      on_memory (copy_range pages_end page_count (pgdir_ x) (pgdir_ y) (seg_start g) (seg_end g));;
      n ← on_list (on_links (load_next iter));
      duplicate_loop fuel this to h n
  end.

Definition duplicate (this : loc) : MS seg_result :=
  locking this (
    to ← new_space;
    if to =? null then mret (inl ERROR_MEMORY_ALLOC) else
    x ← get_space this;
    fuel ← list_fuel;
    first ← on_list (begin_ (segments x));
    duplicate_loop fuel this to (head_ (segments x)) first).

(** ** Page faults *)

(** Whether the access with error code [err] is allowed by the flags: the error
    otherwise. *)
Definition fault_error (err flags : Z) : option error_code_values :=
  if Z.land err 3 =? 1 then Some ERROR_UNKOWN
  else if Z.land err 3 =? 0 then
    if Z.land flags (Z.lor VM_READ VM_EXEC) =? 0 then Some ERROR_PAGE_NOT_PRESENT else None
  else if Z.land flags VM_WRITE =? 0 then Some ERROR_PAGE_NOT_PRESENT else None.

Definition page_fault_impl (a err addr : Z) : MS error_code_values :=
  vma ← find_vma a addr;
  if vma =? null then mret ERROR_VMA_NOT_FOUND else
  g ← get_seg vma;
  if addr <? seg_start g then mret ERROR_VMA_NOT_FOUND else
  match fault_error err (seg_flags g) with
  | Some e => mret e
  | None =>
      let page_perm := if Z.land (seg_flags g) VM_WRITE =? 0 then PG_U else Z.lor PG_U PG_W in
      x ← locking a (get_space a);
      page_ret ← on_memory (allocate_at pages_end page_count (rounddown addr PAGE_SIZE) page_perm (pgdir_ x) true);
      match page_ret with inl e => mret e | inr _ => mret ERROR_SUCCESS end
  end.

(** The handler panics for the errors of [page_fault_impl] itself. *)
Definition handle_pgfault (a err addr : Z) : MS error_code_values :=
  ret ← page_fault_impl a err addr;
  if decide (ret = ERROR_VMA_NOT_FOUND ∨ ret = ERROR_PAGE_NOT_PRESENT ∨ ret = ERROR_UNKOWN) then st_fail else mret ret.

(** ** The heap of a process: [process::resize_heap] *)

(** [heap] is the value at [heap_ptr]; the result holds the value written there,
    [None] if it is left as it is.  The lock of the process is not modelled. *)
Definition resize_heap (fl a heap_ptr heap : Z) : MS (error_code_values * option Z) :=
  if negb (VALID_USER_REGION heap_ptr (heap_ptr +w 8)) then mret (ERROR_INVALID, None) else
  x ← locking a (get_space a);
  let begin := uheap_begin_ x in
  if heap <? begin then mret (ERROR_SUCCESS, Some begin) else
  let new_heap := PAGE_ROUNDUP heap in
  let old_heap := uheap_ x in
  if negb (old_heap mod PAGE_SIZE =? 0) then mret (ERROR_INVALID, None) else
  if new_heap =? old_heap then mret (ERROR_SUCCESS, Some begin) else
  if new_heap <? old_heap then
    ret ← unmap fl a new_heap (old_heap -w new_heap);
    mret (ERROR_SUCCESS, if bool_decide (ret = ERROR_SUCCESS) then None else Some begin)
  else
    vma ← intersect_vma a old_heap (new_heap +w PAGE_SIZE);
    if negb (vma =? null) then mret (ERROR_SUCCESS, Some begin) else
    ret ← resize fl a old_heap (new_heap -w old_heap);
    mret (ERROR_SUCCESS, if bool_decide (ret = ERROR_SUCCESS) then None else Some begin).

End address_space.
