(* ===== verification/AddressSpaceInv.v ===== *)
(** * Address spaces: the invariant and what the operations do

    The segments of a space form a list, sorted by address and disjoint.  One
    lemma per operation of [AddressSpace]. *)

From Stdlib Require Import Sorted.
From S2P Require Import Prelude Types Links Buddy Pmm PodList IntrusiveList Paging PageTables PageOps PageRefs Fpage AddressSpace.

(** A ring has at most as many members as there are cells. *)
Lemma ring_length (m : link_mem) h xs : is_ring m h xs → (length xs < base.size m)%nat.
Proof.
  intros Hr. pose proof Hr as [Hnd _]. rewrite <- size_dom.
  assert (list_to_set (C := gset Z) (h :: xs) ⊆ dom m) as Hs.
  { intros q Hq%elem_of_list_to_set. destruct (is_ring_cells m h xs q Hr Hq) as (v & Hv). simpl in Hv.
    apply elem_of_dom. destruct (m !! q); [eauto|done]. }
  apply subseteq_size in Hs. rewrite size_list_to_set in Hs by done. simpl in Hs. lia.
Qed.

Lemma load_parent_at (M : lmem) p t : parent_of (links M) p = Some t → load_parent p M = Some (t, M).
Proof. destruct M. apply run_load_parent. Qed.

Lemma load_next_at (M : lmem) p v : nx (links M) p = Some v → on_links (load_next p) M = Some (v, M).
Proof. destruct M. intros H. by apply run_on_links, run_load_next. Qed.

Lemma sorted_ext (R R' : loc → loc → Prop) (l : list loc) :
  (∀ p q, p ∈ l → q ∈ l → R p q → R' p q) → StronglySorted R l → StronglySorted R' l.
Proof.
  intros H Hs. induction Hs as [|p l _ IH Hall]; [constructor|]. constructor; [apply IH; intros; apply H; auto using list_elem_of_further|].
  rewrite Forall_forall in Hall |- *. intros q Hq. apply H; [by left|by right|by apply Hall].
Qed.

Section inv.
Context {A : Type} (link : loc → loc).
Implicit Types (s : mm A) (x : aspace) (ts : list loc).

Definition seg_of s (p : loc) : segment := default (Seg 0 0 0) (segs s !! p).

Abbreviation before s := (λ p q, seg_end (seg_of s p) <= seg_start (seg_of s q)).

(** Addresses [operator new] hands out are no segments and their links no cells. *)
Definition heap_ok s : Prop :=
  NoDup (heap s) ∧ ∀ p, p ∈ heap s → p ≠ null ∧ link p ≠ null ∧ links (list_mem s) !! link p = None ∧ segs s !! p = None.

Record space_inv (a : loc) x ts s : Prop := {
  si_space : spaces s !! a = Some x;
  si_list : repr link (links (list_mem s)) (segments x) ts;
  si_held : held (list_mem s) = ∅;
  si_null : links (list_mem s) !! null = None;
  si_nullseg : segs s !! null = None;
  si_segs p : p ∈ ts → is_Some (segs s !! p);
  si_sorted : StronglySorted (before s) ts;
  si_bounds p : p ∈ ts → seg_start (seg_of s p) < seg_end (seg_of s p);
  si_cache : search_cache_ x = null ∨ search_cache_ x ∈ ts;
  si_heap : heap_ok s;
}.

Lemma get_seg_run s p : is_Some (segs s !! p) → get_seg p s = Some (seg_of s p, s).
Proof. intros (g & Hg). unfold get_seg, seg_of. by rewrite Hg. Qed.

(** Commands on the list that leave its memory as it is. *)
Lemma list_read {B} (c : ST lmem B) s v : c (list_mem s) = Some (v, list_mem s) → on_list c s = Some (v, s).
Proof. unfold on_list. intros ->. by destruct s. Qed.

Section walk.
Context (a : loc) x ts s (HI : space_inv a x ts s).

Lemma walk_node ys t zs :
  ts = ys ++ t :: zs →
  on_list (load_parent (link t)) s = Some (t, s) ∧
  on_list (on_links (load_next (link t))) s = Some (succ_of (head_ (segments x)) (link <$> zs), s) ∧
  link t ≠ head_ (segments x) ∧ get_seg t s = Some (seg_of s t, s) ∧ t ≠ null.
Proof.
  intros E. destruct (si_list _ _ _ _ HI) as [Hr Hn Hh _]. rewrite Forall_forall in Hn.
  assert (t ∈ ts) as Ht by (rewrite E; set_solver). destruct (Hn t Ht) as (Hp & H0).
  split; [|split; [|split; [|split; [|done]]]].
  - by apply list_read, load_parent_at.
  - apply list_read, load_next_at.
    rewrite E, fmap_app, fmap_cons, cons_middle, app_assoc in Hr. apply ring_next_of in Hr. by rewrite pred_of_snoc in Hr.
  - destruct Hr as [Hnd _]. intros Eh. apply NoDup_cons in Hnd as (Hnd & _). apply Hnd. rewrite <- Eh. by apply list_elem_of_fmap_2.
  - by apply get_seg_run, (si_segs _ _ _ _ HI).
Qed.

Lemma walk_begin : on_list (begin_ (segments x)) s = Some (succ_of (head_ (segments x)) (link <$> ts), s).
Proof.
  apply list_read. destruct (si_list _ _ _ _ HI) as [Hr _ _ _]. apply load_next_at.
  exact (ring_next_of _ _ [] _ Hr).
Qed.

Lemma fuel_enough : ∃ n, list_fuel s = Some (n, s) ∧ (length ts < n)%nat.
Proof.
  exists (S (base.size (links (list_mem s)))). split; [done|].
  destruct (si_list _ _ _ _ HI) as [Hr _ _ _]. apply ring_length in Hr. rewrite length_fmap in Hr. lia.
Qed.

(** The first segment of a list that contains an address. *)
Definition found (l : list loc) (addr : Z) : loc := default null (head (filter (λ p, contains (seg_of s p) addr = true) l)).

Lemma find_loop_ok addr fuel ys zs :
  ts = ys ++ zs → (length zs < fuel)%nat →
  find_loop fuel (head_ (segments x)) (succ_of (head_ (segments x)) (link <$> zs)) addr s = Some (found zs addr, s).
Proof.
  revert ys fuel. induction zs as [|t zs IH]; intros ys fuel E Hf; (destruct fuel as [|fuel]; [simpl in Hf; lia|]).
  - cbn. by rewrite decide_True.
  - destruct (walk_node ys t zs E) as (Hp & Hn & Hne & Hg & _). rewrite fmap_cons. cbn [find_loop succ_of head default].
    change (default _ (Some (link t))) with (link t). rewrite decide_False by done.
    rewrite (bind_run _ _ _ _ _ Hp), (bind_run _ _ _ _ _ Hg). unfold found. rewrite filter_cons.
    destruct (contains (seg_of s t) addr) eqn:Ec; [by rewrite decide_True|]. rewrite decide_False by done.
    rewrite (bind_run _ _ _ _ _ Hn). apply (IH (ys ++ [t])); [by rewrite <- app_assoc|simpl in Hf; lia].
Qed.

(** At most one segment contains an address. *)
Lemma contains_unique p q addr :
  p ∈ ts → q ∈ ts → contains (seg_of s p) addr = true → contains (seg_of s q) addr = true → p = q.
Proof.
  unfold contains. rewrite !andb_true_iff, !Z.leb_le, !Z.ltb_lt. intros Hp Hq H1 H2.
  pose proof (si_sorted _ _ _ _ HI) as Hs. revert Hp Hq. clear HI. induction Hs as [|t ts' _ IH Hall]; [by intros ?%not_elem_of_nil|].
  rewrite Forall_forall in Hall. rewrite !elem_of_cons. intros [->|Hp] [->|Hq]; [done| | |by apply IH].
  - specialize (Hall q Hq). lia.
  - specialize (Hall p Hp). lia.
Qed.

Lemma found_spec addr :
  (found ts addr = null ∧ ∀ p, p ∈ ts → contains (seg_of s p) addr = false) ∨
  (found ts addr ∈ ts ∧ contains (seg_of s (found ts addr)) addr = true).
Proof.
  unfold found. destruct (filter _ ts) as [|p l] eqn:E.
  - left. split; [done|]. intros p Hp. apply not_true_is_false. intros Hc.
    assert (p ∈ filter (λ p, contains (seg_of s p) addr = true) ts) as Hin by (by apply list_elem_of_filter). rewrite E in Hin. by apply not_elem_of_nil in Hin.
  - right. assert (p ∈ filter (λ p, contains (seg_of s p) addr = true) ts) as Hin by (rewrite E; by left).
    apply list_elem_of_filter in Hin as (H1 & H2). done.
Qed.

(** The cell after which a segment that starts at [start] belongs. *)
Lemma last_not_after_ok start fuel us ys zs prev :
  ts = us ++ ys ++ zs → (length (ys ++ zs) < fuel)%nat →
  Forall (λ p, seg_start (seg_of s p) <= start) ys → (∀ p, head zs = Some p → start < seg_start (seg_of s p)) →
  last_not_after fuel (head_ (segments x)) (succ_of (head_ (segments x)) (link <$> ys ++ zs)) prev start s =
    Some (pred_of prev (link <$> ys), s).
Proof.
  revert us fuel prev. induction ys as [|t ys IH]; intros us fuel prev E Hf Hys Hzs; (destruct fuel as [|fuel]; [simpl in Hf; lia|]).
  - destruct zs as [|t zs]; cbn -[default]; [by rewrite decide_True|].
    destruct (walk_node us t zs E) as (Hp & _ & Hne & Hg & _). rewrite decide_False by done.
    rewrite (bind_run _ _ _ _ _ Hp), (bind_run _ _ _ _ _ Hg), (proj2 (Z.ltb_lt _ _) (Hzs t eq_refl)). done.
  - apply Forall_cons in Hys as (Ht & Hys). destruct (walk_node us t (ys ++ zs) E) as (Hp & Hn & Hne & Hg & _). cbn -[default].
    rewrite decide_False by done. rewrite (bind_run _ _ _ _ _ Hp), (bind_run _ _ _ _ _ Hg), (proj2 (Z.ltb_ge _ _) Ht), (bind_run _ _ _ _ _ Hn).
    rewrite (IH (us ++ [t])); [|by rewrite <- app_assoc|simpl in Hf; lia|done..].
    unfold pred_of. rewrite last_cons. by destruct (last (link <$> ys)).
Qed.

Lemma next_parent ys zs : ts = ys ++ zs →
  on_list (load_parent (succ_of (head_ (segments x)) (link <$> zs))) s = Some (default null (head zs), s).
Proof.
  intros E. apply list_read, load_parent_at. destruct (si_list _ _ _ _ HI) as [_ Hn Hh _]. destruct zs as [|t zs]; [done|].
  rewrite Forall_forall in Hn. apply Hn. rewrite E. set_solver.
Qed.

End walk.

(** ** Finding *)

Definition with_space (a : loc) x' s : mm A := MM (list_mem s) (segs s) (<[a := x']> (spaces s)) (locked s) (memory s) (heap s).

Lemma with_space_id a x s : spaces s !! a = Some x → with_space a x s = s.
Proof. intros H. unfold with_space. rewrite insert_id by done. by destruct s. Qed.

(** The space differs at most in its cache. *)
Definition recached x x' : Prop := ∃ c, x' = set_cache c x.

Lemma find_vma_locked_ok a x ts s addr :
  space_inv a x ts s → ∃ x', find_vma_locked a addr s = Some (found s ts addr, with_space a x' s) ∧
    space_inv a x' ts (with_space a x' s) ∧ recached x x' ∧ (found s ts addr = null → x' = x).
Proof.
  intros HI. pose proof (si_space _ _ _ _ HI) as Hx. unfold find_vma_locked.
  assert (∀ y, recached x y → (search_cache_ y = null ∨ search_cache_ y ∈ ts) → space_inv a y ts (with_space a y s)) as Hcache.
  { intros y (c & ->) Hc. destruct HI. split; try done. apply lookup_insert_eq. }
  rewrite (bind_run _ _ s x s) by (unfold get_space; by rewrite Hx).
  rewrite (bind_run _ _ s (negb (search_cache_ x =? null) && contains (seg_of s (search_cache_ x)) addr) s).
  2:{ destruct (Z.eqb_spec (search_cache_ x) null) as [->|Hne]; [done|]. destruct (si_cache _ _ _ _ HI) as [?|Hin]; [done|].
      by rewrite (bind_run _ _ _ _ _ (get_seg_run s _ (si_segs _ _ _ _ HI _ Hin))). }
  rewrite (bind_run _ _ s (found s ts addr) s).
  - destruct (found_spec ts s addr) as [(Hf & _)|(Hf & _)].
    + rewrite Hf. exists x. rewrite (with_space_id a x s Hx). split; [done|]. split; [done|]. split; [|done]. exists (search_cache_ x). by destruct x.
    + destruct (si_list _ _ _ _ HI) as [_ Hn _ _]. rewrite Forall_forall in Hn. destruct (Hn _ Hf) as (_ & H0).
      rewrite (proj2 (Z.eqb_neq _ _) H0). exists (set_cache (found s ts addr) x). split; [|split; [apply Hcache; [by eexists|by right]|split; [by eexists|done]]].
      unfold upd_space. unfold mbind, ST_bind, get_space. rewrite Hx. done.
  - destruct (negb (search_cache_ x =? null) && contains (seg_of s (search_cache_ x)) addr) eqn:Hhit.
    + apply andb_true_iff in Hhit as (H0 & Hc). apply negb_true_iff, Z.eqb_neq in H0. destruct (si_cache _ _ _ _ HI) as [?|Hin]; [done|].
      destruct (found_spec ts s addr) as [(_ & Hf)|(Hf & Hc')]; [by rewrite Hf in Hc|].
      by rewrite (contains_unique a x ts s HI _ _ addr Hf Hin Hc' Hc).
    + destruct (fuel_enough a x ts s HI) as (n & Hn & Hlt). rewrite (bind_run _ _ _ _ _ Hn), (bind_run _ _ _ _ _ (walk_begin a x ts s HI)).
      by apply (find_loop_ok a x ts s HI addr n []).
Qed.

(** ** Inserting *)

Definition with_list (M : lmem) s : mm A := MM M (segs s) (spaces s) (locked s) (memory s) (heap s).

Lemma list_run {B} (c : ST lmem B) s v M : c (list_mem s) = Some (v, M) → on_list c s = Some (v, with_list M s).
Proof. unfold on_list. by intros ->. Qed.

Lemma links_free_none : links_free true ∅.
Proof. intros _ p. set_solver. Qed.

Lemma avail_none ls : avail true ∅ ls.
Proof. intros _. apply Forall_forall. set_solver. Qed.

Lemma no_cell (m : link_mem) q : m !! q = None ↔ ¬ cell m q.
Proof. unfold cell. simpl. rewrite fmap_is_Some, <- eq_None_not_Some. done. Qed.

Lemma frame_none X (m m' : link_mem) q : Links.frame X m m' → m !! q = None → m' !! q = None.
Proof. rewrite !no_cell. intros (_ & _ & Hc). by rewrite Hc. Qed.

(** Where a segment fits between its neighbours. *)
Definition fits s (p : loc) (ys zs : list loc) : Prop :=
  (ys = [] → zs = []) ∧
  match last ys with Some q => seg_end (seg_of s q) <= seg_start (seg_of s p) | None => True end ∧
  match head zs with Some q => seg_end (seg_of s p) <= seg_start (seg_of s q) | None => True end.

#[export] Instance fits_dec s p ys zs : Decision (fits s p ys zs).
Proof. unfold fits. destruct (last ys), (head zs); apply _. Defined.

Lemma sorted_insert s p ys zs :
  StronglySorted (before s) (ys ++ zs) → (∀ q, q ∈ ys ++ zs → seg_start (seg_of s q) < seg_end (seg_of s q)) →
  (∀ q, last ys = Some q → seg_end (seg_of s q) <= seg_start (seg_of s p)) →
  (∀ q, head zs = Some q → seg_end (seg_of s p) <= seg_start (seg_of s q)) →
  StronglySorted (before s) (ys ++ p :: zs).
Proof.
  intros Hs Hb H1 H2. induction ys as [|y ys IH]; simpl in *.
  - constructor; [done|]. destruct zs as [|z zs]; [done|]. apply StronglySorted_inv in Hs as (Hs & Hall). pose proof (H2 z eq_refl).
    constructor; [done|]. eapply Forall_impl; [exact Hall|]. simpl. intros q Hq. pose proof (Hb z ltac:(by left)). lia.
  - apply StronglySorted_inv in Hs as (Hs & Hall). constructor.
    + apply IH; [done|intros q Hq; apply Hb; by right|]. intros q Hq. apply H1. destruct ys; [done|]. done.
    + rewrite Forall_app in Hall |- *. destruct Hall as (Ha1 & Ha2). split; [done|]. constructor; [|done].
      destruct ys as [|w ys _] using rev_ind; [by apply H1|].
      pose proof (H1 w) as Hw. rewrite app_comm_cons, last_snoc in Hw. specialize (Hw eq_refl).
      rewrite Forall_app, Forall_singleton in Ha1. destruct Ha1 as (_ & Hyw). pose proof (Hb w ltac:(set_solver)). lia.
Qed.

(** The state after [ts] became the list of the segments. *)
Lemma relinked a x l ts us M s :
  space_inv a x ts s → held M = ∅ → repr link (links M) l us → (∀ q, cell (links (list_mem s)) q ↔ cell (links M) q) →
  (∀ p, p ∈ us → is_Some (segs s !! p)) → StronglySorted (before s) us →
  (∀ p, p ∈ us → seg_start (seg_of s p) < seg_end (seg_of s p)) → (∀ p, p ∈ ts → p ∈ us) →
  space_inv a (set_segments l x) us (with_space a (set_segments l x) (with_list M s)).
Proof.
  intros HI Hh Hr Hc Hsg Hso Hb Hsub. pose proof (si_heap _ _ _ _ HI) as (Hnd & Hheap).
  assert (∀ q, links (list_mem s) !! q = None → links M !! q = None) as Hnone by (intros q; rewrite !no_cell, Hc; done).
  split; try done.
  - apply lookup_insert_eq.
  - apply Hnone, (si_null _ _ _ _ HI).
  - apply (si_nullseg _ _ _ _ HI).
  - destruct (si_cache _ _ _ _ HI) as [?|?]; [by left|right; by apply Hsub].
  - split; [done|]. intros p Hp. destruct (Hheap p Hp) as (H1 & H2 & H3 & H4). split; [done|]. split; [done|]. split; [by apply Hnone|done].
Qed.

Lemma frame_cells X (m m' : link_mem) : Links.frame X m m' → ∀ q, cell m q ↔ cell m' q.
Proof. intros (_ & _ & Hc) q. by rewrite Hc. Qed.

Lemma list_mem_eta a x ts s : space_inv a x ts s → list_mem s = Lmem (links (list_mem s)) ∅ (deleted (list_mem s)).
Proof. intros HI. pose proof (si_held _ _ _ _ HI) as H. destruct (list_mem s). simpl in *. by rewrite H. Qed.

Section insert.
Context (a : loc) x (ys zs : list loc) s (p : loc) (HI : space_inv a x (ys ++ zs) s).
Context (Hn : node link (links (list_mem s)) p) (Hc : link p ∉ cells link (segments x) (ys ++ zs)).
Context (Hg : is_Some (segs s !! p)) (Hb : seg_start (seg_of s p) < seg_end (seg_of s p)).

Lemma upd_space_run f s1 : spaces s1 !! a = Some x → upd_space a f s1 = Some (tt, with_space a (f x) s1).
Proof. intros H. unfold upd_space, get_space, mbind, ST_bind. by rewrite H. Qed.

Lemma inserted l M :
  held M = ∅ → repr link (links M) l (ys ++ p :: zs) → (∀ q, cell (links (list_mem s)) q ↔ cell (links M) q) → fits s p ys zs →
  space_inv a (set_segments l x) (ys ++ p :: zs) (with_space a (set_segments l x) (with_list M s)).
Proof.
  intros Hh Hr Hcl (_ & H1 & H2). apply (relinked a x l (ys ++ zs)); try done.
  - intros q Hq. destruct (decide (q = p)) as [->|]; [done|]. apply (si_segs _ _ _ _ HI). set_solver.
  - apply sorted_insert; [apply (si_sorted _ _ _ _ HI)|apply (si_bounds _ _ _ _ HI)| |]; intros q Hq; by rewrite Hq in *.
  - intros q Hq. destruct (decide (q = p)) as [->|]; [done|]. apply (si_bounds _ _ _ _ HI). set_solver.
  - set_solver.
Qed.

(** The checks between two segments. *)
Lemma overlap_run q r :
  q ≠ null → r ≠ null → is_Some (segs s !! q) → is_Some (segs s !! r) →
  seg_start (seg_of s q) < seg_end (seg_of s q) → seg_start (seg_of s r) < seg_end (seg_of s r) →
  assert_segment_overlap q r s = if seg_end (seg_of s q) <=? seg_start (seg_of s r) then Some (tt, s) else None.
Proof.
  intros H1 H2 Hq Hr Bq Br. unfold assert_segment_overlap. rewrite (proj2 (Z.eqb_neq _ _) H1), (proj2 (Z.eqb_neq _ _) H2).
  cbn [orb]. rewrite (bind_run _ _ _ _ _ (get_seg_run s q Hq)), (bind_run _ _ _ _ _ (get_seg_run s r Hr)).
  unfold kassert, mbind, ST_bind. rewrite (proj2 (Z.ltb_lt _ _) Bq), (proj2 (Z.ltb_lt _ _) Br). by destruct (_ <=? _).
Qed.

Lemma insert_empty : ys ++ zs = [] →
  ∃ l M, insert_vma_locked link a p s = Some (tt, with_space a (set_segments l x) (with_list M s)) ∧
    space_inv a (set_segments l x) [p] (with_space a (set_segments l x) (with_list M s)).
Proof.
  intros E. assert (ys = [] ∧ zs = []) as (Ey & Ez) by by apply app_eq_nil. pose proof (si_list _ _ _ _ HI) as Hr.
  pose proof Hc as Hc'. rewrite E in Hr, Hc'. assert (ys ++ p :: zs = [p]) as Ep by by rewrite Ey, Ez.
  destruct (push_back_ok true link _ ∅ (deleted (list_mem s)) _ _ p Hr Hn Hc' links_free_none (avail_none _)) as (m' & l & Hp & _ & Hr' & F).
  exists l, (Lmem m' ∅ (deleted (list_mem s))). split.
  - unfold insert_vma_locked. rewrite (bind_run _ _ s x s) by (unfold get_space; by rewrite (si_space _ _ _ _ HI)).
    erewrite bind_run by (apply list_read; rewrite (list_mem_eta _ _ _ _ HI); exact (run_list_empty true _ _ _ _ _ links_free_none (repr_ring _ _ _ _ Hr))).
    rewrite bool_decide_true by done. erewrite bind_run by (apply list_run; rewrite (list_mem_eta _ _ _ _ HI); exact Hp).
    apply upd_space_run. apply (si_space _ _ _ _ HI).
  - rewrite <- Ep. apply (inserted l); [done|by rewrite Ep|by apply (frame_cells _ _ _ F)|]. by rewrite Ey, Ez.
Qed.

(** The position: after the segments that start at or before the new one. *)
Definition position : Prop :=
  Forall (λ q, seg_start (seg_of s q) <= seg_start (seg_of s p)) ys ∧
  (∀ q, head zs = Some q → seg_start (seg_of s p) < seg_start (seg_of s q)).

Lemma insert_start :
  ys ++ zs ≠ [] → position →
  insert_vma_locked link a p s = (
    prev ← on_list (load_parent (pred_of null (link <$> ys)));
    next_link ← on_list (on_links (load_next (link prev)));
    next ← on_list (load_parent next_link);
    assert_segment_overlap prev p;;
    assert_segment_overlap p next;;
    l ← on_list (insert true link (segments x) (pred_of null (link <$> ys)) p);
    upd_space a (set_segments l)) s.
Proof.
  intros Hne (Hys & Hzs). unfold insert_vma_locked.
  rewrite (bind_run _ _ s x s) by (unfold get_space; by rewrite (si_space _ _ _ _ HI)).
  erewrite bind_run by (apply list_read; rewrite (list_mem_eta _ _ _ _ HI); exact (run_list_empty true _ _ _ _ _ links_free_none (repr_ring _ _ _ _ (si_list _ _ _ _ HI)))).
  rewrite bool_decide_false by (intros E%fmap_nil_inv; done). rewrite (bind_run _ _ _ _ _ (get_seg_run s p Hg)).
  destruct (fuel_enough a x _ s HI) as (n & Hf & Hlt). rewrite (bind_run _ _ _ _ _ Hf), (bind_run _ _ _ _ _ (walk_begin a x _ s HI)).
  by rewrite (bind_run _ _ _ _ _ (last_not_after_ok a x _ s HI (seg_start (seg_of s p)) n [] ys zs null eq_refl Hlt Hys Hzs)).
Qed.

Lemma insert_lowest : ys = [] → zs ≠ [] → position → insert_vma_locked link a p s = None.
Proof.
  intros Ey Hz Hpos. rewrite insert_start by (done || by rewrite Ey). rewrite Ey. unfold mbind, ST_bind, on_list, load_parent.
  cbn [fmap list_fmap]. change (pred_of null []) with null. by rewrite (si_null _ _ _ _ HI).
Qed.

(** The two checks, with the segments around the position. *)
Lemma insert_checked ys' t :
  ys = ys' ++ [t] → position →
  insert_vma_locked link a p s =
    if (seg_end (seg_of s t) <=? seg_start (seg_of s p)) &&
       match head zs with Some q => seg_end (seg_of s p) <=? seg_start (seg_of s q) | None => true end
    then (l ← on_list (insert true link (segments x) (link t) p); upd_space a (set_segments l)) s
    else None.
Proof.
  intros Ey Hpos. rewrite insert_start by (done || rewrite Ey; by destruct ys'). destruct Hn as (_ & Hp0).
  assert (pred_of null (link <$> ys) = link t) as -> by (rewrite Ey, fmap_app; apply pred_of_snoc).
  assert (ys ++ zs = ys' ++ t :: zs) as E by by rewrite Ey, <- app_assoc.
  destruct (walk_node a x _ s HI ys' t zs E) as (H1 & H2 & _ & _ & Ht0).
  rewrite (bind_run _ _ _ _ _ H1), (bind_run _ _ _ _ _ H2), (bind_run _ _ _ _ _ (next_parent a x _ s HI ys zs eq_refl)).
  assert (t ∈ ys ++ zs) as Ht by (rewrite E; set_solver).
  assert (assert_segment_overlap t p s = if seg_end (seg_of s t) <=? seg_start (seg_of s p) then Some (tt, s) else None) as Ha.
  { apply overlap_run; try done; [by apply (si_segs _ _ _ _ HI)|by apply (si_bounds _ _ _ _ HI)]. }
  unfold mbind at 1, ST_bind at 1. rewrite Ha. destruct (seg_end (seg_of s t) <=? seg_start (seg_of s p)); [|done]. cbn [andb].
  destruct zs as [|q zs']; cbn [head default from_option id].
  - unfold assert_segment_overlap. by rewrite orb_true_r.
  - assert (q ∈ ys ++ q :: zs') as Hq by set_solver. destruct (walk_node a x _ s HI ys q zs' eq_refl) as (_ & _ & _ & _ & Hq0).
    assert (assert_segment_overlap p q s = if seg_end (seg_of s p) <=? seg_start (seg_of s q) then Some (tt, s) else None) as Hb'.
    { apply overlap_run; try done; [by apply (si_segs _ _ _ _ HI)|by apply (si_bounds _ _ _ _ HI)]. }
    unfold mbind at 1, ST_bind at 1. rewrite Hb'. by destruct (_ <=? _).
Qed.

Lemma insert_between ys' t :
  ys = ys' ++ [t] → fits s p ys zs →
  ∃ l M, (l ← on_list (insert true link (segments x) (link t) p); upd_space a (set_segments l)) s =
      Some (tt, with_space a (set_segments l x) (with_list M s)) ∧
    space_inv a (set_segments l x) (ys ++ p :: zs) (with_space a (set_segments l x) (with_list M s)).
Proof.
  intros Ey Hfit.
  destruct (insert_ok true link _ ∅ (deleted (list_mem s)) _ ys zs p (si_list _ _ _ _ HI) Hn Hc links_free_none (avail_none _))
    as (m' & l & Hi & _ & Hr' & F).
  replace (pred_of (head_ (segments x)) (link <$> ys)) with (link t) in Hi by (rewrite Ey, fmap_app; symmetry; apply pred_of_snoc).
  exists l, (Lmem m' ∅ (deleted (list_mem s))). split; [|apply inserted; [done..|by apply (frame_cells _ _ _ F)|done]].
  erewrite bind_run by (apply list_run; rewrite (list_mem_eta _ _ _ _ HI); exact Hi). apply upd_space_run, (si_space _ _ _ _ HI).
Qed.

End insert.

(** Inserting a segment: it goes to its place, unless it is the lowest of
    several or overlaps a neighbour. *)
Lemma insert_vma_cases a x ys zs s p :
  space_inv a x (ys ++ zs) s → node link (links (list_mem s)) p → link p ∉ cells link (segments x) (ys ++ zs) →
  is_Some (segs s !! p) → seg_start (seg_of s p) < seg_end (seg_of s p) → position ys zs s p →
  if decide (fits s p ys zs)
  then ∃ l M, insert_vma_locked link a p s = Some (tt, with_space a (set_segments l x) (with_list M s)) ∧
    space_inv a (set_segments l x) (ys ++ p :: zs) (with_space a (set_segments l x) (with_list M s))
  else insert_vma_locked link a p s = None.
Proof.
  intros HI Hn Hc Hg Hb Hpos. destruct ys as [|t ys' _] using rev_ind.
  - destruct zs as [|q zs']; [rewrite decide_True by done; by apply (insert_empty a x [] [])|].
    rewrite decide_False by (intros (E & _); by specialize (E eq_refl)). by apply (insert_lowest a x [] (q :: zs')).
  - rewrite (insert_checked a x (ys' ++ [t]) zs s p HI Hn Hc Hg Hb ys' t eq_refl Hpos).
    case_decide as Hf; unfold fits in Hf; rewrite last_snoc in Hf.
    + destruct Hf as (Hf1 & Hf2 & Hf3). rewrite (proj2 (Z.leb_le _ _) Hf2).
      assert (match head zs with Some q => seg_end (seg_of s p) <=? seg_start (seg_of s q) | None => true end = true) as ->
        by (destruct (head zs); [by apply Z.leb_le|done]).
      apply (insert_between a x (ys' ++ [t]) zs s p HI Hn Hc Hg Hb ys' t eq_refl). unfold fits. by rewrite last_snoc.
    + destruct (seg_end (seg_of s t) <=? seg_start (seg_of s p)) eqn:E1; [|done]. cbn [andb].
      destruct (match head zs with Some _ => _ | None => _ end) eqn:E2; [|done]. exfalso. apply Hf.
      split; [by destruct ys'|]. split; [by apply Z.leb_le|]. destruct (head zs); [by apply Z.leb_le|done].
Qed.

(** Every start address has its position. *)
Lemma split_position a x ts s start :
  space_inv a x ts s → ∃ ys zs, ts = ys ++ zs ∧ Forall (λ q, seg_start (seg_of s q) <= start) ys ∧
    (∀ q, head zs = Some q → start < seg_start (seg_of s q)).
Proof.
  intros _. induction ts as [|t ts (ys & zs & -> & H1 & H2)]; [by exists [], []|].
  destruct (Z.le_gt_cases (seg_start (seg_of s t)) start) as [Hle|Hgt].
  - exists (t :: ys), zs. split; [done|]. by split; [constructor|].
  - exists [], (t :: ys ++ zs). split; [done|]. split; [done|]. by intros q [= <-].
Qed.

(** ** New segments *)

Definition seg_cell (p : loc) : list_link := {| parent_ := p; next_ := link p; prev_ := link p |}.

Definition with_new (p : loc) (rest : list loc) (g : segment) s : mm A :=
  MM (Lmem (<[link p := seg_cell p]> (links (list_mem s))) (held (list_mem s)) (deleted (list_mem s)))
    (<[p := g]> (segs s)) (spaces s) (locked s) (memory s) rest.

Lemma new_segment_run p rest start last flags s :
  heap s = p :: rest → start < last → new_segment link start last flags s = Some (p, with_new p rest (Seg start last flags) s).
Proof. intros Hh Hlt. unfold new_segment. rewrite Hh, (proj2 (Z.ltb_lt _ _) Hlt). done. Qed.

Lemma new_segment_null start last flags s : heap s = [] → new_segment link start last flags s = Some (null, s).
Proof. intros Hh. unfold new_segment. by rewrite Hh. Qed.

Lemma new_segment_inv `{!Inj (=) (=) link} a x ts s p rest g :
  space_inv a x ts s → heap s = p :: rest →
  let s' := with_new p rest g s in
  space_inv a x ts s' ∧ node link (links (list_mem s')) p ∧ (link p ∉ cells link (segments x) ts) ∧
  (∀ q, q ∈ ts → seg_of s' q = seg_of s q) ∧ seg_of s' p = g ∧ (p ∉ ts).
Proof.
  intros HI Hh s'. pose proof (si_heap _ _ _ _ HI) as (Hnd & Hheap). rewrite Hh in Hnd, Hheap. apply NoDup_cons in Hnd as (Hpr & Hnd).
  destruct (Hheap p ltac:(by left)) as (H0 & Hl0 & Hlp & Hsp).
  assert (p ∉ ts) as Hpts. { intros Hp%(si_segs _ _ _ _ HI). rewrite Hsp in Hp. by destruct Hp. }
  destruct (si_list _ _ _ _ HI) as [Hr Hn Hhd Hsz].
  assert (link p ∉ head_ (segments x) :: (link <$> ts)) as Hc. { intros Hc%(is_ring_cells _ _ _ _ Hr). by apply no_cell in Hlp. }
  assert (∀ q, q ≠ link p → links (list_mem s') !! q = links (list_mem s) !! q) as Hout by (intros q Hq; by apply lookup_insert_ne).
  assert (∀ q, q ∈ ts → seg_of s' q = seg_of s q) as Hsg.
  { intros q Hq. unfold seg_of. cbn [segs s' with_new]. rewrite lookup_insert_ne; [done|congruence]. }
  split; [|split; [|split; [|split; [|split]]]]; try done.
  - split.
    + apply (si_space _ _ _ _ HI).
    + split; [by apply (ring_outside (links (list_mem s)) _ _ _ (link p))|
        apply (nodes_outside link (links (list_mem s)) _ _ (link p)); [done|set_solver|done]| |done].
      unfold parent_of. rewrite Hout by set_solver. done.
    + apply (si_held _ _ _ _ HI).
    + rewrite Hout by congruence. apply (si_null _ _ _ _ HI).
    + cbn [segs s' with_new]. rewrite lookup_insert_ne by done. apply (si_nullseg _ _ _ _ HI).
    + intros q Hq. cbn [segs s' with_new]. apply lookup_insert_is_Some'. right. by apply (si_segs _ _ _ _ HI).
    + apply (sorted_ext (before s)); [|apply (si_sorted _ _ _ _ HI)]. intros q r Hq Hr'. by rewrite !Hsg.
    + intros q Hq. rewrite Hsg by done. by apply (si_bounds _ _ _ _ HI).
    + apply (si_cache _ _ _ _ HI).
    + split; [done|]. intros q Hq. destruct (Hheap q ltac:(by right)) as (H1 & H2 & H3 & H4).
      assert (q ≠ p) as Hqp by by intros ->. split; [done|]. split; [done|]. split; [rewrite Hout; [done|by intros E%(inj link)]|].
      cbn [segs s' with_new]. by rewrite lookup_insert_ne.
  - split; [|done]. unfold parent_of. cbn. by rewrite lookup_insert_eq.
  - unfold seg_of. cbn. by rewrite lookup_insert_eq.
Qed.

(** ** Locks *)

Definition with_locked (L : gset loc) s : mm A := MM (list_mem s) (segs s) (spaces s) L (memory s) (heap s).

Lemma locking_run {B} o (c : ST (mm A) B) s r s' :
  o ∉ locked s → c (with_locked ({[o]} ∪ locked s) s) = Some (r, s') → locked s' = {[o]} ∪ locked s →
  locking o c s = Some (r, with_locked (locked s) s').
Proof.
  intros Ho Hc Hl. unfold locking, take_lock, drop_lock, set_locked, mbind, ST_bind. rewrite decide_False by done.
  unfold with_locked in Hc. rewrite Hc. unfold mret, ST_ret, with_locked. do 3 f_equal. rewrite Hl. apply leibniz_equiv. set_solver.
Qed.

Lemma locking_none {B} o (c : ST (mm A) B) s : o ∉ locked s → c (with_locked ({[o]} ∪ locked s) s) = None → locking o c s = None.
Proof.
  intros Ho Hc. unfold locking, take_lock, set_locked, mbind, ST_bind. rewrite decide_False by done.
  unfold with_locked in Hc. by rewrite Hc.
Qed.

Lemma locking_held {B} o (c : ST (mm A) B) s : o ∈ locked s → locking o c s = None.
Proof. intros Ho. unfold locking, take_lock, mbind, ST_bind. by rewrite decide_True. Qed.

Lemma space_inv_locked a x ts L s : space_inv a x ts s → space_inv a x ts (with_locked L s).
Proof. intros []. by split. Qed.

(** A locked operation that starts by looking for a segment runs on as if it had
    the result at hand, with the cache it leaves. *)
Lemma locked_find {B} a x ts s addr (k : loc → ST (mm A) B) :
  space_inv a x ts s → a ∉ locked s →
  (found s ts addr = null ∧ (∀ p, p ∈ ts → contains (seg_of s p) addr = false) ∧
     locking a (vma ← find_vma_locked a addr; k vma) s = locking a (k null) s) ∨
  ∃ p x', p ∈ ts ∧ p ≠ null ∧ contains (seg_of s p) addr = true ∧ recached x x' ∧ space_inv a x' ts (with_space a x' s) ∧
     locking a (vma ← find_vma_locked a addr; k vma) s = locking a (k p) (with_space a x' s).
Proof.
  intros HI Ha. set (s1 := with_locked ({[a]} ∪ locked s) s).
  destruct (find_vma_locked_ok a x ts s1 addr (space_inv_locked a x ts _ s HI)) as (x1 & Hf & HI1 & Hrc & Hx1).
  change (found s1 ts addr) with (found s ts addr) in *.
  assert (locking a (vma ← find_vma_locked a addr; k vma) s = locking a (k (found s ts addr)) (with_space a x1 s)) as Hrun.
  { unfold locking, take_lock, set_locked, mbind, ST_bind. cbn [locked with_space]. rewrite !decide_False by done.
    fold (with_locked ({[a]} ∪ locked s) s). fold s1. by rewrite Hf. }
  destruct (found_spec ts s addr) as [(Hnull & Hno)|(Hin & Hc)].
  - left. split; [done|]. split; [done|]. rewrite Hrun, Hnull, (Hx1 Hnull), with_space_id; [done|]. apply (si_space _ _ _ _ HI).
  - right. exists (found s ts addr), x1. destruct (si_list _ _ _ _ HI) as [_ Hn _ _]. rewrite Forall_forall in Hn.
    destruct (Hn _ Hin) as (_ & Hp0). do 4 (split; [done|]). split; [|done].
    apply (space_inv_locked a x1 ts (locked s)) in HI1. exact HI1.
Qed.

(** ** Mapping *)

(** The range fits between the segments around its position. *)
Definition room s (ys zs : list loc) (last : Z) : Prop :=
  (ys = [] → zs = []) ∧ match head zs with Some q => last <= seg_start (seg_of s q) | None => True end.

#[export] Instance room_dec s ys zs last : Decision (room s ys zs last).
Proof. unfold room. destruct (head zs); apply _. Defined.

Lemma not_contains g addr : contains g addr = false → seg_start g <= addr → seg_end g <= addr.
Proof. unfold contains. intros H Hle. rewrite (proj2 (Z.leb_le _ _) Hle) in H. by apply Z.ltb_ge. Qed.

(** Creating and inserting a segment where no segment contains its start. *)
Lemma create_segment `{!Inj (=) (=) link} a x ys zs s p rest start last flags :
  space_inv a x (ys ++ zs) s → found s (ys ++ zs) start = null → heap s = p :: rest → start < last →
  Forall (λ q, seg_start (seg_of s q) <= start) ys → (∀ q, head zs = Some q → start < seg_start (seg_of s q)) →
  let s1 := with_new p rest (Seg start last flags) s in
  if decide (room s ys zs last)
  then ∃ l M, insert_vma_locked link a p s1 = Some (tt, with_space a (set_segments l x) (with_list M s1)) ∧
    space_inv a (set_segments l x) (ys ++ p :: zs) (with_space a (set_segments l x) (with_list M s1))
  else insert_vma_locked link a p s1 = None.
Proof.
  intros HI Hf Hh Hlt Hys Hzs s1. destruct (new_segment_inv a x _ s p rest (Seg start last flags) HI Hh) as (HI1 & Hn & Hc & Hsg & Hp & _).
  fold s1 in HI1, Hn, Hsg, Hp.
  assert (∀ q, q ∈ ys → seg_of s1 q = seg_of s q) as Hsy by (intros q Hq; apply Hsg; set_solver).
  assert (∀ q, head zs = Some q → seg_of s1 q = seg_of s q) as Hsz.
  { intros q Hq. apply Hsg. destruct zs; [done|]. injection Hq as ->. set_solver. }
  pose proof (insert_vma_cases a x ys zs s1 p HI1 Hn Hc) as Hins. rewrite Hp in Hins.
  assert (fits s1 p ys zs ↔ room s ys zs last) as Hiff.
  { unfold fits, room. rewrite Hp. cbn [seg_start seg_end]. destruct (head zs) as [z|] eqn:Ez; [rewrite (Hsz z eq_refl)|]; (split; [tauto|]).
    all: intros (H1 & H2); split; [done|]; split; [|done]; destruct (list.last ys) as [y|] eqn:Ey; [|done].
    all: apply last_Some in Ey as (ys' & ->); rewrite Hsy by set_solver.
    all: destruct (found_spec ((ys' ++ [y]) ++ zs) s start) as [(_ & Hno)|(Hin & _)].
    all: try (apply not_contains; [apply Hno; set_solver|]; apply Forall_app in Hys as (_ & Hy); exact (Forall_inv Hy)).
    all: rewrite Hf in Hin; destruct (si_list _ _ _ _ HI) as [_ Hnd _ _]; rewrite Forall_forall in Hnd; by destruct (Hnd _ Hin) as (_ & []). }
  rewrite (decide_ext _ _ _ _ Hiff) in Hins. apply Hins; [|done|].
  - eexists. apply lookup_insert_eq.
  - unfold position. rewrite Hp. split; [|intros q Hq; rewrite (Hsz q Hq); by apply Hzs].
    rewrite Forall_forall in Hys |- *. intros q Hq. rewrite Hsy by done. by apply Hys.
Qed.

(** ** Unmapping *)

(** A segment shrinks. *)
Lemma shrink_inv a x ys p zs s g :
  space_inv a x (ys ++ p :: zs) s → seg_start (seg_of s p) <= seg_start g → seg_start g < seg_end g → seg_end g <= seg_end (seg_of s p) →
  let s' := MM (list_mem s) (<[p := g]> (segs s)) (spaces s) (locked s) (memory s) (heap s) in
  space_inv a x (ys ++ p :: zs) s' ∧ seg_of s' p = g ∧ (∀ q, q ≠ p → seg_of s' q = seg_of s q).
Proof.
  intros HI H1 H2 H3 s'. assert (seg_of s' p = g) as Hp by (unfold seg_of; cbn; by rewrite lookup_insert_eq).
  assert (∀ q, q ≠ p → seg_of s' q = seg_of s q) as Hq by (intros q Hq; unfold seg_of; cbn; by rewrite lookup_insert_ne).
  split; [|done]. pose proof (si_list _ _ _ _ HI) as [Hr Hn _ _]. rewrite Forall_forall in Hn.
  assert (p ∈ ys ++ p :: zs) as Hin by set_solver. destruct (Hn p Hin) as (_ & H0).
  assert (∀ q, seg_start (seg_of s q) <= seg_start (seg_of s' q) ∧ seg_end (seg_of s' q) <= seg_end (seg_of s q)) as Hle.
  { intros q. destruct (decide (q = p)) as [->|Hne]; [by rewrite Hp|rewrite Hq by done; lia]. }
  destruct HI. split; try done.
  - cbn. by rewrite lookup_insert_ne.
  - intros q Hq'. cbn. apply lookup_insert_is_Some'. right. by apply si_segs0.
  - apply (sorted_ext (before s)); [|done]. intros q r _ _. destruct (Hle q), (Hle r). lia.
  - intros q Hq'. destruct (decide (q = p)) as [->|Hne]; [by rewrite Hp|]. rewrite Hq by done. by apply si_bounds0.
  - destruct si_heap0 as (Hnd & Hh). split; [done|]. intros q Hqh. destruct (Hh q Hqh) as (A1 & A2 & A3 & A4). do 3 (split; [done|]).
    cbn. rewrite lookup_insert_ne; [done|]. intros ->. destruct (si_segs0 q Hin) as (? & E). by rewrite A4 in E.
Qed.

Definition can_resize (g : segment) (start last : Z) : bool :=
  (start mod PAGE_SIZE =? 0) && (last mod PAGE_SIZE =? 0) && negb (last <=? start) && (seg_start g <=? start) && (last <=? seg_end g).

Lemma segment_resize_run p start last s :
  p ∉ locked s → is_Some (segs s !! p) →
  segment_resize p start last s =
    if can_resize (seg_of s p) start last
    then Some (ERROR_SUCCESS, MM (list_mem s) (<[p := Seg start last (seg_flags (seg_of s p))]> (segs s)) (spaces s) (locked s) (memory s) (heap s))
    else Some (ERROR_INVALID, s).
Proof.
  intros Hl Hg. unfold segment_resize, can_resize. set (s1 := with_locked ({[p]} ∪ locked s) s).
  pose proof (get_seg_run s1 p Hg) as Hrun. change (seg_of s1 p) with (seg_of s p) in Hrun.
  destruct (start mod PAGE_SIZE =? 0) eqn:E1, (last mod PAGE_SIZE =? 0) eqn:E2, (last <=? start) eqn:E3,
    (seg_start (seg_of s p) <=? start) eqn:E4, (last <=? seg_end (seg_of s p)) eqn:E5; cbn [andb negb].
  all: first
    [ rewrite (locking_run p _ s ERROR_INVALID s1 Hl); [by destruct s| |done]; rewrite (bind_run _ _ _ _ _ Hrun); cbn [negb orb];
      rewrite ?E4, ?E5; done
    | erewrite (locking_run p _ s ERROR_SUCCESS); [|done|rewrite (bind_run _ _ _ _ _ Hrun); cbn [negb orb]; rewrite E4, E5; cbn [andb negb]; reflexivity|done];
      done ].
Qed.

Lemma rounded_aligned a : PAGE_ROUNDUP a mod PAGE_SIZE = 0.
Proof.
  unfold PAGE_ROUNDUP. rewrite PAGE_SIZE_pow, land_bnot_low by (apply wrap64_range || lia). rewrite Z.mul_comm. by apply Z.mod_mul.
Qed.

Lemma aligned_down a : 0 <= a < 2 ^ 64 → a mod PAGE_SIZE = 0 → PAGE_ROUNDDOWN a = a.
Proof.
  intros Ha Hm. unfold PAGE_ROUNDDOWN. rewrite PAGE_SIZE_pow in *. rewrite land_bnot_low by lia.
  pose proof (Z.div_mod a (2 ^ 21) ltac:(lia)). lia.
Qed.

Lemma aligned_up a : 0 <= a <= USER_TOP → a mod PAGE_SIZE = 0 → PAGE_ROUNDUP a = a.
Proof.
  intros Ha Hm. assert (USER_TOP = 2 ^ 47 - 1) as EU by done. unfold PAGE_ROUNDUP. rewrite PAGE_SIZE_pow in *.
  rewrite wrap64_small by (unfold is_u64; lia). rewrite land_bnot_low by lia. apply Z.mod_divide in Hm as (k & ->); [|done].
  rewrite Z.div_add_l, (Z.div_small (2 ^ 21 - 1)) by lia. lia.
Qed.

(** Neighbours in the sorted list. *)
Lemma sorted_before a x ys p zs s q :
  space_inv a x (ys ++ p :: zs) s → q ∈ ys → seg_end (seg_of s q) <= seg_start (seg_of s p).
Proof.
  intros HI Hq. pose proof (si_sorted _ _ _ _ HI) as Hs. clear HI. induction ys as [|y ys IH]; [by apply not_elem_of_nil in Hq|].
  apply StronglySorted_inv in Hs as (Hs & Hall). apply elem_of_cons in Hq as [->|Hq]; [|by apply IH].
  rewrite Forall_forall in Hall. apply Hall. set_solver.
Qed.

(** A segment [p] is cut in two around a range: the part below it becomes the
    new segment [q]; the lowest segment cannot be cut. *)
Lemma split_segment `{!Inj (=) (=) link} a x ys p zs s q rest start last :
  let g := seg_of s p in
  space_inv a x (ys ++ p :: zs) s → p ∉ locked s → heap s = q :: rest →
  seg_start g < start → start < last → last < seg_end g → last mod PAGE_SIZE = 0 → seg_end g mod PAGE_SIZE = 0 →
  ∃ s2, segment_resize p last (seg_end g) (with_new q rest (Seg (seg_start g) start (seg_flags g)) s) = Some (ERROR_SUCCESS, s2) ∧
    seg_of s2 p = Seg last (seg_end g) (seg_flags g) ∧ seg_of s2 q = Seg (seg_start g) start (seg_flags g) ∧
    (∀ r, r ∈ ys ++ zs → seg_of s2 r = seg_of s r) ∧ memory s2 = memory s ∧ locked s2 = locked s ∧ heap s2 = rest ∧
    if decide (ys = []) then insert_vma_locked link a q s2 = None
    else ∃ l M, insert_vma_locked link a q s2 = Some (tt, with_space a (set_segments l x) (with_list M s2)) ∧
      space_inv a (set_segments l x) (ys ++ q :: p :: zs) (with_space a (set_segments l x) (with_list M s2)).
Proof.
  intros g HI Hl Hh H1 H2 H3 Hal Hend. set (gq := Seg (seg_start g) start (seg_flags g)).
  destruct (new_segment_inv a x _ s q rest gq HI Hh) as (HI1 & Hn & Hc & Hsg & Hq & Hqts). set (s1 := with_new q rest gq s) in *.
  assert (p ∈ ys ++ p :: zs) as Hp by set_solver. assert (q ≠ p) as Hqp by (by intros ->).
  assert (seg_of s1 p = g) as Eg by by apply Hsg.
  destruct (shrink_inv a x ys p zs s1 (Seg last (seg_end g) (seg_flags g)) HI1) as (HI2 & Hp2 & Hr2); rewrite ?Eg; cbn [seg_start seg_end]; [lia..|].
  set (s2 := MM _ _ _ _ _ _) in HI2, Hp2, Hr2. exists s2.
  assert (seg_of s2 q = gq) as Hq2 by by rewrite Hr2.
  assert (∀ r, r ∈ ys ++ zs → seg_of s2 r = seg_of s r) as Hr.
  { intros r Hr. rewrite Hr2, Hsg; [done|set_solver|]. intros ->. destruct (si_list _ _ _ _ HI) as [[Hnd _] _ _ _].
    apply NoDup_cons in Hnd as (_ & Hnd). rewrite fmap_app, fmap_cons in Hnd. apply NoDup_app in Hnd as (_ & Hd1 & (Hd2 & _)%NoDup_cons).
    apply elem_of_app in Hr as [Hr|Hr]; [|by apply Hd2, list_elem_of_fmap_2].
    apply (Hd1 (link p)); [by apply list_elem_of_fmap_2|by left]. }
  split; [|do 6 (split; [done|])].
  { rewrite (segment_resize_run p last (seg_end g) s1 Hl (si_segs _ _ _ _ HI1 p Hp)), Eg. unfold can_resize.
    rewrite Hal, Hend, (proj2 (Z.leb_gt (seg_end g) last)), (proj2 (Z.leb_le (seg_start g) last)), Z.leb_refl by lia. done. }
  pose proof (insert_vma_cases a x ys (p :: zs) s2 q HI2 Hn Hc) as Hins. rewrite Hq2 in Hins. cbn [seg_start seg_end gq] in Hins.
  assert (∀ y, y ∈ ys → seg_end (seg_of s2 y) <= seg_start g) as Hys.
  { intros y Hy. rewrite Hr by set_solver. by apply (sorted_before a x ys p zs). }
  assert (is_Some (segs s2 !! q)) as Hsq.
  { cbn [segs s2]. apply lookup_insert_is_Some'. right. eexists. apply lookup_insert_eq. }
  assert (position ys (p :: zs) s2 q) as Hpos.
  { unfold position. rewrite Hq2. split; [|intros r [= <-]; rewrite Hp2; cbn; lia]. apply Forall_forall. intros y Hy. specialize (Hys y Hy).
    pose proof (si_bounds _ _ _ _ HI2 y ltac:(set_solver)). cbn [seg_start gq]. lia. }
  specialize (Hins Hsq H1 Hpos). destruct (decide (ys = [])) as [->|Hne].
  - rewrite decide_False in Hins; [done|]. intros (E & _). by specialize (E eq_refl).
  - rewrite decide_True in Hins; [done|]. split; [done|]. rewrite Hq2. cbn [head seg_start seg_end gq]. rewrite Hp2.
    split; [|cbn; lia]. destruct (list.last ys) as [y|] eqn:Ey; [|done]. apply Hys. apply last_Some in Ey as (l & ->). set_solver.
Qed.

(** Pushing a segment to the free list takes its link out of the list of
    segments: the loop goes on to the head of the free list, which is no
    segment. *)
Lemma collect_fails {B} a x ts s p last fl (k : nat → intrusive_list → ST (mm A) B) :
  space_inv a x ts s → p ∈ ts → links (list_mem s) !! fl = None → seg_start (seg_of s p) < last →
  (freelist ← on_list (intrusive_list_new true fl);
   fuel ← list_fuel;
   freelist ← collect link fuel (head_ (segments x)) (link p) last freelist;
   k fuel freelist) s = None.
Proof.
  intros HI Hp Hfl Hlt. destruct (si_list _ _ _ _ HI) as [Hr Hn _ _]. rewrite Forall_forall in Hn. destruct (Hn p Hp) as (Hpp & Hp0).
  assert (link p ∈ head_ (segments x) :: (link <$> ts)) as Hin by (right; by apply list_elem_of_fmap_2).
  assert (∀ q, q ∈ head_ (segments x) :: (link <$> ts) → q ≠ fl) as Hne.
  { intros q Hq ->. apply (is_ring_cells _ _ _ _ Hr) in Hq. by apply no_cell in Hfl. }
  destruct (intrusive_list_new_ok true link (links (list_mem s)) ∅ (deleted (list_mem s)) fl Hfl links_free_none (avail_none _))
    as (m1 & l1 & H1 & Hl1 & Hr1 & Hout). set (s1 := with_list (Lmem m1 ∅ (deleted (list_mem s))) s).
  erewrite bind_run by (apply list_run; rewrite (list_mem_eta _ _ _ _ HI); exact H1). fold s1.
  rewrite (bind_run _ _ s1 (S (base.size m1)) s1) by done.
  assert (is_ring m1 fl []) as Hr1' by (rewrite <- Hl1; apply (repr_ring _ _ _ _ Hr1)). apply ring_length in Hr1' as Hsz.
  destruct (base.size m1) as [|n]; [simpl in Hsz; lia|].
  assert (node link m1 p) as Hn1. { split; [|done]. unfold parent_of. rewrite Hout by by apply Hne. done. }
  destruct (push_back_ok true link m1 ∅ (deleted (list_mem s)) l1 [] p Hr1 Hn1) as (m2 & l2 & H2 & Hl2 & Hr2 & _);
    [unfold cells; rewrite Hl1; intros Hq%list_elem_of_singleton; by apply (Hne (link p))|apply links_free_none|apply avail_none|].
  set (s2 := with_list (Lmem m2 ∅ (deleted (list_mem s))) s).
  unfold mbind at 1, ST_bind at 1. cbn [collect]. rewrite decide_False; [|intros E; destruct Hr as [Hnd _]; apply NoDup_cons in Hnd as (Hnd & _);
    apply Hnd; rewrite <- E; by apply list_elem_of_fmap_2].
  rewrite (bind_run _ _ _ _ _ (list_read (load_parent (link p)) s1 p (load_parent_at (list_mem s1) _ _ (proj1 Hn1)))).
  rewrite (bind_run _ _ _ _ _ (get_seg_run s1 p (si_segs _ _ _ _ HI p Hp))). change (seg_of s1 p) with (seg_of s p).
  rewrite (proj2 (Z.leb_gt _ _) Hlt), (bind_run _ _ _ _ _ (list_run _ s1 _ _ H2)). change (with_list _ s1) with s2.
  assert (nx (links (list_mem s2)) (link p) = Some fl) as Hnx.
  { rewrite <- Hl1, <- Hl2. exact (ring_next_of m2 _ [link p] [] (repr_ring _ _ _ _ Hr2)). }
  rewrite (bind_run _ _ _ _ _ (list_read _ s2 _ (load_next_at (list_mem s2) _ _ Hnx))).
  rewrite decide_False by (intros E; apply (Hne fl); [rewrite E; by left|done]).
  assert (parent_of (links (list_mem s2)) fl = Some null) as Hnull by (rewrite <- Hl1, <- Hl2; apply (repr_head _ _ _ _ Hr2)).
  rewrite (bind_run _ _ _ _ _ (list_read _ s2 _ (load_parent_at (list_mem s2) _ _ Hnull))).
  unfold mbind at 1, ST_bind at 1, get_seg. cbn [segs s2 with_list]. by rewrite (si_nullseg _ _ _ _ HI).
Qed.

End inv.
