(* ===== verification/AddressSpaceOps.v ===== *)
(** * What [map], [unmap], [resize] and page faults do to an address space *)

From Stdlib Require Import Sorted.
From S2P Require Import Prelude Types Links Buddy Pmm PodList IntrusiveList Paging PageTables PageOps PagingTheorems PageRefs PageRefInv.
From S2P Require Import PageRefTheorems Fpage AddressSpace AddressSpaceInv.

Section theorems.
Context {A : Type} (page_count : Z) `{!FrameProvider page_count A}.
Context (link : loc → loc) `{!Inj (=) (=) link}.
Implicit Types (s : mm A) (x : aspace) (ts : list loc).

Abbreviation inv := (space_inv link).

(** ** Mapping *)

(** What [map] does to a space with the segments [ts]: the possible results, the
    last of them a panic. *)
Inductive map_outcome (a : loc) x ts s (start last flags : Z) : option ((error_code_values + loc) * mm A) → Prop :=
  | map_invalid : VALID_USER_REGION start last = false → map_outcome a x ts s start last flags (Some (inl ERROR_INVALID, s))
  | map_exists p x' : VALID_USER_REGION start last = true → p ∈ ts → contains (seg_of s p) start = true →
      recached x x' → inv a x' ts (with_space a x' s) →
      map_outcome a x ts s start last flags (Some (inl ERROR_ALREADY_EXIST, with_space a x' s))
  | map_no_memory : VALID_USER_REGION start last = true → (∀ p, p ∈ ts → contains (seg_of s p) start = false) → heap s = [] →
      map_outcome a x ts s start last flags (Some (inl ERROR_MEMORY_ALLOC, s))
  | map_added ys zs p rest x' s' : VALID_USER_REGION start last = true → (∀ q, q ∈ ts → contains (seg_of s q) start = false) →
      ts = ys ++ zs → heap s = p :: rest → (ys = [] → zs = []) →
      inv a x' (ys ++ p :: zs) s' → seg_of s' p = Seg start last (Z.land flags (bnot64 VM_SHARE)) →
      (∀ q, q ∈ ts → seg_of s' q = seg_of s q) → pgdir_ x' = pgdir_ x → memory s' = memory s → heap s' = rest → locked s' = locked s →
      map_outcome a x ts s start last flags (Some (inr p, s'))
  | map_panics q : VALID_USER_REGION start last = true → (∀ q, q ∈ ts → contains (seg_of s q) start = false) → heap s ≠ [] →
      q ∈ ts → (head ts = Some q ∧ start < seg_start (seg_of s q) ∨ start < seg_start (seg_of s q) < last) →
      map_outcome a x ts s start last flags None.

Lemma find_null a x ts s addr : inv a x ts s → found s ts addr = null → ∀ p, p ∈ ts → contains (seg_of s p) addr = false.
Proof.
  intros HI Hf. destruct (found_spec ts s addr) as [(_ & ?)|(Hin & _)]; [done|]. rewrite Hf in Hin.
  destruct (si_list _ _ _ _ _ HI) as [_ Hn _ _]. rewrite Forall_forall in Hn. by destruct (Hn _ Hin) as (_ & []).
Qed.

Lemma valid_lt start last : VALID_USER_REGION start last = true → start < last.
Proof. unfold VALID_USER_REGION. intros (H & _)%andb_true_iff. by apply Z.ltb_lt. Qed.

Lemma contains_start g addr : contains g addr = true → seg_start g <= addr.
Proof. unfold contains. intros (H & _)%andb_true_iff. by apply Z.leb_le. Qed.

(** The new segment, when there is memory for it. *)
Lemma map_new a x ys zs p rest s start last flags :
  inv a x (ys ++ zs) s → locked s = ∅ → VALID_USER_REGION start last = true → found s (ys ++ zs) start = null →
  (∀ q, q ∈ ys ++ zs → contains (seg_of s q) start = false) → heap s = p :: rest →
  Forall (λ q, seg_start (seg_of s q) <= start) ys → (∀ q, head zs = Some q → start < seg_start (seg_of s q)) →
  map_outcome a x (ys ++ zs) s start last flags (locking a (
    exist ← (if null =? null then mret false else g ← get_seg null; mret (seg_start g <? last));
    if (exist : bool) then mret (inl ERROR_ALREADY_EXIST) else
    vma ← new_segment link start last (Z.land flags (bnot64 VM_SHARE));
    if vma =? null then mret (inl ERROR_MEMORY_ALLOC) else
    insert_vma_locked link a vma;;
    mret (inr vma)) s).
Proof.
  intros HI Hl Hv Hnull Hno Hh Hys Hzs. pose proof (valid_lt start last Hv) as Hlt. set (fl := Z.land flags (bnot64 VM_SHARE)).
  assert (a ∉ locked s) as Ha by (rewrite Hl; apply not_elem_of_empty). set (s1 := with_locked ({[a]} ∪ locked s) s).
  pose proof (space_inv_locked link a x _ ({[a]} ∪ locked s) s HI) as HIs1. fold s1 in HIs1.
  pose proof (create_segment link a x ys zs s1 p rest start last fl HIs1 Hnull Hh Hlt Hys Hzs) as Hcr. cbv zeta in Hcr.
  pose proof (new_segment_run link p rest start last fl s1 Hh Hlt) as Hnew. set (s2 := with_new link p rest (Seg start last fl) s1) in *.
  assert (p ≠ null) as Hp0. { apply (proj2 (si_heap _ _ _ _ _ HI)). rewrite Hh. by left. }
  destruct (new_segment_inv link a x _ s1 p rest (Seg start last fl) HIs1 Hh) as (_ & _ & _ & Hsg & Hp & _). fold s2 in Hsg, Hp.
  case_decide as Hroom.
  - destruct Hcr as (l & M & Hi & HI3). set (s3 := with_space a (set_segments l x) (with_list M s2)) in *.
    rewrite (locking_run link a _ s (inr p) s3 Ha); [| |done].
    + apply (map_added a x _ s start last flags ys zs p rest (set_segments l x)); try done; [apply Hroom|by apply space_inv_locked].
    + fold s1. rewrite (bind_run _ _ s1 false s1), (bind_run _ _ _ _ _ Hnew), (proj2 (Z.eqb_neq p null) Hp0) by done.
      by rewrite (bind_run _ _ _ _ _ Hi).
  - rewrite (locking_none a _ s Ha).
    2:{ fold s1. rewrite (bind_run _ _ s1 false s1), (bind_run _ _ _ _ _ Hnew), (proj2 (Z.eqb_neq p null) Hp0) by done.
        unfold mbind, ST_bind. by rewrite Hcr. }
    destruct zs as [|q zs]; [exfalso; by apply Hroom|]. pose proof (Hzs q eq_refl) as Hq.
    apply (map_panics a x _ s start last flags q); try done; [by rewrite Hh|set_solver|].
    destruct ys as [|y ys]; [by left|right]. destruct (Z.lt_ge_cases (seg_start (seg_of s q)) last); [done|]. exfalso. by apply Hroom.
Qed.

(** [map] in every case: an invalid range and a range that starts in a
    segment are refused, an exhausted heap is reported, and otherwise the new
    segment gets its place in the sorted list of disjoint segments - except
    when it starts below the first segment or reaches into the next one: then
    the kernel dereferences a null pointer or fails an assertion. *)
Lemma map_result a x ts s addr len flags :
  inv a x ts s → locked s = ∅ →
  map_outcome a x ts s (rounddown addr PAGE_SIZE) (Z.min (roundup (addr +w len) PAGE_SIZE) USER_TOP) flags (map link a addr len flags s).
Proof.
  intros HI Hl. unfold map. set (start := rounddown addr PAGE_SIZE). set (last := Z.min _ USER_TOP). set (fl := Z.land flags (bnot64 VM_SHARE)).
  destruct (VALID_USER_REGION start last) eqn:Hv; cbn [negb]; [|by constructor]. pose proof (valid_lt start last Hv) as Hlt.
  assert (a ∉ locked s) as Ha by (rewrite Hl; apply not_elem_of_empty).
  match goal with |- context [find_vma_locked a start ≫= ?k] =>
    destruct (locked_find link a x ts s start k HI Ha) as [(Hnull & Hno & ->)|(p & x1 & Hin & Hp0 & Hc & Hrc & HI1 & ->)] end.
  - destruct (heap s) as [|p rest] eqn:Hh.
    + rewrite (locking_run link a _ s (inl ERROR_MEMORY_ALLOC) (with_locked ({[a]} ∪ locked s) s) Ha); [| |done].
      * replace (with_locked _ _) with s by (by destruct s). by apply map_no_memory.
      * set (s1 := with_locked _ _). rewrite (bind_run _ _ s1 false s1) by done. by rewrite (bind_run _ _ _ _ _ (new_segment_null link _ _ _ s1 Hh)).
    + destruct (split_position link a x ts s start HI) as (ys & zs & -> & Hys & Hzs). by apply (map_new a x ys zs p rest).
  - rewrite (locking_run link a _ (with_space a x1 s) (inl ERROR_ALREADY_EXIST) (with_locked ({[a]} ∪ locked s) (with_space a x1 s)) Ha); [| |done].
    + by apply (map_exists a x ts s start last flags p x1).
    + rewrite (proj2 (Z.eqb_neq p null) Hp0). set (s1 := with_locked _ _).
      assert (get_seg p s1 = Some (seg_of s p, s1)) as Hg by by apply (get_seg_run s1), (si_segs _ _ _ _ _ HI).
      rewrite (bind_run _ _ s1 true s1); [done|]. rewrite (bind_run _ _ _ _ _ Hg). apply contains_start in Hc.
      by rewrite (proj2 (Z.ltb_lt _ _)) by lia.
Qed.

(** ** Unmapping *)

(** The range lies strictly inside the segment. *)
Definition inside (g : segment) (start last : Z) : Prop := seg_start g < start ∧ last < seg_end g.

(** What stays: the locks and the tables; the heap only shrinks. *)
Definition tracked x x' s s' : Prop := locked s' = locked s ∧ pgdir_ x' = pgdir_ x ∧ ∀ p, p ∈ heap s' → p ∈ heap s.

Inductive unmap_outcome (a : loc) x ts s (start last : Z) : option (error_code_values * mm A) → Prop :=
  | unmap_invalid : VALID_USER_REGION start last = false → unmap_outcome a x ts s start last (Some (ERROR_INVALID, s))
  | unmap_nothing : (∀ p, p ∈ ts → contains (seg_of s p) start = false) → unmap_outcome a x ts s start last (Some (ERROR_SUCCESS, s))
  | unmap_refused p x' s' code : p ∈ ts → inside (seg_of s p) start last → inv a x' ts s' → memory s' = memory s →
      tracked x x' s s' →
      (code = ERROR_MEMORY_ALLOC ∧ heap s = [] ∨ code = ERROR_INVALID ∧ seg_end (seg_of s p) mod PAGE_SIZE ≠ 0) →
      unmap_outcome a x ts s start last (Some (code, s'))
  | unmap_splits ys p zs q rest x' s' : ts = ys ++ p :: zs → ys ≠ [] → inside (seg_of s p) start last → heap s = q :: rest →
      inv a x' (ys ++ q :: p :: zs) s' → tracked x x' s s' →
      seg_of s' q = Seg (seg_start (seg_of s p)) start (seg_flags (seg_of s p)) →
      seg_of s' p = Seg last (seg_end (seg_of s p)) (seg_flags (seg_of s p)) →
      (∀ r, r ∈ ys ++ zs → seg_of s' r = seg_of s r) →
      on_tables (unmap_range (pgdir_ x) start last) (memory s) = Some (tt, memory s') →
      unmap_outcome a x ts s start last (Some (ERROR_SUCCESS, s'))
  | unmap_panics p : p ∈ ts → contains (seg_of s p) start = true →
      (¬ inside (seg_of s p) start last ∨ head ts = Some p ∨ on_tables (unmap_range (pgdir_ x) start last) (memory s) = None) →
      unmap_outcome a x ts s start last None.

Lemma on_memory_run {B} (c : ST (pm A) B) s v m :
  c (memory s) = Some (v, m) → on_memory c s = Some (v, MM (list_mem s) (segs s) (spaces s) (locked s) m (heap s)).
Proof. unfold on_memory. by intros ->. Qed.

(** The body of [unmap] when the range starts in the segment [p] and lies inside. *)
Definition unmap_inside (a p start last : Z) (g : segment) : ST (mm A) error_code_values :=
  new_vma ← new_segment link (seg_start g) start (seg_flags g);
  if new_vma =? null then mret ERROR_MEMORY_ALLOC else
  ret ← segment_resize p last (seg_end g);
  if negb (bool_decide (ret = ERROR_SUCCESS)) then mret ret else
  insert_vma_locked link a new_vma;;
  x ← get_space a;
  on_memory (on_tables (unmap_range (pgdir_ x) start last));;
  mret ERROR_SUCCESS.

Lemma unmap_inside_ok a x ys p zs s start last :
  inv a x (ys ++ p :: zs) s → p ∉ locked s → inside (seg_of s p) start last → start < last → last mod PAGE_SIZE = 0 →
  (∃ code s', unmap_inside a p start last (seg_of s p) s = Some (code, s') ∧ inv a x (ys ++ p :: zs) s' ∧ memory s' = memory s ∧
     tracked x x s s' ∧
     (code = ERROR_MEMORY_ALLOC ∧ heap s = [] ∨ code = ERROR_INVALID ∧ seg_end (seg_of s p) mod PAGE_SIZE ≠ 0)) ∨
  (unmap_inside a p start last (seg_of s p) s = None ∧
     (ys = [] ∨ on_tables (unmap_range (pgdir_ x) start last) (memory s) = None)) ∨
  (∃ q rest x' s', unmap_inside a p start last (seg_of s p) s = Some (ERROR_SUCCESS, s') ∧ ys ≠ [] ∧ heap s = q :: rest ∧
     inv a x' (ys ++ q :: p :: zs) s' ∧ seg_of s' q = Seg (seg_start (seg_of s p)) start (seg_flags (seg_of s p)) ∧
     seg_of s' p = Seg last (seg_end (seg_of s p)) (seg_flags (seg_of s p)) ∧
     (∀ r, r ∈ ys ++ zs → seg_of s' r = seg_of s r) ∧ tracked x x' s s' ∧
     on_tables (unmap_range (pgdir_ x) start last) (memory s) = Some (tt, memory s')).
Proof.
  intros HI Hl (H1 & H2) Hlt Hal. set (g := seg_of s p) in *. unfold unmap_inside.
  destruct (heap s) as [|q rest] eqn:Hh.
  { left. exists ERROR_MEMORY_ALLOC, s. split; [by rewrite (bind_run _ _ _ _ _ (new_segment_null link _ _ _ s Hh))|]. do 3 (split; [done|]). by left. }
  rewrite (bind_run _ _ _ _ _ (new_segment_run link q rest (seg_start g) start (seg_flags g) s Hh H1)).
  assert (q ≠ null) as Hq0. { apply (proj2 (si_heap _ _ _ _ _ HI)). rewrite Hh. by left. }
  rewrite (proj2 (Z.eqb_neq q null) Hq0). destruct (decide (seg_end g mod PAGE_SIZE = 0)) as [Hend|Hend].
  2:{ left. destruct (new_segment_inv link a x _ s q rest (Seg (seg_start g) start (seg_flags g)) HI Hh) as (HI1 & _ & _ & Hsg & _).
      set (s1 := with_new link q rest _ s) in *. exists ERROR_INVALID, s1. assert (p ∈ ys ++ p :: zs) as Hp by set_solver.
      rewrite (bind_run _ _ s1 ERROR_INVALID s1).
      { do 3 (split; [done|]). split; [|by right]. do 2 (split; [done|]). intros r Hr. rewrite Hh. by right. }
      rewrite (segment_resize_run link p last (seg_end g) s1 Hl (si_segs _ _ _ _ _ HI1 p Hp)). unfold can_resize.
      by rewrite (proj2 (Z.eqb_neq (seg_end g mod PAGE_SIZE) 0) Hend), andb_false_r. }
  destruct (split_segment link a x ys p zs s q rest start last HI Hl Hh H1 Hlt H2 Hal Hend) as (s2 & Hrs & Hp2 & Hq2 & Hr2 & Hm2 & Hl2 & Hh2 & Hins).
  rewrite (bind_run _ _ _ _ _ Hrs). cbn [negb]. rewrite bool_decide_true by done. cbn [negb]. right. case_decide as Hys.
  { left. split; [|by left]. unfold mbind, ST_bind. by rewrite Hins. }
  destruct Hins as (l & M & Hi & HI3). set (s3 := with_space a (set_segments l x) (with_list M s2)) in *. rewrite (bind_run _ _ _ _ _ Hi).
  rewrite (bind_run _ _ s3 (set_segments l x) s3) by (unfold get_space; by rewrite (si_space _ _ _ _ _ HI3)). cbn [pgdir_ set_segments].
  destruct (on_tables (unmap_range (pgdir_ x) start last) (memory s)) as [[[] m]|] eqn:Hum.
  - right. exists q, rest, (set_segments l x), (MM (list_mem s3) (segs s3) (spaces s3) (locked s3) m (heap s3)). split.
    { by rewrite (bind_run _ _ _ _ _ (on_memory_run _ s3 tt m ltac:(change (memory s3) with (memory s2); by rewrite Hm2))). }
    split; [done|]. split; [done|]. split; [destruct HI3; by split|]. do 3 (split; [done|]). split; [|done].
    split; [done|]. split; [done|]. intros r Hr. change (r ∈ heap s2) in Hr. rewrite Hh2 in Hr. rewrite Hh. by right.
  - left. split; [|by right]. unfold mbind at 1, ST_bind at 1, on_memory at 1. change (memory s3) with (memory s2). by rewrite Hm2, Hum.
Qed.

(** The rest of [unmap] when the range starts in the segment [p]; [c] is the cache. *)
Lemma unmap_found a x c ts s fl p start last :
  let s1 := with_space a (set_cache c x) s in
  inv a (set_cache c x) ts s1 → locked s = ∅ → a ∉ ts → links (list_mem s) !! fl = None → p ∈ ts →
  contains (seg_of s p) start = true → start < last → last mod PAGE_SIZE = 0 →
  unmap_outcome a x ts s start last (locking a (
    g ← get_seg p;
    if last <? seg_start g then mret ERROR_SUCCESS else
    if (seg_start g <? start) && (last <? seg_end g) then unmap_inside a p start last g
    else
      x ← get_space a;
      freelist ← on_list (intrusive_list_new true fl);
      fuel ← list_fuel;
      freelist ← collect link fuel (head_ (segments x)) (link p) last freelist;
      first ← on_list (begin_ freelist);
      release_loop page_count link fuel a (head_ freelist) first start last;;
      mret ERROR_SUCCESS) s1).
Proof.
  intros s1 HI Hl Hats Hfl Hin Hc Hlt Hal. apply contains_start in Hc as Hps.
  assert (a ∉ locked s1) as Ha by (cbn; rewrite Hl; apply not_elem_of_empty). set (s2 := with_locked ({[a]} ∪ locked s1) s1).
  pose proof (space_inv_locked link a _ ts ({[a]} ∪ locked s1) s1 HI) as HI2. fold s2 in HI2.
  assert (get_seg p s2 = Some (seg_of s p, s2)) as Hg by by apply (get_seg_run s2), (si_segs _ _ _ _ _ HI).
  match goal with |- unmap_outcome _ _ _ _ _ _ (locking a ?c s1) => assert (c s2 =
    if decide (inside (seg_of s p) start last) then unmap_inside a p start last (seg_of s p) s2 else None) as Hrun end.
  { rewrite (bind_run _ _ _ _ _ Hg), (proj2 (Z.ltb_ge last _)) by lia. unfold inside.
    destruct (Z.ltb_spec (seg_start (seg_of s p)) start), (Z.ltb_spec last (seg_end (seg_of s p))); cbn [andb];
      [by rewrite decide_True by lia|rewrite decide_False by lia..].
    all: rewrite (bind_run _ _ s2 (set_cache c x) s2) by (unfold get_space; by rewrite (si_space _ _ _ _ _ HI2)).
    all: by apply (collect_fails link a (set_cache c x) ts s2 p last fl); [..|change (seg_of s2) with (seg_of s); lia]. }
  destruct (decide (inside (seg_of s p) start last)) as [Hi|Hi].
  2:{ rewrite (locking_none a _ s1 Ha Hrun). apply (unmap_panics a x ts s start last p Hin Hc). by left. }
  destruct (list_elem_of_split ts p Hin) as (ys & zs & ->).
  assert (p ∉ locked s2) as Hpl. { cbn. rewrite Hl. intros [E1%elem_of_singleton|[]%not_elem_of_empty]%elem_of_union. apply Hats. by rewrite <- E1. }
  destruct (unmap_inside_ok a (set_cache c x) ys p zs s2 start last HI2 Hpl Hi Hlt Hal)
    as [(code & s' & H & HI' & Hm & (Hl' & Ht) & Hcode)|[(H & Hwhy)|(q & rest & x' & s' & H & Hys & Hh & HI' & Hq & Hp & Hr & (Hl' & Ht) & Hum)]].
  - rewrite (locking_run link a _ s1 code s' Ha); [|exact (eq_trans Hrun H)|done].
    apply (unmap_refused a x _ s start last p (set_cache c x)); try done. by apply space_inv_locked.
  - rewrite (locking_none a _ s1 Ha); [|exact (eq_trans Hrun H)]. apply (unmap_panics a x _ s start last p Hin Hc). right.
    destruct Hwhy as [->|?]; [by left|by right].
  - rewrite (locking_run link a _ s1 ERROR_SUCCESS s' Ha); [|exact (eq_trans Hrun H)|done].
    apply (unmap_splits a x _ s start last ys p zs q rest x'); try done. by apply space_inv_locked.
Qed.

(** [unmap] in every case.  A range that starts in no segment is left alone,
    even if it reaches into one.  A range strictly inside a segment that is not
    the lowest splits it in two, and the pages are unmapped; the two errors it
    can return leave the segments as they are.  Any other range that starts in
    a segment, up to unmapping the segment itself, makes the kernel follow the
    links of the free list and dereference a null pointer. *)
Lemma unmap_result a x ts s fl addr len :
  inv a x ts s → locked s = ∅ → a ∉ ts → links (list_mem s) !! fl = None →
  unmap_outcome a x ts s (PAGE_ROUNDDOWN addr) (PAGE_ROUNDUP (addr +w len)) (unmap page_count link fl a addr len s).
Proof.
  intros HI Hl Hats Hfl. unfold unmap. set (start := PAGE_ROUNDDOWN addr). set (last := PAGE_ROUNDUP (addr +w len)).
  destruct (VALID_USER_REGION start last) eqn:Hv; cbn [negb]; [|by constructor]. pose proof (valid_lt start last Hv) as Hlt.
  assert (a ∉ locked s) as Ha by (rewrite Hl; apply not_elem_of_empty).
  match goal with |- context [find_vma_locked a start ≫= ?k] =>
    destruct (locked_find link a x ts s start k HI Ha) as [(Hnull & Hno & ->)|(p & x1 & Hin & Hp0 & Hc & (c & ->) & HI1 & ->)] end.
  { rewrite (locking_run link a _ s ERROR_SUCCESS (with_locked ({[a]} ∪ locked s) s) Ha) by done.
    replace (with_locked _ _) with s by (by destruct s). by apply unmap_nothing. }
  rewrite (proj2 (Z.eqb_neq p null) Hp0). apply (unmap_found a x c ts s fl p start last); try done. apply rounded_aligned.
Qed.

(** ** Lookups *)

Lemma find_vma_result a x ts s addr :
  inv a x ts s → locked s = ∅ →
  ∃ x', find_vma a addr s = Some (found s ts addr, with_space a x' s) ∧ inv a x' ts (with_space a x' s) ∧ recached x x'.
Proof.
  intros HI Hl. assert (a ∉ locked s) as Ha by (rewrite Hl; apply not_elem_of_empty).
  destruct (find_vma_locked_ok link a x ts _ addr (space_inv_locked link a x ts ({[a]} ∪ locked s) s HI)) as (x' & Hf & HI' & Hrc & _).
  exists x'. change (found (with_locked _ s) ts addr) with (found s ts addr) in Hf.
  unfold find_vma. rewrite (locking_run link a _ s _ _ Ha Hf eq_refl). split; [done|]. split; [|done]. exact (space_inv_locked link a x' ts (locked s) _ HI').
Qed.

Lemma intersect_vma_result a x ts s start last :
  inv a x ts s → locked s = ∅ →
  let p := found s ts start in
  ∃ x', intersect_vma a start last s = Some (if (p =? null) || (last <=? seg_start (seg_of s p)) then null else p, with_space a x' s) ∧
    inv a x' ts (with_space a x' s) ∧ recached x x'.
Proof.
  intros HI Hl p. assert (a ∉ locked s) as Ha by (rewrite Hl; apply not_elem_of_empty).
  destruct (find_vma_locked_ok link a x ts _ start (space_inv_locked link a x ts ({[a]} ∪ locked s) s HI)) as (x' & Hf & HI' & Hrc & _).
  exists x'. change (found (with_locked _ s) ts start) with p in Hf. split; [|split; [exact (space_inv_locked link a x' ts (locked s) _ HI')|done]].
  set (s1 := with_space a x' (with_locked _ s)) in *. unfold intersect_vma.
  rewrite (locking_run link a _ s (if (p =? null) || (last <=? seg_start (seg_of s p)) then null else p) s1 Ha); [done| |done].
  rewrite (bind_run _ _ _ _ _ Hf). destruct (p =? null) eqn:Hp; [done|]. apply Z.eqb_neq in Hp. cbn [orb].
  destruct (found_spec ts s start) as [(? & _)|(Hin & _)]; [done|]. fold p in Hin.
  by rewrite (bind_run _ _ _ _ _ (get_seg_run s1 p (si_segs _ _ _ _ _ HI p Hin))).
Qed.

Lemma locking_get_space a x ts s : inv a x ts s → locked s = ∅ → locking a (get_space a) s = Some (x, s).
Proof.
  intros HI Hl. assert (a ∉ locked s) as Ha by (rewrite Hl; apply not_elem_of_empty).
  rewrite (locking_run link a _ s x (with_locked ({[a]} ∪ locked s) s) Ha); [by destruct s| |done].
  unfold get_space. cbn [spaces with_locked]. by rewrite (si_space _ _ _ _ _ HI).
Qed.

(** ** Growing *)

Lemma rounddown_range a : 0 <= a < 2 ^ 64 → 0 <= PAGE_ROUNDDOWN a < 2 ^ 64 ∧ PAGE_ROUNDDOWN a mod PAGE_SIZE = 0.
Proof.
  intros Ha. unfold PAGE_ROUNDDOWN. rewrite PAGE_SIZE_pow, land_bnot_low by lia. split; [|rewrite Z.mul_comm; by apply Z.mod_mul].
  pose proof (Z.div_mod a (2 ^ 21) ltac:(lia)). pose proof (Z.mod_pos_bound a (2 ^ 21) ltac:(lia)). lia.
Qed.

(** [resize_locked] runs with [lock_] held, and [unmap] takes it again. *)
Lemma resize_result fl a addr len s :
  0 <= addr < 2 ^ 64 → a ∉ locked s →
  resize page_count link fl a addr len s =
    if VALID_USER_REGION (PAGE_ROUNDDOWN addr) (PAGE_ROUNDUP (addr +w len)) then None else Some (ERROR_INVALID, s).
Proof.
  intros Haddr Ha. unfold resize. set (s1 := with_locked ({[a]} ∪ locked s) s).
  destruct (VALID_USER_REGION _ _) eqn:Hv.
  - apply (locking_none a _ s Ha). fold s1. unfold resize_locked. rewrite Hv. cbn [negb].
    destruct (rounddown_range addr Haddr) as (Hr & Hm). pose proof (valid_lt _ _ Hv) as Hlt. pose proof (rounded_aligned (addr +w len)) as Hal.
    set (start := PAGE_ROUNDDOWN addr) in *. set (last := PAGE_ROUNDUP _) in *. pose proof Hv as (_ & Hle%Z.leb_le)%andb_true_iff.
    assert (USER_TOP = 2 ^ 47 - 1) as EU by done. unfold mbind, ST_bind. unfold unmap at 1.
    rewrite (wrap64_small (last - start)), Z.add_comm, Z.sub_add, (wrap64_small last), (aligned_down start), (aligned_up last), Hv by (unfold is_u64; lia).
    cbn [negb]. rewrite locking_held; [done|]. change (a ∈ {[a]} ∪ locked s). by apply elem_of_union_l, elem_of_singleton.
  - rewrite (locking_run link a _ s ERROR_INVALID s1 Ha); [by destruct s| |done]. unfold resize_locked. by rewrite Hv.
Qed.

End theorems.
