(* ===== verification/AddressSpaceTheorems.v ===== *)
(** * Theorems about address spaces, page faults and the heap of a process *)

From stdpp Require Import relations.
From S2P Require Import Prelude Types Links Buddy Pmm PodList IntrusiveList Paging PageTables PageOps PagingTheorems PageRefs PageRefInv.
From S2P Require Import PageRefTheorems Fpage AddressSpace AddressSpaceInv AddressSpaceOps.

Section theorems.
Context {A : Type} (pages_end page_count : Z) `{!FrameProvider page_count A}.
Context (link : loc → loc) `{!Inj (=) (=) link}.
Implicit Types (s : mm A) (x : aspace) (ts : list loc).

(** ** Mapping and unmapping *)

(** C27: [map] in every case: an invalid range and a range that starts in a
    segment are refused, an exhausted heap is reported, and otherwise the new
    segment gets its place in the sorted list of disjoint segments - except
    when it starts below the first segment or reaches into the next one: then
    the kernel dereferences a null pointer or fails an assertion. *)
Theorem map_cases a x ts s addr len flags :
  space_inv link a x ts s → locked s = ∅ →
  map_outcome link a x ts s (rounddown addr PAGE_SIZE) (Z.min (roundup (addr +w len) PAGE_SIZE) USER_TOP) flags (map link a addr len flags s).
Proof. by apply map_result. Qed.


(** ** Every sequence of operations keeps a space well formed *)

(** The calls on an address space, with the stack address of [unmap]'s list. *)
Inductive space_op :=
  | OMap (addr len flags : Z)
  | OUnmap (fl addr len : Z)
  | OFind (addr : Z)
  | OIntersect (start last : Z)
  | OResize (fl addr len : Z)
  | OHeap (fl heap_ptr heap : Z)
  | OFault (err addr : Z).

Definition run_space_op (a : loc) (o : space_op) s : option (mm A) :=
  match o with
  | OMap addr len flags => snd <$> map link a addr len flags s
  | OUnmap fl addr len => snd <$> unmap page_count link fl a addr len s
  | OFind addr => snd <$> find_vma a addr s
  | OIntersect start last => snd <$> intersect_vma a start last s
  | OResize fl addr len => snd <$> resize page_count link fl a addr len s
  | OHeap fl heap_ptr heap => snd <$> resize_heap page_count link fl a heap_ptr heap s
  | OFault err addr => snd <$> page_fault_impl pages_end page_count a err addr s
  end.

(** The list [unmap] builds on its stack is a new one. *)
Definition op_stack (o : space_op) : option loc :=
  match o with OUnmap fl _ _ | OResize fl _ _ | OHeap fl _ _ => Some fl | _ => None end.

Definition space_step (a : loc) s s' : Prop :=
  ∃ o, (∀ fl, op_stack o = Some fl → links (list_mem s) !! fl = None) ∧ run_space_op a o s = Some s'.

Definition space_wf (a : loc) s : Prop := ∃ x ts, space_inv link a x ts s ∧ locked s = ∅ ∧ (a ∉ ts) ∧ a ∉ heap s.

Lemma recached_wf a x x' ts s :
  space_inv link a x' ts (with_space a x' s) → locked s = ∅ → a ∉ ts → a ∉ heap s → space_wf a (with_space a x' s).
Proof. intros. by exists x', ts. Qed.

Lemma map_wf a s addr len flags r s' : space_wf a s → map link a addr len flags s = Some (r, s') → space_wf a s'.
Proof.
  intros (x & ts & HI & Hl & Hts & Hh) H. pose proof (map_result link a x ts s addr len flags HI Hl) as Ho. rewrite H in Ho. clear H.
  inversion Ho as [|p x' _ _ _ _ HI'| |ys zs p rest x' ? _ _ -> Hheap _ HI' _ _ _ _ Hr Hl'|]; subst.
  - by exists x, ts.
  - by exists x', ts.
  - by exists x, ts.
  - rewrite Hheap in Hh. exists x', (ys ++ p :: zs). split; [done|]. split; [congruence|]. set_solver.
Qed.

Lemma unmap_wf a s fl addr len r s' :
  space_wf a s → links (list_mem s) !! fl = None → unmap page_count link fl a addr len s = Some (r, s') → space_wf a s'.
Proof.
  intros (x & ts & HI & Hl & Hts & Hh) Hfl H. pose proof (unmap_result page_count link a x ts s fl addr len HI Hl Hts Hfl) as Ho.
  rewrite H in Ho. clear H.
  inversion Ho as [| |p x' ? ? _ _ HI' _ (Hl' & _ & Hs)|ys p zs q rest x' ? -> _ _ Hheap HI' (Hl' & _ & Hs)|]; subst.
  - by exists x, ts.
  - by exists x, ts.
  - exists x', ts. rewrite Hl'. split; [done|]. split; [done|]. split; [done|]. by intros ?%Hs.
  - exists x', (ys ++ q :: p :: zs). rewrite Hl'. split; [done|]. split; [done|]. split; [|by intros ?%Hs].
    rewrite Hheap in Hh. set_solver.
Qed.

Lemma find_wf a s addr r s' : space_wf a s → find_vma a addr s = Some (r, s') → space_wf a s'.
Proof.
  intros (x & ts & HI & Hl & Hts & Hh) H. destruct (find_vma_result link a x ts s addr HI Hl) as (x' & H' & HI' & _).
  rewrite H in H'. injection H' as -> ->. by exists x', ts.
Qed.

Lemma intersect_wf a s start last r s' :
  space_wf a s → intersect_vma a start last s = Some (r, s') → space_wf a s' ∧ list_mem s' = list_mem s.
Proof.
  intros (x & ts & HI & Hl & Hts & Hh) H. destruct (intersect_vma_result link a x ts s start last HI Hl) as (x' & H' & HI' & _).
  rewrite H in H'. injection H' as _ ->. split; [by exists x', ts|done].
Qed.

(** Growing a range either panics or is refused. *)
Lemma resize_same a s fl addr len r s' : space_wf a s → resize page_count link fl a addr len s = Some (r, s') → s' = s.
Proof.
  intros (x & ts & HI & Hl & Hts & Hh) H. assert (a ∉ locked s) as Ha by (rewrite Hl; apply not_elem_of_empty).
  unfold resize in H. set (s1 := with_locked ({[a]} ∪ locked s) s).
  destruct (resize_locked page_count link fl a addr len s1) as [[r1 s2]|] eqn:H1; [|by rewrite (locking_none a _ s Ha H1) in H].
  assert (s2 = s1) as ->.
  { unfold resize_locked in H1. destruct (VALID_USER_REGION _ _); cbn [negb] in H1; [|by injection H1].
    apply bind_inv in H1 as (r2 & s3 & H2 & H1). unfold unmap in H2. destruct (VALID_USER_REGION _ _); cbn [negb] in H2.
    - rewrite locking_held in H2; [done|]. change (a ∈ {[a]} ∪ locked s). by apply elem_of_union_l, elem_of_singleton.
    - injection H2 as <- <-. by injection H1. }
  rewrite (locking_run link a _ s r1 s1 Ha H1 eq_refl) in H. injection H as _ <-. by destruct s.
Qed.

Lemma memory_wf {B} a s (c : ST (pm A) B) r s' : space_wf a s → on_memory c s = Some (r, s') → space_wf a s'.
Proof.
  intros (x & ts & HI & Hl & Hts & Hh). unfold on_memory. destruct (c (memory s)) as [[v m]|]; [|done]. intros [= _ <-].
  exists x, ts. split; [destruct HI; by split|done].
Qed.

Lemma get_space_wf a s x s' : space_wf a s → locking a (get_space a) s = Some (x, s') → s' = s ∧ spaces s !! a = Some x.
Proof.
  intros (y & ts & HI & Hl & _) H. rewrite (locking_get_space link a y ts s HI Hl) in H. injection H as -> ->.
  split; [done|]. apply (si_space _ _ _ _ _ HI).
Qed.

Lemma fault_wf a s err addr r s' : space_wf a s → page_fault_impl pages_end page_count a err addr s = Some (r, s') → space_wf a s'.
Proof.
  intros Hw H. unfold page_fault_impl in H. apply bind_inv in H as (vma & s1 & H1 & H). apply find_wf in H1; [|done].
  destruct (vma =? null); [by injection H as _ <-|]. apply bind_inv in H as (g & s2 & H2 & H).
  assert (s2 = s1) as -> by (unfold get_seg in H2; destruct (segs s1 !! vma); [by injection H2|done]).
  destruct (addr <? seg_start g); [by injection H as _ <-|]. destruct (fault_error err (seg_flags g)); [by injection H as _ <-|].
  apply bind_inv in H as (x & s3 & H3 & H). apply get_space_wf in H3 as (-> & _); [|done].
  apply bind_inv in H as (pr & s4 & H4 & H). apply (memory_wf a) in H4; [|done]. by destruct pr; injection H as _ <-.
Qed.

Lemma heap_wf a s fl hp h r s' :
  space_wf a s → links (list_mem s) !! fl = None → resize_heap page_count link fl a hp h s = Some (r, s') → space_wf a s'.
Proof.
  intros Hw Hfl H. unfold resize_heap in H. destruct (VALID_USER_REGION _ _); cbn [negb] in H; [|by injection H as _ <-].
  apply bind_inv in H as (x & s1 & H1 & H). apply get_space_wf in H1 as (-> & _); [|done]. cbv zeta in H.
  destruct (h <? _); [by injection H as _ <-|]. destruct (negb _); [by injection H as _ <-|].
  destruct (_ =? _); [by injection H as _ <-|]. destruct (_ <? _).
  - apply bind_inv in H as (r1 & s1 & H1 & H). apply unmap_wf in H1; [|done..]. by injection H as _ <-.
  - apply bind_inv in H as (v & s1 & H1 & H). apply intersect_wf in H1 as (Hw1 & _); [|done].
    destruct (negb _); [by injection H as _ <-|]. apply bind_inv in H as (r1 & s2 & H2 & H). apply resize_same in H2 as ->; [|done].
    by injection H as _ <-.
Qed.

(** C13: Whatever sequence of calls an address space goes through - mapping,
    unmapping, looking up, growing, the heap call and page faults, with any
    arguments - its segments stay a well linked list, sorted and disjoint, its
    search cache points into it or is null, and its lock is free again after
    every call. *)
Theorem space_ops_wf a s s' : space_wf a s → rtc (space_step a) s s' → space_wf a s'.
Proof.
  intros Hw Hr. induction Hr as [s|s s1 s2 (o & Hfl & H) _ IH]; [done|]. apply IH. clear IH s2.
  destruct o; cbn [run_space_op op_stack] in *; apply fmap_Some in H as ([r s2] & H & ->); cbn [snd].
  - by eapply map_wf.
  - eapply unmap_wf; eauto.
  - by eapply find_wf.
  - by eapply intersect_wf.
  - by apply resize_same in H as ->.
  - eapply heap_wf; eauto.
  - by eapply fault_wf.
Qed.

(** ** The heap of a process *)

(** A process cannot grow its heap.  The call that asks for more than the
    present heap either finds a segment at its end and leaves everything as it
    is, or panics: [resize] holds the lock of the address space and calls
    [unmap], which takes it again. *)
Theorem heap_growth_fails a x ts s fl heap_ptr h :
  space_inv link a x ts s → locked s = ∅ → VALID_USER_REGION heap_ptr (heap_ptr +w 8) = true →
  uheap_begin_ x <= h → 0 <= uheap_ x → uheap_ x mod PAGE_SIZE = 0 → uheap_ x < PAGE_ROUNDUP h <= USER_TOP →
  (∀ p, p ∈ ts → contains (seg_of s p) (uheap_ x) = false) ∧ resize_heap page_count link fl a heap_ptr h s = None ∨
  ∃ p s', p ∈ ts ∧ contains (seg_of s p) (uheap_ x) = true ∧
    resize_heap page_count link fl a heap_ptr h s = Some ((ERROR_SUCCESS, Some (uheap_begin_ x)), s') ∧ segs s' = segs s ∧ memory s' = memory s.
Proof.
  intros HI Hl Hv Hb H0 Hal (Hlt & Hle). assert (USER_TOP = 2 ^ 47 - 1) as EU by done. assert (PAGE_SIZE = 2 ^ 21) as EP by done.
  unfold resize_heap. rewrite Hv. cbn [negb]. rewrite (bind_run _ _ _ _ _ (locking_get_space link a x ts s HI Hl)).
  rewrite (proj2 (Z.ltb_ge h _)), (proj2 (Z.eqb_eq _ _) Hal) by lia. cbn [negb].
  rewrite (proj2 (Z.eqb_neq _ _)), (proj2 (Z.ltb_ge (PAGE_ROUNDUP h) _)) by lia.
  rewrite (wrap64_small (PAGE_ROUNDUP h + _)), (wrap64_small (PAGE_ROUNDUP h - _)) by (unfold is_u64; lia).
  destruct (intersect_vma_result link a x ts s (uheap_ x) (PAGE_ROUNDUP h + PAGE_SIZE) HI Hl) as (x' & H & HI' & _).
  rewrite (bind_run _ _ _ _ _ H). destruct (found_spec ts s (uheap_ x)) as [(Hn & Hno)|(Hin & Hc)].
  - left. split; [done|]. rewrite Hn. cbn [Z.eqb orb negb null]. unfold mbind, ST_bind. rewrite resize_result; [|lia|by cbn; rewrite Hl].
    rewrite Z.add_comm, Z.sub_add, wrap64_small, aligned_down, aligned_up by (unfold is_u64; lia || apply rounded_aligned).
    unfold VALID_USER_REGION. by rewrite (proj2 (Z.ltb_lt _ _) Hlt), (proj2 (Z.leb_le _ _) Hle).
  - right. set (p := found s ts (uheap_ x)) in *. exists p, (with_space a x' s). split; [done|]. split; [done|].
    assert (p ≠ null) as Hp. { intros E. apply (si_segs _ _ _ _ _ HI) in Hin. rewrite E, (si_nullseg _ _ _ _ _ HI) in Hin. by destruct Hin. }
    apply contains_start in Hc. rewrite (proj2 (Z.eqb_neq p null) Hp), (proj2 (Z.leb_gt _ _)) by lia.
    cbn [orb]. by rewrite (proj2 (Z.eqb_neq p null) Hp).
Qed.

End theorems.

(** ** Page faults *)

Section faults.
Context {A : Type} (pages_end page_count : Z) `{!FrameProvider page_count A} (K : Z) (R : gset Z).
Context (Hend : KERNEL_VIRTUALBASE <= pages_end) (Hend2 : pages_end + PAGE_SIZE < 2 ^ 64).
Context (Hmem : page_count * PAGE_SIZE <= 2 ^ 45) (Hspaces : Z.of_nat (base.size R) < 2 ^ 32).
Context (link : loc → loc).
Implicit Types (s : mm A) (x : aspace) (ts : list loc).

Abbreviation pages M s := (refs_inv pages_end page_count K R None None M (memory s)).

(** What becomes of a fault in a space with the segments [ts] and the mappings [M]. *)
Inductive fault_outcome x ts s (M : gmap key (Z * Z)) (err addr : Z) : error_code_values → mm A → Prop :=
  | fault_outside s' : (∀ p, p ∈ ts → contains (seg_of s p) addr = false) → memory s' = memory s →
      fault_outcome x ts s M err addr ERROR_VMA_NOT_FOUND s'
  | fault_denied p e s' : p ∈ ts → contains (seg_of s p) addr = true → fault_error err (seg_flags (seg_of s p)) = Some e →
      memory s' = memory s → fault_outcome x ts s M err addr e s'
  | fault_mapped p f s' : p ∈ ts → contains (seg_of s p) addr = true → fault_error err (seg_flags (seg_of s p)) = None →
      0 <= f < page_count → count M f = 0 →
      pages (<[(pgdir_ x, page_no addr) := (f, if Z.land (seg_flags (seg_of s p)) VM_WRITE =? 0 then PG_U else Z.lor PG_U PG_W)]> M) s' →
      fault_outcome x ts s M err addr ERROR_SUCCESS s'
  | fault_no_memory p m s' : p ∈ ts → contains (seg_of s p) addr = true → fault_error err (seg_flags (seg_of s p)) = None →
      pm_allocate 1 (memory s) = Some (None, m) → pages M s' →
      fault_outcome x ts s M err addr ERROR_SUCCESS s'.

Lemma page_no_rounddown addr : 0 <= addr < 2 ^ 64 → page_no (rounddown addr PAGE_SIZE) = page_no addr.
Proof. intros H. unfold page_no. rewrite rounddown_spec, Z.mul_comm, Z.div_mul by done. done. Qed.

Lemma rounddown_low addr : PAGE_SIZE <= addr <= USER_TOP → PAGE_SIZE <= rounddown addr PAGE_SIZE <= addr.
Proof.
  intros H. assert (USER_TOP = 2 ^ 47 - 1) as EU by done. assert (PAGE_SIZE = 2 ^ 21) as EP by done. rewrite rounddown_spec, EP in * by lia.
  pose proof (Z.div_mod addr (2 ^ 21) ltac:(lia)). pose proof (Z.mod_pos_bound addr (2 ^ 21) ltac:(lia)).
  pose proof (Z.div_le_lower_bound addr (2 ^ 21) 1). lia.
Qed.

(** C16: A page fault above the lowest page: an address outside the segments and
    an access its segment does not allow are reported, nothing changed;
    otherwise a page no mapping uses is mapped at that address, with the
    segment's access, in place of what was there - or, when no page is free,
    nothing is mapped and success is reported all the same. *)
Theorem page_fault_cases a x ts s M err addr :
  space_inv link a x ts s → locked s = ∅ → pages M s → pgdir_ x ∈ R → pgdir_ x ≠ K → PAGE_SIZE <= addr <= USER_TOP →
  (∀ o m, pm_allocate 1 (memory s) = Some (o, m) → supplies 2 (prov (tables m))) →
  ∃ code s', page_fault_impl pages_end page_count a err addr s = Some (code, s') ∧ fault_outcome x ts s M err addr code s' ∧
    segs s' = segs s ∧ list_mem s' = list_mem s.
Proof.
  intros HI Hl HM HR HK Haddr Hs. assert (pgdir_ x ≠ 0) as Hr0 by (eapply root_nonzero; [apply (ri_pt _ _ _ _ _ _ _ _ HM)|done]).
  destruct (find_vma_result link a x ts s addr HI Hl) as (x' & H & HI' & c & ->).
  set (s1 := with_space a (set_cache c x) s) in *. unfold page_fault_impl. rewrite (bind_run _ _ _ _ _ H).
  destruct (found_spec ts s addr) as [(Hn & Hno)|(Hin & Hc)].
  { rewrite Hn. exists ERROR_VMA_NOT_FOUND, s1. split; [done|]. split; [by constructor|done]. }
  set (p := found s ts addr) in *.
  assert (p ≠ null) as Hp. { intros E. pose proof (si_segs _ _ _ _ _ HI _ Hin) as Hsp. rewrite E, (si_nullseg _ _ _ _ _ HI) in Hsp. by destruct Hsp. }
  rewrite (proj2 (Z.eqb_neq p null) Hp), (bind_run _ _ _ _ _ (get_seg_run s1 p (si_segs _ _ _ _ _ HI p Hin))).
  change (seg_of s1 p) with (seg_of s p). pose proof (contains_start _ _ Hc). rewrite (proj2 (Z.ltb_ge addr _)) by done.
  destruct (fault_error err (seg_flags (seg_of s p))) as [e|] eqn:He.
  { exists e, s1. split; [done|]. split; [by apply (fault_denied x ts s M err addr p)|done]. }
  rewrite (bind_run _ _ _ _ _ (locking_get_space link a _ ts s1 HI' Hl)). cbn [pgdir_ set_cache].
  set (perm := if Z.land (seg_flags (seg_of s p)) VM_WRITE =? 0 then PG_U else Z.lor PG_U PG_W) in *.
  pose proof (rounddown_low addr Haddr) as Hrd. assert (USER_TOP = 2 ^ 47 - 1 ∧ 0 < PAGE_SIZE) as (EU & EP) by done.
  destruct (allocate_at_ok pages_end page_count K R Hend Hend2 Hmem Hspaces (pgdir_ x) (rounddown addr PAGE_SIZE) perm true M (memory s) HM)
    as (ret & m & M' & Ha & HM' & Hout & Hret); [by split; [|split; [|lia]]|lia|done|by unfold perm; destruct (_ =? _)|done|].
  destruct (pm_allocate 1 (memory s)) as [[o m1]|] eqn:Hal; [|done]. specialize (Hret eq_refl). subst ret.
  rewrite (bind_run _ _ _ _ _ (on_memory_run _ s1 _ m Ha)). rewrite page_no_rounddown in Hout by lia.
  eexists ERROR_SUCCESS, _. split; [done|]. split; [|done]. destruct o as [f|].
  - destruct Hout as (Hf & Hc0 & _ & ->). by apply (fault_mapped x ts s M err addr p f).
  - cbn in Hout. subst M'. by apply (fault_no_memory x ts s M err addr p m1).
Qed.

End faults.

(** ** An example: a space with two segments, in the memory of [PageRefTheorems] *)

Definition ex_link (p : loc) : loc := p + 16.

#[export] Instance ex_link_inj : Inj (=) (=) ex_link.
Proof. intros p q. unfold ex_link. lia. Qed.

Definition ex_space (t : Z) : aspace := ASpace {| head_ := 108; size_ := 2 |} 300 t 0x2000000 0x2000000 0x4000000.

Definition ex_mm {A} (t : Z) (m : pm A) : mm A := MM
  (Lmem {[108 := {| parent_ := null; next_ := 216; prev_ := 316 |}; 216 := {| parent_ := 200; next_ := 316; prev_ := 108 |};
          316 := {| parent_ := 300; next_ := 108; prev_ := 216 |}]} ∅ [])
  {[200 := Seg 0x400000 0x800000 VM_READ; 300 := Seg 0x1000000 0x2000000 (Z.lor VM_READ VM_WRITE)]}
  {[100 := ex_space t]} ∅ m [400; 500].

Lemma ex_space_inv {A} t (m : pm A) : space_inv ex_link 100 (ex_space t) [200; 300] (ex_mm t m).
Proof.
  split; try done.
  - split; try done; [|by repeat constructor]. split; [by apply (bool_decide_unpack (NoDup [108; 216; 316]))|done].
  - intros p Hp. by repeat (apply elem_of_cons in Hp as [->|Hp]; [vm_compute; eauto|]); apply not_elem_of_nil in Hp.
  - by repeat constructor.
  - intros p Hp. by repeat (apply elem_of_cons in Hp as [->|Hp]; [done|]); apply not_elem_of_nil in Hp.
  - right. by right; left.
  - split; [by apply (bool_decide_unpack (NoDup [400; 500]))|].
    intros p Hp. by repeat (apply elem_of_cons in Hp as [->|Hp]; [done|]); apply not_elem_of_nil in Hp.
Qed.

(** The tables of the space, as far as the examples read them: one page mapped. *)
Definition ex_pm : pm (Z * list Z) := Pm (Vm {[4096 := 0x2001; KERNEL_VIRTUALBASE + 0x2000 := 0x3001;
  KERNEL_VIRTUALBASE + 0x3048 := 0x600087; KERNEL_VIRTUALBASE + 0x3050 := 0]} (bump_first, [])) ∅.

Lemma map_cases_witness :
  map_outcome ex_link 100 (ex_space 4096) [200; 300] (ex_mm 4096 ex_pm) 0xA00000 0xC00000 VM_READ
    (map ex_link 100 0xA12345 0x1000 VM_READ (ex_mm 4096 ex_pm)) ∧
  fst <$> map ex_link 100 0xA12345 0x1000 VM_READ (ex_mm 4096 ex_pm) = Some (inr 400).
Proof.
  split; [|by vm_compute]. apply (map_cases ex_link 100 (ex_space 4096) [200; 300] (ex_mm 4096 ex_pm) 0xA12345 0x1000 VM_READ).
  - apply ex_space_inv.
  - done.
Defined.


Lemma heap_growth_fails_witness :
  resize_heap 4 ex_link 900 100 0x1000000 0x2000001 (ex_mm 4096 ex_pm) = None.
Proof.
  destruct (heap_growth_fails 4 ex_link 100 (ex_space 4096) [200; 300] (ex_mm 4096 ex_pm) 900 0x1000000 0x2000001)
    as [(_ & ?)|(p & s' & Hp & Hc & _)]; try done.
  apply ex_space_inv.
Defined.

Lemma space_ops_wf_witness :
  ∃ s', run_space_op ex_pages_end 4 ex_link 100 (OMap 0xA12345 0x1000 VM_READ) (ex_mm 4096 ex_pm) = Some s' ∧ space_wf ex_link 100 s'.
Proof.
  destruct (run_space_op ex_pages_end 4 ex_link 100 (OMap 0xA12345 0x1000 VM_READ) (ex_mm 4096 ex_pm)) as [s'|] eqn:E; [|by vm_compute in E].
  exists s'. split; [done|]. apply (space_ops_wf ex_pages_end 4 ex_link 100 (ex_mm 4096 ex_pm)).
  - exists (ex_space 4096), [200; 300]. split; [apply ex_space_inv|]. split; [done|].
    split; [by apply (bool_decide_unpack (100 ∉ [200; 300]))|by apply (bool_decide_unpack (100 ∉ [400; 500]))].
  - apply rtc_once. exists (OMap 0xA12345 0x1000 VM_READ). split; [intros fl Hfl; discriminate Hfl|exact E].
Defined.

(** A write to the second segment is given a page. *)
Lemma page_fault_cases_witness :
  ∃ t s code s', page_fault_impl ex_pages_end 4 100 2 0x1000008 (ex_mm t s) = Some (code, s') ∧ code = ERROR_SUCCESS.
Proof.
  destruct ex_start as (k & t & s & Hne & Ep & HI). exists t, (Pm s ex_refs).
  destruct (page_fault_cases ex_pages_end 4 k ({[t]} ∪ {[k]}) ltac:(done) ltac:(done) ltac:(done)
    ltac:(rewrite size_union by (apply disjoint_singleton_l; intros ?%elem_of_singleton; done); rewrite !size_singleton; done)
    ex_link 100 (ex_space t) [200; 300] (ex_mm t (Pm s ex_refs)) ∅ 2 0x1000008 (ex_space_inv t _) eq_refl HI) as (code & s' & H & Ho & _).
  - by apply elem_of_union_l, elem_of_singleton.
  - done.
  - done.
  - intros o m H. unfold pm_allocate, on_frames, on_tables in H. cbn [tables memory ex_mm] in H. rewrite Ep in H. injection H as _ <-. by apply pool_supplies.
  - exists code, s'. split; [done|]. inversion Ho as [? Hno _|p e ? Hp Hc He _| |]; subst; try done.
    + specialize (Hno 300 ltac:(by right; left)). done.
    + exfalso. by repeat (apply elem_of_cons in Hp as [->|Hp]; [done|]); apply not_elem_of_nil in Hp.
Defined.
