(* ===== verification/Ext2.v ===== *)
(** * The ext2 file system: blocks and inodes

    [include/fs/ext2/ext2.hpp] and [kern/fs/ext2/block], [inode].  The device is
    an interface with the behaviour of a working disk as its laws.  The super
    block, the table of group descriptors and the inodes are the bytes the code
    keeps of them, with the fields of their packed structures at their offsets.
    Inodes in memory are objects that several vnodes can point to.

    [heap] holds the addresses the allocator of objects hands out next, with what
    their memory holds; [news] the results of the next allocations of buffers,
    which succeed after that.  Buffers are freed before a function returns, or
    leak; neither has another effect here. *)

From S2P Require Import Prelude Types Links Bytes.

(** ** Interfaces and data *)

(** [device_class::read] and [write], with what is on the disk.  A working disk
    reads and writes whole sectors, at most 65535 of them at once. *)
Definition SECTOR_SIZE : Z := 512.
Definition MAX_TRANSFER : Z := 0xFFFF * SECTOR_SIZE.

Class BlockDevice (D : Type) := {
  dev_read : Z → Z → D → result buffer * D;
  dev_write : Z → buffer → D → result Z * D;
  disk : D → buffer;
  working : D → Prop;
  disk_bytes d : working d → Forall is_byte (disk d);
  dev_read_law d off len : working d → 0 <= off → 0 < len → off + len <= blen (disk d) →
    off mod SECTOR_SIZE = 0 → len mod SECTOR_SIZE = 0 → len <= MAX_TRANSFER →
    ∃ d', dev_read off len d = (Ok (slice off len (disk d)), d') ∧ disk d' = disk d ∧ working d';
  dev_write_law d off b : working d → Forall is_byte b → 0 <= off → 0 < blen b → off + blen b <= blen (disk d) →
    off mod SECTOR_SIZE = 0 → blen b mod SECTOR_SIZE = 0 → blen b <= MAX_TRANSFER →
    ∃ d', dev_write off b d = (Ok (blen b), d') ∧ disk d' = patch off b (disk d) ∧ working d';
}.

Definition EXT2_SIGNATURE : Z := 0xEF53.
Definition EXT2_DIRECT_BLOCK_COUNT : Z := 12.
Definition EXT2_IFDIR : Z := 0x4.
Definition EXT2_IFREG : Z := 0x8.
Definition EXT2_FIRST_INODE_NUMBER : Z := 1.
Definition EXT2_ROOT_DIR_INODE_NUMBER : Z := 2.
Definition SBRF_DIRENT_TYPE_FIELD : Z := 0x2.
Definition EXT2_VERSION0_INODE_SIZE : Z := 128.

(** [1024u << logged_size] is computed with 32 bits, and undefined from 32 on. *)
Definition EXT2_CALC_SIZE (logged_size : Z) : option Z :=
  if logged_size <? 32 then Some (Z.shiftl 1024 logged_size mod 2 ^ 32) else None.
Definition EXT2_INODE_GET_BLOCK_GROUP (ino count : Z) : Z := (ino - EXT2_FIRST_INODE_NUMBER) mod 2 ^ 32 / count.
Definition EXT2_INODE_INDEX_IN_BLOCK_GROUP (ino count : Z) : Z := ((ino - EXT2_FIRST_INODE_NUMBER) mod 2 ^ 32) mod count.
Definition EXT2_BLOCK_GET_BLOCK_GROUP (blk count : Z) : Z := (blk -w EXT2_FIRST_INODE_NUMBER) / count.
Definition EXT2_BLOCK_INDEX_IN_BLOCK_GROUP (blk count : Z) : Z := (blk -w EXT2_FIRST_INODE_NUMBER) mod count.
Definition ADDR_COUNT_PER_BLOCK (block_size : Z) : Z := block_size / 4.

(** A field of a packed structure: its size in bytes and its offset. *)
Record field := Field { f_size : nat; f_off : Z }.

(** [ext2_superblock] *)
Definition inode_count := Field 4 0.
Definition block_count := Field 4 4.
Definition log2_block_size := Field 4 24.
Definition log2_frag_size := Field 4 28.
Definition block_group_block_count := Field 4 32.
Definition block_group_inode_count := Field 4 40.
Definition sb_free_inode_count := Field 4 16.
Definition ext2_signature := Field 2 56.
Definition version_major := Field 4 76.
Definition inode_size := Field 2 88.
Definition required_features := Field 4 96.

(** [ext2_block_group_desc], 32 bytes each *)
Definition BGD_SIZE : Z := 32.
Definition block_bitmap_no := Field 4 0.
Definition inode_bitmap_no := Field 4 4.
Definition inode_table_no := Field 4 8.
Definition free_block_count := Field 2 12.
Definition free_inode_count := Field 2 14.
Definition directory_count := Field 2 16.

(** [ext2_inode], 120 bytes; the first two hold [perm] and [type] *)
Definition INODE_BYTES : Z := 120.
Definition i_mode := Field 2 0.
Definition i_uid := Field 2 2.
Definition size_lower := Field 4 4.
Definition atime := Field 4 8.
Definition ctime := Field 4 12.
Definition mtime := Field 4 16.
Definition dtime := Field 4 20.
Definition i_gid := Field 2 24.
Definition hard_link_count := Field 2 26.
Definition sector_count := Field 4 28.
Definition i_flags := Field 4 32.
Definition direct_blocks (i : Z) := Field 4 (40 + 4 * i).
Definition indirect_block_l1 := Field 4 88.
Definition size_upper := Field 4 108.

Definition fget (f : field) (b : buffer) : option Z := load (f_size f) (f_off f) b.
Definition fset (f : field) (v : Z) (b : buffer) : option buffer := store (f_size f) (f_off f) v b.

(** The bit field [type] is the upper four bits, [perm] the lower twelve. *)
Definition inode_type (m : Z) : Z := Z.shiftr m 12 mod 16.
Definition inode_perm (m : Z) : Z := m mod 2 ^ 12.
Definition with_type (t m : Z) : Z := Z.shiftl (t mod 16) 12 + inode_perm m.

(** [ext2_data]; [bgdt_freed] tells whether [kfree] was called on the table. *)
Record ext2_data := Ext2Data {
  superblock_data : buffer;
  block_size : Z;
  fragment_size : Z;
  inodes_per_block : Z;
  blkgrp_inode_blocks : Z;
  bgdt_entry_count : Z;
  bgdt_size_blocks : Z;
  bgdt : buffer;
  bgdt_freed : bool;
  root : loc;
  root_inode : loc;
}.

Definition set_superblock b d := Ext2Data b (block_size d) (fragment_size d) (inodes_per_block d) (blkgrp_inode_blocks d)
  (bgdt_entry_count d) (bgdt_size_blocks d) (bgdt d) (bgdt_freed d) (root d) (root_inode d).
Definition set_bgdt b d := Ext2Data (superblock_data d) (block_size d) (fragment_size d) (inodes_per_block d) (blkgrp_inode_blocks d)
  (bgdt_entry_count d) (bgdt_size_blocks d) b (bgdt_freed d) (root d) (root_inode d).

Record ext2 (D : Type) := Ext2 {
  dev : D;
  data : ext2_data;
  inodes : gmap loc buffer;
  heap : list (loc * buffer);
  news : list bool;
  clock : Z;
}.
Arguments Ext2 {D}.
Arguments dev {D}.
Arguments data {D}.
Arguments inodes {D}.
Arguments heap {D}.
Arguments news {D}.
Arguments clock {D}.

(** An operation that stops at an error, and goes on with the result otherwise. *)
Definition rbind {S A B} (c : ST S (result A)) (k : A → ST S (result B)) : ST S (result B) :=
  r ← c; match r with Err e => mret (Err e) | Ok x => k x end.
Notation "x ←? y ; z" := (rbind y (λ x, z)) (at level 20, y at level 100, z at level 200, only parsing) : dionysus_scope.
Notation "y ;;? z" := (rbind y (λ _, z)) (at level 100, z at level 200, right associativity) : dionysus_scope.

(** ** Operations *)

Section ext2.
Context {D : Type} `{!BlockDevice D} (next_time : Z → Z).
Implicit Types s : ext2 D.

Abbreviation FS := (ST (ext2 D)).

Definition lift {A} (o : option A) : FS A := λ s, match o with Some x => Some (x, s) | None => None end.
Definition get_data : FS ext2_data := λ s, Some (data s, s).
Definition put_data (d : ext2_data) : FS unit := λ s, Some (tt, Ext2 (dev s) d (inodes s) (heap s) (news s) (clock s)).

(** Whether [new(std::nothrow) uint8_t[n]] gives memory. *)
Definition new_buffer : FS bool := λ s,
  match news s with
  | [] => Some (true, s)
  | b :: l => Some (b, Ext2 (dev s) (data s) (inodes s) (heap s) l (clock s))
  end.

(** [cmos::cmos_read_rtc_timestamp] *)
Definition cmos_read_rtc_timestamp : FS Z := λ s,
  Some (clock s, Ext2 (dev s) (data s) (inodes s) (heap s) (news s) (next_time (clock s))).

Definition device_read (off len : Z) : FS (result buffer) := λ s,
  let '(r, d) := dev_read off len (dev s) in Some (r, Ext2 d (data s) (inodes s) (heap s) (news s) (clock s)).
Definition device_write (off : Z) (b : buffer) : FS (result Z) := λ s,
  let '(r, d) := dev_write off b (dev s) in Some (r, Ext2 d (data s) (inodes s) (heap s) (news s) (clock s)).

(** Fields of the super block, of the descriptor of group [i] and of an inode in memory. *)
Definition get_sb (f : field) : FS Z := d ← get_data; lift (fget f (superblock_data d)).
Definition get_bgd (i : Z) (f : field) : FS Z :=
  d ← get_data; lift (load (f_size f) (i * BGD_SIZE + f_off f) (bgdt d)).
Definition set_bgd (i : Z) (f : field) (v : Z) : FS unit :=
  d ← get_data; b ← lift (store (f_size f) (i * BGD_SIZE + f_off f) v (bgdt d)); put_data (set_bgdt b d).
Definition get_inode (p : loc) : FS buffer := λ s, lift (inodes s !! p) s.
Definition put_inode (p : loc) (b : buffer) : FS unit := λ s,
  Some (tt, Ext2 (dev s) (data s) (<[p := b]> (inodes s)) (heap s) (news s) (clock s)).
Definition get_field (p : loc) (f : field) : FS Z := b ← get_inode p; lift (fget f b).
Definition set_field (p : loc) (f : field) (v : Z) : FS unit := b ← get_inode p; b ← lift (fset f v b); put_inode p b.

Definition get_inode_size : FS Z :=
  v ← get_sb version_major; if v =? 0 then mret EXT2_VERSION0_INODE_SIZE else get_sb inode_size.

(** *** Blocks *)

Definition ext2_block_read (block_num : Z) : FS (result buffer) :=
  d ← get_data;
  b ←? device_read (wrap64 (block_num * block_size d)) (block_size d);
  if blen b =? block_size d then mret (Ok b) else mret (Err ERROR_IO).

Definition ext2_block_write (b : buffer) (block_num : Z) : FS (result unit) :=
  d ← get_data;
  n ←? device_write (wrap64 (block_num * block_size d)) b;
  if n =? block_size d then mret (Ok tt) else mret (Err ERROR_IO).

Definition superblock_write_back : FS (result unit) :=
  d ← get_data;
  n ←? device_write 1024 (superblock_data d);
  if n =? 1024 then mret (Ok tt) else mret (Err ERROR_IO).

(** The word of a bitmap a bit is in. *)
Definition bitmap_word (j : Z) (b : buffer) : option Z := load 8 (8 * (j / 64)) b.
Definition bitmap_used (j : Z) (b : buffer) : option bool := w ← bitmap_word j b; Some (Z.testbit w (j mod 64)).
Definition bitmap_set (j : Z) (b : buffer) : option buffer :=
  w ← bitmap_word j b; store 8 (8 * (j / 64)) (Z.lor w (Z.shiftl 1 (j mod 64))) b.
Definition bitmap_unset (j : Z) (b : buffer) : option buffer :=
  w ← bitmap_word j b; store 8 (8 * (j / 64)) (Z.ldiff w (Z.shiftl 1 (j mod 64))) b.

(** The block of the descriptor table that holds descriptor [i], written to block [at]. *)
Definition write_bgdt_block (i at_ : Z) : FS (result unit) :=
  d ← get_data;
  let k := i * BGD_SIZE / block_size d in
  b ← lift (copy_out (k * block_size d) (block_size d) (bgdt d));
  ext2_block_write b at_.

(** The bits of group [i] from [j] on; [None] when the loop over them ends or is left. *)
Fixpoint block_alloc_in (n : nat) (i j : Z) (bitmap_buf : buffer) : FS (option Z) :=
  match n with
  | O => mret None
  | S n =>
      u ← lift (bitmap_used j bitmap_buf);
      if (u : bool) then block_alloc_in n i (j + 1) bitmap_buf else
      bitmap_buf ← lift (bitmap_set j bitmap_buf);
      no ← get_bgd i block_bitmap_no;
      ret ← ext2_block_write bitmap_buf no;
      match ret with
      | Err _ => mret None
      | Ok _ =>
          d ← get_data;
          ret ← write_bgdt_block i (i * BGD_SIZE / block_size d + 2);
          match ret with
          | Err _ => mret None
          | Ok _ =>
              superblock_write_back;;
              count ← get_sb block_group_block_count;
              mret (Some (wrap64 (i * count + j + 1)))
          end
      end
  end.

Fixpoint block_alloc_groups (n : nat) (i : Z) : FS (result Z) :=
  match n with
  | O => mret (Err ERROR_NO_ENTRY)
  | S n =>
      free ← get_bgd i free_block_count;
      if free =? 0 then block_alloc_groups n (i + 1) else
      no ← get_bgd i block_bitmap_no;
      bitmap_buf ←? ext2_block_read no;
      count ← get_sb block_group_block_count;
      ret ← block_alloc_in (Z.to_nat count) i 0 bitmap_buf;
      match ret with Some blk => mret (Ok blk) | None => block_alloc_groups n (i + 1) end
  end.

(** The copies of the super block and of the descriptor the source counts in are
    not stored anywhere. *)
Definition ext2_block_alloc : FS (result Z) :=
  m ← new_buffer;
  if negb m then mret (Err ERROR_MEMORY_ALLOC) else
  d ← get_data;
  block_alloc_groups (Z.to_nat (bgdt_entry_count d)) 0.

Definition ext2_block_free (block : Z) : FS (result unit) :=
  if block =? 0 then mret (Err ERROR_INVALID) else
  m ← new_buffer;
  count ← get_sb block_group_block_count;
  kassert (negb (count =? 0));;
  let index := EXT2_BLOCK_INDEX_IN_BLOCK_GROUP block count in
  let group := EXT2_BLOCK_GET_BLOCK_GROUP block count in
  kassert m;;
  no ← get_bgd group block_bitmap_no;
  bitmap_buf ←? ext2_block_read no;
  bitmap_buf ← lift (bitmap_unset index bitmap_buf);
  ext2_block_write bitmap_buf no;;?
  free ← get_bgd group free_block_count;
  set_bgd group free_block_count (free + 1);;
  write_bgdt_block group ((no + 2) mod 2 ^ 32);;?
  superblock_write_back.

(** *** Inodes *)

(** Where inode [inum] is: its block and the offset in it. *)
Definition inode_place (inum : Z) : FS (result (Z * Z)) :=
  d ← get_data;
  total ← get_sb inode_count;
  if (inum <? EXT2_FIRST_INODE_NUMBER) || (total <=? inum) then mret (Err ERROR_INVALID) else
  count ← get_sb block_group_inode_count;
  kassert (negb (count =? 0) && negb (inodes_per_block d =? 0));;
  let group := EXT2_INODE_GET_BLOCK_GROUP inum count in
  let index := EXT2_INODE_INDEX_IN_BLOCK_GROUP inum count in
  table ← get_bgd group inode_table_no;
  sz ← get_inode_size;
  let off := wrap64 (index mod inodes_per_block d * sz) in
  if block_size d <=? off then mret (Err ERROR_INVALID) else
  mret (Ok (table +w index / inodes_per_block d, off)).

Definition ext2_inode_read (inum : Z) (inode : loc) : FS (result unit) :=
  p ←? inode_place inum;
  m ← new_buffer;
  kassert m;;
  block_buf ←? ext2_block_read p.1;
  sz ← get_inode_size;
  b ← lift (copy_out p.2 sz block_buf);
  old ← get_inode inode;
  new ← lift (copy_in 0 b old);
  put_inode inode new;;
  mret (Ok tt).

Definition ext2_inode_write (inum : Z) (inode : loc) : FS (result unit) :=
  t ← cmos_read_rtc_timestamp;
  set_field inode atime t;;
  p ←? inode_place inum;
  m ← new_buffer;
  if negb m then mret (Err ERROR_MEMORY_ALLOC) else
  block_buf ←? ext2_block_read p.1;
  sz ← get_inode_size;
  i ← get_inode inode;
  b ← lift (copy_out 0 sz i);
  block_buf ← lift (copy_in p.2 b block_buf);
  ext2_block_write block_buf p.1.

Definition b2z (b : bool) : Z := if b then 1 else 0.

Definition set_free_inode_count (f : Z → Z) : FS unit :=
  d ← get_data;
  v ← get_sb sb_free_inode_count;
  b ← lift (fset sb_free_inode_count (f v) (superblock_data d));
  put_data (set_superblock b d).

Fixpoint inode_alloc_in (n : nat) (i j : Z) (is_dir : bool) (bitmap_buf : buffer) : FS (option (result Z)) :=
  match n with
  | O => mret None
  | S n =>
      u ← lift (bitmap_used j bitmap_buf);
      if (u : bool) then inode_alloc_in n i (j + 1) is_dir bitmap_buf else
      count ← get_sb block_group_inode_count;
      bitmap_buf ← lift (bitmap_set j bitmap_buf);
      no ← get_bgd i block_bitmap_no;
      r ← (ext2_block_write bitmap_buf no;;?
           free ← get_bgd i free_inode_count;
           set_bgd i free_inode_count (free - 1);;
           dirs ← get_bgd i directory_count;
           set_bgd i directory_count (dirs + b2z is_dir);;
           d ← get_data;
           write_bgdt_block i (i * BGD_SIZE / block_size d + 2);;?
           set_free_inode_count (λ v, v - 1);;
           superblock_write_back;;?
           mret (Ok ((EXT2_FIRST_INODE_NUMBER + i * count + j) mod 2 ^ 32)));
      mret (Some r)
  end.

Fixpoint inode_alloc_groups (n : nat) (i : Z) (is_dir : bool) : FS (result Z) :=
  match n with
  | O => mret (Err ERROR_UNKOWN)
  | S n =>
      free ← get_bgd i free_inode_count;
      if free =? 0 then inode_alloc_groups n (i + 1) is_dir else
      no ← get_bgd i block_bitmap_no;
      bitmap_buf ←? ext2_block_read no;
      count ← get_sb block_group_inode_count;
      ret ← inode_alloc_in (Z.to_nat count) i 0 is_dir bitmap_buf;
      match ret with Some r => mret r | None => inode_alloc_groups n (i + 1) is_dir end
  end.

Definition ext2_inode_alloc (is_dir : bool) : FS (result Z) :=
  m ← new_buffer;
  if negb m then mret (Err ERROR_MEMORY_ALLOC) else
  d ← get_data;
  inode_alloc_groups (Z.to_nat (bgdt_entry_count d)) 0 is_dir.

Definition ext2_inode_free (ino : Z) (is_dir : bool) : FS (result unit) :=
  m ← new_buffer;
  count ← get_sb block_group_inode_count;
  kassert (negb (count =? 0));;
  let block := EXT2_INODE_GET_BLOCK_GROUP ino count in
  let index := EXT2_INODE_INDEX_IN_BLOCK_GROUP ino count in
  kassert m;;
  no ← get_bgd block block_bitmap_no;
  bitmap_buf ←? ext2_block_read no;
  bitmap_buf ← lift (bitmap_unset index bitmap_buf);
  ext2_block_write bitmap_buf no;;?
  free ← get_bgd block free_inode_count;
  set_bgd block free_inode_count (free + 1);;
  dirs ← get_bgd block directory_count;
  set_bgd block directory_count (dirs - b2z is_dir);;
  write_bgdt_block block no;;?
  set_free_inode_count (λ v, v + 1);;
  superblock_write_back.

(** *** The blocks of a file *)

Definition EXT2_INODE_SIZE (inode : loc) : FS Z :=
  hi ← get_field inode size_upper; lo ← get_field inode size_lower; mret (Z.lor (Z.shiftl hi 32) lo).
Definition ext2_inode_set_size (inode : loc) (sz : Z) : FS unit :=
  set_field inode size_lower (Z.land sz 0xFFFFFFFF);; set_field inode size_upper (Z.shiftr sz 32).

(** The buffer of addresses is freed before the address is read from it; nothing
    runs in between. *)
Definition ext2_inode_get_index (inode : loc) (index : Z) : FS (result Z) :=
  d ← get_data;
  if index <? EXT2_DIRECT_BLOCK_COUNT then b ← get_field inode (direct_blocks index); mret (Ok b) else
  let addr_count := ADDR_COUNT_PER_BLOCK (block_size d) in
  m ← new_buffer;
  if index <? EXT2_DIRECT_BLOCK_COUNT + addr_count then
    l1 ← get_field inode indirect_block_l1;
    if l1 =? 0 then mret (Err ERROR_OUT_OF_BOUND) else
    kassert m;;
    addrs ←? ext2_block_read l1;
    a ← lift (load 4 (4 * (index - EXT2_DIRECT_BLOCK_COUNT)) addrs);
    mret (Ok a)
  else if index <? EXT2_DIRECT_BLOCK_COUNT + addr_count * 3 then mret (Err ERROR_NOT_IMPL)
  else mret (Err ERROR_INVALID).

Definition ext2_inode_set_index (inode : loc) (index value : Z) : FS (result unit) :=
  d ← get_data;
  let addr_count := ADDR_COUNT_PER_BLOCK (block_size d) in
  m ← new_buffer;
  if index <? EXT2_DIRECT_BLOCK_COUNT then set_field inode (direct_blocks index) value;; mret (Ok tt) else
  if index <? EXT2_DIRECT_BLOCK_COUNT + addr_count then
    l1 ← get_field inode indirect_block_l1;
    (if l1 =? 0 then
       block ←? ext2_block_alloc;
       set_field inode indirect_block_l1 block;; mret (Ok tt)
     else mret (Ok tt));;?
    l1 ← get_field inode indirect_block_l1;
    kassert m;;
    addrs ←? ext2_block_read l1;
    addrs ← lift (store 4 (4 * (index - EXT2_DIRECT_BLOCK_COUNT)) value addrs);
    ext2_block_write addrs l1
  else if index <? EXT2_DIRECT_BLOCK_COUNT + addr_count * 3 then mret (Err ERROR_NOT_IMPL)
  else mret (Err ERROR_INVALID).

(** The loops of [ext2_inode_resize], over [n] blocks from [index] on. *)
Fixpoint free_blocks (n : nat) (inode : loc) (index : Z) : FS (result unit) :=
  match n with
  | O => mret (Ok tt)
  | S n =>
      block ←? ext2_inode_get_index inode index;
      ext2_block_free block;;?
      free_blocks n inode (index + 1)
  end.

Fixpoint add_blocks (n : nat) (inode : loc) (index : Z) : FS (result unit) :=
  match n with
  | O => mret (Ok tt)
  | S n =>
      block ←? ext2_block_alloc;
      ext2_inode_set_index inode index (block mod 2 ^ 32);;?
      add_blocks n inode (index + 1)
  end.

Definition ext2_inode_resize (inode : loc) (new_size : Z) : FS (result unit) :=
  d ← get_data;
  let new_block_count := roundup new_size (block_size d) / block_size d in
  old_size ← EXT2_INODE_SIZE inode;
  let old_block_count := roundup old_size (block_size d) / block_size d in
  let addr_count := ADDR_COUNT_PER_BLOCK (block_size d) in
  if (EXT2_DIRECT_BLOCK_COUNT + addr_count <? new_block_count) || (EXT2_DIRECT_BLOCK_COUNT + addr_count <? old_block_count)
  then mret (Err ERROR_INVALID) else
  (if new_block_count <? old_block_count then
     free_blocks (Z.to_nat (old_block_count - new_block_count)) inode new_block_count;;?
     if (EXT2_DIRECT_BLOCK_COUNT <? old_block_count) && (new_block_count <=? EXT2_DIRECT_BLOCK_COUNT + addr_count) then
       l1 ← get_field inode indirect_block_l1;
       if l1 =? 0 then mret (Err ERROR_INVALID) else
       err ← ext2_block_free l1;
       set_field inode indirect_block_l1 0;;
       mret err
     else mret (Ok tt)
   else add_blocks (Z.to_nat (new_block_count - old_block_count)) inode old_block_count);;?
  ext2_inode_set_size inode new_size;;
  set_field inode sector_count (new_block_count + b2z (EXT2_DIRECT_BLOCK_COUNT <? new_block_count));;
  mret (Ok tt).

Definition ext2_inode_read_block (inode : loc) (index : Z) : FS (result buffer) :=
  block ←? ext2_inode_get_index inode (index mod 2 ^ 32); ext2_block_read block.

Definition ext2_inode_write_block (inode : loc) (b : buffer) (index : Z) : FS (result unit) :=
  block ←? ext2_inode_get_index inode (index mod 2 ^ 32); ext2_block_write b block.

End ext2.
