(* ===== verification/Ext2Inv.v ===== *)
(** * Facts about a mounted ext2 file system on a working disk *)

From S2P Require Import Prelude Types Links Bytes Ext2.

(** ** Bitmaps *)

(** The bit [j] of a bitmap block. *)
Definition bit (j : Z) (b : buffer) : bool := Z.testbit (le_val (slice (8 * (j / 64)) 8 b)) (j mod 64).

Lemma word_within j b : 0 <= j < 8 * blen b → blen b mod 8 = 0 → within (8 * (j / 64)) 8 b = true.
Proof.
  intros Hj Hb. apply within_spec. pose proof (Z.div_mod (blen b) 8 ltac:(lia)). assert (0 <= j / 64) by (apply Z.div_pos; lia).
  assert (j / 64 < blen b / 8) by (apply Z.div_lt_upper_bound; lia). lia.
Qed.

Lemma bitmap_used_ok j b : 0 <= j < 8 * blen b → blen b mod 8 = 0 → bitmap_used j b = Some (bit j b).
Proof. intros Hj Hb. unfold bitmap_used, bitmap_word. by rewrite load_some by (by apply word_within). Qed.

Lemma store_bytes n off v b b' : store n off v b = Some b' → Forall is_byte b → Forall is_byte b'.
Proof. unfold store. destruct (within _ _ _); [|done]. intros [= <-] H. by apply patch_bytes; [apply le_bytes_bytes|]. Qed.

Lemma word_range off b : Forall is_byte b → 0 <= off → off + 8 <= blen b → 0 <= le_val (slice off 8 b) < 2 ^ 64.
Proof.
  intros H H1 H2. pose proof (le_val_range (slice off 8 b) (slice_bytes _ _ _ H)) as Hr. by rewrite slice_length in Hr by lia.
Qed.

(** Replacing the word of bit [j] by [v]. *)
Lemma word_update j v b :
  0 <= j < 8 * blen b → blen b mod 8 = 0 → Forall is_byte b → 0 <= v < 2 ^ 64 →
  ∃ b', store 8 (8 * (j / 64)) v b = Some b' ∧ blen b' = blen b ∧ Forall is_byte b' ∧
    ∀ k, 0 <= k < 8 * blen b → bit k b' = if k / 64 =? j / 64 then Z.testbit v (k mod 64) else bit k b.
Proof.
  intros Hj Hb Hby Hv. pose proof (word_within j b Hj Hb) as Hw. exists (patch (8 * (j / 64)) (le_bytes 8 v) b).
  assert (store 8 (8 * (j / 64)) v b = Some (patch (8 * (j / 64)) (le_bytes 8 v) b)) as Hs by by apply store_some. split; [done|].
  split; [by apply store_length in Hs|]. split; [by apply store_bytes in Hs|]. intros k Hk. pose proof (word_within k b Hk Hb) as Hwk.
  apply within_spec in Hw, Hwk. unfold bit. destruct (Z.eqb_spec (k / 64) (j / 64)) as [->|Hne].
  - pose proof (slice_patch (8 * (j / 64)) (le_bytes 8 v) b) as Hsl. rewrite le_bytes_blen in Hsl. change (Z.of_nat 8) with 8 in Hsl. rewrite Hsl by lia.
    rewrite le_val_bytes. by rewrite Z.mod_small.
  - rewrite slice_patch_other; rewrite ?le_bytes_blen; try done; lia.
Qed.

Lemma shiftl_one_spec n k : 0 <= n → 0 <= k → Z.testbit (Z.shiftl 1 n) k = (k =? n).
Proof.
  intros Hn Hk. rewrite Z.shiftl_spec by lia. destruct (Z.eqb_spec k n) as [->|]; [by rewrite Z.sub_diag|].
  destruct (Z.lt_ge_cases k n); [apply Z.testbit_neg_r; lia|]. rewrite Z.bits_above_log2; [done|lia|cbn; lia].
Qed.

Lemma bit64_range v : 0 <= v → (∀ k, 64 <= k → Z.testbit v k = false) → v < 2 ^ 64.
Proof.
  intros H0 H. destruct (Z.eq_dec v 0) as [->|]; [done|]. apply Z.log2_lt_pow2; [lia|].
  destruct (Z.lt_ge_cases (Z.log2 v) 64) as [|Hge]; [done|]. specialize (H _ Hge). rewrite Z.bit_log2 in H by lia. done.
Qed.

Lemma low_bits w k : 0 <= w < 2 ^ 64 → 64 <= k → Z.testbit w k = false.
Proof.
  intros Hw Hk. destruct (Z.eq_dec w 0) as [->|]; [apply Z.bits_0|]. apply Z.bits_above_log2; [lia|].
  assert (Z.log2 w < 64) by (apply Z.log2_lt_pow2; lia). lia.
Qed.

Section bits.
Context (j : Z) (b : buffer) (Hj : 0 <= j < 8 * blen b) (Hb : blen b mod 8 = 0) (Hby : Forall is_byte b).

Lemma bit_word_eq k : (k / 64 =? j / 64) && (k mod 64 =? j mod 64) = (k =? j).
Proof.
  pose proof (Z.div_mod k 64 ltac:(lia)). pose proof (Z.div_mod j 64 ltac:(lia)).
  destruct (Z.eqb_spec k j) as [->|]; [by rewrite !Z.eqb_refl|].
  destruct (Z.eqb_spec (k / 64) (j / 64)), (Z.eqb_spec (k mod 64) (j mod 64)); try done. lia.
Qed.

Lemma word_of_j : 0 <= le_val (slice (8 * (j / 64)) 8 b) < 2 ^ 64.
Proof. pose proof (word_within j b Hj Hb) as (H1 & _ & H2)%within_spec. by apply word_range. Qed.

Lemma bitmap_set_ok : ∃ b', bitmap_set j b = Some b' ∧ blen b' = blen b ∧ Forall is_byte b' ∧
  ∀ k, 0 <= k < 8 * blen b → bit k b' = (k =? j) || bit k b.
Proof.
  set (w := le_val (slice (8 * (j / 64)) 8 b)). pose proof word_of_j as Hw. fold w in Hw.
  pose proof (Z.mod_pos_bound j 64 ltac:(lia)). set (v := Z.lor w (Z.shiftl 1 (j mod 64))).
  assert (∀ k, 0 <= k → Z.testbit v k = Z.testbit w k || (k =? j mod 64)) as Hv.
  { intros k Hk. unfold v. by rewrite Z.lor_spec, shiftl_one_spec by lia. }
  assert (0 <= v) by (unfold v; apply Z.lor_nonneg; split; [lia|]; apply Z.shiftl_nonneg; lia).
  assert (v < 2 ^ 64). { apply bit64_range; [done|]. intros k Hk. rewrite Hv, (low_bits w k) by lia. cbn. apply Z.eqb_neq. lia. }
  destruct (word_update j v b) as (b' & Hs & Hl & Hbb & Hk); try done. exists b'. unfold bitmap_set, bitmap_word.
  rewrite load_some by (by apply word_within). split; [exact Hs|]. do 2 (split; [done|]). intros k Hk0. rewrite Hk by done.
  rewrite <- bit_word_eq. destruct (Z.eqb_spec (k / 64) (j / 64)) as [E|]; [|done]. cbn [andb]. unfold bit. rewrite E. fold w.
  rewrite Hv by (apply Z.mod_pos_bound; lia). apply orb_comm.
Qed.

Lemma bitmap_unset_ok : ∃ b', bitmap_unset j b = Some b' ∧ blen b' = blen b ∧ Forall is_byte b' ∧
  ∀ k, 0 <= k < 8 * blen b → bit k b' = negb (k =? j) && bit k b.
Proof.
  set (w := le_val (slice (8 * (j / 64)) 8 b)). pose proof word_of_j as Hw. fold w in Hw.
  pose proof (Z.mod_pos_bound j 64 ltac:(lia)). set (v := Z.ldiff w (Z.shiftl 1 (j mod 64))).
  assert (∀ k, 0 <= k → Z.testbit v k = Z.testbit w k && negb (k =? j mod 64)) as Hv.
  { intros k Hk. unfold v. by rewrite Z.ldiff_spec, shiftl_one_spec by lia. }
  assert (0 <= v) by (unfold v; apply Z.ldiff_nonneg; lia).
  assert (v < 2 ^ 64). { apply bit64_range; [done|]. intros k Hk. by rewrite Hv, (low_bits w k) by lia. }
  destruct (word_update j v b) as (b' & Hs & Hl & Hbb & Hk); try done. exists b'. unfold bitmap_unset, bitmap_word.
  rewrite load_some by (by apply word_within). split; [exact Hs|]. do 2 (split; [done|]). intros k Hk0. rewrite Hk by done.
  rewrite <- bit_word_eq. destruct (Z.eqb_spec (k / 64) (j / 64)) as [E|]; [|done]. cbn [andb]. unfold bit. rewrite E. fold w.
  rewrite Hv by (apply Z.mod_pos_bound; lia). apply andb_comm.
Qed.

End bits.

(** ** Blocks of the disk *)

Lemma rbind_run {S A B} (c : ST S (result A)) (k : A → ST S (result B)) s x s' :
  c s = Some (Ok x, s') → rbind c k s = k x s'.
Proof. intros H. unfold rbind. by rewrite (bind_run _ _ _ _ _ H). Qed.

Lemma blocks_apart m n z : 0 < z → m ≠ n → m * z + z <= n * z ∨ n * z + z <= m * z.
Proof. intros Hz Hne. assert (m + 1 <= n ∨ n + 1 <= m) as [H|H] by lia; [left|right]; nia. Qed.

Section disk.
Context {D : Type} `{!BlockDevice D}.
Implicit Types s : ext2 D.

Abbreviation bs s := (block_size (data s)).
Abbreviation image s := (disk (dev s)).

Definition with_dev (d : D) s : ext2 D := Ext2 d (data s) (inodes s) (heap s) (news s) (clock s).

Definition blk s (n : Z) : buffer := slice (n * bs s) (bs s) (image s).
Definition in_disk s (n : Z) : Prop := 0 <= n ∧ (n + 1) * bs s <= blen (image s).

(** The disk works and what is kept of it in memory has the size it should have. *)
Record good s : Prop := {
  g_work : working (dev s);
  g_size : 2048 <= blen (image s) < 2 ^ 64;
  g_bs : 1024 <= bs s;
  g_bs512 : bs s mod SECTOR_SIZE = 0;
  g_max : bs s <= MAX_TRANSFER;
  g_sb : blen (superblock_data (data s)) = 1024;
  g_sb_bytes : Forall is_byte (superblock_data (data s));
  g_bgdt : blen (bgdt (data s)) = bgdt_size_blocks (data s) * bs s;
  g_bgdt_bytes : Forall is_byte (bgdt (data s));
  g_count : bgdt_entry_count (data s) * BGD_SIZE <= blen (bgdt (data s));
}.

Lemma g_bs8 s : good s → bs s mod 8 = 0.
Proof. intros Hg. pose proof (g_bs512 _ Hg) as H. unfold SECTOR_SIZE in H. pose proof (Z.div_mod (bs s) 512 ltac:(lia)). rewrite H in *. apply Z.mod_divide; [done|]. exists (64 * (bs s / 512)). lia. Qed.

Lemma good_with_dev s d : good s → working d → blen (disk d) = blen (image s) → good (with_dev d s).
Proof. intros [] Hw Hl. split; try done. cbn. by rewrite Hl. Qed.

Lemma blk_length s n : good s → in_disk s n → blen (blk s n) = bs s.
Proof. intros Hg (H0 & H1). pose proof (g_bs _ Hg). apply slice_length; nia. Qed.

Lemma blk_bytes s n : good s → Forall is_byte (blk s n).
Proof. intros Hg. apply slice_bytes, disk_bytes, (g_work _ Hg). Qed.

Lemma block_addr s n : good s → in_disk s n → wrap64 (n * bs s) = n * bs s ∧ 0 <= n * bs s ∧ n * bs s + bs s <= blen (image s).
Proof.
  intros Hg (H0 & H1). pose proof (g_bs _ Hg). pose proof (g_size _ Hg). assert (0 <= n * bs s) by nia.
  assert (n * bs s + bs s <= blen (image s)) by lia. split; [|done]. apply wrap64_small. unfold is_u64. lia.
Qed.

Lemma block_aligned s n : good s → (n * bs s) mod SECTOR_SIZE = 0.
Proof. intros Hg. rewrite Z.mul_mod, (g_bs512 _ Hg), Z.mul_0_r by done. done. Qed.

Lemma block_read_ok s n : good s → in_disk s n →
  ∃ d, ext2_block_read n s = Some (Ok (blk s n), with_dev d s) ∧ disk d = image s ∧ working d.
Proof.
  intros Hg Hn. destruct (block_addr s n Hg Hn) as (Hw & H0 & H1). pose proof (g_bs _ Hg).
  destruct (dev_read_law (dev s) (n * bs s) (bs s) (g_work _ Hg)) as (d & Hr & Hd & Hk); [lia|lia|lia|by apply block_aligned|apply Hg|apply Hg|]. exists d. split; [|done].
  unfold ext2_block_read. rewrite (bind_run get_data _ s (data s) s) by done.
  rewrite (rbind_run _ _ s (blk s n) (with_dev d s)).
  - by rewrite (blk_length s n Hg Hn), Z.eqb_refl.
  - unfold device_read. by rewrite Hw, Hr.
Qed.

Lemma block_write_ok s b n : good s → in_disk s n → blen b = bs s → Forall is_byte b →
  ∃ d, ext2_block_write b n s = Some (Ok tt, with_dev d s) ∧ disk d = patch (n * bs s) b (image s) ∧ working d.
Proof.
  intros Hg Hn Hb Hby. destruct (block_addr s n Hg Hn) as (Hw & H0 & H1).
  destruct (dev_write_law (dev s) (n * bs s) b (g_work _ Hg)) as (d & Hr & Hd & Hk); [done|lia|pose proof (g_bs _ Hg); lia|lia|by apply block_aligned|rewrite Hb; apply Hg|rewrite Hb; apply Hg|]. exists d. split; [|done].
  unfold ext2_block_write. rewrite (bind_run get_data _ s (data s) s) by done.
  rewrite (rbind_run _ _ s (blen b) (with_dev d s)).
  - by rewrite Hb, Z.eqb_refl.
  - unfold device_write. by rewrite Hw, Hr.
Qed.

Lemma write_back_ok s : good s →
  ∃ d, superblock_write_back s = Some (Ok tt, with_dev d s) ∧ disk d = patch 1024 (superblock_data (data s)) (image s) ∧ working d.
Proof.
  intros Hg. pose proof (g_sb _ Hg) as Hb. pose proof (g_size _ Hg).
  destruct (dev_write_law (dev s) 1024 (superblock_data (data s)) (g_work _ Hg)) as (d & Hr & Hd & Hk); [apply Hg|lia|lia|lia|done|by rewrite Hb|by rewrite Hb|].
  exists d. split; [|done]. unfold superblock_write_back. rewrite (bind_run get_data _ s (data s) s) by done.
  rewrite (rbind_run _ _ s 1024 (with_dev d s)); [done|]. unfold device_write. by rewrite Hr, Hb.
Qed.

(** The blocks after a block is written. *)
Lemma blk_patch s d n b m : good s → in_disk s n → blen b = bs s → disk d = patch (n * bs s) b (image s) → in_disk s m →
  blk (with_dev d s) m = if decide (m = n) then b else blk s m.
Proof.
  intros Hg Hn Hb Hd Hm. destruct (block_addr s n Hg Hn) as (_ & H0 & H1). destruct (block_addr s m Hg Hm) as (_ & H2 & H3).
  pose proof (g_bs _ Hg). unfold blk. cbn [dev with_dev data]. rewrite Hd. case_decide as E.
  - rewrite E. rewrite <- Hb at 2. apply slice_patch; lia.
  - apply slice_patch_other; try lia. destruct (blocks_apart m n (bs s)) as [?|?]; lia.
Qed.

Lemma blk_write_back s d m : good s → disk d = patch 1024 (superblock_data (data s)) (image s) → 2 <= m → in_disk s m →
  blk (with_dev d s) m = blk s m.
Proof.
  intros Hg Hd H2 Hm. destruct (block_addr s m Hg Hm) as (_ & H0 & H1). pose proof (g_bs _ Hg). pose proof (g_size _ Hg).
  unfold blk. cbn [dev with_dev data]. rewrite Hd. apply slice_patch_other; rewrite ?(g_sb _ Hg); lia.
Qed.

Lemma patch_block_length s n b : good s → in_disk s n → blen b = bs s → blen (patch (n * bs s) b (image s)) = blen (image s).
Proof. intros Hg Hn Hb. destruct (block_addr s n Hg Hn) as (_ & H0 & H1). apply patch_length; lia. Qed.

(** ** The fields of the super block and of the descriptors *)

Definition sb s (f : field) : Z := le_val (slice (f_off f) (Z.of_nat (f_size f)) (superblock_data (data s))).
Definition bgd s (i : Z) (f : field) : Z := le_val (slice (i * BGD_SIZE + f_off f) (Z.of_nat (f_size f)) (bgdt (data s))).

Lemma get_sb_ok s f : good s → 0 <= f_off f → f_off f + Z.of_nat (f_size f) <= 1024 → get_sb f s = Some (sb s f, s).
Proof.
  intros Hg H0 H1. unfold get_sb. rewrite (bind_run get_data _ s (data s) s) by done. unfold fget, lift.
  rewrite load_some; [done|]. apply within_spec. rewrite (g_sb _ Hg). lia.
Qed.

Definition group_no s (i : Z) : Prop := 0 <= i < bgdt_entry_count (data s).

Lemma bgd_within s i f : good s → group_no s i → 0 <= f_off f → f_off f + Z.of_nat (f_size f) <= BGD_SIZE →
  within (i * BGD_SIZE + f_off f) (Z.of_nat (f_size f)) (bgdt (data s)) = true.
Proof. intros Hg Hi H0 H1. pose proof (g_count _ Hg). unfold group_no, BGD_SIZE in *. apply within_spec. lia. Qed.

Lemma get_bgd_ok s i f : good s → group_no s i → 0 <= f_off f → f_off f + Z.of_nat (f_size f) <= BGD_SIZE →
  get_bgd i f s = Some (bgd s i f, s).
Proof.
  intros Hg Hi H0 H1. unfold get_bgd. rewrite (bind_run get_data _ s (data s) s) by done. unfold lift.
  by rewrite load_some by by apply bgd_within.
Qed.

(** Where descriptor [i] is in the table. *)
Definition part_no s (i : Z) : Z := i * BGD_SIZE / bs s.
Definition bgdt_part s (k : Z) : buffer := slice (k * bs s) (bs s) (bgdt (data s)).

Lemma part_no_range s i : good s → group_no s i → 0 <= part_no s i < bgdt_size_blocks (data s).
Proof.
  intros Hg Hi. pose proof (g_bs _ Hg). pose proof (g_count _ Hg) as Hc. rewrite (g_bgdt _ Hg) in Hc. unfold group_no, part_no, BGD_SIZE in *.
  split; [apply Z.div_pos; lia|]. apply Z.div_lt_upper_bound; lia.
Qed.

Lemma bgdt_part_length s k : good s → 0 <= k < bgdt_size_blocks (data s) → blen (bgdt_part s k) = bs s.
Proof. intros Hg Hk. pose proof (g_bs _ Hg). apply slice_length; rewrite ?(g_bgdt _ Hg); nia. Qed.

Lemma write_bgdt_ok s i n : good s → group_no s i → in_disk s n →
  ∃ d, write_bgdt_block i n s = Some (Ok tt, with_dev d s) ∧ disk d = patch (n * bs s) (bgdt_part s (part_no s i)) (image s) ∧ working d.
Proof.
  intros Hg Hi Hn. pose proof (part_no_range s i Hg Hi) as Hk. pose proof (g_bs _ Hg).
  destruct (block_write_ok s (bgdt_part s (part_no s i)) n Hg Hn) as (d & Hw & Hd & Hk').
  { by apply bgdt_part_length. } { apply slice_bytes, (g_bgdt_bytes _ Hg). }
  exists d. split; [|done]. unfold write_bgdt_block. rewrite (bind_run get_data _ s (data s) s) by done. fold (part_no s i).
  rewrite (bind_run _ _ s (bgdt_part s (part_no s i)) s); [done|]. unfold lift. rewrite copy_out_some; [done|].
  apply within_spec. rewrite (g_bgdt _ Hg). nia.
Qed.

(** The disk holds the super block and the descriptors of the memory, and the
    bitmaps of the groups come after them. *)
Record synced s : Prop := {
  y_sb : slice 1024 1024 (image s) = superblock_data (data s);
  y_part k : 0 <= k < bgdt_size_blocks (data s) → in_disk s (k + 2) ∧ blk s (k + 2) = bgdt_part s k;
  y_bitmap i : group_no s i → bgdt_size_blocks (data s) + 2 <= bgd s i block_bitmap_no ∧ in_disk s (bgd s i block_bitmap_no);
  y_small : bgdt_entry_count (data s) < 2 ^ 32;
  y_bits : 0 < sb s block_group_block_count <= 8 * bs s;
}.

(** The bitmap [b'] is [b] with bit [k] set. *)
Definition marked (k : Z) (b b' : buffer) : Prop :=
  blen b' = blen b ∧ Forall is_byte b' ∧ ∀ m, 0 <= m < 8 * blen b → bit m b' = (m =? k) || bit m b.

(** Only block [n] changes on the disk. *)
Definition wrote s (n : Z) (b : buffer) s' : Prop :=
  ∃ d, s' = with_dev d s ∧ working d ∧ disk d = patch (n * bs s) b (image s).

(** Writing to a disk that holds the tables leaves them as they are. *)
Lemma write_tables_same s n b d : good s → synced s → bgdt_size_blocks (data s) + 2 <= n → in_disk s n → blen b = bs s →
  disk d = patch (n * bs s) b (image s) → working d →
  good (with_dev d s) ∧ slice 1024 1024 (disk d) = superblock_data (data s) ∧
  ∀ k, 0 <= k < bgdt_size_blocks (data s) → in_disk (with_dev d s) (k + 2) ∧ blk (with_dev d s) (k + 2) = bgdt_part s k.
Proof.
  intros Hg Hy Hn Hin Hb Hd Hw. assert (blen (disk d) = blen (image s)) as Hl by (rewrite Hd; by apply patch_block_length).
  pose proof (g_bs _ Hg). destruct (block_addr s n Hg Hin) as (_ & H0 & H1).
  assert (0 <= bgdt_size_blocks (data s)). { pose proof (g_bgdt _ Hg). unfold blen in *. nia. }
  split; [by apply good_with_dev|]. split.
  - rewrite Hd, <- (y_sb _ Hy). pose proof (g_size _ Hg). apply slice_patch_other; try lia. left. nia.
  - intros k Hk. destruct (y_part _ Hy k Hk) as (Hik & Hbk). split; [unfold in_disk in *; cbn; by rewrite Hl|].
    rewrite (blk_patch s d n b (k + 2)) by done. rewrite decide_False by lia. done.
Qed.

Lemma block_alloc_in_ok s i n j :
  good s → synced s → group_no s i → 0 <= j → j + Z.of_nat n <= sb s block_group_block_count →
  let b := blk s (bgd s i block_bitmap_no) in
  ((∀ m, j <= m < j + Z.of_nat n → bit m b = true) ∧ block_alloc_in n i j b s = Some (None, s)) ∨
  ∃ k b' s', j <= k < j + Z.of_nat n ∧ bit k b = false ∧ (∀ m, j <= m < k → bit m b = true) ∧
    block_alloc_in n i j b s = Some (Some (i * sb s block_group_block_count + k + 1), s') ∧
    marked k b b' ∧ wrote s (bgd s i block_bitmap_no) b' s'.
Proof.
  intros Hg Hy Hi Hj Hn b. set (no := bgd s i block_bitmap_no) in *. destruct (y_bitmap _ Hy i Hi) as (Hno & Hin). fold no in Hno, Hin.
  pose proof (blk_length s no Hg Hin) as Hbl. fold b in Hbl. pose proof (blk_bytes s no Hg) as Hby. fold b in Hby.
  pose proof (g_bs _ Hg). pose proof (g_bs8 _ Hg) as H8. pose proof (y_bits _ Hy) as Hbits.
  revert j Hj Hn. induction n as [|n IH]; intros j Hj Hn; [left; split; [lia|done]|].
  assert (bitmap_used j b = Some (bit j b)) as Hu by (apply bitmap_used_ok; rewrite ?Hbl; lia).
  cbn [block_alloc_in]. rewrite (bind_run _ _ s (bit j b) s) by (unfold lift; by rewrite Hu).
  destruct (bit j b) eqn:Hbit.
  - destruct (IH (j + 1) ltac:(lia) ltac:(lia)) as [(Hall & Hrun)|(k & b' & s' & Hk & Hk0 & Hbef & Hrun & Hm & Hw)].
    + left. split; [|done]. intros m Hm. destruct (decide (m = j)) as [->|]; [done|]. apply Hall. lia.
    + right. exists k, b', s'. split; [lia|]. split; [done|]. split; [|done].
      intros m Hm'. destruct (decide (m = j)) as [->|]; [done|]. apply Hbef. lia.
  - right. destruct (bitmap_set_ok j b ltac:(lia) ltac:(by rewrite Hbl) Hby) as (b' & Hset & Hl' & Hby' & Hbit').
    destruct (block_write_ok s b' no Hg Hin ltac:(lia) Hby') as (d1 & Hw1 & Hd1 & Hk1).
    destruct (write_tables_same s no b' d1 Hg Hy Hno Hin ltac:(lia) Hd1 Hk1) as (Hg1 & Hsb1 & Hpart1).
    pose proof (part_no_range s i Hg Hi) as Hp. destruct (Hpart1 _ Hp) as (Hin2 & Hblk2).
    destruct (write_bgdt_ok (with_dev d1 s) i (part_no s i + 2) Hg1 Hi Hin2) as (d2 & Hw2 & Hd2 & Hk2).
    assert (disk d2 = disk d1) as E2.
    { rewrite Hd2. destruct (block_addr _ _ Hg1 Hin2) as (_ & B0 & B1). apply patch_same; [done| |].
      - rewrite bgdt_part_length by (done || by apply part_no_range). done.
      - rewrite bgdt_part_length by (done || by apply part_no_range). exact Hblk2. }
    assert (good (with_dev d2 s)) as Hg2. { apply good_with_dev; [done..|]. rewrite E2, Hd1. apply patch_block_length; lia || done. }
    destruct (write_back_ok (with_dev d2 s) Hg2) as (d3 & Hw3 & Hd3 & Hk3).
    assert (disk d3 = disk d1) as E3.
    { rewrite Hd3. cbn [dev with_dev data]. rewrite E2. rewrite (patch_same 1024); [done|lia| |]; rewrite (g_sb _ Hg); [|done].
      rewrite Hd1, patch_block_length by (lia || done). pose proof (g_size _ Hg). lia. }
    exists j, b', (with_dev d3 s). split; [lia|]. split; [done|]. split; [lia|]. split.
    + rewrite (bind_run _ _ s b' s) by (unfold lift; by rewrite Hset).
      rewrite (bind_run _ _ _ _ _ (get_bgd_ok s i block_bitmap_no Hg Hi ltac:(done) ltac:(done))). fold no.
      rewrite (bind_run _ _ _ _ _ Hw1). rewrite (bind_run get_data _ (with_dev d1 s) (data s) (with_dev d1 s)) by done.
      rewrite (bind_run _ _ _ _ _ Hw2), (bind_run _ _ _ _ _ Hw3).
      rewrite (bind_run _ _ (with_dev d3 s) (sb s block_group_block_count) (with_dev d3 s)).
      2:{ apply (get_sb_ok (with_dev d3 s)); [|done..]. apply good_with_dev; [done..|]. rewrite E3, Hd1. apply patch_block_length; lia || done. }
      unfold mret, ST_ret. do 3 f_equal. apply wrap64_small. unfold is_u64, group_no in *. pose proof (y_small _ Hy).
      assert (sb s block_group_block_count < 2 ^ 32).
      { unfold sb. pose proof (le_val_range _ (slice_bytes (f_off block_group_block_count) (Z.of_nat (f_size block_group_block_count)) _ (g_sb_bytes _ Hg))) as Hr.
        rewrite slice_length in Hr; [exact (proj2 Hr)|done|done|]. rewrite (g_sb _ Hg). done. }
      nia.
    + split; [split; [done|split; [done|by rewrite Hbl in *]]|]. exists d3. split; [done|]. split; [done|]. by rewrite E3.
Qed.

(** Reading changes nothing but the state of the device. *)
Definition peeked s s' : Prop := ∃ d, s' = with_dev d s ∧ working d ∧ disk d = image s.

Lemma peeked_good s s' : peeked s s' → good s → good s'.
Proof. intros (d & -> & Hw & Hd) Hg. apply good_with_dev; [done..|]. by rewrite Hd. Qed.

Lemma peeked_synced s s' : peeked s s' → synced s → synced s'.
Proof. intros (d & -> & Hw & Hd) [Y1 Y2 Y3 Y4 Y5]. unfold in_disk, blk in *. split; unfold in_disk, blk; cbn; rewrite ?Hd; done. Qed.

Lemma peeked_refl s : good s → peeked s s.
Proof. intros Hg. exists (dev s). split; [by destruct s|]. split; [apply Hg|done]. Qed.

Lemma peeked_trans s1 s2 s3 : peeked s1 s2 → peeked s2 s3 → peeked s1 s3.
Proof. intros (d & -> & Hw & Hd) (e & -> & Hv & He). exists e. split; [done|]. split; [done|]. by rewrite He. Qed.

Lemma peeked_wrote s1 s2 s3 n b : peeked s1 s2 → wrote s2 n b s3 → wrote s1 n b s3.
Proof. intros (d & -> & Hw & Hd) (e & -> & Hv & He). exists e. split; [done|]. split; [done|]. rewrite He. cbn. by rewrite Hd. Qed.

Lemma peeked_blk s s' n : peeked s s' → blk s' n = blk s n.
Proof. intros (d & -> & Hw & Hd). unfold blk. cbn. by rewrite Hd. Qed.

Lemma peeked_data s s' : peeked s s' → data s' = data s.
Proof. by intros (d & -> & _). Qed.

(** Whether block [j] of group [i] is taken, as far as the search is concerned. *)
Definition taken s (i j : Z) : Prop := bgd s i free_block_count = 0 ∨ bit j (blk s (bgd s i block_bitmap_no)) = true.

Abbreviation bits_of s := (sb s block_group_block_count).

Definition alloc_outcome s (i0 : Z) (n : nat) (r : option (result Z * ext2 D)) : Prop :=
  (∃ s', r = Some (Err ERROR_NO_ENTRY, s') ∧ peeked s s' ∧ ∀ i j, i0 <= i < i0 + Z.of_nat n → 0 <= j < bits_of s → taken s i j) ∨
  ∃ i j b' s', i0 <= i < i0 + Z.of_nat n ∧ 0 <= j < bits_of s ∧ ¬ taken s i j ∧
    (∀ i' j', i0 <= i' → 0 <= j' < bits_of s → i' < i ∨ i' = i ∧ j' < j → taken s i' j') ∧
    r = Some (Ok (i * bits_of s + j + 1), s') ∧
    marked j (blk s (bgd s i block_bitmap_no)) b' ∧ wrote s (bgd s i block_bitmap_no) b' s'.

(** The search, going on with the next group. *)
Lemma alloc_outcome_next s s1 i n r :
  peeked s s1 → (∀ j, 0 <= j < bits_of s → taken s i j) → alloc_outcome s1 (i + 1) n r → alloc_outcome s i (S n) r.
Proof.
  intros Hp Hi Ho. pose proof (peeked_data s s1 Hp) as Hd.
  assert (∀ i j, taken s1 i j ↔ taken s i j) as Ht by (intros; unfold taken, bgd; rewrite !Hd, (peeked_blk s s1 _ Hp); done).
  assert (bits_of s1 = bits_of s) as Hb by (unfold sb; by rewrite Hd).
  destruct Ho as [(s' & -> & Hp' & Hall)|(k & j & b' & s' & Hk & Hj & Hnt & Hbef & -> & Hm & Hw)].
  - left. exists s'. split; [done|]. split; [by eapply peeked_trans|]. intros i' j Hi' Hj.
    destruct (decide (i' = i)) as [->|]; [by apply Hi|]. apply Ht, Hall; [lia|by rewrite Hb].
  - right. assert (bgd s1 k block_bitmap_no = bgd s k block_bitmap_no) as En by (unfold bgd; by rewrite Hd). rewrite Hb, En in *.
    exists k, j, b', s'. split; [lia|]. split; [done|]. split; [by rewrite <- Ht|]. split.
    + intros i' j' Hi' Hj' Hlt. destruct (decide (i' = i)) as [->|]; [by apply Hi|]. apply Ht, Hbef; lia.
    + rewrite (peeked_blk s s1 _ Hp) in Hm. split; [done|]. split; [done|]. by eapply peeked_wrote.
Qed.

Lemma block_alloc_groups_ok n i s :
  good s → synced s → 0 <= i → i + Z.of_nat n <= bgdt_entry_count (data s) → alloc_outcome s i n (block_alloc_groups n i s).
Proof.
  revert i s. induction n as [|n IH]; intros i s Hg Hy Hi Hn.
  { left. exists s. split; [done|]. split; [by apply peeked_refl|]. lia. }
  assert (group_no s i) as Hgi by (unfold group_no; lia). cbn [block_alloc_groups].
  rewrite (bind_run _ _ _ _ _ (get_bgd_ok s i free_block_count Hg Hgi ltac:(done) ltac:(done))).
  destruct (Z.eqb_spec (bgd s i free_block_count) 0) as [E0|E0].
  { apply (alloc_outcome_next s s i n); [by apply peeked_refl|by left|]. apply IH; lia || done. }
  rewrite (bind_run _ _ _ _ _ (get_bgd_ok s i block_bitmap_no Hg Hgi ltac:(done) ltac:(done))).
  destruct (y_bitmap _ Hy i Hgi) as (Hno & Hin). destruct (block_read_ok s _ Hg Hin) as (d & Hr & Hd & Hw).
  rewrite (rbind_run _ _ _ _ _ Hr). set (s1 := with_dev d s).
  assert (peeked s s1) as Hp by by exists d. pose proof (peeked_good _ _ Hp Hg) as Hg1. pose proof (peeked_synced _ _ Hp Hy) as Hy1.
  pose proof (y_bits _ Hy) as Hbits.
  rewrite (bind_run _ _ s1 (bits_of s) s1) by (apply (get_sb_ok s1); done).
  pose proof (block_alloc_in_ok s1 i (Z.to_nat (bits_of s)) 0 Hg1 Hy1 Hgi ltac:(lia)) as Hin1. cbv zeta in Hin1.
  change (bgd s1) with (bgd s) in Hin1. change (sb s1) with (sb s) in Hin1. rewrite (peeked_blk s s1 _ Hp) in Hin1.
  rewrite Z2Nat.id in Hin1 by lia.
  destruct (Hin1 ltac:(lia)) as [(Hall & Hrun)|(k & b' & s' & Hk & Hk0 & Hbef & Hrun & Hm & Hwr)]; rewrite (bind_run _ _ _ _ _ Hrun).
  - apply (alloc_outcome_next s s1 i n); [done| |].
    + intros j Hj. right. apply Hall. lia.
    + apply IH; done || (cbn; lia).
  - right. exists i, k, b', s'. split; [lia|]. split; [lia|]. split; [intros [?|?]; congruence|]. split.
    + intros i' j' Hi' Hj' [?|(-> & ?)]; [lia|]. right. apply Hbef. lia.
    + split; [done|]. split; [done|]. by eapply peeked_wrote.
Qed.

Lemma block_alloc_ok s : good s → synced s → news s = [] → 0 <= bgdt_entry_count (data s) →
  alloc_outcome s 0 (Z.to_nat (bgdt_entry_count (data s))) (ext2_block_alloc s).
Proof.
  intros Hg Hy Hn H0. unfold ext2_block_alloc. rewrite (bind_run _ _ s true s) by (unfold new_buffer; by rewrite Hn). cbn [negb].
  rewrite (bind_run get_data _ s (data s) s) by done. apply block_alloc_groups_ok; done || lia.
Qed.

(** ** Changing a descriptor in memory *)

Definition with_data (x : ext2_data) s : ext2 D := Ext2 (dev s) x (inodes s) (heap s) (news s) (clock s).

Lemma set_bgd_ok s i f v : good s → group_no s i → 0 <= f_off f → f_off f + Z.of_nat (f_size f) <= BGD_SIZE →
  ∃ b, set_bgd i f v s = Some (tt, with_data (set_bgdt b (data s)) s) ∧ good (with_data (set_bgdt b (data s)) s) ∧
    le_val (slice (i * BGD_SIZE + f_off f) (Z.of_nat (f_size f)) b) = v mod 2 ^ (8 * Z.of_nat (f_size f)) ∧
    ∀ k g, (k ≠ i ∨ f_off g + Z.of_nat (f_size g) <= f_off f ∨ f_off f + Z.of_nat (f_size f) <= f_off g) → group_no s k →
      0 <= f_off g → f_off g + Z.of_nat (f_size g) <= BGD_SIZE →
      le_val (slice (k * BGD_SIZE + f_off g) (Z.of_nat (f_size g)) b) = bgd s k g.
Proof.
  intros Hg Hi H0 H1. pose proof (bgd_within s i f Hg Hi H0 H1) as Hw. pose proof (store_some (f_size f) _ v _ Hw) as Hs.
  set (b := patch (i * BGD_SIZE + f_off f) (le_bytes (f_size f) v) (bgdt (data s))) in *. exists b. pose proof (store_length _ _ _ _ _ Hs) as Hl.
  split. { unfold set_bgd. rewrite (bind_run get_data _ s (data s) s) by done. rewrite (bind_run _ _ s b s); [done|]. unfold lift. by rewrite Hs. }
  split. { destruct Hg. split; try done; cbn; rewrite ?Hl; try done. by apply store_bytes in Hs. }
  apply within_spec in Hw. split.
  - unfold b. pose proof (slice_patch (i * BGD_SIZE + f_off f) (le_bytes (f_size f) v) (bgdt (data s))) as Hp. rewrite le_bytes_blen in Hp.
    rewrite Hp by lia. apply le_val_bytes.
  - intros k g Hor Hk G0 G1. pose proof (bgd_within s k g Hg Hk G0 G1) as Hwk%within_spec. unfold b, bgd, BGD_SIZE in *.
    rewrite slice_patch_other; rewrite ?le_bytes_blen; done || lia.
Qed.

(** ** Inodes on the disk *)

Definition isz s : Z := if sb s version_major =? 0 then EXT2_VERSION0_INODE_SIZE else sb s inode_size.
Definition igroup s (inum : Z) : Z := (inum - 1) / sb s block_group_inode_count.
Definition iindex s (inum : Z) : Z := (inum - 1) mod sb s block_group_inode_count.
Definition iblock s (inum : Z) : Z := bgd s (igroup s inum) inode_table_no + iindex s inum / inodes_per_block (data s).
Definition ioff s (inum : Z) : Z := iindex s inum mod inodes_per_block (data s) * isz s.
Definition inum_ok s (inum : Z) : Prop := 1 <= inum < sb s inode_count.
Definition stored_inode s (inum : Z) : buffer := slice (ioff s inum) (isz s) (blk s (iblock s inum)).

(** The inodes have room in their blocks, and the tables of the groups do not overlap. *)
Record tables_ok s : Prop := {
  t_ipb : 0 < inodes_per_block (data s);
  t_fit : inodes_per_block (data s) * isz s <= bs s;
  t_isz : INODE_BYTES <= isz s;
  t_count : 0 < sb s block_group_inode_count;
  t_group inum : inum_ok s inum → group_no s (igroup s inum) ∧ in_disk s (iblock s inum);
  t_apart a b : inum_ok s a → inum_ok s b → igroup s a ≠ igroup s b → iblock s a ≠ iblock s b;
}.

Lemma tables_same s s' : data s' = data s → (∀ m, in_disk s m → in_disk s' m) → tables_ok s → tables_ok s'.
Proof.
  intros Ed Hd [T1 T2 T3 T4 T5 T6].
  assert (∀ f, sb s' f = sb s f) as Es by (intros; unfold sb; by rewrite Ed).
  assert (isz s' = isz s) as Ei by (unfold isz; by rewrite !Es).
  assert (∀ i, igroup s' i = igroup s i) as Eg by (intros; unfold igroup; by rewrite Es).
  assert (∀ i, iblock s' i = iblock s i) as Eb by (intros; unfold iblock, bgd, iindex; by rewrite Eg, Es, Ed).
  assert (∀ i, inum_ok s' i → inum_ok s i) as En by (intros; unfold inum_ok in *; by rewrite <- Es).
  split; rewrite ?Ei, ?Es, ?Ed; try done.
  - intros i Hi. destruct (T5 i (En i Hi)) as (? & ?). unfold group_no. rewrite Eg, Eb, Ed. split; [done|by apply Hd].
  - intros a b Ha Hb. rewrite !Eg, !Eb. by apply T6; apply En.
Qed.

Lemma sb_range s f : good s → 0 <= f_off f → f_off f + Z.of_nat (f_size f) <= 1024 → 0 <= sb s f < 2 ^ (8 * Z.of_nat (f_size f)).
Proof.
  intros Hg H0 H1. unfold sb. pose proof (le_val_range _ (slice_bytes (f_off f) (Z.of_nat (f_size f)) _ (g_sb_bytes _ Hg))) as Hr.
  by rewrite slice_length in Hr by (rewrite ?(g_sb _ Hg); lia).
Qed.

Lemma get_inode_size_ok s : good s → get_inode_size s = Some (isz s, s).
Proof.
  intros Hg. unfold get_inode_size, isz. rewrite (bind_run _ _ _ _ _ (get_sb_ok s version_major Hg ltac:(done) ltac:(done))).
  destruct (sb s version_major =? 0); [done|]. by apply get_sb_ok.
Qed.

Lemma ioff_range s inum : good s → tables_ok s → 0 <= ioff s inum ∧ ioff s inum + isz s <= bs s.
Proof.
  intros Hg Ht. pose proof (t_ipb _ Ht). pose proof (t_fit _ Ht). pose proof (t_isz _ Ht). unfold ioff, INODE_BYTES in *.
  pose proof (Z.mod_pos_bound (iindex s inum) _ (t_ipb _ Ht)). nia.
Qed.

Lemma inode_place_ok s inum : good s → tables_ok s → inum_ok s inum → inode_place inum s = Some (Ok (iblock s inum, ioff s inum), s).
Proof.
  intros Hg Ht Hi. destruct (t_group _ Ht inum Hi) as (Hgr & Hin). pose proof (t_ipb _ Ht). pose proof (t_count _ Ht).
  destruct (ioff_range s inum Hg Ht) as (Ho1 & Ho2). pose proof (t_isz _ Ht). unfold inum_ok, INODE_BYTES in *.
  pose proof (sb_range s inode_count Hg ltac:(done) ltac:(done)) as Hr. change (2 ^ (8 * Z.of_nat (f_size inode_count))) with (2 ^ 32) in Hr.
  unfold inode_place. rewrite (bind_run get_data _ s (data s) s) by done.
  rewrite (bind_run _ _ _ _ _ (get_sb_ok s inode_count Hg ltac:(done) ltac:(done))). unfold EXT2_FIRST_INODE_NUMBER.
  rewrite (proj2 (Z.ltb_ge inum 1)), (proj2 (Z.leb_gt (sb s inode_count) inum)) by lia. cbn [orb].
  rewrite (bind_run _ _ _ _ _ (get_sb_ok s block_group_inode_count Hg ltac:(done) ltac:(done))).
  rewrite (bind_run _ _ s tt s) by (apply kassert_true; rewrite (proj2 (Z.eqb_neq _ 0)), (proj2 (Z.eqb_neq _ 0)) by lia; done).
  unfold EXT2_INODE_GET_BLOCK_GROUP, EXT2_INODE_INDEX_IN_BLOCK_GROUP, EXT2_FIRST_INODE_NUMBER. rewrite !(Z.mod_small (inum - 1) (2 ^ 32)) by lia.
  fold (igroup s inum) (iindex s inum). rewrite (bind_run _ _ _ _ _ (get_bgd_ok s (igroup s inum) inode_table_no Hg Hgr ltac:(done) ltac:(done))).
  rewrite (bind_run _ _ _ _ _ (get_inode_size_ok s Hg)). fold (ioff s inum). pose proof (g_size _ Hg). destruct (block_addr s _ Hg Hin) as (_ & B0 & B1).
  pose proof (g_bs _ Hg). assert (iblock s inum < 2 ^ 64) by nia.
  rewrite (wrap64_small (ioff s inum)) by (unfold is_u64; lia). rewrite (proj2 (Z.leb_gt _ _)) by lia.
  fold (iblock s inum). rewrite (wrap64_small (iblock s inum)); [done|]. unfold is_u64, in_disk in *. lia.
Qed.

(** Two inodes are in different places. *)
Lemma places_apart s a b : good s → tables_ok s → inum_ok s a → inum_ok s b → a ≠ b →
  iblock s a ≠ iblock s b ∨ ioff s a + isz s <= ioff s b ∨ ioff s b + isz s <= ioff s a.
Proof.
  intros Hg Ht Ha Hb Hne. destruct (decide (igroup s a = igroup s b)) as [Eg|Eg]; [|left; by apply t_apart].
  destruct (decide (iblock s a = iblock s b)) as [Eb|]; [right|by left]. pose proof (t_ipb _ Ht) as Hp. pose proof (t_count _ Ht). pose proof (t_isz _ Ht).
  assert (iindex s a ≠ iindex s b) as Hi.
  { intros Ei. apply Hne. pose proof (Z.div_mod (a - 1) (sb s block_group_inode_count) ltac:(lia)) as Ea.
    pose proof (Z.div_mod (b - 1) (sb s block_group_inode_count) ltac:(lia)) as Ebb. unfold igroup, iindex in *. rewrite Eg, Ei in Ea. lia. }
  assert (iindex s a / inodes_per_block (data s) = iindex s b / inodes_per_block (data s)) as Eq by (unfold iblock in Eb; rewrite Eg in Eb; lia).
  assert (iindex s a mod inodes_per_block (data s) ≠ iindex s b mod inodes_per_block (data s)) as Hm.
  { intros Em. apply Hi. rewrite (Z.div_mod (iindex s a) (inodes_per_block (data s))), (Z.div_mod (iindex s b) (inodes_per_block (data s))) by lia.
    by rewrite Eq, Em. }
  unfold ioff, INODE_BYTES in *. destruct (blocks_apart (iindex s a mod inodes_per_block (data s)) (iindex s b mod inodes_per_block (data s)) (isz s)) as [?|?]; lia.
Qed.

(** The state after [p] was set to [b] and the time read. *)
Definition stamped (next_time : Z → Z) (p : loc) (b : buffer) s : ext2 D :=
  Ext2 (dev s) (data s) (<[p := b]> (inodes s)) (heap s) (news s) (next_time (clock s)).

Lemma field_within f b : 0 <= f_off f → f_off f + Z.of_nat (f_size f) <= blen b → within (f_off f) (Z.of_nat (f_size f)) b = true.
Proof. intros. apply within_spec. lia. Qed.

Lemma set_field_ok s p f v b : inodes s !! p = Some b → 0 <= f_off f → f_off f + Z.of_nat (f_size f) <= blen b →
  set_field p f v s = Some (tt, Ext2 (dev s) (data s) (<[p := patch (f_off f) (le_bytes (f_size f) v) b]> (inodes s)) (heap s) (news s) (clock s)).
Proof.
  intros Hp H0 H1. unfold set_field. rewrite (bind_run _ _ s b s) by (unfold get_inode, lift; by rewrite Hp).
  rewrite (bind_run _ _ s (patch (f_off f) (le_bytes (f_size f) v) b) s); [done|].
  unfold lift, fset. by rewrite store_some by by apply field_within.
Qed.

Definition touch (t : Z) (b : buffer) : buffer := patch (f_off atime) (le_bytes (f_size atime) t) b.

Lemma touch_length t b : INODE_BYTES <= blen b → blen (touch t b) = blen b.
Proof. unfold INODE_BYTES. intros H. apply patch_length; [done|]. rewrite le_bytes_blen. cbn. lia. Qed.

Lemma inode_write_ok next_time s inum p b :
  good s → tables_ok s → inum_ok s inum → news s = [] → inodes s !! p = Some b → isz s <= blen b → Forall is_byte b →
  let b' := touch (clock s) b in
  ∃ d, ext2_inode_write next_time inum p s = Some (Ok tt, with_dev d (stamped next_time p b' s)) ∧ working d ∧
    disk d = patch (iblock s inum * bs s) (patch (ioff s inum) (slice 0 (isz s) b') (blk s (iblock s inum))) (image s).
Proof.
  intros Hg Ht Hi Hn Hp Hl Hby b'. pose proof (t_isz _ Ht) as H120. destruct (t_group _ Ht inum Hi) as (Hgr & Hin).
  destruct (ioff_range s inum Hg Ht) as (Ho1 & Ho2). assert (0 <= isz s) as H0 by (unfold INODE_BYTES in *; lia).
  assert (blen b' = blen b) as Hb' by (apply touch_length; unfold INODE_BYTES in *; lia).
  set (s1 := stamped next_time p b' s). assert (good s1) as Hg1 by (destruct Hg; by split).
  assert (tables_ok s1) as Ht1 by (destruct Ht; by split).
  destruct (block_read_ok s1 (iblock s inum) Hg1 Hin) as (d1 & Hr & Hd1 & Hk1). change (blk s1) with (blk s) in Hr.
  assert (good (with_dev d1 s1)) as Hg2 by (apply good_with_dev; [done..|by rewrite Hd1]).
  assert (in_disk (with_dev d1 s1) (iblock s inum)) as Hin2 by (unfold in_disk in *; cbn; by rewrite Hd1).
  pose proof (blk_length s _ Hg Hin) as Hbl. pose proof (slice_length 0 (isz s) b' ltac:(lia) ltac:(lia) ltac:(lia)) as Hsl.
  set (new := patch (ioff s inum) (slice 0 (isz s) b') (blk s (iblock s inum))).
  assert (blen new = bs s) as Hnl by (unfold new; rewrite patch_length; lia).
  assert (Forall is_byte new) as Hnb.
  { apply patch_bytes; [|by apply blk_bytes]. apply slice_bytes, patch_bytes; [apply le_bytes_bytes|done]. }
  destruct (block_write_ok (with_dev d1 s1) new (iblock s inum) Hg2 Hin2 Hnl Hnb) as (d2 & Hw & Hd2 & Hk2).
  exists d2. split; [|split; [done|rewrite Hd2; cbn; by rewrite Hd1]].
  unfold ext2_inode_write. rewrite (bind_run _ _ s (clock s) (Ext2 (dev s) (data s) (inodes s) (heap s) (news s) (next_time (clock s)))) by done.
  rewrite (bind_run _ _ _ tt s1) by (apply (set_field_ok (Ext2 _ _ _ _ _ _) p atime (clock s) b Hp); cbn; unfold INODE_BYTES in *; lia).
  rewrite (rbind_run _ _ _ _ _ (inode_place_ok s1 inum Hg1 Ht1 Hi)). rewrite (bind_run _ _ s1 true s1) by (unfold new_buffer; cbn; by rewrite Hn).
  cbn [negb fst snd]. change (iblock s1 inum) with (iblock s inum). change (ioff s1 inum) with (ioff s inum).
  rewrite (rbind_run _ _ _ _ _ Hr). rewrite (bind_run _ _ _ _ _ (get_inode_size_ok (with_dev d1 s1) Hg2)).
  rewrite (bind_run _ _ _ b' (with_dev d1 s1)) by (unfold get_inode, lift; cbn; by rewrite lookup_insert_eq).
  change (isz (with_dev d1 s1)) with (isz s).
  rewrite (bind_run _ _ _ (slice 0 (isz s) b') (with_dev d1 s1)) by (unfold lift; rewrite copy_out_some; [done|apply within_spec; lia]).
  rewrite (bind_run _ _ _ new (with_dev d1 s1)); [exact Hw|]. unfold lift. rewrite copy_in_some; [done|]. apply within_spec. lia.
Qed.

Lemma inode_read_ok s inum q old :
  good s → tables_ok s → inum_ok s inum → news s = [] → inodes s !! q = Some old → blen old = isz s →
  ∃ d, ext2_inode_read inum q s = Some (Ok tt, Ext2 d (data s) (<[q := stored_inode s inum]> (inodes s)) (heap s) (news s) (clock s)) ∧
    working d ∧ disk d = image s.
Proof.
  intros Hg Ht Hi Hn Hq Hl. destruct (t_group _ Ht inum Hi) as (Hgr & Hin). destruct (ioff_range s inum Hg Ht) as (Ho1 & Ho2).
  pose proof (t_isz _ Ht). destruct (block_read_ok s (iblock s inum) Hg Hin) as (d & Hr & Hd & Hk). exists d. split; [|done].
  unfold ext2_inode_read. rewrite (rbind_run _ _ _ _ _ (inode_place_ok s inum Hg Ht Hi)). cbn [fst snd].
  rewrite (bind_run _ _ s true s) by (unfold new_buffer; by rewrite Hn). rewrite (bind_run _ _ s tt s) by done.
  rewrite (rbind_run _ _ _ _ _ Hr). set (s1 := with_dev d s). assert (good s1) as Hg1 by (apply good_with_dev; [done..|by rewrite Hd]).
  rewrite (bind_run _ _ _ _ _ (get_inode_size_ok s1 Hg1)). change (isz s1) with (isz s). pose proof (blk_length s _ Hg Hin) as Hbl.
  unfold INODE_BYTES in *. assert (blen (stored_inode s inum) = isz s) as Hs by (apply slice_length; lia).
  rewrite (bind_run _ _ s1 (stored_inode s inum) s1) by (unfold lift; rewrite copy_out_some; [done|apply within_spec; lia]).
  rewrite (bind_run _ _ s1 old s1) by (unfold get_inode, lift; cbn; by rewrite Hq).
  rewrite (bind_run _ _ s1 (stored_inode s inum) s1); [done|]. unfold lift. rewrite copy_in_some by (apply within_spec; lia).
  by rewrite patch_all by lia.
Qed.

Lemma set_free_inode_count_ok s f : good s →
  ∃ b, set_free_inode_count f s = Some (tt, with_data (set_superblock b (data s)) s) ∧ good (with_data (set_superblock b (data s)) s).
Proof.
  intros Hg. pose proof (g_sb _ Hg) as Hl. unfold set_free_inode_count. rewrite (bind_run get_data _ s (data s) s) by done.
  rewrite (bind_run _ _ _ _ _ (get_sb_ok s sb_free_inode_count Hg ltac:(done) ltac:(done))).
  assert (within (f_off sb_free_inode_count) (Z.of_nat (f_size sb_free_inode_count)) (superblock_data (data s)) = true) as Hw by (apply field_within; rewrite ?Hl; done).
  pose proof (store_some _ _ (f (sb s sb_free_inode_count)) _ Hw) as Hs. set (b := patch _ _ (superblock_data (data s))) in *. exists b.
  rewrite (bind_run _ _ s b s) by (unfold lift, fset; by rewrite Hs). split; [done|].
  pose proof (store_length _ _ _ _ _ Hs) as Hbl. apply store_bytes in Hs; [|apply Hg]. destruct Hg. split; try done. cbn. by rewrite Hbl.
Qed.

(** After the super block is changed and written back. *)
Lemma write_back_blocks s f : good s →
  ∃ s1 s', set_free_inode_count f s = Some (tt, s1) ∧ superblock_write_back s1 = Some (Ok tt, s') ∧
    (∀ m, 2 <= m → in_disk s m → blk s' m = blk s m) ∧ bgdt (data s') = bgdt (data s) ∧ bs s' = bs s.
Proof.
  intros Hg. destruct (set_free_inode_count_ok s f Hg) as (b & Hs & Hg1). set (s1 := with_data _ s) in *.
  destruct (write_back_ok s1 Hg1) as (d & Hw & Hd & Hk). exists s1, (with_dev d s1). split; [done|]. split; [done|]. split; [|done].
  intros m H2 Hm. exact (blk_write_back s1 d m Hg1 Hd H2 Hm).
Qed.

(** Two fields of a descriptor changed, and its part of the table written to block [n]. *)
Lemma counts_written s i v w n : good s → group_no s i → in_disk s n →
  ∃ s1 s2 s3, set_bgd i free_inode_count v s = Some (tt, s1) ∧ get_bgd i directory_count s1 = Some (bgd s i directory_count, s1) ∧
    set_bgd i directory_count w s1 = Some (tt, s2) ∧ bs s2 = bs s ∧ write_bgdt_block i n s2 = Some (Ok tt, s3) ∧ good s3 ∧
    (∀ m, in_disk s m → in_disk s3 m) ∧ bs s3 = bs s ∧ superblock_data (data s3) = superblock_data (data s) ∧
    ∀ m, in_disk s m → blk s3 m = if decide (m = n) then bgdt_part s3 (part_no s i) else blk s m.
Proof.
  intros Hg Hi Hn. destruct (set_bgd_ok s i free_inode_count v Hg Hi ltac:(done) ltac:(done)) as (t1 & H1 & Hg1 & _ & Ho1).
  set (s1 := with_data (set_bgdt t1 (data s)) s) in *.
  destruct (set_bgd_ok s1 i directory_count w Hg1 Hi ltac:(done) ltac:(done)) as (t2 & H2 & Hg2 & _).
  set (s2 := with_data (set_bgdt t2 (data s1)) s1) in *. destruct (write_bgdt_ok s2 i n Hg2 Hi Hn) as (d & H3 & Hd & Hk).
  pose proof (part_no_range s2 i Hg2 Hi) as Hp. pose proof (bgdt_part_length s2 _ Hg2 Hp) as Hpl.
  assert (blen (disk d) = blen (image s)) as Hl by (rewrite Hd; by apply (patch_block_length s2)).
  exists s1, s2, (with_dev d s2). split; [done|]. split.
  { rewrite (get_bgd_ok s1 i directory_count Hg1 Hi ltac:(done) ltac:(done)). do 2 f_equal. apply Ho1; try done. right. right. done. }
  split; [done|]. split; [done|]. split; [done|]. split; [by apply good_with_dev|]. split; [intros m Hm; unfold in_disk in *; cbn; by rewrite Hl|].
  split; [done|]. split; [done|]. intros m Hm. exact (blk_patch s2 d n _ m Hg2 Hn Hpl Hd Hm).
Qed.

End disk.
