(* ===== verification/Ext2Example.v ===== *)
(** * A disk in memory, and a small ext2 file system on it

    The interface of the block devices is met by a list of bytes, and the
    assumptions of the theorems about ext2 by a disk of sixteen blocks with one
    block group: the tables in blocks 1 to 8, and a file of two blocks. *)

From S2P Require Import Prelude Types Links Bytes Ext2 Ext2Inv.

(** ** The device *)

Definition ram_read (off len : Z) (d : buffer) : result buffer * buffer :=
  (if within off len d then Ok (slice off len d) else Err ERROR_IO, d).
Definition ram_write (off : Z) (b d : buffer) : result Z * buffer :=
  if within off (blen b) d then (Ok (blen b), patch off b d) else (Err ERROR_IO, d).

#[global, program] Instance ram_disk : BlockDevice buffer := {
  dev_read := ram_read;
  dev_write := ram_write;
  disk d := d;
  working d := Forall is_byte d;
}.
Next Obligation. done. Qed.
Next Obligation.
  intros d off len Hd H1 H2 H3 _ _ _. exists d. unfold ram_read. by rewrite (proj2 (within_spec off len d)) by (split; [done|split; [lia|done]]).
Qed.
Next Obligation.
  intros d off b Hd Hb H1 _ H2 _ _ _. exists (patch off b d). unfold ram_write.
  rewrite (proj2 (within_spec off (blen b) d)) by (unfold blen in *; lia). split; [done|]. split; [done|]. by apply patch_bytes.
Qed.

(** ** The file system *)

Definition filled (n : Z) (fs : list (field * Z)) : buffer :=
  foldr (λ fv b, patch (f_off (fst fv)) (le_bytes (f_size (fst fv)) (snd fv)) b) (replicate (Z.to_nat n) 0) fs.

Definition ex_superblock : buffer := filled 1024
  [(inode_count, 32); (block_count, 16); (block_group_block_count, 16); (block_group_inode_count, 32);
   (sb_free_inode_count, 20); (ext2_signature, EXT2_SIGNATURE); (version_major, 1); (inode_size, 128); (required_features, 2)].
Definition ex_table : buffer := filled 1024
  [(block_bitmap_no, 3); (inode_bitmap_no, 4); (inode_table_no, 5); (free_block_count, 4); (free_inode_count, 20)].
Definition ex_inode : buffer := filled 128
  [(i_mode, 0x81A4); (size_lower, 1500); (direct_blocks 0, 10); (direct_blocks 1, 11)].

(** Directory blocks: the entries [.] and [a], the rest of the block given to
    the second; and four entries of 256 bytes each. *)
Definition ex_entry (off ino size : Z) (c : Z) : list (field * Z) :=
  [(Field 4 off, ino); (Field 2 (off + 4), size); (Field 1 (off + 6), 1); (Field 1 (off + 8), c)].
Definition ex_dir_block : buffer := filled 1024 (ex_entry 0 2 12 46 ++ ex_entry 12 12 1012 97).
Definition ex_full_block : buffer := filled 1024 (ex_entry 0 3 256 98 ++ ex_entry 256 4 256 99 ++ ex_entry 512 5 256 100 ++ ex_entry 768 6 256 101).
Definition ex_dir_inode : buffer := filled 128 [(i_mode, 0x41ED); (size_lower, 1024); (direct_blocks 0, 12)].
Definition ex_dir2_inode : buffer := filled 128 [(i_mode, 0x41ED); (size_lower, 2048); (direct_blocks 0, 14); (direct_blocks 1, 12)].

Definition ex_image : buffer :=
  foldr (λ p b, patch (fst p) (snd p) b) (replicate (Z.to_nat 16384) 0)
    [(1024, ex_superblock); (2048, ex_table); (3072, [0xFF; 0x0F]); (4096, [0xFF; 0x0F]); (6 * 1024 + 384, ex_inode); (10240, [0x61; 0x62; 0x63]);
     (12 * 1024, ex_dir_block); (14 * 1024, ex_full_block)].

Definition ex_inode_at : loc := 0x1000.
Definition ex_dir_at : loc := 0x1100.
Definition ex_dir2_at : loc := 0x1200.
Definition ex_data : ext2_data := Ext2Data ex_superblock 1024 1024 8 4 1 1 ex_table false null null.
Definition ex_ext2 : ext2 buffer := Ext2 ex_image ex_data {[ex_inode_at := ex_inode; ex_dir_at := ex_dir_inode; ex_dir2_at := ex_dir2_inode]} [] [] 7.

Definition bytes_of (b : buffer) : bool := forallb (λ z, (0 <=? z) && (z <? 256)) b.

Lemma bytes_ok b : bytes_of b = true → Forall is_byte b.
Proof.
  unfold bytes_of. rewrite forallb_forall, Forall_forall. intros H z Hz. apply list_elem_of_In in Hz.
  specialize (H z Hz). rewrite andb_true_iff, Z.leb_le, Z.ltb_lt in H. exact H.
Qed.

Lemma ex_sb : sb ex_ext2 inode_count = 32 ∧ sb ex_ext2 block_group_block_count = 16 ∧ sb ex_ext2 block_group_inode_count = 32 ∧ isz ex_ext2 = 128.
Proof. vm_compute. done. Qed.

Lemma ex_bgd : bgd ex_ext2 0 block_bitmap_no = 3 ∧ bgd ex_ext2 0 inode_table_no = 5.
Proof. vm_compute. done. Qed.

Lemma ex_blen : blen ex_image = 16384.
Proof. by vm_compute. Qed.

Lemma ex_in_disk n : 0 <= n < 16 → in_disk ex_ext2 n.
Proof. intros H. unfold in_disk. change (disk (dev ex_ext2)) with ex_image. rewrite ex_blen. change (block_size (data ex_ext2)) with 1024. lia. Qed.

Lemma ex_good : good ex_ext2.
Proof.
  split; [by apply bytes_ok; vm_compute| |by vm_compute..|by apply bytes_ok; vm_compute|by vm_compute|by apply bytes_ok; vm_compute|by vm_compute].
  change (disk (dev ex_ext2)) with ex_image. rewrite ex_blen. lia.
Qed.

Lemma ex_synced : synced ex_ext2.
Proof.
  split; [by vm_compute| | |by vm_compute..].
  - intros k Hk. change (bgdt_size_blocks (data ex_ext2)) with 1 in Hk. assert (k = 0) as -> by lia.
    split; [by apply ex_in_disk|by vm_compute].
  - intros i Hi. unfold group_no in Hi. change (bgdt_entry_count (data ex_ext2)) with 1 in Hi. assert (i = 0) as -> by lia.
    rewrite (proj1 ex_bgd). split; [by vm_compute|by apply ex_in_disk].
Qed.

Lemma ex_places inum : inum_ok ex_ext2 inum → igroup ex_ext2 inum = 0 ∧ iblock ex_ext2 inum = 5 + (inum - 1) / 8.
Proof.
  destruct ex_sb as (E1 & _ & E3 & _). unfold inum_ok, iblock, iindex, igroup. rewrite E1, E3. intros H.
  rewrite Z.div_small, Z.mod_small by lia. rewrite (proj2 ex_bgd). done.
Qed.

Lemma ex_tables : tables_ok ex_ext2.
Proof.
  destruct ex_sb as (E1 & _ & E3 & E4). split; [by vm_compute|by rewrite E4|by rewrite E4|by rewrite E3| |].
  - intros inum H. destruct (ex_places inum H) as (-> & ->). split; [by vm_compute|]. apply ex_in_disk. unfold inum_ok in H.
    rewrite E1 in H. pose proof (Z.div_lt_upper_bound (inum - 1) 8 4 ltac:(lia) ltac:(lia)). pose proof (Z.div_pos (inum - 1) 8 ltac:(lia) ltac:(lia)). lia.
  - intros a b Ha Hb. by rewrite (proj1 (ex_places a Ha)), (proj1 (ex_places b Hb)).
Qed.
