(* ===== verification/Ext2Theorems.v ===== *)
(** * Theorems about the blocks and inodes of ext2 *)

From S2P Require Import Prelude Types Links Bytes Ext2 Ext2Inv Ext2Example.

Section theorems.
Context {D : Type} `{!BlockDevice D} (next_time : Z → Z).
Implicit Types s : ext2 D.

(** C34: [ext2_block_alloc] on a working disk that is in step with the memory:
    it returns the first block, in the order of groups and bits, whose group
    claims to have free blocks and whose bit is clear, sets that bit in the
    group's bitmap and changes nothing else on the disk; or, when every such
    bit is set, reports that there is no block and changes nothing.  The block
    number it returns counts from 1 in every block size. *)
Theorem block_alloc_first s : good s → synced s → news s = [] → 0 <= bgdt_entry_count (data s) →
  alloc_outcome s 0 (Z.to_nat (bgdt_entry_count (data s))) (ext2_block_alloc s).
Proof. apply block_alloc_ok. Qed.

(** The bitmap [b'] is [b] with bit [k] cleared. *)
Definition unmarked (k : Z) (b b' : buffer) : Prop :=
  blen b' = blen b ∧ ∀ m, 0 <= m < 8 * blen b → bit m b' = negb (m =? k) && bit m b.

(** [ext2_block_free] clears the bit of the block, but writes the table of
    descriptors two blocks after the group's bitmap - where the group's inode
    table begins in a file system made by mke2fs - and not where the table
    belongs, which keeps its old contents. *)
Theorem block_free_clobbers s block :
  let count := sb s block_group_block_count in
  let group := (block - 1) / count in
  let no := bgd s group block_bitmap_no in
  good s → synced s → news s = [] → 0 < block < 2 ^ 32 → group_no s group → no + 2 < 2 ^ 32 → in_disk s (no + 2) →
  ∃ s', ext2_block_free block s = Some (Ok tt, s') ∧
    unmarked ((block - 1) mod count) (blk s no) (blk s' no) ∧
    blk s' (no + 2) = bgdt_part s' (part_no s group) ∧
    bgd s' group free_block_count = (bgd s group free_block_count + 1) mod 2 ^ 16 ∧
    blk s' (part_no s group + 2) = bgdt_part s (part_no s group).
Proof.
  intros count group no Hg Hy Hn Hb Hgr Hno Hin2. destruct (y_bitmap _ Hy _ Hgr) as (Hge & Hin). fold no in Hge, Hin.
  pose proof (y_bits _ Hy) as Hbits. fold count in Hbits. pose proof (Z.mod_pos_bound (block - 1) count ltac:(lia)) as Hidx.
  pose proof (blk_length s no Hg Hin) as Hbl. pose proof (g_bs8 _ Hg) as H8. pose proof (part_no_range s group Hg Hgr) as Hpart.
  destruct (block_read_ok s no Hg Hin) as (d0 & Hr & Hd0 & Hk0). assert (peeked s (with_dev d0 s)) as Hp0 by by exists d0.
  pose proof (peeked_good _ _ Hp0 Hg) as Hg0. pose proof (peeked_synced _ _ Hp0 Hy) as Hy0.
  assert (0 <= (block - 1) mod count < 8 * blen (blk s no)) as Hix.
  { rewrite Hbl. revert Hidx Hbits. generalize ((block - 1) mod count) as m. intros m. lia. }
  destruct (bitmap_unset_ok ((block - 1) mod count) (blk s no) Hix ltac:(by rewrite Hbl) (blk_bytes s no Hg)) as (b & Hun & Hbl' & Hbb & Hbits').
  assert (in_disk (with_dev d0 s) no) as Hin0 by (unfold in_disk in *; cbn; by rewrite Hd0).
  destruct (block_write_ok (with_dev d0 s) b no Hg0 Hin0 ltac:(cbn; lia) Hbb) as (d1 & Hw1 & Hd1 & Hk1).
  destruct (write_tables_same (with_dev d0 s) no b d1 Hg0 Hy0 Hge Hin0 ltac:(cbn; lia) Hd1 Hk1) as (Hg1 & _ & Hparts).
  change (with_dev d1 (with_dev d0 s)) with (with_dev d1 s) in *.
  destruct (set_bgd_ok (with_dev d1 s) group free_block_count (bgd s group free_block_count + 1) Hg1 Hgr ltac:(done) ltac:(done)) as (t & Ht & Hg2 & Hfc & Hother).
  set (s2 := with_data (set_bgdt t (data (with_dev d1 s))) (with_dev d1 s)) in *.
  assert (blen (disk d1) = blen (disk (dev s))) as Hl1.
  { rewrite Hd1. rewrite patch_block_length by (done || cbn; lia). cbn. by rewrite Hd0. }
  assert (in_disk s2 (no + 2)) as Hin2' by (unfold in_disk in *; cbn; by rewrite Hl1).
  destruct (write_bgdt_ok s2 group (no + 2) Hg2 Hgr Hin2') as (d3 & Hw3 & Hd3 & Hk3). set (s3 := with_dev d3 s2) in *.
  assert (blen (disk d3) = blen (disk d1)) as Hl3.
  { rewrite Hd3. apply (patch_block_length s2); [done..|]. apply bgdt_part_length; [done|]. by apply part_no_range. }
  assert (good s3) as Hg3 by (apply good_with_dev; done).
  destruct (write_back_ok s3 Hg3) as (d4 & Hw4 & Hd4 & Hk4).
  exists (with_dev d4 s3). split.
  - unfold ext2_block_free. rewrite (proj2 (Z.eqb_neq block 0)) by lia. rewrite (bind_run _ _ s true s) by (unfold new_buffer; by rewrite Hn).
    rewrite (bind_run _ _ s count s) by (apply get_sb_ok; done).
    rewrite (bind_run _ _ s tt s) by (apply kassert_true; rewrite (proj2 (Z.eqb_neq count 0)) by lia; done).
    unfold EXT2_BLOCK_INDEX_IN_BLOCK_GROUP, EXT2_BLOCK_GET_BLOCK_GROUP, EXT2_FIRST_INODE_NUMBER.
    rewrite (wrap64_small (block - 1)) by (unfold is_u64; lia). fold group.
    rewrite (bind_run _ _ s tt s) by done. rewrite (bind_run _ _ s no s) by (apply get_bgd_ok; done).
    rewrite (rbind_run _ _ _ _ _ Hr). rewrite (bind_run _ _ (with_dev d0 s) b (with_dev d0 s)) by (unfold lift; by rewrite Hun).
    rewrite (rbind_run _ _ _ _ _ Hw1).
    rewrite (bind_run _ _ (with_dev d1 s) (bgd s group free_block_count) (with_dev d1 s)) by (apply (get_bgd_ok (with_dev d1 s)); done).
    rewrite (bind_run _ _ _ _ _ Ht). rewrite Z.mod_small by (unfold in_disk in *; lia). by rewrite (rbind_run _ _ _ _ _ Hw3).
  - assert (∀ m, 2 <= m → in_disk s m → blk (with_dev d4 s3) m =
      if decide (m = no + 2) then bgdt_part s3 (part_no s group) else if decide (m = no) then b else blk s m) as Hblk.
    { intros m H2 Hm. assert (in_disk s3 m ∧ in_disk s2 m ∧ in_disk (with_dev d0 s) m) as (Hm3 & Hm2 & Hm0).
      { unfold in_disk in *. cbn. by rewrite Hl3, Hl1, Hd0. }
      rewrite (blk_write_back s3 d4 m Hg3 Hd4 H2 Hm3). unfold s3.
      rewrite (blk_patch s2 d3 (no + 2) _ m Hg2 Hin2' (bgdt_part_length s2 _ Hg2 Hpart) Hd3 Hm2). case_decide; [done|].
      change (blk s2 m) with (blk (with_dev d1 (with_dev d0 s)) m).
      rewrite (blk_patch (with_dev d0 s) d1 no b m Hg0 Hin0 ltac:(cbn; lia) Hd1 Hm0). case_decide; [done|]. apply (peeked_blk s _ m Hp0). }
    assert (2 <= no) by lia. destruct (y_part _ Hy _ Hpart) as (Hip & Hbp).
    rewrite !Hblk by (done || lia). rewrite decide_False, decide_True, decide_True by lia. rewrite !decide_False by lia.
    split; [by split; [|rewrite Hbl in *]|]. done.
Qed.

(** C32: An inode that was written is read back as it was, with the time of
    writing as its access time, and writing it changes no other inode: the
    places of the inodes on the disk do not overlap. *)
Theorem inode_write_read s inum p b :
  good s → tables_ok s → inum_ok s inum → news s = [] → inodes s !! p = Some b → blen b = isz s → Forall is_byte b →
  ∃ s1, ext2_inode_write next_time inum p s = Some (Ok tt, s1) ∧ inodes s1 = <[p := touch (clock s) b]> (inodes s) ∧
    ∀ m q old, inum_ok s m → inodes s1 !! q = Some old → blen old = isz s →
      ∃ s2, ext2_inode_read m q s1 = Some (Ok tt, s2) ∧
        inodes s2 !! q = Some (if decide (m = inum) then touch (clock s) b else stored_inode s m).
Proof.
  intros Hg Ht Hi Hn Hp Hl Hby. pose proof (t_isz _ Ht) as H120. destruct (t_group _ Ht inum Hi) as (Hgr & Hin).
  destruct (inode_write_ok next_time s inum p b Hg Ht Hi Hn Hp ltac:(lia) Hby) as (d & Hw & Hk & Hd). set (b' := touch (clock s) b) in *.
  assert (blen b' = isz s) as Hb' by (unfold b'; rewrite touch_length; lia). rewrite <- Hb', slice_all in Hd.
  pose proof (blk_length s _ Hg Hin) as Hbl. destruct (ioff_range s inum Hg Ht) as (Ho1 & Ho2).
  exists (with_dev d (stamped next_time p b' s)). split; [done|]. split; [done|]. intros m q old Hm Hq Hlo.
  set (s1 := with_dev d (stamped next_time p b' s)) in *. assert (blen (patch (ioff s inum) b' (blk s (iblock s inum))) = block_size (data s)) as Hnl by (rewrite patch_length; lia).
  assert (blen (disk d) = blen (disk (dev s))) as Hld by (rewrite Hd; by apply patch_block_length).
  assert (good s1) as Hg1. { apply good_with_dev; [destruct Hg; by split|done..]. }
  assert (tables_ok s1) as Ht1. { destruct Ht as [T1 T2 T3 T4 T5 T6]. split; try done. intros i H. destruct (T5 i H) as (? & ?). split; [done|]. unfold in_disk in *. cbn. by rewrite Hld. }
  destruct (inode_read_ok s1 m q old Hg1 Ht1 Hm Hn Hq Hlo) as (d2 & Hr & _). eexists. split; [exact Hr|]. cbn [inodes]. rewrite lookup_insert_eq. f_equal.
  destruct (t_group _ Ht m Hm) as (_ & Hinm). unfold stored_inode. change (ioff s1 m) with (ioff s m). change (isz s1) with (isz s).
  change (iblock s1 m) with (iblock s m). change (blk s1 (iblock s m)) with (blk (with_dev d s) (iblock s m)).
  rewrite (blk_patch s d (iblock s inum) _ (iblock s m) Hg Hin Hnl Hd Hinm). destruct (decide (m = inum)) as [->|Hne].
  - rewrite decide_True by done. rewrite <- Hb'. apply slice_patch; lia.
  - case_decide as E; [|done]. rewrite E in *. destruct (ioff_range s m Hg Ht) as (Hm1 & Hm2). unfold INODE_BYTES in *.
    apply slice_patch_other; try lia. destruct (places_apart s m inum Hg Ht Hm Hi Hne) as [?|?]; [done|lia].
Qed.

(** What the search for an inode in group [i] finds at bit [k] of the bitmap it reads. *)
Lemma inode_alloc_in_ok s i n j k is_dir :
  let no := bgd s i block_bitmap_no in
  let count := sb s block_group_inode_count in
  good s → synced s → group_no s i → count <= 8 * block_size (data s) → 0 <= j <= k → k < j + Z.of_nat n → k < count → bit k (blk s no) = false →
  (∀ m, j <= m < k → bit m (blk s no) = true) →
  ∃ s', inode_alloc_in n i j is_dir (blk s no) s = Some (Some (Ok ((1 + i * count + k) mod 2 ^ 32)), s') ∧
    marked k (blk s no) (blk s' no) ∧
    ∀ m, bgdt_size_blocks (data s) + 2 <= m → m ≠ no → in_disk s m → blk s' m = blk s m.
Proof.
  intros no count Hg Hy Hi Hc Hj Hn Hk Hk0 Hbef. destruct (y_bitmap _ Hy i Hi) as (Hge & Hin). fold no in Hge, Hin.
  pose proof (blk_length s no Hg Hin) as Hbl. pose proof (blk_bytes s no Hg) as Hby. pose proof (g_bs8 _ Hg) as H8.
  set (b := blk s no) in *. revert j Hj Hn Hbef. induction n as [|n IH]; intros j Hj Hn Hbef; [lia|]. cbn [inode_alloc_in].
  rewrite (bind_run _ _ s (bit j b) s) by (unfold lift; rewrite bitmap_used_ok by (rewrite ?Hbl; lia); done).
  destruct (decide (j = k)) as [->|Hne].
  2:{ rewrite Hbef by lia. apply IH; [lia..|]. intros m Hm. apply Hbef. lia. }
  rewrite Hk0. rewrite (bind_run _ _ s count s) by (apply get_sb_ok; done).
  destruct (bitmap_set_ok k b ltac:(lia) ltac:(by rewrite Hbl) Hby) as (b' & Hset & Hl' & Hby' & Hbit').
  rewrite (bind_run _ _ s b' s) by (unfold lift; by rewrite Hset). rewrite (bind_run _ _ s no s) by (apply get_bgd_ok; done).
  destruct (block_write_ok s b' no Hg Hin ltac:(lia) Hby') as (d1 & Hw1 & Hd1 & Hk1). set (s1 := with_dev d1 s).
  destruct (write_tables_same s no b' d1 Hg Hy Hge Hin ltac:(lia) Hd1 Hk1) as (Hg1 & _ & Hparts). pose proof (part_no_range s i Hg Hi) as Hp.
  destruct (Hparts _ Hp) as (Hinp & _).
  destruct (counts_written s1 i (bgd s i free_inode_count - 1) (bgd s i directory_count + b2z is_dir) (part_no s i + 2) Hg1 Hi Hinp)
    as (s2 & s3 & s4 & H2 & H2' & H3 & E3 & H4 & Hg4 & Hd4 & Eb4 & Es4 & Hb4).
  destruct (write_back_blocks s4 (λ v, v - 1) Hg4) as (s5 & s6 & H5 & H6 & Hb6 & _).
  assert (∀ m, in_disk s m → in_disk s1 m) as Hd1'. { unfold in_disk, s1. cbn. rewrite Hd1, patch_block_length by (done || lia). done. }
  assert (∀ m, bgdt_size_blocks (data s) + 2 <= m → in_disk s m → blk s6 m = if decide (m = no) then b' else blk s m) as Hblk.
  { intros m Hm Him. rewrite Hb6 by (lia || by apply Hd4, Hd1'). rewrite Hb4 by by apply Hd1'. rewrite decide_False by lia.
    exact (blk_patch s d1 no b' m Hg Hin ltac:(lia) Hd1 Him). }
  exists s6. split.
  - rewrite (bind_run _ _ s (Ok ((1 + i * count + k) mod 2 ^ 32)) s6); [done|].
    rewrite (rbind_run _ _ _ _ _ Hw1). fold s1. rewrite (bind_run _ _ s1 (bgd s i free_inode_count) s1) by (apply (get_bgd_ok s1); done).
    rewrite (bind_run _ _ _ _ _ H2), (bind_run _ _ _ _ _ H2'), (bind_run _ _ _ _ _ H3).
    rewrite (bind_run get_data _ s3 (data s3) s3) by done. rewrite E3. rewrite (rbind_run _ _ _ _ _ H4), (bind_run _ _ _ _ _ H5).
    by rewrite (rbind_run _ _ _ _ _ H6).
  - split.
    + rewrite Hblk, decide_True by done. split; [done|]. by split.
    + intros m Hm Hmn Him. rewrite Hblk, decide_False by done. done.
Qed.

(** [ext2_inode_alloc] looks for a free inode in the bitmap of the blocks:
    the number it returns is that of the first clear bit there, whether or not
    the inode is in use, the bit of that block is set, so a free block is lost,
    and the bitmap of the inodes stays as it was. *)
Theorem inode_alloc_takes_block s i k is_dir :
  let no := bgd s i block_bitmap_no in
  let count := sb s block_group_inode_count in
  good s → synced s → news s = [] → group_no s i → (∀ i', 0 <= i' < i → bgd s i' free_inode_count = 0) → bgd s i free_inode_count ≠ 0 →
  count <= 8 * block_size (data s) → 0 <= k < count → bit k (blk s no) = false → (∀ m, 0 <= m < k → bit m (blk s no) = true) →
  ∃ s', ext2_inode_alloc is_dir s = Some (Ok ((1 + i * count + k) mod 2 ^ 32), s') ∧ marked k (blk s no) (blk s' no) ∧
    (bgdt_size_blocks (data s) + 2 <= bgd s i inode_bitmap_no → bgd s i inode_bitmap_no ≠ no → in_disk s (bgd s i inode_bitmap_no) →
     blk s' (bgd s i inode_bitmap_no) = blk s (bgd s i inode_bitmap_no)).
Proof.
  intros no count Hg Hy Hn Hi Hskip Hfree Hc Hk Hk0 Hbef. destruct (y_bitmap _ Hy i Hi) as (_ & Hin). fold no in Hin.
  destruct (block_read_ok s no Hg Hin) as (d & Hr & Hd & Hw). set (s1 := with_dev d s).
  assert (peeked s s1) as Hp by by exists d. pose proof (peeked_good _ _ Hp Hg) as Hg1. pose proof (peeked_synced _ _ Hp Hy) as Hy1.
  pose proof (inode_alloc_in_ok s1 i (Z.to_nat count) 0 k is_dir Hg1 Hy1 Hi Hc ltac:(lia) ltac:(lia) (proj2 Hk)) as Ha. cbv zeta in Ha.
  change (bgd s1) with (bgd s) in Ha. rewrite (peeked_blk s s1 _ Hp) in Ha. fold no count in Ha.
  destruct (Ha Hk0 Hbef) as (s' & Hrun & Hm & Hother). exists s'. split; [|split; [done|]].
  - unfold ext2_inode_alloc. rewrite (bind_run _ _ s true s) by (unfold new_buffer; by rewrite Hn). cbn [negb].
    rewrite (bind_run get_data _ s (data s) s) by done.
    assert (∀ n i0, 0 <= i0 <= i → i < i0 + Z.of_nat n → inode_alloc_groups n i0 is_dir s = Some (Ok ((1 + i * count + k) mod 2 ^ 32), s')) as Hgs.
    { induction n as [|n IH]; intros i0 H0 H1; [lia|]. assert (group_no s i0) as Hi0 by (unfold group_no in *; lia). cbn [inode_alloc_groups].
      rewrite (bind_run _ _ _ _ _ (get_bgd_ok s i0 free_inode_count Hg Hi0 ltac:(done) ltac:(done))). destruct (decide (i0 = i)) as [->|].
      - rewrite (proj2 (Z.eqb_neq _ 0) Hfree). rewrite (bind_run _ _ s no s) by (apply get_bgd_ok; done). rewrite (rbind_run _ _ _ _ _ Hr).
        rewrite (bind_run _ _ s1 count s1) by (apply (get_sb_ok s1); done). by rewrite (bind_run _ _ _ _ _ Hrun).
      - rewrite Hskip by lia. cbn. apply IH; lia. }
    unfold group_no in *. apply Hgs; lia.
  - intros H1 H2 H3. rewrite Hother; try done; [apply (peeked_blk s s1 _ Hp)|]. unfold in_disk in *. cbn. by rewrite Hd.
Qed.

(** [ext2_inode_free] writes the table of descriptors over the bitmap of the
    blocks of the inode's group, which it has just changed. *)
Theorem inode_free_clobbers s ino is_dir :
  let group := igroup s ino in
  let no := bgd s group block_bitmap_no in
  good s → synced s → news s = [] → 1 <= ino < 2 ^ 32 → 0 < sb s block_group_inode_count <= 8 * block_size (data s) → group_no s group →
  ∃ s', ext2_inode_free ino is_dir s = Some (Ok tt, s') ∧ blk s' no = bgdt_part s' (part_no s group).
Proof.
  intros group no Hg Hy Hn Hino Hc Hi. destruct (y_bitmap _ Hy _ Hi) as (Hge & Hin). fold no in Hge, Hin.
  set (count := sb s block_group_inode_count) in *. pose proof (Z.mod_pos_bound (ino - 1) count ltac:(lia)) as Hidx.
  pose proof (blk_length s no Hg Hin) as Hbl. pose proof (g_bs8 _ Hg) as H8.
  destruct (block_read_ok s no Hg Hin) as (d0 & Hr & Hd0 & Hk0). set (s0 := with_dev d0 s). assert (peeked s s0) as Hp0 by by exists d0.
  pose proof (peeked_good _ _ Hp0 Hg) as Hg0. pose proof (peeked_synced _ _ Hp0 Hy) as Hy0.
  assert (0 <= (ino - 1) mod count < 8 * blen (blk s no)) as Hix.
  { rewrite Hbl. revert Hidx Hc. generalize ((ino - 1) mod count) as m. intros m. lia. }
  destruct (bitmap_unset_ok ((ino - 1) mod count) (blk s no) Hix ltac:(by rewrite Hbl) (blk_bytes s no Hg)) as (b & Hun & Hbl' & Hbb & _).
  assert (in_disk s0 no) as Hin0 by (unfold in_disk in *; cbn; by rewrite Hd0).
  destruct (block_write_ok s0 b no Hg0 Hin0 ltac:(cbn; lia) Hbb) as (d1 & Hw1 & Hd1 & Hk1). set (s1 := with_dev d1 s0) in *.
  destruct (write_tables_same s0 no b d1 Hg0 Hy0 Hge Hin0 ltac:(cbn; lia) Hd1 Hk1) as (Hg1 & _ & _).
  assert (in_disk s1 no) as Hin1. { unfold in_disk in *. cbn. rewrite Hd1, patch_block_length by (done || cbn; lia). done. }
  destruct (counts_written s1 group (bgd s group free_inode_count + 1) (bgd s group directory_count - b2z is_dir) no Hg1 Hi Hin1)
    as (s2 & s3 & s4 & H2 & H2' & H3 & E3 & H4 & Hg4 & Hd4 & Eb4 & Es4 & Hb4).
  destruct (write_back_blocks s4 (λ v, v + 1) Hg4) as (s5 & s6 & H5 & H6 & Hb6 & E6 & Eb6). exists s6. split.
  - unfold ext2_inode_free. rewrite (bind_run _ _ s true s) by (unfold new_buffer; by rewrite Hn).
    rewrite (bind_run _ _ s count s) by (apply get_sb_ok; done).
    rewrite (bind_run _ _ s tt s) by (apply kassert_true; rewrite (proj2 (Z.eqb_neq count 0)) by lia; done).
    unfold EXT2_INODE_GET_BLOCK_GROUP, EXT2_INODE_INDEX_IN_BLOCK_GROUP, EXT2_FIRST_INODE_NUMBER. rewrite !(Z.mod_small (ino - 1) (2 ^ 32)) by lia.
    change ((ino - 1) / count) with group. rewrite (bind_run _ _ s tt s) by done. rewrite (bind_run _ _ s no s) by (apply get_bgd_ok; done).
    rewrite (rbind_run _ _ _ _ _ Hr). fold s0. rewrite (bind_run _ _ s0 b s0) by (unfold lift; by rewrite Hun). rewrite (rbind_run _ _ _ _ _ Hw1).
    fold s1. rewrite (bind_run _ _ s1 (bgd s group free_inode_count) s1) by (apply (get_bgd_ok s1); done).
    rewrite (bind_run _ _ _ _ _ H2), (bind_run _ _ _ _ _ H2'), (bind_run _ _ _ _ _ H3).
    by rewrite (rbind_run _ _ _ _ _ H4), (bind_run _ _ _ _ _ H5).
  - pose proof (part_no_range s group Hg Hi). rewrite Hb6 by (lia || by apply Hd4). rewrite Hb4, decide_True by done. unfold bgdt_part. by rewrite E6, Eb6.
Qed.

End theorems.

(** ** Witnesses *)

Lemma block_alloc_first_witness : alloc_outcome ex_ext2 0 1 (ext2_block_alloc ex_ext2).
Proof. apply (block_alloc_first ex_ext2 ex_good ex_synced); done. Defined.

Lemma block_free_clobbers_witness : ∃ s', ext2_block_free 11 ex_ext2 = Some (Ok tt, s') ∧ blk s' 5 = bgdt_part s' 0.
Proof.
  destruct (block_free_clobbers ex_ext2 11 ex_good ex_synced) as (s' & H & _ & H5 & _); [done|lia|by vm_compute..| |].
  - match goal with |- in_disk _ (?x + 2) => replace x with 3 by by vm_compute end. by apply ex_in_disk.
  - exists s'. split; [exact H|exact H5].
Defined.

Lemma inode_write_read_witness : ∃ s1 s2,
  ext2_inode_write (λ t, t) 12 ex_inode_at ex_ext2 = Some (Ok tt, s1) ∧ ext2_inode_read 12 ex_inode_at s1 = Some (Ok tt, s2) ∧
  inodes s2 !! ex_inode_at = Some (touch 7 ex_inode).
Proof.
  assert (inum_ok ex_ext2 12) as Hn by by vm_compute.
  assert (blen (touch 7 ex_inode) = isz ex_ext2) as Hb by by vm_compute.
  destruct (inode_write_read (λ t, t) ex_ext2 12 ex_inode_at ex_inode ex_good ex_tables) as (s1 & H1 & Hi & H2);
    [by vm_compute|done|by vm_compute|by vm_compute|by apply bytes_ok; vm_compute|].
  assert (inodes s1 !! ex_inode_at = Some (touch 7 ex_inode)) as Hl by (rewrite Hi; apply lookup_insert_eq).
  destruct (H2 12 ex_inode_at (touch 7 ex_inode) Hn Hl Hb) as (s2 & H3 & H4).
  exists s1, s2. split; [exact H1|]. split; [exact H3|exact H4].
Defined.

Lemma inode_alloc_takes_block_witness : ∃ s', ext2_inode_alloc false ex_ext2 = Some (Ok 13, s') ∧ marked 12 (blk ex_ext2 3) (blk s' 3).
Proof.
  destruct (inode_alloc_takes_block ex_ext2 0 12 false ex_good ex_synced) as (s' & H1 & H2 & _); [done|by vm_compute|lia|by vm_compute..| |].
  - intros m Hm. assert (m ∈ seqZ 0 12) as H by (apply elem_of_seqZ; lia). revert m Hm H.
    assert (Forall (λ m, bit m (blk ex_ext2 (bgd ex_ext2 0 block_bitmap_no)) = true) (seqZ 0 12)) as H by by vm_compute; repeat constructor.
    rewrite Forall_forall in H. eauto.
  - exists s'. split; [exact H1|exact H2].
Defined.

Lemma inode_free_clobbers_witness : ∃ s', ext2_inode_free 12 false ex_ext2 = Some (Ok tt, s') ∧ blk s' 3 = bgdt_part s' 0.
Proof.
  destruct (inode_free_clobbers ex_ext2 12 false ex_good ex_synced) as (s' & H1 & H2); [done|lia|by vm_compute..|].
  exists s'. split; [exact H1|exact H2].
Defined.
