(* ===== verification/Vnode.v ===== *)
(** * Nodes of the virtual file system: [include/fs/vfs/vfs.hpp], [kern/fs/vfs/vnode.cc]

    The types, flags and records of [vfs.hpp], and C strings as lists of
    characters without the terminating zero. *)

From S2P Require Import Prelude Types Links Bytes.

Inductive vnode_types :=
  | VNT_UNKNOWN | VNT_REG | VNT_DIR | VNT_CHR | VNT_BLK | VNT_FIFO | VNT_SOCKET | VNT_LNK | VNT_SOCK | VNT_MNT.

#[export] Instance vnode_types_eq : EqDecision vnode_types.
Proof. solve_decision. Defined.

Definition vnode_type_code (t : vnode_types) : Z :=
  match t with
  | VNT_UNKNOWN => 0 | VNT_REG => 1 | VNT_DIR => 2 | VNT_CHR => 3 | VNT_BLK => 4
  | VNT_FIFO => 5 | VNT_SOCKET => 6 | VNT_LNK => 7 | VNT_SOCK => 8 | VNT_MNT => 9
  end.

Definition VNF_MEMORY : Z := 1.
Definition VNF_PER_PROCESS : Z := 2.

(** [mode_values] *)
Definition S_IFMT : Z := 0xF000.
Definition S_IFSOCK : Z := 0xC000.
Definition S_IFLNK : Z := 0xA000.
Definition S_IFREG : Z := 0x8000.
Definition S_IFBLK : Z := 0x6000.
Definition S_IFDIR : Z := 0x4000.
Definition S_IFCHR : Z := 0x2000.
Definition S_IFIFO : Z := 0x1000.
Definition S_IRUSR : Z := 0x100.
Definition S_IWUSR : Z := 0x080.
Definition S_IXUSR : Z := 0x040.
Definition S_IRGRP : Z := 0x020.
Definition S_IWGRP : Z := 0x010.
Definition S_IXGRP : Z := 0x008.
Definition S_IROTH : Z := 0x004.
Definition S_IWOTH : Z := 0x002.
Definition S_IXOTH : Z := 0x001.

Definition DT_UNKNOWN : Z := 0.
Definition DT_DIR : Z := 4.
Definition DT_REG : Z := 8.

Definition FO_FLAG_WRITABLE : Z := 0x1.
Definition FO_FLAG_READABLE : Z := 0x2.
Definition FO_FLAG_DIRECTORY : Z := 0x4.
Definition FO_FLAG_PSEUDO_DIR : Z := 0x8.
Definition FO_FLAG_PSEUDO_DIR_DOT : Z := 0x10.
Definition FO_FLAG_PSEUDO_DIR_DOTDOT : Z := 0x20.
Definition FO_FLAG_CLOEXEC : Z := 0x80.

Inductive vfs_seek_methods := SM_FROM_START | SM_FROM_CURRENT | SM_FROM_END.

Definition VFS_MODE_MASK : Z := 0xFFF.
Definition VFS_MAX_PATH_LEN : Z := 256.
Definition VNODE_NAME_MAX : Z := 64.

Definition IOCTX_FLG_MASK_ACCESS_MODE : Z := 0x3.
Definition IOCTX_FLG_EXEC : Z := 0x4.
Definition IOCTX_FLG_RDONLY : Z := 0x0.
Definition IOCTX_FLG_WRONLY : Z := 0x1.
Definition IOCTX_FLG_RDWR : Z := 0x2.
Definition IOCTX_FLG_CREATE : Z := 0x40.
Definition IOCTX_FLG_TRUNC : Z := 0x200.
Definition IOCTX_FLG_APPEND : Z := 0x400.
Definition IOCTX_FLG_DIRECTORY : Z := 0x10000.
Definition IOCTX_FLG_CLOEXEC : Z := 0x80000.

Definition R_OK : Z := 4.
Definition W_OK : Z := 2.
Definition X_OK : Z := 1.
Definition F_OK : Z := 0.

Definition AT_SYMLINK_NOFOLLOW : Z := 0x1.
Definition AT_EMPTY_PATH : Z := 0x2.
Definition AT_REMOVEDIR : Z := 0x4.

Definition flag (v f : Z) : bool := negb (Z.land v f =? 0).

Record file_object := FileObject { fo_flags : Z; fo_ref : Z; fo_pos : Z; fo_vnode : loc }.

Record file_status := FileStatus {
  st_mode : Z; st_nlink : Z; st_uid : Z; st_gid : Z; st_size : Z; st_blksize : Z; st_blocks : Z; st_atime : Z; st_mtime : Z; st_ctime : Z;
}.

Record directory_entry := DirectoryEntry { de_off : Z; de_reclen : Z; de_type : Z; de_name : list Z }.

Definition vnode_type_to_mode_type (t : vnode_types) : Z :=
  match t with
  | VNT_MNT | VNT_DIR => S_IFDIR
  | VNT_LNK => S_IFLNK
  | VNT_BLK => S_IFBLK
  | VNT_CHR => S_IFCHR
  | _ => S_IFREG
  end.

(** [vnode_base]; [child_list] holds the nodes of the intrusive list in order. *)
Record vnode := Vnode {
  v_type : vnode_types;
  v_flags : Z;
  open_count : Z;
  inode_id : Z;
  v_mode : Z;
  v_gid : Z;
  v_uid : Z;
  v_fs : loc;
  name_buf : buffer;
  v_parent : loc;
  link_target : loc;
  private_data : loc;
  child_list : list loc;
}.

(** ** C strings *)

(** Characters up to the first zero of a buffer; [None] if there is none. *)
Fixpoint cstr (b : buffer) : option (list Z) :=
  match b with
  | [] => None
  | c :: b => if c =? 0 then Some [] else l ← cstr b; Some (c :: l)
  end.

Definition strlen (name : list Z) : Z := Z.of_nat (length name).

(** [strncpy] of [n] characters: the characters of the name and then zeros. *)
Definition strncpy (name : list Z) (n : Z) : buffer :=
  take (Z.to_nat n) name ++ replicate (Z.to_nat n - length name) 0.

(** Whether [strncmp] of the [n] characters at [off] of a buffer and of a name is 0. *)
Fixpoint strncmp_at (n : nat) (off : Z) (b : buffer) (name : list Z) : option bool :=
  match n with
  | O => Some true
  | S n =>
      c ← load 1 off b;
      let d := default 0 (head name) in
      if negb (c =? d) then Some false else if c =? 0 then Some true else strncmp_at n (off + 1) b (tail name)
  end.

(** The constructor: [strncpy(name_buf, n, strnlen(n, VNODE_NAME_MAX))]. *)
Definition new_vnode (fs : loc) (t : vnode_types) (name : list Z) : vnode :=
  Vnode t 0 0 0 0 0 0 fs (strncpy (take 64 name) 64) null null null [].

Definition set_v_type t v := Vnode t (v_flags v) (open_count v) (inode_id v) (v_mode v) (v_gid v) (v_uid v) (v_fs v) (name_buf v) (v_parent v) (link_target v) (private_data v) (child_list v).
Definition set_v_mode m v := Vnode (v_type v) (v_flags v) (open_count v) (inode_id v) m (v_gid v) (v_uid v) (v_fs v) (name_buf v) (v_parent v) (link_target v) (private_data v) (child_list v).
Definition set_owner u g v := Vnode (v_type v) (v_flags v) (open_count v) (inode_id v) (v_mode v) g u (v_fs v) (name_buf v) (v_parent v) (link_target v) (private_data v) (child_list v).
Definition set_open_count n v := Vnode (v_type v) (v_flags v) n (inode_id v) (v_mode v) (v_gid v) (v_uid v) (v_fs v) (name_buf v) (v_parent v) (link_target v) (private_data v) (child_list v).
Definition set_parent p v := Vnode (v_type v) (v_flags v) (open_count v) (inode_id v) (v_mode v) (v_gid v) (v_uid v) (v_fs v) (name_buf v) p (link_target v) (private_data v) (child_list v).
Definition set_link_target p v := Vnode (v_type v) (v_flags v) (open_count v) (inode_id v) (v_mode v) (v_gid v) (v_uid v) (v_fs v) (name_buf v) (v_parent v) p (private_data v) (child_list v).
Definition set_child_list l v := Vnode (v_type v) (v_flags v) (open_count v) (inode_id v) (v_mode v) (v_gid v) (v_uid v) (v_fs v) (name_buf v) (v_parent v) (link_target v) (private_data v) l.
Definition set_v_flags f v := Vnode (v_type v) f (open_count v) (inode_id v) (v_mode v) (v_gid v) (v_uid v) (v_fs v) (name_buf v) (v_parent v) (link_target v) (private_data v) (child_list v).
Definition set_inode t i p m u g v := Vnode t (v_flags v) (open_count v) i m g u (v_fs v) (name_buf v) (v_parent v) (link_target v) p (child_list v).
Definition set_ids i m u g v := Vnode (v_type v) (v_flags v) (open_count v) i m g u (v_fs v) (name_buf v) (v_parent v) (link_target v) (private_data v) (child_list v).

(** ** The children of a node: [kern/fs/vfs/vnode.cc] *)

(** A state that holds nodes. *)
Class NodeStore (S : Type) := {
  all_nodes : S → gmap loc vnode;
  put_nodes : gmap loc vnode → S → S;
}.

Section children.
Context {S : Type} `{!NodeStore S}.

Definition slift {A} (o : option A) : ST S A := λ s, match o with Some x => Some (x, s) | None => None end.
Definition node (p : loc) : ST S vnode := λ s, slift (all_nodes s !! p) s.
Definition set_node (p : loc) (v : vnode) : ST S unit := λ s, Some (tt, put_nodes (<[p := v]> (all_nodes s)) s).

Definition attach (this child : loc) : ST S (result unit) :=
  v ← node this;
  set_node this (set_child_list (child_list v ++ [child]) v);;
  mret (Ok tt).

Definition detach (this n : loc) : ST S (result unit) :=
  c ← node n;
  set_node n (set_parent null c);;
  v ← node this;
  set_node this (set_child_list (List.filter (λ x, negb (x =? n)) (child_list v)) v);;
  mret (Ok tt).

Fixpoint lookup_in (name : list Z) (l : list loc) : ST S (result loc) :=
  match l with
  | [] => mret (Err ERROR_NO_ENTRY)
  | p :: l =>
      v ← node p;
      same ← slift (strncmp_at (Z.to_nat VNODE_NAME_MAX) 0 (name_buf v) name);
      if (same : bool) then mret (Ok p) else lookup_in name l
  end.

Definition lookup_child (this : loc) (name : list Z) : ST S (result loc) :=
  if VNODE_NAME_MAX <=? Z.min (strlen name) VNODE_NAME_MAX then mret (Err ERROR_INVALID) else
  v ← node this;
  lookup_in name (child_list v).

End children.
