(* ===== verification/Ext2Vnode.v ===== *)
(** * The ext2 file system: directories and files

    [kern/fs/ext2/directory/directory.cc] and [kern/fs/ext2/vnode.cc].  A
    directory entry is [ino] (4 bytes), [ent_size] (2), the length of the name
    (1), the type or the upper part of the length (1) and the name.  Loops over
    the entries of a block have as much fuel as the block has bytes: they run
    out of it exactly when an entry of size zero keeps them where they are. *)

From S2P Require Import Prelude Types Links Bytes Ext2 Vnode.

Record vfs (D : Type) := Vfs { fsys : ext2 D; vnodes : gmap loc vnode }.
Arguments Vfs {D}.
Arguments fsys {D}.
Arguments vnodes {D}.

Definition DIRENT_SIZE : Z := 8.

Section ext2_vnode.
Context {D : Type} `{!BlockDevice D} (next_time : Z → Z).
Implicit Types v : vnode.

Abbreviation FS := (ST (ext2 D)).
Abbreviation VS := (ST (vfs D)).

Definition on_fs {A} (c : FS A) : VS A := λ s,
  match c (fsys s) with Some (x, f) => Some (x, Vfs f (vnodes s)) | None => None end.
Definition vlift {A} (o : option A) : VS A := λ s, match o with Some x => Some (x, s) | None => None end.
Definition get_vnode (p : loc) : VS vnode := λ s, vlift (vnodes s !! p) s.
Definition put_vnode (p : loc) (v : vnode) : VS unit := λ s, Some (tt, Vfs (fsys s) (<[p := v]> (vnodes s))).

(** An object from the allocator, with what its memory holds; [None] is null. *)
Definition alloc_object : FS (option (loc * buffer)) := λ s,
  match heap s with
  | [] => Some (None, s)
  | o :: l => Some (Some o, Ext2 (dev s) (data s) (inodes s) l (news s) (clock s))
  end.

(** The memory of a new inode is not cleared. *)
Definition create_new_inode : FS (result loc) :=
  o ← alloc_object;
  match o with
  | None => mret (Err ERROR_MEMORY_ALLOC)
  | Some (p, m) =>
      sz ← get_inode_size;
      b ← lift (copy_out 0 sz m);
      put_inode p b;; mret (Ok p)
  end.
Definition free_inode (p : loc) : FS unit := λ s,
  Some (tt, Ext2 (dev s) (data s) (delete p (inodes s)) (heap s) (news s) (clock s)).

(** ** Directories *)

Definition has_type_field : FS bool := v ← get_sb required_features; mret (flag v SBRF_DIRENT_TYPE_FIELD).

Definition EXT2_DIRENT_NAME_LEN (off : Z) (b : buffer) (has_type_indicator : bool) : option Z :=
  low ← load 1 (off + 6) b;
  if has_type_indicator then Some low else high ← load 1 (off + 7) b; Some (Z.lor (Z.shiftl high 8) low).

(** The search for room in one block: where the new entry goes, in the changed block. *)
Fixpoint insert_scan (fuel : nat) (bs entry_size : Z) (ty : bool) (off : Z) (b : buffer) : option (result (option (Z * buffer))) :=
  if off <? bs then
    match fuel with
    | O => None
    | S fuel =>
        ino ← load 4 off b;
        name_size ← (if ino =? 0 then Some 0 else n ← EXT2_DIRENT_NAME_LEN off b ty; Some (roundup n 4));
        let size_prev := DIRENT_SIZE + name_size in
        ent_size ← load 2 (off + 4) b;
        if ent_size <? size_prev then Some (Err ERROR_INVALID) else
        let free_space := ent_size - size_prev in
        if entry_size <=? free_space then
          b ← store 2 (off + 4) size_prev b;
          let at_ := off + size_prev mod 2 ^ 16 in
          b ← store 2 (at_ + 4) free_space b;
          Some (Ok (Some (at_, b)))
        else insert_scan fuel bs entry_size ty (off + ent_size) b
    end
  else Some (Ok None).

Fixpoint insert_blocks (n : nat) (inode : loc) (bs entry_size : Z) (ty : bool) (i : Z) : FS (result (option (Z * Z * buffer))) :=
  match n with
  | O => mret (Ok None)
  | S n =>
      b ←? ext2_inode_read_block inode i;
      r ← lift (insert_scan (Z.to_nat bs) bs entry_size ty 0 b);
      match r with
      | Err e => mret (Err e)
      | Ok (Some (at_, b)) => mret (Ok (Some (i, at_, b)))
      | Ok None => insert_blocks n inode bs entry_size ty (i + 1)
      end
  end.

(** The entry at [off] of the block filled in; [None] is a write outside of it. *)
Definition fill_entry (off ino : Z) (name : list Z) (type : vnode_types) (ty : bool) (b : buffer) : option (result buffer) :=
  b ← store 4 off ino b;
  b ← store 1 (off + 6) (strlen name) b;
  b ← (if ty then Some b else store 1 (off + 7) (Z.shiftr (strlen name) 8) b);
  len ← EXT2_DIRENT_NAME_LEN off b ty;
  b ← copy_in (off + DIRENT_SIZE) (strncpy name len) b;
  if ty then
    if vnode_type_code type <=? 7 then b ← store 1 (off + 7) (vnode_type_code type) b; Some (Ok b) else Some (Err ERROR_INVALID)
  else Some (Ok b).

Definition ext2_directory_inode_insert (at_ino : Z) (at_inode : loc) (name : list Z) (ino : Z) (type : vnode_types) : FS (result unit) :=
  d ← get_data;
  let bs := block_size d in
  let entry_size := DIRENT_SIZE +w roundup (strlen name) 4 in
  sz ← EXT2_INODE_SIZE at_inode;
  let block_count := sz / bs in
  m ← new_buffer;
  if negb m then mret (Err ERROR_MEMORY_ALLOC) else
  ty ← has_type_field;
  r ←? insert_blocks (Z.to_nat block_count) at_inode bs entry_size ty 0;
  place ←? (match r with
    | Some (i, off, b) => mret (Ok (i, off, b))
    | None =>
        sz ← EXT2_INODE_SIZE at_inode;
        ext2_inode_resize at_inode (sz +w bs);;?
        b ← lift (store 2 4 bs (replicate (Z.to_nat bs) 0));
        mret (Ok (block_count, 0, b))
    end);
  let '(index, off, b) := place in
  f ← lift (fill_entry off ino name type ty b);
  match f with
  | Err e => mret (Err e)
  | Ok b =>
      ext2_inode_write_block at_inode b index;;?
      match r with Some _ => mret (Ok tt) | None => ext2_inode_write next_time at_ino at_inode end
  end.

(** What [ext2_directory_inode_remove] does with the entries of one block: the
    block to be written back, or nothing when the entry is not in it. *)
Fixpoint remove_scan (fuel : nat) (bs ino : Z) (name : list Z) (ty : bool) (prev : option Z) (off : Z) (b : buffer) :
    option (result (option buffer)) :=
  if off <? bs then
    match fuel with
    | O => None
    | S fuel =>
        e ← load 4 off b;
        ent_size ← load 2 (off + 4) b;
        if e =? ino then
          len ← EXT2_DIRENT_NAME_LEN off b ty;
          same ← strncmp_at (Z.to_nat len) (off + DIRENT_SIZE) b name;
          if negb same then Some (Err ERROR_INVALID) else
          b ← store 4 off 0 b;
          if ent_size =? bs then Some (Ok (Some b)) else
          match prev with
          | Some p =>
              prev_size ← load 2 (p + 4) b;
              b ← store 2 (p + 4) (prev_size + ent_size) b;
              Some (Ok (Some b))
          | None =>
              if (off =? 0) || (bs <=? ent_size) then Some (Err ERROR_INVALID) else
              next_size ← load 2 (off + ent_size + 4) b;
              b ← store 2 (off + 4) (ent_size + next_size) b;
              moved ← copy_out (off + ent_size) next_size b;
              b ← copy_in off moved b;
              Some (Ok (Some b))
          end
        else remove_scan fuel bs ino name ty (Some off) (off + ent_size) b
    end
  else Some (Ok None).

Fixpoint remove_blocks (n : nat) (inode : loc) (bs ino : Z) (name : list Z) (ty : bool) (i : Z) : FS (result unit) :=
  match n with
  | O => mret (Err ERROR_NO_ENTRY)
  | S n =>
      b ←? ext2_inode_read_block inode i;
      r ← lift (remove_scan (Z.to_nat bs) bs ino name ty None 0 b);
      match r with
      | Err e => mret (Err e)
      | Ok (Some b) => ext2_inode_write_block inode b i
      | Ok None => remove_blocks n inode bs ino name ty (i + 1)
      end
  end.

Definition ext2_directory_inode_remove (at_inode vn : loc) : VS (result unit) :=
  v ← get_vnode vn;
  name ← vlift (cstr (name_buf v));
  on_fs (
    d ← get_data;
    sz ← get_field at_inode size_lower;
    m ← new_buffer;
    kassert m;;
    ty ← has_type_field;
    remove_blocks (Z.to_nat (sz / block_size d)) at_inode (block_size d) (inode_id v) name ty 0).

(** ** Nodes *)

Definition initialize_from_inode (this : loc) (ino : Z) (src : loc) : VS (result unit) :=
  v ← get_vnode this;
  m ← on_fs (get_field src i_mode);
  uid ← on_fs (get_field src i_uid);
  gid ← on_fs (get_field src i_gid);
  let t := inode_type m in
  let ok := if t =? EXT2_IFDIR then Some VNT_DIR else if t =? EXT2_IFREG then Some VNT_REG else None in
  put_vnode this (set_inode (default (v_type v) ok) ino src (inode_perm m) uid gid v);;
  mret (match ok with Some _ => Ok tt | None => Err ERROR_INVALID end).

(** [new(std::nothrow) ext2_vnode(fs, t, name)] *)
Definition new_ext2_vnode (fs : loc) (t : vnode_types) (name : list Z) : VS (option loc) :=
  o ← on_fs alloc_object;
  match o with
  | None => mret None
  | Some (p, _) => put_vnode p (new_vnode fs t name);; mret (Some p)
  end.

(** The node of a directory entry that matches. *)
Definition load_entry (fs : loc) (ino : Z) (name : list Z) : VS (result loc) :=
  new_inode ←? on_fs create_new_inode;
  err ← on_fs (ext2_inode_read ino new_inode);
  match err with
  | Err e => on_fs (free_inode new_inode);; mret (Err e)
  | Ok _ =>
      vn ← new_ext2_vnode fs VNT_DIR name;
      match vn with
      | None => mret (Err ERROR_MEMORY_ALLOC)
      | Some p => initialize_from_inode p ino new_inode;;? mret (Ok p)
      end
  end.

(** The entries of a block from [off] on: the inode of the entry with the name,
    or the offset behind the last one. *)
Fixpoint find_scan (fuel : nat) (bs : Z) (name : list Z) (off : Z) (b : buffer) : option (Z + Z) :=
  if off <? bs then
    match fuel with
    | O => None
    | S fuel =>
        ino ← load 4 off b;
        len ← load 1 (off + 6) b;
        same ← (if negb (ino =? 0) && (len =? strlen name) then strncmp_at (length name) (off + DIRENT_SIZE) b name else Some false);
        if (same : bool) then Some (inr ino) else
        ent_size ← load 2 (off + 4) b;
        find_scan fuel bs name (off + ent_size) b
    end
  else Some (inl off).

(** The offset is not reset from one block to the next. *)
Fixpoint find_blocks (n : nat) (fs inode : loc) (bs : Z) (name : list Z) (idx off : Z) : VS (result loc) :=
  match n with
  | O => mret (Err ERROR_NO_ENTRY)
  | S n =>
      b ←? on_fs (ext2_inode_read_block inode idx);
      r ← vlift (find_scan (Z.to_nat bs) bs name off b);
      match r with
      | inr ino => load_entry fs ino name
      | inl off => find_blocks n fs inode bs name (idx + 1) off
      end
  end.

Definition find (this : loc) (name : list Z) : VS (result loc) :=
  v ← get_vnode this;
  let inode := private_data v in
  if inode =? null then mret (Err ERROR_INTERNAL) else
  if v_fs v =? null then mret (Err ERROR_INTERNAL) else
  if VFS_MAX_PATH_LEN <=? strlen name then mret (Err ERROR_INVALID) else
  d ← on_fs get_data;
  m ← on_fs new_buffer;
  sz ← on_fs (EXT2_INODE_SIZE inode);
  let n := sz / block_size d in
  kassert (m || (n =? 0));;
  find_blocks (Z.to_nat n) (v_fs v) inode (block_size d) name 0 0.

Definition set_pos (pos : Z) (fd : file_object) : file_object := FileObject (fo_flags fd) (fo_ref fd) pos (fo_vnode fd).

(** The characters [strncpy] copies from [n] bytes of a buffer. *)
Definition copied_name (off n : Z) (b : buffer) : option (list Z) :=
  c ← copy_out off n b; Some (default c (cstr c)).

(** Runs again from the next block at most once for each block.  [return 0] at the
    end gives the error code [ERROR_SUCCESS] and not the result 0. *)
Fixpoint read_directory (fuel : nat) (this : loc) (fd : file_object) : VS (result (Z * directory_entry) * file_object) :=
  match fuel with
  | O => st_fail
  | S fuel =>
      v ← get_vnode this;
      let inode := private_data v in
      if inode =? null then mret (Err ERROR_INVALID, fd) else
      sz ← on_fs (EXT2_INODE_SIZE inode);
      if sz <=? fo_pos fd then mret (Err ERROR_SUCCESS, fd) else
      d ← on_fs get_data;
      let bs := block_size d in
      m ← on_fs new_buffer;
      if negb m then mret (Err ERROR_MEMORY_ALLOC, fd) else
      let block_idx := (fo_pos fd / bs) mod 2 ^ 32 in
      ret ← on_fs (ext2_inode_read_block inode block_idx);
      match ret with
      | Err e => mret (Err e, fd)
      | Ok b =>
          ino ← vlift (load 4 (fo_pos fd mod bs) b);
          ent_size ← vlift (load 2 (fo_pos fd mod bs + 4) b);
          let fd' := if ino =? 0 then set_pos (fo_pos fd +w ent_size) fd else fd in
          if (ino =? 0) && negb (fo_pos fd' / bs =? block_idx) then
            if fo_pos fd' mod bs =? 0 then mret (Err ERROR_INVALID, fd') else read_directory fuel this fd'
          else
            ino ← vlift (load 4 (fo_pos fd' mod bs) b);
            if ino =? 0 then mret (Err ERROR_INVALID, fd') else
            ty ← on_fs has_type_field;
            name_len ← vlift (EXT2_DIRENT_NAME_LEN (fo_pos fd' mod bs) b ty);
            name ← vlift (copied_name (fo_pos fd' mod bs + DIRENT_SIZE) name_len b);
            ent_size ← vlift (load 2 (fo_pos fd' mod bs + 4) b);
            mret (Ok (ent_size, DirectoryEntry (fo_pos fd') ent_size DT_UNKNOWN name), set_pos (fo_pos fd' +w ent_size) fd')
      end
  end.

Definition open_directory (fd : file_object) : VS (result unit * file_object) :=
  if fo_vnode fd =? null then mret (Err ERROR_INVALID, fd) else
  v ← get_vnode (fo_vnode fd);
  if negb (bool_decide (v_type v = VNT_DIR)) then mret (Err ERROR_INVALID, fd) else mret (Ok tt, set_pos 0 fd).

Definition open (fd : file_object) (opt : Z) : VS (result unit * file_object) :=
  if (Z.land opt IOCTX_FLG_APPEND =? 1) && (Z.land opt IOCTX_FLG_MASK_ACCESS_MODE =? IOCTX_FLG_RDONLY) then mret (Err ERROR_INVALID, fd) else
  if flag opt IOCTX_FLG_DIRECTORY then mret (Err ERROR_INVALID, fd) else mret (Ok tt, set_pos 0 fd).

Definition close (fd : file_object) : VS (result unit) := mret (Ok tt).

Definition set_type (inode : loc) (t : Z) : FS unit := m ← get_field inode i_mode; set_field inode i_mode (with_type t m).

Definition set_times (inode : loc) : FS unit :=
  t ← cmos_read_rtc_timestamp next_time;
  set_field inode atime t;; set_field inode ctime t;; set_field inode mtime t.

Definition create (this : loc) (filename : list Z) (uid gid mode : Z) : VS (result unit) :=
  v ← get_vnode this;
  let at_inode := private_data v in
  if at_inode =? null then mret (Err ERROR_INVALID) else
  if v_fs v =? null then mret (Err ERROR_INVALID) else
  found ← find this filename;
  if negb (has_error found) then mret (Err ERROR_ALREADY_EXIST) else
  m ← on_fs (get_field at_inode i_mode);
  if negb (inode_type m =? EXT2_IFDIR) || negb (bool_decide (v_type v = VNT_DIR)) then mret (Err ERROR_NOT_DIR) else
  on_fs (
    new_inode ←? create_new_inode;
    ino ←? ext2_inode_alloc false;
    set_times new_inode;;
    set_field new_inode i_uid uid;;
    set_field new_inode i_gid gid;;
    set_field new_inode i_flags (Z.land mode 0xFFF);;
    set_type new_inode EXT2_IFREG;;
    set_field new_inode hard_link_count 1;;
    ext2_directory_inode_insert (inode_id v) at_inode filename ino VNT_REG;;?
    ext2_inode_write next_time ino new_inode).

(** [new(std::nothrow) ext2_inode{}] has the size of the structure, and is cleared. *)
Definition new_struct_inode : FS (option loc) :=
  o ← alloc_object;
  match o with
  | None => mret None
  | Some (p, _) => put_inode p (replicate (Z.to_nat INODE_BYTES) 0);; mret (Some p)
  end.

Definition make_directory (this : loc) (name : list Z) (uid gid mode : Z) : VS (result unit) :=
  v ← get_vnode this;
  let at_inode := private_data v in
  if at_inode =? null then mret (Err ERROR_INVALID) else
  kassert (negb (v_fs v =? null));;
  found ← find this name;
  if negb (has_error found) then mret (Err ERROR_ALREADY_EXIST) else
  m ← on_fs (get_field at_inode i_mode);
  if negb (inode_type m =? EXT2_IFDIR) then mret (Err ERROR_NOT_DIR) else
  on_fs (
    o ← new_struct_inode;
    match o with
    | None => mret (Err ERROR_MEMORY_ALLOC)
    | Some inode =>
        ino ←? ext2_inode_alloc true;
        set_times inode;;
        set_field inode i_uid uid;;
        set_field inode i_gid gid;;
        set_type inode EXT2_IFDIR;;
        set_field inode i_flags (Z.land mode 0xFFF);;
        set_field inode hard_link_count 2;;
        ext2_directory_inode_insert ino inode [46] ino VNT_DIR;;?
        ext2_directory_inode_insert ino inode [46; 46] (inode_id v) VNT_DIR;;?
        ext2_directory_inode_insert (inode_id v) at_inode name ino VNT_DIR;;?
        ext2_inode_write next_time ino inode;;?
        links ← get_field at_inode hard_link_count;
        set_field at_inode hard_link_count (links + 1);;
        ext2_inode_write next_time (inode_id v) at_inode
    end).

Definition truncate (this : loc) (size : Z) : VS (result unit) :=
  v ← get_vnode this;
  let inode := private_data v in
  if (inode =? null) || (v_fs v =? null) then mret (Err ERROR_INVALID) else
  if negb (bool_decide (v_type v = VNT_REG)) then mret (Err ERROR_NOT_FILE) else
  on_fs (
    ext2_inode_resize inode size;;?
    t ← cmos_read_rtc_timestamp next_time;
    set_field inode mtime t;;
    ext2_inode_write next_time (inode_id v) inode).

Definition unlink (this : loc) : VS (result unit) :=
  v ← get_vnode this;
  if inode_id v =? EXT2_ROOT_DIR_INODE_NUMBER then mret (Err ERROR_PERMISSION) else
  if v_parent v =? null then mret (Err ERROR_INVALID) else
  kassert (negb (v_fs v =? null));;
  p ← get_vnode (v_parent v);
  let parent_inode := private_data p in
  if parent_inode =? null then mret (Err ERROR_INVALID) else
  let inode := private_data v in
  if inode =? null then mret (Err ERROR_INVALID) else
  name ← vlift (cstr (name_buf v));
  found ← find (v_parent v) name;
  if has_error found then mret (Err ERROR_NO_ENTRY) else
  ext2_directory_inode_remove parent_inode this;;?
  on_fs (
    m ← get_field inode i_mode;
    (if inode_type m =? EXT2_IFDIR then
       links ← get_field parent_inode hard_link_count;
       set_field parent_inode hard_link_count (links - 1);;
       ext2_inode_write next_time (inode_id p) parent_inode
     else mret (Ok tt));;?
    ext2_inode_resize inode 0;;?
    set_field inode hard_link_count 0;;
    t ← cmos_read_rtc_timestamp next_time;
    set_field inode dtime t;;
    ext2_inode_write next_time (inode_id v) inode;;?
    ext2_inode_free (inode_id v) (bool_decide (v_type v = VNT_DIR))).

Definition seek (this : loc) (fd : file_object) (offset : Z) (method : vfs_seek_methods) : VS (result Z * file_object) :=
  v ← get_vnode this;
  let inode := private_data v in
  if inode =? null then mret (Err ERROR_INVALID, fd) else
  sz ← on_fs (EXT2_INODE_SIZE inode);
  let new_pos := match method with
    | SM_FROM_START => wrap64 offset
    | SM_FROM_CURRENT => fo_pos fd +w offset
    | SM_FROM_END => sz +w offset
    end in
  if new_pos <=? 0 then mret (Err ERROR_INVALID, fd) else mret (Ok new_pos, set_pos new_pos fd).

Definition stat (this : loc) : VS (result file_status) :=
  v ← get_vnode this;
  let inode := private_data v in
  kassert (negb (v_fs v =? null));;
  if inode =? null then mret (Err ERROR_INTERNAL) else
  on_fs (
    uid ← get_field inode i_uid;
    gid ← get_field inode i_gid;
    flags ← get_field inode i_flags;
    if negb (uid =? v_uid v) || negb (gid =? v_gid v) || negb (Z.land flags 0xFFF =? v_mode v) then mret (Err ERROR_INTERNAL) else
    sz ← EXT2_INODE_SIZE inode;
    d ← get_data;
    links ← get_field inode hard_link_count;
    a ← get_field inode atime;
    m ← get_field inode mtime;
    c ← get_field inode ctime;
    let st_size := sz mod 2 ^ 32 in
    mret (Ok (FileStatus flags links uid gid st_size (block_size d mod 2 ^ 32) (((st_size + block_size d - 1) / block_size d) mod 2 ^ 32) a m c))).

Definition change_mode (this : loc) (mode : Z) : VS (result unit) :=
  v ← get_vnode this;
  let inode := private_data v in
  if (inode =? null) || (v_fs v =? null) then mret (Err ERROR_INVALID) else
  flags ← on_fs (get_field inode i_flags);
  if flags =? Z.land mode 0xFFF then mret (Ok tt) else
  on_fs (set_field inode i_flags (Z.land mode 0xFFF));;
  put_vnode this (set_v_mode (Z.land mode 0xFFF) v);;
  t ← on_fs (cmos_read_rtc_timestamp next_time);
  on_fs (set_field inode mtime t);;
  on_fs (ext2_inode_write next_time (inode_id v) inode).

Definition change_ownership (this : loc) (uid gid : Z) : VS (result unit) :=
  v ← get_vnode this;
  let inode := private_data v in
  if (inode =? null) || (v_fs v =? null) then mret (Err ERROR_INVALID) else
  u ← on_fs (get_field inode i_uid);
  g ← on_fs (get_field inode i_gid);
  if (u =? uid) && (g =? gid) then mret (Ok tt) else
  on_fs (set_field inode i_uid uid);;
  on_fs (set_field inode i_gid gid);;
  put_vnode this (set_owner uid gid v);;
  t ← on_fs (cmos_read_rtc_timestamp next_time);
  on_fs (set_field inode mtime t);;
  on_fs (ext2_inode_write next_time (inode_id v) inode).

Definition read_link (this : loc) : VS (result unit) := st_fail.

(** The loop of [read]: the bytes read so far are in [acc]. *)
Fixpoint read_loop (fuel : nat) (inode : loc) (bs size : Z) (fd : file_object) (acc : buffer) : FS (result unit * file_object * buffer) :=
  if size =? 0 then mret (Ok tt, fd, acc) else
  match fuel with
  | O => st_fail
  | S fuel =>
      let block_off := fo_pos fd mod bs in
      let block_idx := fo_pos fd / bs in
      let readable := Z.min size (bs - block_off) in
      ret ← ext2_inode_read_block inode block_idx;
      match ret with
      | Err e => mret (Err e, fd, acc)
      | Ok b =>
          c ← lift (copy_out block_off readable b);
          read_loop fuel inode bs (size - readable) (set_pos (fo_pos fd +w readable) fd) (acc ++ c)
      end
  end.

(** The result, the file object and the bytes put into the buffer. *)
Definition read (this : loc) (fd : file_object) (sz : Z) : VS (result Z * file_object * buffer) :=
  v ← get_vnode this;
  let inode := private_data v in
  if (inode =? null) || (v_fs v =? null) then mret (Err ERROR_INTERNAL, fd, []) else
  on_fs (
    d ← get_data;
    full_size ← EXT2_INODE_SIZE inode;
    if full_size <=? fo_pos fd then mret (Err ERROR_EOF, fd, []) else
    m ← new_buffer;
    if negb m then mret (Err ERROR_MEMORY_ALLOC, fd, []) else
    let size := Z.min sz (full_size - fo_pos fd) in
    r ← read_loop (Z.to_nat size) inode (block_size d) size fd [];
    let '(ret, fd', got) := r in
    mret (match ret with Err e => Err e | Ok _ => Ok (blen got) end, fd', got)).

(** The buffer of [write] has 1024 bytes, whatever the size of a block, and may
    be null ([m] tells whether it is not). *)
Definition WRITE_BUFFER : Z := 1024.

Fixpoint write_loop (fuel : nat) (m : bool) (inode : loc) (bs : Z) (buf : buffer) (fd : file_object) : FS (result unit * file_object) :=
  if blen buf =? 0 then mret (Ok tt, fd) else
  match fuel with
  | O => st_fail
  | S fuel =>
      let block_index := fo_pos fd / bs in
      let block_offset := fo_pos fd mod bs in
      let writable := Z.min (blen buf) (bs - block_offset) in
      if writable =? 0 then mret (Err ERROR_INTERNAL, fd) else
      ret ← (if negb (writable =? bs) then
               kassert (m && (bs <=? WRITE_BUFFER));;
               b ←? ext2_inode_read_block inode block_index;
               b ← lift (copy_in block_offset (slice 0 writable buf) b);
               ext2_inode_write_block inode b block_index
             else ext2_inode_write_block inode (slice 0 bs buf) block_index);
      match ret with
      | Err e => mret (Err e, fd)
      | Ok _ => write_loop fuel m inode bs (drop (Z.to_nat writable) buf) (set_pos (fo_pos fd +w writable) fd)
      end
  end.

Definition write (this : loc) (fd : file_object) (buf : buffer) : VS (result Z * file_object) :=
  v ← get_vnode this;
  let inode := private_data v in
  if (inode =? null) || (v_fs v =? null) then mret (Err ERROR_INTERNAL, fd) else
  on_fs (
    d ← get_data;
    full_size ← EXT2_INODE_SIZE inode;
    if full_size <? fo_pos fd then mret (Err ERROR_EOF, fd) else
    let request_size := Z.max (fo_pos fd +w blen buf) full_size in
    err ← ext2_inode_resize inode request_size;
    match err with
    | Err e => mret (Err e, fd)
    | Ok _ =>
        m ← new_buffer;
        r ← write_loop (length buf) m inode (block_size d) buf fd;
        let '(ret, fd') := r in
        match ret with
        | Err e => mret (Err e, fd')
        | Ok _ =>
            t ← cmos_read_rtc_timestamp next_time;
            set_field inode mtime t;;
            err ← ext2_inode_write next_time (inode_id v) inode;
            mret (match err with Err e => Err e | Ok _ => Ok (blen buf) end, fd')
        end
    end).

Definition allocate_new (this : loc) (name : list Z) (gid uid mode : Z) : VS (result loc) :=
  v ← get_vnode this;
  p ← new_ext2_vnode null (v_type v) name;
  match p with
  | None => mret (Err ERROR_MEMORY_ALLOC)
  | Some p => n ← get_vnode p; put_vnode p (set_ids (inode_id n) mode uid gid n);; mret (Ok p)
  end.

(** ** Mounting: [kern/fs/ext2/ext2.cc] *)

(** The table of descriptors, read from block 2 on. *)
Fixpoint read_bgdt (n : nat) (i : Z) (acc : buffer) : FS (result buffer) :=
  match n with
  | O => mret (Ok acc)
  | S n => b ←? ext2_block_read (i + 2); read_bgdt n (i + 1) (acc ++ b)
  end.

Definition set_geometry (bs frag ipb groups entries blocks : Z) (d : ext2_data) : ext2_data :=
  Ext2Data (superblock_data d) bs frag ipb groups entries blocks (bgdt d) (bgdt_freed d) (root d) (root_inode d).
Definition set_root (p : loc) (d : ext2_data) : ext2_data := Ext2Data (superblock_data d) (block_size d) (fragment_size d) (inodes_per_block d)
  (blkgrp_inode_blocks d) (bgdt_entry_count d) (bgdt_size_blocks d) (bgdt d) (bgdt_freed d) p (root_inode d).
Definition set_root_inode (p : loc) (d : ext2_data) : ext2_data := Ext2Data (superblock_data d) (block_size d) (fragment_size d) (inodes_per_block d)
  (blkgrp_inode_blocks d) (bgdt_entry_count d) (bgdt_size_blocks d) (bgdt d) (bgdt_freed d) (root d) p.
Definition set_freed (d : ext2_data) : ext2_data := Ext2Data (superblock_data d) (block_size d) (fragment_size d) (inodes_per_block d)
  (blkgrp_inode_blocks d) (bgdt_entry_count d) (bgdt_size_blocks d) (bgdt d) true (root d) (root_inode d).
Definition upd_data (f : ext2_data → ext2_data) : FS unit := d ← get_data; put_data (f d).

(** The super block and what is computed from it. *)
Definition read_superblock : FS (result unit) :=
  read_ret ← device_read 1024 1024;
  match read_ret with
  | Err _ => mret (Err ERROR_IO)
  | Ok b =>
      d ← get_data;
      sb ← lift (copy_in 0 b (superblock_data d));
      put_data (set_superblock sb d);;
      sig ← get_sb ext2_signature;
      if negb (sig =? EXT2_SIGNATURE) then mret (Err ERROR_INVALID) else
      major ← get_sb version_major;
      if major <? 1 then mret (Err ERROR_OBSOLETE) else
      bs ← (v ← get_sb log2_block_size; lift (EXT2_CALC_SIZE v));
      frag ← (v ← get_sb log2_frag_size; lift (EXT2_CALC_SIZE v));
      isz ← get_inode_size;
      kassert (negb (isz =? 0));;
      let ipb := bs / isz in
      kassert (negb (ipb =? 0));;
      inodes ← get_sb block_group_inode_count;
      blocks ← get_sb block_count;
      per_group ← get_sb block_group_block_count;
      kassert (negb (per_group =? 0));;
      let entries := (blocks + per_group - 1) mod 2 ^ 32 / per_group in
      let size := entries * BGD_SIZE in
      upd_data (set_geometry bs frag ipb (inodes / ipb) entries ((size + bs - 1) / bs));;
      mret (Ok tt)
  end.

Definition ext2_data_initialize (fs : loc) : VS (result unit) :=
  on_fs read_superblock;;?
  m ← on_fs new_buffer;
  if negb m then mret (Err ERROR_MEMORY_ALLOC) else
  d ← on_fs get_data;
  t ← on_fs (read_bgdt (Z.to_nat (bgdt_size_blocks d)) 0 []);
  match t with
  | Err e => on_fs (upd_data set_freed);; mret (Err e)
  | Ok b =>
      on_fs (upd_data (set_bgdt b));;
      o ← on_fs create_new_inode;
      let inode := match o with Err _ => null | Ok inode => inode end in
      on_fs (upd_data (set_root_inode inode));;
      err ← on_fs (ext2_inode_read EXT2_ROOT_DIR_INODE_NUMBER inode);
      match err with
      | Err e => on_fs (upd_data set_freed);; mret (Err e)
      | Ok _ =>
          p ← new_ext2_vnode fs VNT_DIR [];
          match p with
          | None => on_fs (upd_data set_freed);; mret (Err ERROR_IO)
          | Some p =>
              on_fs (upd_data (set_root p));;
              err ← initialize_from_inode p EXT2_ROOT_DIR_INODE_NUMBER inode;
              match err with
              | Ok _ => on_fs (upd_data set_freed);; mret (Ok tt)
              | Err _ => mret (Ok tt)
              end
          end
      end
  end.

End ext2_vnode.
