(* ===== verification/Ext2Dir.v ===== *)
(** * The entries of an ext2 directory

    The entries of a directory block as a list, what looking up, adding and
    removing a name do to that list, and that the code that works on the bytes
    of the block does this. *)

From S2P Require Import Prelude Types Links Bytes Ext2 Vnode Ext2Vnode.

(** ** Directory blocks *)

Record dirent := Dirent { d_ino : Z; d_size : Z; d_len : Z; d_type : Z; d_name : buffer }.

(** What an entry needs: unused entries have no name. *)
Definition used (e : dirent) : Z := DIRENT_SIZE + (if d_ino e =? 0 then 0 else roundup (d_len e) 4).

Record entry_at (off : Z) (e : dirent) (b : buffer) : Prop := {
  e_ino : load 4 off b = Some (d_ino e);
  e_size : load 2 (off + 4) b = Some (d_size e);
  e_len : load 1 (off + 6) b = Some (d_len e);
  e_type : load 1 (off + 7) b = Some (d_type e);
  e_used : used e <= d_size e;
  e_name : d_ino e ≠ 0 → slice (off + DIRENT_SIZE) (d_len e) b = d_name e;
}.

(** The entries follow each other from [off] to the end of the block. *)
Fixpoint layout (bs off : Z) (es : list dirent) (b : buffer) : Prop :=
  match es with
  | [] => off = bs
  | e :: es => entry_at off e b ∧ layout bs (off + d_size e) es b
  end.

(** ** Operations on the list of entries *)

Definition named (name : list Z) (e : dirent) : bool :=
  negb (d_ino e =? 0) && (d_len e =? strlen name) && bool_decide (d_name e = name).

Fixpoint lookup_name (name : list Z) (es : list dirent) : option Z :=
  match es with
  | [] => None
  | e :: es => if named name e then Some (d_ino e) else lookup_name name es
  end.

Definition shrunk (e : dirent) : dirent := Dirent (d_ino e) (used e) (d_len e) (d_type e) (d_name e).
Definition new_entry (ino : Z) (name : list Z) (code size : Z) : dirent := Dirent ino size (strlen name) code name.

(** The new entry takes what the first entry with enough room to spare does not use. *)
Fixpoint insert_entry (ino : Z) (name : list Z) (code : Z) (es : list dirent) : option (list dirent) :=
  match es with
  | [] => None
  | e :: es =>
      if DIRENT_SIZE + roundup (strlen name) 4 <=? d_size e - used e
      then Some (shrunk e :: new_entry ino name code (d_size e - used e) :: es)
      else es' ← insert_entry ino name code es; Some (e :: es')
  end.

(** A name as the code gets it: some bytes, none of them zero. *)
Definition is_name (name : list Z) : Prop := Forall (λ c, 0 < c < 256) name ∧ strlen name < 256.

(** ** Buffers that differ in one place *)

Record changed (lo hi : Z) (b b' : buffer) : Prop := {
  c_len : blen b' = blen b;
  c_slice o n : 0 <= o → 0 <= n → o + n <= blen b → o + n <= lo ∨ hi <= o → slice o n b' = slice o n b;
  c_bytes : Forall is_byte b → Forall is_byte b';
}.

Lemma changed_load lo hi b b' n o : changed lo hi b b' → 0 <= o → o + Z.of_nat n <= lo ∨ hi <= o → load n o b' = load n o b.
Proof.
  intros [Hl Hs _] H0 H. unfold load, within. rewrite Hl. destruct (decide (o + Z.of_nat n <= blen b)) as [Hd|Hd].
  - rewrite Hs by lia. done.
  - rewrite (proj2 (Z.leb_gt (o + Z.of_nat n) (blen b))) by lia. by rewrite !andb_false_r.
Qed.

Lemma changed_trans lo hi lo1 hi1 lo2 hi2 b b1 b2 :
  changed lo1 hi1 b b1 → changed lo2 hi2 b1 b2 → lo <= lo1 → lo <= lo2 → hi1 <= hi → hi2 <= hi → changed lo hi b b2.
Proof.
  intros [Hl1 Hs1 Hb1] [Hl2 Hs2 Hb2] ????. split; [lia| |tauto]. intros o n Ho Hn Hon Hd. rewrite Hs2, Hs1 by lia. done.
Qed.

Lemma patch_changed off d b : 0 <= off → off + blen d <= blen b → Forall is_byte d → changed off (off + blen d) b (patch off d b).
Proof.
  intros H0 H1 Hd. split; [by apply patch_length| |].
  - intros o n ???. apply slice_patch_other; lia.
  - intros H. unfold patch. rewrite !Forall_app. split; [by apply Forall_take|]. split; [done|by apply Forall_drop].
Qed.

Lemma store_ok n off v b : 0 <= off → off + Z.of_nat n <= blen b →
  ∃ b', store n off v b = Some b' ∧ load n off b' = Some (v mod 2 ^ (8 * Z.of_nat n)) ∧ changed off (off + Z.of_nat n) b b'.
Proof.
  intros H0 H1. assert (within off (Z.of_nat n) b = true) as Hw by (apply within_spec; lia).
  exists (patch off (le_bytes n v) b). rewrite (store_some n off v b Hw). split; [done|]. split.
  - by apply (load_store n off v b), store_some.
  - rewrite <- (le_bytes_blen n v). apply patch_changed; [done| |apply le_bytes_bytes]. by rewrite le_bytes_blen.
Qed.

Lemma copy_in_ok off d b : 0 <= off → off + blen d <= blen b → Forall is_byte d →
  ∃ b', copy_in off d b = Some b' ∧ slice off (blen d) b' = d ∧ changed off (off + blen d) b b'.
Proof.
  intros H0 H1 Hd. exists (patch off d b). rewrite copy_in_some by (apply within_spec; unfold blen in *; lia).
  split; [done|]. split; [by apply slice_patch|by apply patch_changed].
Qed.

(** An entry and what follows it are untouched by a change elsewhere. *)
Lemma roundup4 n : 0 <= n < 2 ^ 32 → n <= roundup n 4 < n + 4.
Proof. intros H. destruct (roundup_spec n 4) as (k & -> & ?); lia. Qed.

Lemma load_range n o b v : Forall is_byte b → load n o b = Some v → 0 <= o ∧ o + Z.of_nat n <= blen b ∧ 0 <= v < 2 ^ (8 * Z.of_nat n).
Proof.
  intros Hb. unfold load. destruct (within o (Z.of_nat n) b) eqn:E; [|done]. intros [= <-]. apply within_spec in E as (H1 & H2 & H3).
  split; [done|]. split; [done|]. pose proof (le_val_range (slice o (Z.of_nat n) b)) as Hr. rewrite slice_length in Hr by done.
  apply Hr. unfold slice. by apply Forall_take, Forall_drop.
Qed.

Lemma entry_range off e b : Forall is_byte b → entry_at off e b →
  0 <= off ∧ off + DIRENT_SIZE <= blen b ∧ 0 <= d_ino e < 2 ^ 32 ∧ 0 <= d_len e < 256 ∧ DIRENT_SIZE <= used e <= d_size e ∧ d_size e < 2 ^ 16 ∧
  (d_ino e ≠ 0 → DIRENT_SIZE + d_len e <= used e).
Proof.
  intros Hb [H1 H2 H3 H4 H5 _]. apply load_range in H1, H2, H3, H4; [|done..]. cbn in *. unfold used, DIRENT_SIZE in *.
  pose proof (roundup4 (d_len e) ltac:(lia)). destruct (Z.eqb_spec (d_ino e) 0); lia.
Qed.

Lemma entry_changed lo hi off e b b' :
  changed lo hi b b' → Forall is_byte b → off + d_size e <= blen b → off + d_size e <= lo ∨ hi <= off → entry_at off e b → entry_at off e b'.
Proof.
  intros Hc Hb Hs Hd He. pose proof (entry_range off e b Hb He) as Hr. unfold DIRENT_SIZE in Hr. destruct He as [H1 H2 H3 H4 H5 H6].
  split; rewrite ?(changed_load lo hi b b') by (done || cbn; lia); try done.
  intros Hi. rewrite <- H6 by done. apply (c_slice lo hi b b' Hc); unfold DIRENT_SIZE; lia.
Qed.

Lemma layout_end bs off es b : Forall is_byte b → layout bs off es b → off + DIRENT_SIZE * Z.of_nat (length es) <= bs.
Proof.
  intros Hb. revert off. induction es as [|e es IH]; intros off; cbn [layout length]; [lia|]. intros (He & Hl).
  apply IH in Hl. pose proof (entry_range off e b Hb He). lia.
Qed.

Lemma layout_changed bs lo hi off es b b' :
  changed lo hi b b' → Forall is_byte b → blen b = bs → hi <= off → layout bs off es b → layout bs off es b'.
Proof.
  intros Hc Hb Hl. revert off. induction es as [|e es IH]; intros off Ho; cbn [layout]; [done|]. intros (He & Hr).
  pose proof (entry_range off e b Hb He) as R. pose proof (layout_end _ _ _ _ Hb Hr). unfold DIRENT_SIZE in *.
  split; [apply (entry_changed lo hi off e b); done || lia|]. apply IH; [lia|done].
Qed.

(** ** Looking up a name *)

Lemma load_byte o b c : b !! Z.to_nat o = Some c → 0 <= o → load 1 o b = Some c.
Proof.
  intros Hb Ho. apply lookup_lt_Some in Hb as Hl. rewrite load_some by (apply within_spec; unfold blen; lia).
  f_equal. unfold slice. change (Z.to_nat (Z.of_nat 1)) with 1%nat. rewrite (drop_S b c) by done. cbn [take]. rewrite take_0. cbn [le_val]. lia.
Qed.

Lemma strncmp_ok name : Forall (λ c, 0 < c < 256) name → ∀ o b, 0 <= o → o + strlen name <= blen b →
  strncmp_at (length name) o b name = Some (bool_decide (slice o (strlen name) b = name)).
Proof.
  induction 1 as [|c name Hc Hn IH]; intros o b Ho Hl.
  { cbn. rewrite bool_decide_true; [done|]. unfold slice. by rewrite take_0. }
  unfold strlen in *. cbn [length strncmp_at] in *.
  destruct (lookup_lt_is_Some_2 b (Z.to_nat o)) as [d Hd]; [unfold blen in *; lia|].
  rewrite (load_byte o b d Hd Ho). cbn [mbind option_bind tail]. change (default 0 (head (c :: name))) with c.
  assert (slice o (Z.of_nat (S (length name))) b = d :: slice (o + 1) (Z.of_nat (length name)) b) as ->.
  { unfold slice. rewrite (drop_S b d) by done. replace (Z.to_nat (o + 1)) with (S (Z.to_nat o)) by lia. rewrite !Nat2Z.id. done. }
  destruct (Z.eqb_spec d c) as [->|Hne]; cbn [negb].
  - rewrite (proj2 (Z.eqb_neq c 0)) by lia. rewrite IH by lia. f_equal. apply bool_decide_ext. split; [by intros ->|by intros [= ->]].
  - f_equal. symmetry. apply bool_decide_false. congruence.
Qed.

Lemma find_scan_ok name bs b : is_name name → Forall is_byte b → blen b = bs → ∀ es fuel off, layout bs off es b → (length es <= fuel)%nat →
  find_scan fuel bs name off b = Some (match lookup_name name es with Some ino => inr ino | None => inl bs end).
Proof.
  intros (Hn & _) Hb Hbl. induction es as [|e es IH]; intros fuel off; cbn [layout lookup_name length].
  { intros -> _. destruct fuel; cbn [find_scan]; by rewrite Z.ltb_irrefl. }
  intros (He & Hl) Hf. pose proof (entry_range off e b Hb He) as R. pose proof (layout_end _ _ _ _ Hb Hl) as Hend. unfold DIRENT_SIZE in *.
  destruct fuel as [|fuel]; [lia|]. cbn [find_scan]. rewrite (proj2 (Z.ltb_lt off bs)) by lia.
  destruct He as [H1 H2 H3 H4 H5 H6]. rewrite H1, H2, H3. cbn [mbind option_bind]. unfold named.
  rewrite <- andb_assoc. destruct (Z.eqb_spec (d_ino e) 0) as [E0|E0]; cbn [negb andb]; [apply IH; done || lia|].
  destruct (Z.eqb_spec (d_len e) (strlen name)) as [El|El]; cbn [andb]; [|apply IH; done || lia].
  rewrite (strncmp_ok name Hn) by (unfold DIRENT_SIZE; lia). rewrite <- El, H6 by done. cbn [mbind option_bind].
  destruct (bool_decide (d_name e = name)); [done|]. apply IH; done || lia.
Qed.

(** ** Adding an entry *)

Lemma name_bytes name : is_name name → Forall is_byte name.
Proof. intros (H & _). eapply Forall_impl; [exact H|]. unfold is_byte. cbn. lia. Qed.

Lemma strncpy_all name : strncpy name (strlen name) = name.
Proof. unfold strncpy, strlen. rewrite Nat2Z.id, take_ge, Nat.sub_diag by done. apply app_nil_r. Qed.

(** Filling in an entry of [size] bytes whose size field is already there. *)
Lemma fill_entry_ok off ino name type size b :
  is_name name → 0 < ino < 2 ^ 32 → vnode_type_code type <= 7 → 0 <= vnode_type_code type → Forall is_byte b →
  0 <= off → DIRENT_SIZE + roundup (strlen name) 4 <= size → off + size <= blen b → load 2 (off + 4) b = Some size →
  ∃ b', fill_entry off ino name type true b = Some (Ok b') ∧ changed off (off + size) b b' ∧
    entry_at off (new_entry ino name (vnode_type_code type) size) b'.
Proof.
  intros Hn Hi Ht Ht0 Hb Ho Hs Hl Hsz. pose proof (roundup4 (strlen name)) as Hr. destruct Hn as (Hn1 & Hn2).
  assert (0 <= strlen name) as Hn0 by (unfold strlen; lia). specialize (Hr ltac:(lia)). unfold DIRENT_SIZE in *.
  destruct (store_ok 4 off ino b ltac:(lia) ltac:(lia)) as (b1 & E1 & L1 & C1).
  destruct (store_ok 1 (off + 6) (strlen name) b1 ltac:(lia) ltac:(rewrite (c_len _ _ _ _ C1); lia)) as (b2 & E2 & L2 & C2).
  assert (blen b2 = blen b) as Hb2 by (rewrite (c_len _ _ _ _ C2); apply C1).
  destruct (copy_in_ok (off + 8) name b2 ltac:(lia) ltac:(change (blen name) with (strlen name); lia)) as (b3 & E3 & L3 & C3); [by apply name_bytes|].
  change (blen name) with (strlen name) in *.
  destruct (store_ok 1 (off + 7) (vnode_type_code type) b3 ltac:(lia) ltac:(rewrite (c_len _ _ _ _ C3); lia)) as (b4 & E4 & L4 & C4).
  rewrite Z.mod_small in L1, L2, L4 by (cbn; lia). change (Z.of_nat 1) with 1 in *. change (Z.of_nat 4) with 4 in *.
  exists b4. split.
  - unfold fill_entry, EXT2_DIRENT_NAME_LEN. rewrite E1. cbn [mbind option_bind]. rewrite E2. cbn [mbind option_bind]. rewrite L2.
    cbn [mbind option_bind]. rewrite strncpy_all. unfold DIRENT_SIZE. rewrite E3. cbn [mbind option_bind].
    rewrite (proj2 (Z.leb_le _ _)) by done. rewrite E4. done.
  - split.
    + apply (changed_trans _ _ off (off + size) (off + 7) (off + 7 + 1) b b3); try done; try lia.
      apply (changed_trans _ _ off (off + size) (off + 8) (off + 8 + strlen name) b b2); try done; try lia.
      apply (changed_trans _ _ off (off + 4) (off + 6) (off + 6 + 1) b b1); try done; lia.
    + unfold new_entry. split; cbn [d_ino d_size d_len d_type d_name]; try done.
      * rewrite (changed_load _ _ b3 b4) by (done || lia). rewrite (changed_load _ _ b2 b3) by (done || lia).
        rewrite (changed_load _ _ b1 b2) by (done || lia). done.
      * rewrite (changed_load _ _ b3 b4) by (done || cbn; lia). rewrite (changed_load _ _ b2 b3) by (done || cbn; lia).
        rewrite (changed_load _ _ b1 b2) by (done || cbn; lia). rewrite (changed_load _ _ b b1) by (done || cbn; lia). done.
      * rewrite (changed_load _ _ b3 b4) by (done || cbn; lia). rewrite (changed_load _ _ b2 b3) by (done || cbn; lia). done.
      * unfold used. cbn [d_ino d_len]. rewrite (proj2 (Z.eqb_neq ino 0)) by lia. unfold DIRENT_SIZE. lia.
      * intros _. unfold DIRENT_SIZE. pose proof (c_len _ _ _ _ C3). rewrite (c_slice _ _ _ _ C4) by lia. done.
Qed.

(** The entry [e] at [off] split in the part it uses and a new entry. *)
Lemma split_entry_ok off ino name type e b :
  is_name name → 0 < ino < 2 ^ 32 → 0 <= vnode_type_code type <= 7 → Forall is_byte b → off + d_size e <= blen b → entry_at off e b →
  DIRENT_SIZE + roundup (strlen name) 4 <= d_size e - used e →
  ∃ b1 b2 b', store 2 (off + 4) (used e) b = Some b1 ∧ store 2 (off + used e + 4) (d_size e - used e) b1 = Some b2 ∧
    fill_entry (off + used e) ino name type true b2 = Some (Ok b') ∧ changed off (off + d_size e) b b' ∧
    entry_at off (shrunk e) b' ∧ entry_at (off + used e) (new_entry ino name (vnode_type_code type) (d_size e - used e)) b'.
Proof.
  intros Hn Hi Ht Hb Hl He Hroom. pose proof (entry_range off e b Hb He) as R. pose proof (roundup4 (strlen name)) as Hr.
  assert (0 <= strlen name < 256) as Hn0 by (destruct Hn; unfold strlen in *; lia). specialize (Hr ltac:(lia)). unfold DIRENT_SIZE in *.
  destruct (store_ok 2 (off + 4) (used e) b ltac:(lia) ltac:(lia)) as (b1 & E1 & L1 & C1). pose proof (c_len _ _ _ _ C1) as Hb1.
  destruct (store_ok 2 (off + used e + 4) (d_size e - used e) b1 ltac:(lia) ltac:(lia)) as (b2 & E2 & L2 & C2). pose proof (c_len _ _ _ _ C2) as Hb2.
  rewrite Z.mod_small in L1, L2 by (cbn; lia). change (Z.of_nat 2) with 2 in *.
  destruct (fill_entry_ok (off + used e) ino name type (d_size e - used e) b2) as (b' & E3 & C3 & He'); try (done || unfold DIRENT_SIZE; lia).
  { by apply (c_bytes _ _ _ _ C2), (c_bytes _ _ _ _ C1). }
  exists b1, b2, b'. repeat (split; [done|]). split; [|split; [|done]].
  - apply (changed_trans _ _ off (off + d_size e) (off + used e) (off + used e + (d_size e - used e)) b b2); try done; try lia.
    apply (changed_trans _ _ (off + 4) (off + 4 + 2) (off + used e + 4) (off + used e + 4 + 2) b b1); try done; lia.
  - assert (∀ n o, 0 <= o → o + Z.of_nat n <= off + used e → load n o b' = load n o b1) as Hk.
    { intros n o H0 H1. rewrite (changed_load _ _ b2 b' _ _ C3) by lia. apply (changed_load _ _ b1 b2 _ _ C2); lia. }
    assert (∀ n o, 0 <= o → o + Z.of_nat n <= off + used e → o + Z.of_nat n <= off + 4 ∨ off + 6 <= o → load n o b' = load n o b) as Hk'.
    { intros n o H0 H1 H2. rewrite Hk by done. apply (changed_load _ _ b b1 _ _ C1); lia. }
    destruct He as [H1 H2 H3 H4 H5 H6]. split; cbn [shrunk d_ino d_size d_len d_type d_name].
    + rewrite Hk' by lia. done.
    + rewrite Hk by (cbn; lia). done.
    + rewrite Hk' by (cbn; lia). done.
    + rewrite Hk' by (cbn; lia). done.
    + done.
    + intros E. rewrite <- H6 by done. unfold DIRENT_SIZE.
      rewrite (c_slice _ _ _ _ C3), (c_slice _ _ _ _ C2), (c_slice _ _ _ _ C1) by lia. done.
Qed.

(** The search for room, and the new entry where it finds some. *)
Lemma insert_scan_ok ino name type bs b :
  is_name name → 0 < ino < 2 ^ 32 → 0 <= vnode_type_code type <= 7 → Forall is_byte b → blen b = bs →
  ∀ es fuel off, layout bs off es b → (length es <= fuel)%nat →
  let r := insert_scan fuel bs (DIRENT_SIZE + roundup (strlen name) 4) true off b in
  match insert_entry ino name (vnode_type_code type) es with
  | None => r = Some (Ok None)
  | Some es' => ∃ at_ b1 b', r = Some (Ok (Some (at_, b1))) ∧ fill_entry at_ ino name type true b1 = Some (Ok b') ∧
      layout bs off es' b' ∧ changed off bs b b'
  end.
Proof.
  intros Hn Hi Ht Hb Hbl. induction es as [|e es IH]; intros fuel off; cbn [layout insert_entry length].
  { intros -> _. destruct fuel; cbn [insert_scan]; by rewrite Z.ltb_irrefl. }
  intros (He & Hl) Hf. pose proof (entry_range off e b Hb He) as R. pose proof (layout_end _ _ _ _ Hb Hl) as Hend. unfold DIRENT_SIZE in R, Hend.
  destruct fuel as [|fuel]; [lia|]. cbn [insert_scan]. rewrite (proj2 (Z.ltb_lt off bs)) by lia.
  rewrite (e_ino _ _ _ He). cbn [mbind option_bind].
  assert ((if d_ino e =? 0 then Some 0 else n ← EXT2_DIRENT_NAME_LEN off b true; Some (roundup n 4)) = Some (used e - DIRENT_SIZE)) as ->.
  { unfold used, EXT2_DIRENT_NAME_LEN. rewrite (e_len _ _ _ He). destruct (d_ino e =? 0); cbn; f_equal; lia. }
  cbn [mbind option_bind]. rewrite (e_size _ _ _ He). cbn [mbind option_bind]. replace (DIRENT_SIZE + (used e - DIRENT_SIZE)) with (used e) by lia.
  rewrite (proj2 (Z.ltb_ge _ _)) by lia. destruct (Z.leb_spec (DIRENT_SIZE + roundup (strlen name) 4) (d_size e - used e)) as [Hroom|Hroom].
  - destruct (split_entry_ok off ino name type e b) as (b1 & b2 & b' & E1 & E2 & E3 & C & H1 & H2); try (done || lia).
    exists (off + used e), b2, b'. rewrite E1. cbn [mbind option_bind]. rewrite Z.mod_small by lia. rewrite E2. split; [done|]. split; [done|].
    cbn [layout shrunk new_entry d_size]. split.
    + split; [done|]. split; [done|]. replace (off + used e + (d_size e - used e)) with (off + d_size e) by lia.
      apply (layout_changed bs off (off + d_size e) _ _ b); done || lia.
    + destruct C as [C1 C2 C3]. split; [done| |done]. intros. apply C2; lia.
  - specialize (IH fuel (off + d_size e) Hl ltac:(lia)). cbv zeta in IH. destruct (insert_entry ino name _ es) as [es'|]; cbn [mbind option_bind]; [|done].
    destruct IH as (at_ & b1 & b' & E & F & L & C). exists at_, b1, b'. split; [done|]. split; [done|]. split; [cbn [layout]; split; [|done]|].
    + apply (entry_changed (off + d_size e) bs off e b b'); done || lia.
    + destruct C as [C1 C2 C3]. split; [done| |done]. intros. apply C2; lia.
Qed.

Lemma named_shrunk name e : named name (shrunk e) = named name e.
Proof. done. Qed.

Lemma named_new n ino name code size : ino ≠ 0 → named n (new_entry ino name code size) = bool_decide (n = name).
Proof.
  intros Hi. unfold named, new_entry. cbn [d_ino d_len d_name]. rewrite (proj2 (Z.eqb_neq ino 0)) by done. cbn [negb andb].
  destruct (decide (n = name)) as [->|Hn].
  - by rewrite Z.eqb_refl, !bool_decide_true by done.
  - rewrite !(bool_decide_false) by congruence. apply andb_false_r.
Qed.

(** A name that was added is found, and the others as before. *)
Lemma lookup_insert_name ino name code es es' n : ino ≠ 0 → lookup_name name es = None → insert_entry ino name code es = Some es' →
  lookup_name n es' = if bool_decide (n = name) then Some ino else lookup_name n es.
Proof.
  intros Hi. revert es'. induction es as [|e es IH]; intros es'; cbn [lookup_name insert_entry]; [done|].
  destruct (named name e) eqn:Ee; [done|]. intros Hn. destruct (_ <=? _).
  - intros [= <-]. cbn [lookup_name]. rewrite named_shrunk, named_new by done. case_bool_decide as E; [subst n; by rewrite Ee|]. done.
  - destruct (insert_entry ino name code es) as [es1|] eqn:E1; cbn [mbind option_bind]; [|done]. intros [= <-]. cbn [lookup_name].
    rewrite (IH es1 Hn eq_refl). case_bool_decide as E; [subst n; by rewrite Ee|]. done.
Qed.

(** ** Removing an entry *)

Definition grown (p e : dirent) : dirent := Dirent (d_ino p) (d_size p + d_size e) (d_len p) (d_type p) (d_name p).

(** The entry [e] behind [p] given to [p]. *)
Lemma join_entries_ok off p e b :
  Forall is_byte b → entry_at off p b → entry_at (off + d_size p) e b → off + d_size p + d_size e <= blen b → d_size p + d_size e < 2 ^ 16 →
  ∃ b1 b', store 4 (off + d_size p) 0 b = Some b1 ∧ load 2 (off + 4) b1 = Some (d_size p) ∧
    store 2 (off + 4) (d_size p + d_size e) b1 = Some b' ∧ changed off (off + d_size p + d_size e) b b' ∧ entry_at off (grown p e) b'.
Proof.
  intros Hb Hp He Hl H16. pose proof (entry_range _ _ _ Hb Hp) as Rp. pose proof (entry_range _ _ _ Hb He) as Re. unfold DIRENT_SIZE in *.
  destruct (store_ok 4 (off + d_size p) 0 b ltac:(lia) ltac:(lia)) as (b1 & E1 & _ & C1). pose proof (c_len _ _ _ _ C1) as Hb1.
  destruct (store_ok 2 (off + 4) (d_size p + d_size e) b1 ltac:(lia) ltac:(lia)) as (b' & E2 & L2 & C2).
  rewrite Z.mod_small in L2 by (cbn; lia). change (Z.of_nat 2) with 2 in *. change (Z.of_nat 4) with 4 in *.
  assert (∀ n o, 0 <= o → o + Z.of_nat n <= off + d_size p → load n o b1 = load n o b) as Hk by (intros; apply (changed_load _ _ b b1 _ _ C1); lia).
  destruct Hp as [H1 H2 H3 H4 H5 H6]. exists b1, b'. split; [done|]. split; [rewrite Hk by (cbn; lia); done|]. split; [done|]. split.
  - apply (changed_trans _ _ (off + d_size p) (off + d_size p + 4) (off + 4) (off + 4 + 2) b b1); try done; lia.
  - split; cbn [grown d_ino d_size d_len d_type d_name]; try done.
    1-3: rewrite (changed_load _ _ b1 b' _ _ C2) by (cbn; lia); rewrite Hk by (cbn; lia); done.
    + change (used (grown p e)) with (used p). lia.
    + intros E. rewrite <- H6 by done. unfold DIRENT_SIZE. rewrite (c_slice _ _ _ _ C2), (c_slice _ _ _ _ C1) by lia. done.
Qed.

(** An entry that is not the first of its block. *)
Lemma remove_scan_ok ino name bs b e es2 : is_name name → ino ≠ 0 → Forall is_byte b → blen b = bs → bs < 2 ^ 16 →
  d_ino e = ino → d_len e = strlen name → d_name e = name →
  ∀ es1 p fuel off prev, layout bs off (es1 ++ p :: e :: es2) b → Forall (λ x, d_ino x ≠ ino) (es1 ++ [p]) → (length es1 + 2 <= fuel)%nat → 0 <= off →
  ∃ b', remove_scan fuel bs ino name true prev off b = Some (Ok (Some b')) ∧ layout bs off (es1 ++ grown p e :: es2) b' ∧ changed off bs b b'.
Proof.
  intros (Hn & _) Hi Hb Hbl H16 E1 E2 E3. induction es1 as [|x es1 IH]; intros p fuel off prev Hl Hne Hf Ho; cbn [app layout length] in *.
  - destruct Hl as (Hp & He & Hl). pose proof (entry_range _ _ _ Hb Hp) as Rp. pose proof (entry_range _ _ _ Hb He) as Re.
    pose proof (layout_end _ _ _ _ Hb Hl) as Hend. unfold DIRENT_SIZE in Rp, Re, Hend. apply Forall_cons in Hne as (Hne & _).
    destruct fuel as [|[|fuel]]; [lia..|]. cbn [remove_scan]. rewrite (proj2 (Z.ltb_lt off bs)) by lia.
    rewrite (e_ino _ _ _ Hp), (e_size _ _ _ Hp). cbn [mbind option_bind]. rewrite (proj2 (Z.eqb_neq _ _) Hne).
    rewrite (proj2 (Z.ltb_lt _ bs)) by lia. rewrite (e_ino _ _ _ He), (e_size _ _ _ He). cbn [mbind option_bind]. rewrite E1, Z.eqb_refl.
    unfold EXT2_DIRENT_NAME_LEN. rewrite (e_len _ _ _ He). cbn [mbind option_bind]. rewrite E2. replace (Z.to_nat (strlen name)) with (length name) by (unfold strlen; lia).
    rewrite (strncmp_ok name Hn) by (unfold DIRENT_SIZE; lia). rewrite <- E2, (e_name _ _ _ He), E3, bool_decide_true by congruence. cbn [mbind option_bind negb].
    destruct (join_entries_ok off p e b Hb Hp He ltac:(lia) ltac:(lia)) as (b1 & b' & S1 & L1 & S2 & C & Hg).
    rewrite S1. cbn [mbind option_bind]. rewrite (proj2 (Z.eqb_neq (d_size e) bs)) by lia. rewrite L1. cbn [mbind option_bind]. rewrite S2.
    exists b'. split; [done|]. cbn [grown d_size]. split.
    + split; [done|]. rewrite Z.add_assoc. apply (layout_changed bs off (off + d_size p + d_size e) _ _ b); done || lia.
    + destruct C as [C1 C2 C3]. split; [done| |done]. intros. apply C2; lia.
  - destruct Hl as (Hx & Hl). pose proof (entry_range _ _ _ Hb Hx) as Rx. pose proof (layout_end _ _ _ _ Hb Hl) as Hend. unfold DIRENT_SIZE in Rx, Hend.
    apply Forall_cons in Hne as (Hnx & Hne). destruct fuel as [|fuel]; [lia|]. cbn [remove_scan]. rewrite (proj2 (Z.ltb_lt off bs)) by lia.
    rewrite (e_ino _ _ _ Hx), (e_size _ _ _ Hx). cbn [mbind option_bind]. rewrite (proj2 (Z.eqb_neq _ _) Hnx).
    destruct (IH p fuel (off + d_size x) (Some off) Hl Hne ltac:(lia) ltac:(lia)) as (b' & R & L & C). exists b'. split; [done|]. split.
    + split; [|done]. apply (entry_changed (off + d_size x) bs off x b b'); done || lia.
    + destruct C as [C1 C2 C3]. split; [done| |done]. intros. apply C2; lia.
Qed.

(** The first entry of a block is not removed, unless it takes all of it. *)
Lemma remove_first_fails ino name bs b e es fuel : is_name name → Forall is_byte b → blen b = bs → layout bs 0 (e :: es) b → es ≠ [] →
  d_ino e = ino → ino ≠ 0 → d_len e = strlen name → d_name e = name → (0 < fuel)%nat → remove_scan fuel bs ino name true None 0 b = Some (Err ERROR_INVALID).
Proof.
  intros (Hn & _) Hb Hbl (He & Hl) Hes E1 Hi E2 E3 Hf. pose proof (entry_range _ _ _ Hb He) as R. pose proof (layout_end _ _ _ _ Hb Hl) as Hend.
  unfold DIRENT_SIZE in *. destruct es as [|x es]; [done|]. cbn [length] in Hend. destruct fuel as [|fuel]; [lia|]. cbn [remove_scan].
  rewrite (proj2 (Z.ltb_lt 0 bs)) by lia. rewrite (e_ino _ _ _ He), (e_size _ _ _ He). cbn [mbind option_bind]. rewrite E1, Z.eqb_refl.
  unfold EXT2_DIRENT_NAME_LEN. rewrite (e_len _ _ _ He). cbn [mbind option_bind]. rewrite E2. replace (Z.to_nat (strlen name)) with (length name) by (unfold strlen; lia).
  rewrite (strncmp_ok name Hn) by (unfold DIRENT_SIZE; lia). rewrite <- E2, (e_name _ _ _ He), E3, bool_decide_true by congruence. cbn [mbind option_bind negb].
  destruct (store_ok 4 0 0 b ltac:(lia) ltac:(lia)) as (b1 & -> & _). cbn [mbind option_bind]. rewrite (proj2 (Z.eqb_neq (d_size e) bs)) by lia. done.
Qed.

(** ** Termination *)

(** An entry of size zero keeps the search where it is. *)
Lemma find_scan_stuck name bs b off ino len : off < bs → load 4 off b = Some ino → load 1 (off + 6) b = Some len → load 2 (off + 4) b = Some 0 →
  ino = 0 ∨ len ≠ strlen name → ∀ fuel, find_scan fuel bs name off b = None.
Proof.
  intros Ho Hi Hl Hs Hd. induction fuel as [|fuel IH]; cbn [find_scan]; rewrite (proj2 (Z.ltb_lt off bs)) by done; [done|].
  rewrite Hi, Hl, Hs. cbn [mbind option_bind]. replace (negb (ino =? 0) && (len =? strlen name)) with false.
  - cbn [mbind option_bind]. rewrite Z.add_0_r. done.
  - destruct Hd as [->|Hd]; [done|]. rewrite (proj2 (Z.eqb_neq _ _) Hd). by rewrite andb_false_r.
Qed.

(** ** Names in nodes *)

Lemma load_head (c : Z) (l d : buffer) : load 1 (blen l) (l ++ c :: d) = Some c.
Proof. apply load_byte; unfold blen; [|lia]. rewrite list_lookup_middle; [done|lia]. Qed.

Lemma strncmp_step n off b name : strncmp_at (S n) off b name =
  c ← load 1 off b;
  if negb (c =? default 0 (head name)) then Some false else if c =? 0 then Some true else strncmp_at n (off + 1) b (tail name).
Proof. done. Qed.

Lemma strncmp_same c : Forall (λ x, 0 < x < 256) c → ∀ pre l N, (length c < N)%nat → strncmp_at N (blen pre) (pre ++ c ++ 0 :: l) c = Some true.
Proof.
  induction 1 as [|x c Hx _ IH]; intros pre l [|N] HN; cbn [length] in HN; try lia; rewrite strncmp_step; cbn [app]; rewrite load_head; cbn [mbind option_bind].
  - done.
  - change (default 0 (head (x :: c))) with x. rewrite Z.eqb_refl. cbn [negb tail]. rewrite (proj2 (Z.eqb_neq x 0)) by lia.
    specialize (IH (pre ++ [x]) l N ltac:(lia)). rewrite <- app_assoc, blen_app in IH. exact IH.
Qed.

(** The name a node was made with is the name it is found by. *)
Lemma stored_name name : Forall (λ x, 0 < x < 256) name → Z.of_nat (length name) < 64 →
  strncmp_at (Z.to_nat VNODE_NAME_MAX) 0 (strncpy (take 64 name) 64) name = Some true.
Proof.
  intros Hn Hl. rewrite take_ge by lia. unfold strncpy. rewrite take_ge by lia. destruct (Z.to_nat 64 - length name)%nat as [|z] eqn:E; [lia|].
  apply (strncmp_same name Hn [] (replicate z 0)). unfold VNODE_NAME_MAX. lia.
Qed.
