(* ===== verification/Ext2File.v ===== *)
(** * The contents of a file: what reading and writing do *)

From S2P Require Import Prelude Types Links Bytes Ext2 Ext2Inv Vnode Ext2Vnode.

(** ** Blocks put together *)

(** The buffers [f 0], ..., [f (n - 1)] one after another. *)
Fixpoint cat (f : Z → buffer) (n : nat) : buffer := match n with O => [] | S n => cat f n ++ f (Z.of_nat n) end.

Lemma cat_length f n z : (∀ k, 0 <= k < Z.of_nat n → blen (f k) = z) → blen (cat f n) = Z.of_nat n * z.
Proof.
  induction n as [|n IH]; intros H; [done|]. cbn [cat]. rewrite blen_app, IH, H by (intros; apply H || idtac; lia). lia.
Qed.

Lemma cat_ext f g n : (∀ k, 0 <= k < Z.of_nat n → f k = g k) → cat f n = cat g n.
Proof. induction n as [|n IH]; intros H; [done|]. cbn [cat]. rewrite IH, H by (intros; apply H || idtac; lia). done. Qed.

Lemma slice_app_l o n a b : 0 <= o → 0 <= n → o + n <= blen a → slice o n (a ++ b) = slice o n a.
Proof.
  intros. apply buffer_ext; [rewrite !slice_length; rewrite ?blen_app; unfold blen in *; lia|].
  rewrite slice_length by (rewrite ?blen_app; unfold blen in *; lia). intros i Hi. rewrite !slice_lookup by lia.
  apply lookup_app_l. unfold blen in *. lia.
Qed.

Lemma slice_app_r o n a b : blen a <= o → 0 <= n → o + n <= blen a + blen b → slice o n (a ++ b) = slice (o - blen a) n b.
Proof.
  intros. assert (0 <= blen a) by (unfold blen; lia). apply buffer_ext; [rewrite !slice_length; rewrite ?blen_app; lia|].
  rewrite slice_length by (rewrite ?blen_app; lia). intros i Hi. rewrite !slice_lookup by lia.
  rewrite lookup_app_r by (unfold blen in *; lia). f_equal. unfold blen in *. lia.
Qed.

Lemma cat_slice f n z k o l :
  (∀ k, 0 <= k < Z.of_nat n → blen (f k) = z) → 0 <= k < Z.of_nat n → 0 <= o → 0 <= l → o + l <= z →
  slice (k * z + o) l (cat f n) = slice o l (f k).
Proof.
  induction n as [|n IH]; intros Hf Hk Ho Hl Hz; [lia|]. cbn [cat].
  assert (∀ k, 0 <= k < Z.of_nat n → blen (f k) = z) as Hf' by (intros; apply Hf; lia). pose proof (cat_length f n z Hf') as Hlen.
  destruct (decide (k = Z.of_nat n)) as [->|Hne].
  - rewrite slice_app_r; rewrite ?Hlen, ?Hf; try lia. f_equal. lia.
  - rewrite slice_app_l by (rewrite ?Hlen; nia). apply IH; done || lia.
Qed.

Lemma patch_app_l o d a b : 0 <= o → o + blen d <= blen a → patch o d (a ++ b) = patch o d a ++ b.
Proof.
  intros H0 H1. assert (0 <= blen d) by (unfold blen; lia).
  apply buffer_ext; [rewrite blen_app, !patch_length; rewrite ?blen_app; unfold blen in *; lia|].
  rewrite patch_length by (rewrite ?blen_app; unfold blen in *; lia). intros i Hi. rewrite blen_app in Hi.
  rewrite patch_lookup by (rewrite ?blen_app; unfold blen in *; lia). pose proof (patch_length o d a H0 H1) as Hl.
  destruct (Z.lt_ge_cases i (blen a)).
  - rewrite (lookup_app_l (patch o d a)) by (unfold blen in *; lia). rewrite patch_lookup by lia. case_decide; [done|].
    apply lookup_app_l. unfold blen in *. lia.
  - rewrite decide_False by lia. rewrite !lookup_app_r by (unfold blen in *; lia). f_equal. unfold blen in *. lia.
Qed.

Lemma patch_app_r o d a b : blen a <= o → o + blen d <= blen a + blen b → patch o d (a ++ b) = a ++ patch (o - blen a) d b.
Proof.
  intros H0 H1. assert (0 <= blen d ∧ 0 <= blen a) as (? & ?) by (unfold blen; lia).
  apply buffer_ext; [rewrite blen_app, !patch_length; rewrite ?blen_app; lia|].
  rewrite patch_length by (rewrite ?blen_app; lia). intros i Hi. rewrite blen_app in Hi.
  rewrite patch_lookup by (rewrite ?blen_app; lia). destruct (Z.lt_ge_cases i (blen a)).
  - rewrite decide_False by lia. rewrite !lookup_app_l by (unfold blen in *; lia). done.
  - rewrite (lookup_app_r a (patch _ _ _)) by (unfold blen in *; lia).
    replace (Z.to_nat i - length a)%nat with (Z.to_nat (i - blen a)) by (unfold blen; lia). rewrite patch_lookup by lia.
    case_decide; case_decide; try lia; [f_equal; lia|]. rewrite lookup_app_r by (unfold blen in *; lia). f_equal. unfold blen. lia.
Qed.

(** Changing one of the buffers. *)
Lemma cat_patch f n z k o d :
  (∀ k, 0 <= k < Z.of_nat n → blen (f k) = z) → 0 <= k < Z.of_nat n → 0 <= o → o + blen d <= z →
  cat (λ i, if decide (i = k) then patch o d (f k) else f i) n = patch (k * z + o) d (cat f n).
Proof.
  induction n as [|n IH]; intros Hf Hk Ho Hd; [lia|]. cbn [cat].
  assert (∀ k, 0 <= k < Z.of_nat n → blen (f k) = z) as Hf' by (intros; apply Hf; lia). pose proof (cat_length f n z Hf') as Hlen.
  destruct (decide (k = Z.of_nat n)) as [->|Hne].
  - rewrite (cat_ext _ f n) by (intros i Hi; by rewrite decide_False by lia). rewrite decide_True by done.
    rewrite patch_app_r by (rewrite ?Hlen, ?Hf; lia). rewrite Hlen. do 2 f_equal. lia.
  - rewrite IH by (done || lia). rewrite decide_False by done. assert (0 <= blen d) by (unfold blen; lia).
    rewrite patch_app_l by (rewrite ?Hlen; nia). done.
Qed.

(** ** The blocks of an inode *)

Section file.
Context {D : Type} `{!BlockDevice D}.
Implicit Types s : ext2 D.

Abbreviation bs s := (block_size (data s)).

Definition l1_of (b : buffer) : Z := le_val (slice 88 4 b).

(** The block that holds block [k] of the file with inode [b]. *)
Definition fblk s (b : buffer) (k : Z) : Z :=
  if k <? EXT2_DIRECT_BLOCK_COUNT then le_val (slice (40 + 4 * k) 4 b)
  else le_val (slice (4 * (k - EXT2_DIRECT_BLOCK_COUNT)) 4 (blk s (l1_of b))).

(** An inode with [n] blocks, all different, and none of them the one of addresses. *)
Record file_ok s (b : buffer) (n : Z) : Prop := {
  f_bytes : Forall is_byte b;
  f_len : INODE_BYTES <= blen b;
  f_bs : bs s < 2 ^ 32;
  f_n : 0 <= n <= EXT2_DIRECT_BLOCK_COUNT + ADDR_COUNT_PER_BLOCK (bs s);
  f_disk k : 0 <= k < n → in_disk s (fblk s b k);
  f_inj j k : 0 <= j < n → 0 <= k < n → fblk s b j = fblk s b k → j = k;
  f_l1 : EXT2_DIRECT_BLOCK_COUNT < n → l1_of b ≠ 0 ∧ in_disk s (l1_of b) ∧ ∀ k, 0 <= k < n → fblk s b k ≠ l1_of b;
}.

Definition contents s (b : buffer) (n : Z) : buffer := cat (λ k, blk s (fblk s b k)) (Z.to_nat n).

Lemma contents_length s b n : good s → file_ok s b n → blen (contents s b n) = n * bs s.
Proof.
  intros Hg Hf. pose proof (f_n _ _ _ Hf). unfold contents. rewrite (cat_length _ _ (bs s)).
  - rewrite Z2Nat.id by lia. done.
  - intros k Hk. apply blk_length; [done|]. apply (f_disk _ _ _ Hf). lia.
Qed.

Lemma peeked_fblk s s' b k : peeked s s' → fblk s' b k = fblk s b k.
Proof. intros Hp. unfold fblk. by rewrite (peeked_blk s s' _ Hp). Qed.

Lemma peeked_file s s' b n : peeked s s' → file_ok s b n → file_ok s' b n ∧ contents s' b n = contents s b n.
Proof.
  intros Hp Hf. pose proof (peeked_data _ _ Hp) as Ed. split.
  - destruct Hf as [F1 F2 F3 F4 F5 F6 F7]. assert (∀ m, in_disk s m → in_disk s' m) as Hd.
    { destruct Hp as (d & -> & _ & Hd). unfold in_disk. cbn. by rewrite Hd. }
    split; rewrite ?Ed; try done.
    + intros k Hk. rewrite (peeked_fblk s s' b k Hp). by apply Hd, F5.
    + intros j k. rewrite !(peeked_fblk s s' b _ Hp). apply F6.
    + intros Hn. destruct (F7 Hn) as (G1 & G2 & G3). split; [done|]. split; [by apply Hd|]. intros k Hk. rewrite (peeked_fblk s s' b k Hp). by apply G3.
  - apply cat_ext. intros k _. by rewrite (peeked_fblk s s' b k Hp), (peeked_blk s s' _ Hp).
Qed.

Lemma get_field_ok s p f b : inodes s !! p = Some b → 0 <= f_off f → f_off f + Z.of_nat (f_size f) <= blen b →
  get_field p f s = Some (le_val (slice (f_off f) (Z.of_nat (f_size f)) b), s).
Proof.
  intros Hp H0 H1. unfold get_field. rewrite (bind_run _ _ s b s) by (unfold get_inode, lift; by rewrite Hp).
  unfold lift, fget. by rewrite load_some by by apply field_within.
Qed.

Lemma addr_in_block s k : good s → EXT2_DIRECT_BLOCK_COUNT <= k < EXT2_DIRECT_BLOCK_COUNT + ADDR_COUNT_PER_BLOCK (bs s) →
  0 <= 4 * (k - EXT2_DIRECT_BLOCK_COUNT) ∧ 4 * (k - EXT2_DIRECT_BLOCK_COUNT) + 4 <= bs s.
Proof.
  intros Hg Hk. pose proof (g_bs8 _ Hg). unfold EXT2_DIRECT_BLOCK_COUNT, ADDR_COUNT_PER_BLOCK in *. pose proof (Z.div_mod (bs s) 4 ltac:(lia)).
  pose proof (Z.mod_pos_bound (bs s) 4 ltac:(lia)). lia.
Qed.

Lemma get_index_ok s p b n k : good s → news s = [] → inodes s !! p = Some b → file_ok s b n → 0 <= k < n →
  ∃ s', ext2_inode_get_index p k s = Some (Ok (fblk s b k), s') ∧ peeked s s'.
Proof.
  intros Hg Hn Hp Hf Hk. pose proof (f_n _ _ _ Hf) as Hfn. pose proof (f_len _ _ _ Hf) as Hl. unfold INODE_BYTES in Hl.
  unfold ext2_inode_get_index, fblk. rewrite (bind_run get_data _ s (data s) s) by done.
  destruct (Z.ltb_spec k EXT2_DIRECT_BLOCK_COUNT) as [Hlt|Hge].
  - exists s. split; [|by apply peeked_refl]. unfold EXT2_DIRECT_BLOCK_COUNT in *.
    rewrite (bind_run _ _ _ _ _ (get_field_ok s p (direct_blocks k) b Hp ltac:(cbn; lia) ltac:(cbn; lia))). done.
  - destruct (f_l1 _ _ _ Hf ltac:(lia)) as (L1 & L2 & L3). rewrite (bind_run _ _ s true s) by (unfold new_buffer; by rewrite Hn).
    rewrite (proj2 (Z.ltb_lt k _)) by lia.
    rewrite (bind_run _ _ _ _ _ (get_field_ok s p indirect_block_l1 b Hp ltac:(cbn; lia) ltac:(cbn; lia))). cbn [f_off f_size indirect_block_l1].
    change (Z.of_nat 4) with 4. fold (l1_of b). rewrite (proj2 (Z.eqb_neq (l1_of b) 0)) by done. rewrite (bind_run _ _ s tt s) by done.
    destruct (block_read_ok s (l1_of b) Hg L2) as (d & Hr & Hd & Hw). rewrite (rbind_run _ _ _ _ _ Hr).
    exists (with_dev d s). split; [|by exists d]. destruct (addr_in_block s k Hg ltac:(lia)) as (A0 & A1).
    rewrite (bind_run _ _ (with_dev d s) (le_val (slice (4 * (k - EXT2_DIRECT_BLOCK_COUNT)) 4 (blk s (l1_of b)))) (with_dev d s)); [done|].
    unfold lift. rewrite load_some; [done|]. apply within_spec. rewrite blk_length by done. lia.
Qed.

Lemma index_small s b n k : good s → file_ok s b n → 0 <= k < n → k mod 2 ^ 32 = k.
Proof.
  intros Hg Hf Hk. pose proof (f_n _ _ _ Hf). pose proof (f_bs _ _ _ Hf). pose proof (g_bs _ Hg). unfold EXT2_DIRECT_BLOCK_COUNT, ADDR_COUNT_PER_BLOCK in *.
  pose proof (Z.div_mod (bs s) 4 ltac:(lia)). pose proof (Z.mod_pos_bound (bs s) 4 ltac:(lia)). apply Z.mod_small. lia.
Qed.

Lemma read_block_ok s p b n k : good s → news s = [] → inodes s !! p = Some b → file_ok s b n → 0 <= k < n →
  ∃ s', ext2_inode_read_block p k s = Some (Ok (blk s (fblk s b k)), s') ∧ peeked s s'.
Proof.
  intros Hg Hn Hp Hf Hk. unfold ext2_inode_read_block. rewrite (index_small s b n k Hg Hf Hk).
  destruct (get_index_ok s p b n k Hg Hn Hp Hf Hk) as (s1 & Hi & Hp1). rewrite (rbind_run _ _ _ _ _ Hi).
  destruct (peeked_file s s1 b n Hp1 Hf) as (Hf1 & _). pose proof (peeked_good _ _ Hp1 Hg) as Hg1.
  pose proof (f_disk _ _ _ Hf1 k Hk) as Hin. rewrite (peeked_fblk s s1 b k Hp1) in Hin.
  destruct (block_read_ok s1 _ Hg1 Hin) as (d & Hr & Hd & Hw). exists (with_dev d s1). rewrite (peeked_blk s s1 _ Hp1) in Hr.
  split; [done|]. apply (peeked_trans s s1); [done|]. by exists d.
Qed.

Lemma write_block_ok s p b n k x : good s → news s = [] → inodes s !! p = Some b → file_ok s b n → 0 <= k < n →
  blen x = bs s → Forall is_byte x →
  ∃ s', ext2_inode_write_block p x k s = Some (Ok tt, s') ∧ wrote s (fblk s b k) x s'.
Proof.
  intros Hg Hn Hp Hf Hk Hx Hxb. unfold ext2_inode_write_block. rewrite (index_small s b n k Hg Hf Hk).
  destruct (get_index_ok s p b n k Hg Hn Hp Hf Hk) as (s1 & Hi & Hp1). rewrite (rbind_run _ _ _ _ _ Hi).
  destruct (peeked_file s s1 b n Hp1 Hf) as (Hf1 & _). pose proof (peeked_good _ _ Hp1 Hg) as Hg1.
  pose proof (f_disk _ _ _ Hf1 k Hk) as Hin. rewrite (peeked_fblk s s1 b k Hp1) in Hin.
  destruct (block_write_ok s1 x _ Hg1 Hin ltac:(rewrite (peeked_data _ _ Hp1); done) Hxb) as (d & Hr & Hd & Hw).
  exists (with_dev d s1). split; [done|]. apply (peeked_wrote s s1); [done|]. by exists d.
Qed.

(** Writing block [k] of the file. *)
Lemma wrote_file s b n k o x s' : good s → file_ok s b n → 0 <= k < n → 0 <= o → o + blen x <= bs s →
  wrote s (fblk s b k) (patch o x (blk s (fblk s b k))) s' →
  good s' ∧ file_ok s' b n ∧ contents s' b n = patch (k * bs s + o) x (contents s b n) ∧
  (∀ m, in_disk s m → m ≠ fblk s b k → blk s' m = blk s m) ∧ (∀ m, in_disk s m → in_disk s' m).
Proof.
  intros Hg Hf Hk Ho Hx (d & -> & Hw & Hd). pose proof (f_disk _ _ _ Hf k Hk) as Hin. pose proof (f_n _ _ _ Hf) as Hn.
  set (y := patch o x (blk s (fblk s b k))) in *. pose proof (blk_length s _ Hg Hin) as Hbl.
  assert (blen y = bs s) as Hy by (unfold y; rewrite patch_length; lia).
  assert (blen (disk d) = blen (disk (dev s))) as Hl by (rewrite Hd; by apply patch_block_length).
  assert (∀ m, in_disk s m → in_disk (with_dev d s) m) as Hdm by (intros m; unfold in_disk; cbn; by rewrite Hl).
  assert (∀ m, in_disk s m → blk (with_dev d s) m = if decide (m = fblk s b k) then y else blk s m) as Hblk by (intros m Hm; by apply blk_patch).
  assert (∀ j, 0 <= j < n → fblk (with_dev d s) b j = fblk s b j) as Hfb.
  { intros j Hj. unfold fblk at 1 2. destruct (Z.ltb_spec j EXT2_DIRECT_BLOCK_COUNT); [done|].
    destruct (f_l1 _ _ _ Hf ltac:(lia)) as (_ & L2 & L3). rewrite Hblk by done. rewrite decide_False; [done|]. intros E. by apply (L3 k Hk). }
  split; [by apply good_with_dev|]. split; [|split; [|split; [|done]]].
  - destruct Hf as [F1 F2 F3 F4 F5 F6 F7]. split; try done.
    + intros j Hj. rewrite Hfb by done. by apply Hdm, F5.
    + intros i j Hi Hj. rewrite !Hfb by done. by apply F6.
    + intros H12. destruct (F7 H12) as (L1 & L2 & L3). split; [done|]. split; [by apply Hdm|]. intros j Hj. rewrite Hfb by done. by apply L3.
  - unfold contents. rewrite <- (cat_patch _ (Z.to_nat n) (bs s) k o x) by (lia || (intros; apply blk_length; [done|]; apply (f_disk _ _ _ Hf); lia)).
    apply cat_ext. intros j Hj. rewrite Hfb, Hblk by (lia || apply (f_disk _ _ _ Hf); lia).
    destruct (decide (j = k)) as [->|Hne]; [by rewrite decide_True by done|]. rewrite decide_False; [done|]. intros E. apply Hne. by apply (f_inj _ _ _ Hf j k); [lia..|].
  - intros m Hm Hne. rewrite Hblk by done. by rewrite decide_False.
Qed.

(** ** Reading *)

Lemma set_pos_set_pos x y fd : set_pos x (set_pos y fd) = set_pos x fd.
Proof. done. Qed.

Lemma slice_nil o b : slice o 0 b = [].
Proof. done. Qed.

(** Where a position is: its block and what is left of it. *)
Lemma position s pos : good s → 0 <= pos →
  pos = pos / bs s * bs s + pos mod bs s ∧ 0 <= pos mod bs s < bs s ∧ 0 <= pos / bs s.
Proof.
  intros Hg H. pose proof (g_bs _ Hg). pose proof (Z.div_mod pos (bs s) ltac:(lia)). pose proof (Z.mod_pos_bound pos (bs s) ltac:(lia)).
  pose proof (Z.div_pos pos (bs s) ltac:(lia) ltac:(lia)). lia.
Qed.

Lemma read_loop_ok fuel s p b n size fd acc :
  good s → news s = [] → inodes s !! p = Some b → file_ok s b n → 0 <= fo_pos fd → 0 <= size <= Z.of_nat fuel →
  fo_pos fd + size <= n * bs s → fo_pos fd + size < 2 ^ 64 →
  ∃ s', read_loop fuel p (bs s) size fd acc s = Some ((Ok tt, set_pos (fo_pos fd + size) fd, acc ++ slice (fo_pos fd) size (contents s b n)), s') ∧
    peeked s s'.
Proof.
  revert s size fd acc. induction fuel as [|fuel IH]; intros s size fd acc Hg Hn Hp Hf H0 Hsz Hle H64.
  all: cbn [read_loop]; destruct (Z.eqb_spec size 0) as [->|Hne]; try lia.
  1,2: exists s; split; [|by apply peeked_refl]; rewrite slice_nil, app_nil_r, Z.add_0_r; by destruct fd.
  destruct (position s (fo_pos fd) Hg H0) as (Hpos & Hm & Hd). pose proof (g_bs _ Hg) as Hbs. set (k := fo_pos fd / bs s) in *.
  set (o := fo_pos fd mod bs s) in *. set (r := Z.min size (bs s - o)). assert (0 < r <= size ∧ o + r <= bs s) as (Hr & Hor) by lia.
  assert (0 <= k < n) as Hk by nia. pose proof (contents_length s b n Hg Hf) as Hcl.
  destruct (read_block_ok s p b n k Hg Hn Hp Hf Hk) as (s1 & Hrd & Hp1). rewrite (bind_run _ _ _ _ _ Hrd).
  pose proof (f_disk _ _ _ Hf k Hk) as Hin. pose proof (blk_length s _ Hg Hin) as Hbl.
  rewrite (bind_run _ _ s1 (slice o r (blk s (fblk s b k))) s1) by (unfold lift; rewrite copy_out_some; [done|apply within_spec; lia]).
  destruct (peeked_file s s1 b n Hp1 Hf) as (Hf1 & Hc1). pose proof (peeked_data _ _ Hp1) as Ed. pose proof (peeked_good _ _ Hp1 Hg) as Hg1.
  assert (news s1 = [] ∧ inodes s1 !! p = Some b) as (Hn1 & Hi1) by (destruct Hp1 as (d & -> & _); done).
  rewrite (wrap64_small (fo_pos fd + r)) by (unfold is_u64; lia).
  destruct (IH s1 (size - r) (set_pos (fo_pos fd + r) fd) (acc ++ slice o r (blk s (fblk s b k))) Hg1 Hn1 Hi1 Hf1) as (s2 & Hrun & Hp2);
    cbn [fo_pos set_pos]; rewrite ?Ed; try lia.
  rewrite Ed in Hrun. exists s2. split; [|by eapply peeked_trans]. rewrite Hrun, set_pos_set_pos. cbn [fo_pos set_pos]. rewrite Hc1, <- app_assoc.
  do 3 f_equal; [f_equal; f_equal; lia|]. f_equal. rewrite <- (cat_slice (λ k, blk s (fblk s b k)) (Z.to_nat n) (bs s) k o r)
    by (lia || (intros; apply blk_length; [done|]; apply (f_disk _ _ _ Hf); lia)).
  fold (contents s b n). rewrite <- Hpos. rewrite <- slice_app by lia. f_equal. lia.
Qed.

(** ** Writing *)

(** The state [s'] differs from [s] in the contents of the file only. *)
Definition rewritten s (b : buffer) (n : Z) (c : buffer) s' : Prop :=
  good s' ∧ file_ok s' b n ∧ contents s' b n = c ∧ data s' = data s ∧ inodes s' = inodes s ∧ heap s' = heap s ∧ news s' = news s ∧ clock s' = clock s ∧
  (∀ m, in_disk s m → in_disk s' m) ∧ ∀ m, in_disk s m → (∀ k, 0 <= k < n → m ≠ fblk s b k) → blk s' m = blk s m.

Lemma wrote_rewritten s b n k o x s' : good s → file_ok s b n → 0 <= k < n → 0 <= o → o + blen x <= bs s →
  wrote s (fblk s b k) (patch o x (blk s (fblk s b k))) s' → rewritten s b n (patch (k * bs s + o) x (contents s b n)) s'.
Proof.
  intros Hg Hf Hk Ho Hx Hw. destruct (wrote_file s b n k o x s' Hg Hf Hk Ho Hx Hw) as (G & F & C & O & I).
  destruct Hw as (d & -> & _). do 9 (split; [done|]). intros m Hm Hne. apply O; [done|]. by apply Hne.
Qed.

Lemma rewritten_fblk s b n c s' k : rewritten s b n c s' → file_ok s b n → 0 <= k < n → fblk s' b k = fblk s b k.
Proof.
  intros (_ & _ & _ & Ed & _ & _ & _ & _ & _ & O) Hf Hk. unfold fblk. destruct (Z.ltb_spec k EXT2_DIRECT_BLOCK_COUNT); [done|].
  destruct (f_l1 _ _ _ Hf ltac:(lia)) as (_ & L2 & L3). rewrite O; [done..|]. intros j Hj E. by apply (L3 j Hj).
Qed.

Lemma rewritten_trans s b n c s1 c' s2 : file_ok s b n → rewritten s b n c s1 → rewritten s1 b n c' s2 → rewritten s b n c' s2.
Proof.
  intros Hf H1 H2. pose proof (λ k, rewritten_fblk s b n c s1 k H1 Hf) as E.
  destruct H1 as (G1 & F1 & C1 & D1 & I1 & P1 & N1 & K1 & L1 & O1), H2 as (G2 & F2 & C2 & D2 & I2 & P2 & N2 & K2 & L2 & O2).
  do 3 (split; [done|]). do 5 (split; [congruence|]). split; [auto|]. intros m Hm Hne. rewrite O2; [by apply O1|by apply L1|].
  intros k Hk. rewrite E by done. by apply Hne.
Qed.

Lemma write_loop_ok fuel s p b n buf fd :
  good s → news s = [] → inodes s !! p = Some b → file_ok s b n → bs s <= WRITE_BUFFER → Forall is_byte buf → 0 <= fo_pos fd →
  (length buf <= fuel)%nat → fo_pos fd + blen buf <= n * bs s → fo_pos fd + blen buf < 2 ^ 64 →
  ∃ s', write_loop fuel true p (bs s) buf fd s = Some ((Ok tt, set_pos (fo_pos fd + blen buf) fd), s') ∧
    rewritten s b n (patch (fo_pos fd) buf (contents s b n)) s'.
Proof.
  revert s buf fd. induction fuel as [|fuel IH]; intros s buf fd Hg Hn Hp Hf Hwb Hby H0 Hfu Hle H64.
  all: cbn [write_loop]; destruct (Z.eqb_spec (blen buf) 0) as [Hz|Hz].
  all: pose proof (contents_length s b n Hg Hf) as Hcl; assert (0 <= blen buf) as Hb0 by (unfold blen; lia).
  1,3: exists s; rewrite Hz, Z.add_0_r; split; [by destruct fd|]; assert (buf = []) as -> by (apply nil_length_inv; unfold blen in *; lia);
       rewrite patch_nil by lia; done.
  { exfalso. unfold blen in *. lia. }
  destruct (position s (fo_pos fd) Hg H0) as (Hpos & Hm & Hd). pose proof (g_bs _ Hg) as Hbs. set (k := fo_pos fd / bs s) in *.
  set (o := fo_pos fd mod bs s) in *. set (r := Z.min (blen buf) (bs s - o)). assert (0 < r <= blen buf ∧ o + r <= bs s) as (Hr & Hor) by lia.
  assert (0 <= k < n) as Hk by nia. rewrite (proj2 (Z.eqb_neq r 0)) by lia. pose proof (f_disk _ _ _ Hf k Hk) as Hin.
  pose proof (blk_length s _ Hg Hin) as Hbl. pose proof (slice_length 0 r buf ltac:(lia) ltac:(lia) ltac:(lia)) as Hsl.
  assert (∃ s1, (if negb (r =? bs s) then
               kassert (true && (bs s <=? WRITE_BUFFER));;
               b0 ←? ext2_inode_read_block p k;
               b0 ← lift (copy_in o (slice 0 r buf) b0);
               ext2_inode_write_block p b0 k
             else ext2_inode_write_block p (slice 0 (bs s) buf) k) s = Some (Ok tt, s1) ∧
             wrote s (fblk s b k) (patch o (slice 0 r buf) (blk s (fblk s b k))) s1) as (s1 & Hrun & Hw).
  { destruct (Z.eqb_spec r (bs s)) as [E|E]; cbn [negb].
    - assert (o = 0) as Eo by lia. assert (patch o (slice 0 r buf) (blk s (fblk s b k)) = slice 0 (bs s) buf) as ->.
      { rewrite Eo, E. apply patch_all. rewrite <- E, Hsl. lia. }
      apply (write_block_ok s p b n k); try done; [rewrite <- E; done|by apply slice_bytes].
    - rewrite (bind_run _ _ s tt s) by (apply kassert_true; cbn; by apply Z.leb_le).
      destruct (read_block_ok s p b n k Hg Hn Hp Hf Hk) as (s0 & Hrd & Hp0). rewrite (rbind_run _ _ _ _ _ Hrd).
      rewrite (bind_run _ _ s0 (patch o (slice 0 r buf) (blk s (fblk s b k))) s0) by (unfold lift; rewrite copy_in_some; [done|apply within_spec; lia]).
      destruct (peeked_file s s0 b n Hp0 Hf) as (Hf0 & _). assert (news s0 = [] ∧ inodes s0 !! p = Some b) as (Hn0 & Hi0) by (destruct Hp0 as (d & -> & _); done).
      destruct (write_block_ok s0 p b n k (patch o (slice 0 r buf) (blk s (fblk s b k))) (peeked_good _ _ Hp0 Hg) Hn0 Hi0 Hf0 Hk) as (s1 & Hwr & Hwt).
      { rewrite (peeked_data _ _ Hp0), patch_length by lia. done. } { apply patch_bytes; [by apply slice_bytes|by apply blk_bytes]. }
      exists s1. split; [done|]. rewrite (peeked_fblk s s0 b k Hp0) in Hwt. by eapply peeked_wrote. }
  rewrite (bind_run _ _ _ _ _ Hrun). pose proof (wrote_rewritten s b n k o (slice 0 r buf) s1 Hg Hf Hk ltac:(lia) ltac:(lia) Hw) as Hrw.
  rewrite <- Hpos in Hrw. pose proof Hrw as (G1 & F1 & C1 & D1 & I1 & P1 & N1 & K1 & L1 & O1).
  set (rest := drop (Z.to_nat r) buf). assert (blen rest = blen buf - r) as Hrl by (unfold rest, blen; rewrite length_drop; unfold blen in *; lia).
  assert (slice 0 r buf ++ rest = buf) as Hsplit by (unfold slice, rest; cbn [Z.to_nat drop]; apply take_drop).
  rewrite (wrap64_small (fo_pos fd + r)) by (unfold is_u64; lia).
  destruct (IH s1 rest (set_pos (fo_pos fd + r) fd) G1 ltac:(congruence) ltac:(congruence) F1) as (s2 & Hrun2 & Hrw2);
    cbn [fo_pos set_pos]; rewrite ?D1; try lia.
  { by apply Forall_drop. } { unfold blen in *. lia. }
  exists s2. rewrite D1 in Hrun2. rewrite Hrun2, set_pos_set_pos. split; [do 2 f_equal; f_equal; f_equal; cbn; lia|].
  replace (patch (fo_pos fd) buf (contents s b n)) with (patch (fo_pos fd + r) rest (contents s1 b n)); [by eapply rewritten_trans|].
  rewrite C1. rewrite <- Hsplit at 2. rewrite <- patch_app by lia. by rewrite Hsl.
Qed.

(** ** The inode of a file *)

(** The addresses in the inode are those of [b]. *)
Definition same_map (b b' : buffer) : Prop := blen b' = blen b ∧ slice 40 52 b' = slice 40 52 b.

Lemma same_map_fblk s b b' k : INODE_BYTES <= blen b → same_map b b' → 0 <= k → fblk s b' k = fblk s b k ∧ l1_of b' = l1_of b.
Proof.
  unfold INODE_BYTES. intros Hl (El & Em) Hk.
  assert (∀ o, 0 <= o → o + 4 <= 52 → slice (40 + o) 4 b' = slice (40 + o) 4 b) as Hs.
  { intros o H0 H1. rewrite <- !(slice_slice o 4 40 52) by lia. by rewrite Em. }
  assert (l1_of b' = l1_of b) as El1 by (unfold l1_of; change 88 with (40 + 48); by rewrite Hs by lia). split; [|done].
  unfold fblk. rewrite El1. destruct (Z.ltb_spec k EXT2_DIRECT_BLOCK_COUNT); [|done]. unfold EXT2_DIRECT_BLOCK_COUNT in *. by rewrite Hs by lia.
Qed.

Lemma same_map_file s b b' n : file_ok s b n → same_map b b' → Forall is_byte b' → file_ok s b' n ∧ contents s b' n = contents s b n.
Proof.
  intros Hf Hm Hb. pose proof (f_len _ _ _ Hf) as Hl. assert (∀ k, 0 <= k → fblk s b' k = fblk s b k) as E by (intros; by apply same_map_fblk).
  assert (l1_of b' = l1_of b) as El by (by apply (same_map_fblk s b b' 0)). split.
  - destruct Hf as [F1 F2 F3 F4 F5 F6 F7]. split; try done.
    + destruct Hm as (-> & _). done.
    + intros k Hk. rewrite E by lia. by apply F5.
    + intros j k Hj Hk. rewrite !E by lia. by apply F6.
    + intros H12. rewrite El. destruct (F7 H12) as (L1 & L2 & L3). split; [done|]. split; [done|]. intros k Hk. rewrite E by lia. by apply L3.
  - apply cat_ext. intros k Hk. rewrite E by lia. done.
Qed.

(** A field outside of the addresses changed. *)
Lemma field_same_map b f v : INODE_BYTES <= blen b → 0 <= f_off f → f_off f + Z.of_nat (f_size f) <= INODE_BYTES →
  f_off f + Z.of_nat (f_size f) <= 40 ∨ 92 <= f_off f →
  same_map b (patch (f_off f) (le_bytes (f_size f) v) b).
Proof.
  unfold INODE_BYTES. intros Hl H0 H1 H2. split.
  - apply patch_length; rewrite ?le_bytes_blen; lia.
  - apply slice_patch_other; rewrite ?le_bytes_blen; lia.
Qed.

Lemma same_map_trans b1 b2 b3 : same_map b1 b2 → same_map b2 b3 → same_map b1 b3.
Proof. intros (L1 & S1) (L2 & S2). split; congruence. Qed.

Definition isize (b : buffer) : Z := Z.lor (Z.shiftl (le_val (slice 108 4 b)) 32) (le_val (slice 4 4 b)).

Lemma inode_size_ok s p b : inodes s !! p = Some b → INODE_BYTES <= blen b → EXT2_INODE_SIZE p s = Some (isize b, s).
Proof.
  unfold INODE_BYTES. intros Hp Hl. unfold EXT2_INODE_SIZE.
  rewrite (bind_run _ _ _ _ _ (get_field_ok s p size_upper b Hp ltac:(done) ltac:(cbn; lia))).
  by rewrite (bind_run _ _ _ _ _ (get_field_ok s p size_lower b Hp ltac:(done) ltac:(cbn; lia))).
Qed.

Definition with_inode s (p : loc) (b : buffer) : ext2 D := Ext2 (dev s) (data s) (<[p := b]> (inodes s)) (heap s) (news s) (clock s).

Definition sized (v : Z) (b : buffer) : buffer := patch 108 (le_bytes 4 (Z.shiftr v 32)) (patch 4 (le_bytes 4 (Z.land v 0xFFFFFFFF)) b).

Lemma join_halves v : 0 <= v < 2 ^ 64 → Z.lor (Z.shiftl (Z.shiftr v 32 mod 2 ^ 32) 32) (Z.land v 0xFFFFFFFF mod 2 ^ 32) = v.
Proof.
  intros H. change 0xFFFFFFFF with (Z.ones 32). rewrite Z.land_ones, Z.mod_mod, Z.shiftr_div_pow2 by lia.
  rewrite (Z.mod_small (v / 2 ^ 32)) by (split; [apply Z.div_pos; lia|apply Z.div_lt_upper_bound; lia]).
  rewrite lor_low by (lia || apply Z.mod_pos_bound; lia). pose proof (Z.div_mod v (2 ^ 32) ltac:(lia)). lia.
Qed.

Lemma sized_ok v b : INODE_BYTES <= blen b → Forall is_byte b → 0 <= v < 2 ^ 64 →
  same_map b (sized v b) ∧ Forall is_byte (sized v b) ∧ isize (sized v b) = v.
Proof.
  intros Hl Hb Hv. unfold sized. set (b1 := patch 4 (le_bytes 4 (Z.land v 0xFFFFFFFF)) b).
  assert (same_map b b1) as H1 by (apply (field_same_map b size_lower); cbn; try done; lia). assert (blen b1 = blen b) as L1 by apply H1.
  assert (same_map b1 (patch 108 (le_bytes 4 (Z.shiftr v 32)) b1)) as H2 by (apply (field_same_map b1 size_upper); cbn; rewrite ?L1; try done; lia).
  split; [by eapply same_map_trans|]. split; [do 2 (apply patch_bytes; [apply le_bytes_bytes|]); done|]. unfold isize, INODE_BYTES in *.
  pose proof (slice_patch 108 (le_bytes 4 (Z.shiftr v 32)) b1) as P1. rewrite le_bytes_blen in P1. change (Z.of_nat 4) with 4 in P1.
  rewrite P1 by lia. rewrite slice_patch_other by (rewrite ?le_bytes_blen; lia).
  pose proof (slice_patch 4 (le_bytes 4 (Z.land v 0xFFFFFFFF)) b) as P2. rewrite le_bytes_blen in P2. change (Z.of_nat 4) with 4 in P2.
  unfold b1. rewrite P2 by lia. rewrite !le_val_bytes. change (8 * Z.of_nat 4) with 32. by apply join_halves.
Qed.

(** A change of size that keeps the number of blocks. *)
Lemma resize_same_blocks s p b n v :
  good s → inodes s !! p = Some b → file_ok s b n → roundup (isize b) (bs s) / bs s = n → roundup v (bs s) / bs s = n → 0 <= v < 2 ^ 64 →
  ∃ b', ext2_inode_resize p v s = Some (Ok tt, with_inode s p b') ∧ same_map b b' ∧ Forall is_byte b' ∧ isize b' = v.
Proof.
  intros Hg Hp Hf Ho Hv Hr. pose proof (f_len _ _ _ Hf) as Hl. pose proof (f_n _ _ _ Hf) as Hn. unfold ext2_inode_resize.
  rewrite (bind_run get_data _ s (data s) s) by done. rewrite (bind_run _ _ _ _ _ (inode_size_ok s p b Hp Hl)). rewrite Ho, Hv.
  rewrite (proj2 (Z.ltb_ge _ n)) by lia. cbn [orb]. rewrite Z.ltb_irrefl, Z.sub_diag. rewrite (rbind_run _ _ s tt s) by done.
  destruct (sized_ok v b Hl (f_bytes _ _ _ Hf) Hr) as (Hm & Hby & Hs). pose proof (proj1 Hm) as Hsl. unfold ext2_inode_set_size, INODE_BYTES in *.
  set (b1 := patch 4 (le_bytes 4 (Z.land v 0xFFFFFFFF)) b).
  assert (blen b1 = blen b) as L1 by (apply patch_length; rewrite ?le_bytes_blen; lia).
  rewrite (bind_run _ _ s tt (with_inode s p (sized v b))).
  2:{ rewrite (bind_run _ _ s tt (with_inode s p b1)) by (apply (set_field_ok s p size_lower _ b Hp); cbn; lia).
      rewrite (set_field_ok (with_inode s p b1) p size_upper _ b1); [|apply lookup_insert_eq|done|cbn; lia].
      cbn [inodes with_inode dev data heap news clock]. by rewrite insert_insert_eq. }
  set (c := n + b2z _). exists (patch 28 (le_bytes 4 c) (sized v b)).
  rewrite (bind_run _ _ _ tt (with_inode s p (patch 28 (le_bytes 4 c) (sized v b)))).
  2:{ rewrite (set_field_ok (with_inode s p (sized v b)) p sector_count _ (sized v b)); [|apply lookup_insert_eq|done|cbn; lia].
      cbn [inodes with_inode dev data heap news clock]. by rewrite insert_insert_eq. }
  split; [done|]. split; [|split].
  - apply (same_map_trans _ (sized v b)); [done|]. apply (field_same_map (sized v b) sector_count); unfold INODE_BYTES; cbn; lia.
  - apply patch_bytes; [apply le_bytes_bytes|done].
  - rewrite <- Hs at 2. unfold isize. by rewrite !slice_patch_other by (rewrite ?le_bytes_blen; lia).
Qed.

(** A block that is not one of the file's written. *)
Lemma other_block s b n m x d : good s → file_ok s b n → in_disk s m → blen x = bs s → (∀ k, 0 <= k < n → m ≠ fblk s b k) →
  (EXT2_DIRECT_BLOCK_COUNT < n → m ≠ l1_of b) → disk d = patch (m * bs s) x (disk (dev s)) → working d →
  good (with_dev d s) ∧ (∀ k, 0 <= k < n → fblk (with_dev d s) b k = fblk s b k) ∧ (∀ j, in_disk s j → in_disk (with_dev d s) j) ∧
  file_ok (with_dev d s) b n ∧ contents (with_dev d s) b n = contents s b n.
Proof.
  intros Hg Hf Hm Hx Hne Hl1 Hd Hw. pose proof (f_n _ _ _ Hf) as Hn.
  assert (blen (disk d) = blen (disk (dev s))) as Hl by (rewrite Hd; by apply patch_block_length).
  assert (∀ j, in_disk s j → in_disk (with_dev d s) j) as Hdm by (intros j; unfold in_disk; cbn; by rewrite Hl).
  assert (∀ j, in_disk s j → blk (with_dev d s) j = if decide (j = m) then x else blk s j) as Hblk by (intros j Hj; by apply blk_patch).
  assert (∀ j, 0 <= j < n → fblk (with_dev d s) b j = fblk s b j) as Hfb.
  { intros j Hj. unfold fblk at 1 2. destruct (Z.ltb_spec j EXT2_DIRECT_BLOCK_COUNT); [done|].
    destruct (f_l1 _ _ _ Hf ltac:(lia)) as (_ & L2 & _). rewrite Hblk by done. rewrite decide_False; [done|]. intros E. apply Hl1; [lia|done]. }
  split; [by apply good_with_dev|]. split; [done|]. split; [done|]. split.
  - destruct Hf as [F1 F2 F3 F4 F5 F6 F7]. split; try done.
    + intros j Hj. rewrite Hfb by done. by apply Hdm, F5.
    + intros i j Hi Hj. rewrite !Hfb by done. by apply F6.
    + intros H12. destruct (F7 H12) as (L1 & L2 & L3). split; [done|]. split; [by apply Hdm|]. intros j Hj. rewrite Hfb by done. by apply L3.
  - apply cat_ext. intros j Hj. rewrite Hfb, Hblk by (lia || apply (f_disk _ _ _ Hf); lia). rewrite decide_False; [done|].
    intros E. apply (Hne j); [lia|done].
Qed.

(** The number of blocks of a size. *)
Lemma blocks_of_size s v : good s → 0 <= v → v + bs s < 2 ^ 64 → roundup v (bs s) / bs s = (v + bs s - 1) / bs s.
Proof.
  intros Hg Hv H64. pose proof (g_bs _ Hg). unfold roundup. rewrite wrap64_small by (unfold is_u64; lia). rewrite rounddown_spec by lia.
  rewrite Z.mul_comm. by apply Z.div_mul; lia.
Qed.

Lemma same_blocks s v w : good s → 0 <= v <= w → w + bs s < 2 ^ 64 → w <= roundup v (bs s) / bs s * bs s →
  roundup w (bs s) / bs s = roundup v (bs s) / bs s.
Proof.
  intros Hg Hv H64 Hw. pose proof (g_bs _ Hg). rewrite !blocks_of_size in * by (done || lia). set (n := (v + bs s - 1) / bs s) in *.
  pose proof (Z.div_mod (v + bs s - 1) (bs s) ltac:(lia)) as E. pose proof (Z.mod_pos_bound (v + bs s - 1) (bs s) ltac:(lia)) as M. fold n in E.
  symmetry. apply (Z.div_unique _ _ _ (w + bs s - 1 - n * bs s)); lia.
Qed.

End file.
