(* ===== verification/Ext2FileTheorems.v ===== *)
(** * Theorems about ext2 files *)

From S2P Require Import Prelude Types Links Bytes Ext2 Ext2Inv Ext2Example Vnode Ext2Vnode Ext2File.

Section files.
Context {D : Type} `{!BlockDevice D} (next_time : Z → Z).
Implicit Types (s : vfs D) (e : ext2 D).

(** ** Reading and writing a file *)

(** A node [this] of a file with the inode [b] at [p] and [n] blocks, none of
    which holds inodes, on a disk with blocks of at most 1024 bytes. *)
Record open_file s (this : loc) (v : vnode) (p : loc) (b : buffer) (n : Z) : Prop := {
  o_node : vnodes s !! this = Some v;
  o_ptr : private_data v = p ∧ p ≠ null ∧ v_fs v ≠ null;
  o_good : good (fsys s);
  o_tables : tables_ok (fsys s);
  o_inum : inum_ok (fsys s) (inode_id v);
  o_news : news (fsys s) = [];
  o_inode : inodes (fsys s) !! p = Some b;
  o_size : isz (fsys s) <= blen b;
  o_file : file_ok (fsys s) b n;
  o_blocks : roundup (isize b) (block_size (data (fsys s))) / block_size (data (fsys s)) = n;
  o_apart : (∀ k, 0 <= k < n → iblock (fsys s) (inode_id v) ≠ fblk (fsys s) b k) ∧
    (EXT2_DIRECT_BLOCK_COUNT < n → iblock (fsys s) (inode_id v) ≠ l1_of b);
}.

Lemma on_fs_run {A} (c : ST (ext2 D) A) s x e : c (fsys s) = Some (x, e) → on_fs c s = Some (x, Vfs e (vnodes s)).
Proof. unfold on_fs. by intros ->. Qed.

(** What reading an open file gives. *)
Lemma read_ok s this v p b n fd sz :
  open_file s this v p b n → 0 <= fo_pos fd < isize b → 0 <= sz → isize b < 2 ^ 64 → isize b <= n * block_size (data (fsys s)) →
  let len := Z.min sz (isize b - fo_pos fd) in
  ∃ s', read this fd sz s = Some ((Ok len, set_pos (fo_pos fd + len) fd, slice (fo_pos fd) len (contents (fsys s) b n)), s').
Proof.
  intros [O1 (O2 & O3 & O4) O5 O6 O7 O8 O9 O10 O11 O12 O13] Hpos Hsz H64 Hn len. pose proof (f_len _ _ _ O11) as Hl.
  unfold read. rewrite (bind_run _ _ s v s) by (unfold get_vnode, vlift; by rewrite O1). rewrite O2.
  rewrite (proj2 (Z.eqb_neq p null)), (proj2 (Z.eqb_neq (v_fs v) null)) by done. cbn [orb].
  destruct (read_loop_ok (Z.to_nat len) (fsys s) p b n len fd [] O5 O8 O9 O11) as (e & Hr & Hp); [lia..|].
  exists (Vfs e (vnodes s)). apply on_fs_run. rewrite (bind_run get_data _ (fsys s) (data (fsys s)) (fsys s)) by done.
  rewrite (bind_run _ _ _ _ _ (inode_size_ok (fsys s) p b O9 Hl)). rewrite (proj2 (Z.leb_gt _ _)) by lia.
  rewrite (bind_run _ _ (fsys s) true (fsys s)) by (unfold new_buffer; by rewrite O8). cbn [negb]. fold len.
  rewrite (bind_run _ _ _ _ _ Hr). cbn [app]. unfold mret, ST_ret. rewrite slice_length; [done|lia..|].
  rewrite (contents_length _ _ _ O5 O11). lia.
Qed.

Lemma open_file_size s this v p b n : open_file s this v p b n → 0 <= isize b → isize b + block_size (data (fsys s)) < 2 ^ 64 → isize b <= n * block_size (data (fsys s)).
Proof.
  intros Ho H0 H64. pose proof (g_bs _ (o_good _ _ _ _ _ _ Ho)) as Hbs.
  rewrite <- (o_blocks _ _ _ _ _ _ Ho). rewrite blocks_of_size by (apply (o_good _ _ _ _ _ _ Ho) || lia).
  pose proof (Z.div_mod (isize b + block_size (data (fsys s)) - 1) (block_size (data (fsys s))) ltac:(lia)).
  pose proof (Z.mod_pos_bound (isize b + block_size (data (fsys s)) - 1) (block_size (data (fsys s))) ltac:(lia)). lia.
Qed.

(** The state after [write]. *)
Lemma write_ok s this v p b n fd buf :
  open_file s this v p b n → Forall is_byte buf → 0 <= fo_pos fd <= isize b → block_size (data (fsys s)) <= WRITE_BUFFER →
  let last := fo_pos fd + blen buf in
  last <= n * block_size (data (fsys s)) → Z.max last (isize b) + block_size (data (fsys s)) < 2 ^ 64 →
  ∃ s' b', write next_time this fd buf s = Some ((Ok (blen buf), set_pos last fd), s') ∧
    open_file s' this v p b' n ∧ isize b' = Z.max last (isize b) ∧ (data (fsys s') = data (fsys s) ∧ vnodes s' = vnodes s) ∧
    contents (fsys s') b' n = patch (fo_pos fd) buf (contents (fsys s) b n).
Proof.
  intros [O1 (O2 & O3 & O4) O5 O6 O7 O8 O9 O10 O11 O12 (O13 & O14)] Hby Hpos Hwb last Hle H64. pose proof (f_len _ _ _ O11) as Hl.
  pose proof (g_bs _ O5) as Hbs. assert (0 <= blen buf) as Hb0 by (unfold blen; lia). set (f := fsys s) in *. set (z := Z.max last (isize b)).
  assert (roundup z (block_size (data f)) / block_size (data f) = n) as Hz.
  { rewrite <- O12. apply same_blocks; [done|lia|lia|]. unfold z. apply Z.max_lub; [by rewrite O12|].
    rewrite blocks_of_size by (done || lia). pose proof (Z.div_mod (isize b + block_size (data f) - 1) (block_size (data f)) ltac:(lia)).
    pose proof (Z.mod_pos_bound (isize b + block_size (data f) - 1) (block_size (data f)) ltac:(lia)). lia. }
  destruct (resize_same_blocks f p b n z O5 O9 O11 O12 Hz ltac:(lia)) as (b1 & Hrs & Hm1 & Hby1 & Hs1). set (f1 := with_inode f p b1) in *.
  destruct (same_map_file f b b1 n O11 Hm1 Hby1) as (Hf1 & Hc1). assert (good f1) as G1 by (destruct O5; by split).
  assert (file_ok f1 b1 n) as F1 by (destruct Hf1; by split).
  destruct (write_loop_ok (length buf) f1 p b1 n buf fd G1 O8 ltac:(apply lookup_insert_eq) F1 Hwb Hby ltac:(lia) ltac:(lia) Hle ltac:(lia))
    as (f2 & Hwl & Hrw).
  pose proof Hrw as (G2 & F2 & C2 & D2 & I2 & P2 & N2 & K2 & L2 & _).
  set (b3 := patch 16 (le_bytes 4 (clock f2)) b1). set (f3 := Ext2 (dev f2) (data f2) (<[p := b3]> (inodes f2)) (heap f2) (news f2) (next_time (clock f2))).
  assert (INODE_BYTES <= blen b1) as Hl1 by (rewrite (proj1 Hm1); done).
  assert (same_map b1 b3) as Hm3 by (apply (field_same_map b1 mtime); cbn; try done; lia).
  assert (Forall is_byte b3) as Hby3 by (apply patch_bytes; [apply le_bytes_bytes|done]).
  assert (good f3) as G3 by (destruct G2; by split). assert (tables_ok f3) as T3 by (apply (tables_same f); [done|exact L2|done]).
  assert (inum_ok f3 (inode_id v)) as In3 by (unfold inum_ok, sb in *; cbn; by rewrite D2).
  assert (isz f3 = isz f) as Ei by (unfold isz, sb; cbn; by rewrite D2).
  assert (iblock f3 (inode_id v) = iblock f (inode_id v)) as Eb by (unfold iblock, iindex, igroup, bgd, sb; cbn; by rewrite D2).
  assert (blen b3 = blen b) as Hbl3 by (rewrite (proj1 Hm3); apply Hm1).
  destruct (inode_write_ok next_time f3 (inode_id v) p b3 G3 T3 In3 (eq_trans N2 O8) ltac:(apply lookup_insert_eq) ltac:(lia) Hby3) as (d & Hiw & Hkw & Hd).
  set (b4 := touch (clock f3) b3) in *. set (x := patch (ioff f3 (inode_id v)) (slice 0 (isz f3) b4) (blk f3 (iblock f3 (inode_id v)))) in *.
  assert (same_map b3 b4) as Hm4 by (apply (field_same_map b3 atime); cbn; rewrite ?Hbl3; try done; lia).
  assert (Forall is_byte b4) as Hby4 by (apply patch_bytes; [apply le_bytes_bytes|done]).
  pose proof (same_map_trans _ _ _ Hm3 Hm4) as Hm14. destruct (same_map_file f2 b1 b4 n F2 Hm14 Hby4) as (F4 & C4).
  assert (file_ok f3 b4 n) as F3 by (destruct F4; by split).
  destruct (t_group _ T3 _ In3) as (_ & Hin3). destruct (ioff_range f3 (inode_id v) G3 T3) as (Ho1 & Ho2).
  assert (blen x = block_size (data f3)) as Hxl.
  { unfold x. pose proof (blk_length f3 _ G3 Hin3). pose proof (slice_length 0 (isz f3) b4). rewrite (proj1 Hm4) in *. pose proof (t_isz _ T3).
    unfold INODE_BYTES in *. rewrite patch_length; lia. }
  assert (∀ k, 0 <= k < n → fblk f3 b4 k = fblk f b k) as Efb.
  { intros k Hk. change (fblk f3 b4 k) with (fblk f2 b4 k). rewrite (proj1 (same_map_fblk f2 b1 b4 k Hl1 Hm14 ltac:(lia))).
    rewrite (rewritten_fblk f1 b1 n _ f2 k Hrw F1 Hk). change (fblk f1 b1 k) with (fblk f b1 k). apply (same_map_fblk f b b1 k); done || lia. }
  assert (l1_of b4 = l1_of b) as El1. { rewrite (proj2 (same_map_fblk f2 b1 b4 0 Hl1 Hm14 ltac:(lia))). by apply (same_map_fblk f b b1 0). }
  destruct (other_block f3 b4 n (iblock f3 (inode_id v)) x d G3 F3 Hin3 Hxl) as (G5 & E5 & L5 & F5 & C5); [..|done|done|].
  { intros k Hk. rewrite Efb, Eb by done. by apply O13. } { intros H12. rewrite El1, Eb. by apply O14. }
  set (f5 := with_dev d (stamped next_time p b4 f3)) in *.
  assert (isize b4 = z) as Hs4.
  { rewrite <- Hs1. unfold isize, b4, touch, b3, INODE_BYTES in *. cbn [f_off f_size atime]. pose proof (patch_length 16 (le_bytes 4 (clock f2)) b1) as P. rewrite le_bytes_blen in P.
    by rewrite !slice_patch_other by (rewrite ?le_bytes_blen; lia). }
  exists (Vfs f5 (vnodes s)), b4. split; [|split; [|split; [done|split; [done|]]]].
  - unfold write. rewrite (bind_run _ _ s v s) by (unfold get_vnode, vlift; by rewrite O1). rewrite O2.
    rewrite (proj2 (Z.eqb_neq p null)), (proj2 (Z.eqb_neq (v_fs v) null)) by done. cbn [orb]. apply on_fs_run. fold f.
    rewrite (bind_run get_data _ f (data f) f) by done. rewrite (bind_run _ _ _ _ _ (inode_size_ok f p b O9 Hl)).
    rewrite (proj2 (Z.ltb_ge _ _)) by lia. rewrite (wrap64_small (fo_pos fd + blen buf)) by (unfold is_u64; lia). fold last z.
    rewrite (bind_run _ _ _ _ _ Hrs). rewrite (bind_run _ _ f1 true f1) by (unfold new_buffer; cbn; by rewrite O8).
    change (block_size (data f)) with (block_size (data f1)). rewrite (bind_run _ _ _ _ _ Hwl).
    rewrite (bind_run _ _ f2 (clock f2) (Ext2 (dev f2) (data f2) (inodes f2) (heap f2) (news f2) (next_time (clock f2)))) by done.
    rewrite (bind_run _ _ _ tt f3).
    2:{ apply (set_field_ok (Ext2 _ _ _ _ _ _) p mtime (clock f2) b1); [cbn; rewrite I2; apply lookup_insert_eq|done|cbn; unfold INODE_BYTES in *; lia]. }
    by rewrite (bind_run _ _ _ _ _ Hiw).
  - split; cbn [fsys vnodes]; try done.
    + destruct G5; by split.
    + apply (tables_same f); [exact D2| |done]. intros m Hm. by apply L5, L2.
    + exact (eq_trans N2 O8).
    + apply lookup_insert_eq.
    + change (isz f5) with (isz f3). rewrite Ei, (proj1 Hm4), Hbl3. done.
    + destruct F5; by split.
    + change (data f5) with (data f2). rewrite D2, Hs4. exact Hz.
    + change (iblock f5 (inode_id v)) with (iblock f3 (inode_id v)). rewrite Eb, El1. split; [|done]. intros k Hk.
      change (fblk f5 b4 k) with (fblk (with_dev d f3) b4 k). rewrite E5, Efb by done. by apply O13.
  - cbn [fsys]. change (contents f5 b4 n) with (contents (with_dev d f3) b4 n). rewrite C5. change (contents f3 b4 n) with (contents f2 b4 n).
    rewrite C4, C2. f_equal. exact Hc1.
Qed.


End files.

(** ** Witnesses *)

Lemma ex_file : file_ok ex_ext2 ex_inode 2.
Proof.
  assert (∀ k, 0 <= k < 2 → fblk ex_ext2 ex_inode k = 10 + k) as Hk.
  { intros k H. assert (k = 0 ∨ k = 1) as [->| ->] by lia; by vm_compute. }
  split; try by vm_compute.
  - by apply bytes_ok; vm_compute.
  - intros k H. rewrite Hk by done. apply ex_in_disk. lia.
  - intros j k Hj H. rewrite !Hk by done. lia.
Qed.

(** A node of the file, inode 12. *)
Definition ex_node : loc := 0x2000.
Definition ex_vnode : vnode := Vnode VNT_REG 0 0 12 0x1A4 0 0 0x3000 [0] null null ex_inode_at [].
Definition ex_vfs : vfs buffer := Vfs ex_ext2 {[ex_node := ex_vnode]}.

Lemma ex_open : open_file ex_vfs ex_node ex_vnode ex_inode_at ex_inode 2.
Proof.
  split; cbn [fsys ex_vfs]; [by vm_compute|by vm_compute|apply ex_good|apply ex_tables|by vm_compute|done|by vm_compute|by vm_compute|apply ex_file|by vm_compute|].
  split; [|by vm_compute]. intros k Hk. assert (k = 0 ∨ k = 1) as [->| ->] by lia; by vm_compute.
Qed.

