(* ===== verification/Ext2DirTheorems.v ===== *)
(** * Theorems about ext2 directories *)

From S2P Require Import Prelude Types Links Bytes Ext2 Ext2Inv Ext2Example Vnode Ext2Vnode Ext2Dir Ext2File Ext2FileTheorems.

Section directories.
Context {D : Type} `{!BlockDevice D} (next_time : Z → Z).
Implicit Types (s : ext2 D) (ess : list (list dirent)).

(** The directory with the inode [b] at [p]: one list of entries for each of its blocks. *)
Record directory s (p : loc) (b : buffer) ess : Prop := {
  dr_good : good s;
  dr_news : news s = [];
  dr_inode : inodes s !! p = Some b;
  dr_file : file_ok s b (Z.of_nat (length ess));
  dr_size : isize b / block_size (data s) = Z.of_nat (length ess);
  dr_type : flag (sb s required_features) SBRF_DIRENT_TYPE_FIELD = true;
  dr_blocks k es : ess !! k = Some es → layout (block_size (data s)) 0 es (blk s (fblk s b (Z.of_nat k)));
}.

Lemma peeked_inodes s s' : peeked s s' → inodes s' = inodes s ∧ news s' = news s.
Proof. by intros (d & -> & _). Qed.

Lemma peeked_directory s s' p b ess : peeked s s' → directory s p b ess → directory s' p b ess.
Proof.
  intros Hp [H1 H2 H3 H4 H5 H6 H7]. destruct (peeked_inodes _ _ Hp) as (Ei & En). destruct (peeked_file _ _ _ _ Hp H4) as (Hf & _).
  split; rewrite ?(peeked_data _ _ Hp), ?Ei, ?En; try done.
  - by apply (peeked_good s).
  - unfold sb in *. by rewrite (peeked_data _ _ Hp).
  - intros k es Hk. rewrite (peeked_fblk _ _ _ _ Hp), (peeked_blk _ _ _ Hp). by apply H7.
Qed.

Lemma has_type_field_ok s p b ess : directory s p b ess → has_type_field s = Some (true, s).
Proof.
  intros Hd. unfold has_type_field. rewrite (bind_run _ _ s (sb s required_features) s) by (apply get_sb_ok; [apply Hd|done..]).
  by rewrite (dr_type _ _ _ _ Hd).
Qed.

Lemma dir_block s p b ess k es : directory s p b ess → ess !! k = Some es →
  let x := blk s (fblk s b (Z.of_nat k)) in
  0 <= Z.of_nat k < Z.of_nat (length ess) ∧ layout (block_size (data s)) 0 es x ∧ Forall is_byte x ∧ blen x = block_size (data s) ∧
  (length es <= Z.to_nat (block_size (data s)))%nat.
Proof.
  intros Hd Hk x. apply lookup_lt_Some in Hk as Hlt. pose proof (dr_blocks _ _ _ _ Hd k es Hk) as Hl. fold x in Hl.
  assert (Forall is_byte x) as Hb by (apply blk_bytes, Hd). split; [lia|]. split; [done|]. split; [done|]. split.
  - apply blk_length; [apply Hd|]. apply (f_disk _ _ _ (dr_file _ _ _ _ Hd)). lia.
  - pose proof (layout_end _ _ _ _ Hb Hl). unfold DIRENT_SIZE in *. lia.
Qed.

(** ** Looking up a name *)

(** [find] decides by the entries of the first block alone. *)
Lemma find_blocks_rest s p b ess vs fs name : directory s p b ess → ∀ n idx, (idx + n <= length ess)%nat →
  ∃ s', find_blocks n fs p (block_size (data s)) name (Z.of_nat idx) (block_size (data s)) (Vfs s vs) = Some (Err ERROR_NO_ENTRY, Vfs s' vs) ∧ peeked s s'.
Proof.
  intros Hd n. revert s Hd. induction n as [|n IH]; intros s Hd idx Hn; cbn [find_blocks].
  { exists s. split; [done|]. apply peeked_refl, Hd. }
  destruct (read_block_ok s p b (Z.of_nat (length ess)) (Z.of_nat idx)) as (s1 & Hr & Hp); [apply Hd..|lia|].
  rewrite (rbind_run _ _ _ _ _ (on_fs_run _ (Vfs s vs) _ _ Hr)). cbn [vnodes].
  assert (∀ f x, find_scan f (block_size (data s)) name (block_size (data s)) x = Some (inl (block_size (data s)))) as Hf.
  { intros [|f] x; cbn [find_scan]; by rewrite Z.ltb_irrefl. }
  rewrite (bind_run _ _ (Vfs s1 vs) (inl (block_size (data s))) (Vfs s1 vs)) by (unfold vlift; by rewrite Hf).
  pose proof (peeked_directory _ _ _ _ _ Hp Hd) as Hd1. destruct (IH s1 Hd1 (S idx) ltac:(lia)) as (s2 & Hf2 & Hp2).
  rewrite (peeked_data _ _ Hp) in Hf2. replace (Z.of_nat idx + 1) with (Z.of_nat (S idx)) by lia. exists s2. split; [done|]. by eapply peeked_trans.
Qed.

Lemma dir_find_ok s vs this v b es ess name :
  vs !! this = Some v → private_data v ≠ null → v_fs v ≠ null → directory s (private_data v) b (es :: ess) → is_name name →
  ∃ s', peeked s s' ∧ find this name (Vfs s vs) =
    match lookup_name name es with Some ino => load_entry (v_fs v) ino name (Vfs s' vs) | None => Some (Err ERROR_NO_ENTRY, Vfs s' vs) end.
Proof.
  intros Hv Hp0 Hf0 Hd Hn. destruct (dir_block _ _ _ _ 0 es Hd eq_refl) as (_ & Hl & Hby & Hbl & Hlen).
  unfold find. rewrite (bind_run _ _ (Vfs s vs) v (Vfs s vs)) by (unfold get_vnode, vlift; cbn; by rewrite Hv).
  rewrite (proj2 (Z.eqb_neq _ null) Hp0), (proj2 (Z.eqb_neq _ null) Hf0).
  assert ((VFS_MAX_PATH_LEN <=? strlen name) = false) as -> by (apply Z.leb_gt; destruct Hn; unfold VFS_MAX_PATH_LEN; lia).
  rewrite (bind_run _ _ (Vfs s vs) (data s) (Vfs s vs)) by done.
  rewrite (bind_run _ _ (Vfs s vs) true (Vfs s vs)) by (apply on_fs_run; unfold new_buffer; cbn; by rewrite (dr_news _ _ _ _ Hd)).
  rewrite (bind_run _ _ (Vfs s vs) (isize b) (Vfs s vs)).
  2:{ apply (on_fs_run _ (Vfs s vs)), inode_size_ok; [apply Hd|]. apply (f_len _ _ _ (dr_file _ _ _ _ Hd)). }
  rewrite (bind_run _ _ (Vfs s vs) tt (Vfs s vs)) by done. rewrite (dr_size _ _ _ _ Hd), Nat2Z.id. cbn [length find_blocks].
  destruct (read_block_ok s (private_data v) b (Z.of_nat (length (es :: ess))) 0) as (s1 & Hr & Hp); [apply Hd..|cbn; lia|].
  rewrite (rbind_run _ _ _ _ _ (on_fs_run _ (Vfs s vs) _ _ Hr)). cbn [vnodes].
  rewrite (bind_run _ _ (Vfs s1 vs) _ (Vfs s1 vs)) by (unfold vlift; rewrite (find_scan_ok name _ _ Hn Hby Hbl es) by done; done).
  destruct (lookup_name name es) as [ino|]; [by exists s1|].
  destruct (find_blocks_rest s1 (private_data v) b (es :: ess) vs (v_fs v) name) with (n := length ess) (idx := 1%nat) as (s2 & Hf2 & Hp2).
  { by apply (peeked_directory s). } { done. }
  rewrite (peeked_data _ _ Hp) in Hf2. exists s2. split; [by eapply peeked_trans|]. exact Hf2.
Qed.

(** ** Adding a name *)

Lemma insert_blocks_ok p b ino name type : is_name name → 0 < ino < 2 ^ 32 → 0 <= vnode_type_code type <= 7 →
  ∀ l1 s all es es' l2 i, directory s p b all → drop i all = l1 ++ es :: l2 →
  Forall (λ es, insert_entry ino name (vnode_type_code type) es = None) l1 → insert_entry ino name (vnode_type_code type) es = Some es' →
  ∃ s' at_ b1 b', insert_blocks (length (drop i all)) p (block_size (data s)) (DIRENT_SIZE + roundup (strlen name) 4) true (Z.of_nat i) s =
      Some (Ok (Some (Z.of_nat (i + length l1), at_, b1)), s') ∧
    fill_entry at_ ino name type true b1 = Some (Ok b') ∧ layout (block_size (data s)) 0 es' b' ∧ peeked s s' ∧
    blen b' = block_size (data s) ∧ Forall is_byte b'.
Proof.
  intros Hn Hi Ht. induction l1 as [|e1 l1 IH]; intros s all es es' l2 i Hd Hdrop Hno Hins; rewrite Hdrop; cbn [app length insert_blocks].
  - assert (all !! i = Some es) as Hk by (replace i with (i + 0)%nat by lia; rewrite <- lookup_drop, Hdrop; done).
    destruct (dir_block _ _ _ _ _ _ Hd Hk) as (Hr & Hl & Hby & Hbl & Hlen).
    destruct (read_block_ok s p b _ (Z.of_nat i) (dr_good _ _ _ _ Hd) (dr_news _ _ _ _ Hd) (dr_inode _ _ _ _ Hd) (dr_file _ _ _ _ Hd) Hr) as (s1 & Hrd & Hp).
    rewrite (rbind_run _ _ _ _ _ Hrd). pose proof (insert_scan_ok ino name type _ _ Hn Hi Ht Hby Hbl es _ 0 Hl Hlen) as Hs. cbv zeta in Hs.
    rewrite Hins in Hs. destruct Hs as (at_ & b1 & b' & E & F & L & C). exists s1, at_, b1, b'.
    rewrite (bind_run _ _ s1 _ s1) by (unfold lift; rewrite E; done). rewrite Nat.add_0_r. split; [done|]. split; [done|]. split; [done|]. split; [done|].
    split; [by rewrite (c_len _ _ _ _ C)|by apply (c_bytes _ _ _ _ C)].
  - assert (all !! i = Some e1) as Hk by (replace i with (i + 0)%nat by lia; rewrite <- lookup_drop, Hdrop; done).
    destruct (dir_block _ _ _ _ _ _ Hd Hk) as (Hr & Hl & Hby & Hbl & Hlen). apply Forall_cons in Hno as (Hn1 & Hno). cbn in Hn1.
    destruct (read_block_ok s p b _ (Z.of_nat i) (dr_good _ _ _ _ Hd) (dr_news _ _ _ _ Hd) (dr_inode _ _ _ _ Hd) (dr_file _ _ _ _ Hd) Hr) as (s1 & Hrd & Hp).
    rewrite (rbind_run _ _ _ _ _ Hrd). pose proof (insert_scan_ok ino name type _ _ Hn Hi Ht Hby Hbl e1 _ 0 Hl Hlen) as Hs. cbv zeta in Hs.
    rewrite Hn1 in Hs. rewrite (bind_run _ _ s1 _ s1) by (unfold lift; rewrite Hs; done).
    pose proof (peeked_directory _ _ _ _ _ Hp Hd) as Hd1. assert (drop (S i) all = l1 ++ es :: l2) as Hdrop1.
    { apply (f_equal tail) in Hdrop. rewrite (drop_S all e1 i Hk) in Hdrop. exact Hdrop. }
    destruct (IH s1 all es es' l2 (S i) Hd1 Hdrop1 Hno Hins) as (s2 & at_ & b1 & b' & R & F & L & Hp2 & Hx). rewrite (peeked_data _ _ Hp), Hdrop1 in *.
    exists s2, at_, b1, b'. replace (Z.of_nat i + 1) with (Z.of_nat (S i)) by lia. replace (i + S (length l1))%nat with (S i + length l1)%nat by lia. rewrite R. split; [done|].
    split; [done|]. split; [done|]. split; [by eapply peeked_trans|done].
Qed.

(** A block of the directory written: its entries are the new ones. *)
Lemma wrote_directory s p b ess k es' x s' : directory s p b ess → (k < length ess)%nat →
  layout (block_size (data s)) 0 es' x → blen x = block_size (data s) → wrote s (fblk s b (Z.of_nat k)) x s' → directory s' p b (<[k := es']> ess).
Proof.
  intros Hd Hk Hl Hx Hw. pose proof (dr_file _ _ _ _ Hd) as Hf. pose proof (dr_good _ _ _ _ Hd) as Hg.
  pose proof (f_disk _ _ _ Hf (Z.of_nat k) ltac:(lia)) as Hin. pose proof (blk_length _ _ Hg Hin) as Hbl.
  assert (wrote s (fblk s b (Z.of_nat k)) (patch 0 x (blk s (fblk s b (Z.of_nat k)))) s') as Hw' by (by rewrite patch_all by congruence).
  pose proof (wrote_rewritten s b _ (Z.of_nat k) 0 x s' Hg Hf ltac:(lia) ltac:(lia) ltac:(lia) Hw') as Hrw.
  pose proof (λ j, rewritten_fblk s b _ _ s' j Hrw Hf) as Efb. destruct Hrw as (G' & F' & _). destruct Hw as (d & -> & Hwk & Hdk).
  destruct Hd as [H1 H2 H3 H4 H5 H6 H7]. split; rewrite ?length_insert; try done. intros j es Hj.
  assert (j < length ess)%nat as Hjl by (apply lookup_lt_Some in Hj; by rewrite length_insert in Hj).
  rewrite Efb by lia. pose proof (f_disk _ _ _ Hf (Z.of_nat j) ltac:(lia)) as Hinj.
  rewrite (blk_patch s d _ x _ Hg Hin Hx Hdk Hinj). destruct (decide (j = k)) as [->|Hne].
  - rewrite decide_True by done. rewrite list_lookup_insert_eq in Hj by done. injection Hj as <-. done.
  - rewrite decide_False. 2:{ intros E. apply Hne. apply (f_inj _ _ _ Hf) in E; lia. }
    rewrite list_lookup_insert_ne in Hj by done. by apply H7.
Qed.

Lemma dir_insert_ok s p b at_ino ino name type l1 es es' l2 :
  directory s p b (l1 ++ es :: l2) → is_name name → 0 < ino < 2 ^ 32 → 0 <= vnode_type_code type <= 7 →
  Forall (λ es, insert_entry ino name (vnode_type_code type) es = None) l1 → insert_entry ino name (vnode_type_code type) es = Some es' →
  ∃ s', ext2_directory_inode_insert next_time at_ino p name ino type s = Some (Ok tt, s') ∧ directory s' p b (l1 ++ es' :: l2).
Proof.
  intros Hd Hn Hi Ht Hno Hins. unfold ext2_directory_inode_insert. rewrite (bind_run get_data _ s (data s) s) by done.
  pose proof (roundup4 (strlen name)) as Hr. assert (0 <= strlen name < 256) as Hsl by (destruct Hn; unfold strlen in *; lia). specialize (Hr ltac:(lia)).
  rewrite wrap64_small by (unfold is_u64, DIRENT_SIZE; lia). pose proof (f_len _ _ _ (dr_file _ _ _ _ Hd)) as Hfl.
  rewrite (bind_run _ _ _ _ _ (inode_size_ok s p b (dr_inode _ _ _ _ Hd) Hfl)).
  rewrite (bind_run _ _ s true s) by (unfold new_buffer; by rewrite (dr_news _ _ _ _ Hd)). cbn [negb].
  rewrite (bind_run _ _ _ _ _ (has_type_field_ok _ _ _ _ Hd)). rewrite (dr_size _ _ _ _ Hd), Nat2Z.id.
  destruct (insert_blocks_ok p b ino name type Hn Hi Ht l1 s _ es es' l2 0%nat Hd eq_refl Hno Hins) as (s1 & at_ & b1 & b' & R & F & L & Hp & Hbl & Hby).
  rewrite drop_0, Nat.add_0_l in R. rewrite (rbind_run _ _ _ _ _ R). pose proof (peeked_directory _ _ _ _ _ Hp Hd) as Hd1.
  rewrite (rbind_run _ _ s1 (Z.of_nat (length l1), at_, b1) s1) by done.
  rewrite (bind_run _ _ s1 (Ok b') s1) by (unfold lift; by rewrite F).
  destruct (write_block_ok s1 p b (Z.of_nat (length (l1 ++ es :: l2))) (Z.of_nat (length l1)) b'
    (dr_good _ _ _ _ Hd1) (dr_news _ _ _ _ Hd1) (dr_inode _ _ _ _ Hd1) (dr_file _ _ _ _ Hd1)) as (s2 & Hw & Hwr); try done.
  { rewrite length_app. cbn. lia. } { by rewrite (peeked_data _ _ Hp). }
  exists s2. rewrite (rbind_run _ _ _ _ _ Hw). split; [done|]. replace (l1 ++ es' :: l2) with (<[length l1 := es']> (l1 ++ es :: l2)).
  - apply (wrote_directory s1 p b _ _ es' b'); rewrite ?(peeked_data _ _ Hp); try done. rewrite length_app. cbn. lia.
  - replace (length l1) with (length l1 + 0)%nat by lia. by rewrite insert_app_r.
Qed.


(** [find] does not start again at the beginning of the second block, so a
    name in any block but the first is not found: when the first block is full,
    adding a name to a later block succeeds and looking it up reports that
    there is no such entry. *)
Theorem find_first_block_only s vs this v b at_ino ino name type es0 l1 es es' l2 :
  vs !! this = Some v → private_data v ≠ null → v_fs v ≠ null → directory s (private_data v) b (es0 :: l1 ++ es :: l2) →
  is_name name → 0 < ino < 2 ^ 32 → 0 <= vnode_type_code type <= 7 → lookup_name name es0 = None →
  Forall (λ es, insert_entry ino name (vnode_type_code type) es = None) (es0 :: l1) → insert_entry ino name (vnode_type_code type) es = Some es' →
  ∃ s' s2, ext2_directory_inode_insert next_time at_ino (private_data v) name ino type s = Some (Ok tt, s') ∧
    find this name (Vfs s' vs) = Some (Err ERROR_NO_ENTRY, Vfs s2 vs).
Proof.
  intros Hv Hp Hf Hd Hn Hi Ht Hno Hfull Hins.
  destruct (dir_insert_ok s (private_data v) b at_ino ino name type (es0 :: l1) es es' l2 Hd Hn Hi Ht Hfull Hins) as (s' & Hr & Hd').
  destruct (dir_find_ok s' vs this v b es0 (l1 ++ es' :: l2) name Hv Hp Hf Hd' Hn) as (s2 & _ & Hfind).
  exists s', s2. split; [done|]. by rewrite Hfind, Hno.
Qed.

End directories.

(** C24: The loops over the entries of a block end: when the entries fill the
    block, every search for a name and for room takes at most one step for each
    eight bytes of the block, whatever the block holds.  An entry of size zero,
    which the code does not refuse, keeps the search for a name where it is: it
    never ends. *)
Theorem dir_scan_terminates bs b : Forall is_byte b → blen b = bs →
  (∀ es name, layout bs 0 es b → is_name name →
    is_Some (find_scan (Z.to_nat (bs / DIRENT_SIZE)) bs name 0 b) ∧
    is_Some (insert_scan (Z.to_nat (bs / DIRENT_SIZE)) bs (DIRENT_SIZE + roundup (strlen name) 4) true 0 b)) ∧
  (∀ name ino len off, off < bs → load 4 off b = Some ino → load 1 (off + 6) b = Some len → load 2 (off + 4) b = Some 0 →
    ino = 0 ∨ len ≠ strlen name → ∀ fuel, find_scan fuel bs name off b = None).
Proof.
  intros Hb Hbl. split; [|intros; by eapply find_scan_stuck]. intros es name Hl Hn. pose proof (layout_end _ _ _ _ Hb Hl) as He.
  assert (length es <= Z.to_nat (bs / DIRENT_SIZE))%nat as Hf.
  { pose proof (Z.div_le_lower_bound bs DIRENT_SIZE (Z.of_nat (length es)) ltac:(done) ltac:(lia)). lia. }
  split; [rewrite (find_scan_ok name bs b Hn Hb Hbl es) by done; eauto|].
  pose proof (insert_scan_ok 1 name VNT_REG bs b Hn ltac:(lia) ltac:(done) Hb Hbl es _ 0 Hl Hf) as Hi. cbv zeta in Hi.
  destruct (insert_entry _ _ _ es); [destruct Hi as (? & ? & ? & -> & _)|rewrite Hi]; eauto.
Qed.

(** Removing the entry of an inode from a directory block: an entry that
    follows another is given to the one before it, the name is gone and every
    other entry stays; the first entry of a block that holds others is never
    removed, but refused as invalid. *)
Theorem dir_remove_cases bs b ino name e : is_name name → ino ≠ 0 → Forall is_byte b → blen b = bs → bs < 2 ^ 16 →
  d_ino e = ino → d_len e = strlen name → d_name e = name →
  (∀ es1 p es2, layout bs 0 (es1 ++ p :: e :: es2) b → Forall (λ x, d_ino x ≠ ino) (es1 ++ [p]) →
    ∃ b', remove_scan (Z.to_nat bs) bs ino name true None 0 b = Some (Ok (Some b')) ∧ layout bs 0 (es1 ++ grown p e :: es2) b') ∧
  (∀ es, es ≠ [] → layout bs 0 (e :: es) b → remove_scan (Z.to_nat bs) bs ino name true None 0 b = Some (Err ERROR_INVALID)).
Proof.
  intros Hn Hi Hb Hbl H16 E1 E2 E3. split.
  - intros es1 p es2 Hl Hne. pose proof (layout_end _ _ _ _ Hb Hl) as He. rewrite length_app in He. cbn [length] in He. unfold DIRENT_SIZE in He.
    destruct (remove_scan_ok ino name bs b e es2 Hn Hi Hb Hbl H16 E1 E2 E3 es1 p (Z.to_nat bs) 0 None Hl Hne ltac:(lia) ltac:(lia)) as (b' & R & L & _).
    by exists b'.
  - intros es Hes Hl. pose proof (layout_end _ _ _ _ Hb Hl) as He. cbn [length] in He. unfold DIRENT_SIZE in He.
    eapply remove_first_fails; done || lia.
Qed.

(** ** Witnesses *)

Definition ex_entries : list dirent := [Dirent 2 12 1 0 [46]; Dirent 12 1012 1 0 [97]].
Definition ex_full : list dirent := [Dirent 3 256 1 0 [98]; Dirent 4 256 1 0 [99]; Dirent 5 256 1 0 [100]; Dirent 6 256 1 0 [101]].

Ltac layout_tac := repeat (split; [split; first [intros _; by vm_compute|by vm_compute]|]); by vm_compute.

Lemma ex_entries_layout : layout 1024 0 ex_entries (blk ex_ext2 12).
Proof. layout_tac. Qed.

Lemma ex_full_layout : layout 1024 0 ex_full (blk ex_ext2 14).
Proof. layout_tac. Qed.

Lemma ex_directory : directory ex_ext2 ex_dir_at ex_dir_inode [ex_entries].
Proof.
  assert (∀ k, 0 <= k < 1 → fblk ex_ext2 ex_dir_inode k = 12) as Hk by (intros k H; assert (k = 0) as -> by lia; by vm_compute).
  split; [apply ex_good|done|by vm_compute| |by vm_compute|by vm_compute|].
  - split; [by apply bytes_ok; vm_compute|by vm_compute|by vm_compute|by vm_compute| | |by vm_compute].
    + intros k H. rewrite Hk by done. by apply ex_in_disk.
    + cbn. lia.
  - intros k es. destruct k as [|k]; [|done]. intros [= <-]. rewrite Hk by done. apply ex_entries_layout.
Qed.

Lemma ex_directory2 : directory ex_ext2 ex_dir2_at ex_dir2_inode [ex_full; ex_entries].
Proof.
  assert (∀ k, 0 <= k < 2 → fblk ex_ext2 ex_dir2_inode k = 14 - 2 * k) as Hk.
  { intros k H. assert (k = 0 ∨ k = 1) as [->| ->] by lia; by vm_compute. }
  split; [apply ex_good|done|by vm_compute| |by vm_compute|by vm_compute|].
  - split; [by apply bytes_ok; vm_compute|by vm_compute|by vm_compute|by vm_compute| | |by vm_compute].
    + intros k H. cbn in H. rewrite Hk by done. apply ex_in_disk. lia.
    + intros j k Hj H. cbn in Hj, H. rewrite !Hk by done. lia.
  - intros k es. destruct k as [|[|k]]; [| |done]; intros [= <-]; rewrite Hk by done; [apply ex_full_layout|apply ex_entries_layout].
Qed.

Definition ex_dir_vnode (p : loc) : vnode := Vnode VNT_DIR 0 0 2 0x1ED 0 0 0x3000 [0] null null p [].
Definition long_name : list Z := replicate 255 110.

Lemma long_name_ok : is_name long_name.
Proof. split; [|done]. apply Forall_replicate. lia. Qed.


Lemma find_first_block_only_witness : ∃ s' s2,
  ext2_directory_inode_insert (λ t, t) 2 ex_dir2_at long_name 9 VNT_REG ex_ext2 = Some (Ok tt, s') ∧
  find 1 long_name (Vfs s' {[1 := ex_dir_vnode ex_dir2_at]}) = Some (Err ERROR_NO_ENTRY, Vfs s2 {[1 := ex_dir_vnode ex_dir2_at]}).
Proof.
  destruct (insert_entry 9 long_name (vnode_type_code VNT_REG) ex_entries) as [es'|] eqn:E; [|by vm_compute in E].
  apply (find_first_block_only (λ t, t) ex_ext2 {[1 := ex_dir_vnode ex_dir2_at]} 1 (ex_dir_vnode ex_dir2_at) ex_dir2_inode 2 9 long_name VNT_REG
    ex_full [] ex_entries es' []); [done|done|done|apply ex_directory2|apply long_name_ok|lia|done|done| |exact E].
  constructor; [by vm_compute|constructor].
Defined.

Lemma dir_scan_terminates_witness :
  is_Some (find_scan 128 1024 [97] 0 (blk ex_ext2 12)) ∧ ∀ fuel, find_scan fuel 1024 [97] 0 (replicate 1024 0) = None.
Proof.
  split.
  - apply (dir_scan_terminates 1024 (blk ex_ext2 12)) with (es := ex_entries); [by apply bytes_ok; vm_compute|by vm_compute|apply ex_entries_layout|].
    split; [|done]. apply Forall_singleton. lia.
  - apply (dir_scan_terminates 1024 (replicate 1024 0)) with (ino := 0) (len := 0);
      [by apply bytes_ok; vm_compute|by vm_compute..|by left].
Defined.

Lemma dir_remove_cases_witness :
  (∃ b', remove_scan 1024 1024 12 [97] true None 0 (blk ex_ext2 12) = Some (Ok (Some b')) ∧ layout 1024 0 [Dirent 2 1024 1 0 [46]] b') ∧
  remove_scan 1024 1024 2 [46] true None 0 (blk ex_ext2 12) = Some (Err ERROR_INVALID).
Proof.
  split.
  - apply (dir_remove_cases 1024 (blk ex_ext2 12) 12 [97] (Dirent 12 1012 1 0 [97])) with (es1 := []) (p := Dirent 2 12 1 0 [46]) (es2 := []);
      [|done|by apply bytes_ok; vm_compute|by vm_compute|done|done|done|done|apply ex_entries_layout|].
    + split; [|done]. apply Forall_singleton. lia.
    + apply Forall_singleton. done.
  - apply (dir_remove_cases 1024 (blk ex_ext2 12) 2 [46] (Dirent 2 12 1 0 [46])) with (es := [Dirent 12 1012 1 0 [97]]);
      [|done|by apply bytes_ok; vm_compute|by vm_compute|done|done|done|done|done|apply ex_entries_layout].
    split; [|done]. apply Forall_singleton. lia.
Defined.
