(* ===== verification/AtaDevices.v ===== *)
(** * Disks and partitions: [kern/fs/dev/ata_devices.cc]

    A disk sends commands to its AHCI port, which is an interface with the
    behaviour of a working drive as its laws; a partition is a window on its
    disk.  Both meet the interface of the block devices that ext2 relies on. *)

From S2P Require Import Prelude Types Links Bytes Ext2.

Definition ATA_DEFAULT_SECTOR_SIZE : Z := SECTOR_SIZE.

(** [ahci_port_send_command] with [ATA_CMD_READ_DMA_EX] and [ATA_CMD_WRITE_DMA_EX]. *)
Class AhciPort (P : Type) := {
  port_read : Z → Z → P → result buffer * P;
  port_write : Z → buffer → P → result unit * P;
  media : P → buffer;
  online : P → Prop;
  media_bytes p : online p → Forall is_byte (media p);
  port_read_law p lba len : online p → 0 <= lba → 0 <= len → lba * SECTOR_SIZE + len <= blen (media p) →
    len mod SECTOR_SIZE = 0 → len <= MAX_TRANSFER →
    ∃ p', port_read lba len p = (Ok (slice (lba * SECTOR_SIZE) len (media p)), p') ∧ media p' = media p ∧ online p';
  port_write_law p lba b : online p → Forall is_byte b → 0 <= lba → lba * SECTOR_SIZE + blen b <= blen (media p) →
    blen b mod SECTOR_SIZE = 0 → blen b <= MAX_TRANSFER →
    ∃ p', port_write lba b p = (Ok tt, p') ∧ media p' = patch (lba * SECTOR_SIZE) b (media p) ∧ online p';
}.

Record partition_data := PartitionData { lba_start : Z; part_size : Z }.

Section ata.
Context {P : Type} `{!AhciPort P}.
Implicit Types p : P.

(** ** Operations *)

(** [ata_block_device::read] and [write] on a disk with a port. *)
Definition ata_read (offset sz : Z) p : result buffer * P :=
  if negb (offset mod ATA_DEFAULT_SECTOR_SIZE =? 0) then (Err ERROR_INVALID, p) else
  if negb (sz mod ATA_DEFAULT_SECTOR_SIZE =? 0) then (Err ERROR_INVALID, p) else
  port_read (offset / ATA_DEFAULT_SECTOR_SIZE) sz p.

Definition ata_write (offset : Z) (b : buffer) p : result Z * P :=
  if negb (offset mod ATA_DEFAULT_SECTOR_SIZE =? 0) then (Err ERROR_INVALID, p) else
  if negb (blen b mod ATA_DEFAULT_SECTOR_SIZE =? 0) then (Err ERROR_INVALID, p) else
  let '(r, p) := port_write (offset / ATA_DEFAULT_SECTOR_SIZE) b p in
  (match r with Err e => Err e | Ok _ => Ok (blen b) end, p).

(** [ata_partition_device::read] and [write]; [return -1] is [-ERROR_UNKOWN]. *)
Definition partition_read (part : partition_data) (offset size : Z) p : result buffer * P :=
  let part_size_bytes := wrap64 (part_size part * 512) in
  let part_off_bytes := wrap64 (lba_start part * 512) in
  if part_size_bytes <=? offset then (Err ERROR_UNKOWN, p) else
  ata_read (offset +w part_off_bytes) (Z.min (part_size_bytes - offset) size) p.

Definition partition_write (part : partition_data) (offset : Z) (b : buffer) p : result Z * P :=
  let part_size_bytes := wrap64 (part_size part * 512) in
  let part_off_bytes := wrap64 (lba_start part * 512) in
  if part_size_bytes <=? offset then (Err ERROR_UNKOWN, p) else
  ata_write (offset +w part_off_bytes) (slice 0 (Z.min (part_size_bytes - offset) (blen b)) b) p.

(** [ioctl], [mmap] of both and [enumerate_partitions] of a partition. *)
Definition ata_unsupported : result unit := Err ERROR_UNSUPPORTED.

(** ** The master boot record *)

Definition MBR_SIG : buffer := [0x55; 0xAA].
Definition GPT_SIG : buffer := [69; 70; 73; 32; 80; 65; 82; 84].
Definition MBR_ENTRIES : list Z := [0x1BE; 0x1CE; 0x1DE; 0x1EE].

(** [mbr_partition_table_entry]: its [sys_id], [start_lba] and [sector_count]. *)
Definition mbr_entry (head_data : buffer) (off : Z) : option (Z * Z * Z) :=
  sys_id ← load 1 (off + 4) head_data;
  start_lba ← load 4 (off + 8) head_data;
  sector_count ← load 4 (off + 12) head_data;
  Some (sys_id, start_lba, sector_count).

(** The partitions of the entries in use: the size is computed with 32 bits. *)
Fixpoint mbr_partitions (offs : list Z) (head_data : buffer) : option (list partition_data) :=
  match offs with
  | [] => Some []
  | off :: offs =>
      e ← mbr_entry head_data off;
      l ← mbr_partitions offs head_data;
      let '(sys_id, start_lba, sector_count) := e in
      Some (if sys_id =? 0 then l else PartitionData start_lba (sector_count * 512 mod 2 ^ 32) :: l)
  end.

(** What [enumerate_partitions] finds on a disk, in order. *)
Definition find_partitions p : option (result (list partition_data) * P) :=
  let '(r, p) := ata_read 0 1024 p in
  match r with
  | Err e => Some (Err e, p)
  | Ok head_data =>
      if decide (slice 512 8 head_data = GPT_SIG) then Some (Err ERROR_NOT_IMPL, p) else
      if decide (slice 510 2 head_data = MBR_SIG) then l ← mbr_partitions MBR_ENTRIES head_data; Some (Ok l, p)
      else Some (Ok [], p)
  end.

(** ** Disks as block devices *)

Lemma sector_addr off : off mod SECTOR_SIZE = 0 → off / SECTOR_SIZE * SECTOR_SIZE = off.
Proof. intros H. pose proof (Z.div_mod off SECTOR_SIZE ltac:(done)). lia. Qed.

Lemma ata_read_ok p off len : online p → 0 <= off → 0 <= len → off + len <= blen (media p) →
  off mod SECTOR_SIZE = 0 → len mod SECTOR_SIZE = 0 → len <= MAX_TRANSFER →
  ∃ p', ata_read off len p = (Ok (slice off len (media p)), p') ∧ media p' = media p ∧ online p'.
Proof.
  intros Hp H0 H1 H2 Ha Hl Hm. pose proof (sector_addr off Ha) as Hs.
  destruct (port_read_law p (off / SECTOR_SIZE) len Hp) as (p' & Hr & Hd); [by apply Z.div_pos|done|by rewrite Hs|done|done|].
  exists p'. unfold ata_read, ATA_DEFAULT_SECTOR_SIZE. by rewrite Ha, Hl, Hr, Hs.
Qed.

Lemma ata_write_ok p off b : online p → Forall is_byte b → 0 <= off → off + blen b <= blen (media p) →
  off mod SECTOR_SIZE = 0 → blen b mod SECTOR_SIZE = 0 → blen b <= MAX_TRANSFER →
  ∃ p', ata_write off b p = (Ok (blen b), p') ∧ media p' = patch off b (media p) ∧ online p'.
Proof.
  intros Hp Hb H0 H1 Ha Hl Hm. pose proof (sector_addr off Ha) as Hs.
  destruct (port_write_law p (off / SECTOR_SIZE) b Hp Hb) as (p' & Hr & Hd); [by apply Z.div_pos|by rewrite Hs|done|done|].
  exists p'. unfold ata_write, ATA_DEFAULT_SECTOR_SIZE. rewrite Ha, Hl, Hr. rewrite Hs in Hd. done.
Qed.

(** The part of the disk behind a partition, as far as its operations reach. *)
Record partition := Partition { part_of : partition_data; port_of : P }.

Definition part_bytes (d : partition) : Z := Z.min (part_size (part_of d) * 512) (blen (media (port_of d)) - lba_start (part_of d) * 512).
Definition part_start (d : partition) : Z := lba_start (part_of d) * 512.
Definition part_disk (d : partition) : buffer := slice (part_start d) (part_bytes d) (media (port_of d)).

Record part_working (d : partition) : Prop := {
  pw_online : online (port_of d);
  pw_media : blen (media (port_of d)) < 2 ^ 64 ∧ blen (media (port_of d)) mod SECTOR_SIZE = 0;
  pw_start : 0 <= part_start d <= blen (media (port_of d));
  pw_size : 0 <= part_size (part_of d) * 512 < 2 ^ 64;
}.

Lemma part_disk_length d : part_working d → blen (part_disk d) = part_bytes d.
Proof.
  intros [H1 (H2 & H3) H4 H5]. unfold part_disk, part_bytes, part_start in *. apply slice_length; lia.
Qed.

(** An access inside the partition is one inside the disk. *)
Lemma part_access d off len : part_working d → 0 <= off → 0 < len → off + len <= blen (part_disk d) → off mod SECTOR_SIZE = 0 →
  wrap64 (part_size (part_of d) * 512) = part_size (part_of d) * 512 ∧ off +w wrap64 (lba_start (part_of d) * 512) = off + part_start d ∧
  off + len <= part_size (part_of d) * 512 ∧ off + part_start d + len <= blen (media (port_of d)) ∧ (off + part_start d) mod SECTOR_SIZE = 0.
Proof.
  intros Hw H0 H1 H2 Ha. rewrite (part_disk_length d Hw) in H2. destruct Hw as [W1 (W2 & W3) W4 W5]. unfold part_bytes, part_start in *.
  rewrite !wrap64_small by (unfold is_u64; rewrite ?wrap64_small by (unfold is_u64; lia); lia).
  split; [done|]. split; [done|]. split; [lia|]. split; [lia|]. rewrite Z.add_mod, Ha by done. change 512 with SECTOR_SIZE. by rewrite Z.mod_mul by done.
Qed.

Definition part_read (off len : Z) (d : partition) : result buffer * partition :=
  let '(r, p) := partition_read (part_of d) off len (port_of d) in (r, Partition (part_of d) p).
Definition part_write (off : Z) (b : buffer) (d : partition) : result Z * partition :=
  let '(r, p) := partition_write (part_of d) off b (port_of d) in (r, Partition (part_of d) p).

Lemma part_read_ok d off len : part_working d → 0 <= off → 0 < len → off + len <= blen (part_disk d) →
  off mod SECTOR_SIZE = 0 → len mod SECTOR_SIZE = 0 → len <= MAX_TRANSFER →
  ∃ d', part_read off len d = (Ok (slice off len (part_disk d)), d') ∧ part_disk d' = part_disk d ∧ part_working d'.
Proof.
  intros Hw H0 H1 H2 Ha Hl Hm. destruct (part_access d off len Hw H0 H1 H2 Ha) as (E1 & E2 & E3 & E4 & E5).
  destruct (ata_read_ok (port_of d) (off + part_start d) len (pw_online _ Hw)) as (p' & Hr & Hd & Ho); [pose proof (pw_start _ Hw); lia|lia|lia|done..|].
  exists (Partition (part_of d) p'). split; [|split].
  - unfold part_read, partition_read. rewrite E1, E2. rewrite (proj2 (Z.leb_gt _ _)) by lia. rewrite Z.min_r by lia. rewrite Hr.
    do 2 f_equal. unfold part_disk. rewrite slice_slice; [f_equal; lia|..]; rewrite ?(part_disk_length d Hw) in H2; pose proof (pw_start _ Hw); unfold part_bytes, part_start in *; lia.
  - unfold part_disk, part_bytes, part_start. cbn. by rewrite Hd.
  - destruct Hw as [W1 W2 W3 W4]. split; unfold part_start in *; cbn; rewrite ?Hd; done.
Qed.

Lemma part_write_ok d off b : part_working d → Forall is_byte b → 0 <= off → 0 < blen b → off + blen b <= blen (part_disk d) →
  off mod SECTOR_SIZE = 0 → blen b mod SECTOR_SIZE = 0 → blen b <= MAX_TRANSFER →
  ∃ d', part_write off b d = (Ok (blen b), d') ∧ part_disk d' = patch off b (part_disk d) ∧ part_working d' ∧
    media (port_of d') = patch (off + part_start d) b (media (port_of d)).
Proof.
  intros Hw Hb H0 H1 H2 Ha Hl Hm. destruct (part_access d off (blen b) Hw H0 H1 H2 Ha) as (E1 & E2 & E3 & E4 & E5). pose proof (pw_start _ Hw) as Hs.
  destruct (ata_write_ok (port_of d) (off + part_start d) b (pw_online _ Hw) Hb) as (p' & Hr & Hd & Ho); [lia|lia|done..|].
  assert (blen (media p') = blen (media (port_of d))) as Hlen by (rewrite Hd; apply patch_length; lia).
  exists (Partition (part_of d) p'). split; [|split; [|split; [|done]]].
  - unfold part_write, partition_write. rewrite E1, E2. rewrite (proj2 (Z.leb_gt _ _)) by lia. rewrite Z.min_r by lia. rewrite slice_all, Hr. done.
  - rewrite (part_disk_length d Hw) in H2. unfold part_disk, part_bytes, part_start in *. cbn [port_of part_of]. rewrite Hlen, Hd.
    rewrite (Z.add_comm off). apply slice_patch_inside; lia.
  - destruct Hw as [W1 W2 W3 W4]. split; unfold part_start in *; cbn [port_of part_of]; rewrite ?Hlen; done.
Qed.

#[export, program] Instance partition_device : BlockDevice partition := {
  dev_read := part_read;
  dev_write := part_write;
  disk := part_disk;
  working := part_working;
}.
Next Obligation. intros d Hd. unfold part_disk. apply slice_bytes, media_bytes, Hd. Qed.
Next Obligation. intros. by apply part_read_ok. Qed.
Next Obligation. intros d off b Hw Hb H0 H1 H2 Ha Hl Hm. destruct (part_write_ok d off b) as (d' & ? & ? & ? & _); eauto. Qed.

End ata.
