(* ===== verification/Devfs.v ===== *)
(** * The device file system: [kern/fs/dev/device.cc], [devfs_vnode.cc] and the
    nodes of partitions in [ata_devices.cc]

    The devices are the disks, with their AHCI ports, and the partitions found
    on them.  [dheap] holds the addresses of the next nodes; a node that cannot
    be allocated is dereferenced all the same. *)

From S2P Require Import Prelude Types Links Bytes Ext2 Vnode AtaDevices.

Definition DC_BLOCK : Z := 1.
Definition DC_CHAR : Z := 2.
Definition DBT_SDx : Z := 1.
Definition DBT_CDx : Z := 4.
Definition DBT_PARTITION : Z := 127.
Definition DEVICE_DEFAULT_MODE : Z := 0x180.
Definition ROOT_DEFAULT_MODE : Z := 0x16D.
Definition PARTITION_NAME_LEN : Z := 32.

(** Disks have [DFE_HAS_PARTITIONS]; a partition has no features. *)
Inductive device := AtaDisk | AtaPartition (parent_dev : loc) (d : partition_data).

Record devfs (P : Type) := DevFs {
  dnodes : gmap loc vnode;
  node_dev : gmap loc loc;
  devices : gmap loc device;
  ports : gmap loc P;
  dheap : list loc;
  devfs_root : loc;
  block_dev_sd_idx_char : Z;
  block_dev_cd_idx_char : Z;
}.
Arguments DevFs {P}.
Arguments dnodes {P}.
Arguments node_dev {P}.
Arguments devices {P}.
Arguments ports {P}.
Arguments dheap {P}.
Arguments devfs_root {P}.
Arguments block_dev_sd_idx_char {P}.
Arguments block_dev_cd_idx_char {P}.

Section devfs.
Context {P : Type} `{!AhciPort P}.
Implicit Types s : devfs P.

Abbreviation DS := (ST (devfs P)).

#[export] Instance devfs_nodes : NodeStore (devfs P) := {
  all_nodes := dnodes;
  put_nodes m s := DevFs m (node_dev s) (devices s) (ports s) (dheap s) (devfs_root s) (block_dev_sd_idx_char s) (block_dev_cd_idx_char s);
}.

Definition put_sd (c : Z) : DS unit := λ s,
  Some (tt, DevFs (dnodes s) (node_dev s) (devices s) (ports s) (dheap s) (devfs_root s) c (block_dev_cd_idx_char s)).
Definition put_cd (c : Z) : DS unit := λ s,
  Some (tt, DevFs (dnodes s) (node_dev s) (devices s) (ports s) (dheap s) (devfs_root s) (block_dev_sd_idx_char s) c).
Definition get_devfs : DS (devfs P) := λ s, Some (s, s).
Definition put_port (dev : loc) (p : P) : DS unit := λ s,
  Some (tt, DevFs (dnodes s) (node_dev s) (devices s) (<[dev := p]> (ports s)) (dheap s) (devfs_root s) (block_dev_sd_idx_char s) (block_dev_cd_idx_char s)).
Definition put_node_dev (n dev : loc) : DS unit := λ s,
  Some (tt, DevFs (dnodes s) (<[n := dev]> (node_dev s)) (devices s) (ports s) (dheap s) (devfs_root s) (block_dev_sd_idx_char s) (block_dev_cd_idx_char s)).
Definition put_root (n : loc) : DS unit := λ s,
  Some (tt, DevFs (dnodes s) (node_dev s) (devices s) (ports s) (dheap s) n (block_dev_sd_idx_char s) (block_dev_cd_idx_char s)).
Definition alloc_dev : DS (option loc) := λ s,
  match dheap s with
  | [] => Some (None, s)
  | p :: l => Some (Some p, DevFs (dnodes s) (node_dev s) (devices s) (ports s) l (devfs_root s) (block_dev_sd_idx_char s) (block_dev_cd_idx_char s))
  end.
Definition put_device (p : loc) (d : device) : DS unit := λ s,
  Some (tt, DevFs (dnodes s) (node_dev s) (<[p := d]> (devices s)) (ports s) (dheap s) (devfs_root s) (block_dev_sd_idx_char s) (block_dev_cd_idx_char s)).
Definition must {A} (o : option A) : DS A := slift o.

(** ** Devices *)

Definition device_generate_name (cls sbcls : Z) : DS (result (list Z)) :=
  s ← get_devfs;
  if cls =? DC_BLOCK then
    if sbcls =? DBT_CDx then
      let c := block_dev_cd_idx_char s in
      if 122 <? c then mret (Err ERROR_UNSUPPORTED) else put_cd (c + 1);; mret (Ok [99; 100; c])
    else if sbcls =? DBT_SDx then
      let c := block_dev_sd_idx_char s in
      if 122 <? c then mret (Err ERROR_UNSUPPORTED) else put_sd (c + 1);; mret (Ok [115; 100; c])
    else mret (Err ERROR_INVALID)
  else mret (Err ERROR_INVALID).

(** The type of the node of a device of the class. *)
Definition device_type (cls : Z) : option vnode_types :=
  if cls =? DC_BLOCK then Some VNT_BLK else if cls =? DC_CHAR then Some VNT_CHR else None.

(** [new dev_fs_node], with the fields set afterwards. *)
Definition new_dev_node (t : vnode_types) (name : list Z) (ino flags mode : Z) : DS loc :=
  o ← alloc_dev;
  p ← must o;
  set_node p (set_ids ino mode 0 0 (set_v_flags flags (new_vnode null t name)));;
  mret p.

(** The part of [device_add] before the partitions are enumerated. *)
Definition add_device_node (cls subcls : Z) (dev : loc) (name : option (list Z)) : DS (result loc) :=
  r ← (match name with Some n => mret (Ok n) | None => device_generate_name cls subcls end);
  match r with
  | Err e => mret (Err e)
  | Ok name =>
      match device_type cls with
      | None => mret (Err ERROR_INVALID)
      | Some t =>
          n ← new_dev_node t name (Z.lor (cls mod 2 ^ 32) (Z.shiftl subcls 32)) VNF_MEMORY DEVICE_DEFAULT_MODE;
          put_node_dev n dev;;
          s ← get_devfs;
          attach (devfs_root s) n;;
          mret (Ok n)
      end
  end.

(** [partition_add_device]: the name of the disk with a digit. *)
Definition partition_add_device (parent : loc) (d : partition_data) (disk_idx : Z) : DS (result unit) :=
  v ← node parent;
  let name := default (take (Z.to_nat PARTITION_NAME_LEN) (name_buf v)) (cstr (take (Z.to_nat PARTITION_NAME_LEN) (name_buf v))) in
  kassert (strlen name + 2 <=? PARTITION_NAME_LEN);;
  s ← get_devfs;
  pdev ← must (node_dev s !! parent);
  o ← alloc_dev;
  p ← must o;
  put_device p (AtaPartition pdev d);;
  add_device_node DC_BLOCK DBT_PARTITION p (Some (name ++ [(48 + disk_idx) mod 256]));;
  mret (Ok tt).

Fixpoint add_partitions (parent : loc) (l : list partition_data) (partition_count : Z) : DS unit :=
  match l with
  | [] => mret tt
  | d :: l => partition_add_device parent d (partition_count + 1);; add_partitions parent l (partition_count + 1)
  end.

Definition enumerate_partitions (dev parent : loc) : DS (result unit) :=
  s ← get_devfs;
  d ← must (devices s !! dev);
  match d with
  | AtaPartition _ _ => mret (Err ERROR_UNSUPPORTED)
  | AtaDisk =>
      p ← must (ports s !! dev);
      r ← must (find_partitions p);
      put_port dev r.2;;
      match r.1 with
      | Err e => mret (Err e)
      | Ok l => add_partitions parent l 0;; mret (Ok tt)
      end
  end.

Definition device_add (cls subcls : Z) (dev : loc) (name : option (list Z)) : DS (result unit) :=
  r ← add_device_node cls subcls dev name;
  match r with
  | Err e => mret (Err e)
  | Ok n =>
      s ← get_devfs;
      d ← must (devices s !! dev);
      (match d with AtaDisk => enumerate_partitions dev n | AtaPartition _ _ => mret (Ok tt) end);;
      mret (Ok tt)
  end.

Definition device_find_first (cls : Z) (name : list Z) : DS (result loc) :=
  s ← get_devfs;
  if devfs_root s =? null then mret (Err ERROR_DEV_NOT_FOUND) else
  r ← lookup_child (devfs_root s) name;
  match r with
  | Err e => mret (Err e)
  | Ok n =>
      v ← node n;
      let n := if bool_decide (v_type v = VNT_LNK) then (if bool_decide (v_type v = VNT_MNT) then link_target v else null) else n in
      v ← node n;
      if (cls =? DC_BLOCK) && negb (bool_decide (v_type v = VNT_BLK)) then mret (Err ERROR_DEV_NOT_FOUND) else
      if (cls =? DC_CHAR) && negb (bool_decide (v_type v = VNT_CHR)) then mret (Err ERROR_DEV_NOT_FOUND) else
      mret (Ok n)
  end.

(** Both [device_add_link]: the target is a node or a function, at [target]. *)
Definition device_add_link (name : list Z) (target flags : Z) : DS (result unit) :=
  n ← new_dev_node VNT_LNK name 0 flags 0x1FF;
  v ← node n;
  set_node n (set_link_target target v);;
  s ← get_devfs;
  attach (devfs_root s) n;;
  mret (Ok tt).
Definition device_add_link_node (name : list Z) (to : loc) : DS (result unit) := device_add_link name to VNF_MEMORY.
Definition device_add_link_getter (name : list Z) (getter : loc) : DS (result unit) := device_add_link name getter (Z.lor VNF_MEMORY VNF_PER_PROCESS).

Definition init_devfs_root : DS (result unit) :=
  o ← alloc_dev;
  match o with
  | None => put_root null;; mret (Err ERROR_MEMORY_ALLOC)
  | Some p =>
      set_node p (set_ids 0 ROOT_DEFAULT_MODE 0 0 (set_v_flags VNF_MEMORY (new_vnode null VNT_BLK [])));;
      put_root p;;
      mret (Ok tt)
  end.

(** ** Nodes of devices: [devfs_vnode.cc] *)

(** Every operation of a [dev_fs_node] but [stat] and [allocate_new]. *)
Definition dev_unsupported {A} : DS (result A) := mret (Err ERROR_UNSUPPORTED).

Definition dev_stat (boot_timestamp : Z) (this : loc) : DS (result file_status) :=
  v ← node this;
  mret (Ok (FileStatus (Z.lor (Z.land (v_mode v) VFS_MODE_MASK) (vnode_type_to_mode_type (v_type v))) 0 (v_uid v) (v_gid v) 0 0 0
    boot_timestamp boot_timestamp boot_timestamp)).

End devfs.
