(* ===== verification/Vfs.v ===== *)
(** * The virtual file system: [kern/fs/vfs/vfs.cc] and [kern/fs/fs.cc]

    The operations of a node are an interface, as in the source, where they are
    virtual functions; ext2 implements it in [Ext2Nodes], devfs in [Devfs].
    Paths are lists of characters.  A path element is copied to a buffer from
    [new char[VFS_MAX_PATH_LEN]], whose memory holds whatever it held before:
    [chars] gives the contents of the next buffers.  The recursion over paths
    and links takes fuel; a path needs at most one step for each character. *)

From S2P Require Import Prelude Types Links Bytes Vnode.

Definition SLASH : Z := 47.
Definition DOT : Z := 46.
Definition VFS_LINK_MAX : Z := 32.
Definition UID_ROOT : Z := 0.
Definition BLOCKDEV_BUSY : Z := 0x1.
Definition sizeof_directory_entry : Z := 24.

(** The values of the codes, for the one function that returns them unnegated. *)
Definition error_value (e : error_code_values) : Z :=
  match e with
  | ERROR_SUCCESS => 0 | ERROR_UNKOWN => 1 | ERROR_INVALID => 2 | ERROR_NOT_IMPL => 3 | ERROR_LOCK_STATUS => 4
  | ERROR_UNSUPPORTED => 5 | ERROR_MEMORY_ALLOC => 6 | ERROR_REWRITE => 7 | ERROR_VMA_NOT_FOUND => 8
  | ERROR_PAGE_NOT_PRESENT => 9 | ERROR_HARDWARE_NOT_COMPATIBLE => 10 | ERROR_TOO_MANY_PROC => 11
  | ERROR_CANNOT_WAKEUP => 12 | ERROR_HAS_KILLED => 13 | ERROR_BUSY => 14 | ERROR_TIMEOUT => 15 | ERROR_IO => 16
  | ERROR_OBSOLETE => 17 | ERROR_OUT_OF_BOUND => 18 | ERROR_INTERNAL => 19 | ERROR_IS_DIR => 20 | ERROR_NOT_DIR => 21
  | ERROR_DEV_NOT_FOUND => 22 | ERROR_NO_ENTRY => 23 | ERROR_EOF => 24 | ERROR_INVALID_ACCESS => 25
  | ERROR_SHOULD_NOT_REACH_HERE => 26 | ERROR_TOO_MANY_CALLS => 27 | ERROR_ACCESS => 28 | ERROR_NOT_EXIST => 29
  | ERROR_ALREADY_EXIST => 30 | ERROR_NOT_FILE => 31 | ERROR_PERMISSION => 32 | ERROR_INTERNAL_INTR_KILLED => 33
  | ERROR_INTERNAL_INTR_RETRY => 34 | ERROR_IPC_NOT_THE_SENDER => 35 | ERROR_TOO_MANY_HANDLES => 36
  | ERROR_CODE_COUNT => 37
  end.

(** ** Interfaces and state *)

(** The virtual functions of [vnode_base], of its [device_class] and of [fs_class_base]. *)
Class VnodeMethods (W : Type) := {
  nodes : W → gmap loc vnode;
  set_nodes : gmap loc vnode → W → W;
  m_find : loc → list Z → ST W (result loc);
  m_read_directory : loc → file_object → ST W (result (Z * directory_entry) * file_object);
  m_open_directory : loc → file_object → ST W (result unit * file_object);
  m_open : loc → file_object → Z → ST W (result unit * file_object);
  m_close : loc → file_object → ST W (result unit);
  m_allocate_new : loc → list Z → Z → Z → Z → ST W (result loc);
  m_create : loc → list Z → Z → Z → Z → ST W (result unit);
  m_make_directory : loc → list Z → Z → Z → Z → ST W (result unit);
  m_truncate : loc → Z → ST W (result unit);
  m_unlink : loc → ST W (result unit);
  m_seek : loc → file_object → Z → vfs_seek_methods → ST W (result Z * file_object);
  m_stat : loc → ST W (result file_status);
  m_change_mode : loc → Z → ST W (result unit);
  m_change_ownership : loc → Z → Z → ST W (result unit);
  m_read_link : loc → ST W (result (list Z));
  m_read : loc → file_object → Z → ST W (result Z * file_object * buffer);
  m_write : loc → file_object → buffer → ST W (result Z * file_object);
  dev_of_read : loc → Z → Z → ST W (result buffer);
  dev_of_write : loc → Z → buffer → ST W (result Z);
  dev_of_ioctl : loc → Z → Z → ST W (result unit);
  fs_initialize : loc → ST W (result unit);
  fs_get_root : loc → ST W (result loc);
  fs_dispose : loc → ST W (result unit);
  set_nodes_nodes m w : nodes (set_nodes m w) = m;
}.

Record fs_instance := FsInstance { fi_dev : loc; fi_class : loc; fi_flags : Z; fi_private : loc }.

(** [fs_classes] and [mounts] are the lists [fs_class_head] and [fs_mount_head];
    a class is its object and its id.  [dev_flags] holds the flags of the devices. *)
Record io (W : Type) := Io {
  world : W;
  vfs_root : loc;
  chars : list buffer;
  fs_classes : list (loc * Z);
  mounts : list loc;
  instances : gmap loc fs_instance;
  dev_flags : gmap loc Z;
  free : list loc;
}.
Arguments Io {W}.
Arguments world {W}.
Arguments vfs_root {W}.
Arguments chars {W}.
Arguments fs_classes {W}.
Arguments mounts {W}.
Arguments instances {W}.
Arguments dev_flags {W}.
Arguments free {W}.

(** [vfs_io_context] *)
Record io_context := IoContext { cwd_vnode : loc; cx_uid : Z; cx_gid : Z; mode_mask : Z }.

(** ** Paths *)

Definition get_open_mode (opt : Z) : Z :=
  let r := if flag opt IOCTX_FLG_EXEC then X_OK else 0 in
  let m := Z.land opt IOCTX_FLG_MASK_ACCESS_MODE in
  if m =? IOCTX_FLG_WRONLY then Z.lor r W_OK else
  if m =? IOCTX_FLG_RDONLY then Z.lor r R_OK else
  if m =? IOCTX_FLG_RDWR then Z.lor r (Z.lor W_OK R_OK) else r.

(** [strchr] and [strrchr2] for a character that is not zero: the index it is at. *)
Fixpoint strchr (s : list Z) (c : Z) : option nat :=
  match s with
  | [] => None
  | x :: s => if x =? c then Some O else option_map S (strchr s c)
  end.
Fixpoint strrchr2 (s : list Z) (c : Z) : option nat :=
  match s with
  | [] => None
  | x :: s => match strrchr2 s c with Some n => Some (S n) | None => if x =? c then Some O else None end
  end.

(** The directory and the name. *)
Definition separate_parent_name (full_path : list Z) : result (list Z * list Z) :=
  let sep := strrchr2 full_path SLASH in
  if (VFS_MAX_PATH_LEN <=? strlen full_path) || (strlen full_path <=? 0) then Err ERROR_INVALID else
  match sep with
  | None => Ok ([DOT], full_path)
  | Some O => Ok ([SLASH], tail full_path)
  | Some n => if Z.of_nat n <? VFS_MAX_PATH_LEN then Err ERROR_INVALID else Ok (take n full_path, tail full_path)
  end.

Fixpoint skip_slashes (s : list Z) : list Z :=
  match s with
  | c :: s' => if c =? SLASH then skip_slashes s' else s
  | [] => []
  end.

(** The rest of the path, if there is one, and the buffer with the element: only
    the last element is terminated. *)
Definition next_path_element (path : list Z) (element : buffer) : option (option (list Z) * buffer) :=
  match strchr path SLASH with
  | None => b ← copy_in 0 (strncpy path VFS_MAX_PATH_LEN) element; Some (None, b)
  | Some n =>
      b ← copy_in 0 (take n path) element;
      let rest := skip_slashes (drop n path) in
      Some (if decide (rest = []) then None else Some rest, b)
  end.

(** [strcmp] of a buffer and a literal being 0; the string in a buffer, of which
    [lookup_child] refuses one without an end after [VNODE_NAME_MAX] characters. *)
Definition strcmp_at (b : buffer) (lit : list Z) : option bool := strncmp_at (S (length lit)) 0 b lit.
Definition string_in (b : buffer) : list Z := default b (cstr b).

(** ** Operations *)

Section vfs.
Context {W : Type} `{!VnodeMethods W}.
Implicit Types s : io W.

Abbreviation IS := (ST (io W)).

#[export] Instance io_nodes : NodeStore (io W) := {
  all_nodes s := nodes (world s);
  put_nodes m s := Io (set_nodes m (world s)) (vfs_root s) (chars s) (fs_classes s) (mounts s) (instances s) (dev_flags s) (free s);
}.

Definition on_world {A} (c : ST W A) : IS A := λ s,
  match c (world s) with
  | Some (x, w) => Some (x, Io w (vfs_root s) (chars s) (fs_classes s) (mounts s) (instances s) (dev_flags s) (free s))
  | None => None
  end.
Definition ilift {A} (o : option A) : IS A := λ s, match o with Some x => Some (x, s) | None => None end.
Definition get_root : IS loc := λ s, Some (vfs_root s, s).
Definition set_root (p : loc) : IS unit := λ s, Some (tt, Io (world s) p (chars s) (fs_classes s) (mounts s) (instances s) (dev_flags s) (free s)).

(** [new(std::nothrow) char[VFS_MAX_PATH_LEN]]; the result is used unchecked. *)
Definition new_chars : IS buffer := λ s,
  match chars s with
  | [] => None
  | b :: l => Some (b, Io (world s) (vfs_root s) l (fs_classes s) (mounts s) (instances s) (dev_flags s) (free s))
  end.

(** Results that stop an operation. *)
Definition ibind {A B} (c : IS (result A)) (k : A → IS (result B)) : IS (result B) :=
  r ← c; match r with Err e => mret (Err e) | Ok x => k x end.
Notation "x ←! y ; z" := (ibind y (λ x, z)) (at level 20, y at level 100, z at level 200, only parsing).
Notation "y ;;! z" := (ibind y (λ _, z)) (at level 100, z at level 200, right associativity).

(** *** Nodes *)

Definition get_link_target (v : vnode) : loc := if bool_decide (v_type v = VNT_MNT) then link_target v else null.

Definition lookup_or_load_node (at_ : loc) (name : list Z) : IS (result loc) :=
  child_ret ← lookup_child at_ name;
  match child_ret with
  | Ok p => mret (Ok p)
  | Err e =>
      if negb (bool_decide (e = ERROR_NO_ENTRY)) then mret (Err e) else
      v ← node at_;
      if flag (v_flags v) VNF_MEMORY then mret (Err ERROR_NO_ENTRY) else
      n ←! on_world (m_find at_ name);
      attach at_ n;;
      mret (Ok n)
  end.

(** *** Access *)

Definition access_check (cx : io_context) (desm mode uid gid : Z) : result unit :=
  let denied (r w x : Z) : bool :=
    flag desm R_OK && negb (flag mode r) || flag desm W_OK && negb (flag mode w) || flag desm X_OK && negb (flag mode x) in
  if cx_uid cx =? 0 then
    if flag desm X_OK && negb (flag mode (Z.lor S_IXOTH (Z.lor S_IXGRP S_IXUSR))) then Err ERROR_ACCESS else Ok tt
  else if uid =? cx_uid cx then if denied S_IRUSR S_IWUSR S_IXUSR then Err ERROR_ACCESS else Ok tt
  else if gid =? cx_gid cx then if denied S_IRGRP S_IWGRP S_IXGRP then Err ERROR_ACCESS else Ok tt
  else if denied S_IROTH S_IWOTH S_IXOTH then Err ERROR_ACCESS else Ok tt.

Definition access_node (cx : io_context) (vn : loc) (mode : Z) : IS (result unit) :=
  v ← node vn;
  mret (access_check cx mode (v_mode v) (cx_uid cx) (cx_gid cx)).
(** *** Links and paths *)

(** [do_link_resolve], [do_find] and [find]: they call each other.  A node of type
    [VNT_LNK] has no link target and no getter function in [get_link_target] and
    [get_link_getter_func], which give null unless the type is [VNT_MNT]. *)
Fixpoint do_find (fuel : nat) (at_ : loc) (path : option (list Z)) (link_itself : bool) {struct fuel} : IS (result loc) :=
  match fuel with
  | O => st_fail
  | S fuel =>
      if at_ =? null then mret (Err ERROR_INVALID) else
      match path with
      | None | Some [] => mret (Ok at_)
      | Some ((c :: _) as p) =>
          if c =? SLASH then mret (Err ERROR_INVALID) else
          v ← node at_;
          at_ ←! (if bool_decide (v_type v = VNT_LNK) then do_link_resolve fuel at_ link_itself VFS_LINK_MAX else mret (Ok at_));
          v ← node at_;
          let at_ := if bool_decide (v_type v = VNT_MNT) then get_link_target v else at_ in
          v ← node at_;
          if negb (bool_decide (v_type v = VNT_DIR)) then mret (Err ERROR_NOT_DIR) else
          buf ← new_chars;
          e ← ilift (next_path_element p buf);
          find_elements fuel at_ e.1 e.2 link_itself
      end
  end
(** The loop over the elements, and what follows it. *)
with find_elements (fuel : nat) (at_ : loc) (path_next : option (list Z)) (buf : buffer) (link_itself : bool) {struct fuel} : IS (result loc) :=
  match fuel with
  | O => st_fail
  | S fuel =>
      dot ← ilift (strcmp_at buf [DOT]);
      if (dot : bool) then
        match path_next with
        | None => mret (Ok at_)
        | Some p => e ← ilift (next_path_element p buf); find_elements fuel at_ e.1 e.2 link_itself
        end
      else
      dotdot ← ilift (strcmp_at buf [DOT; DOT]);
      if (dotdot : bool) then
        v ← node at_;
        do_find fuel (if v_parent v =? null then at_ else v_parent v) path_next link_itself
      else
      result ←! lookup_or_load_node at_ (string_in buf);
      match path_next with
      | Some _ =>
          if link_itself then mret (Ok result) else
          v ← node result;
          r ←! (if bool_decide (v_type v = VNT_LNK) then do_link_resolve fuel result false VFS_LINK_MAX else mret (Ok result));
          v ← node r;
          if bool_decide (v_type v = VNT_LNK) then mret (Err ERROR_NOT_IMPL) else mret (Ok r)
      | None => do_find fuel result None link_itself
      end
  end
with do_link_resolve (fuel : nat) (lnk : loc) (link_itself : bool) (count : Z) {struct fuel} : IS (result loc) :=
  match fuel with
  | O => st_fail
  | S fuel =>
      if lnk =? null then mret (Err ERROR_INVALID) else
      v ← node lnk;
      if negb (bool_decide (v_type v = VNT_LNK)) then mret (Ok lnk) else
      (if negb (get_link_target v =? null) && negb (flag (v_flags v) VNF_MEMORY) then
         new_chars;;
         path ←! on_world (m_read_link lnk);
         r ← find_from fuel path link_itself;
         match r with
         | Err e => v ← node lnk; set_node lnk (Vnode.set_link_target null v);; mret (Err e)
         | Ok _ => mret (Ok tt)
         end
       else mret (Ok tt));;!
      v ← node lnk;
      kassert (negb (flag (v_flags v) VNF_PER_PROCESS));;
      let target := get_link_target v in
      if target =? null then mret (Err ERROR_NO_ENTRY) else
      t ← node target;
      if bool_decide (v_type t = VNT_LNK) then
        if count <=? 1 then mret (Err ERROR_TOO_MANY_CALLS) else do_link_resolve fuel target link_itself (count - 1)
      else mret (Ok target)
  end
(** [find]: [rel] and the working directory are set but not used. *)
with find_from (fuel : nat) (path : list Z) (link_itself : bool) {struct fuel} : IS (result loc) :=
  match fuel with
  | O => st_fail
  | S fuel =>
      root ← get_root;
      if root =? null then mret (Err ERROR_INVALID) else
      let path := match path with c :: _ => if c =? SLASH then skip_slashes path else path | [] => [] end in
      r ←! do_find fuel root (Some path) link_itself;
      v ← node r;
      mret (Ok (if bool_decide (v_type v = VNT_MNT) then get_link_target v else r))
  end.

Definition path_fuel (path : list Z) : nat := 2 * length path + Z.to_nat VFS_LINK_MAX + 8.

Definition link_resolve (lnk : loc) (link_itself : bool) : IS (result loc) :=
  do_link_resolve (path_fuel []) lnk link_itself VFS_LINK_MAX.

Definition find (rel : loc) (path : list Z) (link_itself : bool) : IS (result loc) := find_from (path_fuel path) path link_itself.

(** The new working directory. *)
Definition set_cwd (cx : io_context) (path : list Z) : IS (result io_context) :=
  let with_cwd p := IoContext p (cx_uid cx) (cx_gid cx) (mode_mask cx) in
  if decide (path = [SLASH]) then mret (Ok (with_cwd null)) else
  root ← get_root;
  if bool_decide (head path = Some SLASH) && (root =? null) then mret (Ok (with_cwd null)) else
  n ←! do_find (path_fuel path) root (Some path) false;
  dest ←! link_resolve n false;
  v ← node dest;
  let dest := if bool_decide (v_type v = VNT_MNT) then get_link_target v else dest in
  v ← node dest;
  if negb (bool_decide (v_type v = VNT_DIR)) then mret (Err ERROR_NOT_DIR) else
  access_node cx dest X_OK;;!
  mret (Ok (with_cwd dest)).

(** The nodes from the root to [n]. *)
Fixpoint back_stack (fuel : nat) (n : loc) (acc : list vnode) : IS (list vnode) :=
  if n =? null then mret acc else
  match fuel with
  | O => st_fail
  | S fuel => v ← node n; back_stack fuel (v_parent v) (v :: acc)
  end.

(** The path so far is in [acc]. *)
Fixpoint write_path (l : list vnode) (acc : list Z) : IS (result (list Z)) :=
  match l with
  | [] => mret (Ok acc)
  | v :: l =>
      t ← (if bool_decide (v_type v = VNT_DIR) && negb (get_link_target v =? null) then node (get_link_target v) else mret v);
      name ← ilift (cstr (name_buf t));
      let acc := acc ++ [SLASH] ++ name in
      if VFS_MAX_PATH_LEN <=? strlen acc then mret (Err ERROR_INVALID) else write_path l acc
  end.

Definition vnode_get_path (n : loc) : IS (result (list Z)) := λ s,
  (l ← back_stack (S (base.size (nodes (world s)))) n []; write_path l []) s.

(** *** File systems: [fs.cc] *)

Definition fs_find (id : Z) : IS loc := λ s,
  Some (match List.find (λ c, c.2 =? id) (fs_classes s) with Some c => c.1 | None => null end, s).

Definition add_class (cls : loc) (id : Z) : IS unit := λ s,
  Some (tt, Io (world s) (vfs_root s) (chars s) ((cls, id) :: fs_classes s) (mounts s) (instances s) (dev_flags s) (free s)).
Definition fs_register (cls : loc) (id : Z) : IS (result unit) :=
  p ← fs_find id;
  if negb (p =? null) then mret (Err ERROR_REWRITE) else add_class cls id;; mret (Ok tt).

Definition get_instance (p : loc) : IS fs_instance := λ s, ilift (instances s !! p) s.
Definition put_instance (p : loc) (i : fs_instance) : IS unit := λ s,
  Some (tt, Io (world s) (vfs_root s) (chars s) (fs_classes s) (mounts s) (<[p := i]> (instances s)) (dev_flags s) (free s)).
Definition delete_instance (p : loc) : IS unit := λ s,
  Some (tt, Io (world s) (vfs_root s) (chars s) (fs_classes s) (mounts s) (delete p (instances s)) (dev_flags s) (free s)).
Definition new_instance (i : fs_instance) : IS (option loc) := λ s,
  match free s with
  | [] => Some (None, s)
  | p :: l => Some (Some p, Io (world s) (vfs_root s) (chars s) (fs_classes s) (mounts s) (<[p := i]> (instances s)) (dev_flags s) l)
  end.
Definition add_mount (p : loc) : IS unit := λ s,
  Some (tt, Io (world s) (vfs_root s) (chars s) (fs_classes s) (p :: mounts s) (instances s) (dev_flags s) (free s)).

(** No class returns the positive [ERROR_UNSUPPORTED] that is let pass. *)
Definition fs_create (cls dev : loc) (flags : Z) : IS (result loc) :=
  o ← new_instance (FsInstance dev cls flags null);
  match o with
  | None => mret (Err ERROR_MEMORY_ALLOC)
  | Some p =>
      r ← on_world (fs_initialize p);
      match r with
      | Err e => delete_instance p;; mret (Err e)
      | Ok _ => add_mount p;; mret (Ok p)
      end
  end.

(** Devices: [set_flags] adds flags and removes none. *)
Definition get_flags (dev : loc) : IS Z := λ s, ilift (dev_flags s !! dev) s.
Definition put_flags (dev : loc) (f : Z) : IS unit := λ s,
  Some (tt, Io (world s) (vfs_root s) (chars s) (fs_classes s) (mounts s) (instances s) (<[dev := f]> (dev_flags s)) (free s)).
Definition set_flags (dev : loc) (fl : Z) : IS unit := f ← get_flags dev; put_flags dev (Z.lor f fl).

Definition mount (cx : io_context) (path : list Z) (blk : loc) (fs_id flags : Z) : IS (result unit) :=
  if blk =? null then mret (Err ERROR_INVALID) else
  if negb (bool_decide (head path = Some SLASH)) then mret (Err ERROR_INVALID) else
  fs_class ← fs_find fs_id;
  if fs_class =? null then mret (Err ERROR_INVALID) else
  f ← get_flags blk;
  if flag f BLOCKDEV_BUSY then mret (Err ERROR_BUSY) else
  fs_create fs_class blk flags;;!
  fs_root ←! on_world (fs_get_root fs_class);
  (if decide (path = [SLASH]) then set_root fs_root;; mret (Ok tt) else
   mount_point ←! find (cwd_vnode cx) path false;
   v ← node mount_point;
   set_node mount_point (Vnode.set_link_target fs_root (set_v_type VNT_MNT v));;
   r ← node fs_root;
   set_node fs_root (Vnode.set_parent mount_point (Vnode.set_link_target mount_point r));;
   mret (Ok tt));;!
  f ← get_flags blk;
  set_flags blk (Z.lor f BLOCKDEV_BUSY);;
  mret (Ok tt).

Definition umount (cx : io_context) (dir_name : list Z) : IS (result unit) :=
  n ←! find (cwd_vnode cx) dir_name false;
  v ← node n;
  if v_parent v =? null then mret (Err ERROR_BUSY) else
  if negb (bool_decide (v_type v = VNT_DIR)) then mret (Err ERROR_NOT_DIR) else
  if get_link_target v =? null then mret (Err ERROR_INVALID) else
  let mount_point := get_link_target v in
  m ← node mount_point;
  if negb (get_link_target m =? n) then mret (Err ERROR_INVALID) else
  set_node mount_point (Vnode.set_link_target null (set_v_type VNT_DIR m));;
  if v_fs v =? null then mret (Err ERROR_INVALID) else
  i ← get_instance (v_fs v);
  if fi_dev i =? null then mret (Err ERROR_INVALID) else
  if fi_class i =? null then mret (Err ERROR_INVALID) else
  d ← on_world (fs_dispose (v_fs v));
  match d with
  | Err e => if bool_decide (e = ERROR_UNSUPPORTED) then mret (Ok tt) else mret (Err e)
  | Ok _ => mret (Ok tt)
  end;;!
  put_instance (v_fs v) (FsInstance null null 0 null);;
  f ← get_flags (fi_dev i);
  set_flags (fi_dev i) (Z.ldiff f BLOCKDEV_BUSY);;
  mret (Ok tt).

(** *** Files *)

Definition set_fd (pos : Z) (n : loc) (flags : Z) (fd : file_object) : file_object := FileObject flags (fo_ref fd) pos n.
Definition add_flags (fl : Z) (fd : file_object) : file_object := FileObject (Z.lor (fo_flags fd) fl) (fo_ref fd) (fo_pos fd) (fo_vnode fd).

Definition increase_open_count (p : loc) : IS unit := v ← node p; set_node p (set_open_count (open_count v +w 1) v).
Definition decrease_open_count (p : loc) : IS unit := v ← node p; set_node p (set_open_count (open_count v -w 1) v).

Definition open_directory (fd : file_object) : IS (result unit * file_object) :=
  v ← node (fo_vnode fd);
  if negb (bool_decide (v_type v = VNT_DIR)) then mret (Err ERROR_NOT_DIR, fd) else
  if flag (v_flags v) VNF_MEMORY then
    let fd := add_flags (Z.lor FO_FLAG_PSEUDO_DIR FO_FLAG_PSEUDO_DIR_DOT) fd in
    increase_open_count (fo_vnode fd);;
    mret (Ok tt, FileObject (fo_flags fd) (fo_ref fd) (default null (head (child_list v))) (fo_vnode fd))
  else
    r ← on_world (m_open_directory (fo_vnode fd) fd);
    match r.1 with
    | Err e => mret (Err e, r.2)
    | Ok _ => increase_open_count (fo_vnode r.2);; mret (Ok tt, r.2)
    end.

Definition open_flags (opt : Z) : Z :=
  let m := Z.land opt IOCTX_FLG_MASK_ACCESS_MODE in
  let f := if m =? IOCTX_FLG_RDONLY then FO_FLAG_READABLE else
           if m =? IOCTX_FLG_WRONLY then FO_FLAG_WRITABLE else
           if m =? IOCTX_FLG_RDWR then Z.lor FO_FLAG_READABLE FO_FLAG_WRITABLE else 0 in
  if flag opt IOCTX_FLG_CLOEXEC then Z.lor f FO_FLAG_CLOEXEC else f.

(** The flags the code knows. *)
Definition known_flags (opt : Z) : bool :=
  Z.ldiff (Z.ldiff opt IOCTX_FLG_MASK_ACCESS_MODE) (Z.lor IOCTX_FLG_CLOEXEC (Z.lor IOCTX_FLG_CREATE IOCTX_FLG_TRUNC)) =? 0.

Definition open_vnode (cx : io_context) (fd : file_object) (n : loc) (opt : Z) : IS (result unit * file_object) :=
  if n =? null then mret (Err ERROR_INVALID, fd) else
  v ← node n;
  if flag opt IOCTX_FLG_DIRECTORY then
    if negb (bool_decide (v_type v = VNT_DIR)) then mret (Err ERROR_NOT_DIR, fd) else
    if negb (Z.land opt IOCTX_FLG_MASK_ACCESS_MODE =? IOCTX_FLG_RDONLY) then mret (Err ERROR_INVALID_ACCESS, fd) else
    open_directory (set_fd 0 n (Z.lor FO_FLAG_DIRECTORY FO_FLAG_READABLE) fd)
  else if bool_decide (v_type v = VNT_DIR) || bool_decide (v_type v = VNT_MNT) then mret (Err ERROR_IS_DIR, fd) else
  a ← access_node cx n (get_open_mode opt);
  match a with Err e => mret (Err e, fd) | Ok _ =>
  t ← (if flag opt IOCTX_FLG_TRUNC then on_world (m_truncate n 0) else mret (Ok tt));
  match t with Err e => mret (Err e, fd) | Ok _ =>
  let fd := set_fd 0 n 0 fd in
  if negb (known_flags opt) then mret (Err ERROR_INVALID, fd) else
  r ← on_world (m_open n (add_flags (open_flags opt) fd) opt);
  match r.1 with
  | Err e => mret (Err e, r.2)
  | Ok _ => increase_open_count (fo_vnode r.2);; mret (Ok tt, r.2)
  end end end.

Definition create_at (cx : io_context) (at_ : loc) (full_path : list Z) (mode : Z) : IS (result unit) :=
  new_chars;;
  match separate_parent_name full_path with
  | Err e => mret (Err e)
  | Ok (path, name) =>
      n ←! find at_ path false;
      access_node cx n W_OK;;!
      on_world (m_create n name (cx_uid cx) (cx_gid cx) (Z.ldiff mode (mode_mask cx)))
  end.

Definition open_at (cx : io_context) (fd : file_object) (at_ : loc) (path : list Z) (flags mode : Z) : IS (result unit * file_object) :=
  let at_ := if at_ =? null then cwd_vnode cx else at_ in
  r ← find at_ path false;
  r ← (match r with
       | Ok n => mret (Ok n)
       | Err e =>
           if negb (flag flags IOCTX_FLG_CREATE) then mret (Err e) else
           if flag flags IOCTX_FLG_DIRECTORY then mret (Err ERROR_INVALID) else
           create_at cx at_ path mode;;!
           find at_ path false
       end);
  match r with
  | Err e => mret (Err e, fd)
  | Ok n => open_vnode cx fd n flags
  end.

Definition close (fd : file_object) : IS (result unit) :=
  if fo_ref fd =? 0 then mret (Err ERROR_INVALID) else
  if fo_vnode fd =? null then mret (Err ERROR_INVALID) else
  decrease_open_count (fo_vnode fd);;
  on_world (m_close (fo_vnode fd) fd).

(** The child behind [p]; the link behind the last one is the list's own, without an item. *)
Fixpoint next_child (p : loc) (l : list loc) : option loc :=
  match l with
  | [] => None
  | x :: l => if x =? p then Some (default null (head l)) else next_child p l
  end.

Definition entry_type (t : vnode_types) : Z :=
  match t with VNT_REG => DT_REG | VNT_DIR | VNT_MNT => DT_DIR | _ => DT_UNKNOWN end.

(** The length of the record, the inode number and the entry; a node's own
    [read_directory] does not set the inode number, which is 0 here. *)
Definition read_directory (fd : file_object) : IS (result (Z * Z * directory_entry) * file_object) :=
  if negb (flag (fo_flags fd) FO_FLAG_DIRECTORY) then mret (Err ERROR_NOT_DIR, fd) else
  if flag (fo_flags fd) FO_FLAG_PSEUDO_DIR then
    if flag (fo_flags fd) FO_FLAG_PSEUDO_DIR_DOT then
      if fo_vnode fd =? null then mret (Err ERROR_INVALID, fd) else
      v ← node (fo_vnode fd);
      let fd' := FileObject (Z.lor (Z.ldiff (fo_flags fd) FO_FLAG_PSEUDO_DIR_DOT) FO_FLAG_PSEUDO_DIR_DOTDOT) (fo_ref fd) (fo_pos fd) (fo_vnode fd) in
      let n := sizeof_directory_entry + 1 in
      mret (Ok (n, inode_id v, DirectoryEntry 0 n DT_DIR [DOT]), fd')
    else
      let item := fo_pos fd in
      if item =? null then mret (Err ERROR_INVALID, fd) else
      i ← node item;
      name ← ilift (cstr (name_buf i));
      v ← node (fo_vnode fd);
      next ← ilift (next_child item (child_list v));
      let n := (sizeof_directory_entry + strlen name) mod 2 ^ 16 in
      mret (Ok (n, inode_id i, DirectoryEntry 0 n (entry_type (v_type i)) name), FileObject (fo_flags fd) (fo_ref fd) next (fo_vnode fd))
  else
    r ← on_world (m_read_directory (fo_vnode fd) fd);
    mret (match r.1 with Err e => Err e | Ok (n, e) => Ok (n, 0, e) end, r.2).

(** The code as an integer: a directory is refused with the positive code. *)
Definition code_of (r : result unit) : Z := match r with Ok _ => 0 | Err e => - error_value e end.

Definition delete_node (p : loc) : IS unit := λ s, Some (tt, put_nodes (delete p (all_nodes s)) s).

Definition unlink_at (at_ : loc) (pathname : list Z) (flags : Z) : IS Z :=
  if at_ =? null then mret (code_of (Err ERROR_INVALID)) else
  r ← find at_ pathname true;
  match r with
  | Err e => mret (code_of (Err e))
  | Ok n =>
      v ← node n;
      if bool_decide (v_type v = VNT_MNT) then mret (code_of (Err ERROR_BUSY)) else
      if negb (open_count v =? 0) then mret (code_of (Err ERROR_BUSY)) else
      if flag flags AT_REMOVEDIR && negb (bool_decide (v_type v = VNT_DIR)) then mret (code_of (Err ERROR_NOT_DIR)) else
      if negb (flag flags AT_REMOVEDIR) && bool_decide (v_type v = VNT_DIR) then mret (error_value ERROR_IS_DIR) else
      u ← on_world (m_unlink n);
      match u with
      | Err e => mret (code_of (Err e))
      | Ok _ =>
          v ← node n;
          kassert (negb (v_parent v =? null));;
          detach (v_parent v) n;;
          delete_node n;;
          mret 0
      end
  end.

(** The first element of the path and, as the name, what follows it; the name is
    dereferenced without a test for null. *)
Definition first_element (path : list Z) : IS (list Z * list Z) :=
  buf ← new_chars;
  e ← ilift (next_path_element path buf);
  match e.1 with
  | None => st_fail
  | Some name => p ← ilift (cstr e.2); mret (p, name)
  end.

Definition make_directory_at (cx : io_context) (n : loc) (path : list Z) (mode : Z) : IS (result unit) :=
  let n := if n =? null then cwd_vnode cx else n in
  p ← first_element path;
  n ←! find n p.1 false;
  access_node cx n W_OK;;!
  on_world (m_make_directory n p.2 (cx_uid cx) (cx_gid cx) (Z.ldiff mode (mode_mask cx))).

Definition make_node (cx : io_context) (path : list Z) (mode : Z) : IS (result loc) :=
  p ← first_element path;
  n ←! find (cwd_vnode cx) p.1 false;
  access_node cx n W_OK;;!
  let t := Z.land mode S_IFMT in
  if negb ((t =? S_IFIFO) || (t =? S_IFSOCK)) then mret (Err ERROR_INVALID) else
  on_world (m_allocate_new n p.2 (cx_gid cx) (cx_uid cx) (Z.ldiff (Z.land mode VFS_MODE_MASK) (mode_mask cx))).

Definition change_mode (cx : io_context) (path : list Z) (mode : Z) : IS (result unit) :=
  let mode := Z.land mode VFS_MODE_MASK in
  n ←! find (cwd_vnode cx) path true;
  v ← node n;
  if bool_decide (v_type v = VNT_LNK) then mret (Err ERROR_INVALID) else
  if negb (cx_uid cx =? UID_ROOT) && negb (cx_uid cx =? v_uid v) then mret (Err ERROR_ACCESS) else
  on_world (m_change_mode n mode).

(** The parameter hides the member: it is the new owner that has to be root. *)
Definition change_ownership (cx : io_context) (path : list Z) (uid gid : Z) : IS (result unit) :=
  n ←! find (cwd_vnode cx) path true;
  v ← node n;
  if bool_decide (v_type v = VNT_LNK) then mret (Err ERROR_INVALID) else
  if negb (uid =? UID_ROOT) then mret (Err ERROR_ACCESS) else
  on_world (m_change_ownership n uid gid).

Definition ioctl (fd : file_object) (cmd arg : Z) : IS (result unit) :=
  if fo_vnode fd =? null then mret (Err ERROR_INVALID) else on_world (dev_of_ioctl (fo_vnode fd) cmd arg).

Definition file_truncate (n : loc) (size : Z) : IS (result unit) :=
  if n =? null then mret (Err ERROR_INVALID) else on_world (m_truncate n size).

Definition file_access_at (cx : io_context) (at_ : loc) (path : list Z) (access_mode flags : Z) : IS (result unit) :=
  n ←! find at_ path (negb (flags =? 0));
  if access_mode =? F_OK then mret (Ok tt) else access_node cx n access_mode.

(** A path that is not found leaves the node [at_] itself. *)
Definition file_status_at (cx : io_context) (at_ : loc) (path : list Z) (flags : Z) : IS (result file_status) :=
  let at_ := if at_ =? null then cwd_vnode cx else at_ in
  n ← (if flag flags AT_EMPTY_PATH then mret at_
       else r ← find at_ path (flag flags AT_SYMLINK_NOFOLLOW);
            mret (match r with Ok n => n | Err _ => at_ end));
  kassert (negb (n =? null));;
  on_world (m_stat n).

Definition write (fd : file_object) (buf : buffer) : IS (result Z * file_object) :=
  if negb (flag (fo_flags fd) FO_FLAG_WRITABLE) then mret (Err ERROR_ACCESS, fd) else
  if flag (fo_flags fd) FO_FLAG_DIRECTORY then mret (Err ERROR_IS_DIR, fd) else
  if fo_vnode fd =? null then mret (Err ERROR_INVALID, fd) else
  v ← node (fo_vnode fd);
  match v_type v with
  | VNT_FIFO | VNT_REG => on_world (m_write (fo_vnode fd) fd buf)
  | VNT_BLK | VNT_CHR => r ← on_world (dev_of_write (fo_vnode fd) (fo_pos fd) buf); mret (r, fd)
  | _ => mret (Err ERROR_INVALID, fd)
  end.

Definition read (fd : file_object) (count : Z) : IS (result Z * file_object * buffer) :=
  if negb (flag (fo_flags fd) FO_FLAG_READABLE) then mret (Err ERROR_INVALID, fd, []) else
  v ← node (fo_vnode fd);
  match v_type v with
  | VNT_FIFO | VNT_REG => on_world (m_read (fo_vnode fd) fd count)
  | VNT_BLK | VNT_CHR =>
      r ← on_world (dev_of_read (fo_vnode fd) (fo_pos fd) count);
      mret (match r with Err e => (Err e, fd, []) | Ok b => (Ok (blen b), fd, b) end)
  | _ => mret (Err ERROR_INVALID, fd, [])
  end.

Definition seek (fd : file_object) (offset : Z) (whence : vfs_seek_methods) : IS (result Z * file_object) :=
  if fo_vnode fd =? null then mret (Err ERROR_INVALID, fd) else
  v ← node (fo_vnode fd);
  if negb (bool_decide (v_type v = VNT_REG)) then mret (Err ERROR_NOT_FILE, fd) else
  r ← on_world (m_seek (fo_vnode fd) fd offset whence);
  mret (match r.1 with Err ERROR_UNSUPPORTED => Err ERROR_INVALID | x => x end, r.2).

End vfs.
