(* ===== verification/Ext2Nodes.v ===== *)
(** * ext2 behind the virtual file system: [kern/fs/ext2/ext2.cc], [ext2_vnode]

    The operations of ext2 nodes and of [ext2_fs_class] as the interface that
    [Vfs] calls.  Nodes of ext2 have no device of their own. *)

From S2P Require Import Prelude Types Links Bytes Ext2 Vnode Ext2Vnode Vfs.

Section nodes.
Context {D : Type} `{!BlockDevice D} (next_time : Z → Z).

Abbreviation VS := (ST (vfs D)).

(** ** [ext2_fs_class] *)

(** The destructor of [ext2_data] frees the descriptor table. *)
Definition ext2_fs_initialize (fs : loc) : VS (result unit) :=
  r ← ext2_data_initialize fs;
  match r with
  | Err e => on_fs (upd_data set_freed);; mret (Err e)
  | Ok _ => mret (Ok tt)
  end.

Definition ext2_fs_get_root (cls : loc) : VS (result loc) :=
  d ← on_fs get_data;
  mret (if root d =? null then Err ERROR_INVALID else Ok (root d)).

Definition ext2_fs_dispose (fs : loc) : VS (result unit) := on_fs (upd_data set_freed);; mret (Ok tt).

(** The recursion of [read_directory] moves on at least one byte at a time. *)
Definition ext2_read_directory (this : loc) (fd : file_object) : VS (result (Z * directory_entry) * file_object) :=
  v ← get_vnode this;
  n ← (if private_data v =? null then mret 0 else on_fs (EXT2_INODE_SIZE (private_data v)));
  Ext2Vnode.read_directory (S (Z.to_nat n)) this fd.

#[export, program] Instance ext2_methods : VnodeMethods (vfs D) := {
  nodes := vnodes;
  set_nodes m s := Vfs (fsys s) m;
  m_find := Ext2Vnode.find;
  m_read_directory := ext2_read_directory;
  m_open_directory _ := Ext2Vnode.open_directory;
  m_open _ := Ext2Vnode.open;
  m_close _ := Ext2Vnode.close;
  m_allocate_new := Ext2Vnode.allocate_new;
  m_create := Ext2Vnode.create next_time;
  m_make_directory := Ext2Vnode.make_directory next_time;
  m_truncate := Ext2Vnode.truncate next_time;
  m_unlink := Ext2Vnode.unlink next_time;
  m_seek := Ext2Vnode.seek;
  m_stat := Ext2Vnode.stat;
  m_change_mode := Ext2Vnode.change_mode next_time;
  m_change_ownership := Ext2Vnode.change_ownership next_time;
  m_read_link _ := st_fail;
  m_read := Ext2Vnode.read;
  m_write := Ext2Vnode.write next_time;
  dev_of_read _ _ _ := st_fail;
  dev_of_write _ _ _ := st_fail;
  dev_of_ioctl _ _ _ := st_fail;
  fs_initialize := ext2_fs_initialize;
  fs_get_root := ext2_fs_get_root;
  fs_dispose := ext2_fs_dispose;
}.
Next Obligation. done. Qed.

End nodes.
