(* ===== verification/VfsTheorems.v ===== *)
(** * Theorems about the virtual file system *)

From S2P Require Import Prelude Types Links Bytes Ext2 Ext2Inv Ext2Example Vnode Ext2Vnode Ext2Dir Ext2File Ext2FileTheorems Ext2DirTheorems.
From S2P Require Import Vfs Ext2Nodes.

(** ** Access *)

Lemma flag_bit m k : 0 <= k → flag m (2 ^ k) = Z.testbit m k.
Proof.
  intros Hk. unfold flag. destruct (Z.eqb_spec (Z.land m (2 ^ k)) 0) as [E|E]; cbn.
  - apply (f_equal (λ z, Z.testbit z k)) in E. rewrite Z.land_spec, Z.pow2_bits_true, Z.bits_0, andb_true_r in E by lia. done.
  - destruct (Z.testbit m k) eqn:Et; [done|]. exfalso. apply E. apply Z.bits_inj_iff'. intros n Hn. rewrite Z.land_spec, Z.pow2_bits_eqb, Z.bits_0 by lia.
    destruct (Z.eqb_spec k n) as [->|]; [by rewrite Et|by rewrite andb_false_r].
Qed.

Lemma denied_bits desm mode k : 0 <= desm < 8 → 0 <= k → (Z.ldiff desm (Z.land (Z.shiftr mode k) 7) =? 0) =
  negb (Z.testbit desm 2 && negb (Z.testbit mode (k + 2)) || Z.testbit desm 1 && negb (Z.testbit mode (k + 1)) || Z.testbit desm 0 && negb (Z.testbit mode k)).
Proof.
  intros Hd Hk. assert (∀ i, 0 <= i < 3 → Z.testbit (Z.land (Z.shiftr mode k) 7) i = Z.testbit mode (k + i)) as Hb.
  { intros i Hi. rewrite Z.land_spec, Z.shiftr_spec by lia. assert (i = 0 ∨ i = 1 ∨ i = 2) as [->|[->| ->]] by lia; rewrite andb_true_r; f_equal; lia. }
  destruct (Z.eqb_spec (Z.ldiff desm (Z.land (Z.shiftr mode k) 7)) 0) as [E|E].
  - assert (∀ i, 0 <= i < 3 → Z.testbit desm i && negb (Z.testbit mode (k + i)) = false) as Hn.
    { intros i Hi. apply (f_equal (λ z, Z.testbit z i)) in E. rewrite Z.ldiff_spec, Z.bits_0, Hb in E by lia. done. }
    rewrite (Hn 2), (Hn 1) by lia. specialize (Hn 0). rewrite Z.add_0_r in Hn. by rewrite Hn by lia.
  - symmetry. apply negb_false_iff. destruct (_ || _) eqn:Eo; [done|]. exfalso. apply E. rewrite !orb_false_iff in Eo. destruct Eo as ((E2 & E1) & E0).
    apply Z.bits_inj_iff'. intros i Hi. rewrite Z.ldiff_spec, Z.bits_0. destruct (decide (i < 3)) as [Hl|Hl].
    + rewrite Hb by lia. assert (i = 0 ∨ i = 1 ∨ i = 2) as [->|[->| ->]] by lia; rewrite ?Z.add_0_r; done.
    + replace (Z.testbit desm i) with false; [done|]. symmetry. apply Z.testbit_false; [lia|]. rewrite Z.div_small; [done|].
      split; [lia|]. apply (Z.lt_le_trans _ (2 ^ 3)); [lia|]. apply Z.pow_le_mono_r; lia.
Qed.

(** The three permission bits that count for a user. *)
Definition class_bits (cx : io_context) (mode uid gid : Z) : Z :=
  Z.land (Z.shiftr mode (if uid =? cx_uid cx then 6 else if gid =? cx_gid cx then 3 else 0)) 7.

(** C36: [access_check] is the usual check: root may do everything, but execute
    only what somebody may execute; for everybody else all the bits asked for
    have to be set in the one class, owner, group or others, that the user is
    in. *)
Theorem access_check_spec cx desm mode uid gid : 0 <= desm < 8 →
  access_check cx desm mode uid gid =
  if cx_uid cx =? 0 then (if Z.testbit desm 0 && (Z.land mode 0x49 =? 0) then Err ERROR_ACCESS else Ok tt)
  else if Z.ldiff desm (class_bits cx mode uid gid) =? 0 then Ok tt else Err ERROR_ACCESS.
Proof.
  intros Hd. unfold access_check. destruct (cx_uid cx =? 0).
  { change X_OK with (2 ^ 0). rewrite flag_bit by lia. unfold flag. change (Z.lor S_IXOTH (Z.lor S_IXGRP S_IXUSR)) with 0x49. by rewrite negb_involutive. }
  unfold class_bits. change R_OK with (2 ^ 2). change W_OK with (2 ^ 1). change X_OK with (2 ^ 0).
  change S_IRUSR with (2 ^ 8). change S_IWUSR with (2 ^ 7). change S_IXUSR with (2 ^ 6). change S_IRGRP with (2 ^ 5). change S_IWGRP with (2 ^ 4).
  change S_IXGRP with (2 ^ 3). change S_IROTH with (2 ^ 2). change S_IWOTH with (2 ^ 1). change S_IXOTH with (2 ^ 0). rewrite !flag_bit by lia.
  destruct (uid =? cx_uid cx); [|destruct (gid =? cx_gid cx)]; rewrite denied_bits by lia; cbn [Z.add Pos.add Pos.succ]; by destruct (_ || _).
Qed.

Section vfs_theorems.
Context {W : Type} `{!VnodeMethods W}.
Implicit Types s : io W.

Lemma ibind_run {A B} (c : ST (io W) (result A)) (k : A → ST (io W) (result B)) s x s' : c s = Some (Ok x, s') → ibind c k s = k x s'.
Proof. intros H. unfold ibind. by rewrite (bind_run _ _ _ _ _ H). Qed.

Lemma ibind_err {A B} (c : ST (io W) (result A)) (k : A → ST (io W) (result B)) s e s' : c s = Some (Err e, s') → ibind c k s = Some (Err e, s').
Proof. intros H. unfold ibind. by rewrite (bind_run _ _ _ _ _ H). Qed.

Lemma ibind_inv {A B} (c : ST (io W) (result A)) (k : A → ST (io W) (result B)) s y s' :
  ibind c k s = Some (Ok y, s') → ∃ x s1, c s = Some (Ok x, s1) ∧ k x s1 = Some (Ok y, s').
Proof.
  unfold ibind. intros H. apply bind_inv in H as ([e|x] & s1 & H1 & H2); [done|]. eauto.
Qed.

Lemma node_run s p v : nodes (world s) !! p = Some v → node p s = Some (v, s).
Proof. intros H. unfold node, slift. cbn. by rewrite H. Qed.

(** Every user is the owner of every file: [access_node] hands the user's own
    ids to [access_check] in place of the node's, so the owner's bits decide,
    whoever the node belongs to, and those of the group and of others never do. *)
Theorem every_user_is_owner cx s vn v desm : nodes (world s) !! vn = Some v → cx_uid cx ≠ 0 → 0 <= desm < 8 →
  access_node cx vn desm s = Some (if Z.ldiff desm (Z.land (Z.shiftr (v_mode v) 6) 7) =? 0 then Ok tt else Err ERROR_ACCESS, s).
Proof.
  intros Hv Hu Hd. unfold access_node. rewrite (bind_run _ _ s v s) by (by apply node_run).
  unfold access_check. rewrite (proj2 (Z.eqb_neq _ _) Hu), Z.eqb_refl. rewrite denied_bits by lia.
  change R_OK with (2 ^ 2). change W_OK with (2 ^ 1). change X_OK with (2 ^ 0).
  change S_IRUSR with (2 ^ 8). change S_IWUSR with (2 ^ 7). change S_IXUSR with (2 ^ 6). rewrite !flag_bit by lia.
  cbn [Z.add Pos.add Pos.succ]. by destruct (_ || _).
Qed.

(** No file system is ever unmounted: [umount] asks for a node of type directory
    that has a link target, and [get_link_target] gives one for mount points
    only. *)
Theorem umount_fails cx dir_name s s' : umount cx dir_name s ≠ Some (Ok tt, s').
Proof.
  intros H. unfold umount in H. apply ibind_inv in H as (n & s1 & _ & H).
  apply bind_inv in H as (v & s2 & _ & H). destruct (v_parent v =? null); [done|].
  destruct (bool_decide (v_type v = VNT_DIR)) eqn:E; cbn [negb] in H; [|done]. apply bool_decide_eq_true in E.
  unfold get_link_target in H. rewrite E in H. done.
Qed.

(** ** Paths *)

Lemma strrchr2_spec l : ∀ n, strrchr2 l SLASH = Some n → (n < length l)%nat.
Proof.
  induction l as [|c l IH]; intros n; cbn; [done|]. destruct (strrchr2 l SLASH) as [m|] eqn:E.
  - intros [= <-]. specialize (IH m eq_refl). lia.
  - destruct (c =? SLASH); [|done]. intros [= <-]. lia.
Qed.

(** Files are created in the root directory only: a path with a directory
    and a name is refused as invalid, because the test for a directory name that
    is too long is the wrong way round. *)
Theorem create_in_directory_fails cx at_ path mode n s : strrchr2 path SLASH = Some (S n) → chars s ≠ [] →
  ∃ s', create_at cx at_ path mode s = Some (Err ERROR_INVALID, s').
Proof.
  intros Hs Hc. unfold create_at. destruct (chars s) as [|b l] eqn:E; [done|].
  exists (Io (world s) (vfs_root s) l (fs_classes s) (mounts s) (instances s) (dev_flags s) (free s)).
  rewrite (bind_run _ _ s b (Io (world s) (vfs_root s) l (fs_classes s) (mounts s) (instances s) (dev_flags s) (free s)))
    by (unfold new_chars; by rewrite E).
  unfold separate_parent_name. rewrite Hs. pose proof (strrchr2_spec path _ Hs) as Hn. destruct (_ || _) eqn:Eo; [done|].
  apply orb_false_iff in Eo as (Eo & _). apply Z.leb_gt in Eo. unfold strlen in Eo. rewrite (proj2 (Z.ltb_lt _ _)) by lia. done.
Qed.

Lemma strchr_none l : Forall (λ c, c ≠ SLASH) l → strchr l SLASH = None.
Proof. induction 1 as [|c l Hc _ IH]; cbn; [done|]. by rewrite (proj2 (Z.eqb_neq _ _) Hc), IH. Qed.

Lemma strchr_some l rest : Forall (λ c, c ≠ SLASH) l → strchr (l ++ SLASH :: rest) SLASH = Some (length l).
Proof. induction 1 as [|c l Hc _ IH]; cbn; [done|]. by rewrite (proj2 (Z.eqb_neq _ _) Hc), IH. Qed.

(** A path element: some characters, neither [.] nor [..]. *)
Record is_element (c : list Z) : Prop := {
  el_chars : Forall (λ x, 0 < x < 256 ∧ x ≠ SLASH) c;
  el_some : c ≠ [];
  el_len : strlen c < VNODE_NAME_MAX;
  el_dot : c ≠ [DOT];
  el_dotdot : c ≠ [DOT; DOT];
}.

Lemma el_no_slash c : is_element c → Forall (λ x, x ≠ SLASH) c.
Proof. intros H. eapply Forall_impl; [apply (el_chars _ H)|]. cbn. tauto. Qed.

(** The buffer [b] starts with the characters of [c] and a zero. *)
Definition holds (c : list Z) (b : buffer) : Prop := ∃ l, b = c ++ 0 :: l.

Lemma holds_cstr c b : Forall (λ x, 0 < x < 256 ∧ x ≠ SLASH) c → holds c b → string_in b = c.
Proof.
  intros Hc (l & ->). unfold string_in. assert (cstr (c ++ 0 :: l) = Some c) as ->; [|done].
  induction Hc as [|x c Hx _ IH]; cbn; [done|]. rewrite (proj2 (Z.eqb_neq x 0)) by lia. cbn in IH. by rewrite IH.
Qed.

(** Comparing the characters from [o] on with a literal. *)
Lemma strncmp_holds lit : Forall (λ x, 0 < x < 256) lit → ∀ c pre l, Forall (λ x, 0 < x < 256 ∧ x ≠ SLASH) c →
  strncmp_at (S (length lit)) (blen pre) (pre ++ c ++ 0 :: l) lit = Some (bool_decide (c = lit)).
Proof.
  induction 1 as [|d lit Hd _ IH]; intros c pre l Hc.
  - destruct Hc as [|x c Hx Hc]; cbn [app]; unfold strncmp_at; rewrite load_head; cbn [mbind option_bind].
    + done.
    + change (default 0 (head [])) with 0. rewrite (proj2 (Z.eqb_neq x 0)) by lia. done.
  - rewrite strncmp_step. change (length (d :: lit)) with (S (length lit)). change (default 0 (head (d :: lit))) with d. destruct Hc as [|x c Hx Hc]; cbn [app].
    + rewrite load_head. cbn [mbind option_bind]. rewrite (proj2 (Z.eqb_neq 0 d)) by lia. done.
    + rewrite load_head. cbn [mbind option_bind tail]. destruct (Z.eqb_spec x d) as [->|Hne]; cbn [negb].
      * rewrite (proj2 (Z.eqb_neq d 0)) by lia. specialize (IH c (pre ++ [d]) l Hc). rewrite <- app_assoc in IH. cbn [app] in IH.
        replace (blen (pre ++ [d])) with (blen pre + 1) in IH by (rewrite blen_app; done). cbn [length] in IH. rewrite IH.
        f_equal. apply bool_decide_ext. split; [by intros ->|by intros [= ->]].
      * f_equal. symmetry. apply bool_decide_false. congruence.
Qed.

Lemma strcmp_holds c b lit : Forall (λ x, 0 < x < 256) lit → Forall (λ x, 0 < x < 256 ∧ x ≠ SLASH) c → holds c b →
  strcmp_at b lit = Some (bool_decide (c = lit)).
Proof. intros Hl Hc (l & ->). exact (strncmp_holds lit Hl c [] l Hc). Qed.

(** The elements the buffer may hold after [next_path_element]. *)
Lemma next_last c b : is_element c → blen b = VFS_MAX_PATH_LEN → ∃ b', next_path_element c b = Some (None, b') ∧ holds c b'.
Proof.
  intros Hc Hb. pose proof (el_len _ Hc) as Hl. unfold next_path_element. rewrite strchr_none by (by apply el_no_slash).
  assert (blen (strncpy c VFS_MAX_PATH_LEN) = VFS_MAX_PATH_LEN) as Hs.
  { unfold strncpy, blen, strlen, VNODE_NAME_MAX, VFS_MAX_PATH_LEN in *. rewrite length_app, length_take, length_replicate. lia. }
  rewrite copy_in_some by (apply within_spec; unfold VFS_MAX_PATH_LEN in *; lia). cbn [mbind option_bind]. rewrite patch_all by congruence.
  eexists. split; [done|]. unfold strncpy, strlen, VNODE_NAME_MAX, VFS_MAX_PATH_LEN in *. rewrite take_ge by lia.
  destruct (Z.to_nat 256 - length c)%nat as [|n] eqn:E; [lia|]. exists (replicate n 0). done.
Qed.

Lemma next_more c rest b : is_element c → skip_slashes (SLASH :: rest) ≠ [] → (∃ x l, b = x ++ 0 :: l ∧ length x = length c) →
  ∃ b', next_path_element (c ++ SLASH :: rest) b = Some (Some (skip_slashes (SLASH :: rest)), b') ∧ holds c b'.
Proof.
  intros Hc Hr (x & l & -> & Hx). unfold next_path_element. rewrite strchr_some by (by apply el_no_slash). rewrite take_app_length, drop_app_length.
  rewrite copy_in_some by (apply within_spec; rewrite blen_app; unfold blen; cbn; lia). cbn [mbind option_bind]. rewrite decide_False by done.
  eexists. split; [done|]. exists l. unfold patch. cbn [Z.to_nat take app]. rewrite Nat.add_0_l, <- Hx. by rewrite drop_app_length.
Qed.

(** ** Finding a node *)

Definition with_chars (l : list buffer) s : io W := Io (world s) (vfs_root s) l (fs_classes s) (mounts s) (instances s) (dev_flags s) (free s).

(** The root is the directory [v] and the next buffer is [b]. *)
Record rooted s (v : vnode) (b : buffer) (l : list buffer) : Prop := {
  r_root : vfs_root s ≠ null;
  r_node : nodes (world s) !! vfs_root s = Some v;
  r_dir : v_type v = VNT_DIR;
  r_chars : chars s = b :: l;
}.

Definition plain (v : vnode) : Prop := v_type v = VNT_REG ∨ v_type v = VNT_DIR.

(** The search in the root directory, up to the lookup of the first element. *)
Lemma do_find_element s v b l c path rest b' li n : rooted s v b l → is_element c → head path = head c →
  next_path_element path b = Some (rest, b') → holds c b' →
  do_find (S (S n)) (vfs_root s) (Some path) li s = find_elements (S n) (vfs_root s) rest b' li (with_chars l s).
Proof.
  intros [R1 R2 R3 R4] Hc Hh Hn Hb. destruct path as [|x path].
  { destruct c; [by destruct (el_some _ Hc)|done]. }
  assert (x ≠ SLASH) as Hx. { pose proof (el_no_slash _ Hc) as Hf. destruct c as [|y c]; [done|]. injection Hh as ->. by apply Forall_cons in Hf as (? & _). }
  cbn [do_find]. rewrite (proj2 (Z.eqb_neq _ _) R1), (proj2 (Z.eqb_neq _ _) Hx).
  rewrite (bind_run _ _ s v s) by (by apply node_run). rewrite R3. cbn [bool_decide].
  rewrite (ibind_run _ _ s (vfs_root s) s) by done. rewrite (bind_run _ _ s v s) by (by apply node_run). rewrite R3.
  rewrite (bind_run _ _ s v s) by (by apply node_run). rewrite R3.
  change (negb (bool_decide (VNT_DIR = VNT_DIR))) with false. cbv iota.
  rewrite (bind_run _ _ s b (with_chars l s)) by (unfold new_chars; by rewrite R4).
  rewrite (bind_run _ _ (with_chars l s) (rest, b') (with_chars l s)) by (unfold ilift; by rewrite Hn). done.
Qed.

(** A first element that is found, and is no link, is the result. *)
Lemma find_elements_found s at_ rest b c li n p w s1 : is_element c → holds c b →
  lookup_or_load_node at_ c s = Some (Ok p, s1) → nodes (world s1) !! p = Some w → plain w → p ≠ null →
  find_elements (S (S n)) at_ rest b li s = Some (Ok p, s1).
Proof.
  intros Hc Hb Hl Hw Hp Hp0. pose proof (el_chars _ Hc) as Hcs. cbn [find_elements].
  assert (Forall (λ x, 0 < x < 256) [DOT]) as Hd by (repeat constructor; unfold DOT; lia).
  assert (Forall (λ x, 0 < x < 256) [DOT; DOT]) as Hdd by (repeat constructor; unfold DOT; lia).
  rewrite (bind_run _ _ s false s).
  2:{ unfold ilift. rewrite (strcmp_holds c b [DOT]) by done. by rewrite bool_decide_false by apply Hc. }
  rewrite (bind_run _ _ s false s).
  2:{ unfold ilift. rewrite (strcmp_holds c b [DOT; DOT]) by done. by rewrite bool_decide_false by apply Hc. }
  rewrite (holds_cstr c b Hcs Hb). rewrite (ibind_run _ _ _ _ _ Hl).
  assert (v_type w ≠ VNT_LNK) as Hnl by (destruct Hp as [->| ->]; done).
  destruct rest as [r|].
  - destruct li; [done|]. rewrite (bind_run _ _ s1 w s1) by (by apply node_run). rewrite bool_decide_false by done.
    rewrite (ibind_run _ _ s1 p s1) by done. rewrite (bind_run _ _ s1 w s1) by (by apply node_run). by rewrite bool_decide_false by done.
  - cbn [do_find]. by rewrite (proj2 (Z.eqb_neq _ _) Hp0).
Qed.

Lemma skip_element c t : is_element c → match c ++ t with x :: _ => if x =? SLASH then skip_slashes (c ++ t) else c ++ t | [] => [] end = c ++ t.
Proof.
  intros Hc. pose proof (el_no_slash _ Hc) as Hf. destruct c as [|x c]; [by destruct (el_some _ Hc)|]. cbn.
  apply Forall_cons in Hf as (Hx & _). by rewrite (proj2 (Z.eqb_neq _ _) Hx).
Qed.

(** [find], for a path of one element or of more. *)
Lemma find_found s v b l c path rest b' li rel p w s1 : rooted s v b l → is_element c → (∃ t, path = c ++ t) →
  next_path_element path b = Some (rest, b') → holds c b' → lookup_or_load_node (vfs_root s) c (with_chars l s) = Some (Ok p, s1) →
  nodes (world s1) !! p = Some w → plain w → p ≠ null → Vfs.find rel path li s = Some (Ok p, s1).
Proof.
  intros Hr Hc (t & ->) Hn Hb Hl Hw Hp Hp0. unfold Vfs.find, path_fuel. set (n := (2 * length (c ++ t) + Z.to_nat VFS_LINK_MAX + 4)%nat).
  replace (2 * length (c ++ t) + Z.to_nat VFS_LINK_MAX + 8)%nat with (S (S (S (S n)))) by (subst n; lia).
  change (find_from (S (S (S (S n)))) (c ++ t) li s) with ((root ← get_root; if root =? null then mret (Err ERROR_INVALID) else
    ibind (do_find (S (S (S n))) root (Some (match c ++ t with x :: _ => if x =? SLASH then skip_slashes (c ++ t) else c ++ t | [] => [] end)) li)
      (λ r, v ← node r; mret (Ok (if bool_decide (v_type v = VNT_MNT) then get_link_target v else r)))) s).
  rewrite (skip_element c t Hc). rewrite (bind_run _ _ s (vfs_root s) s) by done. rewrite (proj2 (Z.eqb_neq _ _) (r_root _ _ _ _ Hr)).
  rewrite (ibind_run _ _ s p s1).
  - rewrite (bind_run _ _ s1 w s1) by (by apply node_run). rewrite bool_decide_false; [done|]. destruct Hp as [->| ->]; done.
  - assert (head (c ++ t) = head c) as Hh by (destruct c; [by destruct (el_some _ Hc)|done]).
    rewrite (do_find_element s v b l c (c ++ t) rest b' li (S n)) by done. by apply (find_elements_found _ _ _ _ c _ _ _ w).
Qed.

(** A path of several elements leads to the node of its first element, and
    the rest of it is not looked at: [do_find] goes on when the path is at its
    end and stops when it is not. *)
Theorem find_stops_at_first s v b l c rest li rel p w s1 : rooted s v b l → is_element c →
  blen b = VFS_MAX_PATH_LEN → b !! length c = Some 0 → skip_slashes rest ≠ [] →
  lookup_or_load_node (vfs_root s) c (with_chars l s) = Some (Ok p, s1) → nodes (world s1) !! p = Some w → plain w → p ≠ null →
  Vfs.find rel c li s = Some (Ok p, s1) ∧ Vfs.find rel (c ++ SLASH :: rest) li s = Some (Ok p, s1).
Proof.
  intros Hr Hc Hb Hz Hs Hl Hw Hp Hp0. split.
  - destruct (next_last c b Hc Hb) as (b' & Hn & Hh). apply (find_found s v b l c c None b' li rel p w); try done. exists []. by rewrite app_nil_r.
  - destruct (next_more c rest b Hc) as (b' & Hn & Hh); [done| |].
    { exists (take (length c) b), (drop (S (length c)) b). rewrite <- drop_S by done. rewrite take_drop. split; [done|].
      apply length_take_le. apply lookup_lt_Some in Hz. lia. }
    apply (find_found s v b l c (c ++ SLASH :: rest) (Some (skip_slashes (SLASH :: rest))) b' li rel p w); try done. by exists (SLASH :: rest).
Qed.

End vfs_theorems.

(** ** Witnesses *)

Lemma access_check_spec_witness :
  access_check (IoContext null 7 8 0) W_OK 0x1B4 9 8 = Ok tt ∧ access_check (IoContext null 7 9 0) W_OK 0x1B4 9 8 = Err ERROR_ACCESS.
Proof. split; [rewrite (access_check_spec (IoContext null 7 8 0))|rewrite (access_check_spec (IoContext null 7 9 0))]; done. Defined.
