(* ===== verification/VfsFile.v ===== *)
(** * Files opened by name, on ext2

    The virtual file system and ext2 together: a name in the root directory is
    looked up on the disk, its inode is read, a node is made for it, and the
    node is written and read through a file object. *)

From S2P Require Import Prelude Types Links Bytes Ext2 Ext2Inv Ext2Example Vnode Ext2Vnode Ext2Dir Ext2File Ext2FileTheorems Ext2DirTheorems.
From S2P Require Import Vfs Ext2Nodes VfsTheorems.

Section vfs_file.
Context {D : Type} `{!BlockDevice D} (next_time : Z → Z).
Implicit Types (s : vfs D) (e : ext2 D).

#[local] Instance methods : VnodeMethods (vfs D) := ext2_methods next_time.

Definition mode_of (ib : buffer) : Z := le_val (slice (f_off i_mode) (Z.of_nat (f_size i_mode)) ib).
Definition uid_of (ib : buffer) : Z := le_val (slice (f_off i_uid) (Z.of_nat (f_size i_uid)) ib).
Definition gid_of (ib : buffer) : Z := le_val (slice (f_off i_gid) (Z.of_nat (f_size i_gid)) ib).

(** The root directory [r] has an entry [name] for the regular file [ino], whose
    inode on the disk is [ib] and has [n] blocks; nothing was opened yet, and
    there is memory for an inode at [q] and a node at [k]. *)
Record entry_file s (r : loc) (vr : vnode) (name : list Z) (ino : Z) (ib : buffer) (n : Z) (q k : loc) (m : buffer) : Prop := {
  ef_root : vnodes s !! r = Some vr ∧ flag (v_flags vr) VNF_MEMORY = false ∧ child_list vr = [];
  ef_ptr : private_data vr ≠ null ∧ v_fs vr ≠ null;
  ef_dir : ∃ db es ess, directory (fsys s) (private_data vr) db (es :: ess) ∧ lookup_name name es = Some ino;
  ef_name : is_element name;
  ef_tables : tables_ok (fsys s);
  ef_inum : inum_ok (fsys s) ino;
  ef_heap : ∃ m' hs, heap (fsys s) = (q, m) :: (k, m') :: hs;
  ef_new : q ≠ null ∧ k ≠ null ∧ k ≠ r ∧ isz (fsys s) <= blen m;
  ef_inode : ib = stored_inode (fsys s) ino;
  ef_reg : inode_type (mode_of ib) = EXT2_IFREG;
  ef_file : file_ok (fsys s) ib n;
  ef_blocks : roundup (isize ib) (block_size (data (fsys s))) / block_size (data (fsys s)) = n;
  ef_apart : (∀ j, 0 <= j < n → iblock (fsys s) ino ≠ fblk (fsys s) ib j) ∧ (EXT2_DIRECT_BLOCK_COUNT < n → iblock (fsys s) ino ≠ l1_of ib);
}.

Lemma element_name c : is_element c → is_name c.
Proof.
  intros H. split; [|pose proof (el_len _ H); unfold VNODE_NAME_MAX in *; lia]. eapply Forall_impl; [apply (el_chars _ H)|]. cbn. tauto.
Qed.

(** The node made for the entry. *)
Definition loaded (fs ino q : loc) (name : list Z) (ib : buffer) : vnode :=
  set_inode VNT_REG ino q (inode_perm (mode_of ib)) (uid_of ib) (gid_of ib) (new_vnode fs VNT_DIR name).

Lemma create_inode_ok e q m hs : good e → heap e = (q, m) :: hs → isz e <= blen m → 0 <= isz e →
  create_new_inode e = Some (Ok q, Ext2 (dev e) (data e) (<[q := slice 0 (isz e) m]> (inodes e)) hs (news e) (clock e)).
Proof.
  intros Hg Hh Hl H0. unfold create_new_inode. set (e1 := Ext2 (dev e) (data e) (inodes e) hs (news e) (clock e)).
  rewrite (bind_run _ _ e (Some (q, m)) e1) by (unfold alloc_object; by rewrite Hh).
  assert (good e1) as Hg1 by (destruct Hg; by split). rewrite (bind_run _ _ _ _ _ (get_inode_size_ok e1 Hg1)).
  rewrite (bind_run _ _ e1 (slice 0 (isz e) m) e1); [done|]. unfold lift. change (isz e1) with (isz e).
  rewrite copy_out_some; [done|]. apply within_spec. lia.
Qed.

Lemma load_entry_ok e vs fs ino name q m k m' hs : good e → tables_ok e → inum_ok e ino → news e = [] → heap e = (q, m) :: (k, m') :: hs →
  isz e <= blen m → inode_type (mode_of (stored_inode e ino)) = EXT2_IFREG →
  ∃ d, load_entry fs ino name (Vfs e vs) =
      Some (Ok k, Vfs (Ext2 d (data e) (<[q := stored_inode e ino]> (inodes e)) hs (news e) (clock e)) (<[k := loaded fs ino q name (stored_inode e ino)]> vs)) ∧
    working d ∧ disk d = disk (dev e).
Proof.
  intros Hg Ht Hi Hn Hh Hm Hr. pose proof (t_isz _ Ht) as Hz. unfold INODE_BYTES in Hz. set (ib := stored_inode e ino) in *.
  pose proof (create_inode_ok e q m ((k, m') :: hs) Hg Hh Hm ltac:(lia)) as Hc.
  set (e1 := Ext2 (dev e) (data e) (<[q := slice 0 (isz e) m]> (inodes e)) ((k, m') :: hs) (news e) (clock e)) in *.
  assert (good e1) as Hg1 by (destruct Hg; by split). assert (tables_ok e1) as Ht1 by (by apply (tables_same e)).
  destruct (inode_read_ok e1 ino q (slice 0 (isz e) m) Hg1 Ht1 Hi Hn) as (d & Hrd & Hd & Hk).
  { apply lookup_insert_eq. } { change (isz e1) with (isz e). apply slice_length; lia. }
  exists d. split; [|done]. unfold load_entry. rewrite (rbind_run _ _ _ _ _ (on_fs_run _ (Vfs e vs) _ _ Hc)). cbn [vnodes].
  rewrite (bind_run _ _ _ _ _ (on_fs_run _ (Vfs e1 vs) _ _ Hrd)). cbn [vnodes]. change (stored_inode e1 ino) with ib. cbn [e1 inodes heap]. rewrite insert_insert_eq.
  set (e2 := Ext2 d (data e1) (<[q := ib]> (inodes e)) hs (news e1) (clock e1)).
  rewrite (bind_run _ _ _ (Some k) (Vfs e2 (<[k := new_vnode fs VNT_DIR name]> vs))) by done.
  set (s2 := Vfs e2 (<[k := new_vnode fs VNT_DIR name]> vs)).
  assert (INODE_BYTES <= blen ib) as Hib.
  { unfold ib, stored_inode. destruct (ioff_range e ino Hg Ht). destruct (t_group _ Ht ino Hi) as (_ & Hin). pose proof (blk_length e _ Hg Hin).
    rewrite slice_length; unfold INODE_BYTES in *; lia. }
  assert (∀ f, 0 <= f_off f → f_off f + Z.of_nat (f_size f) <= blen ib → on_fs (get_field q f) s2 = Some (le_val (slice (f_off f) (Z.of_nat (f_size f)) ib), s2)) as Hf.
  { intros f Hf0 Hf1. apply on_fs_run. apply get_field_ok; [apply lookup_insert_eq|done..]. }
  unfold INODE_BYTES in Hib. rewrite (rbind_run _ _ s2 tt (Vfs e2 (<[k := loaded fs ino q name ib]> vs))); [done|]. unfold initialize_from_inode.
  rewrite (bind_run _ _ s2 (new_vnode fs VNT_DIR name) s2) by (unfold get_vnode, vlift; cbn; by rewrite lookup_insert_eq).
  rewrite (bind_run _ _ _ _ _ (Hf i_mode ltac:(done) ltac:(cbn; lia))), (bind_run _ _ _ _ _ (Hf i_uid ltac:(done) ltac:(cbn; lia))),
    (bind_run _ _ _ _ _ (Hf i_gid ltac:(done) ltac:(cbn; lia))).
  change (le_val (slice (f_off i_mode) (Z.of_nat (f_size i_mode)) ib)) with (mode_of ib). rewrite Hr.
  change (EXT2_IFREG =? EXT2_IFDIR) with false. change (EXT2_IFREG =? EXT2_IFREG) with true. cbv iota zeta.
  rewrite (bind_run _ _ s2 tt (Vfs e2 (<[k := loaded fs ino q name ib]> vs))); [done|].
  unfold put_vnode, s2. cbn [vnodes fsys]. by rewrite insert_insert_eq.
Qed.

Abbreviation Fs := (io (vfs D)).
Definition with_world (w : vfs D) (S : Fs) : Fs := Io w (vfs_root S) (chars S) (fs_classes S) (mounts S) (instances S) (dev_flags S) (free S).

Lemma on_world_run {A} (c : ST (vfs D) A) (S : Fs) x w : c (world S) = Some (x, w) → on_world c S = Some (x, with_world w S).
Proof. unfold on_world. by intros ->. Qed.

Lemma element_short c : is_element c → (VNODE_NAME_MAX <=? Z.min (strlen c) VNODE_NAME_MAX) = false.
Proof. intros H. pose proof (el_len _ H). apply Z.leb_gt. unfold VNODE_NAME_MAX in *. lia. Qed.

(** A changed inode, or another heap, does not touch the files on the disk. *)
Lemma same_disk_file e e' b n : data e' = data e → disk (dev e') = disk (dev e) → file_ok e b n → file_ok e' b n ∧ contents e' b n = contents e b n.
Proof.
  intros Hd Hi [F1 F2 F3 F4 F5 F6 F7]. assert (∀ k, fblk e' b k = fblk e b k) as Ef by (intros k; unfold fblk, blk; by rewrite Hd, Hi).
  split.
  - split; rewrite ?Hd; try done.
    + intros k Hk. rewrite Ef. unfold in_disk. rewrite Hd, Hi. by apply F5.
    + intros i j Hi' Hj. rewrite !Ef. by apply F6.
    + intros Hn. destruct (F7 Hn) as (L1 & L2 & L3). split; [done|]. split; [unfold in_disk; by rewrite Hd, Hi|]. intros k Hk. rewrite Ef. by apply L3.
  - unfold contents. apply cat_ext. intros k _. rewrite Ef. unfold blk. by rewrite Hd, Hi.
Qed.

Definition with_heap (h : list (loc * buffer)) e : ext2 D := Ext2 (dev e) (data e) (inodes e) h (news e) (clock e).

Lemma heap_directory h e p b ess : directory e p b ess → directory (with_heap h e) p b ess.
Proof.
  intros [[] H2 H3 H4 H5 H6 H7]. destruct (same_disk_file e (with_heap h e) b _ eq_refl eq_refl H4) as (Hf & _). by split.
Qed.

(** The first lookup of a name makes its node, the second one finds it. *)
Lemma load_file (S : Fs) r vr name ino ib n q k m : entry_file (world S) r vr name ino ib n q k m →
  ∃ w, lookup_or_load_node r name S = Some (Ok k, with_world w S) ∧ open_file w k (loaded (v_fs vr) ino q name ib) q ib n ∧
    vnodes w !! r = Some (set_child_list [k] vr) ∧ data (fsys w) = data (fsys (world S)) ∧ contents (fsys w) ib n = contents (fsys (world S)) ib n.
Proof.
  intros [(E1 & E2 & E3) (E4 & E5) (db & es & ess & E6 & E7) E8 E9 E10 (m' & hs & E11) (E12 & E13 & E14 & E15) E16 E17 E18 E19 (E20 & E21)].
  set (e := fsys (world S)) in *. destruct (dir_find_ok e (vnodes (world S)) r vr db es ess name E1 E4 E5 E6 (element_name _ E8)) as (e1 & Hp & Hf).
  rewrite E7 in Hf. destruct Hp as (d1 & -> & Hw1 & Hi1). set (e1 := with_dev d1 e) in *.
  pose proof (dr_good _ _ _ _ E6) as Hg. assert (good e1) as Hg1 by (apply good_with_dev; [done..|by rewrite Hi1]).
  assert (stored_inode e1 ino = ib) as Hs by (rewrite E16; unfold stored_inode, blk; cbn; by rewrite Hi1).
  assert (tables_ok e1) as Ht1 by (apply (tables_same e); [done| |done]; intros x; unfold in_disk; cbn; by rewrite Hi1).
  destruct (load_entry_ok e1 (vnodes (world S)) (v_fs vr) ino name q m k m' hs Hg1 Ht1 E10 (dr_news _ _ _ _ E6) E11 E15) as (d2 & Hl & Hw2 & Hi2).
  { by rewrite Hs. }
  rewrite Hs in Hl. set (vk := loaded (v_fs vr) ino q name ib) in *. set (e2 := Ext2 d2 _ _ _ _ _) in Hl.
  assert (disk (dev e2) = disk (dev e)) as Hd2 by (cbn; rewrite Hi2; exact Hi1).
  set (w := Vfs e2 (<[r := set_child_list [k] vr]> (<[k := vk]> (vnodes (world S))))).
  destruct (same_disk_file e e2 ib n eq_refl Hd2 E18) as (Hf2 & Hc2). exists w. split.
  - unfold lookup_or_load_node, lookup_child. rewrite (element_short _ E8).
    assert (node r S = Some (vr, S)) as Hn by (unfold node, slift; cbn; by rewrite E1).
    rewrite (bind_run _ _ S (Err ERROR_NO_ENTRY) S) by (rewrite (bind_run _ _ _ _ _ Hn), E3; done).
    change (negb (bool_decide (ERROR_NO_ENTRY = ERROR_NO_ENTRY))) with false. cbv iota. rewrite (bind_run _ _ _ _ _ Hn), E2.
    change (Vfs e (vnodes (world S))) with (Vfs (fsys (world S)) (vnodes (world S))) in Hf.
    rewrite (ibind_run _ _ S k (with_world (Vfs e2 (<[k := vk]> (vnodes (world S)))) S)).
    2:{ apply on_world_run. cbn [m_find methods ext2_methods]. rewrite <- Hl, <- Hf. subst e. by destruct (world S). }
    set (S2 := with_world _ S). assert (node r S2 = Some (vr, S2)) as Hn2 by (unfold node, slift; cbn; by rewrite lookup_insert_ne, E1 by done).
    rewrite (bind_run _ _ S2 (Ok tt) (with_world w S)); [done|]. unfold attach. rewrite (bind_run _ _ _ _ _ Hn2), E3. done.
  - split; [|split; [cbn; apply lookup_insert_eq|done]]. split; cbn [fsys vnodes w]; try done.
    + rewrite lookup_insert_ne by done. apply lookup_insert_eq.
    + destruct Hg1; split; cbn in *; rewrite ?Hi2; done.
    + apply (tables_same e); [done| |done]. intros x. unfold in_disk. by rewrite Hd2.
    + exact (dr_news _ _ _ _ E6).
    + apply lookup_insert_eq.
    + rewrite E16. unfold stored_inode. destruct (ioff_range e ino Hg E9). destruct (t_group _ E9 ino E10) as (_ & Hin). pose proof (blk_length e _ Hg Hin).
      pose proof (t_isz _ E9). unfold INODE_BYTES in *. rewrite slice_length; [done|lia..].
    + change (iblock e2 (inode_id vk)) with (iblock e ino). assert (∀ j, fblk e2 ib j = fblk e ib j) as Ef by (intros j; unfold fblk, blk; by rewrite Hd2).
      split; [|done]. intros j Hj. rewrite Ef. by apply E20.
Qed.

Lemma cached_file (S : Fs) r vr name k vk : vnodes (world S) !! r = Some vr → child_list vr = [k] → vnodes (world S) !! k = Some vk →
  name_buf vk = strncpy (take 64 name) 64 → is_element name → lookup_or_load_node r name S = Some (Ok k, S).
Proof.
  intros Hr Hc Hk Hb He. unfold lookup_or_load_node. rewrite (bind_run _ _ S (Ok k) S); [done|]. unfold lookup_child. rewrite (element_short _ He).
  rewrite (bind_run _ _ S vr S) by (unfold node, slift; cbn; by rewrite Hr). rewrite Hc. cbn [lookup_in].
  rewrite (bind_run _ _ S vk S) by (unfold node, slift; cbn; by rewrite Hk).
  pose proof (el_len _ He) as Hl. unfold strlen, VNODE_NAME_MAX in Hl. rewrite (bind_run _ _ S true S); [done|]. unfold slift.
  by rewrite Hb, (stored_name name (proj1 (element_name _ He))) by lia.
Qed.

(** Opening a regular file for reading and writing. *)
Lemma open_vnode_ok (S : Fs) cx fd k vk : vnodes (world S) !! k = Some vk → v_type vk = VNT_REG → k ≠ null →
  access_check cx (Z.lor W_OK R_OK) (v_mode vk) (cx_uid cx) (cx_gid cx) = Ok tt →
  open_vnode cx fd k IOCTX_FLG_RDWR S = Some ((Ok tt, set_fd 0 k (Z.lor FO_FLAG_READABLE FO_FLAG_WRITABLE) fd),
    with_world (Vfs (fsys (world S)) (<[k := set_open_count (open_count vk +w 1) vk]> (vnodes (world S)))) S).
Proof.
  intros Hk Ht H0 Ha. assert (node k S = Some (vk, S)) as Hn by (unfold node, slift; cbn; by rewrite Hk). unfold open_vnode.
  rewrite (proj2 (Z.eqb_neq _ _) H0). rewrite (bind_run _ _ _ _ _ Hn). rewrite Ht. change (flag IOCTX_FLG_RDWR IOCTX_FLG_DIRECTORY) with false.
  change (bool_decide (VNT_REG = VNT_DIR) || bool_decide (VNT_REG = VNT_MNT)) with false. cbv iota.
  rewrite (bind_run _ _ S (Ok tt) S) by (unfold access_node; rewrite (bind_run _ _ _ _ _ Hn); change (get_open_mode IOCTX_FLG_RDWR) with (Z.lor W_OK R_OK); by rewrite Ha).
  rewrite (bind_run _ _ S (Ok tt) S) by done. set (fd' := set_fd 0 k (Z.lor FO_FLAG_READABLE FO_FLAG_WRITABLE) fd). change (negb (known_flags IOCTX_FLG_RDWR)) with false. cbv iota zeta.
  rewrite (bind_run _ _ S (Ok tt, fd') S).
  2:{ rewrite (on_world_run _ S (Ok tt, fd') (world S)) by done. by destruct S. }
  cbn [fst snd]. change (fo_vnode fd') with k. unfold increase_open_count.
  rewrite (bind_run _ _ S tt (with_world (Vfs (fsys (world S)) (<[k := set_open_count (open_count vk +w 1) vk]> (vnodes (world S)))) S)); [done|].
  by rewrite (bind_run _ _ _ _ _ Hn).
Qed.

(** Another count of open files is no change for the file. *)
Lemma count_open_file (w : vfs D) k v q ib n c : open_file w k v q ib n → open_file (Vfs (fsys w) (<[k := set_open_count c v]> (vnodes w))) k (set_open_count c v) q ib n.
Proof. intros [O1 O2 O3 O4 O5 O6 O7 O8 O9 O10 O11]. split; try done. cbn. apply lookup_insert_eq. Qed.

(** The operations on a file object of a regular file [k], open for both. *)
Definition opened (fd : file_object) (k : loc) : Prop := fo_vnode fd = k ∧ fo_flags fd = Z.lor FO_FLAG_READABLE FO_FLAG_WRITABLE ∧ fo_ref fd ≠ 0 ∧ k ≠ null.

Lemma vfs_write_run (S : Fs) fd k v buf r w : opened fd k → vnodes (world S) !! k = Some v → v_type v = VNT_REG →
  Ext2Vnode.write next_time k fd buf (world S) = Some (r, w) → Vfs.write fd buf S = Some (r, with_world w S).
Proof.
  intros (Ek & Ef & _ & Hk) Hv Ht Hw. unfold Vfs.write. rewrite Ef, Ek. change (negb (flag (Z.lor FO_FLAG_READABLE FO_FLAG_WRITABLE) FO_FLAG_WRITABLE)) with false.
  change (flag (Z.lor FO_FLAG_READABLE FO_FLAG_WRITABLE) FO_FLAG_DIRECTORY) with false. cbv iota. rewrite (proj2 (Z.eqb_neq _ _) Hk).
  rewrite (bind_run _ _ S v S) by (by apply node_run). rewrite Ht. by apply on_world_run.
Qed.

Lemma vfs_read_run (S : Fs) fd k v sz r w : opened fd k → vnodes (world S) !! k = Some v → v_type v = VNT_REG →
  Ext2Vnode.read k fd sz (world S) = Some (r, w) → Vfs.read fd sz S = Some (r, with_world w S).
Proof.
  intros (Ek & Ef & _ & Hk) Hv Ht Hw. unfold Vfs.read. rewrite Ef, Ek. change (negb (flag (Z.lor FO_FLAG_READABLE FO_FLAG_WRITABLE) FO_FLAG_READABLE)) with false.
  cbv iota. rewrite (bind_run _ _ S v S) by (by apply node_run). rewrite Ht. by apply on_world_run.
Qed.

Lemma vfs_close_run (S : Fs) fd k v : opened fd k → vnodes (world S) !! k = Some v →
  Vfs.close fd S = Some (Ok tt, with_world (Vfs (fsys (world S)) (<[k := set_open_count (open_count v -w 1) v]> (vnodes (world S)))) S).
Proof.
  intros (Ek & _ & Hr & Hk) Hv. unfold Vfs.close. rewrite Ek, (proj2 (Z.eqb_neq _ _) Hr), (proj2 (Z.eqb_neq _ _) Hk). unfold decrease_open_count.
  set (S' := with_world _ S). rewrite (bind_run _ _ S tt S'); [done|]. by rewrite (bind_run _ _ S v S) by (by apply node_run).
Qed.

Lemma open_at_run (S : Fs) cx fd name k S0 : Vfs.find (cwd_vnode cx) name false S = Some (Ok k, S0) →
  open_at cx fd null name IOCTX_FLG_RDWR 0 S = open_vnode cx fd k IOCTX_FLG_RDWR S0.
Proof. intros Hf. unfold open_at. rewrite (bind_run _ _ _ _ _ Hf). by rewrite (bind_run _ _ S0 (Ok k) S0). Qed.

Lemma isize_pos b : Forall is_byte b → 0 <= isize b.
Proof.
  intros Hb. unfold isize. apply Z.lor_nonneg. split; [apply Z.shiftl_nonneg|]; apply le_val_range; by apply slice_bytes.
Qed.


End vfs_file.

(** ** Witnesses *)

(** The file system of [Ext2Example], mounted: the directory with the entry [a]
    is the root, and there is memory for an inode and a node. *)
Definition ex_fs : ext2 buffer := with_heap [(0x4000, replicate 128 0xEE); (0x5000, [])] ex_ext2.
Definition ex_root : loc := 0x2000.
Definition ex_chars : buffer := replicate 256 0.
Definition ex_io : io (vfs buffer) :=
  Io (Vfs ex_fs {[ex_root := ex_dir_vnode ex_dir_at]}) ex_root [ex_chars; ex_chars] [] [] ∅ ∅ [].

Lemma ex_element : is_element [97].
Proof. split; try done. repeat constructor; unfold SLASH; lia. Qed.

Lemma ex_fs_directory : directory ex_fs ex_dir_at ex_dir_inode [ex_entries].
Proof. apply heap_directory, ex_directory. Qed.

Lemma ex_fs_file : file_ok ex_fs ex_inode 2.
Proof. by apply (same_disk_file ex_ext2 ex_fs ex_inode 2); [| |apply ex_file]. Qed.

Lemma ex_fs_tables : tables_ok ex_fs.
Proof. by apply (tables_same ex_ext2); [| |apply ex_tables]. Qed.

Lemma ex_entry_file : entry_file (world ex_io) ex_root (ex_dir_vnode ex_dir_at) [97] 12 ex_inode 2 0x4000 0x5000 (replicate 128 0xEE).
Proof.
  split.
  - by vm_compute.
  - by vm_compute.
  - exists ex_dir_inode, ex_entries, []. split; [exact ex_fs_directory|done].
  - apply ex_element.
  - exact ex_fs_tables.
  - by vm_compute.
  - by exists [], [].
  - by vm_compute.
  - by vm_compute.
  - by vm_compute.
  - exact ex_fs_file.
  - by vm_compute.
  - split; [|by vm_compute]. intros k Hk. assert (k = 0 ∨ k = 1) as [->| ->] by lia; by vm_compute.
Qed.

#[local] Instance ex_methods : VnodeMethods (vfs buffer) := ext2_methods (λ t, t).

Lemma ex_rooted : rooted ex_io (ex_dir_vnode ex_dir_at) ex_chars [ex_chars].
Proof. by split. Qed.


Lemma every_user_is_owner_witness : access_node (IoContext null 7 7 0) ex_root W_OK ex_io = Some (Ok tt, ex_io).
Proof. apply (every_user_is_owner (IoContext null 7 7 0) ex_io ex_root (ex_dir_vnode ex_dir_at) W_OK); done. Defined.

Lemma create_in_directory_fails_witness : ∃ s', create_at (IoContext null 0 0 0) null [97; SLASH; 98] 0 ex_io = Some (Err ERROR_INVALID, s').
Proof. apply (create_in_directory_fails (IoContext null 0 0 0) null [97; SLASH; 98] 0 0%nat ex_io); done. Defined.

(** [a/b] is [a]. *)
Lemma find_stops_at_first_witness : ∃ s1, Vfs.find null [97] false ex_io = Some (Ok 0x5000, s1) ∧ Vfs.find null [97; SLASH; 98] false ex_io = Some (Ok 0x5000, s1).
Proof.
  destruct (load_file (λ t, t) (with_chars [ex_chars] ex_io) ex_root _ _ _ _ _ _ _ _ ex_entry_file) as (w & H1 & H2 & _).
  exists (with_world w (with_chars [ex_chars] ex_io)).
  apply (find_stops_at_first ex_io (ex_dir_vnode ex_dir_at) ex_chars [ex_chars] [97] [98] false null 0x5000 _ _ ex_rooted ex_element eq_refl eq_refl
    ltac:(done) H1 (o_node _ _ _ _ _ _ H2)); [by left|done].
Defined.
