(* ===== verification/DeviceTheorems.v ===== *)
(** * Theorems about disks, partitions and their nodes *)

From S2P Require Import Prelude Types Links Bytes Ext2 Ext2Inv Ext2Example Vnode Ext2Vnode Ext2Dir AtaDevices Devfs.

Section partitions.
Context {P : Type} `{!AhciPort P}.
Implicit Types p : P.

(** ** Partitions *)

Lemma mbr_partition_in off offs h l id a c : mbr_partitions offs h = Some l → off ∈ offs → mbr_entry h off = Some (id, a, c) → id ≠ 0 →
  PartitionData a (c * 512 mod 2 ^ 32) ∈ l.
Proof.
  revert l. induction offs as [|o offs IH]; intros l Hl Hin He Hid; [by apply not_elem_of_nil in Hin|]. cbn [mbr_partitions] in Hl.
  destruct (mbr_entry h o) as [((id' & a') & c')|] eqn:Eo; [|done]. cbn [mbind option_bind] in Hl. destruct (mbr_partitions offs h) as [l'|] eqn:El; [|done].
  injection Hl as <-. apply elem_of_cons in Hin as [->|Hin].
  - rewrite He in Eo. injection Eo as <- <- <-. rewrite (proj2 (Z.eqb_neq _ _) Hid). apply list_elem_of_here.
  - specialize (IH l' eq_refl Hin He Hid). destruct (id' =? 0); [done|]. by apply list_elem_of_further.
Qed.

(** A partition does not keep to its sectors.  Its size is stored in bytes and
    taken for a number of sectors, so a sector written right behind its end, as
    the partition table gives it, is written: the first sector of what follows
    it on the disk is overwritten. *)
Theorem partition_escapes p p' l off id a c b : online p → find_partitions p = Some (Ok l, p') →
  let head := slice 0 1024 (media p) in
  slice 510 2 head = MBR_SIG → off ∈ MBR_ENTRIES → mbr_entry head off = Some (id, a, c) → id ≠ 0 → 0 <= a → 0 < c → c * 512 < 2 ^ 32 →
  (a + c + 1) * 512 <= blen (media p) → blen (media p) < 2 ^ 64 → blen (media p) mod SECTOR_SIZE = 0 → 1024 <= blen (media p) →
  Forall is_byte b → blen b = 512 →
  ∃ part p'', part ∈ l ∧ lba_start part = a ∧ partition_write part (c * 512) b p' = (Ok 512, p'') ∧
    media p'' = patch ((a + c) * 512) b (media p).
Proof.
  intros Ho Hf head Hsig Hin He Hid Ha Hc H32 Hm H64 Hmod H1024 Hb Hl.
  destruct (ata_read_ok p 0 1024 Ho) as (p1 & Hr & Hm1 & Ho1); [lia|lia|lia|done|done|done|]. unfold find_partitions in Hf. rewrite Hr in Hf. fold head in Hf.
  destruct (decide (slice 512 8 head = GPT_SIG)); [done|]. rewrite decide_True in Hf by done.
  destruct (mbr_partitions MBR_ENTRIES head) as [l'|] eqn:El; [|done]. injection Hf as -> ->.
  pose proof (mbr_partition_in _ _ _ _ _ _ _ El Hin He Hid) as Hpart. rewrite Z.mod_small in Hpart by lia. set (d := Partition (PartitionData a (c * 512)) p').
  assert (part_working d) as Hw by (split; unfold part_start; cbn; rewrite ?Hm1; [done|done|lia|lia]).
  destruct (part_write_ok d (c * 512) b Hw Hb) as (d' & Hwr & _ & _ & Hd'); [lia|lia| |apply Z.mod_mul; done|by rewrite Hl|by rewrite Hl|].
  { rewrite (part_disk_length d Hw). unfold part_bytes. cbn. rewrite Hm1, Hl. lia. }
  exists (PartitionData a (c * 512)), (port_of d'). split; [done|]. split; [done|]. unfold part_write in Hwr. cbn [part_of port_of d] in Hwr.
  destruct (partition_write _ _ _ _) as (r & p2). injection Hwr as -> <-. rewrite Hl. split; [done|]. rewrite Hd'. unfold part_start. cbn. rewrite Hm1. f_equal. lia.
Qed.

End partitions.

(** ** Nodes of devices *)

Section devices.
Context {P : Type} `{!AhciPort P}.
Implicit Types s : devfs P.

Lemma dnode_run s n v : dnodes s !! n = Some v → node n s = Some (v, s).
Proof. intros H. unfold node, slift. cbn. by rewrite H. Qed.

(** A name that was not found among the children is found in the node behind them. *)
Lemma lookup_in_last s s' name n v : dnodes s' !! n = Some v → strncmp_at (Z.to_nat VNODE_NAME_MAX) 0 (name_buf v) name = Some true →
  (∀ m w, dnodes s !! m = Some w → ∃ w', dnodes s' !! m = Some w' ∧ name_buf w' = name_buf w) →
  ∀ l, lookup_in name l s = Some (Err ERROR_NO_ENTRY, s) → lookup_in name (l ++ [n]) s' = Some (Ok n, s').
Proof.
  intros Hn Hc Hs. induction l as [|m l IH]; cbn [app lookup_in]; intros H.
  - rewrite (bind_run _ _ _ _ _ (dnode_run s' n v Hn)). by rewrite (bind_run _ _ s' true s') by (unfold slift; by rewrite Hc).
  - destruct (dnodes s !! m) as [w|] eqn:Em.
    2:{ unfold mbind, ST_bind, node, slift in H. cbn in H. by rewrite Em in H. }
    rewrite (bind_run _ _ _ _ _ (dnode_run s m w Em)) in H. destruct (Hs m w Em) as (w' & Em' & Eb).
    rewrite (bind_run _ _ _ _ _ (dnode_run s' m w' Em')), Eb. destruct (strncmp_at _ _ (name_buf w) name) as [[]|] eqn:E.
    + rewrite (bind_run _ _ s true s) in H; [discriminate H|reflexivity].
    + rewrite (bind_run _ _ s false s) in H by reflexivity. rewrite (bind_run _ _ s' false s') by reflexivity. by apply IH.
    + discriminate H.
Qed.

(** The node of a new disk, and the state with it. *)
Definition disk_node (name : list Z) : vnode :=
  set_ids (Z.lor (DC_BLOCK mod 2 ^ 32) (Z.shiftl DBT_SDx 32)) DEVICE_DEFAULT_MODE 0 0 (set_v_flags VNF_MEMORY (new_vnode null VNT_BLK name)).
Definition with_disk s (v : vnode) (n : loc) (heap : list loc) (dev c : loc) : devfs P :=
  DevFs (<[devfs_root s := set_child_list (child_list v ++ [n]) v]> (<[n := disk_node [115; 100; c]]> (dnodes s))) (<[n := dev]> (node_dev s))
    (devices s) (ports s) heap (devfs_root s) (c + 1) (block_dev_cd_idx_char s).

Lemma add_disk_ok s v n heap dev c : dnodes s !! devfs_root s = Some v → dheap s = n :: heap → n ≠ devfs_root s → block_dev_sd_idx_char s = c → c <= 122 →
  add_device_node DC_BLOCK DBT_SDx dev None s = Some (Ok n, with_disk s v n heap dev c).
Proof.
  intros Hr Hh Hne Ec Hc. set (w := disk_node [115; 100; c]). set (name := [115; 100; c]) in *.
  set (s1 := DevFs (dnodes s) (node_dev s) (devices s) (ports s) (dheap s) (devfs_root s) (c + 1) (block_dev_cd_idx_char s)).
  set (s2 := DevFs (<[n := w]> (dnodes s)) (node_dev s) (devices s) (ports s) heap (devfs_root s) (c + 1) (block_dev_cd_idx_char s)).
  set (s3 := DevFs (<[n := w]> (dnodes s)) (<[n := dev]> (node_dev s)) (devices s) (ports s) heap (devfs_root s) (c + 1) (block_dev_cd_idx_char s)).
  unfold add_device_node. rewrite (bind_run _ _ s (Ok name) s1).
  2:{ unfold device_generate_name. rewrite (bind_run get_devfs _ s s s) by done. change (DC_BLOCK =? DC_BLOCK) with true. change (DBT_SDx =? DBT_CDx) with false.
      change (DBT_SDx =? DBT_SDx) with true. cbv iota. rewrite Ec. by rewrite (proj2 (Z.ltb_ge _ _)) by lia. }
  change (device_type DC_BLOCK) with (Some VNT_BLK). cbv iota. rewrite (bind_run _ _ s1 n s2).
  2:{ unfold new_dev_node. set (s1' := DevFs (dnodes s) (node_dev s) (devices s) (ports s) heap (devfs_root s) (c + 1) (block_dev_cd_idx_char s)).
      by rewrite (bind_run _ _ s1 (Some n) s1') by (unfold alloc_dev; cbn [dheap s1]; by rewrite Hh). }
  rewrite (bind_run _ _ s2 tt s3), (bind_run _ _ s3 s3 s3) by done. rewrite (bind_run _ _ s3 (Ok tt) (with_disk s v n heap dev c)); [done|].
  unfold attach. by rewrite (bind_run _ _ s3 v s3) by (apply dnode_run; cbn; by rewrite lookup_insert_ne).
Qed.

(** Adding a disk and looking for it by name.  A disk without a name gets the
    next one, [sda], [sdb] and so on; if there was no node of that name before,
    [device_find_first] then finds the new one, which leads to the disk. *)
Theorem device_add_find s v n heap dev : dnodes s !! devfs_root s = Some v → devfs_root s ≠ null → dheap s = n :: heap → dnodes s !! n = None →
  let c := block_dev_sd_idx_char s in
  0 < c <= 122 → lookup_child (devfs_root s) [115; 100; c] s = Some (Err ERROR_NO_ENTRY, s) →
  ∃ s', add_device_node DC_BLOCK DBT_SDx dev None s = Some (Ok n, s') ∧ device_find_first DC_BLOCK [115; 100; c] s' = Some (Ok n, s') ∧
    node_dev s' !! n = Some dev ∧ block_dev_sd_idx_char s' = c + 1.
Proof.
  intros Hr Hr0 Hh Hn c Hc Hl. assert (n ≠ devfs_root s) as Hne by congruence. set (name := [115; 100; c]) in *. set (w := disk_node name).
  set (s' := with_disk s v n heap dev c). exists s'.
  split; [apply add_disk_ok; done || lia|]. split; [|split; [apply lookup_insert_eq|done]].
  assert (strncmp_at (Z.to_nat VNODE_NAME_MAX) 0 (name_buf w) name = Some true) as Hcmp by (apply stored_name; [repeat constructor; lia|done]).
  assert (dnodes s' !! n = Some w) as Hw by (cbn; rewrite lookup_insert_ne by done; apply lookup_insert_eq).
  assert (lookup_child (devfs_root s) name s' = Some (Ok n, s')) as Hfound.
  { unfold lookup_child in *. change (VNODE_NAME_MAX <=? Z.min (strlen name) VNODE_NAME_MAX) with false in *. cbv iota in *.
    rewrite (bind_run _ _ _ _ _ (dnode_run s _ _ Hr)) in Hl. rewrite (bind_run _ _ s' (set_child_list (child_list v ++ [n]) v) s') by (apply dnode_run; apply lookup_insert_eq).
    apply (lookup_in_last s s' name n w Hw Hcmp); [|done]. intros m x Hm. cbn [dnodes s' with_disk]. destruct (decide (m = devfs_root s)) as [->|Hm1].
    - eexists. split; [apply lookup_insert_eq|]. rewrite Hr in Hm. by injection Hm as <-.
    - rewrite lookup_insert_ne by done. exists x. rewrite lookup_insert_ne by congruence. done. }
  unfold device_find_first. rewrite (bind_run get_devfs _ s' s' s') by done. change (devfs_root s') with (devfs_root s).
  rewrite (proj2 (Z.eqb_neq _ _) Hr0). rewrite (bind_run _ _ _ _ _ Hfound). rewrite !(bind_run _ _ _ _ _ (dnode_run s' n w Hw)). done.
Qed.

End devices.

(** ** Witnesses *)

(** A port whose drive is a buffer that always answers. *)
#[export, program] Instance ram_port : AhciPort buffer := {
  port_read lba len d := (Ok (slice (lba * SECTOR_SIZE) len d), d);
  port_write lba b d := (Ok tt, patch (lba * SECTOR_SIZE) b d);
  media d := d;
  online d := Forall is_byte d;
}.
Next Obligation. done. Qed.
Next Obligation. intros d lba len Hd. intros. by exists d. Qed.
Next Obligation. intros d lba b Hd Hb. intros. exists (patch (lba * SECTOR_SIZE) b d). split; [done|]. split; [done|]. by apply patch_bytes. Qed.

(** Eight sectors, with one partition of two sectors from sector 2 on. *)
Definition ex_mbr : buffer := filled 4096 [(Field 1 0x1C2, 0x83); (Field 4 0x1C6, 2); (Field 4 0x1CA, 2); (Field 2 510, 0xAA55)].

Lemma partition_escapes_witness : ∃ part p', partition_write part 1024 (replicate 512 7) ex_mbr = (Ok 512, p') ∧ lba_start part = 2 ∧
  p' = patch 2048 (replicate 512 7) ex_mbr.
Proof.
  assert (find_partitions ex_mbr = Some (Ok [PartitionData 2 1024], ex_mbr)) as Hf by by vm_compute.
  destruct (partition_escapes ex_mbr ex_mbr [PartitionData 2 1024] 0x1BE 0x83 2 2 (replicate 512 7)) as (part & p' & _ & H2 & H3 & H4);
    [by apply bytes_ok; vm_compute|exact Hf|by vm_compute|apply list_elem_of_here|by vm_compute|done|done|done|done|by vm_compute|by vm_compute|by vm_compute|by vm_compute
    |by apply bytes_ok; vm_compute|by vm_compute|].
  exists part, p'. split; [exact H3|]. split; [exact H2|exact H4].
Defined.

Definition ex_devfs : devfs buffer := DevFs {[1 := new_vnode null VNT_BLK []]} ∅ ∅ ∅ [2] 1 97 97.

Lemma device_add_find_witness : ∃ s', add_device_node DC_BLOCK DBT_SDx 9 None ex_devfs = Some (Ok 2, s') ∧ device_find_first DC_BLOCK [115; 100; 97] s' = Some (Ok 2, s').
Proof.
  destruct (device_add_find ex_devfs (new_vnode null VNT_BLK []) 2 [] 9) as (s' & H1 & H2 & _); [done|done|done|done|cbn; lia|done|]. by exists s'.
Defined.
