(* ===== verification/Message.v ===== *)
(** * Messages: [include/task/ipc/public/messages.hpp]

    A message is 64 registers, the first of which is the tag with the numbers of
    untyped and typed items; an access outside of the registers fails.  The
    overloads of a member for the three concepts of items are three definitions. *)

From S2P Require Import Prelude Types Links Fpage.

Definition REGS_PER_MESSAGE : Z := 64.
Definition MESSAGE_TAG_LABEL_LEN : Z := 48.

(** ** [message_tag]: the bit fields of its register *)

Definition u_ (raw : Z) : Z := raw mod 2 ^ 6.
Definition t_ (raw : Z) : Z := Z.shiftr raw 6 mod 2 ^ 6.
Definition flags_ (raw : Z) : Z := Z.shiftr raw 12 mod 2 ^ 4.
Definition label_ (raw : Z) : Z := Z.shiftr raw 16 mod 2 ^ MESSAGE_TAG_LABEL_LEN.

Definition message_tag (u t flags label : Z) : Z :=
  u mod 2 ^ 6 + 2 ^ 6 * (t mod 2 ^ 6) + 2 ^ 12 * (flags mod 2 ^ 4) + 2 ^ 16 * (label mod 2 ^ MESSAGE_TAG_LABEL_LEN).

Definition set_u (u raw : Z) : Z := message_tag u (t_ raw) (flags_ raw) (label_ raw).
Definition set_t (t raw : Z) : Z := message_tag (u_ raw) t (flags_ raw) (label_ raw).
Definition set_flags (f raw : Z) : Z := message_tag (u_ raw) (t_ raw) f (label_ raw).
Definition set_label (l raw : Z) : Z := message_tag (u_ raw) (t_ raw) (flags_ raw) l.
Definition check_flags (flags raw : Z) : bool := negb (Z.land (flags_ raw) flags =? 0).
Definition next_typed_pos (raw : Z) : Z := 1 + u_ raw + t_ raw.

(** ** [message_acceptor] *)

Definition allow_map_or_grant (raw : Z) : bool := Z.testbit raw 0.
Definition allow_string (raw : Z) : bool := Z.testbit raw 1.
Definition receive_window (raw : Z) : Z := Z.shiftr raw 4 mod 2 ^ 60.

(** [1 << receive_s] is a shift of an [int]. *)
Definition int_shift (s : Z) : option Z := if s <? 31 then Some (2 ^ s) else None.

Definition get_send_receive_region (raw send sndbase : Z) : option (Z * Z) :=
  let receive_s := Z.land (Z.shiftr (receive_window raw) 4) 0x3F in
  let receive_b := Z.shiftr (receive_window raw) 10 in
  n ← int_shift receive_s;
  let size := log2 (PAGE_ROUNDUP n) in
  if n <? get_size send then
    let new_send_base := PAGE_ROUNDDOWN (get_base_address send +w (sndbase mod get_size send)) in
    Some (fpage new_send_base size AR_FULL, fpage (wrap64 (Z.shiftl receive_b 10)) size AR_FULL)
  else if get_size send <? n then
    let new_receive_base := PAGE_ROUNDDOWN (wrap64 (Z.shiftl receive_s 10) +w (sndbase mod n)) in
    Some (send, fpage (wrap64 (Z.shiftl new_receive_base 10)) size AR_FULL)
  else Some (send, fpage (wrap64 (Z.shiftl receive_b 10)) size AR_FULL).

(** ** Typed items: the two registers of a string, a map or a grant *)

Inductive message_item_types := STRING | MAP | GRANT.
#[export] Instance message_item_types_eq : EqDecision message_item_types.
Proof. solve_decision. Defined.
Definition item_type (raw : Z) : option message_item_types :=
  match raw mod 2 ^ 4 with 0 => Some STRING | 1 => Some MAP | 2 => Some GRANT | _ => None end.

Definition string_len_ (raw0 : Z) : Z := Z.shiftr raw0 10 mod 2 ^ 54.
Definition string_ptr (raw1 : Z) : Z := raw1.
Definition send_base_ (raw0 : Z) : Z := Z.shiftr raw0 10 mod 2 ^ 54.
Definition send_fpage_ (raw1 : Z) : Z := raw1.

(** ** [message] *)

Abbreviation message := (list Z).
Implicit Types m : message.

Definition reg m (i : Z) : option Z := if i <? 0 then None else m !! Z.to_nat i.
Definition set_reg (i v : Z) m : option message := if (i <? 0) || (Z.of_nat (length m) <=? i) then None else Some (<[Z.to_nat i := v]> m).

Definition empty_message : message := replicate (Z.to_nat REGS_PER_MESSAGE) 0.
Definition tag_of m : Z := default 0 (m !! O).
Definition set_tag (tag : Z) m : option message := set_reg 0 tag m.
Definition clear m : option message := set_tag 0 m.

(** The typed items move up by one register: [n] registers, the last one to [i]. *)
Fixpoint shift_up (n : nat) (i : Z) m : option message :=
  match n with
  | O => Some m
  | S n => v ← reg m (i - 1); m ← set_reg i v m; shift_up n (i - 1) m
  end.

Definition append_untyped (item : Z) m : option message :=
  let tag := tag_of m in
  m ← (if t_ tag =? 0 then Some m else shift_up (Z.to_nat (t_ tag)) (next_typed_pos tag) m);
  let u := (u_ tag + 1) mod 2 ^ 6 in
  m ← set_tag (set_u u tag) m;
  set_reg u item m.

Definition append_single (raw : Z) m : option message :=
  m ← set_reg (next_typed_pos (tag_of m)) raw m;
  set_tag (set_t (t_ (tag_of m) + 1) (tag_of m)) m.

Definition append_double (raw0 raw1 : Z) m : option message := m ← append_single raw0 m; append_single raw1 m.

Definition put_untyped (item index : Z) m : option message := set_reg (u_ (tag_of m) + index + 1) item m.
Definition put_single (raw index : Z) m : option message := set_reg (u_ (tag_of m) + index + 1) raw m.
Definition put_double (raw0 raw1 index : Z) m : option message :=
  m ← set_reg (u_ (tag_of m) + index + 1) raw0 m;
  set_reg (u_ (tag_of m) + index + 2) raw1 m.

Definition at_untyped (index : Z) m : option Z := reg m (1 + index).
Definition at_single (index : Z) m : option Z := reg m (u_ (tag_of m) + index).

(** The items, as many as the tag says; [None] reaches outside of the message. *)
Definition get_items_span (tag : Z) m : option (list Z) :=
  let n := Z.to_nat (u_ tag + t_ tag) in
  if (n <? length m)%nat then Some (take n (drop 1 m)) else None.

(** ** The fields of a tag *)

Lemma tag_fields u t f l : u_ (message_tag u t f l) = u mod 2 ^ 6 ∧ t_ (message_tag u t f l) = t mod 2 ^ 6 ∧
  flags_ (message_tag u t f l) = f mod 2 ^ 4 ∧ label_ (message_tag u t f l) = l mod 2 ^ MESSAGE_TAG_LABEL_LEN.
Proof.
  unfold u_, t_, flags_, label_, message_tag. rewrite !Z.shiftr_div_pow2 by done.
  set (a := u mod 2 ^ 6). set (b := t mod 2 ^ 6). set (c := f mod 2 ^ 4). set (d := l mod 2 ^ MESSAGE_TAG_LABEL_LEN).
  assert (0 <= a < 2 ^ 6) by by apply Z.mod_pos_bound. assert (0 <= b < 2 ^ 6) by by apply Z.mod_pos_bound.
  assert (0 <= c < 2 ^ 4) by by apply Z.mod_pos_bound. assert (0 <= d < 2 ^ MESSAGE_TAG_LABEL_LEN) by by apply Z.mod_pos_bound.
  replace (a + 2 ^ 6 * b + 2 ^ 12 * c + 2 ^ 16 * d) with (a + (b + (c + d * 2 ^ 4) * 2 ^ 6) * 2 ^ 6) by lia.
  split; [rewrite Z.mod_add, Z.mod_small by lia; done|].
  split; [rewrite Z.div_add, Z.div_small, Z.add_0_l, Z.mod_add, Z.mod_small by lia; done|].
  change (2 ^ 12) with (2 ^ 6 * 2 ^ 6). change (2 ^ 16) with (2 ^ 6 * (2 ^ 6 * 2 ^ 4)). rewrite <- !Z.div_div by done.
  rewrite !Z.div_add, (Z.div_small a), Z.add_0_l, !Z.div_add, (Z.div_small b), Z.add_0_l by lia.
  split; [rewrite Z.mod_add, Z.mod_small by lia; done|]. rewrite Z.div_add, (Z.div_small c), Z.add_0_l, Z.mod_small by lia. done.
Qed.

Lemma tag_update u t f l u' t' : set_u u' (message_tag u t f l) = message_tag u' t f l ∧ set_t t' (message_tag u t f l) = message_tag u t' f l.
Proof.
  destruct (tag_fields u t f l) as (E1 & E2 & E3 & E4). unfold set_u, set_t. rewrite E1, E2, E3, E4. unfold message_tag. by rewrite !Zmod_mod.
Qed.

(** ** What a message holds *)

Record items := Items { a_flags : Z; a_label : Z; a_untyped : list Z; a_typed : list Z }.

Definition count_of (a : items) : nat := (length (a_untyped a) + length (a_typed a))%nat.
Definition tag_for (a : items) : Z := message_tag (Z.of_nat (length (a_untyped a))) (Z.of_nat (length (a_typed a))) (a_flags a) (a_label a).
Definition add_untyped (x : Z) (a : items) : items := Items (a_flags a) (a_label a) (a_untyped a ++ [x]) (a_typed a).
Definition add_typed (x : Z) (a : items) : items := Items (a_flags a) (a_label a) (a_untyped a) (a_typed a ++ [x]).

Record represents m (a : items) : Prop := {
  rp_regs : ∃ rest, m = tag_for a :: a_untyped a ++ a_typed a ++ rest;
  rp_len : length m = Z.to_nat REGS_PER_MESSAGE;
}.

Lemma represents_count m a : represents m a → (count_of a <= 63)%nat.
Proof. intros [(rest & ->) Hl]. unfold count_of, REGS_PER_MESSAGE in *. cbn in Hl. rewrite !length_app in Hl. lia. Qed.

Lemma represents_tag m a : represents m a → tag_of m = tag_for a ∧ u_ (tag_of m) = Z.of_nat (length (a_untyped a)) ∧ t_ (tag_of m) = Z.of_nat (length (a_typed a)).
Proof.
  intros Hr. pose proof (represents_count m a Hr) as Hc. destruct Hr as [(rest & ->) _]. cbn. split; [done|]. unfold tag_for, count_of in *.
  destruct (tag_fields (Z.of_nat (length (a_untyped a))) (Z.of_nat (length (a_typed a))) (a_flags a) (a_label a)) as (E1 & E2 & _).
  rewrite E1, E2, !Z.mod_small by lia. done.
Qed.

Lemma empty_represents : represents empty_message (Items 0 0 [] []).
Proof. split; [|done]. by exists (replicate 63 0). Qed.

Lemma set_reg_middle pre y v rest : set_reg (Z.of_nat (length pre)) v (pre ++ y :: rest) = Some (pre ++ v :: rest).
Proof.
  unfold set_reg. rewrite length_app. cbn [length]. rewrite (proj2 (Z.ltb_ge _ _)), (proj2 (Z.leb_gt _ _)) by lia. cbn [orb].
  rewrite Nat2Z.id. by rewrite insert_app_r_alt, Nat.sub_diag by lia.
Qed.

Lemma set_tag_cons t x l : set_tag t (x :: l) = Some (t :: l).
Proof. unfold set_tag, set_reg. cbn [length]. by rewrite (proj2 (Z.leb_gt _ 0)) by lia. Qed.

Lemma reg_middle pre y rest : reg (pre ++ y :: rest) (Z.of_nat (length pre)) = Some y.
Proof. unfold reg. rewrite (proj2 (Z.ltb_ge _ _)) by lia. rewrite Nat2Z.id. by rewrite list_lookup_middle. Qed.

Lemma shift_up_ok pre l : ∀ y rest, shift_up (length l) (Z.of_nat (length pre + length l)) (pre ++ l ++ y :: rest) = Some (pre ++ default y (head l) :: l ++ rest).
Proof.
  induction l as [|z l IH] using rev_ind; intros y rest; [done|]. rewrite length_app. cbn [length]. rewrite Nat.add_1_r. cbn [shift_up].
  rewrite <- !app_assoc. cbn [app]. replace (Z.of_nat (length pre + S (length l)) - 1) with (Z.of_nat (length (pre ++ l))) by (rewrite length_app; lia).
  rewrite (app_assoc pre l), reg_middle. cbn [mbind option_bind].
  replace (Z.of_nat (length pre + S (length l))) with (Z.of_nat (length ((pre ++ l) ++ [z]))) by (rewrite !length_app; cbn; lia).
  replace ((pre ++ l) ++ z :: y :: rest) with (((pre ++ l) ++ [z]) ++ y :: rest) by (rewrite <- !app_assoc; done).
  rewrite set_reg_middle. cbn [mbind option_bind]. rewrite <- !app_assoc. cbn [app]. rewrite length_app, IH. destruct l; done.
Qed.

(** ** Appending items *)

Lemma append_untyped_ok m a x : represents m a → (count_of a < 63)%nat →
  ∃ m', append_untyped x m = Some m' ∧ represents m' (add_untyped x a).
Proof.
  intros Hr Hc. destruct (represents_tag m a Hr) as (Et & Eu & Ety). destruct Hr as [(rest & Em) Hl]. unfold count_of, REGS_PER_MESSAGE in *.
  rewrite Em in Hl. cbn in Hl. rewrite !length_app in Hl. destruct rest as [|y rest]; [cbn in Hl; lia|].
  set (pre := tag_for a :: a_untyped a). assert (∃ d, (if t_ (tag_of m) =? 0 then Some m else shift_up (Z.to_nat (t_ (tag_of m))) (next_typed_pos (tag_of m)) m) =
    Some (pre ++ d :: a_typed a ++ rest)) as (d & Hs).
  { rewrite Ety. destruct (Z.eqb_spec (Z.of_nat (length (a_typed a))) 0) as [E0|E0].
    - exists y. destruct (a_typed a); [|cbn in E0; lia]. by rewrite Em.
    - exists (default y (head (a_typed a))). unfold next_typed_pos. rewrite Eu, Ety, Nat2Z.id.
      replace (1 + Z.of_nat (length (a_untyped a)) + Z.of_nat (length (a_typed a))) with (Z.of_nat (length pre + length (a_typed a))) by (cbn; lia).
      rewrite Em. exact (shift_up_ok pre (a_typed a) y rest). }
  unfold append_untyped. rewrite Hs. cbn [mbind option_bind]. rewrite Eu, Z.mod_small by lia.
  set (pre' := tag_for (add_untyped x a) :: a_untyped a).
  assert (set_tag (set_u (Z.of_nat (length (a_untyped a)) + 1) (tag_of m)) (pre ++ d :: a_typed a ++ rest) = Some (pre' ++ d :: a_typed a ++ rest)) as ->.
  { cbn [app pre pre']. rewrite set_tag_cons. do 2 f_equal. rewrite Et.
    unfold tag_for. rewrite (proj1 (tag_update _ _ _ _ _ 0)). cbn. rewrite length_app. cbn. f_equal; lia. }
  cbn [mbind option_bind]. replace (Z.of_nat (length (a_untyped a)) + 1) with (Z.of_nat (length pre')) by (cbn; lia). rewrite set_reg_middle.
  eexists. split; [done|]. split.
  - exists rest. cbn. rewrite <- !app_assoc. done.
  - unfold pre', REGS_PER_MESSAGE. cbn. rewrite length_app. cbn. rewrite length_app. cbn in Hl. lia.
Qed.

Lemma append_single_ok m a x : represents m a → (count_of a < 63)%nat →
  ∃ m', append_single x m = Some m' ∧ represents m' (add_typed x a).
Proof.
  intros Hr Hc. destruct (represents_tag m a Hr) as (Et & Eu & Ety). destruct Hr as [(rest & Em) Hl]. unfold count_of, REGS_PER_MESSAGE in *.
  rewrite Em in Hl. cbn in Hl. rewrite !length_app in Hl. destruct rest as [|y rest]; [cbn in Hl; lia|].
  set (pre := (tag_for a :: a_untyped a) ++ a_typed a). unfold append_single, next_typed_pos. rewrite Eu, Ety.
  replace (1 + Z.of_nat (length (a_untyped a)) + Z.of_nat (length (a_typed a))) with (Z.of_nat (length pre)) by (unfold pre; rewrite length_app; cbn; lia).
  replace m with (pre ++ y :: rest) by (unfold pre; by rewrite <- app_assoc, Em). rewrite set_reg_middle. cbn [mbind option_bind].
  change (tag_of (pre ++ x :: rest)) with (tag_for a). rewrite Et in Ety. rewrite Ety. unfold pre. cbn [app]. rewrite set_tag_cons. eexists. split; [done|]. split.
  - exists rest. cbn. rewrite <- !app_assoc. f_equal. unfold tag_for. rewrite (proj2 (tag_update _ _ _ _ 0 _)). cbn. rewrite length_app. cbn. f_equal; lia.
  - unfold REGS_PER_MESSAGE. cbn. rewrite <- app_assoc, !length_app. cbn in *. lia.
Qed.

(** What a program appends: a value, or the registers of an item. *)
Inductive append_op := AUntyped (x : Z) | ASingle (x : Z) | ADouble (x y : Z).

Definition append_one (o : append_op) m : option message :=
  match o with AUntyped x => append_untyped x m | ASingle x => append_single x m | ADouble x y => append_double x y m end.
Fixpoint append_all (l : list append_op) m : option message :=
  match l with [] => Some m | o :: l => m ← append_one o m; append_all l m end.

Definition untyped_of (o : append_op) : list Z := match o with AUntyped x => [x] | _ => [] end.
Definition typed_of (o : append_op) : list Z := match o with AUntyped _ => [] | ASingle x => [x] | ADouble x y => [x; y] end.
Definition add_op (o : append_op) (a : items) : items := Items (a_flags a) (a_label a) (a_untyped a ++ untyped_of o) (a_typed a ++ typed_of o).

Lemma append_one_ok o m a : represents m a → (count_of a + length (untyped_of o) + length (typed_of o) <= 63)%nat →
  ∃ m', append_one o m = Some m' ∧ represents m' (add_op o a).
Proof.
  intros Hr Hc. destruct o as [x|x|x y]; cbn [append_one untyped_of typed_of length add_op] in *.
  - destruct (append_untyped_ok m a x Hr ltac:(lia)) as (m' & H1 & H2). exists m'. unfold add_op, add_untyped in *. cbn. by rewrite app_nil_r.
  - destruct (append_single_ok m a x Hr ltac:(lia)) as (m' & H1 & H2). exists m'. unfold add_op, add_typed in *. cbn. by rewrite app_nil_r.
  - destruct (append_single_ok m a x Hr ltac:(lia)) as (m1 & H1 & H2).
    destruct (append_single_ok m1 _ y H2) as (m2 & H3 & H4). { unfold count_of in *. cbn. rewrite length_app. cbn. lia. }
    exists m2. unfold append_double. rewrite H1. cbn. split; [done|]. unfold add_op, add_typed in *. cbn in *. by rewrite <- app_assoc, app_nil_r in *.
Qed.

Definition size_of (l : list append_op) : nat := list_sum (map (λ o, length (untyped_of o) + length (typed_of o))%nat l).

Lemma append_all_ok l : ∀ m a, represents m a → (count_of a + size_of l <= 63)%nat →
  ∃ m', append_all l m = Some m' ∧
    represents m' (Items (a_flags a) (a_label a) (a_untyped a ++ concat (map untyped_of l)) (a_typed a ++ concat (map typed_of l))).
Proof.
  induction l as [|o l IH]; intros m a Hr Hc; cbn [append_all map concat].
  { exists m. rewrite !app_nil_r. by destruct a. }
  unfold size_of in Hc. cbn [map list_sum foldr] in Hc. change (foldr Nat.add 0%nat) with list_sum in Hc. fold (size_of l) in Hc.
  destruct (append_one_ok o m a Hr ltac:(lia)) as (m1 & H1 & H2). rewrite H1. cbn [mbind option_bind].
  destruct (IH m1 (add_op o a) H2) as (m2 & H3 & H4). { unfold count_of in *. cbn. rewrite !length_app. lia. }
  exists m2. split; [done|]. cbn in H4. by rewrite <- !app_assoc in H4.
Qed.

Lemma represents_span m a : represents m a → get_items_span (tag_of m) m = Some (a_untyped a ++ a_typed a).
Proof.
  intros Hr. destruct (represents_tag m a Hr) as (_ & Eu & Ety). pose proof (represents_count m a Hr) as Hc. destruct Hr as [(rest & Em) Hl].
  unfold get_items_span. rewrite Eu, Ety. unfold count_of, REGS_PER_MESSAGE in *. rewrite (proj2 (Nat.ltb_lt _ _)) by lia. f_equal. rewrite Em.
  change (drop 1 (tag_for a :: a_untyped a ++ a_typed a ++ rest)) with (a_untyped a ++ a_typed a ++ rest).
  rewrite app_assoc. apply take_app_length'. rewrite length_app. lia.
Qed.

(** C21: A message holds what was appended to it.  However untyped values and
    typed items are interleaved, as long as they take at most 63 registers: the
    tag counts them, the untyped values come first and the registers of the
    items behind them, each in the order in which they were appended, and [at]
    gives back every untyped value. *)
Theorem message_builds l : (size_of l <= 63)%nat →
  let untyped := concat (map untyped_of l) in
  let typed := concat (map typed_of l) in
  ∃ m, append_all l empty_message = Some m ∧ u_ (tag_of m) = Z.of_nat (length untyped) ∧ t_ (tag_of m) = Z.of_nat (length typed) ∧
    get_items_span (tag_of m) m = Some (untyped ++ typed) ∧ ∀ i x, untyped !! i = Some x → at_untyped (Z.of_nat i) m = Some x.
Proof.
  intros Hs untyped typed. destruct (append_all_ok l empty_message _ empty_represents Hs) as (m & H1 & Hr). cbn in Hr. fold untyped typed in Hr.
  exists m. destruct (represents_tag _ _ Hr) as (_ & Eu & Et). pose proof (represents_span _ _ Hr) as Hsp. cbn in Eu, Et, Hsp.
  split; [done|]. split; [done|]. split; [done|]. split; [done|]. intros i x Hi. destruct Hr as [(rest & ->) _]. unfold at_untyped, reg. cbn.
  rewrite (proj2 (Z.ltb_ge _ _)) by lia. replace (Z.to_nat (1 + Z.of_nat i)) with (S i) by lia. cbn. by apply lookup_app_l_Some.
Qed.

(** Appending to a full message.  With 63 registers in use, a typed item, or
    any value behind typed items, is written outside of the message; a value
    appended to 63 untyped ones wraps their count around to 0 and overwrites the
    tag. *)
Theorem message_overflow m a x : represents m a → count_of a = 63%nat →
  append_single x m = None ∧ append_untyped x m = if decide (a_typed a = []) then Some (x :: a_untyped a) else None.
Proof.
  intros Hr Hc. destruct (represents_tag m a Hr) as (Et & Eu & Ety). destruct Hr as [(rest & Em) Hl]. unfold count_of, REGS_PER_MESSAGE in *.
  assert (∀ v, set_reg 64 v m = None) as Hout. { intros v. unfold set_reg. rewrite Hl. done. }
  assert (next_typed_pos (tag_of m) = 64) as Hn by (unfold next_typed_pos; rewrite Eu, Ety; lia). split.
  - unfold append_single. by rewrite Hn, Hout.
  - unfold append_untyped. rewrite Ety, Hn. destruct (decide (a_typed a = [])) as [E|E].
    + rewrite E in *. cbn [length] in *. rewrite (proj2 (Z.eqb_eq _ 0)) by done. cbn [mbind option_bind]. rewrite Eu.
      replace (Z.of_nat (length (a_untyped a))) with 63 by lia. change ((63 + 1) mod 2 ^ 6) with 0.
      rewrite Em in *. cbn in Hl. rewrite length_app in Hl. destruct rest; [|cbn in Hl; lia]. cbn [app]. rewrite app_nil_r.
      rewrite set_tag_cons. cbn [mbind option_bind]. exact (set_tag_cons x _ (a_untyped a)).
    + destruct (a_typed a) as [|y l] eqn:El; [done|]. rewrite (proj2 (Z.eqb_neq _ 0)) by (cbn; lia). rewrite Nat2Z.id. cbn [length shift_up].
      destruct (reg m (64 - 1)) as [v|]; [|done]. cbn [mbind option_bind]. by rewrite Hout.
Qed.

Lemma message_builds_witness : ∃ m, append_all [ASingle 7; AUntyped 1; ADouble 8 9; AUntyped 2] empty_message = Some m ∧
  get_items_span (tag_of m) m = Some [1; 2; 7; 8; 9] ∧ at_untyped 1 m = Some 2.
Proof.
  destruct (message_builds [ASingle 7; AUntyped 1; ADouble 8 9; AUntyped 2]) as (m & H1 & _ & _ & H2 & H3); [cbn; lia|].
  exists m. split; [exact H1|]. split; [exact H2|]. by apply (H3 1%nat).
Defined.

Lemma message_overflow_witness : append_single 5 (message_tag 63 0 0 0 :: replicate 63 1) = None ∧
  append_untyped 5 (message_tag 63 0 0 0 :: replicate 63 1) = Some (5 :: replicate 63 1).
Proof.
  apply (message_overflow (message_tag 63 0 0 0 :: replicate 63 1) (Items 0 0 (replicate 63 1) []) 5); [|done].
  split; [|done]. by exists [].
Defined.
