(* ===== verification/Ipc.v ===== *)
(** * Sending messages between threads: [kern/task/thread/ipc_state.cc], [kern/task/ipc/syscall/ipc.cc]

    Every thread has one set of message registers, for what it sends and for
    what it receives, with two semaphores: [e_] for room and [f_] for a message.
    A wait that finds the count at 0 blocks: the operation has not changed
    anything and is tried again after a signal.  Messages of programs are
    objects at their addresses, and [umem] is the memory behind strings. *)

From S2P Require Import Prelude Types Links Fpage Message.

Definition MR_SIZE : Z := 64.
Definition BR_SIZE : Z := 33.

Record ipc_state := IpcState {
  mr_ : list Z;
  mr_count_ : Z;
  br_ : list Z;
  br_count_ : Z;
  parent_ : loc;
  sender_ : loc;
  f_ : Z;
  e_ : Z;
  lock_ : bool;
}.

Definition new_ipc_state (parent : loc) : ipc_state :=
  IpcState (replicate (Z.to_nat MR_SIZE) 0) 0 (replicate (Z.to_nat BR_SIZE) 0) 0 parent null 0 1 false.

Definition set_mrs l i := IpcState l (mr_count_ i) (br_ i) (br_count_ i) (parent_ i) (sender_ i) (f_ i) (e_ i) (lock_ i).
Definition set_mr_count n i := IpcState (mr_ i) n (br_ i) (br_count_ i) (parent_ i) (sender_ i) (f_ i) (e_ i) (lock_ i).
Definition set_brs l i := IpcState (mr_ i) (mr_count_ i) l (br_count_ i) (parent_ i) (sender_ i) (f_ i) (e_ i) (lock_ i).
Definition set_br_count n i := IpcState (mr_ i) (mr_count_ i) (br_ i) n (parent_ i) (sender_ i) (f_ i) (e_ i) (lock_ i).
Definition set_sender t i := IpcState (mr_ i) (mr_count_ i) (br_ i) (br_count_ i) (parent_ i) t (f_ i) (e_ i) (lock_ i).
Definition set_f n i := IpcState (mr_ i) (mr_count_ i) (br_ i) (br_count_ i) (parent_ i) (sender_ i) n (e_ i) (lock_ i).
Definition set_e n i := IpcState (mr_ i) (mr_count_ i) (br_ i) (br_count_ i) (parent_ i) (sender_ i) (f_ i) n (lock_ i).
Definition set_lock b i := IpcState (mr_ i) (mr_count_ i) (br_ i) (br_count_ i) (parent_ i) (sender_ i) (f_ i) (e_ i) b.

Record ipc := Ipc { states : gmap loc ipc_state; messages : gmap loc message; umem : gmap Z Z }.

(** What an operation that may wait returns. *)
Inductive outcome (A : Type) := Blocked | Done (r : result A).
Arguments Blocked {A}.
Arguments Done {A}.

Section ipc.
(** [fpage_grant] from the space of one thread to that of another. *)
Context (fpage_grant : loc → loc → Z → Z → ST ipc (result unit)).

Abbreviation IS := (ST ipc).

Definition plift {A} (o : option A) : IS A := λ s, match o with Some x => Some (x, s) | None => None end.
Definition state_of (t : loc) : IS ipc_state := λ s, plift (states s !! t) s.
Definition put_state (t : loc) (i : ipc_state) : IS unit := λ s, Some (tt, Ipc (<[t := i]> (states s)) (messages s) (umem s)).
Definition upd_state (t : loc) (f : ipc_state → ipc_state) : IS unit := i ← state_of t; put_state t (f i).
Definition message_at (p : loc) : IS message := λ s, plift (messages s !! p) s.
Definition put_message (p : loc) (m : message) : IS unit := λ s, Some (tt, Ipc (states s) (<[p := m]> (messages s)) (umem s)).

(** A spin lock that is held is not taken again: the kernel stops. *)
Definition acquire (t : loc) : IS unit := i ← state_of t; kassert (negb (lock_ i));; put_state t (set_lock true i).
Definition release (t : loc) : IS unit := upd_state t (set_lock false).

(** ** Registers *)

Definition get_mr (t : loc) (index : Z) : IS Z := i ← state_of t; plift (reg (mr_ i) index).
Definition get_br (t : loc) (index : Z) : IS Z := i ← state_of t; plift (reg (br_ i) index).
Definition set_br (t : loc) (index v : Z) : IS unit := i ← state_of t; l ← plift (set_reg index v (br_ i)); put_state t (set_brs l i).

Definition get_message_tag (t : loc) : IS Z := get_mr t 0.
Definition get_acceptor (t : loc) : IS Z := get_br t 0.

(** [memmove] of registers into an array; [None] is a write or a read outside of it. *)
Definition move_regs (start : Z) (l : list Z) (dst : list Z) : option (list Z) :=
  let n := Z.to_nat start in
  if (n + length l <=? length dst)%nat then Some (take n dst ++ l ++ drop (n + length l) dst) else None.
Definition regs_at (start cnt : Z) (l : list Z) : option (list Z) :=
  if start + cnt <=? Z.of_nat (length l) then Some (take (Z.to_nat cnt) (drop (Z.to_nat start) l)) else None.

Definition copy_mrs_to_locked (this another : loc) (st cnt : Z) : IS unit :=
  i ← state_of this;
  l ← plift (regs_at st cnt (mr_ i));
  a ← state_of another;
  r ← plift (move_regs st l (mr_ a));
  put_state another (set_mrs r a).

Definition load_mrs_locked (this : loc) (start : Z) (mrs : list Z) : IS unit :=
  i ← state_of this; r ← plift (move_regs start mrs (mr_ i)); put_state this (set_mrs r i).

(** The registers put into a span of [n]. *)
Definition store_mrs_locked (this : loc) (start n : Z) : IS (list Z) := i ← state_of this; plift (regs_at start n (mr_ i)).

Definition set_message_tag_locked (this tag : loc) : IS unit :=
  i ← state_of this; r ← plift (set_reg 0 tag (mr_ i)); put_state this (set_mr_count 1 (set_mrs r i)).
Definition set_acceptor (this acc : loc) : IS unit :=
  i ← state_of this; r ← plift (set_reg 0 acc (br_ i)); put_state this (set_br_count 1 (set_brs r i)).

(** ** Extended items *)

Fixpoint copy_bytes (n : nat) (from to : Z) (mem : gmap Z Z) : option (gmap Z Z) :=
  match n with
  | O => Some mem
  | S n => m ← copy_bytes n from to mem; b ← mem !! (from + Z.of_nat n); Some (<[to + Z.of_nat n := b]> m)
  end.
Definition memmove (from to len : Z) : IS unit := λ s,
  match copy_bytes (Z.to_nat len) from to (umem s) with
  | Some m => Some (tt, Ipc (states s) (messages s) m)
  | None => None
  end.

(** Both addresses are those of the current space. *)
Definition copy_string_locked (from : Z) (to_t : loc) (to len : Z) : IS (result unit) :=
  acquire to_t;;
  r ← (if negb (VALID_USER_PTR from) then mret (Err ERROR_INVALID_ACCESS) else
       if negb (VALID_USER_PTR to) then mret (Err ERROR_INVALID_ACCESS) else
       if negb (VALID_USER_PTR (from +w len -w 1)) then mret (Err ERROR_INVALID_ACCESS) else
       if negb (VALID_USER_PTR (to +w len -w 1)) then mret (Err ERROR_INVALID_ACCESS) else
       memmove from to len;; mret (Ok tt));
  release to_t;;
  mret r.

(** One item that gives pages away, at [idx]. *)
Definition send_pages (this to : loc) (acceptor idx : Z) : IS (result unit) :=
  raw0 ← get_mr this idx;
  raw1 ← get_mr this (idx + 1);
  r ← plift (get_send_receive_region acceptor (send_fpage_ raw1) (send_base_ raw0));
  acquire this;;
  copy_mrs_to_locked this to idx 1;;
  copy_mrs_to_locked this to (idx + 1) 1;;
  release this;;
  fpage_grant this to r.1 r.2.

(** One string; the new value of [br_index]. *)
Definition send_string (this to : loc) (idx br_index : Z) : IS (result Z) :=
  raw0 ← get_mr this idx;
  raw1 ← get_mr this (idx + 1);
  acquire this;;
  dst_br ← get_br this br_index;
  let br_index := br_index + 2 in
  b ← get_br this (br_index + 1);
  r ← (if negb (bool_decide (item_type b = Some STRING)) then mret (Err ERROR_INVALID) else
       if Z.shiftr b 10 <? string_len_ raw0 then mret (Err ERROR_INVALID) else
       c ← copy_string_locked (string_ptr raw1) to dst_br (string_len_ raw0);
       match c with
       | Err e => mret (Err e)
       | Ok _ => set_br this (br_index + 1) (Z.lor (wrap64 (Z.shiftl (string_len_ raw0) 10)) (Z.land b 0x3FF));; mret (Ok br_index)
       end);
  release this;;
  mret r.

(** The loop over the items: [idx] moves on by two for pages and stays for
    strings, where [br_index] moves on, so [fuel] of 128 is enough. *)
Fixpoint send_items (fuel : nat) (this to : loc) (acceptor tag idx br_index : Z) : IS (result unit) :=
  if idx <? t_ tag then
    match fuel with
    | O => st_fail
    | S fuel =>
        mr ← get_mr this idx;
        match item_type mr with
        | Some MAP | Some GRANT =>
            r ← send_pages this to acceptor idx;
            match r with Err e => mret (Err e) | Ok _ => send_items fuel this to acceptor tag (idx + 2) br_index end
        | Some STRING =>
            if negb (allow_string acceptor) then mret (Err ERROR_INVALID) else
            r ← send_string this to idx br_index;
            match r with Err e => mret (Err e) | Ok br_index => send_items fuel this to acceptor tag idx br_index end
        | None => mret (Err ERROR_INVALID)
        end
    end
  else mret (Ok tt).

(** The current thread is the one the registers belong to. *)
Definition send_extended_items (this to : loc) : IS (result unit) :=
  acceptor ← get_acceptor to;
  tag ← get_message_tag this;
  send_items 128 this to acceptor tag (u_ tag + 1) 1.

(** ** Sending and receiving *)

Definition send (this to : loc) : IS (outcome unit) :=
  d ← state_of to;
  if e_ d =? 0 then mret Blocked else
  put_state to (set_e (e_ d - 1) d);;
  acquire this;;
  i ← state_of this;
  upd_state to (set_sender (parent_ i));;
  copy_mrs_to_locked this to 0 MR_SIZE;;
  r ← send_extended_items this to;
  match r with
  | Err e => release this;; mret (Done (Err e))
  | Ok _ =>
      upd_state to (λ d, set_f (f_ d + 1) d);;
      release this;;
      mret (Done (Ok tt))
  end.

(** A message without items stops the kernel. *)
Definition take_message (this : loc) : IS (outcome unit) :=
  i ← state_of this;
  if f_ i =? 0 then mret Blocked else
  put_state this (set_f (f_ i - 1) i);;
  acquire this;;
  tag ← get_message_tag this;
  kassert (negb (t_ tag =? 0) || negb (u_ tag =? 0));;
  mret (Done (Ok tt)).

Definition receive (this from : loc) : IS (outcome unit) :=
  r ← take_message this;
  match r with
  | Blocked => mret Blocked
  | Done _ =>
      i ← state_of this;
      release this;;
      mret (Done (if negb (sender_ i =? from) then Err ERROR_IPC_NOT_THE_SENDER else Ok tt))
  end.

Definition wait (this : loc) : IS (outcome unit) :=
  r ← take_message this;
  match r with
  | Blocked => mret Blocked
  | Done _ => release this;; mret (Done (Ok tt))
  end.

Definition load_message (this msg : loc) : IS unit :=
  m ← message_at msg;
  acquire this;;
  set_message_tag_locked this (tag_of m);;
  l ← plift (get_items_span (tag_of m) m);
  load_mrs_locked this 1 l;;
  release this.

Definition store_message (this msg : loc) : IS unit :=
  acquire this;;
  tag ← get_message_tag this;
  m ← message_at msg;
  m ← plift (set_tag tag m);
  l ← store_mrs_locked this 1 (u_ tag + t_ tag);
  m ← plift (move_regs 1 l m);
  put_message msg m;;
  release this;;
  upd_state this (λ i, set_e (e_ i + 1) i).

(** ** System calls *)

(** [resolve] is [object_from_handle<thread>]; every error of the operation
    itself stops the kernel. *)
Context (resolve : Z → result loc).

Definition sys_ipc_load_message (cur msg : loc) : IS (result unit) :=
  if negb (VALID_USER_PTR msg) then mret (Err ERROR_INVALID) else load_message cur msg;; mret (Ok tt).
Definition sys_ipc_store (cur msg : loc) : IS (result unit) :=
  if negb (VALID_USER_PTR msg) then mret (Err ERROR_INVALID) else store_message cur msg;; mret (Ok tt).
Definition sys_ipc_accept (cur ptr acc : loc) : IS (result unit) :=
  if negb (VALID_USER_PTR ptr) then mret (Err ERROR_INVALID) else set_acceptor cur acc;; mret (Ok tt).

Definition must_succeed (o : outcome unit) : IS (outcome unit) :=
  match o with Done (Err _) => st_fail | _ => mret o end.

Definition sys_ipc_send (cur target_handle : loc) : IS (outcome unit) :=
  match resolve target_handle with
  | Err e => mret (Done (Err e))
  | Ok target => kassert (negb (target =? cur));; o ← send cur target; must_succeed o
  end.
Definition sys_ipc_receive (cur from_handle : loc) : IS (outcome unit) :=
  match resolve from_handle with
  | Err e => mret (Done (Err e))
  | Ok from => o ← receive cur from; must_succeed o
  end.
Definition sys_ipc_wait (cur : loc) : IS (outcome unit) := o ← wait cur; must_succeed o.

End ipc.
