(* ===== verification/IpcTheorems.v ===== *)
(** * Theorems about messages between threads *)

From S2P Require Import Prelude Types Links Fpage Message Ipc.

Create HintDb ipc.

Section ipc_theorems.
Context (fpage_grant : loc → loc → Z → Z → ST ipc (result unit)).
Implicit Types (s : ipc) (i d : ipc_state).

(** ** What the operations leave alone *)

Definition sems i : Z * Z := (e_ i, f_ i).
Definition same_sems s s' : Prop := ∀ k, sems <$> states s' !! k = sems <$> states s !! k.
Definition keeps {A} (c : ST ipc A) : Prop := ∀ s x s', c s = Some (x, s') → same_sems s s'.

Lemma keeps_ret {A} (x : A) : keeps (mret x).
Proof. intros s y s' [= <- <-] k. done. Qed.

Lemma keeps_bind {A B} (c : ST ipc A) (k : A → ST ipc B) : keeps c → (∀ x, keeps (k x)) → keeps (c ≫= k).
Proof. intros Hc Hk s y s' H. apply bind_inv in H as (x & s1 & H1 & H2). intros j. rewrite (Hk x s1 y s' H2 j). by apply (Hc s x s1). Qed.

Lemma keeps_lift {A} (o : option A) : keeps (plift o).
Proof. intros s x s' H j. destruct o; [|done]. by injection H as <- <-. Qed.

Lemma keeps_state t : keeps (state_of t).
Proof. intros s x s' H j. unfold state_of, plift in H. destruct (states s !! t); [|done]. by injection H as <- <-. Qed.

Lemma keeps_fail {A} : keeps (st_fail : ST ipc A).
Proof. intros s x s' H. done. Qed.

Lemma keeps_assert b : keeps (kassert b).
Proof. intros s x s' H. unfold kassert in H. destruct b; [|done]. by injection H as <- <-. Qed.

Lemma keeps_message p : keeps (message_at p).
Proof. intros s x s' H j. unfold message_at, plift in H. destruct (messages s !! p); [|done]. by injection H as <- <-. Qed.

Lemma keeps_put_message p m : keeps (put_message p m).
Proof. intros s x s' [= <- <-] j. done. Qed.

Lemma keeps_memmove a b n : keeps (memmove a b n).
Proof. intros s x s' H j. unfold memmove in H. destruct (copy_bytes _ _ _ _); [|done]. by injection H as <- <-. Qed.

Lemma state_inv t s i s' : state_of t s = Some (i, s') → s' = s ∧ states s !! t = Some i.
Proof. unfold state_of, plift. destruct (states s !! t); [|done]. by intros [= <- <-]. Qed.

Lemma plift_inv {A} (o : option A) s x s' : plift o s = Some (x, s') → s' = s ∧ o = Some x.
Proof. unfold plift. destruct o; [|done]. by intros [= <- <-]. Qed.

Lemma assert_inv b s x s' : kassert b s = Some (x, s') → s' = s ∧ b = true.
Proof. unfold kassert. destruct b; [|done]. by intros [= <- <-]. Qed.

(** A state put back with the same counts. *)
Lemma put_keeps t i i' s m u : states s !! t = Some i → sems i' = sems i → same_sems s (Ipc (<[t := i']> (states s)) m u).
Proof.
  intros Hi He j. cbn. destruct (decide (j = t)) as [->|Hj]; [rewrite lookup_insert_eq, Hi; cbn; by rewrite He|by rewrite lookup_insert_ne].
Qed.

Ltac step_inv H :=
  let x := fresh "x" in let s1 := fresh "s" in let E := fresh "E" in
  apply bind_inv in H as (x & s1 & E & H);
  first [apply state_inv in E as (-> & E) | apply plift_inv in E as (-> & E) | apply assert_inv in E as (-> & E)].

Lemma acquire_keeps t : keeps (acquire t).
Proof. intros s x s' H. unfold acquire in H. do 2 step_inv H. injection H as <- <-. by eapply put_keeps. Qed.

Lemma upd_keeps t f : (∀ i, sems (f i) = sems i) → keeps (upd_state t f).
Proof. intros Hf s x s' H. unfold upd_state in H. step_inv H. injection H as <- <-. by eapply put_keeps. Qed.

Lemma copy_keeps a b st n : keeps (copy_mrs_to_locked a b st n).
Proof. intros s x s' H. unfold copy_mrs_to_locked in H. do 4 step_inv H. injection H as <- <-. by eapply put_keeps. Qed.

Lemma load_mrs_keeps t st l : keeps (load_mrs_locked t st l).
Proof. intros s x s' H. unfold load_mrs_locked in H. do 2 step_inv H. injection H as <- <-. by eapply put_keeps. Qed.

Lemma tag_keeps t tag : keeps (set_message_tag_locked t tag).
Proof. intros s x s' H. unfold set_message_tag_locked in H. do 2 step_inv H. injection H as <- <-. by eapply put_keeps. Qed.

Lemma acceptor_keeps t acc : keeps (set_acceptor t acc).
Proof. intros s x s' H. unfold set_acceptor in H. do 2 step_inv H. injection H as <- <-. by eapply put_keeps. Qed.

Lemma br_keeps t n v : keeps (set_br t n v).
Proof. intros s x s' H. unfold set_br in H. do 2 step_inv H. injection H as <- <-. by eapply put_keeps. Qed.

Hint Resolve keeps_ret keeps_lift keeps_state keeps_fail keeps_assert keeps_message keeps_put_message keeps_memmove acquire_keeps copy_keeps
  load_mrs_keeps tag_keeps acceptor_keeps br_keeps : ipc.
Hint Extern 1 (keeps (upd_state _ _)) => apply upd_keeps; intros ?; reflexivity : ipc.
Hint Extern 1 (keeps (release _)) => apply upd_keeps; intros ?; reflexivity : ipc.

Ltac keep := repeat first
  [ progress auto with ipc | apply keeps_bind; [|intros ?] | case_match ].

Lemma load_message_keeps t p : keeps (load_message t p).
Proof. unfold load_message. keep. Qed.

Hypothesis grant_keeps : ∀ a b x y, keeps (fpage_grant a b x y).

Lemma get_mr_keeps t n : keeps (get_mr t n).
Proof. unfold get_mr. keep. Qed.

Lemma get_br_keeps t n : keeps (get_br t n).
Proof. unfold get_br. keep. Qed.

Hint Resolve get_mr_keeps get_br_keeps grant_keeps : ipc.

Lemma send_pages_keeps a b acc idx : keeps (send_pages fpage_grant a b acc idx).
Proof. unfold send_pages. keep. Qed.

Lemma copy_string_keeps from t to len : keeps (copy_string_locked from t to len).
Proof. unfold copy_string_locked. keep. Qed.

Hint Resolve send_pages_keeps copy_string_keeps : ipc.

Lemma send_string_keeps a b idx br : keeps (send_string a b idx br).
Proof. unfold send_string. keep. Qed.

Hint Resolve send_string_keeps : ipc.

Lemma send_items_keeps n a b acc tag : ∀ idx br, keeps (send_items fpage_grant n a b acc tag idx br).
Proof. induction n as [|n IH]; intros idx br; cbn [send_items]; keep. Qed.

Lemma extended_keeps a b : keeps (send_extended_items fpage_grant a b).
Proof. unfold send_extended_items, get_acceptor, get_message_tag. keep. apply send_items_keeps. Qed.

(** ** The mailbox of a thread *)

(** The operations of programs.  [R] are the threads that have taken a message
    and not yet stored it; a thread stores after it has taken a message only. *)
Inductive mail_step : ipc → gset loc → ipc → gset loc → Prop :=
  | step_load t p s s' R : load_message t p s = Some (tt, s') → mail_step s R s' R
  | step_accept t acc s s' R : set_acceptor t acc s = Some (tt, s') → mail_step s R s' R
  | step_send t to s s' R : t ≠ to → send fpage_grant t to s = Some (Done (Ok tt), s') → mail_step s R s' R
  | step_receive t from s s' R : receive t from s = Some (Done (Ok tt), s') → mail_step s R s' ({[t]} ∪ R)
  | step_wait t s s' R : wait t s = Some (Done (Ok tt), s') → mail_step s R s' ({[t]} ∪ R)
  | step_store t p s s' R : t ∈ R → store_message t p s = Some (tt, s') → mail_step s R s' (R ∖ {[t]}).

Inductive mail_reach : ipc → gset loc → Prop :=
  | reach_start s : (∀ t i, states s !! t = Some i → i = new_ipc_state t) → mail_reach s ∅
  | reach_step s R s' R' : mail_reach s R → mail_step s R s' R' → mail_reach s' R'.

Definition reads (R : gset loc) (t : loc) : Z := if decide (t ∈ R) then 1 else 0.
Definition mail_inv s (R : gset loc) : Prop := ∀ t i, states s !! t = Some i → e_ i + f_ i + reads R t = 1 ∧ 0 <= e_ i ∧ 0 <= f_ i.

Lemma same_sems_inv s s' R : same_sems s s' → mail_inv s R → mail_inv s' R.
Proof.
  intros Hs Hi t i Ht. specialize (Hs t). rewrite Ht in Hs. cbn in Hs. destruct (states s !! t) as [j|] eqn:Ej; [|done].
  injection Hs as E1 E2. specialize (Hi t j Ej). rewrite E1, E2. done.
Qed.

Lemma same_sems_trans s1 s2 s3 : same_sems s1 s2 → same_sems s2 s3 → same_sems s1 s3.
Proof. intros H1 H2 k. by rewrite H2, H1. Qed.

(** The counts of the thread [t] become [c] and all others stay. *)
Definition counted s (t : loc) (c : Z * Z) s' : Prop := ∀ k, sems <$> states s' !! k = if decide (k = t) then Some c else sems <$> states s !! k.

Lemma put_counted t i s m u : counted s t (sems i) (Ipc (<[t := i]> (states s)) m u).
Proof. intros k. cbn. destruct (decide (k = t)) as [->|Hk]; [by rewrite lookup_insert_eq|by rewrite lookup_insert_ne]. Qed.

Lemma counted_same s t c s1 s2 : counted s t c s1 → same_sems s1 s2 → counted s t c s2.
Proof. intros H1 H2 k. by rewrite H2, H1. Qed.

Lemma counted_twice s t c s1 c' s2 : counted s t c s1 → counted s1 t c' s2 → counted s t c' s2.
Proof. intros H1 H2 k. rewrite H2. destruct (decide (k = t)) as [|Hk]; [done|]. rewrite H1. by rewrite decide_False. Qed.

Lemma counted_inv s t c s' i : counted s t c s' → states s' !! t = Some i → sems i = c.
Proof. intros H Hi. specialize (H t). rewrite Hi, decide_True in H by done. by injection H. Qed.

Lemma send_counts t to s s' : send fpage_grant t to s = Some (Done (Ok tt), s') →
  ∃ d, states s !! to = Some d ∧ e_ d ≠ 0 ∧ counted s to (e_ d - 1, f_ d + 1) s'.
Proof.
  intros H. unfold send in H. step_inv H. rename x into d. exists d. split; [done|]. destruct (Z.eqb_spec (e_ d) 0) as [|He]; [done|]. split; [done|].
  apply bind_inv in H as ([] & s1 & E1 & H). injection E1 as <-. set (s1 := Ipc _ _ _) in H.
  assert (counted s to (e_ d - 1, f_ d) s1) as C1 by apply (put_counted to (set_e (e_ d - 1) d)).
  apply bind_inv in H as ([] & s2 & E2 & H). step_inv H. apply bind_inv in H as ([] & s3 & E3 & H). apply bind_inv in H as ([] & s4 & E4 & H).
  apply bind_inv in H as (r & s5 & E5 & H).
  assert (same_sems s1 s5) as K1.
  { eapply same_sems_trans; [by eapply acquire_keeps|]. eapply same_sems_trans; [eapply upd_keeps; [|exact E3]; done|].
    eapply same_sems_trans; [by eapply copy_keeps|by eapply extended_keeps]. }
  destruct r as [e|[]]; [by apply bind_inv in H as (? & ? & _ & H)|]. apply bind_inv in H as ([] & s6 & E6 & H). apply bind_inv in H as ([] & s7 & E7 & H).
  injection H as <-. pose proof (counted_same _ _ _ _ _ C1 K1) as C5. unfold upd_state in E6. step_inv E6. injection E6 as <-.
  pose proof (counted_inv _ _ _ _ _ C5 E1) as Ex. injection Ex as Ex1 Ex2.
  eapply counted_same; [|eapply upd_keeps; [|exact E7]; done]. eapply counted_twice; [exact C5|]. rewrite <- Ex1, <- Ex2. apply (put_counted to (set_f (f_ x0 + 1) x0)).
Qed.

Lemma take_counts t s r s' : take_message t s = Some (Done r, s') → ∃ i, states s !! t = Some i ∧ f_ i ≠ 0 ∧ counted s t (e_ i, f_ i - 1) s'.
Proof.
  intros H. unfold take_message in H. step_inv H. rename x into i. exists i. split; [done|]. destruct (Z.eqb_spec (f_ i) 0) as [|Hf]; [done|]. split; [done|].
  apply bind_inv in H as ([] & s1 & E1 & H). injection E1 as <-. eapply counted_same; [apply (put_counted t (set_f (f_ i - 1) i))|].
  apply bind_inv in H as ([] & s2 & E2 & H). eapply same_sems_trans; [by eapply acquire_keeps|]. apply bind_inv in H as (tag & s3 & E3 & H).
  eapply same_sems_trans; [by eapply get_mr_keeps|]. step_inv H. injection H as <- <-. done.
Qed.

Lemma receive_counts t from s r s' : receive t from s = Some (Done r, s') → ∃ i, states s !! t = Some i ∧ f_ i ≠ 0 ∧ counted s t (e_ i, f_ i - 1) s'.
Proof.
  intros H. unfold receive in H. apply bind_inv in H as ([|r1] & s1 & E & H); [done|]. destruct (take_counts _ _ _ _ E) as (i & H1 & H2 & H3).
  exists i. split; [done|]. split; [done|]. step_inv H. apply bind_inv in H as ([] & s2 & E2 & H). injection H as <- <-.
  eapply counted_same; [exact H3|]. eapply upd_keeps; [|exact E2]. done.
Qed.

Lemma wait_counts t s r s' : wait t s = Some (Done r, s') → ∃ i, states s !! t = Some i ∧ f_ i ≠ 0 ∧ counted s t (e_ i, f_ i - 1) s'.
Proof.
  intros H. unfold wait in H. apply bind_inv in H as ([|r1] & s1 & E & H); [done|]. destruct (take_counts _ _ _ _ E) as (i & H1 & H2 & H3).
  exists i. split; [done|]. split; [done|]. apply bind_inv in H as ([] & s2 & E2 & H). injection H as <- <-.
  eapply counted_same; [exact H3|]. eapply upd_keeps; [|exact E2]. done.
Qed.

Lemma store_counts t p s s' : store_message t p s = Some (tt, s') → ∃ i, states s !! t = Some i ∧ counted s t (e_ i + 1, f_ i) s'.
Proof.
  intros H. unfold store_message in H. apply bind_inv in H as ([] & s1 & E1 & H). apply bind_inv in H as (tag & s2 & E2 & H).
  apply bind_inv in H as (m & s3 & E3 & H). step_inv H. apply bind_inv in H as (l & s4 & E4 & H). step_inv H.
  apply bind_inv in H as ([] & s5 & E5 & H). apply bind_inv in H as ([] & s6 & E6 & H).
  assert (same_sems s s6) as K.
  { eapply same_sems_trans; [by eapply acquire_keeps|]. eapply same_sems_trans; [by eapply get_mr_keeps|]. eapply same_sems_trans; [by eapply keeps_message|].
    eapply same_sems_trans; [|eapply same_sems_trans; [by eapply keeps_put_message|eapply upd_keeps; [|exact E6]; done]].
    unfold store_mrs_locked in E4. step_inv E4. apply plift_inv in E4 as (-> & _). done. }
  unfold upd_state in H. step_inv H. injection H as <-. specialize (K t) as Kt. rewrite E7 in Kt. cbn in Kt.
  destruct (states s !! t) as [i|] eqn:Ei; [|done]. exists i. split; [done|]. injection Kt as K1 K2.
  intros k. rewrite (put_counted t (set_e (e_ x1 + 1) x1) s6). cbn. rewrite K, <- K1, <- K2. done.
Qed.

Lemma counted_mail s R t i c s' R' : mail_inv s R → states s !! t = Some i → counted s t c s' →
  (fst c + snd c + reads R' t = 1 ∧ 0 <= fst c ∧ 0 <= snd c) → (∀ k, k ≠ t → reads R' k = reads R k) → mail_inv s' R'.
Proof.
  intros Hi Ht Hc Hn HR k j Hk. specialize (Hc k). rewrite Hk in Hc. cbn in Hc. destruct (decide (k = t)) as [->|Hne].
  - injection Hc as Ec. rewrite <- Ec in Hn. done.
  - destruct (states s !! k) as [j'|] eqn:Ej; [|done]. injection Hc as E1 E2. specialize (Hi k j' Ej). rewrite E1, E2, HR by done. done.
Qed.

Lemma reads_add R t k : k ≠ t → reads ({[t]} ∪ R) k = reads R k.
Proof. intros Hk. unfold reads. destruct (decide (k ∈ {[t]} ∪ R)), (decide (k ∈ R)); set_solver. Qed.

Lemma reads_remove R t k : k ≠ t → reads (R ∖ {[t]}) k = reads R k.
Proof. intros Hk. unfold reads. destruct (decide (k ∈ R ∖ {[t]})), (decide (k ∈ R)); set_solver. Qed.

Lemma mail_step_inv s R s' R' : mail_step s R s' R' → mail_inv s R → mail_inv s' R'.
Proof.
  assert (∀ t R, reads ({[t]} ∪ R) t = 1) as Ha by (intros; unfold reads; rewrite decide_True by set_solver; done).
  assert (∀ t R, reads (R ∖ {[t]}) t = 0) as Hr by (intros; unfold reads; rewrite decide_False by set_solver; done).
  assert (∀ t R, 0 <= reads R t) as H0 by (intros; unfold reads; by destruct (decide _)).
  intros Hst Hi. destruct Hst as [t p s s' R H|t acc s s' R H|t to s s' R Hne H|t from s s' R H|t s s' R H|t p s s' R Hin H].
  - eapply same_sems_inv; [|done]. by eapply load_message_keeps.
  - eapply same_sems_inv; [|done]. by eapply acceptor_keeps.
  - destruct (send_counts _ _ _ _ H) as (d & Hd & He & Hc). destruct (Hi to d Hd) as (I1 & I2 & I3). eapply counted_mail; [done..| |done]. cbn. lia.
  - destruct (receive_counts _ _ _ _ _ H) as (i & Hd & He & Hc). destruct (Hi t i Hd) as (I1 & I2 & I3). specialize (H0 t R).
    eapply counted_mail; [done..| |intros k Hk; by apply reads_add]. cbn. rewrite Ha. lia.
  - destruct (wait_counts _ _ _ _ H) as (i & Hd & He & Hc). destruct (Hi t i Hd) as (I1 & I2 & I3). specialize (H0 t R).
    eapply counted_mail; [done..| |intros k Hk; by apply reads_add]. cbn. rewrite Ha. lia.
  - destruct (store_counts _ _ _ _ H) as (i & Hd & Hc). destruct (Hi t i Hd) as (I1 & I2 & I3).
    assert (reads R t = 1) as Hone by (unfold reads; by rewrite decide_True).
    eapply counted_mail; [done..| |intros k Hk; by apply reads_remove]. cbn. rewrite Hr. lia.
Qed.

Lemma mail_reach_inv s R : mail_reach s R → mail_inv s R.
Proof.
  induction 1 as [s Hs|s R s' R' _ IH Hst]; [|by eapply mail_step_inv].
  intros t i Ht. rewrite (Hs t i Ht). unfold reads. rewrite decide_False by set_solver. cbn. lia.
Qed.


(** ** What a message does *)

Record thread_ok t i : Prop := {
  ok_mr : length (mr_ i) = Z.to_nat MR_SIZE;
  ok_br : length (br_ i) = Z.to_nat BR_SIZE;
  ok_lock : lock_ i = false;
  ok_parent : parent_ i = t;
}.

Definition with_state (t : loc) i s : ipc := Ipc (<[t := i]> (states s)) (messages s) (umem s).

Lemma state_run t i s : states s !! t = Some i → state_of t s = Some (i, s).
Proof. intros H. unfold state_of, plift. by rewrite H. Qed.

Lemma state_with t i s : state_of t (with_state t i s) = Some (i, with_state t i s).
Proof. apply state_run. cbn. apply lookup_insert_eq. Qed.

Lemma with_twice t i i' s : with_state t i' (with_state t i s) = with_state t i' s.
Proof. unfold with_state. cbn. by rewrite insert_insert_eq. Qed.

Lemma acquire_run t i s : states s !! t = Some i → lock_ i = false → acquire t s = Some (tt, with_state t (set_lock true i) s).
Proof. intros H Hl. unfold acquire. rewrite (bind_run _ _ _ _ _ (state_run t i s H)). rewrite Hl. done. Qed.

Lemma release_run t i s : states s !! t = Some i → release t s = Some (tt, with_state t (set_lock false i) s).
Proof. intros H. unfold release, upd_state. by rewrite (bind_run _ _ _ _ _ (state_run t i s H)). Qed.

Lemma unlocked i : lock_ i = false → set_lock false i = i.
Proof. destruct i. cbn. by intros ->. Qed.

(** The registers after a message was loaded into them. *)
Definition loaded_regs (a : items) (l : list Z) : list Z := tag_for a :: a_untyped a ++ a_typed a ++ drop (S (count_of a)) l.

Lemma load_regs a l : length l = 64%nat → (count_of a <= 63)%nat →
  ∃ r, set_reg 0 (tag_for a) l = Some r ∧ move_regs 1 (a_untyped a ++ a_typed a) r = Some (loaded_regs a l).
Proof.
  intros Hl Hc. destruct l as [|x l]; [done|]. exists (tag_for a :: l). split; [exact (set_tag_cons (tag_for a) x l)|].
  unfold move_regs. rewrite length_app. fold (count_of a). cbn [length] in *. rewrite (proj2 (Nat.leb_le _ _)) by (cbn; lia).
  unfold loaded_regs. cbn. by rewrite <- app_assoc.
Qed.

Lemma load_run t p s i m a : states s !! t = Some i → thread_ok t i → messages s !! p = Some m → represents m a →
  load_message t p s = Some (tt, with_state t (set_mr_count 1 (set_mrs (loaded_regs a (mr_ i)) i)) s).
Proof.
  intros Hi [O1 O2 O3 O4] Hm Hr. destruct (load_regs a (mr_ i) O1 (represents_count _ _ Hr)) as (r & H1 & H2).
  unfold load_message. rewrite (bind_run _ _ s m s) by (unfold message_at, plift; by rewrite Hm).
  rewrite (bind_run _ _ _ _ _ (acquire_run t i s Hi O3)). set (i1 := set_lock true i).
  rewrite (bind_run _ _ _ tt (with_state t (set_mr_count 1 (set_mrs r i1)) s)).
  2:{ unfold set_message_tag_locked. rewrite (bind_run _ _ _ _ _ (state_with t i1 s)). rewrite (proj1 (represents_tag _ _ Hr)).
      rewrite (bind_run _ _ _ r (with_state t i1 s)) by (unfold plift; cbn [mr_ i1 set_lock]; by rewrite H1). unfold put_state. f_equal. f_equal. exact (with_twice _ _ _ _). }
  set (i2 := set_mr_count 1 (set_mrs r i1)). rewrite (bind_run _ _ _ (a_untyped a ++ a_typed a) (with_state t i2 s)).
  2:{ unfold plift. by rewrite (represents_span _ _ Hr). }
  set (i3 := set_mrs (loaded_regs a (mr_ i)) i2). rewrite (bind_run _ _ _ tt (with_state t i3 s)).
  2:{ unfold load_mrs_locked. rewrite (bind_run _ _ _ _ _ (state_with t i2 s)).
      rewrite (bind_run _ _ _ (loaded_regs a (mr_ i)) (with_state t i2 s)) by (unfold plift; cbn [mr_ i2 set_mr_count set_mrs]; by rewrite H2).
      unfold put_state. f_equal. f_equal. exact (with_twice _ _ _ _). }
  rewrite (release_run t i3) by (cbn; apply lookup_insert_eq). rewrite with_twice. do 2 f_equal. unfold i3, i2, i1, set_mr_count, set_mrs, set_lock. cbn. by rewrite O3.
Qed.

Lemma with_comm t to i d s : t ≠ to → with_state t i (with_state to d s) = with_state to d (with_state t i s).
Proof. intros H. unfold with_state. cbn. by rewrite insert_insert_ne. Qed.

Lemma with_same t i s : states s !! t = Some i → with_state t i s = s.
Proof. intros H. unfold with_state. rewrite insert_id by done. by destruct s. Qed.

Lemma regs_all (l l' : list Z) n : length l = Z.to_nat n → 0 <= n → length l' = Z.to_nat n → regs_at 0 n l = Some l ∧ move_regs 0 l l' = Some l.
Proof.
  intros Hl H0 Hl'. split.
  - unfold regs_at. rewrite (proj2 (Z.leb_le _ _)) by lia. change (drop (Z.to_nat 0) l) with l. by rewrite take_ge by lia.
  - unfold move_regs. change (Z.to_nat 0) with O. rewrite (proj2 (Nat.leb_le _ _)) by lia. cbn [Nat.add take app]. rewrite drop_ge by lia. by rewrite app_nil_r.
Qed.

Lemma reg_some (l : list Z) (n : Z) : 0 <= n < Z.of_nat (length l) → ∃ v, reg l n = Some v.
Proof. intros H. unfold reg. rewrite (proj2 (Z.ltb_ge _ _)) by lia. apply lookup_lt_is_Some_2. lia. Qed.

(** The part of [send] up to the extended items: the state it is in then. *)
Definition copied t i s (to : loc) d : ipc := with_state t (set_lock true i) (with_state to (set_mrs (mr_ i) (set_sender t (set_e (e_ d - 1) d))) s).

Lemma send_start t to s i d : t ≠ to → states s !! t = Some i → states s !! to = Some d → thread_ok t i → thread_ok to d → e_ d ≠ 0 →
  send fpage_grant t to s = (r ← send_extended_items fpage_grant t to;
    match r with
    | Err e => release t;; mret (Done (Err e))
    | Ok _ => upd_state to (λ d, set_f (f_ d + 1) d);; release t;; mret (Done (Ok tt))
    end) (copied t i s to d).
Proof.
  intros Hne Hi Hd [O1 O2 O3 O4] [Q1 Q2 Q3 Q4] He. unfold send. rewrite (bind_run _ _ _ _ _ (state_run to d s Hd)). rewrite (proj2 (Z.eqb_neq _ _) He).
  set (d1 := set_e (e_ d - 1) d). rewrite (bind_run _ _ _ tt (with_state to d1 s)) by done. set (i1 := set_lock true i).
  assert (states (with_state to d1 s) !! t = Some i) as Ht by (cbn; by rewrite lookup_insert_ne). rewrite (bind_run _ _ _ _ _ (acquire_run t i _ Ht O3)). fold i1.
  assert (∀ x, states (with_state t i1 (with_state to x s)) !! t = Some i1) as Lt by (intros; cbn; apply lookup_insert_eq).
  assert (∀ x, states (with_state t i1 (with_state to x s)) !! to = Some x) as Lto by (intros; cbn; rewrite lookup_insert_ne by done; apply lookup_insert_eq).
  assert (∀ x y, with_state to y (with_state t i1 (with_state to x s)) = with_state t i1 (with_state to y s)) as Wto by (intros; rewrite with_comm, with_twice by done; by rewrite with_comm).
  rewrite (bind_run _ _ _ _ _ (state_run t i1 _ (Lt d1))). change (parent_ i1) with (parent_ i). rewrite O4.
  rewrite (bind_run _ _ _ tt (with_state t i1 (with_state to (set_sender t d1) s))).
  2:{ unfold upd_state. rewrite (bind_run _ _ _ _ _ (state_run to d1 _ (Lto d1))). unfold put_state. f_equal. f_equal. apply Wto. }
  rewrite (bind_run _ _ _ tt (copied t i s to d)); [done|]. unfold copy_mrs_to_locked. set (d2 := set_sender t d1). rewrite (bind_run _ _ _ _ _ (state_run t i1 _ (Lt d2))).
  change (mr_ i1) with (mr_ i). destruct (regs_all (mr_ i) (mr_ d) MR_SIZE O1 ltac:(done) Q1) as (R1 & R2).
  rewrite (bind_run _ _ _ (mr_ i) (with_state t i1 (with_state to d2 s))) by (unfold plift; by rewrite R1).
  rewrite (bind_run _ _ _ _ _ (state_run to d2 _ (Lto d2))). change (mr_ d2) with (mr_ d).
  rewrite (bind_run _ _ _ (mr_ i) (with_state t i1 (with_state to d2 s))) by (unfold plift; by rewrite R2).
  unfold put_state. f_equal. f_equal. apply Wto.
Qed.

Lemma register_run t i s n v (l : ipc_state → list Z) : states s !! t = Some i → reg (l i) n = Some v → (i ← state_of t; plift (reg (l i) n)) s = Some (v, s).
Proof. intros H Hr. rewrite (bind_run _ _ _ _ _ (state_run t i s H)). unfold plift. by rewrite Hr. Qed.

Definition sent (t : loc) i d : ipc_state := set_f (f_ d + 1) (set_mrs (mr_ i) (set_sender t (set_e (e_ d - 1) d))).

(** The items that are looked at are those with an index from [u_ + 1] up to [t_]. *)
Lemma extended_start t to s i d tag : t ≠ to → thread_ok to d → reg (mr_ i) 0 = Some tag →
  ∃ acc, send_extended_items fpage_grant t to (copied t i s to d) = send_items fpage_grant 128 t to acc tag (u_ tag + 1) 1 (copied t i s to d).
Proof.
  intros Hne [Q1 Q2 Q3 Q4] Ht. destruct (reg_some (br_ d) 0) as (acc & Ha); [rewrite Q2; unfold BR_SIZE; lia|]. exists acc. unfold send_extended_items, get_acceptor, get_message_tag, get_mr, get_br.
  rewrite (bind_run _ _ _ acc (copied t i s to d)).
  2:{ eapply (register_run to _ _ 0 acc br_); [unfold copied, with_state; cbn; rewrite lookup_insert_ne by done; apply lookup_insert_eq|done]. }
  by rewrite (bind_run _ _ _ tag (copied t i s to d)) by (eapply (register_run t _ _ 0 tag mr_); [apply lookup_insert_eq|done]).
Qed.

Lemma send_items_done n t to acc tag idx br s : t_ tag <= idx → send_items fpage_grant n t to acc tag idx br s = Some (Ok tt, s).
Proof. intros H. destruct n; cbn [send_items]; by rewrite (proj2 (Z.ltb_ge _ _)). Qed.

Lemma send_run t to s i d tag : t ≠ to → states s !! t = Some i → states s !! to = Some d → thread_ok t i → thread_ok to d → e_ d ≠ 0 →
  reg (mr_ i) 0 = Some tag → t_ tag <= u_ tag + 1 → send fpage_grant t to s = Some (Done (Ok tt), with_state to (sent t i d) s).
Proof.
  intros Hne Hi Hd Ot Oto He Ht Hu. rewrite (send_start t to s i d) by done. destruct (extended_start t to s i d tag Hne Oto Ht) as (acc & Hx).
  rewrite (bind_run _ _ _ (Ok tt) (copied t i s to d)).
  2:{ rewrite Hx. apply send_items_done. lia. }
  set (d3 := set_mrs (mr_ i) (set_sender t (set_e (e_ d - 1) d))). unfold copied. fold d3. set (i1 := set_lock true i).
  rewrite (bind_run _ _ _ tt (with_state t i1 (with_state to (set_f (f_ d3 + 1) d3) s))).
  2:{ unfold upd_state. rewrite (bind_run _ _ _ d3 (with_state t i1 (with_state to d3 s))).
      - unfold put_state. do 2 f_equal. change (with_state to (set_f (f_ d3 + 1) d3) (with_state t i1 (with_state to d3 s)) = with_state t i1 (with_state to (set_f (f_ d3 + 1) d3) s)).
        rewrite with_comm, with_twice by done. by rewrite with_comm.
      - apply state_run. cbn. rewrite lookup_insert_ne by done. apply lookup_insert_eq. }
  rewrite (bind_run _ _ _ tt (with_state to (sent t i d) s)); [done|]. rewrite (release_run t i1) by (cbn; apply lookup_insert_eq).
  rewrite with_twice. do 2 f_equal. change (set_lock false i1) with (set_lock false i). rewrite (unlocked i) by apply Ot. rewrite with_comm by done. by rewrite (with_same t i s).
Qed.

(** Computations that do not change the state and then stop. *)
Lemma bind_stop {A B} (c : ST ipc A) (k : A → ST ipc B) s : (∀ x s', c s = Some (x, s') → s' = s) → (∀ x, k x s = None) → (c ≫= k) s = None.
Proof. intros Hc Hk. unfold mbind, ST_bind. destruct (c s) as [(x & s')|] eqn:E; [|done]. rewrite (Hc x s' eq_refl). apply Hk. Qed.

Lemma get_mr_same t n s x s' : get_mr t n s = Some (x, s') → s' = s.
Proof. unfold get_mr. intros H. step_inv H. by apply plift_inv in H as (-> & _). Qed.

Lemma pages_stop t to acc idx s : acquire t s = None → send_pages fpage_grant t to acc idx s = None.
Proof.
  intros Ha. unfold send_pages. apply bind_stop; [apply get_mr_same|]. intros x. apply bind_stop; [apply get_mr_same|]. intros y.
  apply bind_stop; [intros z s' H; by apply plift_inv in H as (-> & _)|]. intros z. by apply bind_none.
Qed.

Lemma string_stops t to idx br s : acquire t s = None → send_string t to idx br s = None.
Proof.
  intros Ha. unfold send_string. apply bind_stop; [apply get_mr_same|]. intros x. apply bind_stop; [apply get_mr_same|]. intros y. by apply bind_none.
Qed.

Lemma items_stop n t to acc tag idx br s : acquire t s = None → idx < t_ tag →
  send_items fpage_grant (S n) t to acc tag idx br s = None ∨ send_items fpage_grant (S n) t to acc tag idx br s = Some (Err ERROR_INVALID, s).
Proof.
  intros Ha Hi. cbn [send_items]. rewrite (proj2 (Z.ltb_lt _ _) Hi). destruct (get_mr t idx s) as [(x & s')|] eqn:E.
  2:{ left. by apply bind_none. }
  pose proof (get_mr_same _ _ _ _ _ E) as ->. rewrite !(bind_run _ _ _ _ _ E). destruct (item_type x) as [[]|]; [| | |by right].
  - destruct (allow_string acc); [|by right]. left. cbn [negb]. apply bind_none. by apply string_stops.
  - left. apply bind_none. by apply pages_stop.
  - left. apply bind_none. by apply pages_stop.
Qed.

(** Strings and pages are never sent.  A message whose tag makes [send] look at
    a typed item is refused as invalid or stops the kernel, because every item
    takes the lock that [send] already holds; and it looks only at items whose
    index is below the number of typed items, so all others are sent as plain
    registers, without the pages or the string they stand for. *)
Theorem extended_items_fail t to s i d tag : t ≠ to → states s !! t = Some i → states s !! to = Some d → thread_ok t i → thread_ok to d → e_ d ≠ 0 →
  reg (mr_ i) 0 = Some tag →
  if decide (u_ tag + 1 < t_ tag)
  then send fpage_grant t to s = None ∨ ∃ s', send fpage_grant t to s = Some (Done (Err ERROR_INVALID), s')
  else send fpage_grant t to s = Some (Done (Ok tt), with_state to (sent t i d) s).
Proof.
  intros Hne Hi Hd Ot Oto He Ht. destruct (decide _) as [Hx|Hx]; [|apply (send_run t to s i d tag); done || lia].
  rewrite (send_start t to s i d) by done. destruct (extended_start t to s i d tag Hne Oto Ht) as (acc & Hs).
  set (S := copied t i s to d) in *. assert (states S !! t = Some (set_lock true i)) as Lt by apply lookup_insert_eq.
  assert (acquire t S = None) as Ha by (unfold acquire; by rewrite (bind_run _ _ _ _ _ (state_run t _ S Lt))).
  destruct (items_stop 127 t to acc tag (u_ tag + 1) 1 S Ha Hx) as [Hn|He2].
  - left. apply bind_none. by rewrite Hs.
  - right. exists (with_state t (set_lock false (set_lock true i)) S). rewrite (bind_run _ _ S (Err ERROR_INVALID) S) by (by rewrite Hs).
    by rewrite (bind_run _ _ _ _ _ (release_run t _ S Lt)).
Qed.

Lemma receive_run t from s i tag : states s !! t = Some i → thread_ok t i → f_ i ≠ 0 → reg (mr_ i) 0 = Some tag → u_ tag ≠ 0 ∨ t_ tag ≠ 0 →
  sender_ i = from → receive t from s = Some (Done (Ok tt), with_state t (set_f (f_ i - 1) i) s).
Proof.
  intros Hi [O1 O2 O3 O4] Hf Ht Hn Hs. set (i1 := set_f (f_ i - 1) i). set (i2 := set_lock true i1).
  unfold receive. rewrite (bind_run _ _ _ (Done (Ok tt)) (with_state t i2 s)).
  - rewrite (bind_run _ _ _ _ _ (state_with t i2 s)). change (sender_ i2) with (sender_ i). rewrite Hs, Z.eqb_refl.
    rewrite (bind_run _ _ _ tt (with_state t i1 s)); [done|]. rewrite (release_run t i2) by apply lookup_insert_eq. rewrite with_twice.
    do 2 f_equal. change (set_lock false i2) with (set_lock false i1). by rewrite (unlocked i1).
  - unfold take_message. rewrite (bind_run _ _ _ _ _ (state_run t i s Hi)). rewrite (proj2 (Z.eqb_neq _ _) Hf).
    rewrite (bind_run _ _ _ tt (with_state t i1 s)) by done. rewrite (bind_run _ _ _ tt (with_state t i2 s)).
    2:{ rewrite (acquire_run t i1); [by rewrite with_twice|apply lookup_insert_eq|done]. }
    rewrite (bind_run _ _ _ tag (with_state t i2 s)) by (eapply (register_run t _ _ 0 tag mr_); [apply lookup_insert_eq|done]).
    rewrite (bind_run _ _ _ tt (with_state t i2 s)); [done|]. unfold kassert. destruct (Z.eqb_spec (t_ tag) 0), (Z.eqb_spec (u_ tag) 0); done || lia.
Qed.

(** Storing a message: the object holds the items of the registers. *)
Lemma store_run t p s i m a : states s !! t = Some i → thread_ok t i → represents (mr_ i) a → messages s !! p = Some m → length m = Z.to_nat REGS_PER_MESSAGE →
  ∃ m', store_message t p s = Some (tt, Ipc (<[t := set_e (e_ i + 1) i]> (states s)) (<[p := m']> (messages s)) (umem s)) ∧ represents m' a.
Proof.
  intros Hi [O1 O2 O3 O4] Hr Hm Hl. destruct (represents_tag _ _ Hr) as (Et & Eu & Ety). pose proof (represents_count _ _ Hr) as Hc.
  assert (reg (mr_ i) 0 = Some (tag_of (mr_ i))) as Htag by (unfold reg, tag_of; cbn; destruct (mr_ i); [unfold MR_SIZE in O1; cbn in O1; lia|done]).
  assert (regs_at 1 (u_ (tag_of (mr_ i)) + t_ (tag_of (mr_ i))) (mr_ i) = Some (a_untyped a ++ a_typed a)) as Hat.
  { pose proof (represents_span _ _ Hr) as Hs. unfold get_items_span in Hs. unfold regs_at. rewrite Eu, Ety in *. unfold count_of, MR_SIZE in *.
    rewrite (proj2 (Z.leb_le _ _)) by lia. by rewrite (proj2 (Nat.ltb_lt _ _)) in Hs by lia. }
  destruct (load_regs a m Hl Hc) as (r & H1 & H2). exists (loaded_regs a m). split.
  2:{ split; [by eexists|]. unfold loaded_regs, REGS_PER_MESSAGE in *. cbn. rewrite !length_app, length_drop. fold (count_of a). unfold count_of in *. lia. }
  unfold store_message. rewrite (bind_run _ _ _ _ _ (acquire_run t i s Hi O3)). set (i1 := set_lock true i). set (s1 := with_state t i1 s).
  rewrite (bind_run _ _ _ (tag_of (mr_ i)) s1) by (eapply (register_run t _ _ 0 _ mr_); [apply lookup_insert_eq|done]).
  rewrite (bind_run _ _ _ m s1) by (unfold message_at, plift; cbn; by rewrite Hm).
  rewrite (bind_run _ _ _ r s1) by (unfold plift, set_tag; by rewrite Et, H1).
  rewrite (bind_run _ _ _ (a_untyped a ++ a_typed a) s1).
  2:{ unfold store_mrs_locked. rewrite (bind_run _ _ _ _ _ (state_with t i1 s)). unfold plift. cbn [mr_ i1 set_lock]. by rewrite Hat. }
  rewrite (bind_run _ _ _ (loaded_regs a m) s1) by (unfold plift; by rewrite H2).
  set (s2 := Ipc (states s1) (<[p := loaded_regs a m]> (messages s)) (umem s)). rewrite (bind_run _ _ _ tt s2) by done.
  assert (states s2 !! t = Some i1) as Hi2 by apply lookup_insert_eq. rewrite (bind_run _ _ _ _ _ (release_run t i1 s2 Hi2)).
  unfold upd_state. rewrite (bind_run _ _ _ _ _ (state_with t _ s2)). change (set_lock false i1) with (set_lock false i). rewrite (unlocked i O3).
  unfold put_state, with_state. cbn. by rewrite !insert_insert_eq.
Qed.

Lemma loaded_represents a l : length l = 64%nat → (count_of a <= 63)%nat → represents (loaded_regs a l) a.
Proof.
  intros Hl Hc. split; [by eexists|]. unfold loaded_regs, REGS_PER_MESSAGE. cbn. rewrite !length_app, length_drop. unfold count_of in *. lia.
Qed.

Lemma represents_reg m a : represents m a → reg m 0 = Some (tag_of m).
Proof. intros [(rest & ->) _]. done. Qed.

(** A message that [send] passes on as it is. *)
Definition plain_items (a : items) : Prop := (0 < count_of a)%nat ∧ (length (a_typed a) <= S (length (a_untyped a)))%nat.

(** A thread whose registers hold [a] sends them to [to], which takes and stores them. *)
Lemma pass_message t to s i d a q m : t ≠ to → states s !! t = Some i → states s !! to = Some d → thread_ok t i → thread_ok to d →
  represents (mr_ i) a → plain_items a → e_ d = 1 → f_ d = 0 → messages s !! q = Some m → length m = Z.to_nat REGS_PER_MESSAGE →
  ∃ s1 s2 s3 m' d', send fpage_grant t to s = Some (Done (Ok tt), s1) ∧ receive to t s1 = Some (Done (Ok tt), s2) ∧ store_message to q s2 = Some (tt, s3) ∧
    messages s3 !! q = Some m' ∧ represents m' a ∧ states s3 !! to = Some d' ∧ e_ d' = 1 ∧ f_ d' = 0.
Proof.
  intros Hne Hi Hd Ot Oto Hr (Hc & Hp) He Hf Hm Hl. destruct (represents_tag _ _ Hr) as (_ & Eu & Ety). unfold count_of in Hc.
  pose proof (represents_reg _ _ Hr) as Hreg. assert (thread_ok to (sent t i d)) as Os by (destruct Ot, Oto; by split).
  set (d1 := sent t i d) in *. set (s1 := with_state to d1 s). assert (states s1 !! to = Some d1) as L1 by apply lookup_insert_eq.
  set (d2 := set_f (f_ d1 - 1) d1). set (s2 := with_state to d2 s1). assert (states s2 !! to = Some d2) as L2 by apply lookup_insert_eq.
  assert (thread_ok to d2) as O2 by (destruct Os; by split).
  destruct (store_run to q s2 d2 m a L2 O2 Hr Hm Hl) as (m' & Hst & Hr'). eexists s1, s2, _, m', _.
  split; [apply (send_run t to s i d (tag_of (mr_ i))); done || lia|].
  split; [apply (receive_run to t s1 d1 (tag_of (mr_ i))); try done; [cbn; lia|destruct (a_untyped a); [right|left]; cbn in *; lia]|].
  split; [exact Hst|]. cbn. split; [apply lookup_insert_eq|]. split; [done|]. split; [apply lookup_insert_eq|]. cbn. lia.
Qed.


(** A message that was loaded may not be the one that is sent.  A thread has one
    set of registers: when another thread sends to it between its loading a
    message and its sending it, what it sends is the other thread's message. *)
Theorem draft_overwritten t to other s i d o p1 m1 a1 p2 m2 a2 q m0 : t ≠ to → t ≠ other → to ≠ other →
  states s !! t = Some i → states s !! to = Some d → states s !! other = Some o → thread_ok t i → thread_ok to d → thread_ok other o →
  messages s !! p1 = Some m1 → represents m1 a1 → messages s !! p2 = Some m2 → represents m2 a2 → plain_items a2 →
  e_ i = 1 → e_ d = 1 → f_ d = 0 → messages s !! q = Some m0 → length m0 = Z.to_nat REGS_PER_MESSAGE →
  ∃ s1 s2 s3 s4 s5 s6 m', load_message t p1 s = Some (tt, s1) ∧ load_message other p2 s1 = Some (tt, s2) ∧ send fpage_grant other t s2 = Some (Done (Ok tt), s3) ∧
    send fpage_grant t to s3 = Some (Done (Ok tt), s4) ∧ receive to t s4 = Some (Done (Ok tt), s5) ∧ store_message to q s5 = Some (tt, s6) ∧
    messages s6 !! q = Some m' ∧ represents m' a2.
Proof.
  intros N1 N2 N3 Hi Hd Ho Ot Oto Oo Hm1 Hr1 Hm2 Hr2 Hp Ei Ed Fd Hq Hl. pose proof (load_run t p1 s i m1 a1 Hi Ot Hm1 Hr1) as L1.
  set (i1 := set_mr_count 1 (set_mrs (loaded_regs a1 (mr_ i)) i)) in *. set (s1 := with_state t i1 s) in *.
  assert (represents (mr_ i1) a1) as R1 by (apply loaded_represents; [apply Ot|by eapply represents_count]).
  assert (thread_ok t i1) as O1 by (destruct Ot; split; try done; apply R1).
  assert (states s1 !! other = Some o) as Ho1 by (cbn; by rewrite lookup_insert_ne). pose proof (load_run other p2 s1 o m2 a2 Ho1 Oo Hm2 Hr2) as L2.
  set (o2 := set_mr_count 1 (set_mrs (loaded_regs a2 (mr_ o)) o)) in *. set (s2 := with_state other o2 s1) in *.
  assert (represents (mr_ o2) a2) as R2 by (apply loaded_represents; [apply Oo|by eapply represents_count]).
  assert (thread_ok other o2) as O2 by (destruct Oo; split; try done; apply R2).
  destruct (represents_tag _ _ R2) as (_ & Eu & Ety). set (i3 := sent other o2 i1). set (s3 := with_state t i3 s2).
  assert (send fpage_grant other t s2 = Some (Done (Ok tt), s3)) as S3.
  { apply (send_run other t s2 o2 i1 (tag_of (mr_ o2))); try done; [apply lookup_insert_eq|cbn; rewrite lookup_insert_ne by done; apply lookup_insert_eq
      |cbn; lia|destruct Hp; lia]. }
  assert (thread_ok t i3) as O3 by (destruct O1; split; try done; apply R2).
  destruct (pass_message t to s3 i3 d a2 q m0 N1) as (s4 & s5 & s6 & m' & d' & H4 & H5 & H6 & H7 & H8 & _); try done.
  { apply lookup_insert_eq. } { cbn. by rewrite !lookup_insert_ne. }
  by exists s1, s2, s3, s4, s5, s6, m'.
Qed.

End ipc_theorems.

(** ** Witnesses *)

(** Three threads, and messages with the items 5, 6 and 7 and with the item 9. *)
Definition ex_message1 : message := message_tag 3 0 0 0 :: [5; 6; 7] ++ replicate 60 0.
Definition ex_message2 : message := message_tag 1 0 0 4 :: [9] ++ replicate 62 0.
Definition ex_ipc : ipc :=
  Ipc {[1 := new_ipc_state 1; 2 := new_ipc_state 2; 3 := new_ipc_state 3]} {[0x10 := ex_message1; 0x20 := ex_message2; 0x30 := empty_message]} ∅.
Definition no_grant (a b : loc) (x y : Z) : ST ipc (result unit) := mret (Err ERROR_INVALID).

Lemma ex_thread_ok t : thread_ok t (new_ipc_state t).
Proof. by split. Qed.

Lemma ex_represents1 : represents ex_message1 (Items 0 0 [5; 6; 7] []).
Proof. split; [|done]. by exists (replicate 60 0). Qed.

Lemma ex_represents2 : represents ex_message2 (Items 0 4 [9] []).
Proof. split; [|done]. by exists (replicate 62 0). Qed.


Lemma draft_overwritten_witness : ∃ s1 s2 s3 s4 s5 s6 m', load_message 1 0x10 ex_ipc = Some (tt, s1) ∧ load_message 3 0x20 s1 = Some (tt, s2) ∧
  send no_grant 3 1 s2 = Some (Done (Ok tt), s3) ∧ send no_grant 1 2 s3 = Some (Done (Ok tt), s4) ∧ receive 2 1 s4 = Some (Done (Ok tt), s5) ∧
  store_message 2 0x30 s5 = Some (tt, s6) ∧ messages s6 !! 0x30 = Some m' ∧ represents m' (Items 0 4 [9] []).
Proof.
  apply (draft_overwritten no_grant 1 2 3 ex_ipc (new_ipc_state 1) (new_ipc_state 2) (new_ipc_state 3) 0x10 ex_message1 (Items 0 0 [5; 6; 7] [])
    0x20 ex_message2 (Items 0 4 [9] []) 0x30 empty_message);
    [done|done|done|done|done|done|apply ex_thread_ok|apply ex_thread_ok|apply ex_thread_ok|done|apply ex_represents1|done|apply ex_represents2
    |split; cbn; lia|done|done|done|done|done].
Defined.

(** A message with three typed registers: a string. *)
Lemma extended_items_fail_witness :
  let i := set_mrs (message_tag 0 3 0 0 :: replicate 63 0) (new_ipc_state 1) in
  let s := Ipc {[1 := i; 2 := new_ipc_state 2]} ∅ ∅ in
  send no_grant 1 2 s = None ∨ ∃ s', send no_grant 1 2 s = Some (Done (Err ERROR_INVALID), s').
Proof.
  pose proof (extended_items_fail no_grant 1 2 (Ipc {[1 := set_mrs (message_tag 0 3 0 0 :: replicate 63 0) (new_ipc_state 1); 2 := new_ipc_state 2]} ∅ ∅)
    (set_mrs (message_tag 0 3 0 0 :: replicate 63 0) (new_ipc_state 1)) (new_ipc_state 2) (message_tag 0 3 0 0)) as H.
  rewrite decide_True in H by done. apply H; [done|done|done|by split|apply ex_thread_ok|done|done].
Defined.

Lemma ex_sent : ∃ s1 s2 d, load_message 1 0x10 ex_ipc = Some (tt, s1) ∧ send no_grant 1 2 s1 = Some (Done (Ok tt), s2) ∧ states s2 !! 2 = Some d ∧ f_ d = 1.
Proof.
  destruct (load_message 1 0x10 ex_ipc) as [([] & s1)|] eqn:E1; [|by vm_compute in E1].
  destruct (send no_grant 1 2 s1) as [([|[|[]]] & s2)|] eqn:E2.
  4: by vm_compute in E1; injection E1 as <-; vm_compute in E2.
  1, 2: by vm_compute in E1; injection E1 as <-; vm_compute in E2.
  destruct (states s2 !! 2) as [d|] eqn:E3.
  - exists s1, s2, d. split; [done|]. split; [done|]. split; [done|]. vm_compute in E1. injection E1 as <-. vm_compute in E2. injection E2 as <-. vm_compute in E3. by injection E3 as <-.
  - vm_compute in E1. injection E1 as <-. vm_compute in E2. injection E2 as <-. by vm_compute in E3.
Qed.

