(* ===== verification/Spinlock.v ===== *)
(** * Spin locks: [kern/arch/amd64/lock/arch_spinlock.cc], [kbl/lock/spinlock.cc]

    Processors run the operations on one lock concurrently.  An operation is a
    list of instructions, each of them one access to the lock or one change of
    the processor's interrupt flag, and a step is one instruction of one
    processor, so that a sequence of steps is an interleaving.  The saved state
    of [arch_interrupt_save] is the interrupt flag: the other flags are restored
    as they were.  Accesses take effect in the order of the sequence; names and
    the recorded call stacks are left out.  The processor-local storage is set
    up, so that [this_cpu_id] is the number of the processor. *)

From S2P Require Import Prelude.

(** ** Processors and the lock *)

Inductive instr :=
  | SaveFlags       (* the value of [arch_interrupt_save()] *)
  | StoreState      (* its assignment to [state_], [intr] *)
  | AssertNotHeld
  | Exchange        (* [__atomic_compare_exchange_n(&value, 0, id + 1)] *)
  | Yield           (* [cpu_yield()] and the load of the inner loop *)
  | TryExchange
  | AssertHeld
  | StoreZero
  | LoadState
  | RestoreFlags    (* [arch_interrupt_restore] *)
  | Halt.           (* [for (;;);] of [dump_lock_panic] *)

#[export] Instance instr_eq : EqDecision instr.
Proof. solve_decision. Defined.

(** [code]: the instructions that remain of the call under way.  [reg]: the
    flag held in a register between two of them.  [inside]: whether the program
    has come out of [lock] or a successful [try_lock] and not yet released the
    lock. *)
Record proc := Proc { code : list instr; reg : bool; intr : bool; inside : bool }.

Record spin := Spin { value : Z; state_ : bool; procs : gmap nat proc }.

Definition set_code v p := Proc v (reg p) (intr p) (inside p).

(** [val] *)
Definition lock_id (c : nat) : Z := Z.of_nat c + 1.

Definition arch_spinlock_cpu (σ : spin) : Z := value σ - 1.

Definition holding (c : nat) (σ : spin) : bool := negb (value σ =? 0) && (arch_spinlock_cpu σ =? Z.of_nat c).

(** ** Operations *)

Definition arch_spinlock_lock : list instr := [Exchange].
Definition arch_spinlock_try_lock : list instr := [TryExchange].
Definition arch_spinlock_unlock : list instr := [StoreZero].

Inductive call := Lock | Unlock | TryLock | Acquire (pres_intr : bool) | Release (pres_intr : bool).

Definition body (f : call) : list instr :=
  match f with
  | Lock => [SaveFlags; StoreState; AssertNotHeld] ++ arch_spinlock_lock
  | Unlock => [AssertHeld] ++ arch_spinlock_unlock ++ [LoadState; RestoreFlags]
  | TryLock => arch_spinlock_try_lock
  | Acquire pres_intr => [AssertNotHeld] ++ (if pres_intr then [SaveFlags; StoreState] else []) ++ arch_spinlock_lock
  | Release pres_intr => [AssertHeld] ++ arch_spinlock_unlock ++ (if pres_intr then [LoadState; RestoreFlags] else [])
  end.

(** What the instruction [i] of processor [c] does to the lock and to the
    processor, whose remaining code is [rest]. *)
Definition execute (c : nat) (i : instr) (rest : list instr) (p : proc) (σ : spin) : Z * bool * proc :=
  let next := set_code rest p in
  let same p := (value σ, state_ σ, p) in
  match i with
  | SaveFlags => same (Proc rest (intr p) false (inside p))
  | StoreState => (value σ, reg p, next)
  | AssertNotHeld => same (if holding c σ then set_code [Halt] p else next)
  | Exchange =>
      if value σ =? 0 then (lock_id c, state_ σ, Proc rest (reg p) (intr p) true)
      else same (set_code (Yield :: Exchange :: rest) p)
  | Yield => same (if value σ =? 0 then next else p)
  | TryExchange => if value σ =? 0 then (lock_id c, state_ σ, Proc rest (reg p) (intr p) true) else same next
  | AssertHeld => same (if holding c σ then next else set_code [Halt] p)
  | StoreZero => (0, state_ σ, Proc rest (reg p) (intr p) false)
  | LoadState => same (Proc rest (state_ σ) (intr p) (inside p))
  | RestoreFlags => same (Proc rest (reg p) (intr p || reg p) (inside p))
  | Halt => same p
  end.

(** ** Interleavings *)

(** One step: processor [c] calls an operation or goes on with the one it is
    in. *)
Inductive event := Call (c : nat) (f : call) | Step (c : nat).

Definition step (e : event) (σ : spin) : option spin :=
  match e with
  | Call c f =>
      match procs σ !! c with
      | Some p => if decide (code p = []) then Some (Spin (value σ) (state_ σ) (<[c := set_code (body f) p]> (procs σ))) else None
      | None => None
      end
  | Step c =>
      match procs σ !! c with
      | Some p =>
          match code p with
          | i :: rest => let '(v, st, p') := execute c i rest p σ in Some (Spin v st (<[c := p']> (procs σ)))
          | [] => None
          end
      | None => None
      end
  end.

Fixpoint steps (es : list event) (σ : spin) : option spin :=
  match es with
  | [] => Some σ
  | e :: es => match step e σ with Some σ' => steps es σ' | None => None end
  end.

(** The lock as it is constructed, with idle processors whose interrupts are on
    or off. *)
Definition initial (σ : spin) : Prop :=
  value σ = 0 ∧ ∀ c p, procs σ !! c = Some p → code p = [] ∧ inside p = false.

(** ** Ownership *)

(** The code can run in a processor that owns the lock ([o]) or not: it
    exchanges only without owning the lock and releases only what it owns,
    given that its assertions hold. *)
Fixpoint fits (o : bool) (l : list instr) : bool :=
  match l with
  | [] => true
  | AssertNotHeld :: l => fits false l
  | Exchange :: l => negb o && fits true l
  | TryExchange :: l => fits true l && fits o l
  | AssertHeld :: l => fits true l
  | StoreZero :: l => o && fits false l
  | Halt :: l => true
  | _ :: l => fits o l
  end.

Record owned (σ : spin) : Prop := Owned {
  owned_fits c p : procs σ !! c = Some p → fits (inside p) (code p) = true;
  owned_value c p : procs σ !! c = Some p → (inside p = true ↔ value σ = lock_id c);
  owned_free : value σ = 0 ∨ ∃ c p, procs σ !! c = Some p ∧ inside p = true;
}.

Lemma lock_id_inj c d : lock_id c = lock_id d → c = d.
Proof. unfold lock_id. lia. Qed.

Lemma lock_id_pos c : lock_id c ≠ 0.
Proof. unfold lock_id. lia. Qed.

Lemma holding_spec c σ : holding c σ = true ↔ value σ = lock_id c.
Proof. unfold holding, arch_spinlock_cpu, lock_id. lia. Qed.

Lemma initial_owned σ : initial σ → owned σ.
Proof.
  intros [Hv Hp]. split.
  - intros c p H. by rewrite (proj1 (Hp c p H)).
  - intros c p H. rewrite (proj2 (Hp c p H)), Hv. pose proof (lock_id_pos c). split; [done|lia].
  - by left.
Qed.

(** A step changes one processor, and the owner accordingly. *)
Lemma owned_update σ c p v st p' :
  owned σ → procs σ !! c = Some p → fits (inside p') (code p') = true →
  (v = value σ ∧ inside p' = inside p ∨
   value σ = 0 ∧ v = lock_id c ∧ inside p' = true ∨
   value σ = lock_id c ∧ v = 0 ∧ inside p' = false) →
  owned (Spin v st (<[c := p']> (procs σ))).
Proof.
  intros [Hf Hv Hn] Hc Hp Hcase. pose proof (lock_id_pos c) as Hpos.
  split; cbn.
  - intros d q. destruct (decide (c = d)) as [<-|]; [rewrite lookup_insert_eq; by intros [= <-]|].
    rewrite lookup_insert_ne by done. apply Hf.
  - intros d q. destruct (decide (c = d)) as [<-|Hne].
    + rewrite lookup_insert_eq. intros [= <-]. pose proof (Hv c p Hc).
      destruct Hcase as [(-> & ->)|[(? & -> & ->)|(? & -> & ->)]]; [done|done|]. split; [done|lia].
    + rewrite lookup_insert_ne by done. intros Hd. rewrite (Hv d q Hd). pose proof (lock_id_pos d).
      destruct Hcase as [(-> & _)|[(-> & -> & _)|(-> & -> & _)]]; [done| |].
      * split; [lia|]. intros E%lock_id_inj. congruence.
      * split; [intros E%lock_id_inj; congruence|lia].
  - destruct Hcase as [(-> & Hi)|[(_ & _ & Hi)|(_ & -> & _)]]; [|right; exists c, p'; by rewrite lookup_insert_eq|by left].
    destruct Hn as [Hn|(d & q & Hd & Hq)]; [by left|right].
    destruct (decide (c = d)) as [<-|]; [exists c, p'; rewrite lookup_insert_eq; split; congruence|].
    exists d, q. by rewrite lookup_insert_ne.
Qed.

Lemma body_fits f o : fits o (body f) = true.
Proof. destruct f as [| | |[]|[]], o; reflexivity. Qed.

Lemma execute_owned σ c p i rest v st p' :
  owned σ → procs σ !! c = Some p → code p = i :: rest → execute c i rest p σ = (v, st, p') →
  owned (Spin v st (<[c := p']> (procs σ))).
Proof.
  intros HI Hc Hp He. pose proof (owned_fits σ HI c p Hc) as Hf. pose proof (owned_value σ HI c p Hc) as Hv.
  apply owned_update with p; [done|done|..]; rewrite Hp in Hf; pose proof (holding_spec c σ) as Hh;
    destruct i; cbn in He, Hf; unfold set_code in He;
    repeat match type of He with
    | context [if ?b then _ else _] => destruct b eqn:?
    end; injection He as <- <- <-; cbn; rewrite ?Hp; cbn; try done;
    try (destruct (inside p); naive_solver lia); by apply andb_prop in Hf as [].
Qed.

Lemma step_owned e σ σ' : owned σ → step e σ = Some σ' → owned σ'.
Proof.
  intros HI. destruct e as [c f|c]; cbn; (destruct (procs σ !! c) as [p|] eqn:Hc; [|done]).
  - case_decide; [|done]. intros [= <-]. eapply owned_update; [done|done|apply body_fits|by left].
  - destruct (code p) as [|i rest] eqn:Hp; [done|].
    destruct (execute c i rest p σ) as [[v st] p'] eqn:He. intros [= <-]. by eapply execute_owned.
Qed.

Lemma steps_owned es σ σ' : owned σ → steps es σ = Some σ' → owned σ'.
Proof.
  revert σ. induction es as [|e es IH]; cbn; intros σ HI; [by intros [= <-]|].
  destruct (step e σ) as [σ1|] eqn:E; [|done]. apply IH. by eapply step_owned.
Qed.

(** ** Programs that use the lock properly *)

(** [lock] outside of the critical section, [unlock] inside of it. *)
Definition polite (e : event) (σ : spin) : bool :=
  match e with
  | Step _ => true
  | Call c f =>
      match procs σ !! c with
      | Some p =>
          match f with
          | Lock => negb (inside p)
          | Unlock => inside p
          | _ => false
          end
      | None => true
      end
  end.

Fixpoint polite_run (es : list event) (σ : spin) : bool :=
  match es with
  | [] => true
  | e :: es => polite e σ && match step e σ with Some σ' => polite_run es σ' | None => true end
  end.

(** The code keeps interrupts ([q]: they are on) off while the lock is owned
    ([o]), and its assertions hold. *)
Fixpoint calm (o q : bool) (l : list instr) : bool :=
  negb (o && q) &&
  match l with
  | [] => true
  | SaveFlags :: l => calm o false l
  | AssertNotHeld :: l => negb o && calm false q l
  | Exchange :: l => calm true q l
  | AssertHeld :: l => o && calm true q l
  | StoreZero :: l => calm false q l
  | RestoreFlags :: l => negb o && calm o q l && calm o true l
  | TryExchange :: _ | Halt :: _ => false
  | _ :: l => calm o q l
  end.

Definition calm_proc (p : proc) : Prop := calm (inside p) (intr p) (code p) = true.

Lemma calm_body f p :
  calm (inside p) (intr p) [] = true → (f = Lock ∧ inside p = false ∨ f = Unlock ∧ inside p = true) →
  calm_proc (set_code (body f) p).
Proof. unfold calm_proc. cbn. destruct p as [l [] [] []]; intros ? [[-> ?]|[-> ?]]; done. Qed.

Lemma calm_off p : calm_proc p → inside p = true → intr p = false.
Proof. unfold calm_proc. destruct (code p), (inside p), (intr p); done. Qed.

Lemma calm_halt p : calm_proc p → Halt ∉ code p.
Proof.
  unfold calm_proc. generalize (inside p) (intr p). induction (code p) as [|i l IH]; [intros o q _ H; by apply elem_of_nil in H|].
  intros o q H Hin. apply elem_of_cons in Hin as [<-|Hin]; cbn in H; [by rewrite andb_false_r in H|].
  apply andb_prop in H as [_ H].
  destruct i; repeat match goal with H : _ && _ = true |- _ => apply andb_prop in H as [] end; try done; by eapply IH.
Qed.

Lemma execute_calm σ c p i rest v st p' :
  owned σ → procs σ !! c = Some p → code p = i :: rest → execute c i rest p σ = (v, st, p') →
  calm_proc p → calm_proc p'.
Proof.
  intros HI Hc Hp He. pose proof (owned_value σ HI c p Hc) as Hv. pose proof (holding_spec c σ) as Hh.
  unfold calm_proc. rewrite Hp. intros H. cbn in H. apply andb_prop in H as [Ho H].
  destruct i; cbn in He; unfold set_code in He;
    repeat match type of He with context [if ?b then _ else _] => destruct b eqn:? end;
    injection He as _ _ <-; cbn; rewrite ?Hp; cbn; rewrite ?Ho; try done;
    repeat match goal with H : _ && _ = true |- _ => apply andb_prop in H as [] end; try done.
  all: destruct (inside p), (intr p), (reg p); naive_solver.
Qed.

Definition calm_state (σ : spin) : Prop := ∀ c p, procs σ !! c = Some p → calm_proc p.

Lemma step_calm e σ σ' : owned σ → calm_state σ → polite e σ = true → step e σ = Some σ' → calm_state σ'.
Proof.
  intros HI HC. destruct e as [c f|c]; cbn; (destruct (procs σ !! c) as [p|] eqn:Hc; [|done]).
  - intros Hf. case_decide as Hn; [|done]. intros [= <-] d q. cbn.
    destruct (decide (c = d)) as [<-|]; [|rewrite lookup_insert_ne by done; apply HC].
    rewrite lookup_insert_eq. intros [= <-]. apply calm_body.
    + pose proof (HC c p Hc) as H. unfold calm_proc in H. by rewrite Hn in H.
    + destruct f; try done; [left|right]; by destruct (inside p).
  - intros _. destruct (code p) as [|i rest] eqn:Hp; [done|].
    destruct (execute c i rest p σ) as [[v st] p'] eqn:He. intros [= <-] d q. cbn.
    destruct (decide (c = d)) as [<-|]; [|rewrite lookup_insert_ne by done; apply HC].
    rewrite lookup_insert_eq. intros [= <-]. eapply execute_calm; [done..|]. by apply HC with c.
Qed.

Lemma steps_calm es σ σ' : owned σ → calm_state σ → polite_run es σ = true → steps es σ = Some σ' → calm_state σ'.
Proof.
  revert σ. induction es as [|e es IH]; cbn; intros σ HI HC; [by intros _ [= <-]|]. intros [Hp Hr]%andb_prop.
  destruct (step e σ) as [σ1|] eqn:E; [|done]. apply IH; [by eapply step_owned|by eapply step_calm|done].
Qed.

(** ** Theorems *)

(** C11: in every interleaving of calls on any number of processors, whatever
    the programs call, at most one processor is between taking and releasing
    the lock; [holding] tells each processor whether it is the one, and the
    lock is free exactly when there is none. *)
Theorem lock_exclusive es σ σ' :
  initial σ → steps es σ = Some σ' →
  (∀ c d p q, procs σ' !! c = Some p → procs σ' !! d = Some q → inside p = true → inside q = true → c = d) ∧
  (∀ c p, procs σ' !! c = Some p → holding c σ' = inside p) ∧
  (value σ' = 0 ↔ ∀ c p, procs σ' !! c = Some p → inside p = false).
Proof.
  intros HI%initial_owned Hs. pose proof (steps_owned es σ σ' HI Hs) as [_ Hv Hn]. split_and!.
  - intros c d p q Hc Hd Hp Hq. apply (Hv c p Hc) in Hp. apply (Hv d q Hd) in Hq. apply lock_id_inj. congruence.
  - intros c p Hc. apply eq_true_iff_eq. by rewrite holding_spec, (Hv c p Hc).
  - split.
    + intros H0 c p Hc. destruct (inside p) eqn:E; [|done]. apply (Hv c p Hc) in E. pose proof (lock_id_pos c). lia.
    + intros H. destruct Hn as [?|(c & p & Hc & Hp)]; [done|]. by rewrite (H c p Hc) in Hp.
Qed.

(** C38: programs that call [lock] outside of the critical section and [unlock]
    inside of it never run into the panic of an assertion, on any number of
    processors and in any interleaving, and run the critical section with
    interrupts off. *)
Theorem lock_never_stops es σ σ' c p :
  initial σ → polite_run es σ = true → steps es σ = Some σ' → procs σ' !! c = Some p →
  (Halt ∉ code p) ∧ (inside p = true → intr p = false).
Proof.
  intros Hi Hp Hs Hc. pose proof (initial_owned σ Hi) as HI. destruct Hi as [_ Hi].
  assert (calm_proc p) as H.
  { refine (steps_calm es σ σ' HI _ Hp Hs c p Hc). intros d q Hd. destruct (Hi d q Hd) as [Hq Hin].
    unfold calm_proc. by rewrite Hq, Hin. }
  split; [by apply calm_halt|by apply calm_off].
Qed.

Lemma call_run c f v st m p :
  m !! c = Some p → code p = [] → step (Call c f) (Spin v st m) = Some (Spin v st (<[c := set_code (body f) p]> m)).
Proof. intros Hc Hp. cbn. by rewrite Hc, decide_True. Qed.

Lemma step_run c v st m p i rest :
  m !! c = Some p → code p = i :: rest →
  step (Step c) (Spin v st m) = let '(v', st', p') := execute c i rest p (Spin v st m) in Some (Spin v' st' (<[c := p']> m)).
Proof. intros Hc Hp. cbn. by rewrite Hc, Hp. Qed.

(** Runs a processor whose lookup is at hand. *)
Ltac lookup_proc := repeat (rewrite lookup_insert_eq || rewrite lookup_insert_ne by done); first [eassumption|reflexivity].
Ltac go :=
  repeat (cbn [steps];
    first [erewrite call_run by first [lookup_proc|assumption|reflexivity]
          |erewrite step_run by first [lookup_proc|assumption|reflexivity]];
    cbn [execute code set_code body arch_spinlock_lock arch_spinlock_unlock app reg intr inside value state_ procs];
    rewrite ?Z.eqb_refl).

(** The steps of [lock] without waiting, and of [unlock]. *)
Definition enter (c : nat) : list event := Call c Lock :: replicate 4 (Step c).
Definition leave (c : nat) : list event := Call c Unlock :: replicate 4 (Step c).

Lemma holding_free c st m : holding c (Spin 0 st m) = false.
Proof. done. Qed.

Lemma holding_self c st m : holding c (Spin (lock_id c) st m) = true.
Proof. by apply holding_spec. Qed.

Lemma enter_leave c v st m p :
  m !! c = Some p → code p = [] → v = 0 →
  ∃ p', steps (enter c ++ leave c) (Spin v st m) = Some (Spin 0 (intr p) (<[c := p']> m)) ∧
    code p' = [] ∧ inside p' = false ∧ intr p' = intr p.
Proof.
  intros Hc Hp ->. unfold enter, leave. cbn [replicate app]. go. rewrite holding_free. go. rewrite holding_self. go.
  rewrite !insert_insert_eq. eexists. split; [reflexivity|done].
Qed.

Lemma crossed_leave a b v st m p q :
  a ≠ b → m !! a = Some p → m !! b = Some q → code p = [] → code q = [] → v = 0 →
  ∃ p' σ', steps (enter a ++ [Call b Lock; Step b; Step b] ++ leave a) (Spin v st m) = Some σ' ∧
    procs σ' !! a = Some p' ∧ code p' = [] ∧ inside p' = false ∧ intr p' = intr q.
Proof.
  intros Hne Ha Hb Hp Hq ->. unfold enter, leave. cbn [replicate app]. go. rewrite holding_free. go. rewrite holding_self. go.
  eexists _, _. split; [reflexivity|]. cbn [procs]. rewrite lookup_insert_eq. done.
Qed.

(** C40: a processor that takes and releases the lock without another one
    coming between has its interrupts on or off as before.  [lock] saves the
    flag in the lock before it owns it: when another processor has called
    [lock] in the meantime, the first one leaves with the interrupt flag of the
    other one. *)
Theorem interrupt_flag_crossed a b σ p q :
  a ≠ b → procs σ !! a = Some p → procs σ !! b = Some q → code p = [] → code q = [] → value σ = 0 →
  (∃ p' σ', steps (enter a ++ leave a) σ = Some σ' ∧
    procs σ' !! a = Some p' ∧ code p' = [] ∧ inside p' = false ∧ intr p' = intr p) ∧
  (∃ p' σ', steps (enter a ++ [Call b Lock; Step b; Step b] ++ leave a) σ = Some σ' ∧
    procs σ' !! a = Some p' ∧ code p' = [] ∧ inside p' = false ∧ intr p' = intr q).
Proof.
  intros Hne Ha Hb Hp Hq Hv. destruct σ as [v st m]. split; [|by eapply crossed_leave].
  destruct (enter_leave a v st m p Ha Hp Hv) as (p' & -> & ?). eexists p', _. split; [done|].
  cbn. by rewrite lookup_insert_eq.
Qed.

(** ** Witnesses *)

(** Two processors, the second one with its interrupts off. *)
Definition two_procs : spin := Spin 0 false {[ 0%nat := Proc [] false true false; 1%nat := Proc [] false false false ]}.

Lemma two_procs_initial : initial two_procs.
Proof.
  split; [done|]. intros c p H. unfold two_procs in H. cbn [procs] in H. apply lookup_insert_Some in H as [[<- <-]|[_ H]]; [done|].
  by apply lookup_singleton_Some in H as [<- <-].
Qed.

(** Processor 0 is inside, processor 1 waits. *)
Definition waiting : list event := enter 0 ++ Call 1 Lock :: replicate 5 (Step 1).

Lemma lock_exclusive_witness :
  ∃ σ', steps waiting two_procs = Some σ' ∧
  (∀ c d p q, procs σ' !! c = Some p → procs σ' !! d = Some q → inside p = true → inside q = true → c = d) ∧
  (∀ c p, procs σ' !! c = Some p → holding c σ' = inside p) ∧
  (value σ' = 0 ↔ ∀ c p, procs σ' !! c = Some p → inside p = false).
Proof. eexists. split; [vm_compute; reflexivity|]. apply (lock_exclusive waiting two_procs); [apply two_procs_initial|vm_compute; reflexivity]. Defined.

Lemma lock_never_stops_witness :
  ∃ σ' p, steps waiting two_procs = Some σ' ∧ procs σ' !! 0%nat = Some p ∧ inside p = true ∧
  (Halt ∉ code p) ∧ (inside p = true → intr p = false).
Proof.
  eexists _, _. split; [vm_compute; reflexivity|]. split; [vm_compute; reflexivity|]. split; [reflexivity|].
  eapply (lock_never_stops waiting two_procs _ 0%nat); [apply two_procs_initial|vm_compute; reflexivity|vm_compute; reflexivity|vm_compute; reflexivity].
Defined.

Lemma interrupt_flag_crossed_witness :
  (∃ p' σ', steps (enter 0 ++ leave 0) two_procs = Some σ' ∧
    procs σ' !! 0%nat = Some p' ∧ code p' = [] ∧ inside p' = false ∧ intr p' = true) ∧
  (∃ p' σ', steps (enter 0 ++ [Call 1 Lock; Step 1; Step 1] ++ leave 0) two_procs = Some σ' ∧
    procs σ' !! 0%nat = Some p' ∧ code p' = [] ∧ inside p' = false ∧ intr p' = false).
Proof. apply (interrupt_flag_crossed 0 1 two_procs (Proc [] false true false) (Proc [] false false false)); done. Defined.
