(* ===== verification/Text.v ===== *)
(** * Formatted text: [kern/libs/basic_io/] and [libs/user/io], [libs/user/math]

    [itoa_ex] writes the digits of a number into a buffer, and [write_format]
    sends characters to the console.  The kernel and the user library have a
    copy of each; [user] selects the copy where they differ.  Characters are
    their codes and strings end with a zero.  The variable arguments are the
    64-bit slots of the calling convention, of which [va_arg(ap, int)] reads the
    low half.  The locks of the console and the conversion of floating-point
    numbers are not modelled: [%f] has no result (the kernel's panics). *)

From S2P Require Import Prelude.

(** ** [itoa_ex] *)

Definition put (buf : list Z) (i : nat) (v : Z) : option (list Z) :=
  if decide (i < length buf)%nat then Some (<[i := v]> buf) else None.

Definition digit (tmp : Z) : Z := if tmp <? 10 then tmp + 48 else tmp + 97 - 10.

(** [do .. while (n /= base)]; a 64-bit number has at most 64 digits. *)
Fixpoint itoa_loop (fuel : nat) (buf : list Z) (i : nat) (n base : Z) : option (list Z * nat) :=
  match fuel with
  | O => None
  | S fuel =>
      buf ← put buf i (digit (n mod base));
      if n / base =? 0 then Some (buf, S i) else itoa_loop fuel buf (S i) (n / base) base
  end.

(** [for (j = 0; j < i; j++, i--)] *)
Fixpoint swap_loop (fuel : nat) (buf : list Z) (j i : nat) : option (list Z) :=
  if decide (j < i)%nat then
    match fuel with
    | O => None
    | S fuel =>
        tmp ← buf !! j;
        x ← buf !! i;
        buf ← put buf j x;
        buf ← put buf i tmp;
        swap_loop fuel buf (S j) (i - 1)
    end
  else Some buf.

(** The length and the buffer. *)
Definition itoa_ex (buf : list Z) (n base : Z) : option (nat * list Z) :=
  '(buf, i) ← itoa_loop 64 buf 0 n base;
  let len := i in
  buf ← put buf i 0;
  buf ← swap_loop len buf 0 (i - 1);
  Some (len, buf).

(** ** [write_format] *)

Definition va_arg_int (slot : Z) : Z := let low := slot mod 2 ^ 32 in if low <? 2 ^ 31 then low else low - 2 ^ 32.

Definition MAXNUMBER_LEN (user : bool) : nat := if user then 64 else 256.

(** [nbuf] after the reset, the conversion, and the loop that prints it. *)
Definition number (user : bool) (n base : Z) : option (list Z) :=
  '(len, nbuf) ← itoa_ex (replicate (MAXNUMBER_LEN user) 0) (wrap64 n) base;
  Some (take len nbuf).

(** The characters of ["(null)"]. *)
Definition null_text : list Z := [40; 110; 117; 108; 108; 41].

(** The characters up to the zero. *)
Fixpoint cstring (s : list Z) : option (list Z) :=
  match s with
  | [] => None
  | c :: s => if c =? 0 then Some [] else t ← cstring s; Some (c :: t)
  end.

Definition string_at (strings : gmap Z (list Z)) (p : Z) : option (list Z) :=
  if p =? 0 then Some null_text else s ← strings !! p; cstring s.

(** The output for [fmt] and the slots [ap].  Reading behind the end of [fmt],
    or more arguments than there are, has no result. *)
Fixpoint valist_write_format (user : bool) (strings : gmap Z (list Z)) (fmt ap : list Z) : option (list Z) :=
  match fmt with
  | [] => None
  | c :: fmt =>
      if c =? 0 then Some [] else
      if negb (c =? 37) then out ← valist_write_format user strings fmt ap; Some (c :: out) else
      match fmt with
      | [] => None
      | c :: fmt =>
          let go ap text := out ← valist_write_format user strings fmt ap; Some (text ++ out) in
          if c =? 0 then Some [] else
          if c =? 99 then match ap with v :: ap => go ap [va_arg_int v mod 256] | [] => None end else
          if c =? 102 then None else
          if c =? 100 then match ap with v :: ap => t ← number user (va_arg_int v) 10; go ap t | [] => None end else
          if c =? 108 then
            match fmt with
            | a :: b :: fmt =>
                if (a =? 108) && (b =? 100) then
                  match ap with
                  | v :: ap => t ← number user v 10; out ← valist_write_format user strings fmt ap; Some (t ++ out)
                  | [] => None
                  end
                else out ← valist_write_format user strings fmt ap; Some ([37; 108; a; b] ++ out)
            | _ => None
            end
          else
          if c =? 120 then match ap with v :: ap => t ← number user (va_arg_int v) 16; go ap t | [] => None end else
          if c =? 112 then
            match ap with v :: ap => t ← number user (if user then va_arg_int v else v) 16; go ap t | [] => None end else
          if c =? 115 then match ap with v :: ap => t ← string_at strings v; go ap t | [] => None end else
          if c =? 37 then go ap [37] else go ap [37; c]
      end
  end.

(** ** Digits *)

Fixpoint digits (fuel : nat) (n base : Z) : list Z :=
  match fuel with
  | O => []
  | S fuel => digit (n mod base) :: if n / base =? 0 then [] else digits fuel (n / base) base
  end.

(** The value of a character, and of digits that start with the lowest one. *)
Definition digit_value (c : Z) : Z := if c <? 58 then c - 48 else c - 97 + 10.

Fixpoint value_of (base : Z) (ds : list Z) : Z :=
  match ds with
  | [] => 0
  | d :: ds => digit_value d + base * value_of base ds
  end.

Lemma put_ok buf i v : (i < length buf)%nat → put buf i v = Some (<[i := v]> buf).
Proof. intros. unfold put. by rewrite decide_True. Qed.

Lemma digit_roundtrip d : 0 <= d < 36 → digit_value (digit d) = d.
Proof. intros. unfold digit, digit_value. destruct (Z.ltb_spec d 10); case_match; lia. Qed.

Lemma digits_value fuel n base :
  2 <= base <= 36 → 0 <= n < base ^ Z.of_nat fuel → value_of base (digits fuel n base) = n.
Proof.
  intros Hb. revert n. induction fuel as [|fuel IH]; intros n Hn; [cbn in *; lia|].
  rewrite Nat2Z.inj_succ, Z.pow_succ_r in Hn by lia. cbn [digits value_of].
  pose proof (Z.div_mod n base ltac:(lia)). pose proof (Z.mod_pos_bound n base ltac:(lia)).
  rewrite digit_roundtrip by lia. destruct (Z.eqb_spec (n / base) 0); cbn [value_of]; [lia|].
  rewrite IH; [lia|]. split; [apply Z.div_pos; lia|]. apply Z.div_lt_upper_bound; lia.
Qed.

Lemma digits_length fuel n base : (length (digits fuel n base) <= fuel)%nat.
Proof. revert n. induction fuel as [|fuel IH]; intros n; cbn; [done|]. case_match; cbn; [lia|]. specialize (IH (n / base)). lia. Qed.

Lemma itoa_loop_ok fuel buf pre post n base :
  2 <= base → (0 < fuel)%nat → 0 <= n < base ^ Z.of_nat fuel → buf = pre ++ post → (length (digits fuel n base) <= length post)%nat →
  itoa_loop fuel buf (length pre) n base =
    Some (pre ++ digits fuel n base ++ drop (length (digits fuel n base)) post, (length pre + length (digits fuel n base))%nat).
Proof.
  intros Hb. revert buf pre post n. induction fuel as [|fuel IH]; intros buf pre post n H0 Hn -> Hl; [lia|].
  rewrite Nat2Z.inj_succ, Z.pow_succ_r in Hn by lia. cbn [digits itoa_loop length] in *.
  destruct post as [|x post]; [cbn in Hl; lia|].
  rewrite put_ok by (rewrite length_app; cbn; lia). cbn [mbind option_bind].
  replace (length pre) with (length pre + 0)%nat by lia. rewrite insert_app_r. cbn.
  destruct (n / base =? 0) eqn:E; [f_equal; f_equal; cbn; lia|].
  replace (S (length pre + 0)) with (length (pre ++ [digit (n mod base)])) by (rewrite length_app; cbn; lia).
  rewrite (IH _ (pre ++ [digit (n mod base)]) post); cbn in Hl.
  - rewrite <- (app_assoc pre). cbn. f_equal. f_equal. rewrite length_app. cbn. lia.
  - destruct fuel; [|lia]. apply Z.eqb_neq in E. pose proof (Z.div_lt_upper_bound n base 1 ltac:(lia)) as H1.
    pose proof (Z.div_pos n base ltac:(lia) ltac:(lia)). rewrite Z.pow_0_r in Hn. lia.
  - split; [apply Z.div_pos; lia|]. apply Z.div_lt_upper_bound; lia.
  - by rewrite <- app_assoc.
  - lia.
Qed.

Lemma put_at pre x post v : put (pre ++ x :: post) (length pre) v = Some (pre ++ v :: post).
Proof.
  rewrite put_ok by (rewrite length_app; cbn; lia). by rewrite <- (Nat.add_0_r (length pre)) at 1; rewrite insert_app_r.
Qed.

Lemma text_get_at pre (x : Z) post : (pre ++ x :: post) !! length pre = Some x.
Proof. by apply list_lookup_middle. Qed.

(** The loop reverses the part between its indices. *)
Lemma swap_loop_ok fuel pre mid post i j :
  (length mid <= fuel)%nat → j = length pre → (mid = [] ∨ i = (length pre + length mid - 1)%nat) → (mid = [] → i <= j)%nat →
  swap_loop fuel (pre ++ mid ++ post) j i = Some (pre ++ rev mid ++ post).
Proof.
  revert pre mid post i j. induction fuel as [|fuel IH]; intros pre mid post i j Hf -> Hi H0.
  { destruct mid; [|cbn in Hf; lia]. cbn. by rewrite decide_False by (specialize (H0 eq_refl); lia). }
  destruct mid as [|x mid]; cbn [swap_loop].
  { by rewrite decide_False by (specialize (H0 eq_refl); lia). }
  destruct Hi as [?|Hi]; [done|]. cbn [length] in *.
  destruct (exists_last (l := x :: mid)) as (m & y & Hm); [done|].
  destruct m as [|x' m]; cbn in Hm.
  { injection Hm as -> ->. cbn in *. rewrite decide_False by lia. done. }
  injection Hm as <- ->. rewrite length_app in *. cbn in *.
  rewrite decide_True by lia.
  replace (pre ++ x :: (m ++ [y]) ++ post) with (pre ++ x :: m ++ y :: post) by (by rewrite <- app_assoc).
  rewrite text_get_at. cbn [mbind option_bind].
  replace i with (length (pre ++ x :: m)) by (rewrite length_app; cbn; lia).
  replace (pre ++ x :: m ++ y :: post) with ((pre ++ x :: m) ++ y :: post) by (by rewrite <- app_assoc).
  rewrite text_get_at. cbn [mbind option_bind]. rewrite <- app_assoc. cbn [app]. rewrite put_at. cbn [mbind option_bind].
  replace (pre ++ y :: m ++ y :: post) with ((pre ++ y :: m) ++ y :: post) by (by rewrite <- app_assoc).
  replace (length (pre ++ x :: m)) with (length (pre ++ y :: m)) by (rewrite !length_app; done). rewrite put_at. cbn [mbind option_bind].
  replace ((pre ++ y :: m) ++ x :: post) with ((pre ++ [y]) ++ m ++ x :: post) by (rewrite <- !app_assoc; done).
  rewrite IH; [|lia|rewrite length_app; cbn; lia|..].
  - rewrite rev_app_distr. cbn. by rewrite <- !app_assoc.
  - rewrite !length_app. cbn. destruct m; [by left|right; cbn; lia].
  - rewrite !length_app. cbn. intros ->. cbn. lia.
Qed.

(** The digits of a number, the highest one first. *)
Definition numeral (base n : Z) : list Z := rev (digits 64 n base).

Lemma digits_bound fuel k n base :
  2 <= base → (0 < k)%nat → 0 <= n < base ^ Z.of_nat k → (length (digits fuel n base) <= k)%nat.
Proof.
  intros Hb. revert k n. induction fuel as [|fuel IH]; intros k n Hk Hn; cbn; [lia|].
  destruct k as [|k]; [lia|]. rewrite Nat2Z.inj_succ, Z.pow_succ_r in Hn by lia.
  destruct (Z.eqb_spec (n / base) 0); cbn; [lia|]. apply le_n_S, IH.
  - destruct k; [|lia]. rewrite Z.pow_0_r in Hn. rewrite Z.div_small in *; lia.
  - split; [apply Z.div_pos; lia|]. apply Z.div_lt_upper_bound; lia.
Qed.

Lemma digits_nonempty fuel n base : (0 < fuel)%nat → digits fuel n base ≠ [].
Proof. destruct fuel; [lia|done]. Qed.

Lemma digit_zero d : 0 <= d → digit d = 48 → d = 0.
Proof. unfold digit. case_match; lia. Qed.

(** No number but zero starts with a zero. *)
Lemma digits_last fuel n base :
  2 <= base → 0 <= n < base ^ Z.of_nat fuel → last (digits fuel n base) = Some 48 → n = 0.
Proof.
  intros Hb. revert n. induction fuel as [|fuel IH]; intros n Hn Hl; [done|].
  rewrite Nat2Z.inj_succ, Z.pow_succ_r in Hn by lia. cbn [digits] in Hl.
  pose proof (Z.div_mod n base ltac:(lia)). pose proof (Z.mod_pos_bound n base ltac:(lia)).
  destruct (Z.eqb_spec (n / base) 0) as [E|E].
  - injection Hl as Hl. apply digit_zero in Hl; lia.
  - assert (0 <= n / base < base ^ Z.of_nat fuel) as Hq.
    { split; [apply Z.div_pos; lia|]. apply Z.div_lt_upper_bound; lia. }
    destruct fuel as [|fuel]; [rewrite Z.pow_0_r in Hq; lia|].
    rewrite last_cons in Hl. destruct (last (digits (S fuel) (n / base) base)) eqn:El;
      [|apply last_None in El; by apply digits_nonempty in El; [|lia]].
    injection Hl as ->. exfalso. apply E, IH; done.
Qed.

Lemma digits_range fuel n base :
  2 <= base <= 36 → Forall (λ c, 48 <= c < 58 ∨ 97 <= c < 87 + base) (digits fuel n base).
Proof.
  intros Hb. revert n. induction fuel as [|fuel IH]; intros n; cbn; [constructor|].
  pose proof (Z.mod_pos_bound n base ltac:(lia)).
  constructor; [unfold digit; case_match; lia|]. case_match; [constructor|apply IH].
Qed.

Lemma pow_u64 base n : 2 <= base → is_u64 n → 0 <= n < base ^ Z.of_nat 64.
Proof. intros Hb Hn. unfold is_u64 in Hn. pose proof (Z.pow_le_mono_l 2 base (Z.of_nat 64) ltac:(lia)). lia. Qed.

Lemma itoa_ok buf n base :
  2 <= base → is_u64 n → (length (numeral base n) < length buf)%nat →
  itoa_ex buf n base =
    Some (length (numeral base n), numeral base n ++ 0 :: drop (S (length (numeral base n))) buf).
Proof.
  intros Hb Hn Hl. pose proof (pow_u64 base n Hb Hn) as Hp. unfold numeral in *. rewrite length_rev in *.
  unfold itoa_ex. pose proof (itoa_loop_ok 64 buf [] buf n base Hb ltac:(lia) Hp eq_refl ltac:(lia)) as Hloop. cbn [app length] in Hloop.
  rewrite Hloop. cbn [mbind option_bind app length].
  pose proof (digits_nonempty 64 n base ltac:(lia)) as Hne. set (ds := digits 64 n base) in *. clearbody ds.
  destruct (drop (length ds) buf) as [|x post] eqn:Ed.
  { apply (f_equal length) in Ed. rewrite length_drop in Ed. cbn in Ed. lia. }
  rewrite Nat.add_0_l, put_at. cbn [mbind option_bind].
  rewrite (swap_loop_ok (length ds) [] ds (0 :: post)); [|lia|done|by right|done].
  assert (drop (S (length ds)) buf = post) as ->; [|done].
  replace (S (length ds)) with (length ds + 1)%nat by lia. by rewrite <- drop_drop, Ed.
Qed.

Lemma numeral_bound k base n : 2 <= base → (0 < k)%nat → 0 <= n < base ^ Z.of_nat k → (length (numeral base n) <= k)%nat.
Proof. intros. unfold numeral. rewrite length_rev. by apply digits_bound. Qed.

Lemma number_ok user n base : 10 <= base → number user n base = Some (numeral base (wrap64 n)).
Proof.
  intros Hb. pose proof (wrap64_range n) as Hn. unfold number.
  assert (length (numeral base (wrap64 n)) <= 20)%nat as Hl.
  { apply numeral_bound; [lia..|]. unfold is_u64 in Hn. pose proof (Z.pow_le_mono_l 10 base (Z.of_nat 20) ltac:(lia)).
    assert (2 ^ 64 < 10 ^ Z.of_nat 20) by reflexivity. lia. }
  rewrite itoa_ok; [|lia|done|rewrite length_replicate; destruct user; cbn -[numeral]; lia].
  cbn [mbind option_bind]. by rewrite take_app_length.
Qed.

(** ** Formats as sequences of pieces *)

Inductive piece :=
  | Plain (c : Z) | PChar (v : Z) | PInt (v : Z) | PLong (v : Z) | PHex (v : Z) | PPointer (v : Z) | PString (p : Z) | PPercent.

Definition piece_fmt (x : piece) : list Z :=
  match x with
  | Plain c => [c]
  | PChar _ => [37; 99]
  | PInt _ => [37; 100]
  | PLong _ => [37; 108; 108; 100]
  | PHex _ => [37; 120]
  | PPointer _ => [37; 112]
  | PString _ => [37; 115]
  | PPercent => [37; 37]
  end.

Definition piece_args (x : piece) : list Z :=
  match x with
  | Plain _ | PPercent => []
  | PChar v | PInt v | PLong v | PHex v | PPointer v | PString v => [v]
  end.

Section pieces.
Context (user : bool) (strings : gmap Z (list Z)).

Definition piece_text (x : piece) : list Z :=
  match x with
  | Plain c => [c]
  | PChar v => [va_arg_int v mod 256]
  | PInt v => numeral 10 (wrap64 (va_arg_int v))
  | PLong v => numeral 10 (wrap64 v)
  | PHex v => numeral 16 (wrap64 (va_arg_int v))
  | PPointer v => numeral 16 (wrap64 (if user then va_arg_int v else v))
  | PString p => default [] (string_at strings p)
  | PPercent => [37]
  end.

(** Plain characters are not special, and strings are there. *)
Definition piece_ok (x : piece) : bool :=
  match x with
  | Plain c => negb (c =? 0) && negb (c =? 37)
  | PString p => bool_decide (is_Some (string_at strings p))
  | _ => true
  end.

Lemma format_piece x fmt ap out :
  piece_ok x = true → valist_write_format user strings fmt ap = Some out →
  valist_write_format user strings (piece_fmt x ++ fmt) (piece_args x ++ ap) = Some (piece_text x ++ out).
Proof.
  intros Hx Ho. destruct x as [c|v|v|v|v|v|p|]; cbn -[number string_at]; rewrite ?number_ok by done; cbn -[string_at]; rewrite ?Ho; try done.
  - apply andb_prop in Hx as [H0 H1]. apply negb_true_iff in H0, H1. by rewrite H0, H1.
  - apply bool_decide_eq_true_1 in Hx as [t Ht]. by rewrite Ht; cbn; rewrite ?Ho.
Qed.

(** C28: [write_format] prints the pieces of a format in their order: plain
    characters as they are, [%c], [%s] and [%%] as characters, [%lld] and [%p]
    as the digits of the number, and [%d] and [%x] as the digits of the number
    modulo 2^64, so that a negative one has no sign; in the user library [%p]
    looks at the low half of the pointer only. *)
Theorem format_prints ps :
  forallb piece_ok ps = true →
  valist_write_format user strings (concat (piece_fmt <$> ps) ++ [0]) (concat (piece_args <$> ps)) =
    Some (concat (piece_text <$> ps)).
Proof.
  induction ps as [|x ps IH]; [done|]. cbn [forallb]. intros [Hx Hps]%andb_prop. cbn [fmap list_fmap concat].
  rewrite <- app_assoc. apply format_piece; auto.
Qed.
End pieces.

(** C35: [itoa_ex] writes the digits of a number in the base at the start of the
    buffer, followed by a zero, and leaves the rest of it; reading them gives
    the number, there is no leading zero, and there are at most [k] of them for
    a number below the [k]-th power of the base. *)
Theorem itoa_roundtrip buf n base k :
  2 <= base <= 36 → is_u64 n → (0 < k < length buf)%nat → n < base ^ Z.of_nat k →
  ∃ text, itoa_ex buf n base = Some (length text, text ++ 0 :: drop (S (length text)) buf) ∧
    value_of base (rev text) = n ∧ (0 < length text <= k)%nat ∧ (head text = Some 48 → n = 0) ∧
    Forall (λ c, 48 <= c < 58 ∨ 97 <= c < 87 + base) text.
Proof.
  intros Hb Hn Hk Hlt. pose proof (pow_u64 base n ltac:(lia) Hn) as Hp.
  pose proof (numeral_bound k base n ltac:(lia) ltac:(lia) ltac:(unfold is_u64 in Hn; lia)) as Hl.
  exists (numeral base n). split; [apply itoa_ok; [lia|done|lia]|]. unfold numeral in *. split_and!.
  - by rewrite rev_involutive, digits_value.
  - rewrite length_rev. pose proof (digits_nonempty 64 n base ltac:(lia)). destruct (digits 64 n base); [done|cbn; lia].
  - done.
  - intros H. apply (digits_last 64 n base); [lia|done|]. rewrite <- head_reverse. unfold reverse. by rewrite <- rev_alt.
  - apply Forall_rev, digits_range. lia.
Qed.

(** ** Witnesses *)

Lemma format_prints_witness :
  valist_write_format true {[ 4096 := [104; 105; 0] ]} [37; 115; 58; 37; 100; 0] [4096; 42] = Some [104; 105; 58; 52; 50] ∧
  valist_write_format false ∅ [37; 100; 0] [2 ^ 32 - 1] = Some (numeral 10 (2 ^ 64 - 1)).
Proof.
  split.
  - etransitivity; [apply (format_prints true {[ 4096 := [104; 105; 0] ]} [PString 4096; Plain 58; PInt 42])|]; vm_compute; reflexivity.
  - etransitivity; [apply (format_prints false ∅ [PInt (2 ^ 32 - 1)])|]; vm_compute; reflexivity.
Defined.

Lemma itoa_roundtrip_witness :
  ∃ text, itoa_ex (replicate 64 0) 1204 10 = Some (length text, text ++ 0 :: drop (S (length text)) (replicate 64 0)) ∧
    value_of 10 (rev text) = 1204 ∧ (0 < length text <= 4)%nat ∧ (head text = Some 48 → 1204 = 0) ∧
    Forall (λ c, 48 <= c < 58 ∨ 97 <= c < 87 + 10) text.
Proof. apply (itoa_roundtrip (replicate 64 0) 1204 10 4); [lia|unfold is_u64; lia|cbn; lia|reflexivity]. Defined.
