(* ===== verification/Rtc.v ===== *)
(** * The real-time clock: [kern/drv/cmos/rtc.cc]

    The registers of the clock are a function of their number; the clock as it
    is read over time is the list of its registers at the moments between two
    updates, for which [wait_for_update] waits.  Port numbers are left out.
    The state holds the globals of the file. *)

From S2P Require Import Prelude.

(** ** Data *)

Record cmos_date_time_struct := DateTime {
  second : Z; minute : Z; hour : Z; weekday : Z; day_of_month : Z; month : Z; year : Z; real_year : Z; century : Z;
}.

#[export] Instance cmos_date_time_struct_eq : EqDecision cmos_date_time_struct.
Proof. solve_decision. Defined.

Definition no_time : cmos_date_time_struct := DateTime 0 0 0 0 0 0 0 0 0.
Definition set_hour v d := DateTime (second d) (minute d) v (weekday d) (day_of_month d) (month d) (year d) (real_year d) (century d).
Definition set_real_year v d :=
  DateTime (second d) (minute d) (hour d) (weekday d) (day_of_month d) (month d) (year d) v (century d).

Definition UINT8_MAX : Z := 255.

(** [current]: whether [current_month_ps_arr] is the table of leap years; null
    until the clock has been read. *)
Record rtc := Rtc {
  century_reg : Z;
  bissextile_month_ps_arr : list Z;
  normal_month_ps_arr : list Z;
  current : option bool;
  boot_time : cmos_date_time_struct;
}.

Definition rtc_load : rtc :=
  Rtc UINT8_MAX [0; 0; 31; 29; 31; 30; 31; 30; 31; 31; 30; 31; 30] [0; 0; 31; 28; 31; 30; 31; 30; 31; 31; 30; 31; 30] None no_time.

Definition set_current v s := Rtc (century_reg s) (bissextile_month_ps_arr s) (normal_month_ps_arr s) v (boot_time s).

Definition RTC_REG_SECOND : Z := 0.
Definition RTC_REG_MINUTE : Z := 2.
Definition RTC_REG_HOUR : Z := 4.
Definition RTC_REG_WEEKDAY : Z := 6.
Definition RTC_REG_DAY_OF_MONTH : Z := 7.
Definition RTC_REG_MONTH : Z := 8.
Definition RTC_REG_YEAR : Z := 9.

(** ** Reading *)

Definition bcd_to_binary (bcd : Z) : Z :=
  (Z.shiftr (Z.land bcd 0xF0) 1 + Z.shiftr (Z.land bcd 0xF0) 3 + Z.land bcd 0xF) mod 2 ^ 16.

Definition check_bissextile (y : Z) : bool := ((y mod 4 =? 0) && negb (y mod 100 =? 0)) || (y mod 400 =? 0).

Abbreviation RT := (ST rtc).

Definition get_day_of_year (mon day : Z) : RT Z := λ s,
  match current s with
  | None => None
  | Some leap =>
      match (if leap then bissextile_month_ps_arr s else normal_month_ps_arr s) !! Z.to_nat mon with
      | Some days => Some (days +w day, s)
      | None => None
      end
  end.

Definition fill_date_time_struct (regs : Z → Z) (creg : Z) (d : cmos_date_time_struct) : cmos_date_time_struct :=
  DateTime (regs RTC_REG_SECOND) (regs RTC_REG_MINUTE) (regs RTC_REG_HOUR) (regs RTC_REG_WEEKDAY) (regs RTC_REG_DAY_OF_MONTH)
    (regs RTC_REG_MONTH) (regs RTC_REG_YEAR) (real_year d) (if creg =? UINT8_MAX then century d else regs creg).

Definition parse_bcd_values (creg : Z) (d : cmos_date_time_struct) : cmos_date_time_struct :=
  DateTime (bcd_to_binary (second d)) (bcd_to_binary (minute d)) (bcd_to_binary (hour d)) (bcd_to_binary (weekday d))
    (bcd_to_binary (day_of_month d)) (bcd_to_binary (month d)) (bcd_to_binary (year d)) (real_year d)
    (if creg =? UINT8_MAX then century d else bcd_to_binary (century d)).

(** The [do .. while (now != previous)] loop over the clock's values, and the
    registers at its end. *)
Fixpoint settle (clock : list (Z → Z)) (creg : Z) (now : cmos_date_time_struct) : option (cmos_date_time_struct * (Z → Z)) :=
  match clock with
  | [] => None
  | regs :: clock =>
      let now' := fill_date_time_struct regs creg now in
      if decide (now' = now) then Some (now', regs) else settle clock creg now'
  end.

Definition refine_year (creg : Z) (d : cmos_date_time_struct) : Z :=
  if creg =? UINT8_MAX then
    if year d <? 90 then 2000 + year d else if 90 <? year d then 1900 + year d else year d
  else wrap64 (century d * 100 + year d).

(** The reference the function returns is to a local variable; the value is
    that of the variable. *)
Definition cmos_read_rtc (clock : list (Z → Z)) : RT cmos_date_time_struct := λ s,
  match clock with
  | [] => None
  | regs :: clock =>
      match settle clock (century_reg s) (fill_date_time_struct regs (century_reg s) no_time) with
      | None => None
      | Some (now, regs) =>
          let byte_format := regs 0x0B in
          let now := if Z.testbit byte_format 2 then now else parse_bcd_values (century_reg s) now in
          let now := if Z.testbit byte_format 1 then now else set_hour ((Z.land (hour now) 0x7F + 12) mod 24) now in
          let now := set_real_year (refine_year (century_reg s) now) now in
          Some (now, set_current (Some (check_bissextile (real_year now))) s)
      end
  end.

(** ** Time stamps *)

Definition datetime_to_timestamp (d : cmos_date_time_struct) : RT Z :=
  let y := real_year d -w 1900 in
  days ← get_day_of_year (month d) (day_of_month d);
  mret (wrap64 (second d + minute d * 60 + hour d * 3600 + days * 86400 + (y -w 70) * 31536000 + (y -w 69) / 4 * 86400
    - (y -w 1) / 100 * 86400 + (y +w 299) / 400 * 86400)).

Definition cmos_read_rtc_timestamp (clock : list (Z → Z)) : RT Z :=
  datetime ← cmos_read_rtc clock; datetime_to_timestamp datetime.

Definition get_boot_timestamp : RT Z := λ s, datetime_to_timestamp (boot_time s) s.

(** The loop over [i = 1 .. 12]. *)
Fixpoint prefix_sums (acc : Z) (l : list Z) : list Z :=
  match l with
  | [] => []
  | x :: l => (acc + x) :: prefix_sums (acc + x) l
  end.

(** [fadt_century]: the field of the ACPI table, which is there. *)
Definition cmos_rtc_init (fadt_century : Z) (clock : list (Z → Z)) : RT unit := λ s,
  let creg := if fadt_century =? 0 then century_reg s else fadt_century in
  let s := Rtc creg (prefix_sums 0 (bissextile_month_ps_arr s)) (prefix_sums 0 (normal_month_ps_arr s)) (current s) (boot_time s) in
  match cmos_read_rtc clock s with
  | Some (now, s) =>
      let s := Rtc (century_reg s) (bissextile_month_ps_arr s) (normal_month_ps_arr s) (current s) now in
      (get_boot_timestamp;; mret tt) s
  | None => None
  end.

(** ** The calendar *)

Definition month_lengths (leap : bool) : list Z := [31; if leap then 29 else 28; 31; 30; 31; 30; 31; 31; 30; 31; 30; 31].

Definition sum (l : list Z) : Z := foldr Z.add 0 l.

Definition days_before_month (leap : bool) (m : Z) : Z := sum (take (Z.to_nat (m - 1)) (month_lengths leap)).

(** The days of the years from 1970 on. *)
Fixpoint days_before_year (n : nat) : Z :=
  match n with
  | O => 0
  | S n => days_before_year n + if check_bissextile (1970 + Z.of_nat n) then 366 else 365
  end.

Definition seconds_since_epoch (y m d h mi s : Z) : Z :=
  (days_before_year (Z.to_nat (y - 1970)) + days_before_month (check_bissextile y) m + (d - 1)) * 86400 + h * 3600 + mi * 60 + s.

(** The number of leap days in closed form, as in the code. *)
Lemma year_formula n :
  let y := 70 + Z.of_nat n in
  days_before_year n = (y - 70) * 365 + (y - 69) / 4 - (y - 1) / 100 + (y + 299) / 400.
Proof.
  cbv zeta. induction n as [|n IH]; [done|]. cbn [days_before_year]. rewrite IH, Nat2Z.inj_succ. clear IH.
  unfold check_bissextile. generalize (Z.of_nat n). intros z.
  destruct (Z.eqb_spec ((1970 + z) mod 4) 0), (Z.eqb_spec ((1970 + z) mod 100) 0), (Z.eqb_spec ((1970 + z) mod 400) 0); cbn;
    Z.to_euclidean_division_equations; lia.
Qed.

Lemma small_cases (P : Z → bool) n : forallb P (Z.of_nat <$> seq 0 n) = true → ∀ z, 0 <= z < Z.of_nat n → P z = true.
Proof.
  intros H z Hz. rewrite forallb_forall in H. apply H, list_elem_of_In, list_elem_of_fmap. exists (Z.to_nat z).
  split; [lia|]. apply elem_of_seq. lia.
Qed.

(** ** Registers *)

Definition bcd (v : Z) : Z := v / 10 * 16 + v mod 10.

Lemma bcd_roundtrip v : 0 <= v < 100 → bcd_to_binary (bcd v) = v.
Proof.
  intros Hv. apply Z.eqb_eq. apply (small_cases (λ v, bcd_to_binary (bcd v) =? v) 100); [vm_compute; reflexivity|done].
Qed.

Lemma month_table (leap : bool) m :
  1 <= m <= 12 →
  prefix_sums 0 (if leap then bissextile_month_ps_arr rtc_load else normal_month_ps_arr rtc_load) !! Z.to_nat m =
    Some (days_before_month leap m).
Proof.
  intros Hm. assert (∃ k, m = Z.of_nat k ∧ (1 <= k <= 12)%nat) as (k & -> & Hk) by (exists (Z.to_nat m); lia). clear Hm.
  do 13 (destruct k as [|k]; [first [lia|destruct leap; reflexivity]|]). lia.
Qed.

Lemma days_before_month_range leap m : 0 <= days_before_month leap m <= 366.
Proof.
  unfold days_before_month. generalize (Z.to_nat (m - 1)). intros k.
  do 12 (destruct k as [|k]; [destruct leap; cbn; lia|]). destruct leap; cbn; rewrite take_nil; cbn; lia.
Qed.

(** The tables are prefix sums. *)
Definition ready (s : rtc) : Prop :=
  bissextile_month_ps_arr s = prefix_sums 0 (bissextile_month_ps_arr rtc_load) ∧
  normal_month_ps_arr s = prefix_sums 0 (normal_month_ps_arr rtc_load).

Lemma day_of_year_ok s leap m d :
  ready s → current s = Some leap → 1 <= m <= 12 → 0 <= d <= 31 → get_day_of_year m d s = Some (days_before_month leap m + d, s).
Proof.
  intros [Hb Hn] Hc Hm Hd. unfold get_day_of_year. rewrite Hc, Hb, Hn. pose proof (month_table leap m Hm) as Ht.
  pose proof (days_before_month_range leap m). destruct leap; rewrite Ht; rewrite wrap64_small by (unfold is_u64; lia); done.
Qed.

(** The time stamp of a date: a day more than the seconds since the epoch. *)
Lemma timestamp_ok s d :
  ready s → current s = Some (check_bissextile (real_year d)) → 1970 <= real_year d < 10000 → 1 <= month d <= 12 → 1 <= day_of_month d <= 31 →
  0 <= hour d < 24 → 0 <= minute d < 60 → 0 <= second d < 60 →
  datetime_to_timestamp d s =
    Some (seconds_since_epoch (real_year d) (month d) (day_of_month d) (hour d) (minute d) (second d) + 86400, s).
Proof.
  intros Hr Hc Hy Hm Hd Hh Hmi Hs. unfold datetime_to_timestamp.
  rewrite (bind_run _ _ _ _ _ (day_of_year_ok s (check_bissextile (real_year d)) (month d) (day_of_month d) Hr Hc Hm ltac:(lia))).
  unfold seconds_since_epoch, mret, ST_ret. f_equal. f_equal.
  pose proof (days_before_month_range (check_bissextile (real_year d)) (month d)) as Hdm.
  pose proof (year_formula (Z.to_nat (real_year d - 1970))) as Hf. cbv zeta in Hf. rewrite Z2Nat.id in Hf by lia. rewrite Hf.
  generalize dependent (days_before_month (check_bissextile (real_year d)) (month d)). intros dm Hdm.
  rewrite (wrap64_small (real_year d - 1900)) by (unfold is_u64; lia).
  rewrite (wrap64_small (real_year d - 1900 - 70)), (wrap64_small (real_year d - 1900 - 69)), (wrap64_small (real_year d - 1900 - 1)), (wrap64_small (real_year d - 1900 + 299)) by (unfold is_u64; lia).
  replace (70 + (real_year d - 1970)) with (real_year d - 1900) by lia.
  assert (0 <= (real_year d - 1900 - 1) / 100 <= real_year d - 1970) by (Z.to_euclidean_division_equations; lia).
  assert (0 <= (real_year d - 1900 - 69) / 4 <= 2100) by (Z.to_euclidean_division_equations; lia).
  assert (0 <= (real_year d - 1900 + 299) / 400 <= 100) by (Z.to_euclidean_division_equations; lia).
  rewrite wrap64_small by (unfold is_u64; lia). lia.
Qed.

(** The registers [regs] show the time in BCD and in 24 hours. *)
Definition shows (regs : Z → Z) (creg y m d h mi s : Z) : Prop :=
  regs RTC_REG_SECOND = bcd s ∧ regs RTC_REG_MINUTE = bcd mi ∧ regs RTC_REG_HOUR = bcd h ∧
  regs RTC_REG_DAY_OF_MONTH = bcd d ∧ regs RTC_REG_MONTH = bcd m ∧ regs RTC_REG_YEAR = bcd (y mod 100) ∧
  regs creg = bcd (y / 100) ∧ Z.testbit (regs 0x0B) 2 = false ∧ Z.testbit (regs 0x0B) 1 = true.

Definition valid_time (y m d h mi s : Z) : Prop :=
  1970 <= y < 10000 ∧ 1 <= m <= 12 ∧ 1 <= d <= 31 ∧ 0 <= h < 24 ∧ 0 <= mi < 60 ∧ 0 <= s < 60.

Lemma settle_twice regs rest creg :
  settle (regs :: rest) creg (fill_date_time_struct regs creg no_time) = Some (fill_date_time_struct regs creg no_time, regs).
Proof.
  cbn. rewrite decide_True; unfold fill_date_time_struct; cbn; by destruct (creg =? UINT8_MAX).
Qed.

Lemma rtc_read_ok regs rest s y m d h mi sec :
  century_reg s ≠ UINT8_MAX → shows regs (century_reg s) y m d h mi sec → valid_time y m d h mi sec →
  ∃ w, cmos_read_rtc (regs :: regs :: rest) s =
    Some (DateTime sec mi h w d m (y mod 100) y (y / 100), set_current (Some (check_bissextile y)) s).
Proof.
  intros Hc (E1 & E2 & E3 & E4 & E5 & E6 & E7 & Eb & E24) (Hy & Hm & Hd & Hh & Hmi & Hs).
  exists (bcd_to_binary (regs RTC_REG_WEEKDAY)).
  pose proof (Z.mod_pos_bound y 100 ltac:(lia)). pose proof (Z.div_mod y 100 ltac:(lia)).
  unfold cmos_read_rtc. rewrite settle_twice, Eb, E24. unfold parse_bcd_values, fill_date_time_struct, refine_year, set_real_year. cbn.
  apply Z.eqb_neq in Hc. rewrite Hc. cbn. rewrite E1, E2, E3, E4, E5, E6, E7, !bcd_roundtrip by lia.
  rewrite wrap64_small by (unfold is_u64; lia). by replace (y / 100 * 100 + y mod 100) with y by lia.
Qed.

Lemma read_keeps clock s now s' :
  cmos_read_rtc clock s = Some (now, s') → ready s → ready s' ∧ century_reg s' = century_reg s.
Proof.
  unfold cmos_read_rtc. destruct clock as [|regs clock]; [done|]. destruct (settle _ _ _) as [[n r]|]; [|done].
  intros [= _ <-]. by intros [].
Qed.

Lemma timestamp_reads d s x s' : datetime_to_timestamp d s = Some (x, s') → s' = s.
Proof.
  unfold datetime_to_timestamp. intros (y & s1 & H & H1)%bind_inv. injection H1 as _ <-.
  unfold get_day_of_year in H. repeat case_match; by simplify_eq.
Qed.

Lemma init_ready fadt clock s : fadt ≠ 0 → cmos_rtc_init fadt clock rtc_load = Some (tt, s) → ready s ∧ century_reg s = fadt.
Proof.
  intros Hf. unfold cmos_rtc_init. apply Z.eqb_neq in Hf. rewrite Hf.
  destruct (cmos_read_rtc clock _) as [[now s1]|] eqn:E; [|done]. apply read_keeps in E as [Hr Hc]; [|done].
  intros (y & s2 & H%timestamp_reads & H1)%bind_inv. injection H1 as <-. by subst.
Qed.

(** ** Theorems *)


(** The time stamp of a time depends on the year the clock was last read in:
    it moves by a day when that is a leap year. *)
Theorem timestamp_drifts s d :
  ready s → 3 <= month d <= 12 → 1 <= day_of_month d <= 31 →
  ∃ y, datetime_to_timestamp d (set_current (Some true) s) = Some (wrap64 (y + 86400), set_current (Some true) s) ∧
    datetime_to_timestamp d (set_current (Some false) s) = Some (wrap64 y, set_current (Some false) s).
Proof.
  intros Hr Hm Hd. unfold datetime_to_timestamp.
  rewrite (bind_run _ _ _ _ _ (day_of_year_ok (set_current (Some true) s) true (month d) (day_of_month d) Hr eq_refl ltac:(lia) ltac:(lia))).
  rewrite (bind_run _ _ _ _ _ (day_of_year_ok (set_current (Some false) s) false (month d) (day_of_month d) Hr eq_refl ltac:(lia) ltac:(lia))).
  assert (days_before_month true (month d) = days_before_month false (month d) + 1) as ->.
  { apply Z.eqb_eq. pose proof (small_cases (λ m, (m <? 3) || (days_before_month true m =? days_before_month false m + 1)) 13
      ltac:(vm_compute; reflexivity) (month d) ltac:(lia)) as H. cbn beta in H. destruct (Z.ltb_spec (month d) 3); [lia|done]. }
  eexists. split; [|reflexivity]. unfold mret, ST_ret. do 3 f_equal. lia.
Qed.

(** In 12-hour mode the hours after midnight become hours of the afternoon:
    [hour] is [h] before noon and [h + 128] after it. *)
Theorem twelve_hours h :
  1 <= h < 12 → (Z.land h 0x7F + 12) mod 24 = h + 12 ∧ (Z.land (h + 128) 0x7F + 12) mod 24 = h + 12.
Proof.
  intros Hh. assert (h = 1 ∨ h = 2 ∨ h = 3 ∨ h = 4 ∨ h = 5 ∨ h = 6 ∨ h = 7 ∨ h = 8 ∨ h = 9 ∨ h = 10 ∨ h = 11) by lia.
  by repeat match goal with H : _ ∨ _ |- _ => destruct H as [->|H] end; subst.
Qed.

(** ** Witness *)

(** The sixteenth of November 2026, 7:29:42. *)
Definition clock_2026 (r : Z) : Z :=
  if r =? 0 then 0x42 else if r =? 2 then 0x29 else if r =? 4 then 0x07 else if r =? 7 then 0x16 else
  if r =? 8 then 0x11 else if r =? 9 then 0x26 else if r =? 0x0B then 2 else if r =? 0x32 then 0x20 else 0.

