(* ===== verification/UserHeap.v ===== *)
(** * The heap of user programs: [libs/user/memory/heap.cc], [libs/server/memory/heap.cc]

    The two files hold the same allocator.  Free blocks are in a ring, in the
    order of their addresses, that starts at the static header [base]; a header
    is two words, the address of the next free block and the size in units of
    a header.  The memory is a map from addresses to 64-bit words.  The system
    call [set_heap_size] is a parameter: it may change the memory (new pages)
    and the state of the kernel, and gives its result and the value it leaves
    at its argument. *)

From stdpp Require Import sorting.
From S2P Require Import Prelude Types.

(** [sizeof(Header)] *)
Definition HEADER : Z := 16.

Section heap.
Context {K : Type} (base : Z) (set_heap_size : Z → ST (gmap Z Z * K) (error_code_values * Z)).

Record uheap := UHeap { words : gmap Z Z; freep : Z; kern : K }.

Abbreviation UH := (ST uheap).

Definition read (a : Z) : UH Z := λ s, match words s !! a with Some v => Some (v, s) | None => None end.
Definition write (a v : Z) : UH unit := λ s,
  match words s !! a with Some _ => Some (tt, UHeap (<[a := v]> (words s)) (freep s) (kern s)) | None => None end.
Definition get_freep : UH Z := λ s, Some (freep s, s).
Definition set_freep (p : Z) : UH unit := λ s, Some (tt, UHeap (words s) p (kern s)).
Definition syscall (heap_ptr : Z) : UH (error_code_values * Z) := λ s,
  match set_heap_size heap_ptr (words s, kern s) with
  | Some (r, (w, k)) => Some (r, UHeap w (freep s) k)
  | None => None
  end.

(** [p->ptr], [p->size] *)
Definition ptr (p : Z) : UH Z := read p.
Definition size (p : Z) : UH Z := read (p + 8).

(** [p + n] *)
Definition plus (p n : Z) : Z := wrap64 (p + n * HEADER).

(** The condition of the loop in [heap_free], and that of its [break]. *)
Definition stop (bp p next : Z) : bool :=
  ((p <? bp) && (bp <? next)) || ((next <=? p) && ((p <? bp) || (bp <? next))).

Fixpoint find_place (fuel : nat) (bp p : Z) : UH Z :=
  match fuel with
  | O => st_fail
  | S fuel => next ← ptr p; if stop bp p next then mret p else find_place fuel bp next
  end.

Definition heap_free_from (fuel : nat) (ap : Z) : UH unit :=
  let bp := ap -w HEADER in
  f ← get_freep;
  p ← find_place fuel bp f;
  n ← size bp;
  next ← ptr p;
  (if plus bp n =? next then
     m ← size next; write (bp + 8) (n +w m);;
     after ← ptr next; write bp after
   else write bp next);;
  ps ← size p;
  (if plus p ps =? bp then
     n' ← size bp; write (p + 8) (ps +w n');;
     after ← ptr bp; write p after
   else write p bp);;
  set_freep p.

(** A ring has fewer members than the memory has words. *)
Definition heap_free (ap : Z) : UH unit := λ s, heap_free_from (base.size (words s)) ap s.

(** The result 0 is the null pointer. *)
Definition heap_expand (nu : Z) : UH Z :=
  '(code, heap_ptr) ← syscall 0;
  if negb (bool_decide (code = ERROR_SUCCESS)) then mret 0 else
  '(code, new_heap_ptr) ← syscall (wrap64 (heap_ptr + nu * HEADER));
  if negb (bool_decide (code = ERROR_SUCCESS)) || (new_heap_ptr <? heap_ptr) then mret 0 else
  let hp := new_heap_ptr in
  write (hp + 8) nu;;
  heap_free (plus hp 1);;
  get_freep.

Definition units (bytes : Z) : Z := (bytes +w (HEADER - 1)) / HEADER + 1.

Fixpoint alloc_loop (fuel : nat) (nunits prevp p : Z) : UH Z :=
  match fuel with
  | O => st_fail
  | S fuel =>
      n ← size p;
      if nunits <=? n then
        p ← (if n =? nunits then next ← ptr p; write prevp next;; mret p
             else write (p + 8) (n - nunits);; let p := plus p (n - nunits) in write (p + 8) nunits;; mret p);
        set_freep prevp;;
        mret (plus p 1)
      else
        f ← get_freep;
        if p =? f then
          p ← heap_expand nunits;
          if p =? 0 then mret 0 else next ← ptr p; alloc_loop fuel nunits p next
        else next ← ptr p; alloc_loop fuel nunits p next
  end.

Definition heap_alloc (fuel : nat) (bytes : Z) : UH Z :=
  prevp ← get_freep;
  let nunits := units bytes in
  prevp ← (if prevp =? 0 then write base base;; set_freep base;; write (base + 8) 0;; mret base else mret prevp);
  p ← ptr prevp;
  alloc_loop fuel nunits prevp p.

(** ** The ring of free blocks *)

(** A block is its address and its size in units. *)
Abbreviation block := (Z * Z)%type.

Definition addr_or (z : Z) (l : list block) : Z := match l with [] => z | x :: _ => x.1 end.

(** The blocks [l] follow each other, and the last one is followed by [z]. *)
Fixpoint chain (w : gmap Z Z) (l : list block) (z : Z) : Prop :=
  match l with
  | [] => True
  | x :: l => w !! x.1 = Some (addr_or z l) ∧ w !! (x.1 + 8) = Some x.2 ∧ chain w l z
  end.

(** [x] ends before [y] starts, with a gap. *)
Definition before (x y : block) : Prop := x.1 + HEADER <= y.1 ∧ x.1 + x.2 * HEADER < y.1.

(** The extents of two blocks are disjoint. *)
Definition apart (x y : block) : Prop := x.1 + x.2 * HEADER <= y.1 ∨ y.1 + y.2 * HEADER <= x.1.

(** A block is behind [base], is not empty, and is mapped. *)
Definition block_ok (w : gmap Z Z) (x : block) : Prop :=
  base + HEADER <= x.1 ∧ 1 <= x.2 ∧ x.1 + x.2 * HEADER < 2 ^ 64 ∧ ∀ i, 0 <= i < 2 * x.2 → is_Some (w !! (x.1 + 8 * i)).

(** The free blocks [B] are in the ring, and the blocks in use are [U], by their
    addresses. *)
Record heap_inv (s : uheap) (B : list block) (U : gmap Z Z) : Prop := HeapInv {
  inv_base : 0 < base < 2 ^ 64;
  inv_chain : chain (words s) ((base, 0) :: B) base;
  inv_sorted : StronglySorted before ((base, 0) :: B);
  inv_freep : freep s ∈ ((base, 0) :: B).*1;
  inv_free x : x ∈ B → block_ok (words s) x;
  inv_used a n : U !! a = Some n → block_ok (words s) (a, n) ∧ words s !! (a + 8) = Some n;
  inv_apart a n x : U !! a = Some n → x ∈ B → apart (a, n) x;
  inv_disjoint a n b m : U !! a = Some n → U !! b = Some m → a ≠ b → apart (a, n) (b, m);
}.

(** ** Walking around the ring *)

Lemma chain_app w l1 l2 z : chain w (l1 ++ l2) z ↔ chain w l1 (addr_or z l2) ∧ chain w l2 z.
Proof.
  induction l1 as [|x l1 IH]; cbn; [naive_solver|]. rewrite IH.
  assert (addr_or z (l1 ++ l2) = addr_or (addr_or z l2) l1) as -> by (by destruct l1). naive_solver.
Qed.

Lemma heap_read_run s a v : words s !! a = Some v → read a s = Some (v, s).
Proof. intros H. unfold read. by rewrite H. Qed.

Lemma find_place_walk bp s M R z fuel :
  chain (words s) (M ++ R) z →
  (∀ M1 x M2, M = M1 ++ x :: M2 → stop bp x.1 (addr_or z (M2 ++ R)) = false) →
  find_place (length M + fuel) bp (addr_or z (M ++ R)) s = find_place fuel bp (addr_or z R) s.
Proof.
  induction M as [|x M IH]; intros Hc Hs; [done|]. cbn in Hc |- *. destruct Hc as (Hp & _ & Hc).
  unfold ptr. rewrite (bind_run _ _ _ _ _ (heap_read_run _ _ _ Hp)).
  rewrite (Hs [] x M eq_refl). apply IH; [done|]. intros M1 y M2 ->. by apply (Hs (x :: M1)).
Qed.

Lemma find_place_more fuel k bp p s r : find_place fuel bp p s = Some r → find_place (fuel + k) bp p s = Some r.
Proof.
  revert p s. induction fuel as [|fuel IH]; intros p s H; [done|]. cbn in *.
  destruct r. apply bind_inv in H as (next & s1 & Hn & H).
  rewrite (bind_run _ _ _ _ _ Hn). case_match; [done|]. by apply IH.
Qed.

Lemma addr_or_app z l1 l2 : addr_or z (l1 ++ l2) = addr_or (addr_or z l2) l1.
Proof. by destruct l1. Qed.

(** From a member before the place, up to it. *)
Lemma find_place_below bp s X1 X2 pr Y k :
  StronglySorted before (X1 ++ X2 ++ pr :: Y) → chain (words s) (X2 ++ pr :: Y) base → base <= pr.1 < bp →
  Forall (λ y, bp < y.1) Y →
  find_place (length X2 + S k) bp (addr_or base (X2 ++ pr :: Y)) s = Some (pr.1, s).
Proof.
  intros Hs Hc Hlt HY. rewrite find_place_walk; [|done|].
  - apply chain_app in Hc as (_ & Hp & _). cbn. unfold ptr. rewrite (bind_run _ _ _ _ _ (heap_read_run _ _ _ Hp)).
    assert (stop bp pr.1 (addr_or base Y) = true) as ->; [|done].
    unfold stop. destruct Y as [|y Y]; cbn; [lia|]. apply Forall_cons in HY as [? _]. lia.
  - intros M1 x M2 ->. apply StronglySorted_app in Hs as (_ & _ & Hs).
    rewrite <- app_assoc in Hs. apply StronglySorted_app in Hs as (_ & _ & Hs). cbn in Hs.
    apply StronglySorted_cons in Hs as [Hx Hs]. rewrite Forall_forall in Hx.
    assert (∀ y, y ∈ M2 ++ [pr] → x.1 < y.1 <= pr.1) as Hy.
    { intros y Hy. split.
      - specialize (Hx y). destruct Hx; [|unfold HEADER in *; lia]. set_solver.
      - apply elem_of_app in Hy as [Hy|Hy%list_elem_of_singleton]; [|subst; lia].
        apply StronglySorted_app in Hs as (Hs & _ & _). destruct (Hs y pr Hy); [set_solver|unfold HEADER in *; lia]. }
    unfold stop. destruct M2 as [|y M2]; cbn; [specialize (Hy pr)|specialize (Hy y)];
      (destruct Hy; [set_solver|lia]).
Qed.

(** From any member. *)
Lemma find_place_ok bp s X pr Y :
  StronglySorted before (X ++ pr :: Y) → chain (words s) (X ++ pr :: Y) base → addr_or 0 (X ++ pr :: Y) = base →
  pr.1 < bp → Forall (λ y, bp < y.1) Y → freep s ∈ (X ++ pr :: Y).*1 →
  find_place (length (X ++ pr :: Y)) bp (freep s) s = Some (pr.1, s).
Proof.
  intros Hs Hc H0 Hlt HY Hf.
  assert (base <= pr.1) as Hb.
  { destruct X as [|b X]; cbn in H0, Hs; [lia|]. apply StronglySorted_cons in Hs as [Hs _]. rewrite Forall_forall in Hs.
    destruct (Hs pr); [set_solver|unfold HEADER in *; lia]. }
  apply list_elem_of_fmap in Hf as (x & -> & Hx). rewrite length_app. cbn [length].
  assert (addr_or base (X ++ pr :: Y) = base) as Hbase by (by destruct X).
  assert (∃ X1 X2, X ++ [pr] = X1 ++ x :: X2 ∨ Y = X1 ++ x :: X2) as (X1 & X2 & Hin).
  { assert (x ∈ X ++ [pr] ∨ x ∈ Y) as [H|H] by set_solver; apply list_elem_of_split in H as (l1 & l2 & ->); eauto. }
  destruct Hin as [Hin|Hin].
  - assert (∃ X3, X = X1 ++ X3 ∧ X3 ++ [pr] = x :: X2) as (X3 & -> & H3).
    { destruct X2 as [|z X2 _] using rev_ind; [apply app_inj_tail in Hin as [<- <-]; exists []; by rewrite app_nil_r|].
      rewrite app_comm_cons, app_assoc in Hin. apply app_inj_tail in Hin as [-> <-]. by exists (x :: X2). }
    assert (x.1 = addr_or base (X3 ++ pr :: Y)) as ->.
    { replace (X3 ++ pr :: Y) with ((X3 ++ [pr]) ++ Y) by (by rewrite <- app_assoc). by rewrite H3. }
    rewrite <- app_assoc in *. apply chain_app in Hc as [_ Hc].
    replace (length (X1 ++ X3) + S (length Y))%nat with (length X3 + S (length X1 + length Y))%nat by (rewrite length_app; lia).
    by apply (find_place_below bp s X1).
  - replace (length X + S (length Y))%nat with (length (x :: X2) + (length X + S (length X1)))%nat
      by (subst Y; rewrite length_app; cbn; lia).
    change x.1 with (addr_or base ((x :: X2) ++ [])).
    rewrite (find_place_walk bp s (x :: X2) []).
    + cbn [addr_or]. rewrite <- Hbase. by apply (find_place_below bp s []).
    + subst Y. rewrite app_nil_r. apply chain_app in Hc as [_ (_ & _ & Hc)]. by apply chain_app in Hc as [_ Hc].
    + intros M1 y M2 Hy. rewrite app_nil_r. rewrite Hin, Hy in HY, Hs. apply Forall_app in HY as [_ HY].
      apply Forall_app in HY as [_ HY]. apply Forall_cons in HY as [Hyb HY].
      assert (Forall (before y) M2) as Hb2.
      { apply StronglySorted_app in Hs as (_ & _ & Hs). apply StronglySorted_cons in Hs as [_ Hs].
        apply StronglySorted_app in Hs as (_ & _ & Hs). apply StronglySorted_app in Hs as (_ & _ & Hs).
        by apply StronglySorted_cons in Hs as [Hs _]. }
      unfold stop. destruct M2 as [|z M2]; cbn; [lia|]. apply Forall_cons in Hb2 as [[? _] _]. unfold HEADER in *. lia.
Qed.

(** ** Freeing a block *)

(** The block [x], joined with the free block behind it if they touch. *)
Definition join_up (x : block) (Y : list block) : block * list block :=
  match Y with
  | y :: Y' => if x.1 + x.2 * HEADER =? y.1 then ((x.1, x.2 + y.2), Y') else (x, Y)
  | [] => (x, [])
  end.

(** The part of the ring from the free block [pr] before it on. *)
Definition join_down (pr : block) (xY : block * list block) : list block :=
  if pr.1 + pr.2 * HEADER =? xY.1.1 then (pr.1, pr.2 + xY.1.2) :: xY.2 else pr :: xY.1 :: xY.2.

Definition link_up (bp : Z) (Y : list block) (x' : block) (w : gmap Z Z) : gmap Z Z :=
  <[bp := addr_or base Y]> (<[bp + 8 := x'.2]> w).

Lemma write_run s a v u : words s !! a = Some u → write a v s = Some (tt, UHeap (<[a := v]> (words s)) (freep s) (kern s)).
Proof. intros H. unfold write. by rewrite H. Qed.

Lemma chain_write w a v l z : Forall (λ x, a ≠ x.1 ∧ a ≠ x.1 + 8) l → chain w l z → chain (<[a := v]> w) l z.
Proof.
  induction l as [|x l IH]; [done|]. intros [[Hn1 Hn2] Hf]%Forall_cons (H1 & H2 & Hc). cbn.
  rewrite !lookup_insert_ne by done. auto.
Qed.

Lemma plus_ok p n : 0 <= p → 0 <= n → p + n * HEADER < 2 ^ 64 → plus p n = p + n * HEADER.
Proof. intros. unfold plus. apply wrap64_small. unfold is_u64, HEADER in *. lia. Qed.

Definition sized (x : block) : Prop := 0 <= x.1 ∧ 0 <= x.2 ∧ x.1 + x.2 * HEADER < 2 ^ 64.

Lemma link_up_run w f k bp n Y v :
  chain w Y base → w !! bp = Some v → w !! (bp + 8) = Some n → sized (bp, n) → 1 <= n → 0 < base < bp →
  Forall (λ y, sized y ∧ bp + n * HEADER <= y.1) Y →
  (if plus bp n =? addr_or base Y then
     m ← size (addr_or base Y); write (bp + 8) (n +w m);; after ← ptr (addr_or base Y); write bp after
   else write bp (addr_or base Y)) (UHeap w f k) =
  Some (tt, UHeap (link_up bp (join_up (bp, n) Y).2 (join_up (bp, n) Y).1 w) f k).
Proof.
  intros Hc Hbp Hn (H0 & Hn0 & Hx) Hn1 Hb HY. cbn in H0, Hn0, Hx.
  rewrite plus_ok by done. unfold HEADER in *. destruct Y as [|y Y]; cbn -[Z.add Z.mul].
  { rewrite (proj2 (Z.eqb_neq _ _)) by lia. erewrite write_run by done. unfold link_up. cbn. by rewrite (insert_id w (bp + 8) n). }
  apply Forall_cons in HY as [[(Hy1 & Hy2 & Hy3) Hyx] HY]. destruct Hc as (Hyp & Hys & Hc). unfold HEADER in *.
  destruct (Z.eqb_spec (bp + n * 16) y.1) as [E|E].
  - unfold size. rewrite (bind_run _ _ _ _ _ (heap_read_run (UHeap w f k) _ _ Hys)).
    erewrite bind_run by (by eapply write_run). unfold ptr. cbn [words freep kern].
    rewrite (bind_run _ _ _ (addr_or base Y) (UHeap (<[bp + 8 := n +w y.2]> w) f k)) by (apply heap_read_run; cbn; by rewrite lookup_insert_ne by lia).
    erewrite write_run by (cbn; rewrite lookup_insert_ne by lia; done). unfold link_up. cbn.
    rewrite wrap64_small; [done|]. unfold is_u64. lia.
  - erewrite write_run by done. unfold link_up. cbn. by rewrite (insert_id w (bp + 8) n).
Qed.

Lemma link_down_run w f k p ps bp n' after u :
  w !! p = Some u → w !! (p + 8) = Some ps → w !! bp = Some after → w !! (bp + 8) = Some n' →
  sized (p, ps) → sized (bp, n') → p < bp →
  (if plus p ps =? bp then
     n' ← size bp; write (p + 8) (ps +w n');; after ← ptr bp; write p after
   else write p bp) (UHeap w f k) =
  Some (tt, UHeap (if p + ps * HEADER =? bp then <[p := after]> (<[p + 8 := ps + n']> w) else <[p := bp]> w) f k).
Proof.
  intros Hp Hps Hbp Hn (H0 & Hn0 & Hx) (H0' & Hn0' & Hx') Hlt. cbn in *. unfold size, ptr, HEADER in *.
  rewrite plus_ok by (unfold HEADER; lia). unfold HEADER.
  destruct (Z.eqb_spec (p + ps * 16) bp) as [E|E]; [|by erewrite write_run].
  rewrite (bind_run _ _ _ _ _ (heap_read_run (UHeap w f k) _ _ Hn)). erewrite bind_run by (by eapply write_run). cbn [words freep kern].
  assert (bp ≠ p + 8) as Hne by lia.
  rewrite (bind_run _ _ _ after (UHeap (<[p + 8 := ps +w n']> w) f k)) by (apply heap_read_run; cbn; by rewrite lookup_insert_ne).
  erewrite write_run by (cbn; rewrite lookup_insert_ne by lia; done). cbn. rewrite wrap64_small; [done|]. unfold is_u64. lia.
Qed.

Lemma split_place L bp :
  StronglySorted before L → addr_or bp L < bp → Forall (λ y, y.1 ≠ bp) L →
  ∃ X pr Y, L = X ++ pr :: Y ∧ pr.1 < bp ∧ Forall (λ y, bp < y.1) Y.
Proof.
  induction L as [|x L IH]; cbn; [lia|]. intros [Hx Hs]%StronglySorted_cons Hlt [Hne Hf]%Forall_cons.
  destruct (Z.lt_ge_cases (addr_or bp L) bp) as [H|H].
  - destruct IH as (X & pr & Y & -> & ? & ?); [done..|]. by exists (x :: X), pr, Y.
  - exists [], x, L. split_and!; [done|done|]. destruct L as [|y L]; [constructor|]. cbn in H.
    apply Forall_cons in Hf as [Hy Hf]. apply StronglySorted_cons in Hs as [Hs _].
    constructor; [lia|]. eapply Forall_impl; [exact Hs|]. cbn. intros z [? _]. unfold HEADER in *. lia.
Qed.

Section inv.
Context (s : uheap) (B : list block) (U : gmap Z Z) (HI : heap_inv s B U).

Lemma ring_sized y : y ∈ (base, 0) :: B → sized y ∧ base <= y.1.
Proof.
  pose proof (inv_base _ _ _ HI). intros [->|Hy]%elem_of_cons; unfold sized, HEADER; cbn; [lia|].
  destruct (inv_free _ _ _ HI y Hy) as (? & ? & ? & _). unfold HEADER in *. lia.
Qed.

(** A block in use is apart from the ring and from [base]. *)
Lemma used_far a n y :
  U !! a = Some n → y ∈ (base, 0) :: B → y.1 + HEADER <= a ∧ y.1 + y.2 * HEADER <= a ∨ a + n * HEADER <= y.1.
Proof.
  intros Ha [->|Hy]%elem_of_cons.
  - destruct (inv_used _ _ _ HI a n Ha) as ((H1 & _) & _). cbn in *. unfold HEADER in *. lia.
  - destruct (inv_apart _ _ _ HI a n y Ha Hy) as [H|H]; cbn in H; [by right|left].
    destruct (inv_free _ _ _ HI y Hy) as (_ & ? & _). unfold HEADER in *. lia.
Qed.

Lemma heap_ring_length : (length ((base, 0%Z) :: B) <= base.size (words s))%nat.
Proof.
  pose proof (inv_sorted _ _ _ HI) as Hs. pose proof (inv_chain _ _ _ HI) as Hc. set (L := (base, 0) :: B) in *. clearbody L.
  assert (NoDup L.*1) as Hnd.
  { clear Hc. induction L as [|x L IH]; [constructor|]. apply StronglySorted_cons in Hs as [Hx Hs]. cbn. constructor; [|auto].
    intros (y & Hy & Hin)%list_elem_of_fmap. rewrite Forall_forall in Hx. destruct (Hx y Hin). unfold HEADER in *. lia. }
  assert (list_to_set L.*1 ⊆ dom (words s)) as Hd.
  { intros a Ha. apply elem_of_list_to_set, list_elem_of_fmap in Ha as (y & -> & Hin).
    apply list_elem_of_split in Hin as (l1 & l2 & ->). apply chain_app in Hc as (_ & Hy & _). apply elem_of_dom. by rewrite Hy. }
  apply subseteq_size in Hd. rewrite size_list_to_set, length_fmap, size_dom in Hd by done. done.
Qed.
End inv.

(** The memory after [heap_free]. *)
Definition free_words (pr : block) (bp n : Z) (Y : list block) (w : gmap Z Z) : gmap Z Z :=
  let '(x', Y') := join_up (bp, n) Y in
  let w1 := link_up bp Y' x' w in
  if pr.1 + pr.2 * HEADER =? bp then <[pr.1 := addr_or base Y']> (<[pr.1 + 8 := pr.2 + x'.2]> w1) else <[pr.1 := bp]> w1.

Lemma join_up_sized x Y : sized x → Forall (λ y, sized y) Y → sized (join_up x Y).1 ∧ (join_up x Y).1.1 = x.1.
Proof.
  intros (Hx1 & Hx2 & Hx3) HY. destruct Y as [|y Y]; cbn; [done|]. apply Forall_cons in HY as [(? & ? & ?) _].
  unfold HEADER in *. destruct (Z.eqb_spec (x.1 + x.2 * 16) y.1); [|done]. unfold sized, HEADER. cbn. lia.
Qed.

Lemma heap_free_run s B U bp n X pr Y :
  heap_inv s B U → U !! bp = Some n → (base, 0) :: B = X ++ pr :: Y → pr.1 < bp → Forall (λ y, bp < y.1) Y →
  heap_free (bp + HEADER) s = Some (tt, UHeap (free_words pr bp n Y (words s)) pr.1 (kern s)).
Proof.
  intros HI Hu EL Hlt HY. destruct (inv_used _ _ _ HI bp n Hu) as ((H1 & H2 & H3 & H4) & H5). cbn in H1, H2, H3, H4.
  pose proof (inv_chain _ _ _ HI) as Hc. pose proof (inv_sorted _ _ _ HI) as Hs. pose proof (inv_freep _ _ _ HI) as Hf.
  pose proof (heap_ring_length _ _ _ HI) as Hlen. pose proof (inv_base _ _ _ HI) as Hb.
  assert (∀ y, y ∈ X ++ pr :: Y → sized y ∧ base <= y.1) as Hsz by (rewrite <- EL; by apply (ring_sized s B U HI)).
  assert (∀ y, y ∈ X ++ pr :: Y → y.1 + HEADER <= bp ∧ y.1 + y.2 * HEADER <= bp ∨ bp + n * HEADER <= y.1) as Hfar
    by (rewrite <- EL; intros y; by apply (used_far s B U HI)).
  assert (addr_or 0 (X ++ pr :: Y) = base) as H0 by (by rewrite <- EL).
  rewrite EL in Hc, Hs, Hf, Hlen. destruct (H4 0 ltac:(lia)) as [v Hv]. rewrite Z.mul_0_r, Z.add_0_r in Hv.
  unfold heap_free, heap_free_from. rewrite (wrap64_small (bp + HEADER - HEADER)) by (unfold is_u64, HEADER in *; lia).
  replace (bp + HEADER - HEADER) with bp by lia. rewrite (bind_run _ _ _ (freep s) s) by done.
  rewrite (bind_run _ _ _ pr.1 s).
  2:{ replace (base.size (words s)) with (length (X ++ pr :: Y) + (base.size (words s) - length (X ++ pr :: Y)))%nat by lia.
      apply find_place_more. by apply find_place_ok. }
  apply chain_app in Hc as (HcX & Hp & Hps & HcY).
  destruct (Hsz pr ltac:(set_solver)) as [Hprs Hprb].
  assert (pr.1 + HEADER <= bp) as Hpr by (destruct (Hfar pr); [set_solver|lia|unfold HEADER in *; lia]).
  assert (Forall (λ y, sized y ∧ bp + n * HEADER <= y.1) Y) as HY'.
  { apply Forall_forall. intros y Hy. rewrite Forall_forall in HY. specialize (HY y Hy). split; [apply Hsz; set_solver|].
    destruct (Hfar y); [set_solver|unfold HEADER in *; lia|done]. }
  assert (sized (bp, n)) as Hsx by (unfold sized, HEADER in *; cbn; lia).
  destruct (join_up_sized (bp, n) Y Hsx) as [Hsx' Hx1]; [eapply Forall_impl; [exact HY'|]; by intros y []|].
  rewrite (bind_run _ _ _ n s) by (by apply heap_read_run). rewrite (bind_run _ _ _ (addr_or base Y) s) by (by apply heap_read_run).
  destruct s as [w f k]. cbn [words freep kern] in *.
  rewrite (bind_run _ _ _ _ _ (link_up_run w f k bp n Y v HcY Hv H5 Hsx ltac:(lia) ltac:(unfold HEADER in *; lia) HY')).
  unfold free_words. destruct (join_up (bp, n) Y) as [x' Y'] eqn:EJ. cbn [fst snd] in *. unfold HEADER in Hpr.
  rewrite (bind_run _ _ _ pr.2 (UHeap (link_up bp Y' x' w) f k))
    by (apply heap_read_run; unfold link_up; cbn; rewrite !lookup_insert_ne by lia; done).
  rewrite (bind_run _ _ _ _ _ (link_down_run (link_up bp Y' x' w) f k pr.1 pr.2 bp x'.2 (addr_or base Y') (addr_or base Y)
    ltac:(unfold link_up; rewrite !lookup_insert_ne by lia; done) ltac:(unfold link_up; rewrite !lookup_insert_ne by lia; done)
    ltac:(unfold link_up; apply lookup_insert_eq) ltac:(unfold link_up; rewrite lookup_insert_ne by lia; apply lookup_insert_eq)
    ltac:(done) ltac:(unfold sized in *; cbn in *; rewrite Hx1 in Hsx'; done) ltac:(lia))).
  by destruct (pr.1 + pr.2 * HEADER =? bp).
Qed.

(** [pr] is the free block before the block at [bp], [Y] are the ones behind. *)
Record place (bp n : Z) (X : list block) (pr : block) (Y : list block) : Prop := Place {
  place_sorted : StronglySorted before (X ++ pr :: Y);
  place_size : 1 <= n;
  place_pr : pr.1 + HEADER <= bp ∧ pr.1 + pr.2 * HEADER <= bp;
  place_up : Forall (λ y, bp + n * HEADER <= y.1) Y;
}.

Lemma place_below bp n X pr Y x : place bp n X pr Y → x ∈ X → before x pr ∧ Forall (before x) Y.
Proof.
  intros [Hs _ _ _] Hx. apply StronglySorted_app in Hs as (Hs & _ & _). split; [apply Hs; set_solver|].
  apply Forall_forall. intros y Hy. apply Hs; set_solver.
Qed.

Lemma place_above bp n X pr Y : place bp n X pr Y → Forall (before pr) Y ∧ StronglySorted before Y.
Proof. intros [Hs _ _ _]. apply StronglySorted_app in Hs as (_ & _ & Hs). by apply StronglySorted_cons in Hs. Qed.

Lemma join_up_tail x Y : (join_up x Y).2 = Y ∨ ∃ y, Y = y :: (join_up x Y).2.
Proof. destruct Y as [|y Y]; cbn; [by left|]. destruct (_ =? _); [right|left]; eauto. Qed.

Lemma join_up_sub x Y y : y ∈ (join_up x Y).2 → y ∈ Y.
Proof. destruct (join_up_tail x Y) as [->|[z Hz]]; [done|]. intros Hy. rewrite Hz. by apply list_elem_of_further. Qed.

Lemma chain_far w a v l z :
  (∀ y, y ∈ l → y.1 + HEADER <= a ∨ a + 8 <= y.1) → chain w l z → chain (<[a := v]> w) l z.
Proof.
  intros Hf. apply chain_write, Forall_forall. intros y Hy. specialize (Hf y Hy). unfold HEADER in *. lia.
Qed.

Lemma free_chain w bp n X pr Y :
  place bp n X pr Y → chain w (X ++ pr :: Y) base →
  chain (free_words pr bp n Y w) (X ++ join_down pr (join_up (bp, n) Y)) base.
Proof.
  intros HP Hc. pose proof (place_size _ _ _ _ _ HP) as Hn. pose proof (place_pr _ _ _ _ _ HP) as [Hpr _].
  assert (∀ y, y ∈ X → y.1 + HEADER <= pr.1) as HX by (intros y Hy; by destruct (place_below _ _ _ _ _ y HP Hy) as [[] _]).
  pose proof (place_up _ _ _ _ _ HP) as HY. rewrite Forall_forall in HY.
  assert ((join_up (bp, n) Y).1.1 = bp) as Hx1 by (destruct Y; cbn; [done|]; by case_match).
  apply chain_app in Hc as (HcX & Hp & Hps & HcY). cbn [addr_or] in HcX.
  assert (chain w (join_up (bp, n) Y).2 base) as HcY'.
  { destruct (join_up_tail (bp, n) Y) as [->|[y Hy]]; [done|]. rewrite Hy in HcY. by destruct HcY as (_ & _ & ?). }
  unfold free_words, join_down. pose proof (join_up_sub (bp, n) Y) as Hsub. destruct (join_up (bp, n) Y) as [x' Y'] eqn:EJ.
  cbn [fst snd] in *. rewrite Hx1. unfold HEADER in *.
  assert (chain (link_up bp Y' x' w) X pr.1 ∧ chain (link_up bp Y' x' w) Y' base) as [HcX1 HcY1].
  { unfold link_up. split; apply chain_far; try apply chain_far; try done; intros y Hy; unfold HEADER;
      first [specialize (HX y Hy)|specialize (HY y (Hsub y Hy))]; lia. }
  assert (link_up bp Y' x' w !! bp = Some (addr_or base Y')) as L1 by apply lookup_insert_eq.
  assert (link_up bp Y' x' w !! (bp + 8) = Some x'.2) as L2 by (unfold link_up; rewrite lookup_insert_ne by lia; apply lookup_insert_eq).
  assert (link_up bp Y' x' w !! (pr.1 + 8) = Some pr.2) as L3 by (unfold link_up; rewrite !lookup_insert_ne by lia; done).
  destruct (pr.1 + pr.2 * 16 =? bp); apply chain_app; cbn [addr_or fst chain snd].
  - split_and!; [|apply lookup_insert_eq|rewrite lookup_insert_ne by lia; apply lookup_insert_eq|];
      (apply chain_far; [|apply chain_far; [|done]]; intros y Hy; unfold HEADER; first [specialize (HX y Hy)|specialize (HY y (Hsub y Hy))]; lia).
  - rewrite Hx1. split_and!; [|apply lookup_insert_eq|by rewrite lookup_insert_ne by lia|by rewrite lookup_insert_ne by lia
      |by rewrite lookup_insert_ne by lia|];
      (apply chain_far; [|done]; intros y Hy; unfold HEADER; first [specialize (HX y Hy)|specialize (HY y (Hsub y Hy))]; lia).
Qed.

(** Other words are left alone, and all words stay mapped. *)
Lemma free_words_other pr bp n Y w a :
  a ≠ bp → a ≠ bp + 8 → a ≠ pr.1 → a ≠ pr.1 + 8 → free_words pr bp n Y w !! a = w !! a.
Proof.
  intros. unfold free_words, link_up. destruct (join_up (bp, n) Y) as [x' Y']. case_match; by rewrite !lookup_insert_ne by done.
Qed.

Lemma insert_mapped (w : gmap Z Z) a v b : is_Some (w !! b) → is_Some (<[a := v]> w !! b).
Proof. destruct (decide (a = b)) as [->|]; [rewrite lookup_insert_eq; eauto|by rewrite lookup_insert_ne]. Qed.

Lemma free_words_mapped pr bp n Y w a : is_Some (w !! a) → is_Some (free_words pr bp n Y w !! a).
Proof. intros. unfold free_words, link_up. destruct (join_up (bp, n) Y) as [x' Y']. case_match; by repeat apply insert_mapped. Qed.

(** *** The ring stays sorted, and covers the block in addition *)

(** The address [u] is in the block, in one of the blocks. *)
Definition within (u : Z) (x : block) : Prop := x.1 <= u < x.1 + x.2 * HEADER.
Definition covered (u : Z) (l : list block) : Prop := ∃ x, x ∈ l ∧ within u x.

Lemma covered_cons u x l : covered u (x :: l) ↔ within u x ∨ covered u l.
Proof. unfold covered. set_solver. Qed.

Lemma covered_app u l1 l2 : covered u (l1 ++ l2) ↔ covered u l1 ∨ covered u l2.
Proof. unfold covered. set_solver. Qed.

Lemma covered_nil u : ¬ covered u [].
Proof. intros (x & Hx & _). by apply elem_of_nil in Hx. Qed.

Lemma join_up_spec bp n X pr Y :
  place bp n X pr Y → Forall sized Y →
  let x' := (join_up (bp, n) Y).1 in let Y' := (join_up (bp, n) Y).2 in
  x'.1 = bp ∧ n <= x'.2 ∧ Forall (before x') Y' ∧ StronglySorted before Y' ∧
  ∀ u, covered u (x' :: Y') ↔ within u (bp, n) ∨ covered u Y.
Proof.
  intros HP Hsz. cbv zeta. destruct (place_above _ _ _ _ _ HP) as [_ Hs]. destruct HP as [_ Hn _ Hup].
  destruct Y as [|y Y]; cbn; [split_and!; [done|lia|done|done|]; intros u; by rewrite covered_cons|].
  apply StronglySorted_cons in Hs as [Hy Hs]. apply Forall_cons in Hup as [Hup1 Hup]. apply Forall_cons in Hsz as [(Hsy1 & Hsy2 & Hsy3) _].
  unfold HEADER in *. destruct (Z.eqb_spec (bp + n * 16) y.1) as [E|E]; cbn; (split_and!; [done|lia|..]).
  - eapply Forall_impl; [exact Hy|]. intros z [H1 H2]. unfold before, HEADER in *. cbn. lia.
  - done.
  - intros u. rewrite !covered_cons. unfold within, HEADER. cbn. split; [intros [H|H]|intros [H|[H|H]]]; auto; try lia.
  - constructor; [unfold before, HEADER; cbn; lia|]. eapply Forall_impl; [exact Hy|]. intros z [H1 H2].
    unfold before, HEADER in *. cbn. lia.
  - by apply StronglySorted_cons.
  - intros u. by rewrite !covered_cons.
Qed.

Lemma join_spec bp n X pr Y :
  place bp n X pr Y → Forall sized Y →
  let L := X ++ join_down pr (join_up (bp, n) Y) in
  StronglySorted before L ∧ ∀ u, covered u L ↔ covered u (X ++ pr :: Y) ∨ within u (bp, n).
Proof.
  intros HP Hsz. cbv zeta. destruct (join_up_spec bp n X pr Y HP Hsz) as (Hx1 & Hxn & Hbf & HsY & Hcov).
  pose proof (place_pr _ _ _ _ _ HP) as [Hp1 Hp2]. pose proof (place_size _ _ _ _ _ HP) as Hn.
  assert (∀ x, x ∈ X → x.1 + HEADER <= pr.1 ∧ x.1 + x.2 * HEADER < pr.1) as HX
    by (intros x Hx; by destruct (place_below _ _ _ _ _ x HP Hx) as [[] _]).
  assert (StronglySorted before X) as HsX by (destruct HP as [Hs _ _ _]; by apply StronglySorted_app in Hs as (_ & ? & _)).
  destruct (join_up (bp, n) Y) as [x' Y']. cbn [fst snd] in *. unfold join_down. cbn [fst snd]. rewrite Hx1. rewrite Forall_forall in Hbf.
  unfold HEADER in *. destruct (Z.eqb_spec (pr.1 + pr.2 * 16) bp) as [E|E]; split.
  - apply StronglySorted_app. split_and!; [|done|].
    + intros x y Hx [->|Hy]%elem_of_cons; specialize (HX x Hx); unfold before, HEADER; cbn; [lia|].
      specialize (Hbf y Hy). unfold before, HEADER in *. lia.
    + apply StronglySorted_cons. split; [|done]. apply Forall_forall. intros y Hy. specialize (Hbf y Hy). unfold before, HEADER in *. cbn. lia.
  - intros u. rewrite !covered_app, !covered_cons. specialize (Hcov u). rewrite covered_cons in Hcov.
    assert (within u (pr.1, pr.2 + x'.2) ↔ within u pr ∨ within u x') as -> by (unfold within, HEADER in *; cbn; lia). tauto.
  - apply StronglySorted_app. split_and!; [|done|].
    + intros x y Hx [->|[->|Hy]%elem_of_cons]%elem_of_cons; specialize (HX x Hx); unfold before, HEADER; try lia.
      specialize (Hbf y Hy). unfold before, HEADER in *. lia.
    + apply StronglySorted_cons. split.
      * constructor; [unfold before, HEADER; lia|]. apply Forall_forall. intros y Hy. specialize (Hbf y Hy). unfold before, HEADER in *. lia.
      * apply StronglySorted_cons. split; [|done]. by apply Forall_forall.
  - intros u. rewrite !covered_app, !covered_cons. specialize (Hcov u). rewrite covered_cons in Hcov. tauto.
Qed.

Lemma join_forall (P : block → Prop) pr x Y :
  (∀ a m n, P (a, m) → P (a + m * HEADER, n) → P (a, m + n)) → P pr → P x → Forall P Y → Forall P (join_down pr (join_up x Y)).
Proof.
  intros Hj Hp Hx HY. assert (P (join_up x Y).1 ∧ Forall P (join_up x Y).2) as [Hx' HY'].
  { destruct Y as [|y Y]; cbn; [done|]. apply Forall_cons in HY as [Hy HY].
    destruct (Z.eqb_spec (x.1 + x.2 * HEADER) y.1) as [E|E]; cbn; [|by split; [|constructor]]. split; [|done].
    apply Hj; [by destruct x|]. rewrite E. by destruct y. }
  unfold join_down. destruct (Z.eqb_spec (pr.1 + pr.2 * HEADER) (join_up x Y).1.1) as [E|E]; [|by repeat constructor].
  constructor; [|done]. apply Hj; [by destruct pr|]. rewrite E. by destruct (join_up x Y).1.
Qed.

Definition ring_ok (w : gmap Z Z) (x : block) : Prop := x = (base, 0) ∨ block_ok w x.

Lemma ring_ok_join w a m n : ring_ok w (a, m) → ring_ok w (a + m * HEADER, n) → ring_ok w (a, m + n).
Proof.
  unfold ring_ok, block_ok, HEADER. cbn. intros [[= -> ->]|(H1 & H2 & H3 & H4)] [[= E E2]|(H5 & H6 & H7 & H8)]; try lia.
  - subst. by left.
  - right. split_and!; [lia|lia|lia|]. intros i Hi. destruct (Z.lt_ge_cases i (2 * m)); [apply H4; lia|].
    replace (a + 8 * i) with (a + m * 16 + 8 * (i - 2 * m)) by lia. apply H8. lia.
Qed.

Lemma block_ok_mapped w w' x : (∀ a, is_Some (w !! a) → is_Some (w' !! a)) → block_ok w x → block_ok w' x.
Proof. intros Hm (H1 & H2 & H3 & H4). split_and!; auto. Qed.

Lemma apart_within x y : 1 <= x.2 → 1 <= y.2 → (∀ u, within u x → within u y → False) → apart x y.
Proof.
  intros Hx Hy H. unfold apart, within, HEADER in *. destruct (Z.le_gt_cases (x.1 + x.2 * 16) y.1); [by left|].
  destruct (Z.le_gt_cases (y.1 + y.2 * 16) x.1); [by right|]. exfalso. apply (H (Z.max x.1 y.1)); lia.
Qed.

Lemma within_apart u x y : apart x y → within u x → within u y → False.
Proof. unfold apart, within. lia. Qed.

(** The invariant from the extents of the blocks. *)
Lemma heap_inv_intro w f k B U :
  0 < base < 2 ^ 64 → chain w ((base, 0) :: B) base → StronglySorted before ((base, 0) :: B) → f ∈ ((base, 0) :: B).*1 →
  Forall (ring_ok w) B → (∀ a n, U !! a = Some n → block_ok w (a, n) ∧ w !! (a + 8) = Some n) →
  (∀ a n u, U !! a = Some n → within u (a, n) → covered u B → False) →
  (∀ a n b m, U !! a = Some n → U !! b = Some m → a ≠ b → apart (a, n) (b, m)) →
  heap_inv (UHeap w f k) B U.
Proof.
  intros Hb Hc Hs Hf Hok Hu Ha Hd.
  assert (∀ x, x ∈ B → block_ok w x) as Hx.
  { intros x Hx. rewrite Forall_forall in Hok. destruct (Hok x Hx) as [->|]; [|done].
    apply StronglySorted_cons in Hs as [Hs _]. rewrite Forall_forall in Hs. destruct (Hs _ Hx) as [H _]. cbn in H. unfold HEADER in *. lia. }
  split; try done. intros a n x Hn Hin. destruct (Hu a n Hn) as ((_ & ? & _) & _). destruct (Hx x Hin) as (_ & ? & _).
  apply apart_within; [done|done|]. intros u H1 H2. apply (Ha a n u Hn H1). by exists x.
Qed.

Lemma used_place s B U bp n :
  heap_inv s B U → U !! bp = Some n →
  ∃ X pr Y, (base, 0) :: B = X ++ pr :: Y ∧ place bp n X pr Y ∧ Forall sized Y ∧ pr.1 < bp ∧ Forall (λ y, bp < y.1) Y.
Proof.
  intros HI Hu. destruct (inv_used _ _ _ HI bp n Hu) as ((H1 & H2 & H3 & H4) & H5). cbn in H1, H2, H3.
  pose proof (used_far s B U HI bp n) as Hfar. pose proof (inv_sorted _ _ _ HI) as Hs.
  destruct (split_place ((base, 0) :: B) bp Hs) as (X & pr & Y & EL & Hlt & HY); [cbn; unfold HEADER in *; lia| |].
  { apply Forall_forall. intros y Hy. destruct (Hfar y Hu Hy); unfold HEADER in *; lia. }
  exists X, pr, Y. split_and!; [done| |apply Forall_forall; intros y Hy; apply (ring_sized s B U HI); rewrite EL; set_solver|done|done].
  split; [by rewrite <- EL|done| |].
  - destruct (Hfar pr Hu ltac:(rewrite EL; set_solver)); unfold HEADER in *; lia.
  - apply Forall_forall. intros y Hy. rewrite Forall_forall in HY. specialize (HY y Hy).
    destruct (Hfar y Hu ltac:(rewrite EL; set_solver)); unfold HEADER in *; lia.
Qed.

Lemma join_head bp n X pr Y B :
  place bp n X pr Y → Forall sized Y → (base, 0) :: B = X ++ pr :: Y → base + HEADER <= bp →
  ∃ B', X ++ join_down pr (join_up (bp, n) Y) = (base, 0) :: B'.
Proof.
  intros HP HsY EL Hb. destruct X as [|b X]; cbn in EL; injection EL as <- ->; [|by eexists]. cbn. unfold join_down. cbn.
  destruct (join_up_spec bp n [] (base, 0) Y HP HsY) as (E & _). rewrite E.
  rewrite (proj2 (Z.eqb_neq _ _)) by (unfold HEADER in *; lia). by eexists.
Qed.

Lemma join_ring_ok s B U bp n X pr Y :
  heap_inv s B U → U !! bp = Some n → (base, 0) :: B = X ++ pr :: Y →
  Forall (ring_ok (free_words pr bp n Y (words s))) (X ++ join_down pr (join_up (bp, n) Y)).
Proof.
  intros HI Hu EL. set (w' := free_words pr bp n Y (words s)).
  assert (Forall (ring_ok w') ((base, 0) :: B)) as Hok.
  { constructor; [by left|]. apply Forall_forall. intros y Hy. right.
    eapply block_ok_mapped; [intros a; apply free_words_mapped|]. by apply (inv_free _ _ _ HI). }
  rewrite EL in Hok. apply Forall_app in Hok as [HokX Hok]. apply Forall_cons in Hok as [Hokp HokY].
  apply Forall_app. split; [done|]. apply join_forall; [apply ring_ok_join|done| |done].
  right. eapply block_ok_mapped; [intros a; apply free_words_mapped|]. by apply (inv_used _ _ _ HI).
Qed.

Lemma covered_base u B : covered u ((base, 0) :: B) ↔ covered u B.
Proof. rewrite covered_cons. unfold within, HEADER. cbn. split; [intros [?|?]; [lia|done]|by right]. Qed.

Lemma heap_free_ok s B U bp n :
  heap_inv s B U → U !! bp = Some n →
  ∃ s' B', heap_free (bp + HEADER) s = Some (tt, s') ∧ heap_inv s' B' (delete bp U) ∧
    ∀ u, covered u B' ↔ covered u B ∨ within u (bp, n).
Proof.
  intros HI Hu. destruct (used_place s B U bp n HI Hu) as (X & pr & Y & EL & HP & HsY & Hlt & HY).
  destruct (join_spec bp n X pr Y HP HsY) as [Hs' Hcov]. cbv zeta in Hs', Hcov.
  pose proof (free_chain (words s) bp n X pr Y HP ltac:(rewrite <- EL; apply (inv_chain _ _ _ HI))) as Hc'.
  pose proof (join_ring_ok s B U bp n X pr Y HI Hu EL) as Hok.
  destruct (inv_used _ _ _ HI bp n Hu) as ((H1 & Hn & _) & _). cbn in Hn.
  destruct (join_head bp n X pr Y B HP HsY EL H1) as [B' EB].
  assert (pr.1 ∈ ((base, 0) :: B').*1) as Hpr.
  { rewrite <- EB. apply list_elem_of_fmap. unfold join_down. case_match; [exists (pr.1, pr.2 + (join_up (bp, n) Y).1.2)|exists pr]; (split; [done|set_solver]). }
  assert (∀ u, covered u B' ↔ covered u B ∨ within u (bp, n)) as Hcov'.
  { intros u. specialize (Hcov u). by rewrite EB, <- EL, !covered_base in Hcov. }
  rewrite EB in Hs', Hc', Hok. apply Forall_cons in Hok as [_ Hok].
  eexists _, B'. split; [by apply (heap_free_run s B U bp n X pr Y)|]. split; [|done].
  apply heap_inv_intro; try done; [apply (inv_base _ _ _ HI)|..].
  - intros a m [Hne Ha]%lookup_delete_Some. destruct (inv_used _ _ _ HI a m Ha) as [Hb Hw].
    split; [eapply block_ok_mapped; [intros ?; apply free_words_mapped|done]|].
    rewrite free_words_other; [done|..]; destruct Hb as (_ & Hm & _); cbn in Hm;
      destruct (inv_disjoint _ _ _ HI a m bp n Ha Hu (not_eq_sym Hne)) as [H|H]; cbn in H;
      pose proof (used_far s B U HI a m pr Ha ltac:(rewrite EL; set_solver)); unfold HEADER in *; lia.
  - intros a m u [Hne Ha]%lookup_delete_Some Hw. rewrite Hcov'. intros [(x & Hx & Hwx)|Hwx].
    + by eapply within_apart; [apply (inv_apart _ _ _ HI a m x Ha Hx)|..].
    + by eapply within_apart; [apply (inv_disjoint _ _ _ HI a m bp n Ha Hu (not_eq_sym Hne))|..].
  - intros a m b q [_ Ha]%lookup_delete_Some [_ Hb]%lookup_delete_Some. by apply (inv_disjoint _ _ _ HI).
Qed.

(** ** Allocating a block *)

Definition last_addr (prev : Z) (l : list block) : Z := match last l with Some x => x.1 | None => prev end.

Lemma last_addr_cons prev x l : last_addr x.1 l = last_addr prev (x :: l).
Proof. unfold last_addr. rewrite last_cons. by destruct (last l). Qed.

Lemma last_addr_snoc prev l x : last_addr prev (l ++ [x]) = x.1.
Proof. unfold last_addr. by rewrite last_snoc. Qed.

(** Blocks that are too small are passed by. *)
Lemma alloc_walk nunits s M R z prev fuel :
  chain (words s) (M ++ R) z → Forall (λ x, x.2 < nunits ∧ x.1 ≠ freep s) M →
  alloc_loop (length M + fuel) nunits prev (addr_or z (M ++ R)) s = alloc_loop fuel nunits (last_addr prev M) (addr_or z R) s.
Proof.
  revert prev. induction M as [|x M IH]; intros prev Hc HM; [done|]. cbn [app] in *. destruct Hc as (Hp & Hs & Hc).
  apply Forall_cons in HM as [[Hx Hf] HM]. cbn [length Nat.add alloc_loop addr_or]. unfold size, ptr.
  rewrite (bind_run _ _ _ _ _ (heap_read_run _ _ _ Hs)). rewrite (proj2 (Z.leb_gt _ _)) by done.
  rewrite (bind_run _ _ _ (freep s) s) by done. rewrite (proj2 (Z.eqb_neq _ _)) by done.
  rewrite (bind_run _ _ _ _ _ (heap_read_run _ _ _ Hp)). rewrite <- (last_addr_cons prev x M). by apply IH.
Qed.

(** The first block that is large enough, if there is one. *)
Lemma first_fit nunits (l : list block) :
  (∃ l1 x l2, l = l1 ++ x :: l2 ∧ Forall (λ x, x.2 < nunits) l1 ∧ nunits <= x.2) ∨ Forall (λ x, x.2 < nunits) l.
Proof.
  induction l as [|x l IH]; [by right|]. destruct (Z.le_gt_cases nunits x.2) as [H|H]; [left; by exists [], x, l|].
  destruct IH as [(l1 & y & l2 & -> & ? & ?)|?]; [left; exists (x :: l1), y, l2|right]; auto.
Qed.

(** The search finds a block behind another one of the ring. *)
Definition finds (nunits : Z) (s : uheap) (L : list block) (start : Z) : Prop :=
  ∃ A pr p C k, L = A ++ pr :: p :: C ∧ nunits <= p.2 ∧
    alloc_loop (length L) nunits (freep s) start s = alloc_loop (S k) nunits pr.1 p.1 s.

Lemma finds_intro nunits s L start A p C k :
  L = A ++ p :: C → nunits <= p.2 → A ≠ [] →
  alloc_loop (length L) nunits (freep s) start s = alloc_loop (S k) nunits (last_addr 0 A) p.1 s → finds nunits s L start.
Proof.
  intros -> Hp HA H. destruct A as [|pr A _] using rev_ind; [done|]. rewrite last_addr_snoc in H.
  exists A, pr, p, C, k. by rewrite <- app_assoc in *.
Qed.

Lemma no_dup_freep s L P f Q :
  StronglySorted before L → L = P ++ f :: Q → freep s = f.1 → Forall (λ x, x.1 ≠ freep s) P ∧ Forall (λ x, x.1 ≠ freep s) Q.
Proof.
  intros Hs -> ->. apply StronglySorted_app in Hs as (HPf & _ & Hs). apply StronglySorted_cons in Hs as [HQ _].
  rewrite Forall_forall in HQ. split; apply Forall_forall; intros x Hx.
  - destruct (HPf x f Hx); [set_solver|unfold HEADER in *; lia].
  - destruct (HQ x Hx). unfold HEADER in *. lia.
Qed.

Lemma last_addr_any a b l : l ≠ [] → last_addr a l = last_addr b l.
Proof. unfold last_addr. destruct (last l) eqn:E; [done|]. by apply last_None in E. Qed.

(** From [base] up to the block where the search started. *)
Lemma alloc_wraps nunits s P f Q prev :
  let L := P ++ f :: Q in
  chain (words s) L base → head L = Some (base, 0) → 1 <= nunits → Forall (λ x, x.1 ≠ freep s) P →
  alloc_loop (length L) nunits (freep s) (addr_or base Q) s = alloc_loop (length P + 1) nunits prev base s →
  (∃ x, x ∈ P ∧ nunits <= x.2) ∨ nunits <= f.2 → finds nunits s L (addr_or base Q).
Proof.
  intros L Hc Hh Hn HPn Hwrap Hfit.
  assert (base = addr_or base L) as Hbase by (destruct L; [done|cbn in Hh; by injection Hh as ->]).
  destruct (first_fit nunits P) as [(P1 & p & P2 & -> & HP1 & Hp)|HP].
  - assert (P1 ≠ []) as HP1e by (intros ->; cbn in Hh; injection Hh as ->; cbn in Hp; lia).
    apply (finds_intro nunits s L _ P1 p (P2 ++ f :: Q) (length P2 + 1)); [by unfold L; rewrite <- app_assoc|done|done|].
    rewrite Hwrap, Hbase, (last_addr_any 0 prev) by done. unfold L in *. rewrite <- app_assoc in *.
    replace (length (P1 ++ p :: P2) + 1)%nat with (length P1 + S (length P2 + 1))%nat by (rewrite length_app; cbn; lia).
    rewrite alloc_walk; [done|done|]. apply Forall_app in HPn as [HPn _]. apply Forall_and. by split.
  - destruct Hfit as [(x & Hx & Hxn)|Hf]; [rewrite Forall_forall in HP; specialize (HP x Hx); lia|].
    assert (P ≠ []) as HPe by (intros ->; cbn in Hh; injection Hh as ->; cbn in Hf; lia).
    apply (finds_intro nunits s L _ P f Q 0); [done|done|done|].
    rewrite Hwrap, Hbase, (last_addr_any 0 prev) by done. unfold L in *. rewrite alloc_walk; [done|done|]. apply Forall_and. by split.
Qed.

Lemma alloc_finds nunits s P f Q :
  let L := P ++ f :: Q in
  chain (words s) L base → StronglySorted before L → freep s = f.1 → head L = Some (base, 0) → 1 <= nunits →
  (∃ x, x ∈ L ∧ nunits <= x.2) → finds nunits s L (addr_or base Q).
Proof.
  intros L Hc Hs Hf Hh Hn (x & Hx & Hxn). destruct (no_dup_freep s L P f Q Hs eq_refl Hf) as [HPn HQn].
  pose proof Hc as Hc0. unfold L in Hc. apply chain_app in Hc as (HcP & Hfp & Hfs & HcQ).
  assert (length L = length Q + (length P + 1))%nat as Hlen by (unfold L; rewrite length_app; cbn; lia).
  destruct (first_fit nunits Q) as [(Q1 & p & Q2 & -> & HQ1 & Hp)|HQ].
  { apply (finds_intro nunits s L _ (P ++ f :: Q1) p Q2 (length L - length Q1 - 1)); [by unfold L; rewrite <- app_assoc|done|by destruct P|].
    replace (length L) with (length Q1 + S (length L - length Q1 - 1))%nat at 1 by (rewrite Hlen, length_app; cbn; lia).
    rewrite alloc_walk; [|done|apply Forall_app in HQn as [HQn _]; apply Forall_and; by split].
    f_equal. rewrite Hf, (last_addr_cons 0 f Q1). unfold last_addr. rewrite last_app, last_cons. by destruct (last Q1). }
  assert (alloc_loop (length L) nunits (freep s) (addr_or base Q) s = alloc_loop (length P + 1) nunits (last_addr (freep s) Q) base s) as Hwrap.
  { pose proof (alloc_walk nunits s Q [] base (freep s) (length P + 1)) as H. rewrite app_nil_r in H. cbn [addr_or] in H.
    rewrite Hlen. apply H; [done|]. apply Forall_and. by split. }
  apply (alloc_wraps nunits s P f Q (last_addr (freep s) Q)); try done; [apply Forall_and; by split..|].
  destruct (elem_of_app P (f :: Q) x) as [Hin _]. destruct (Hin Hx) as [H|[->|H]%elem_of_cons]; [left; eauto|by right|].
  rewrite Forall_forall in HQ. specialize (HQ x H). lia.
Qed.

Lemma alloc_loop_more fuel j nunits prev p s r : alloc_loop fuel nunits prev p s = Some r → alloc_loop (fuel + j) nunits prev p s = Some r.
Proof.
  revert prev p s. induction fuel as [|fuel IH]; intros prev p s H; [done|]. destruct r as [r s'].
  cbn [alloc_loop Nat.add] in *. apply bind_inv in H as (n & s1 & Hn & H). rewrite (bind_run _ _ _ _ _ Hn).
  destruct (nunits <=? n); [done|]. apply bind_inv in H as (f & s2 & Hf & H). rewrite (bind_run _ _ _ _ _ Hf).
  destruct (p =? f).
  - apply bind_inv in H as (q & s3 & Hq & H). rewrite (bind_run _ _ _ _ _ Hq). destruct (q =? 0); [done|].
    apply bind_inv in H as (next & s4 & Hx & H). rewrite (bind_run _ _ _ _ _ Hx). by apply IH.
  - apply bind_inv in H as (next & s4 & Hx & H). rewrite (bind_run _ _ _ _ _ Hx). by apply IH.
Qed.

(** The block that is taken out of the block [p] behind [pr], the ring that is
    left, and the memory. *)
Definition taken (nunits : Z) (p : block) : Z := p.1 + (p.2 - nunits) * HEADER.

Definition left_over (nunits : Z) (p : block) : list block := if p.2 =? nunits then [] else [(p.1, p.2 - nunits)].

Definition take_words (nunits : Z) (pr p : block) (C : list block) (w : gmap Z Z) : gmap Z Z :=
  if p.2 =? nunits then <[pr.1 := addr_or base C]> w
  else <[taken nunits p + 8 := nunits]> (<[p.1 + 8 := p.2 - nunits]> w).

Lemma take_run j nunits s pr p C u :
  words s !! pr.1 = Some u → chain (words s) (p :: C) base → block_ok (words s) p → 0 <= base → 1 <= nunits <= p.2 →
  alloc_loop (S j) nunits pr.1 p.1 s =
    Some (taken nunits p + HEADER, UHeap (take_words nunits pr p C (words s)) pr.1 (kern s)).
Proof.
  intros Hpr (Hp & Hs & _) (Hb1 & Hb2 & Hb3 & Hb4) Hb Hn. cbn [alloc_loop]. unfold size, ptr, taken, take_words. unfold HEADER in *.
  rewrite (bind_run _ _ _ _ _ (heap_read_run _ _ _ Hs)). rewrite (proj2 (Z.leb_le _ _)) by lia.
  destruct (Z.eqb_spec p.2 nunits) as [E|E].
  - rewrite (bind_run _ _ _ p.1 (UHeap (<[pr.1 := addr_or base C]> (words s)) (freep s) (kern s))).
    2:{ rewrite (bind_run _ _ _ _ _ (heap_read_run _ _ _ Hp)). by rewrite (bind_run _ _ _ _ _ (write_run _ _ _ _ Hpr)). }
    cbn. rewrite plus_ok by (unfold HEADER; lia). apply (f_equal Some), (f_equal2 pair); [unfold HEADER; lia|done].
  - destruct (Hb4 (2 * (p.2 - nunits) + 1) ltac:(lia)) as [v Hv].
    replace (p.1 + 8 * (2 * (p.2 - nunits) + 1)) with (p.1 + (p.2 - nunits) * 16 + 8) in Hv by lia.
    rewrite (bind_run _ _ _ (p.1 + (p.2 - nunits) * 16)
      (UHeap (<[p.1 + (p.2 - nunits) * 16 + 8 := nunits]> (<[p.1 + 8 := p.2 - nunits]> (words s))) (freep s) (kern s))).
    2:{ rewrite (bind_run _ _ _ _ _ (write_run _ _ _ _ Hs)). rewrite plus_ok by (unfold HEADER; lia). unfold HEADER.
        erewrite bind_run by (eapply write_run; cbn; rewrite lookup_insert_ne by lia; exact Hv). done. }
    cbn. rewrite plus_ok by (unfold HEADER; lia). apply (f_equal Some), (f_equal2 pair); [unfold HEADER; lia|done].
Qed.

Lemma take_chain nunits w A pr p C :
  StronglySorted before (A ++ pr :: p :: C) → chain w (A ++ pr :: p :: C) base → 1 <= nunits <= p.2 →
  chain (take_words nunits pr p C w) (A ++ pr :: left_over nunits p ++ C) base.
Proof.
  intros Hs Hc Hn. apply StronglySorted_app in Hs as (HA & _ & Hs). apply StronglySorted_cons in Hs as [Hpr Hs].
  apply StronglySorted_cons in Hs as [HpC _]. apply Forall_cons in Hpr as [[Hp1 _] HprC]. rewrite Forall_forall in HprC, HpC.
  apply chain_app in Hc as (HcA & Hprp & Hprs & Hpp & Hps & HcC). unfold take_words, left_over, taken, HEADER in *.
  assert (∀ x, x ∈ A → x.1 + 16 <= pr.1 ∧ x.1 + 16 <= p.1) as HA'.
  { intros x Hx. destruct (HA x pr Hx) as [? _]; [set_solver|]. destruct (HA x p Hx) as [? _]; [set_solver|]. unfold HEADER in *. lia. }
  assert (∀ x, x ∈ C → pr.1 + 16 <= x.1 ∧ p.1 + 16 <= x.1 ∧ p.1 + p.2 * 16 < x.1) as HC'.
  { intros x Hx. destruct (HprC x Hx) as [? _], (HpC x Hx) as [? ?]. unfold HEADER in *. lia. }
  destruct (Z.eqb_spec p.2 nunits) as [E|E]; cbn [app]; apply chain_app; cbn [addr_or chain fst snd].
  - split_and!; [apply chain_far; [|done]; intros x Hx; specialize (HA' x Hx); unfold HEADER; lia|apply lookup_insert_eq
      |by rewrite lookup_insert_ne by lia|apply chain_far; [|done]; intros x Hx; specialize (HC' x Hx); unfold HEADER; lia].
  - split_and!.
    + apply chain_far; [|apply chain_far; [|done]]; intros x Hx; specialize (HA' x Hx); unfold HEADER; lia.
    + by rewrite !lookup_insert_ne by lia.
    + by rewrite !lookup_insert_ne by lia.
    + by rewrite !lookup_insert_ne by lia.
    + rewrite lookup_insert_ne by lia. apply lookup_insert_eq.
    + apply chain_far; [|apply chain_far; [|done]]; intros x Hx; specialize (HC' x Hx); unfold HEADER; lia.
Qed.

Lemma take_spec nunits A pr p C :
  StronglySorted before (A ++ pr :: p :: C) → 1 <= nunits <= p.2 →
  let L := A ++ pr :: left_over nunits p ++ C in
  StronglySorted before L ∧ (∀ u, covered u L → within u (taken nunits p, nunits) → False) ∧
  ∀ u, covered u (A ++ pr :: p :: C) ↔ covered u L ∨ within u (taken nunits p, nunits).
Proof.
  intros Hs Hn. cbv zeta. pose proof Hs as Hs0. apply StronglySorted_app in Hs as (HA & HsA & Hs).
  apply StronglySorted_cons in Hs as [Hpr Hs]. apply StronglySorted_cons in Hs as [HpC HsC].
  apply Forall_cons in Hpr as [Hprp HprC]. split_and!.
  - assert (Forall (before pr) (left_over nunits p ++ C)) as H1.
    { unfold left_over. case_match; [done|]. constructor; [|done]. unfold before in *. cbn. lia. }
    assert (StronglySorted before (left_over nunits p ++ C)) as H2.
    { unfold left_over. case_match; [done|]. cbn. apply StronglySorted_cons. split; [|done].
      eapply Forall_impl; [exact HpC|]. intros y [? ?]. unfold before, HEADER in *. cbn. lia. }
    apply StronglySorted_app. split_and!; [|done|by apply StronglySorted_cons].
    intros x y Hx Hy. unfold left_over in Hy. case_match; [apply HA; set_solver|].
    apply elem_of_cons in Hy as [->|[->|Hy]%elem_of_cons]; [apply HA; set_solver| |apply HA; set_solver].
    destruct (HA x p Hx); [set_solver|]. by split.
  - intros u (x & Hx & Hwx) Hw. rewrite Forall_forall in HpC. unfold within, taken, HEADER in *. cbn in Hw.
    apply elem_of_app in Hx as [Hx|[->|[Hx|Hx]%elem_of_app]%elem_of_cons].
    + destruct (HA x p Hx); [set_solver|]. unfold HEADER in *. lia.
    + destruct Hprp. unfold HEADER in *. lia.
    + unfold left_over in Hx. case_match; [by apply elem_of_nil in Hx|]. apply list_elem_of_singleton in Hx as ->. cbn in Hwx. lia.
    + destruct (HpC x Hx). unfold HEADER in *. lia.
  - intros u. rewrite !covered_app, !covered_cons, covered_app.
    assert (within u p ↔ covered u (left_over nunits p) ∨ within u (taken nunits p, nunits)) as ->; [|tauto].
    unfold left_over, taken. case_match eqn:E; [apply Z.eqb_eq in E|]; rewrite ?covered_cons; unfold within, HEADER; cbn.
    + split; [right; lia|]. intros [H%covered_nil|H]; [done|lia].
    + split; [lia|]. intros [[H|H%covered_nil]|H]; [lia|done|lia].
Qed.

Lemma take_words_mapped nunits pr p C w a : is_Some (w !! a) → is_Some (take_words nunits pr p C w !! a).
Proof. intros. unfold take_words. case_match; by repeat apply insert_mapped. Qed.

Lemma take_words_other nunits pr p C w a :
  a ≠ pr.1 → a ≠ p.1 + 8 → a ≠ taken nunits p + 8 → take_words nunits pr p C w !! a = w !! a.
Proof. intros. unfold take_words. case_match; by rewrite !lookup_insert_ne by done. Qed.

Lemma take_words_size nunits pr p C w :
  w !! (p.1 + 8) = Some p.2 → pr.1 + HEADER <= p.1 → take_words nunits pr p C w !! (taken nunits p + 8) = Some nunits.
Proof.
  intros Hp Hpr. unfold take_words, taken, HEADER in *. destruct (Z.eqb_spec p.2 nunits) as [E|E]; [|apply lookup_insert_eq].
  rewrite lookup_insert_ne by lia. replace (p.1 + (p.2 - nunits) * 16 + 8) with (p.1 + 8) by lia. congruence.
Qed.

Lemma take_ring_ok nunits w w' A pr p C :
  (∀ a, is_Some (w !! a) → is_Some (w' !! a)) → 1 <= nunits <= p.2 →
  Forall (ring_ok w) (A ++ pr :: p :: C) → Forall (ring_ok w') (A ++ pr :: left_over nunits p ++ C) ∧ (block_ok w p → block_ok w' (taken nunits p, nunits)).
Proof.
  intros Hm Hn Hok. assert (∀ x, ring_ok w x → ring_ok w' x) as Hw by (intros x [->|]; [by left|right; by eapply block_ok_mapped]).
  apply Forall_app in Hok as [HA Hok]. apply Forall_cons in Hok as [Hpr Hok]. apply Forall_cons in Hok as [Hp HC]. split.
  - apply Forall_app. split; [by eapply Forall_impl|]. constructor; [auto|]. apply Forall_app. split; [|by eapply Forall_impl].
    unfold left_over. destruct (Z.eqb_spec p.2 nunits) as [E|E]; [done|]. constructor; [|done]. right.
    destruct Hp as [->|(H1 & H2 & H3 & H4)]; [cbn in Hn; lia|]. unfold block_ok, HEADER in *. cbn. split_and!; [lia..|]. intros i Hi. apply Hm, H4. lia.
  - intros (H1 & H2 & H3 & H4). unfold block_ok, taken, HEADER in *. cbn. split_and!; [lia..|]. intros i Hi. apply Hm.
    replace (p.1 + (p.2 - nunits) * 16 + 8 * i) with (p.1 + 8 * (2 * (p.2 - nunits) + i)) by lia. apply H4. lia.
Qed.

Lemma ring_behind (b : block) B A pr p C :
  b :: B = A ++ pr :: p :: C → p ∈ B ∧ ∀ l, ∃ B', A ++ pr :: l ++ C = b :: B'.
Proof. destruct A as [|a A]; cbn; intros [= -> ->]; split; [set_solver|by eexists|set_solver|by eexists]. Qed.

Lemma take_inv s B U nunits A pr p C :
  heap_inv s B U → (base, 0) :: B = A ++ pr :: p :: C → 1 <= nunits <= p.2 →
  U !! taken nunits p = None ∧
  ∃ B', heap_inv (UHeap (take_words nunits pr p C (words s)) pr.1 (kern s)) B' (<[taken nunits p := nunits]> U) ∧
    ∀ u, covered u B ↔ covered u B' ∨ within u (taken nunits p, nunits).
Proof.
  intros HI EL Hn. destruct (ring_behind _ _ _ _ _ _ EL) as [HpB HB']. destruct (HB' (left_over nunits p)) as [B' EB].
  pose proof (inv_sorted _ _ _ HI) as Hs. pose proof (inv_chain _ _ _ HI) as Hc. rewrite EL in Hs, Hc.
  destruct (take_spec nunits A pr p C Hs Hn) as (Hs' & Hdis & Hcov). cbv zeta in Hs', Hdis, Hcov.
  pose proof (take_chain nunits (words s) A pr p C Hs Hc Hn) as Hc'.
  assert (Forall (ring_ok (words s)) (A ++ pr :: p :: C)) as Hok.
  { rewrite <- EL. constructor; [by left|]. apply Forall_forall. intros x Hx. right. by apply (inv_free _ _ _ HI). }
  destruct (take_ring_ok nunits _ _ A pr p C (take_words_mapped nunits pr p C (words s)) Hn Hok) as [Hok' Hnew].
  pose proof (inv_free _ _ _ HI p HpB) as Hpok. specialize (Hnew Hpok). pose proof (inv_apart _ _ _ HI) as Hap.
  assert (∀ u, within u (taken nunits p, nunits) → within u p) as Hin by (intros u; unfold within, taken, HEADER; cbn; lia).
  assert (∀ a n, U !! a = Some n → apart (a, n) (taken nunits p, nunits)) as Hapt.
  { intros a n Ha. specialize (Hap a n p Ha HpB). unfold apart, taken, HEADER in *. cbn in *. lia. }
  assert (pr.1 + HEADER <= p.1) as Hprp.
  { apply StronglySorted_app in Hs as (_ & _ & Hs). apply StronglySorted_cons in Hs as [Hs _]. by apply Forall_cons in Hs as [[] _]. }
  apply chain_app in Hc as (_ & _ & _ & _ & Hps & _).
  split.
  { destruct (U !! taken nunits p) as [n|] eqn:Hu; [|done]. exfalso. destruct (inv_used _ _ _ HI _ _ Hu) as ((_ & ? & _) & _).
    specialize (Hapt _ _ Hu). unfold apart, HEADER in Hapt. cbn in *. lia. }
  exists B'. rewrite EB in Hs', Hc', Hok', Hcov, Hdis. rewrite <- EL in Hcov. apply Forall_cons in Hok' as [_ Hok'].
  split; [|intros u; specialize (Hcov u); by rewrite !covered_base in Hcov].
  apply heap_inv_intro; try done; [apply (inv_base _ _ _ HI)|rewrite <- EB; apply list_elem_of_fmap; exists pr; set_solver|..].
  - intros a n [[<- <-]|[Hne Ha]]%lookup_insert_Some; [split; [done|]; by apply take_words_size|].
    destruct (inv_used _ _ _ HI a n Ha) as [Hb Hw]. split; [eapply block_ok_mapped; [apply take_words_mapped|done]|].
    pose proof (Hapt a n Ha) as Hapa. specialize (Hap a n p Ha HpB). pose proof (used_far s B U HI a n pr Ha ltac:(rewrite EL; set_solver)).
    destruct Hb as (_ & Hm & _). cbn in Hm. rewrite take_words_other; [done|..]; unfold apart, taken, HEADER in *; cbn in *; lia.
  - intros a n u [[<- <-]|[Hne Ha]]%lookup_insert_Some Hw HcB; [apply (Hdis u); [by apply covered_base|done]|].
    assert (covered u B) as (x & Hx & Hwx) by (apply covered_base, Hcov; left; by apply covered_base).
    by eapply within_apart; [apply (Hap a n x Ha Hx)|..].
  - intros a n b m [[<- <-]|[Hne Ha]]%lookup_insert_Some [[<- <-]|[Hne' Hb]]%lookup_insert_Some Hd; [done| | |by apply (inv_disjoint _ _ _ HI)].
    + specialize (Hapt _ _ Hb). unfold apart in *. cbn in *. lia.
    + by apply Hapt.
Qed.

(** ** Theorems *)

(** C22: [heap_alloc] gives a block of the requested size when a free block is
    large enough, wherever in the ring the search starts: it is a part of the
    free memory that is no longer free, apart from every block in use, and the
    rest of the free memory stays free. *)
Theorem user_heap_alloc s B U x fuel bytes :
  heap_inv s B U → x ∈ B → units bytes <= x.2 → 0 <= bytes < 2 ^ 64 - HEADER → (length B < fuel)%nat →
  ∃ a s' B', heap_alloc fuel bytes s = Some (a + HEADER, s') ∧ U !! a = None ∧ bytes <= (units bytes - 1) * HEADER ∧
    heap_inv s' B' (<[a := units bytes]> U) ∧ ∀ u, covered u B ↔ covered u B' ∨ within u (a, units bytes).
Proof.
  intros HI Hx Hfit Hb Hfuel.
  assert (1 <= units bytes ∧ bytes <= (units bytes - 1) * HEADER) as [Hn1 Hn2].
  { unfold units, HEADER in *. rewrite wrap64_small by (unfold is_u64; lia). Z.to_euclidean_division_equations; lia. }
  pose proof (inv_freep _ _ _ HI) as Hf. apply list_elem_of_fmap in Hf as (f & Hf & Hin).
  destruct (ring_sized s B U HI f Hin) as [_ Hfb]. pose proof (inv_base _ _ _ HI) as Hbase.
  apply list_elem_of_split in Hin as (P & Q & EL). pose proof (inv_chain _ _ _ HI) as Hc. pose proof (inv_sorted _ _ _ HI) as Hs.
  rewrite EL in Hc, Hs.
  destruct (alloc_finds (units bytes) s P f Q Hc Hs Hf) as (A & pr & p & C & k & EL' & Hp & Hrun);
    [by rewrite <- EL|done|exists x; split; [rewrite <- EL; set_solver|done]|].
  rewrite <- EL in EL'. destruct (take_inv s B U (units bytes) A pr p C HI EL' ltac:(lia)) as (Hnone & B' & HI' & Hcov).
  exists (taken (units bytes) p), (UHeap (take_words (units bytes) pr p C (words s)) pr.1 (kern s)), B'. split_and!; try done.
  unfold heap_alloc. rewrite (bind_run _ _ _ (freep s) s) by done. rewrite (proj2 (Z.eqb_neq (freep s) 0)) by lia.
  rewrite (bind_run _ _ _ (freep s) s) by done.
  apply chain_app in Hc as (_ & Hfn & _). rewrite (bind_run _ _ _ (addr_or base Q) s) by (unfold ptr; rewrite Hf; by apply heap_read_run).
  replace fuel with (length ((base, 0%Z) :: B) + (fuel - length ((base, 0%Z) :: B)))%nat by (cbn; lia).
  apply alloc_loop_more. rewrite EL at 1. rewrite Hrun.
  rewrite EL' in EL. rewrite <- EL in *. pose proof (inv_chain _ _ _ HI) as Hc'. rewrite EL' in Hc'.
  apply chain_app in Hc' as (_ & Hpr & _ & Hc'). eapply take_run; [done|done| |lia|lia].
  apply (inv_free _ _ _ HI). by apply (ring_behind _ _ _ _ _ _ EL').
Qed.

(** C23: [heap_free] of a block in use makes its memory free and leaves all
    other free memory and every other block in use as they are; the ring stays
    sorted, and blocks that touch are joined into one. *)
Theorem user_heap_free s B U a n :
  heap_inv s B U → U !! a = Some n →
  ∃ s' B', heap_free (a + HEADER) s = Some (tt, s') ∧ heap_inv s' B' (delete a U) ∧
    (∀ u, covered u B' ↔ covered u B ∨ within u (a, n)) ∧ StronglySorted (λ x y, x.1 + x.2 * HEADER < y.1) B'.
Proof.
  intros HI Hu. destruct (heap_free_ok s B U a n HI Hu) as (s' & B' & H & HI' & Hcov). exists s', B'. split_and!; try done.
  pose proof (inv_sorted _ _ _ HI') as Hs. apply StronglySorted_cons in Hs as [_ Hs].
  clear -Hs. induction Hs as [|x l Hs IH Hx]; constructor; [done|]. eapply Forall_impl; [exact Hx|]. by intros y [_ ?].
Qed.

(** *** Growing the heap *)

Section grow.
(** The kernel answers 0 with the start [hb] of the heap, and the request for
    [n] units more with [g]. *)
Context (hb g n : Z).
Context (asks_start : ∀ w k, ∃ k', set_heap_size 0 (w, k) = Some ((ERROR_SUCCESS, hb), (w, k'))).
Context (asks_more : ∀ w k, ∃ k', set_heap_size (hb + n * HEADER) (w, k) = Some ((ERROR_SUCCESS, g), (w, k'))).
Context (Hn : 1 <= n) (Hhb : 0 <= hb <= g) (Hmore : hb + n * HEADER < 2 ^ 64) (Hbase : 0 < base < 2 ^ 64).

(** Only [base] is in the ring, and the memory from [g] on is mapped. *)
Definition exhausted (w : gmap Z Z) : Prop := w !! base = Some base ∧ w !! (base + 8) = Some 0 ∧ block_ok w (g, n).

Lemma expand_run w k :
  exhausted w →
  ∃ k', heap_expand n (UHeap w base k) = Some (base, UHeap (free_words (base, 0) g n [] (<[g + 8 := n]> w)) base k').
Proof.
  intros (Hb & Hb8 & Hok). pose proof Hok as (H1 & _ & H3 & H4). cbn in H1, H3, H4. destruct (asks_start w k) as [k1 E1], (asks_more w k1) as [k2 E2].
  destruct (H4 1 ltac:(lia)) as [v Hv]. rewrite Z.mul_1_r in Hv. exists k2. unfold heap_expand.
  rewrite (bind_run _ _ _ (ERROR_SUCCESS, hb) (UHeap w base k1)) by (unfold syscall; cbn; by rewrite E1). cbn [bool_decide negb].
  rewrite bool_decide_eq_true_2 by done. cbn [negb]. unfold HEADER in *. rewrite wrap64_small by (unfold is_u64; lia).
  rewrite (bind_run _ _ _ (ERROR_SUCCESS, g) (UHeap w base k2)) by (unfold syscall; cbn; by rewrite E2).
  rewrite bool_decide_eq_true_2, (proj2 (Z.ltb_ge _ _)) by (done || lia). cbn [negb orb].
  erewrite bind_run by (by eapply write_run). cbn [words freep kern]. rewrite plus_ok by (unfold HEADER; lia). rewrite Z.mul_1_l.
  assert (heap_inv (UHeap (<[g + 8 := n]> w) base k2) [] {[ g := n ]}) as HI.
  { unfold HEADER in *. assert (block_ok (<[g + 8 := n]> w) (g, n)) as Hok' by (eapply block_ok_mapped; [intros a; apply insert_mapped|done]).
    apply heap_inv_intro; [done| |by repeat constructor|set_solver|done| | |].
    - split_and!; cbn; [rewrite lookup_insert_ne by lia; done..|done].
    - intros a m [<- <-]%lookup_singleton_Some. split; [done|]. apply lookup_insert_eq.
    - intros a m u _ _. apply covered_nil.
    - intros a m b q [<- <-]%lookup_singleton_Some [<- <-]%lookup_singleton_Some. done. }
  rewrite (bind_run _ _ _ _ _ (heap_free_run _ [] {[ g := n ]} g n [] (base, 0) [] HI (lookup_singleton_eq _ _) eq_refl ltac:(cbn; unfold HEADER in *; lia) ltac:(constructor))).
  done.
Qed.

Lemma grow_run w k fuel bytes :
  exhausted w → units bytes = n → (2 <= fuel)%nat →
  ∃ w' k', heap_alloc fuel bytes (UHeap w base k) = Some (g + HEADER, UHeap w' base k') ∧ exhausted w'.
Proof.
  intros Hex Hu Hf. destruct (expand_run w k Hex) as [k' Hexp]. pose proof Hex as (Hb & Hb8 & Hok).
  set (w1 := free_words (base, 0) g n [] (<[g + 8 := n]> w)) in *.
  assert (base + HEADER <= g) as Hbg by (by destruct Hok as [? _]). unfold HEADER in Hbg.
  assert (w1 = <[base := g]> (<[g := base]> (<[g + 8 := n]> w))) as E1.
  { unfold w1, free_words, link_up, HEADER. cbn. rewrite (proj2 (Z.eqb_neq _ _)) by lia. by rewrite insert_insert_eq. }
  clearbody w1. destruct fuel as [|[|fuel]]; [lia..|]. unfold heap_alloc. rewrite (bind_run _ _ _ base (UHeap w base k)) by done.
  rewrite (proj2 (Z.eqb_neq base 0)) by lia. rewrite (bind_run _ _ _ base (UHeap w base k)) by done.
  unfold ptr at 1. rewrite (bind_run _ _ _ base (UHeap w base k)) by (by apply heap_read_run). rewrite Hu.
  remember (S fuel) as fuel1 eqn:Ef. cbn [alloc_loop]. unfold size at 1. rewrite (bind_run _ _ _ 0 (UHeap w base k)) by (by apply heap_read_run).
  rewrite (proj2 (Z.leb_gt _ _)) by lia. rewrite (bind_run _ _ _ base (UHeap w base k)) by done. rewrite Z.eqb_refl.
  rewrite (bind_run _ _ _ _ _ Hexp). rewrite (proj2 (Z.eqb_neq base 0)) by lia.
  unfold ptr at 1. rewrite (bind_run _ _ _ g (UHeap w1 base k')) by (apply heap_read_run; cbn; rewrite E1; apply lookup_insert_eq). subst fuel1.
  assert (block_ok w1 (g, n)) as Hok1 by (eapply block_ok_mapped; [|exact Hok]; intros a Ha; rewrite E1; by repeat apply insert_mapped).
  pose proof (take_run fuel n (UHeap w1 base k') (base, 0) (g, n) [] g) as Ht. cbn [fst words freep kern] in Ht. rewrite Ht; clear Ht;
    [|rewrite E1; apply lookup_insert_eq| |done|lia|cbn; lia].
  - unfold taken, take_words. cbn [fst snd addr_or]. rewrite Z.eqb_refl, Z.sub_diag, Z.mul_0_l, Z.add_0_r.
    eexists _, _. split; [done|]. unfold exhausted. split_and!.
    + apply lookup_insert_eq.
    + rewrite E1, !lookup_insert_ne by lia. done.
    + eapply block_ok_mapped; [intros a; apply insert_mapped|done].
  - split_and!; cbn; [|rewrite E1; by rewrite lookup_insert_ne, lookup_insert_ne, lookup_insert_eq by lia|done].
    rewrite E1. by rewrite lookup_insert_ne, lookup_insert_eq by lia.
Qed.
End grow.

(** When the heap is empty, two requests of the same size are given the
    same block.  [heap_expand] puts the new block at the address the kernel
    leaves in the argument, which it computes from the start of the heap and
    the size, not from the end of the heap. *)
Theorem heap_alloc_repeats s hb g bytes fuel :
  (∀ w k, ∃ k', set_heap_size 0 (w, k) = Some ((ERROR_SUCCESS, hb), (w, k'))) →
  (∀ w k, ∃ k', set_heap_size (hb + units bytes * HEADER) (w, k) = Some ((ERROR_SUCCESS, g), (w, k'))) →
  0 <= bytes < 2 ^ 64 - HEADER → 0 <= hb <= g → hb + units bytes * HEADER < 2 ^ 64 → 0 < base < 2 ^ 64 → block_ok (words s) (g, units bytes) →
  is_Some (words s !! base) → is_Some (words s !! (base + 8)) → freep s = 0 → (2 <= fuel)%nat →
  ∃ s1 s2, heap_alloc fuel bytes s = Some (g + HEADER, s1) ∧ heap_alloc fuel bytes s1 = Some (g + HEADER, s2).
Proof.
  intros Hs Hm Hby Hg Hov Hb Hok [u Hbp] [v Hbs] Hf Hfuel.
  assert (1 <= units bytes) as Hn.
  { unfold units, HEADER in *. rewrite wrap64_small by (unfold is_u64; lia). Z.to_euclidean_division_equations; lia. }
  destruct s as [w f k]. cbn in *. subst f. pose proof Hok as [H1 _]. cbn in H1. unfold HEADER in H1.
  set (w0 := <[base + 8 := 0]> (<[base := base]> w)).
  assert (exhausted g (units bytes) w0) as Hex.
  { unfold w0. split_and!; [rewrite lookup_insert_ne by lia; apply lookup_insert_eq|apply lookup_insert_eq|].
    eapply block_ok_mapped; [|exact Hok]. intros a Ha. by repeat apply insert_mapped. }
  assert (heap_alloc fuel bytes (UHeap w 0 k) = heap_alloc fuel bytes (UHeap w0 base k)) as ->.
  { transitivity ((p ← ptr base; alloc_loop fuel (units bytes) base p) (UHeap w0 base k)).
    - unfold heap_alloc. rewrite (bind_run _ _ _ 0 (UHeap w 0 k)) by done. rewrite Z.eqb_refl.
      rewrite (bind_run _ _ _ base (UHeap w0 base k)); [done|].
      rewrite (bind_run _ _ _ tt (UHeap (<[base := base]> w) 0 k)) by (by eapply write_run).
      rewrite (bind_run _ _ _ tt (UHeap (<[base := base]> w) base k)) by done.
      erewrite bind_run by (eapply write_run; cbn; rewrite lookup_insert_ne by lia; done). done.
    - unfold heap_alloc. rewrite (bind_run get_freep _ (UHeap w0 base k) base (UHeap w0 base k)) by done.
      rewrite (proj2 (Z.eqb_neq base 0)) by lia. by rewrite (bind_run (mret base) _ (UHeap w0 base k) base (UHeap w0 base k)). }
  destruct (grow_run hb g (units bytes) Hs Hm Hn Hg Hov Hb w0 k fuel bytes Hex eq_refl Hfuel) as (w1 & k1 & -> & Hex1).
  destruct (grow_run hb g (units bytes) Hs Hm Hn Hg Hov Hb w1 k1 fuel bytes Hex1 eq_refl Hfuel) as (w2 & k2 & H2 & _). eauto.
Qed.
End heap.

(** ** Witnesses *)

Fixpoint zeroes (a : Z) (n : nat) (w : gmap Z Z) : gmap Z Z :=
  match n with O => w | S n => <[a := 0]> (zeroes (a + 8) n w) end.

Lemma zeroes_mapped a n w i : 0 <= i < Z.of_nat n → is_Some (zeroes a n w !! (a + 8 * i)).
Proof.
  revert a i. induction n as [|n IH]; intros a i Hi; [lia|]. cbn. destruct (Z.eq_dec i 0) as [->|].
  - rewrite Z.mul_0_r, Z.add_0_r, lookup_insert_eq. eauto.
  - rewrite lookup_insert_ne by lia. replace (a + 8 * i) with (a + 8 + 8 * (i - 1)) by lia. apply IH. lia.
Qed.

(** A free block of 8 units and a block of 4 units in use. *)
Definition ex_words : gmap Z Z :=
  <[4096 := 8192]> (<[4104 := 0]> (<[8192 := 4096]> (<[8200 := 8]> (<[8456 := 4]> (zeroes 8192 64 ∅))))).
Definition ex_heap : uheap (K := unit) := UHeap ex_words 4096 tt.

Lemma ex_mapped a n : 8192 <= a → a mod 8 = 0 → 0 <= n → a + n * HEADER <= 8704 → ∀ i, 0 <= i < 2 * n → is_Some (ex_words !! (a + 8 * i)).
Proof.
  intros Ha Hm Hn He i Hi. unfold ex_words, HEADER in *. do 5 apply insert_mapped.
  replace (a + 8 * i) with (8192 + 8 * ((a - 8192) / 8 + i)) by (Z.to_euclidean_division_equations; lia).
  apply zeroes_mapped. Z.to_euclidean_division_equations; lia.
Qed.

Lemma ex_inv : heap_inv 4096 ex_heap [(8192, 8)] {[ 8448 := 4 ]}.
Proof.
  apply heap_inv_intro.
  - lia.
  - vm_compute. by repeat split.
  - apply StronglySorted_cons. split; [constructor; [|done]; unfold before, HEADER; cbn; lia|]. by repeat constructor.
  - apply list_elem_of_here.
  - constructor; [|done]. right. split_and!; [cbn; unfold HEADER; lia..|]. apply ex_mapped; [cbn; lia|reflexivity|cbn; lia|unfold HEADER; cbn; lia].
  - intros a n [<- <-]%lookup_singleton_Some. split; [|vm_compute; reflexivity].
    split_and!; [cbn; unfold HEADER; lia..|]. apply ex_mapped; [cbn; lia|reflexivity|cbn; lia|unfold HEADER; cbn; lia].
  - intros a n u [<- <-]%lookup_singleton_Some H (x & Hx%list_elem_of_singleton & Hw). subst x.
    unfold within, HEADER in *. cbn in *. lia.
  - intros a n b m [<- <-]%lookup_singleton_Some [<- <-]%lookup_singleton_Some. done.
Qed.

(** A kernel that grows the heap, which starts at 8192, to the size asked for. *)
Definition ex_kernel (heap_ptr : Z) : ST (gmap Z Z * unit) (error_code_values * Z) := λ x,
  Some ((ERROR_SUCCESS, if heap_ptr <? 8192 then 8192 else heap_ptr), x).

Lemma user_heap_alloc_witness :
  ∃ a s' B', heap_alloc 4096 ex_kernel 2 40 ex_heap = Some (a + HEADER, s') ∧ ({[ 8448 := 4 ]} : gmap Z Z) !! a = None ∧ 40 <= (units 40 - 1) * HEADER ∧
    heap_inv 4096 s' B' (<[a := units 40]> {[ 8448 := 4 ]}) ∧ ∀ u, covered u [(8192, 8)] ↔ covered u B' ∨ within u (a, units 40).
Proof.
  apply (user_heap_alloc 4096 ex_kernel ex_heap [(8192, 8)] {[ 8448 := 4 ]} (8192, 8) 2 40);
    [apply ex_inv|apply list_elem_of_here|by vm_compute|unfold HEADER; lia|cbn; lia].
Defined.

Lemma user_heap_free_witness :
  ∃ s' B', heap_free (8448 + HEADER) ex_heap = Some (tt, s') ∧ heap_inv 4096 s' B' (delete 8448 {[ 8448 := 4 ]}) ∧
    (∀ u, covered u B' ↔ covered u [(8192, 8)] ∨ within u (8448, 4)) ∧ StronglySorted (λ x y, x.1 + x.2 * HEADER < y.1) B'.
Proof. apply (user_heap_free 4096 ex_kernel ex_heap [(8192, 8)] {[ 8448 := 4 ]} 8448 4); [apply ex_inv|apply lookup_singleton_eq]. Defined.

Lemma heap_alloc_repeats_witness :
  ∃ s1 s2, heap_alloc 4096 ex_kernel 2 40 (UHeap ex_words 0 tt) = Some (8256 + HEADER, s1) ∧
    heap_alloc 4096 ex_kernel 2 40 s1 = Some (8256 + HEADER, s2).
Proof.
  apply (heap_alloc_repeats 4096 ex_kernel (UHeap ex_words 0 tt) 8192 8256 40 2); try (unfold HEADER; lia).
  - intros w []. by exists tt.
  - intros w []. by exists tt.
  - by vm_compute.
  - split_and!; [cbn; unfold HEADER; lia|by vm_compute|by vm_compute|]. apply ex_mapped; [cbn; lia|done|by vm_compute|by vm_compute].
  - vm_compute. eauto.
  - vm_compute. eauto.
  - done.
Defined.
