(* ===== verification/Elf.v ===== *)
(** * Loading programs: [kern/task/process/elf/], [internals/elf64_spec.hpp]

    The binary is a list of bytes, and header fields are read at their offsets.
    A process is its address space [a].  The contents of the physical memory are
    a function [ram] beside the state of [AddressSpace]; the kernel writes to a
    page through its own mapping, which is [V2P].  [fuel] bounds the addresses
    [allocate] tries, one per page of the user space at most. *)

From S2P Require Import Prelude Types Bytes Links Buddy Pmm PodList IntrusiveList Paging PageRefs AddressSpace.

(** ** Headers *)

Definition PT_LOAD : Z := 1.
Definition PF_X : Z := 1.
Definition PF_W : Z := 2.
Definition PF_R : Z := 4.
Definition SHT_NOBITS : Z := 8.
Definition SHF_WRITE : Z := 1.
Definition SHF_ALLOC : Z := 2.
Definition SHF_EXECINSTR : Z := 4.

Record Elf64_Ehdr := Ehdr {
  e_type : Z; e_machine : Z; e_version : Z; e_entry : Z; e_phoff : Z; e_shoff : Z; e_flags : Z;
  e_ehsize : Z; e_phentsize : Z; e_phnum : Z; e_shentsize : Z; e_shnum : Z; e_shstrndx : Z;
}.

Record Elf64_Phdr := Phdr {
  p_type : Z; p_flags : Z; p_offset : Z; p_vaddr : Z; p_paddr : Z; p_filesz : Z; p_memsz : Z; p_align : Z;
}.

Record Elf64_Shdr := Shdr {
  sh_name : Z; sh_type : Z; sh_flags : Z; sh_addr : Z; sh_offset : Z; sh_size : Z; sh_link : Z; sh_info : Z;
  sh_addralign : Z; sh_entsize : Z;
}.

(** The header behind the sixteen bytes of [e_ident]. *)
Definition read_ehdr (b : buffer) : option Elf64_Ehdr :=
  ty ← load 2 16 b; machine ← load 2 18 b; version ← load 4 20 b; entry ← load 8 24 b; phoff ← load 8 32 b;
  shoff ← load 8 40 b; flags ← load 4 48 b; ehsize ← load 2 52 b; phentsize ← load 2 54 b; phnum ← load 2 56 b;
  shentsize ← load 2 58 b; shnum ← load 2 60 b; shstrndx ← load 2 62 b;
  Some (Ehdr ty machine version entry phoff shoff flags ehsize phentsize phnum shentsize shnum shstrndx).

Definition PHDR_SIZE : Z := 56.
Definition SHDR_SIZE : Z := 64.

(** [prog_header\[i\]], [section_headers\[i\]] of arrays at [off]. *)
Definition read_phdr (b : buffer) (off i : Z) : option Elf64_Phdr :=
  let o := off + i * PHDR_SIZE in
  ty ← load 4 o b; flags ← load 4 (o + 4) b; offset ← load 8 (o + 8) b; vaddr ← load 8 (o + 16) b;
  paddr ← load 8 (o + 24) b; filesz ← load 8 (o + 32) b; memsz ← load 8 (o + 40) b; align ← load 8 (o + 48) b;
  Some (Phdr ty flags offset vaddr paddr filesz memsz align).

Definition read_shdr (b : buffer) (off i : Z) : option Elf64_Shdr :=
  let o := off + i * SHDR_SIZE in
  name ← load 4 o b; ty ← load 4 (o + 4) b; flags ← load 8 (o + 8) b; addr ← load 8 (o + 16) b;
  offset ← load 8 (o + 24) b; size ← load 8 (o + 32) b; link ← load 4 (o + 40) b; info ← load 4 (o + 44) b;
  addralign ← load 8 (o + 48) b; entsize ← load 8 (o + 56) b;
  Some (Shdr name ty flags addr offset size link info addralign entsize).

(** ** [elf_executable] *)

Record elf_executable := Elf { bin : buffer; m_valid : bool; elf_header : Elf64_Ehdr; prog_headers : Z; section_headers : Z }.

(** [None]: the file ends within its header. *)
Definition parse (b : buffer) : option (result elf_executable) :=
  m0 ← load 1 0 b; m1 ← load 1 1 b; m2 ← load 1 2 b; m3 ← load 1 3 b;
  if negb (m0 =? 0x7F) || negb (m1 =? 69) || negb (m2 =? 76) || negb (m3 =? 70) then Some (Err ERROR_INVALID) else
  h ← read_ehdr b;
  Some (Ok (Elf b true h (e_phoff h) (e_shoff h))).

Definition get_elf_header (e : elf_executable) : result Elf64_Ehdr :=
  if negb (m_valid e) then Err ERROR_INVALID else Ok (elf_header e).

(** With a null pointer in [*out]: where the headers are and how many; otherwise
    the caller's array is filled in. *)
Definition get_program_headers (e : elf_executable) (out : option buffer) : option (result (Z * option buffer * Z)) :=
  if negb (m_valid e) then Some (Err ERROR_INVALID) else
  match out with
  | None => Some (Ok (prog_headers e, None, e_phnum (elf_header e)))
  | Some dst =>
      d ← copy_out (prog_headers e) (e_phnum (elf_header e)) (bin e);
      dst ← copy_in 0 d dst;
      Some (Ok (prog_headers e, Some dst, e_phnum (elf_header e)))
  end.

Definition get_section_headers (e : elf_executable) (out : option buffer) : option (result (Z * option buffer * Z)) :=
  if negb (m_valid e) then Some (Err ERROR_INVALID) else
  match out with
  | None => Some (Ok (section_headers e, None, e_shnum (elf_header e)))
  | Some dst =>
      d ← copy_out (section_headers e) (e_shnum (elf_header e)) (bin e);
      dst ← copy_in 0 d dst;
      Some (Ok (section_headers e, Some dst, e_shnum (elf_header e)))
  end.

(** ** Loading *)

Definition has_flag (v f : Z) : bool := negb (Z.land v f =? 0).

(** The code tests [p_type]. *)
Definition parse_ph_flags (ph : Elf64_Phdr) : Z * Z :=
  let vm_flags := Z.lor (Z.lor (if has_flag (p_type ph) PF_X then VM_EXEC else 0) (if has_flag (p_type ph) PF_R then VM_READ else 0))
    (if has_flag (p_type ph) PF_W then VM_WRITE else 0) in
  (vm_flags, if has_flag (p_type ph) PF_W then Z.lor PG_U PG_W else PG_U).

Definition parse_sh_flags (sh : Elf64_Shdr) : Z * Z :=
  let vm_flags := Z.lor (Z.lor VM_READ (if has_flag (sh_flags sh) SHF_EXECINSTR then VM_EXEC else 0))
    (if has_flag (sh_flags sh) SHF_WRITE then VM_WRITE else 0) in
  (vm_flags, if has_flag (sh_flags sh) SHF_WRITE then Z.lor PG_U PG_W else PG_U).

Record loader (A : Type) := Loader { sp : mm A; ram : Z → Z }.
Arguments Loader {A}.
Arguments sp {A}.
Arguments ram {A}.

Section loading.
Context {A : Type} (pages_end page_count : Z) `{!FrameProvider page_count A}.
Context (link : loc → loc) (fuel : nat).

Abbreviation LD := (ST (loader A)).

Definition on_space {B} (c : ST (mm A) B) : LD B := λ s,
  match c (sp s) with Some (x, m) => Some (x, Loader m (ram s)) | None => None end.

Definition lift_ld {B} (o : option B) : LD B := λ s, match o with Some x => Some (x, s) | None => None end.

(** [memset], [memmove] to kernel addresses from [va] on. *)
Definition put_bytes (va : Z) (d : buffer) : LD unit := λ s,
  match V2P va with
  | Some pa => Some (tt, Loader (sp s) (λ q, if (pa <=? q) && (q <? pa + blen d) then default 0 (d !! Z.to_nat (q - pa)) else ram s q))
  | None => None
  end.

Definition heap_begin (a : loc) : LD Z := x ← on_space (locking a (get_space a)); mret (uheap_begin_ x).
Definition put_heap_begin (a : loc) (v : Z) : LD unit := on_space (locking a (upd_space a (set_heap_begin v))).
Definition put_heap (a : loc) (v : Z) : LD unit := on_space (locking a (upd_space a (set_heap v))).

(** The allocated pages' address; [allocate] reports success without a page
    when there is none, and the null pointer has no address. *)
Definition pages_va (pages : option Z) : LD Z := lift_ld (p ← pages; page_to_va pages_end p).

Definition load_ph (ph : Elf64_Phdr) (b : buffer) (a : loc) : LD error_code_values :=
  let '(vm_flags, perms) := parse_ph_flags ph in
  map_ret ← on_space (map link a (p_vaddr ph) (p_memsz ph) vm_flags);
  match map_ret with
  | inl e => mret e
  | inr _ =>
      hb ← heap_begin a;
      (if hb <? p_vaddr ph +w p_memsz ph then put_heap_begin a (p_vaddr ph +w p_memsz ph) else mret tt);;
      let n := PAGE_ROUNDUP (p_memsz ph) / PAGE_SIZE in
      x ← on_space (locking a (get_space a));
      alloc_ret ← on_space (on_memory (allocate_range pages_end page_count fuel (p_vaddr ph) n perms (pgdir_ x) false));
      match alloc_ret with
      | inl e => mret e
      | inr pages =>
          va ← pages_va pages;
          put_bytes va (replicate (Z.to_nat (n * PAGE_SIZE)) 0);;
          d ← lift_ld (copy_out (p_offset ph) (p_filesz ph) b);
          put_bytes va d;;
          mret ERROR_SUCCESS
      end
  end.

(** An error of [map] is not passed on. *)
Definition alloc_sh (sh : Elf64_Shdr) (a : loc) : LD error_code_values :=
  let '(vm_flags, perms) := parse_sh_flags sh in
  map_ret ← on_space (map link a (sh_addr sh) (sh_size sh) vm_flags);
  match map_ret with
  | inl _ => mret ERROR_SUCCESS
  | inr _ =>
      hb ← heap_begin a;
      (if hb <? sh_addr sh +w sh_size sh then put_heap_begin a (sh_addr sh +w sh_size sh) else mret tt);;
      let n := PAGE_ROUNDUP (sh_size sh) / PAGE_SIZE in
      x ← on_space (locking a (get_space a));
      alloc_ret ← on_space (on_memory (allocate_range pages_end page_count fuel (sh_addr sh) n perms (pgdir_ x) true));
      match alloc_ret with
      | inl e => mret e
      | inr pages => va ← pages_va pages; put_bytes va (replicate (Z.to_nat (n * PAGE_SIZE)) 0);; mret ERROR_SUCCESS
      end
  end.

(** The loop over the program headers from [i] on, which stops at an error. *)
Fixpoint load_phs (count : nat) (b : buffer) (off i : Z) (a : loc) : LD unit :=
  match count with
  | O => mret tt
  | S count =>
      ph ← lift_ld (read_phdr b off i);
      if p_type ph =? PT_LOAD then
        ret ← load_ph ph b a;
        if decide (ret = ERROR_SUCCESS) then load_phs count b off (i + 1) a else mret tt
      else load_phs count b off (i + 1) a
  end.

Fixpoint alloc_shs (count : nat) (b : buffer) (off i : Z) (a : loc) : LD error_code_values :=
  match count with
  | O => mret ERROR_SUCCESS
  | S count =>
      sh ← lift_ld (read_shdr b off i);
      if (sh_type sh =? SHT_NOBITS) && negb (sh_size sh =? 0) && has_flag (sh_flags sh) SHF_ALLOC then
        ret ← alloc_sh sh a;
        if decide (ret = ERROR_SUCCESS) then alloc_shs count b off (i + 1) a else mret ret
      else alloc_shs count b off (i + 1) a
  end.

Definition load_elf_binary (a : loc) (elf : elf_executable) : LD error_code_values :=
  phs ← lift_ld (get_program_headers elf None);
  match phs with
  | Err e => mret e
  | Ok (off, _, count) =>
      load_phs (Z.to_nat count) (bin elf) off 0 a;;
      shs ← lift_ld (get_section_headers elf None);
      let '(off, count) := match shs with Ok (off, _, count) => (off, count) | Err _ => (0, count) end in
      ret ← alloc_shs (Z.to_nat count) (bin elf) off 0 a;
      if negb (bool_decide (ret = ERROR_SUCCESS)) then mret ret else
      hb ← heap_begin a;
      put_heap_begin a (PAGE_ROUNDUP hb);;
      hb ← heap_begin a;
      put_heap a (PAGE_ROUNDUP hb);;
      mret ERROR_SUCCESS
  end.

(** The code and the entry point, if it was set. *)
Definition load_binary (a : loc) (b : buffer) : LD (error_code_values * option Z) :=
  r ← lift_ld (parse b);
  match r with
  | Ok elf =>
      match get_elf_header elf with
      | Ok h => ret ← load_elf_binary a elf; mret (ret, Some (e_entry h))
      | Err _ => st_fail
      end
  | Err _ => mret (ERROR_INVALID, None)
  end.
End loading.
