(* ===== verification/ElfTheorems.v ===== *)
(** * Theorems about loading programs *)

From S2P Require Import Prelude Types Bytes Links Buddy Pmm PodList IntrusiveList Paging PageTables PageOps PagingInit PagingTheorems PageRefs PageRefInv.
From S2P Require Import PageRefTheorems Fpage AddressSpace AddressSpaceInv AddressSpaceOps AddressSpaceTheorems Elf.

(** ** Headers *)

(** Loadable segments are executable and nothing else, whatever their flags. *)
Lemma ph_flags ph : p_type ph = PT_LOAD → parse_ph_flags ph = (VM_EXEC, PG_U).
Proof. intros H. unfold parse_ph_flags. by rewrite H. Qed.

Section theorems.
Context {A : Type} (pages_end page_count : Z) `{!FrameProvider page_count A} (K : Z) (R : gset Z).
Context (Hend : KERNEL_VIRTUALBASE <= pages_end) (Hend2 : pages_end + PAGE_SIZE < 2 ^ 64).
Context (Hmem : page_count * PAGE_SIZE <= 2 ^ 45) (Hspaces : Z.of_nat (base.size R) < 2 ^ 32).
Context (link : loc → loc) `{!Inj (=) (=) link}.
Implicit Types (s : loader A) (m : mm A) (x : aspace).

Abbreviation pages M m := (refs_inv pages_end page_count K R None None M (memory m)).

(** ** Access to the address space *)

Lemma on_space_run {B} (c : ST (mm A) B) m r v m' : c m = Some (v, m') → on_space c (Loader m r) = Some (v, Loader m' r).
Proof. unfold on_space. cbn. by intros ->. Qed.

Lemma locked_get a x m : spaces m !! a = Some x → a ∉ locked m → locking a (get_space a) m = Some (x, m).
Proof.
  intros Hx Ha. rewrite (locking_run link a _ m x (with_locked ({[a]} ∪ locked m) m) Ha); [by destruct m| |done].
  unfold get_space. cbn [spaces with_locked]. by rewrite Hx.
Qed.

Lemma locked_upd a x m f :
  spaces m !! a = Some x → a ∉ locked m → locking a (upd_space a f) m = Some (tt, with_space a (f x) m).
Proof.
  intros Hx Ha. rewrite (locking_run link a _ m tt (with_locked ({[a]} ∪ locked m) (with_space a (f x) m)) Ha); [done| |done].
  unfold upd_space. rewrite (bind_run _ _ _ x (with_locked ({[a]} ∪ locked m) m)); [done|].
  unfold get_space. cbn [spaces with_locked]. by rewrite Hx.
Qed.

Lemma heap_begin_run a x m r : spaces m !! a = Some x → a ∉ locked m → heap_begin a (Loader m r) = Some (uheap_begin_ x, Loader m r).
Proof. intros Hx Ha. unfold heap_begin. by rewrite (bind_run _ _ _ _ _ (on_space_run _ m r _ _ (locked_get a x m Hx Ha))). Qed.

(** ** One page at a free address *)

Lemma range_of_one M w r va perm f w1 fuel :
  refs_inv pages_end page_count K R None None M w → user K R r va → 0 <= perm < 256 → M !! (r, page_no va) = None →
  pm_allocate 1 w = Some (Some f, w1) → supplies 2 (prov (tables w1)) →
  0 <= f < page_count ∧
  ∃ w', allocate_range pages_end page_count (S fuel) va 1 perm r false w = Some (inr (Some f), w') ∧
    refs_inv pages_end page_count K R None None (<[(r, page_no va) := (f, perm)]> M) w'.
Proof.
  intros HI Hu Hp Hk Ha Hs. destruct (take_page _ _ _ _ M w _ w1 HI Ha) as (Hf & Hc & HI1). split; [done|].
  unfold allocate_range. rewrite (bind_run _ _ _ _ _ Ha). cbn [allocate_loop].
  destruct (insert_page_ok pages_end page_count K R Hend Hend2 Hmem Hspaces f 0 perm r va false M w1 0 HI1 ltac:(lia) Hu Hf Hp Hs)
    as (ret & w2 & H2 & Ho & _). unfold insert_outcome in Ho. rewrite Hk in Ho. rewrite decide_True in Ho by by right. destruct Ho as (-> & HI2).
  assert (is_u64 va) as H64 by (destruct Hu as (_ & _ & ?); assert (USER_TOP < 2 ^ 64) by done; unfold is_u64; lia).
  rewrite Z.mul_0_l, Z.add_0_r, (wrap64_small va) by done. rewrite (bind_run _ _ _ _ _ H2).
  rewrite decide_True, Z.eqb_refl by done. exists w2. split; [done|]. apply (release_hold _ _ _ _ f); [done|].
  apply count_pos. eexists _, perm. apply lookup_insert_eq.
Qed.

(** What the program sees at an address. *)
Definition user_byte s (r va : Z) : option Z := pa ← translate (tables (memory (sp s))) r va; Some (ram s pa).

Lemma mapped_byte M s r va f perm pa :
  pages M (sp s) → user K R r va → M !! (r, page_no va) = Some (f, perm) → 0 <= f < page_count → 0 <= perm < 256 →
  page_to_pa pages_end f = Some pa → user_byte s r va = Some (ram s (pa + va mod PAGE_SIZE)).
Proof.
  intros HM (Hr & Hn & Hva) Hk Hf Hp Hpa. unfold user_byte, translate.
  rewrite (ri_maps _ _ _ _ _ _ _ _ HM r va Hr Hn Hva) by done. rewrite Hk. cbn [fmap option_fmap option_map mbind option_bind].
  destruct (page_pa pages_end page_count R Hend Hend2 Hmem f Hf) as (pa' & H1 & H2 & H3 & _). rewrite Hpa in H1. injection H1 as <-.
  unfold entry_of, frame_entry. cbn [fst snd]. rewrite Hpa. cbn [default]. rewrite <- !Z.lor_assoc, flagged_pa; [done..|]. by repeat apply lor_flags.
Qed.

(** ** Loading a segment *)

Lemma page_bytes f b pa :
  0 <= f < page_count → page_to_va pages_end f = Some b → b ≠ 0 → page_to_pa pages_end f = Some pa → V2P b = Some pa.
Proof.
  intros Hf Hb H0 Hpa. destruct (page_to_va_inv pages_end page_count Hend Hend2 Hmem f b Hf Hb H0) as (st & Hst & Hr & -> & Hne & Hlt & _).
  unfold page_to_pa in Hpa. rewrite Hst in Hpa. cbn in Hpa. injection Hpa as <-.
  assert (KERNEL_SIZE = 2 ^ 31 ∧ PHYMEMORY_SIZE = 2 ^ 46 ∧ PAGE_SIZE = 2 ^ 21) as (? & ? & ?) by done.
  rewrite V2P_phys_va by lia. f_equal. symmetry. apply wrap64_small. unfold is_u64. lia.
Qed.

Lemma one_page memsz : 0 < memsz <= PAGE_SIZE → PAGE_ROUNDUP memsz / PAGE_SIZE = 1.
Proof.
  intros H. assert (PAGE_SIZE = 2 ^ 21) as EP by done. rewrite page_roundup_spec by lia.
  destruct (roundup_spec memsz PAGE_SIZE) as (k & -> & Hk); [lia..|]. rewrite Z.mul_comm, Z.div_mul by done. lia.
Qed.

Lemma raise_heap a x m r v :
  spaces m !! a = Some x → a ∉ locked m →
  ∃ x' m', (if uheap_begin_ x <? v then put_heap_begin a v else mret tt) (Loader m r) = Some (tt, Loader m' r) ∧
    spaces m' !! a = Some x' ∧ pgdir_ x' = pgdir_ x ∧ memory m' = memory m ∧ segs m' = segs m ∧ locked m' = locked m.
Proof.
  intros Hx Ha. destruct (uheap_begin_ x <? v); [|by exists x, m].
  exists (set_heap_begin v x), (with_space a (set_heap_begin v x) m). unfold put_heap_begin.
  rewrite (on_space_run _ m r _ _ (locked_upd a x m (set_heap_begin v) Hx Ha)). split; [done|]. split; [apply lookup_insert_eq|done].
Qed.

(** The page: the bytes of the file, then zeros. *)
Definition page_content (d : buffer) (i : Z) : Z := if i <? blen d then default 0 (d !! Z.to_nat i) else 0.

Lemma written_page va pa d m r :
  V2P va = Some pa → blen d <= PAGE_SIZE →
  ∃ r', (put_bytes va (replicate (Z.to_nat (1 * PAGE_SIZE)) 0);; put_bytes va d) (Loader m r) = Some (tt, Loader m r') ∧
    ∀ i, 0 <= i < PAGE_SIZE → r' (pa + i) = page_content d i.
Proof.
  intros Hva Hd. unfold put_bytes at 1 2. cbn [mbind]. unfold ST_bind. rewrite Hva. cbn [sp ram]. eexists. split; [done|]. intros i Hi. cbn beta.
  unfold page_content, blen in *. rewrite length_replicate.
  replace (pa + i - pa) with i by lia. rewrite !(proj2 (Z.leb_le pa (pa + i))) by lia. cbn [andb].
  destruct (Z.ltb_spec (pa + i) (pa + Z.of_nat (length d))), (Z.ltb_spec i (Z.of_nat (length d))); try lia.
  cbn [ram]. replace (pa + i - pa) with i by lia. rewrite (proj2 (Z.leb_le pa (pa + i))), (proj2 (Z.ltb_lt _ _)) by lia.
  cbn [andb]. by rewrite lookup_replicate_2 by lia.
Qed.

(** C25: a loadable segment of at most a page, whose range can be mapped, is
    loaded when a page is free: the page is mapped where the segment starts,
    and holds the bytes of the file followed by zeros from the start of the
    page on - which is where they belong when the segment starts at a page.
    The page can be executed but, whatever the segment's flags, not written to
    by the program. *)
Theorem elf_segment_loaded a x ts m r M ph b q m1 f w1 va fuel :
  space_inv link a x ts m → locked m = ∅ → pages M m → user K R (pgdir_ x) (p_vaddr ph) →
  p_type ph = PT_LOAD → 0 < p_memsz ph <= PAGE_SIZE → 0 <= p_filesz ph <= p_memsz ph → 0 <= p_offset ph →
  p_offset ph + p_filesz ph <= blen b →
  map link a (p_vaddr ph) (p_memsz ph) VM_EXEC m = Some (inr q, m1) → M !! (pgdir_ x, page_no (p_vaddr ph)) = None →
  pm_allocate 1 (memory m) = Some (Some f, w1) → supplies 2 (prov (tables w1)) → page_to_va pages_end f = Some va → va ≠ 0 →
  ∃ s', load_ph pages_end page_count link (S fuel) ph b a (Loader m r) = Some (ERROR_SUCCESS, s') ∧
    pages (<[(pgdir_ x, page_no (p_vaddr ph)) := (f, PG_U)]> M) (sp s') ∧
    seg_flags (seg_of (sp s') q) = VM_EXEC ∧
    ∀ v, page_no v = page_no (p_vaddr ph) → 0 <= v <= USER_TOP →
      user_byte s' (pgdir_ x) v = Some (page_content (slice (p_offset ph) (p_filesz ph) b) (v mod PAGE_SIZE)).
Proof.
  intros HI Hl HM Hu Ht Hms Hfs Ho Hob Hmap Hk Hal Hsup Hva H0. pose proof (map_result link a x ts m (p_vaddr ph) (p_memsz ph) VM_EXEC HI Hl) as Hout.
  rewrite Hmap in Hout. inversion Hout as [| | |ys zs q' rest x' s1 _ _ _ _ _ HI1 Hseg _ Hpg Hmm _ Hl1|]; subst. clear Hout.
  assert (a ∉ locked m1) as Ha by (rewrite Hl1, Hl; apply not_elem_of_empty). pose proof (si_space _ _ _ _ _ HI1) as Hx1.
  rewrite <- Hmm in HM, Hal. rewrite <- Hpg in Hu, Hk |- *.
  unfold load_ph. rewrite (ph_flags ph Ht). rewrite (bind_run _ _ _ _ _ (on_space_run _ m r _ _ Hmap)).
  rewrite (bind_run _ _ _ _ _ (heap_begin_run a x' m1 r Hx1 Ha)).
  destruct (raise_heap a x' m1 r (p_vaddr ph +w p_memsz ph) Hx1 Ha) as (x2 & m2 & H2 & Hx2 & Hpg2 & Hmm2 & Hsg2 & Hl2).
  rewrite (bind_run _ _ _ _ _ H2), one_page by done.
  rewrite (bind_run _ _ _ _ _ (on_space_run _ m2 r _ _ (locked_get a x2 m2 Hx2 ltac:(by rewrite Hl2)))). rewrite Hpg2. rewrite <- Hmm2 in HM, Hal.
  destruct (range_of_one M (memory m2) (pgdir_ x') (p_vaddr ph) PG_U f w1 fuel HM Hu ltac:(done) Hk Hal Hsup) as (Hf & w3 & H3 & HM3).
  rewrite (bind_run _ _ _ _ _ (on_space_run _ m2 r _ _ (on_memory_run _ m2 _ w3 H3))).
  set (m3 := MM (list_mem m2) (segs m2) (spaces m2) (locked m2) w3 (heap m2)).
  rewrite (bind_run _ _ _ va (Loader m3 r)) by (unfold pages_va, lift_ld; cbn; by rewrite Hva).
  destruct (page_pa pages_end page_count R Hend Hend2 Hmem f Hf) as (pa & Hpa & _).
  destruct (written_page va pa (slice (p_offset ph) (p_filesz ph) b) m3 r (page_bytes f va pa Hf Hva H0 Hpa)) as (r' & Hw & Hr').
  { rewrite slice_length by lia. lia. }
  apply bind_inv in Hw as ([] & s4 & Hw1 & Hw2). rewrite (bind_run _ _ _ _ _ Hw1).
  rewrite (bind_run _ _ _ (slice (p_offset ph) (p_filesz ph) b) s4)
    by (unfold lift_ld; rewrite copy_out_some; [done|]; apply within_spec; lia).
  rewrite (bind_run _ _ _ _ _ Hw2). exists (Loader m3 r'). split; [done|]. split; [done|]. split.
  - cbn [sp]. unfold seg_of in *. cbn [segs m3]. rewrite Hsg2. by rewrite Hseg.
  - intros v Hv Hvr. destruct Hu as (Hu1 & Hu2 & _).
    rewrite (mapped_byte (<[(pgdir_ x', page_no (p_vaddr ph)) := (f, PG_U)]> M) (Loader m3 r') (pgdir_ x') v f PG_U pa);
      [|done|done|rewrite Hv; apply lookup_insert_eq|done|done|done].
    cbn [ram]. rewrite Hr'; [done|]. apply Z.mod_pos_bound. done.
Qed.

(** ** Errors *)

Lemma put_heap_run a x m r f (c : ST (loader A) unit) :
  c = on_space (locking a (upd_space a f)) → spaces m !! a = Some x → a ∉ locked m →
  c (Loader m r) = Some (tt, Loader (with_space a (f x) m) r).
Proof. intros -> Hx Ha. apply on_space_run, locked_upd; done. Qed.

(** A program is reported as loaded although nothing of it was: when its
    first segment starts in a range that is mapped already - for instance
    because the stack or another segment shares its page - [load_ph] fails, the
    loop ends, and [load_elf_binary] returns success without having mapped a
    page or written a byte. *)
Theorem elf_errors_ignored a x ts m r e ph p fuel :
  space_inv link a x ts m → locked m = ∅ → m_valid e = true → 0 < e_phnum (elf_header e) → e_shnum (elf_header e) = 0 →
  read_phdr (bin e) (prog_headers e) 0 = Some ph → p_type ph = PT_LOAD →
  VALID_USER_REGION (rounddown (p_vaddr ph) PAGE_SIZE) (Z.min (roundup (p_vaddr ph +w p_memsz ph) PAGE_SIZE) USER_TOP) = true →
  p ∈ ts → contains (seg_of m p) (rounddown (p_vaddr ph) PAGE_SIZE) = true →
  ∃ m', load_elf_binary pages_end page_count link fuel a e (Loader m r) = Some (ERROR_SUCCESS, Loader m' r) ∧
    memory m' = memory m ∧ segs m' = segs m ∧ list_mem m' = list_mem m.
Proof.
  intros HI Hl Hv Hph Hsh Hread Ht Hval Hp Hc.
  pose proof (map_result link a x ts m (p_vaddr ph) (p_memsz ph) VM_EXEC HI Hl) as Hout.
  assert (∃ x', map link a (p_vaddr ph) (p_memsz ph) VM_EXEC m = Some (inl ERROR_ALREADY_EXIST, with_space a x' m)) as [x' Hmap].
  { inversion Hout as [Hv' E|q x' _ _ _ _ _ E|_ Hno|? ? ? ? ? ? _ Hno|? _ Hno]; [congruence|eauto|..];
      specialize (Hno p Hp); congruence. }
  set (m1 := with_space a x' m) in *. assert (spaces m1 !! a = Some x') as Hx1 by apply lookup_insert_eq.
  assert (a ∉ locked m1) as Ha by (cbn; rewrite Hl; apply not_elem_of_empty).
  unfold load_elf_binary, get_program_headers. rewrite Hv. cbn [negb]. rewrite (bind_run _ _ _ _ (Loader m r) eq_refl).
  assert (load_phs pages_end page_count link fuel (Z.to_nat (e_phnum (elf_header e))) (bin e) (prog_headers e) 0 a (Loader m r) =
    Some (tt, Loader m1 r)) as Hloop.
  { destruct (Z.to_nat (e_phnum (elf_header e))) eqn:En; [clear -Hph En; lia|]. cbn [load_phs].
    rewrite (bind_run _ _ _ ph (Loader m r)) by (unfold lift_ld; by rewrite Hread). rewrite Ht, Z.eqb_refl.
    rewrite (bind_run _ _ _ ERROR_ALREADY_EXIST (Loader m1 r)); [done|]. unfold load_ph. rewrite (ph_flags ph Ht).
    by rewrite (bind_run _ _ _ _ _ (on_space_run _ m r _ _ Hmap)). }
  rewrite (bind_run _ _ _ _ _ Hloop). unfold get_section_headers. rewrite Hv. cbn [negb]. rewrite (bind_run _ _ _ _ (Loader m1 r) eq_refl).
  cbn beta iota. rewrite Hsh. rewrite (bind_run _ _ _ ERROR_SUCCESS (Loader m1 r)) by done. rewrite bool_decide_eq_true_2 by done. cbn [negb].
  rewrite (bind_run _ _ _ _ _ (heap_begin_run a x' m1 r Hx1 Ha)).
  set (v := PAGE_ROUNDUP (uheap_begin_ x')).
  rewrite (bind_run _ _ _ _ _ (put_heap_run a x' m1 r (set_heap_begin v) _ eq_refl Hx1 Ha)).
  set (m2 := with_space a (set_heap_begin v x') m1). assert (spaces m2 !! a = Some (set_heap_begin v x')) as Hx2 by apply lookup_insert_eq.
  rewrite (bind_run _ _ _ _ _ (heap_begin_run a _ m2 r Hx2 Ha)).
  rewrite (bind_run _ _ _ _ _ (put_heap_run a _ m2 r (set_heap (PAGE_ROUNDUP v)) (put_heap a (PAGE_ROUNDUP v)) eq_refl Hx2 Ha)). eexists. split; [done|]. done.
Qed.
End theorems.

(** ** Witnesses *)

(** A segment of three bytes at [0xA00000], and the file that holds them. *)
Definition ex_phdr (vaddr : Z) : Elf64_Phdr := Phdr PT_LOAD (Z.lor PF_R PF_W) 1 vaddr 0 3 4096 0.

Lemma elf_segment_loaded_witness :
  ∃ t s s', load_ph ex_pages_end 4 ex_link 1 (ex_phdr 0xA00000) [9; 1; 2; 3] 100 (Loader (ex_mm t s) (λ _, 77)) = Some (ERROR_SUCCESS, s') ∧
    user_byte s' t 0xA00000 = Some 1 ∧ user_byte s' t 0xA00002 = Some 3 ∧ user_byte s' t 0xA00003 = Some 0.
Proof.
  destruct ex_start as (k & t & s & Hne & Ep & HI). exists t, (Pm s ex_refs).
  assert (Z.of_nat (base.size ({[t]} ∪ {[k]} : gset Z)) < 2 ^ 32) as Hsize.
  { rewrite size_union by (apply disjoint_singleton_l; intros ?%elem_of_singleton; done). rewrite !size_singleton. lia. }
  assert (∃ m1, map ex_link 100 0xA00000 4096 VM_EXEC (ex_mm t (Pm s ex_refs)) = Some (inr 400, m1)) as [m1 Hmap]
    by (eexists; vm_compute; reflexivity).
  assert (pm_allocate 1 (Pm s ex_refs) = Some (Some 0, Pm (Vm (words s) (bump_first + 8192, [1; 2; 3])) ex_refs)) as Hal.
  { unfold pm_allocate, on_frames, on_tables. cbn [tables refs]. by rewrite Ep. }
  assert (∃ va, page_to_va ex_pages_end 0 = Some va ∧ va ≠ 0) as (va & Hva & H0) by (eexists; split; [vm_compute; reflexivity|done]).
  destruct (elf_segment_loaded ex_pages_end 4 k ({[t]} ∪ {[k]}) ltac:(done) ltac:(done) ltac:(done) Hsize
    ex_link 100 (ex_space t) [200; 300] (ex_mm t (Pm s ex_refs)) (λ _, 77) ∅ (ex_phdr 0xA00000) [9; 1; 2; 3] 400 m1 0
    (Pm (Vm (words s) (bump_first + 8192, [1; 2; 3])) ex_refs) va 0 (ex_space_inv t _) eq_refl HI) as (s' & H & _ & _ & Hb).
  all: try first [exact Hmap | exact Hal | exact Hva | exact H0]. all: clear Hmap Hal.
  - split; [by apply elem_of_union_l, elem_of_singleton|done].
  - reflexivity.
  - split; [reflexivity|discriminate].
  - split; discriminate.
  - discriminate.
  - discriminate.
  - apply lookup_empty.
  - by apply pool_supplies.
  - exists s'. split; [done|]. clear H.
    split_and!; (rewrite Hb; [reflexivity|reflexivity|split; discriminate]).
Defined.

(** The header of a program with one segment, which starts in the segment at
    [0x1000000], as a file. *)
Definition ex_file : buffer :=
  replicate 56 0 ++ le_bytes 4 PT_LOAD ++ le_bytes 4 4 ++ le_bytes 8 0 ++ le_bytes 8 0x1000000 ++ le_bytes 8 0 ++ le_bytes 8 16 ++ le_bytes 8 16 ++ le_bytes 8 0.

Definition ex_elf : elf_executable := Elf ex_file true (Ehdr 2 62 1 0x1000000 56 0 0 64 56 1 64 0 0) 56 0.

Lemma elf_errors_ignored_witness :
  ∃ m', load_elf_binary ex_pages_end 4 ex_link 1 100 ex_elf (Loader (ex_mm 4096 ex_pm) (λ _, 77)) = Some (ERROR_SUCCESS, Loader m' (λ _, 77)) ∧
    memory m' = ex_pm ∧ segs m' = segs (ex_mm 4096 ex_pm) ∧ list_mem m' = list_mem (ex_mm 4096 ex_pm).
Proof.
  apply (elf_errors_ignored ex_pages_end 4 ex_link 100 (ex_space 4096) [200; 300] (ex_mm 4096 ex_pm) (λ _, 77) ex_elf
    (Phdr PT_LOAD 4 0 0x1000000 0 16 16 0) 300 1 (ex_space_inv 4096 ex_pm)); try done.
  - by right; left.
Defined.
