(* ===== verification/UserStack.v ===== *)
(** * The stacks of user threads: [process_user_stack_state] of [kern/task/process/process.cc]

    A process keeps its stacks in two lists, which are sequences here (see
    [IntrusiveList]); a stack is its address with the field [top].  The address
    space of the process is [a], with the state of [AddressSpace].  The lock of
    the lists is taken and released within each operation. *)

From stdpp Require Import sorting.
From S2P Require Import Prelude Types Links Buddy Pmm PodList IntrusiveList Paging PageTables PageOps PagingTheorems PageRefs PageRefInv.
From S2P Require Import PageRefTheorems Fpage AddressSpace AddressSpaceInv AddressSpaceOps AddressSpaceTheorems.

Definition USER_STACK_TOP : Z := USER_TOP - PAGE_SIZE.
Definition USTACK_PAGES_PER_THREAD : Z := 8.
Definition USTACK_TOTAL_PAGES_PER_THREAD : Z := 9.
Definition USTACK_USABLE_SIZE_PER_THREAD : Z := USTACK_PAGES_PER_THREAD * PAGE_SIZE.
Definition USTACK_TOTAL_SIZE : Z := USTACK_TOTAL_PAGES_PER_THREAD * PAGE_SIZE.
Definition USTACK_FREELIST_THRESHOLD : nat := 16.

(** [news]: what [operator new] returns next, the null pointer when there is no
    memory.  [ustack_of]: the member [ustack_] of threads. *)
Record ustacks (A : Type) := UStacks {
  mem : mm A;
  tops : gmap loc Z;
  free_list_ : list loc;
  busy_list_ : list loc;
  ustack_of : gmap loc loc;
  news : list loc;
}.
Arguments UStacks {A}.
Arguments mem {A}.
Arguments tops {A}.
Arguments free_list_ {A}.
Arguments busy_list_ {A}.
Arguments ustack_of {A}.
Arguments news {A}.

Section stacks.
Context {A : Type} (pages_end page_count : Z) `{!FrameProvider page_count A}.
Context (link : loc → loc) (a : loc).

Abbreviation US := (ST (ustacks A)).

Definition on_mem {B} (c : ST (mm A) B) : US B := λ s,
  match c (mem s) with
  | Some (x, m) => Some (x, UStacks m (tops s) (free_list_ s) (busy_list_ s) (ustack_of s) (news s))
  | None => None
  end.

Definition set_free (l : list loc) : US unit := λ s, Some (tt, UStacks (mem s) (tops s) l (busy_list_ s) (ustack_of s) (news s)).
Definition get_state {B} (f : ustacks A → B) : US B := λ s, Some (f s, s).
Definition top_of (p : loc) : US Z := λ s, match tops s !! p with Some v => Some (v, s) | None => None end.

(** The loop over the usable pages. *)
Fixpoint map_pages (n : nat) (va r : Z) : US error_code_values :=
  match n with
  | O => mret ERROR_SUCCESS
  | S n =>
      alloc_ret ← on_mem (on_memory (allocate_at pages_end page_count va (Z.lor (Z.lor (Z.lor PG_W PG_U) PG_PS) PG_P) r true));
      match alloc_ret with
      | inl e => mret e
      | inr _ => map_pages n (va +w PAGE_SIZE) r
      end
  end.

Definition make_next_user_stack_locked : US (result Z) :=
  busy ← get_state busy_list_;
  let current_top := USER_STACK_TOP -w USTACK_TOTAL_SIZE * Z.of_nat (length busy) in
  ret ← on_mem (map link a (current_top -w USTACK_TOTAL_SIZE -w 1) USTACK_TOTAL_SIZE VM_STACK);
  match ret with
  | inl e => mret (Err e)
  | inr _ =>
      x ← on_mem (locking a (get_space a));
      code ← map_pages (Z.to_nat USTACK_PAGES_PER_THREAD) (current_top -w USTACK_USABLE_SIZE_PER_THREAD) (pgdir_ x);
      if negb (bool_decide (code = ERROR_SUCCESS)) then mret (Err code) else
      guard_page_ret ← on_mem (on_memory (allocate_at pages_end page_count (current_top -w USTACK_TOTAL_PAGES_PER_THREAD)
        (Z.lor (Z.lor PG_U PG_PS) PG_P) (pgdir_ x) true));
      match guard_page_ret with
      | inl e => mret (Err e)
      | inr _ => mret (Ok (current_top -w USTACK_USABLE_SIZE_PER_THREAD))
      end
  end.

(** [while ( *iter < *stack);] *)
Fixpoint spin (fuel : nat) (less : bool) : US unit :=
  if less then match fuel with O => st_fail | S fuel => spin fuel less end else mret tt.

(** The loop from [free_list_.begin()] and the insertion at the position before
    it; [begin] of an empty list is the head, which is no stack. *)
Definition put_back (fuel : nat) (stack : loc) : US unit :=
  free ← get_state free_list_;
  match free with
  | [] => st_fail
  | first :: _ =>
      v ← top_of first; w ← top_of stack;
      spin fuel (v <? w);;
      set_free (stack :: free)
  end.

(** [new user_stack], its place in the busy list, and [t->ustack_]. *)
Definition new_ustack (t : loc) (top : Z) : US (result loc) := λ s,
  match news s with
  | stack :: l =>
      if stack =? null then Some (Err ERROR_MEMORY_ALLOC, s)
      else Some (Ok stack, UStacks (mem s) (<[stack := top]> (tops s)) (free_list_ s) (busy_list_ s ++ [stack])
        (<[t := stack]> (ustack_of s)) l)
  | [] => Some (Err ERROR_MEMORY_ALLOC, s)
  end.

Definition allocate_ustack (fuel : nat) (t : loc) : US (result loc) :=
  free ← get_state free_list_;
  match free with
  | stack :: rest => set_free rest;; put_back fuel stack;; mret (Ok stack)
  | [] =>
      alloc_ret ← make_next_user_stack_locked;
      match alloc_ret with
      | Err e => mret (Err e)
      | Ok top => new_ustack t top
      end
  end.

(** [pop_back] and [delete back] *)
Definition drop_last : US unit := λ s,
  match last (free_list_ s) with
  | Some back => Some (tt, UStacks (mem s) (delete back (tops s)) (removelast (free_list_ s)) (busy_list_ s) (ustack_of s) (news s))
  | None => None
  end.

Definition free_ustack (fuel : nat) (ustack : loc) : US unit :=
  free ← get_state free_list_;
  (if decide (USTACK_FREELIST_THRESHOLD <= length free)%nat then drop_last else mret tt);;
  put_back fuel ustack.

(** ** What goes wrong *)

(** The range of the stack number [k]: ten pages, one more than asked for. *)
Definition stack_start (k : Z) : Z := 2 ^ 47 - PAGE_SIZE * (9 * k + 11).
Definition stack_end (k : Z) : Z := 2 ^ 47 - PAGE_SIZE * (9 * k + 1).

Lemma stack_range k :
  0 <= k < 2 ^ 20 →
  let top := USER_STACK_TOP -w USTACK_TOTAL_SIZE * k in
  let addr := top -w USTACK_TOTAL_SIZE -w 1 in
  rounddown addr PAGE_SIZE = stack_start k ∧ Z.min (roundup (addr +w USTACK_TOTAL_SIZE) PAGE_SIZE) USER_TOP = stack_end k.
Proof.
  intros Hk. cbv zeta. unfold USER_STACK_TOP, USTACK_TOTAL_SIZE, USTACK_TOTAL_PAGES_PER_THREAD, stack_start, stack_end.
  change USER_TOP with (2 ^ 47 - 1). change PAGE_SIZE with (2 ^ 21).
  rewrite !(wrap64_small (2 ^ 47 - 1 - 2 ^ 21 - 9 * 2 ^ 21 * k)) by (unfold is_u64; lia).
  rewrite !(wrap64_small (2 ^ 47 - 1 - 2 ^ 21 - 9 * 2 ^ 21 * k - 9 * 2 ^ 21)) by (unfold is_u64; lia).
  rewrite !(wrap64_small (2 ^ 47 - 1 - 2 ^ 21 - 9 * 2 ^ 21 * k - 9 * 2 ^ 21 - 1)) by (unfold is_u64; lia).
  rewrite wrap64_small by (unfold is_u64; lia). split.
  - rewrite rounddown_spec by lia. Z.to_euclidean_division_equations; lia.
  - destruct (roundup_spec (2 ^ 47 - 1 - 2 ^ 21 - 9 * 2 ^ 21 * k - 9 * 2 ^ 21 - 1 + 9 * 2 ^ 21) (2 ^ 21)) as (q & -> & Hq); lia.
Qed.

Context `{!Inj (=) (=) link}.
Implicit Types (s : ustacks A) (m : mm A) (x : aspace) (ts : list loc).

(** A segment that starts below another one and ends in it cannot be mapped. *)
Lemma map_into m x ts addr len flags q :
  space_inv link a x ts m → locked m = ∅ → q ∈ ts →
  rounddown addr PAGE_SIZE < seg_start (seg_of m q) < Z.min (roundup (addr +w len) PAGE_SIZE) USER_TOP →
  ∀ p m', map link a addr len flags m ≠ Some (inr p, m').
Proof.
  intros HI Hl Hq Hin p m' Hmap. pose proof (map_result link a x ts m addr len flags HI Hl) as Hout. rewrite Hmap in Hout.
  inversion Hout as [| | |ys zs p' rest x' s1 _ _ -> _ _ HI1 Hseg Hold _ _ _ _|]; subst.
  pose proof (si_sorted _ _ _ _ _ HI1) as Hs. pose proof (Hold q Hq) as Hq1.
  apply StronglySorted_app in Hs as (Hbefore & _ & Hs). apply StronglySorted_cons in Hs as [Hafter _].
  apply elem_of_app in Hq as [Hq|Hq].
  - specialize (Hbefore q p Hq ltac:(left)). cbn beta in Hbefore. rewrite Hq1, Hseg in Hbefore. cbn in Hbefore.
    pose proof (si_bounds _ _ _ _ _ HI1 q ltac:(set_solver)) as Hb. rewrite Hq1 in Hb. lia.
  - rewrite Forall_forall in Hafter. specialize (Hafter q Hq). cbn beta in Hafter. rewrite Hq1, Hseg in Hafter. cbn in Hafter. lia.
Qed.

(** C39: a process gets one user stack at most.  The segment of a stack covers a
    page more than the stack, at its lower end, which is the last page of the
    next stack: once the segment of stack [k] is there, asking for the next
    stack ends in a failed assertion, or in an error when there is no memory or
    the range is taken. *)
Theorem second_stack_fails x ts s q fuel t :
  space_inv link a x ts (mem s) → locked (mem s) = ∅ → free_list_ s = [] → 0 < Z.of_nat (length (busy_list_ s)) < 2 ^ 20 →
  q ∈ ts → seg_start (seg_of (mem s) q) = stack_start (Z.of_nat (length (busy_list_ s)) - 1) →
  ∀ stack s', allocate_ustack fuel t s ≠ Some (Ok stack, s').
Proof.
  intros HI Hl Hf Hb Hq Hseg stack s' H. unfold allocate_ustack in H. apply bind_inv in H as (free & s1 & H1 & H).
  injection H1 as <- <-. rewrite Hf in H. apply bind_inv in H as (r & s2 & Hr & H). destruct r as [e|top]; [done|].
  unfold make_next_user_stack_locked in Hr. apply bind_inv in Hr as (busy & s3 & H3 & Hr). injection H3 as <- <-.
  apply bind_inv in Hr as (ret & s4 & H4 & Hr). destruct ret as [e|p]; [done|].
  unfold on_mem in H4. destruct (map link a _ _ _ (mem s)) as [[r m']|] eqn:Hm; [|done]. injection H4 as -> <-.
  refine (map_into (mem s) x ts _ _ _ q HI Hl Hq _ p m' Hm).
  assert (0 <= Z.of_nat (length (busy_list_ s)) < 2 ^ 20) as Hk by lia.
  destruct (stack_range (Z.of_nat (length (busy_list_ s))) Hk) as [E1 E2]. cbv zeta in E1, E2. rewrite E1, E2, Hseg.
  unfold stack_start, stack_end. assert (PAGE_SIZE = 2 ^ 21) by done. lia.
Qed.

(** A stack is never given back: the list of free stacks is empty at first, and
    [free_ustack] then takes the head of the list for a stack. *)
Inductive stack_step : ustacks A → ustacks A → Prop :=
  | step_allocate fuel t r s s' : allocate_ustack fuel t s = Some (r, s') → stack_step s s'
  | step_free fuel u s s' : free_ustack fuel u s = Some (tt, s') → stack_step s s'.

Lemma map_pages_free n va r s c s' : map_pages n va r s = Some (c, s') → free_list_ s' = free_list_ s.
Proof.
  revert va s. induction n as [|n IH]; intros va s H; cbn in H; [by injection H as _ <-|].
  apply bind_inv in H as (ret & s1 & H1 & H). unfold on_mem in H1. destruct (on_memory _ _) as [[v m]|]; [|done]. injection H1 as <- <-.
  destruct v; [by injection H as _ <-|]. by apply IH in H.
Qed.

Lemma make_next_free s r s' : make_next_user_stack_locked s = Some (r, s') → free_list_ s' = free_list_ s.
Proof.
  unfold make_next_user_stack_locked. intros (busy & s1 & H1 & H)%bind_inv. injection H1 as <- <-.
  apply bind_inv in H as (ret & s2 & H2 & H). unfold on_mem in H2. destruct (map _ _ _ _ _ _) as [[v m]|]; [|done]. injection H2 as <- <-.
  destruct v; [by injection H as _ <-|]. apply bind_inv in H as (x & s3 & H3 & H).
  unfold on_mem in H3. destruct (locking _ _ _) as [[v m3]|]; [|done]. injection H3 as <- <-.
  apply bind_inv in H as (code & s4 & H4%map_pages_free & H). cbn in H4. destruct (negb _); [by injection H as _ <-|].
  apply bind_inv in H as (g & s5 & H5 & H). unfold on_mem in H5. destruct (on_memory _ _) as [[v5 m5]|]; [|done]. injection H5 as <- <-.
  by destruct v5; injection H as _ <-.
Qed.

Lemma free_empty s fuel u : free_list_ s = [] → free_ustack fuel u s = None.
Proof.
  intros H. unfold free_ustack, put_back. rewrite (bind_run _ _ _ [] s) by (unfold get_state; by rewrite H).
  rewrite decide_False by (cbn; unfold USTACK_FREELIST_THRESHOLD; lia). rewrite (bind_run _ _ _ tt s) by done.
  by rewrite (bind_run _ _ _ [] s) by (unfold get_state; by rewrite H).
Qed.

(** No stack is ever put on the list of free stacks: starting without any,
    after every sequence of allocations and frees that return the list is
    empty, and giving a stack back stops the kernel. *)
Theorem stacks_never_free s s' fuel u :
  free_list_ s = [] → rtc stack_step s s' → free_list_ s' = [] ∧ free_ustack fuel u s' = None.
Proof.
  intros H0 Hr. assert (free_list_ s' = []) as H1; [|split; [done|by apply free_empty]].
  induction Hr as [|s s1 s2 Hs _ IH]; [done|]. apply IH. inversion Hs as [f t r ? ? H|f v ? ? H]; subst.
  - unfold allocate_ustack in H. apply bind_inv in H as (free & s3 & H3 & H). injection H3 as <- <-. rewrite H0 in H.
    apply bind_inv in H as (ret & s4 & H4%make_next_free & H). destruct ret; [injection H as _ <-; congruence|].
    unfold new_ustack in H. destruct (news s4) as [|p l]; [injection H as _ <-; congruence|].
    destruct (p =? null); injection H as _ <-; cbn; congruence.
  - by rewrite free_empty in H.
Qed.

(** With two stacks in the list the next thread waits forever, or is given a
    stack that stays in the list. *)
Theorem free_stack_shared s p q l v w fuel t :
  free_list_ s = p :: q :: l → tops s !! p = Some v → tops s !! q = Some w →
  if w <? v then allocate_ustack fuel t s = None
  else allocate_ustack fuel t s = Some (Ok p, s).
Proof.
  intros Hf Hp Hq. unfold allocate_ustack, put_back, top_of, get_state, set_free, mbind, ST_bind. rewrite Hf. cbn. rewrite Hq. cbn. rewrite Hp. cbn.
  destruct (w <? v) eqn:E.
  - assert (∀ s, spin fuel true s = None) as -> by (induction fuel; done). done.
  - assert (∀ s, spin fuel false s = Some (tt, s)) as -> by (by destruct fuel). unfold mret, ST_ret. rewrite <- Hf. by destruct s.
Qed.
End stacks.

(** ** Witnesses *)

(** The first stack of a process is the segment at 300. *)
Definition ex_stack_mm : mm (Z * list Z) :=
  let m := ex_mm 4096 ex_pm in
  MM (list_mem m) (<[300 := Seg (stack_start 0) (stack_end 0) VM_STACK]> (segs m)) (spaces m) ∅ ex_pm (heap m).

Definition ex_stacks : ustacks (Z * list Z) := UStacks ex_stack_mm {[ 700 := stack_start 0 + PAGE_SIZE ]} [] [700] ∅ [800].

Lemma ex_stack_inv : space_inv ex_link 100 (ex_space 4096) [200; 300] ex_stack_mm.
Proof.
  pose proof (ex_space_inv 4096 ex_pm) as [H1 H2 H3 H4 H5 H6 H7 H8 H9 H10]. split; try done.
  - intros p Hp. by repeat (apply elem_of_cons in Hp as [->|Hp]; [vm_compute; eauto|]); apply not_elem_of_nil in Hp.
  - by repeat constructor.
  - intros p Hp. by repeat (apply elem_of_cons in Hp as [->|Hp]; [done|]); apply not_elem_of_nil in Hp.
  - split; [apply H10|]. intros p Hp.
    by repeat (apply elem_of_cons in Hp as [->|Hp]; [done|]); apply not_elem_of_nil in Hp.
Qed.

Lemma second_stack_fails_witness :
  (∃ stack s', allocate_ustack ex_pages_end 4 ex_link 100 0 600 ex_stacks = Some (Ok stack, s')) ↔ False.
Proof.
  split; [intros (stack & s' & E)|done]. revert E.
  apply (second_stack_fails ex_pages_end 4 ex_link 100 (ex_space 4096) [200; 300] ex_stacks 300 0 600); try done.
  - apply ex_stack_inv.
  - by right; left.
Defined.

Lemma stacks_never_free_witness : free_list_ ex_stacks = [] ∧ free_ustack 5 700 ex_stacks = None.
Proof. apply (stacks_never_free ex_pages_end 4 ex_link 100 ex_stacks ex_stacks 5 700); [done|apply rtc_refl]. Defined.
