(* ===== verification/Task.v ===== *)
(** * Jobs and processes: [kern/task/job/job.cc], [kern/task/process/process.cc], [job_policy.hpp]

    Jobs form a tree with processes as its leaves; killing one goes up and down
    the tree.  The state holds the jobs and processes under their addresses,
    the spin locks of jobs and processes this processor holds (taking one again
    stops the kernel), and the state of the scheduler for their threads.
    [global_thread_lock] is taken within the operations on threads and not held
    elsewhere.  A weak pointer is the address of a job, and null when the job
    is gone.  Killing is recursive through the tree, so the functions take fuel. *)

From S2P Require Import Prelude Types Links Scheduler.

(** ** Policies *)

Inductive policy_action := kPolicyAllow | kPolicyDeny | kPolicyKill | kPolicyAllowWithException | kPolicyDenyWithException.

(** [kPlaceholder] is the only condition so far. *)
Definition POLICY_CONDITION_MAX : nat := 1.

Record policy_item := PolicyItem { condition : nat; action : policy_action }.

(** [action_], indexed by condition. *)
Abbreviation job_policy := (list (option policy_item)).

Definition creat_root_policy : job_policy := replicate POLICY_CONDITION_MAX None.

(** [action_\[cond\]], out of range without a result. *)
Definition query (p : job_policy) (cond : nat) : option (option policy_item) := p !! cond.

Definition apply (p : job_policy) (item : policy_item) : option job_policy :=
  if decide (condition item < length p)%nat then Some (<[condition item := Some item]> p) else None.

Fixpoint merge_with (p : job_policy) (another : job_policy) : option job_policy :=
  match another with
  | [] => Some p
  | Some item :: l => p ← apply p item; merge_with p l
  | None :: l => merge_with p l
  end.

(** ** Jobs and processes *)

Inductive job_status := JobReady | JobKilling | JobDead.

#[export] Instance job_status_eq : EqDecision job_status.
Proof. solve_decision. Defined.

Inductive process_status := ProcInitial | ProcRunning | ProcDying | ProcDead.

#[export] Instance process_status_eq : EqDecision process_status.
Proof. solve_decision. Defined.

Definition TASK_RETCODE_NORMAL : Z := 0.
Definition TASK_RETCODE_CRITICAL_PROCESS_KILL : Z := 4.
Definition JOB_MAX_HEIGHT : Z := 16.

Record job := Job {
  policy_ : job_policy;
  job_parent : option loc;
  job_ret_code : Z;
  job_state : job_status;
  child_jobs_ : list loc;
  child_processes_ : list loc;
  max_height_ : Z;
}.

Definition set_policy v j := Job v (job_parent j) (job_ret_code j) (job_state j) (child_jobs_ j) (child_processes_ j) (max_height_ j).
Definition set_job_state v j := Job (policy_ j) (job_parent j) (job_ret_code j) v (child_jobs_ j) (child_processes_ j) (max_height_ j).
Definition set_job_ret v j := Job (policy_ j) (job_parent j) v (job_state j) (child_jobs_ j) (child_processes_ j) (max_height_ j).
Definition set_jobs_of v j := Job (policy_ j) (job_parent j) (job_ret_code j) (job_state j) v (child_processes_ j) (max_height_ j).
Definition set_processes_of v j := Job (policy_ j) (job_parent j) (job_ret_code j) (job_state j) (child_jobs_ j) v (max_height_ j).

(** [status_] and [ret_code_] are not initialised: a new process has any. *)
Record process := Process {
  proc_status : process_status;
  proc_parent : option loc;
  critical_to_ : option loc;
  kill_critical_when_nonzero_code_ : bool;
  proc_threads : list loc;
  suspend_count_ : Z;
  proc_ret_code : Z;
}.

Definition set_status v p :=
  Process v (proc_parent p) (critical_to_ p) (kill_critical_when_nonzero_code_ p) (proc_threads p) (suspend_count_ p) (proc_ret_code p).
Definition set_ret v p :=
  Process (proc_status p) (proc_parent p) (critical_to_ p) (kill_critical_when_nonzero_code_ p) (proc_threads p) (suspend_count_ p) v.
Definition set_proc_threads v p :=
  Process (proc_status p) (proc_parent p) (critical_to_ p) (kill_critical_when_nonzero_code_ p) v (suspend_count_ p) (proc_ret_code p).
Definition set_suspend v p :=
  Process (proc_status p) (proc_parent p) (critical_to_ p) (kill_critical_when_nonzero_code_ p) (proc_threads p) v (proc_ret_code p).

Record tasks := Tasks { jobs : gmap loc job; procs : gmap loc process; task_locks : gset loc; sched : sys }.

Abbreviation TK := (ST tasks).

Definition get_job (j : loc) : TK job := λ s, match jobs s !! j with Some x => Some (x, s) | None => None end.
Definition put_job (j : loc) (x : job) : TK unit := λ s, Some (tt, Tasks (<[j := x]> (jobs s)) (procs s) (task_locks s) (sched s)).
Definition upd_job (j : loc) (f : job → job) : TK unit := x ← get_job j; put_job j (f x).
Definition get_proc (p : loc) : TK process := λ s, match procs s !! p with Some x => Some (x, s) | None => None end.
Definition put_proc (p : loc) (x : process) : TK unit := λ s, Some (tt, Tasks (jobs s) (<[p := x]> (procs s)) (task_locks s) (sched s)).
Definition upd_proc (p : loc) (f : process → process) : TK unit := x ← get_proc p; put_proc p (f x).
Definition on_sched {B} (c : SY B) : TK B := λ s,
  match c (sched s) with Some (x, m) => Some (x, Tasks (jobs s) (procs s) (task_locks s) m) | None => None end.

Definition lock (o : loc) : TK unit := λ s,
  if decide (o ∈ task_locks s) then None else Some (tt, Tasks (jobs s) (procs s) ({[o]} ∪ task_locks s) (sched s)).
Definition unlock (o : loc) : TK unit := λ s, Some (tt, Tasks (jobs s) (procs s) (task_locks s ∖ {[o]}) (sched s)).

(** [weak_ptr::lock] *)
Definition lock_weak (w : option loc) : TK (option loc) := λ s,
  Some (match w with Some j => if decide (is_Some (jobs s !! j)) then Some j else None | None => None end, s).

(** ** Making jobs *)

(** [j] is the address of the new object. *)
Definition create_job (j : loc) (parent : option loc) : TK (result loc) :=
  match parent with
  | None => st_fail
  | Some k =>
      x ← get_job k;
      if max_height_ x =? 0 then mret (Err ERROR_OUT_OF_BOUND) else
      lock k;; x ← get_job k; unlock k;;
      (if j =? null then mret (Err ERROR_MEMORY_ALLOC)
       else put_job j (Job (policy_ x) (Some k) TASK_RETCODE_NORMAL JobReady [] [] (max_height_ x - 1));; mret (Ok j))
  end.

Definition create_root (j : loc) : TK loc :=
  if j =? null then st_fail else put_job j (Job creat_root_policy None TASK_RETCODE_NORMAL JobReady [] [] JOB_MAX_HEIGHT);; mret j.

Definition apply_basic_policy (j : loc) (items : list policy_item) : TK unit := λ s,
  match jobs s !! j with
  | Some x =>
      match foldl (λ p i, p ≫= λ p, apply p i) (Some (policy_ x)) items with
      | Some p => put_job j (set_policy p x) s
      | None => None
      end
  | None => None
  end.

(** [child->job_link.is_empty_or_detached()]: [child] is in no list of jobs. *)
Definition link_detached (child : loc) : TK unit := λ s,
  kassert (bool_decide (map_Forall (λ _ x, child ∉ child_jobs_ x) (jobs s))) s.

Definition add_child_job (j child : loc) : TK bool :=
  lock j;;
  x ← get_job j;
  (if decide (job_state x ≠ JobReady) then unlock j;; mret false else
   link_detached child;;
   put_job j (set_jobs_of (child_jobs_ x ++ [child]) x);; unlock j;; mret true).

(** [insert(begin(), proc)]: behind the first process. *)
Definition add_child_process (j proc : loc) : TK unit :=
  lock j;;
  upd_job j (λ x, set_processes_of (match child_processes_ x with [] => [proc] | y :: l => y :: proc :: l end) x);;
  unlock j.

Definition get_status (j : loc) : TK job_status := lock j;; x ← get_job j; unlock j;; mret (job_state x).

Definition is_ready_for_dead_transition_locked (j : loc) : TK bool :=
  x ← get_job j;
  mret (bool_decide (job_state x = JobKilling) && bool_decide (child_jobs_ x = []) && bool_decide (child_processes_ x = [])).

(** ** The threads of a process *)

Fixpoint kill_threads (ts : list loc) : TK unit :=
  match ts with
  | [] => mret tt
  | t :: ts => on_sched (kill_locked t);; kill_threads ts
  end.

Definition kill_all_threads_locked (p : loc) : TK unit := x ← get_proc p; kill_threads (proc_threads x).

Definition assert_locked (o : loc) : TK unit := λ s, kassert (bool_decide (o ∈ task_locks s)) s.

Definition set_status_locked (p : loc) (st : process_status) : TK unit :=
  assert_locked p;;
  x ← get_proc p;
  if decide (proc_status x = ProcDead ∧ st ≠ ProcDead) then st_fail else
  if decide (proc_status x = st) then mret tt else
  put_proc p (set_status st x);;
  if decide (st = ProcDying) then kill_all_threads_locked p else mret tt.

Definition remove_thread (p t : loc) : TK unit :=
  lock p;; upd_proc p (λ x, set_proc_threads (filter (λ u, u ≠ t) (proc_threads x)) x);; unlock p.

Definition add_child_thread (p t : loc) : TK unit :=
  lock p;; upd_proc p (λ x, set_proc_threads (proc_threads x ++ [t]) x);; unlock p.

Fixpoint suspend_threads (ts : list loc) : TK unit :=
  match ts with
  | [] => mret tt
  | t :: ts =>
      err ← on_sched (suspend t);
      th ← on_sched (thr t);
      kassert (match err with Ok _ => true | Err _ => bool_decide (state th = DYING ∨ state th = DEAD) end);;
      suspend_threads ts
  end.

Definition process_suspend (p : loc) : TK (result unit) :=
  lock p;;
  x ← get_proc p;
  if decide (proc_status x = ProcDying ∨ proc_status x = ProcDead) then unlock p;; mret (Err ERROR_INVALID) else
  kassert (0 <=? suspend_count_ x);;
  put_proc p (set_suspend (suspend_count_ x + 1) x);;
  (if suspend_count_ x + 1 =? 1 then suspend_threads (proc_threads x) else mret tt);;
  unlock p;;
  mret (Ok tt).

(** [resched]: interrupts are disabled, which they are while the lock is held. *)
Fixpoint resume_threads (ts : list loc) : TK unit :=
  match ts with
  | [] => mret tt
  | t :: ts => on_sched (resume t true);; resume_threads ts
  end.

Definition process_resume (p : loc) : TK unit :=
  lock p;;
  x ← get_proc p;
  if decide (proc_status x = ProcDying ∨ proc_status x = ProcDead) then unlock p else
  kassert (0 <? suspend_count_ x);;
  put_proc p (set_suspend (suspend_count_ x - 1) x);;
  (if suspend_count_ x - 1 =? 0 then resume_threads (proc_threads x) else mret tt);;
  unlock p.

(** [process::exit] up to the context switch at its end; [current] is
    [cur_proc]. *)
Definition process_exit (p current : loc) (code : Z) : TK unit :=
  kassert (current =? p);;
  lock p;;
  x ← get_proc p;
  if decide (proc_status x = ProcDying) then unlock p else
  put_proc p (set_ret code x);;
  set_status_locked p ProcDying;;
  kill_all_threads_locked p;;
  unlock p;;
  me ← on_sched cpu;
  on_sched (kill_locked (cur_thread me));;
  on_sched current.reschedule_locked.

(** ** Killing *)

(** An entry of [job_parent] leads up the tree: the death of a job takes it out
    of its parent, which may be the death of the parent.  The lists are searched
    by the identity of the objects. *)
Fixpoint finish_dead_transition_unlocked (fuel : nat) (j : loc) : TK bool :=
  match fuel with
  | O => st_fail
  | S fuel =>
      x ← get_job j;
      parent ← lock_weak (job_parent x);
      match parent with
      | Some k => st ← get_status k; kassert (negb (bool_decide (st = JobDead)))
      | None => mret tt
      end;;
      lock j;; upd_job j (set_job_state JobDead);; unlock j;;
      remove_from_job_trees fuel j;;
      mret false
  end
with remove_from_job_trees (fuel : nat) (j : loc) : TK unit :=
  match fuel with
  | O => st_fail
  | S fuel =>
      x ← get_job j;
      parent ← lock_weak (job_parent x);
      match parent with
      | Some k => remove_child_job fuel k j
      | None => st_fail
      end
  end
with remove_child_job (fuel : nat) (j jb : loc) : TK unit :=
  match fuel with
  | O => st_fail
  | S fuel =>
      lock j;;
      x ← get_job j;
      if decide (jb ∉ child_jobs_ x) then unlock j else
      put_job j (set_jobs_of (filter (λ d, d ≠ jb) (child_jobs_ x)) x);;
      suicide ← is_ready_for_dead_transition_locked j;
      unlock j;;
      if suicide : bool then finish_dead_transition_unlocked fuel j;; mret tt else mret tt
  end.

Definition remove_child_process (fuel : nat) (j proc : loc) : TK unit :=
  lock j;;
  x ← get_job j;
  if decide (proc ∉ child_processes_ x) then unlock j else
  put_job j (set_processes_of (filter (λ q, q ≠ proc) (child_processes_ x)) x);;
  should_die ← is_ready_for_dead_transition_locked j;
  unlock j;;
  if should_die : bool then finish_dead_transition_unlocked fuel j;; mret tt else mret tt.

(** The first half of [process::kill], under the lock: whether the process has
    no thread left to wait for. *)
Definition begin_kill (p : loc) (code : Z) : TK bool :=
  lock p;;
  x ← get_proc p;
  if decide (proc_status x = ProcDead) then unlock p;; mret false else
  (if decide (proc_status x ≠ ProcDying) then put_proc p (set_ret code x) else mret tt);;
  (if decide (proc_threads x = []) then set_status_locked p ProcDead;; unlock p;; mret true
   else set_status_locked p ProcDying;; unlock p;; mret false).

Fixpoint job_kill (fuel : nat) (j : loc) (code : Z) : TK bool :=
  match fuel with
  | O => st_fail
  | S fuel =>
      lock j;;
      x ← get_job j;
      if decide (job_state x ≠ JobReady) then unlock j;; mret false else
      put_job j (set_job_state JobKilling (set_job_ret code x));;
      kill_child_jobs fuel j code;;
      kill_child_processes fuel j code;;
      should_die ← is_ready_for_dead_transition_locked j;
      unlock j;;
      (if should_die : bool then finish_dead_transition_unlocked fuel j else mret false);;
      mret true
  end
with kill_child_jobs (fuel : nat) (j : loc) (code : Z) : TK unit :=
  match fuel with
  | O => st_fail
  | S fuel =>
      x ← get_job j;
      match child_jobs_ x with
      | [] => mret tt
      | top :: l => put_job j (set_jobs_of l x);; job_kill fuel top code;; kill_child_jobs fuel j code
      end
  end
with kill_child_processes (fuel : nat) (j : loc) (code : Z) : TK unit :=
  match fuel with
  | O => st_fail
  | S fuel =>
      x ← get_job j;
      match child_processes_ x with
      | [] => mret tt
      | top :: l => put_job j (set_processes_of l x);; process_kill fuel top code;; kill_child_processes fuel j code
      end
  end
with process_kill (fuel : nat) (p : loc) (code : Z) : TK unit :=
  match fuel with
  | O => st_fail
  | S fuel =>
      finish_dying ← begin_kill p code;
      if finish_dying : bool then finish_dead_transition fuel p else mret tt
  end
with finish_dead_transition (fuel : nat) (p : loc) : TK unit :=
  match fuel with
  | O => st_fail
  | S fuel =>
      x ← get_proc p;
      parent ← lock_weak (proc_parent x);
      match parent with
      | Some j => remove_child_process fuel j p
      | None => st_fail
      end;;
      lock p;;
      set_status_locked p ProcDead;;
      x ← get_proc p;
      critical ← lock_weak (critical_to_ x);
      unlock p;;
      match critical with
      | Some k =>
          if negb (kill_critical_when_nonzero_code_ x) || negb (proc_ret_code x =? 0)
          then job_kill fuel k TASK_RETCODE_CRITICAL_PROCESS_KILL;; mret tt else mret tt
      | None => mret tt
      end
  end.
