(* ===== verification/TaskTheorems.v ===== *)
(** * Killing jobs and processes: what [job::kill] reaches

    [job::kill] holds the lock of the job while it kills the children, and the
    death of a child takes the lock of its parent.  The first part shows that
    the operations leave the jobs whose locks were held on entry alone; the
    second what that means for killing a job with children. *)

From S2P Require Import Prelude Types Links Scheduler Task.

(** ** What a call leaves alone *)

Section frame.
Context (L : gset loc) (J : gmap loc job).

(** The locks are those of [D] and those of [L]; the jobs of [L] are as in [J],
    and no job of [J] is gone. *)
Definition framed (D : gset loc) (s : tasks) : Prop :=
  task_locks s = D ∪ L ∧ D ## L ∧ (∀ o, o ∈ L → jobs s !! o = J !! o) ∧ ∀ o, is_Some (J !! o) → is_Some (jobs s !! o).

Definition frames {A} (D : gset loc) (c : TK A) (D' : gset loc) : Prop :=
  ∀ s a s', framed D s → c s = Some (a, s') → framed D' s'.

Lemma frames_bind {A B} D D1 D2 (c : TK A) (k : A → TK B) :
  frames D c D1 → (∀ a, frames D1 (k a) D2) → frames D (a ← c; k a) D2.
Proof. intros Hc Hk s b s' Hs E. apply bind_inv in E as (a & s1 & E1 & E2). by eapply Hk, E2; eapply Hc. Qed.

Lemma frames_ret {A} D (a : A) : frames D (mret a) D.
Proof. by intros s b s' Hs [= _ <-]. Qed.

Lemma frames_fail {A} D D' : frames D (st_fail : TK A) D'.
Proof. done. Qed.

Lemma frames_kassert D b : frames D (kassert b) D.
Proof. intros s a s' Hs. unfold kassert. by destruct b; intros [= _ <-]. Qed.

Lemma frames_get_job D j : frames D (get_job j) D.
Proof. intros s a s' Hs. unfold get_job. by case_match; intros [= _ <-]. Qed.

Lemma frames_get_proc D p : frames D (get_proc p) D.
Proof. intros s a s' Hs. unfold get_proc. by case_match; intros [= _ <-]. Qed.

Lemma frames_lock_weak D w : frames D (lock_weak w) D.
Proof. by intros s a s' Hs [= _ <-]. Qed.

Lemma frames_put_proc D p x : frames D (put_proc p x) D.
Proof. by intros s a s' Hs [= _ <-]. Qed.

Lemma frames_on_sched {A} D (c : SY A) : frames D (on_sched c) D.
Proof. intros s a s' Hs. unfold on_sched. repeat case_match; [|done]. by intros [= _ <-]. Qed.

Lemma frames_assert_locked D o : frames D (assert_locked o) D.
Proof. intros s a s' Hs. unfold assert_locked, kassert. by case_bool_decide; intros [= _ <-]. Qed.

Lemma frames_lock o : frames ∅ (lock o) {[o]}.
Proof.
  intros s a s' (HL & HD & HJ & Hex). unfold lock. case_decide as Ho; [done|]. intros [= _ <-].
  rewrite HL in Ho. split; [|split; [|done]]; cbn; [rewrite HL|]; set_solver.
Qed.

Lemma frames_unlock o : frames {[o]} (unlock o) ∅.
Proof. intros s a s' (HL & HD & HJ & Hex) [= _ <-]. split; [|split; [|done]]; cbn; [rewrite HL|]; set_solver. Qed.

Lemma frames_put_job j x : frames {[j]} (put_job j x) {[j]}.
Proof.
  intros s a s' (HL & HD & HJ & Hex) [= _ <-]. split; [done|]. split; [done|]. cbn. split; intros o Ho.
  - rewrite lookup_insert_ne by set_solver. by apply HJ.
  - destruct (decide (o = j)) as [->|]; [by rewrite lookup_insert_eq|]. rewrite lookup_insert_ne by done. by apply Hex.
Qed.
End frame.

Create HintDb frames discriminated.
#[export] Hint Resolve frames_ret frames_fail frames_kassert frames_get_job frames_get_proc frames_lock_weak
  frames_put_proc frames_on_sched frames_assert_locked frames_lock frames_unlock frames_put_job : frames.

(** A call that takes no lock of the caller's may be made with locks held. *)
Lemma frames_call {A} L J D (c : TK A) : (∀ L J, frames L J ∅ c ∅) → frames L J D c D.
Proof.
  intros Hc s a s' (HL & HD & HJ & Hex) E.
  destruct (Hc (task_locks s) (jobs s) s a s') as (HL' & _ & HJ' & Hex'); [|done|].
  { split; [set_solver|]. split; [set_solver|]. done. }
  split; [set_solver|]. split; [done|]. split; intros o Ho; [|by apply Hex', Hex].
  rewrite HJ' by set_solver. by apply HJ.
Qed.

Ltac frames_step :=
  match goal with
  | |- frames _ _ _ (mbind _ _) _ => eapply frames_bind; [|intros ?]
  | |- frames _ _ _ (upd_job _ _) _ => unfold upd_job
  | |- frames _ _ _ (if ?b then _ else _) _ => destruct b
  | |- frames _ _ _ (match ?b with _ => _ end) _ => destruct b
  | |- frames _ _ _ _ _ => solve [eauto with frames]
  end.
Ltac frames := cbn zeta; repeat frames_step.

Lemma frames_ready L J D j : frames L J D (is_ready_for_dead_transition_locked j) D.
Proof. unfold is_ready_for_dead_transition_locked. frames. Qed.

Lemma frames_get_status L J k : frames L J ∅ (get_status k) ∅.
Proof. unfold get_status. frames. Qed.

Lemma frames_kill_threads L J D ts : frames L J D (kill_threads ts) D.
Proof. induction ts; cbn; frames. Qed.
#[export] Hint Resolve frames_ready frames_get_status frames_kill_threads : frames.

Lemma frames_set_status L J D p st : frames L J D (set_status_locked p st) D.
Proof. unfold set_status_locked, kill_all_threads_locked. frames. Qed.
#[export] Hint Resolve frames_set_status : frames.

Lemma frames_begin_kill L J p code : frames L J ∅ (begin_kill p code) ∅.
Proof. unfold begin_kill. frames. Qed.
#[export] Hint Resolve frames_begin_kill : frames.

Lemma frames_dying fuel :
  (∀ L J j, frames L J ∅ (finish_dead_transition_unlocked fuel j) ∅) ∧
  (∀ L J j, frames L J ∅ (remove_from_job_trees fuel j) ∅) ∧
  (∀ L J j c, frames L J ∅ (remove_child_job fuel j c) ∅).
Proof.
  induction fuel as [|fuel (IHf & IHt & IHc)]; [done|]. split; [|split]; intros; cbn -[lock_weak]; frames.
Qed.

Lemma frames_finish L J fuel j : frames L J ∅ (finish_dead_transition_unlocked fuel j) ∅.
Proof. apply frames_dying. Qed.
#[export] Hint Resolve frames_finish : frames.

Lemma frames_remove_process L J fuel j p : frames L J ∅ (remove_child_process fuel j p) ∅.
Proof. unfold remove_child_process. frames. Qed.
#[export] Hint Resolve frames_remove_process : frames.

Lemma frames_killing fuel :
  (∀ L J j code, frames L J ∅ (job_kill fuel j code) ∅) ∧
  (∀ L J j code, frames L J {[j]} (kill_child_jobs fuel j code) {[j]}) ∧
  (∀ L J j code, frames L J {[j]} (kill_child_processes fuel j code) {[j]}) ∧
  (∀ L J p code, frames L J ∅ (process_kill fuel p code) ∅) ∧
  (∀ L J p, frames L J ∅ (finish_dead_transition fuel p) ∅).
Proof.
  induction fuel as [|fuel (IHj & IHjs & IHps & IHp & IHf)]; [done|].
  pose proof (λ L J D j code, frames_call L J D _ (λ L J, IHj L J j code)).
  pose proof (λ L J D p code, frames_call L J D _ (λ L J, IHp L J p code)).
  split; [|split; [|split; [|split]]]; intros; cbn -[lock_weak begin_kill remove_child_process finish_dead_transition_unlocked]; frames.
Qed.

(** A call leaves the locks and the jobs under lock as they are. *)
Lemma frames_keep {A} (c : TK A) s a s' :
  (∀ L J, frames L J ∅ c ∅) → c s = Some (a, s') →
  task_locks s' = task_locks s ∧ (∀ o, o ∈ task_locks s → jobs s' !! o = jobs s !! o) ∧
  ∀ o, is_Some (jobs s !! o) → is_Some (jobs s' !! o).
Proof.
  intros Hc E. destruct (Hc (task_locks s) (jobs s) s a s') as (HL & _ & HJ & Hex); [|done|].
  - split; [set_solver|]. split; [set_solver|]. done.
  - split; [set_solver|]. done.
Qed.

Lemma job_kill_keeps fuel j code s a s' :
  job_kill fuel j code s = Some (a, s') →
  task_locks s' = task_locks s ∧ (∀ o, o ∈ task_locks s → jobs s' !! o = jobs s !! o) ∧
  ∀ o, is_Some (jobs s !! o) → is_Some (jobs s' !! o).
Proof. apply frames_keep. intros. apply (frames_killing fuel). Qed.

Lemma process_kill_keeps fuel p code s a s' :
  process_kill fuel p code s = Some (a, s') →
  task_locks s' = task_locks s ∧ (∀ o, o ∈ task_locks s → jobs s' !! o = jobs s !! o) ∧
  ∀ o, is_Some (jobs s !! o) → is_Some (jobs s' !! o).
Proof. apply frames_keep. intros. apply (frames_killing fuel). Qed.

(** ** The job that is being killed *)

Lemma get_job_inv j s x s' : get_job j s = Some (x, s') → jobs s !! j = Some x ∧ s' = s.
Proof. unfold get_job. case_match; [|done]. by intros [= -> ->]. Qed.

Lemma get_job_run j s x : jobs s !! j = Some x → get_job j s = Some (x, s).
Proof. unfold get_job. by intros ->. Qed.

Lemma lock_inv o s u s' :
  lock o s = Some (u, s') → (o ∉ task_locks s) ∧ s' = Tasks (jobs s) (procs s) ({[o]} ∪ task_locks s) (sched s).
Proof. unfold lock. case_decide; [done|]. by intros [= _ <-]. Qed.

Lemma lock_held o s : o ∈ task_locks s → lock o s = None.
Proof. intros. unfold lock. by rewrite decide_True. Qed.

Lemma unlock_lock o (L : gset loc) : o ∉ L → ({[o]} ∪ L) ∖ {[o]} = L.
Proof. set_solver. Qed.

(** The loops empty the lists of the job and leave the rest of it. *)
Lemma kill_child_jobs_empties fuel j code s s' x u :
  j ∈ task_locks s → jobs s !! j = Some x → kill_child_jobs fuel j code s = Some (u, s') →
  jobs s' !! j = Some (set_jobs_of [] x) ∧ j ∈ task_locks s'.
Proof.
  revert s x. induction fuel as [|fuel IH]; [done|]. intros s x Hj Hx E. cbn in E.
  apply bind_inv in E as (? & ? & [Hx' ->]%get_job_inv & E). simplify_eq.
  destruct (child_jobs_ x) as [|top l] eqn:Hl.
  { apply ret_inv in E as [_ <-]. split; [|done]. rewrite Hx. destruct x; cbn in *; by subst. }
  apply bind_inv in E as (? & s1 & [= _ <-] & E). apply bind_inv in E as (? & s2 & (HL & HJ & _)%job_kill_keeps & E).
  cbn in *. apply (IH _ (set_jobs_of l x)) in E as [E ?]; [by rewrite E|set_solver|].
  rewrite HJ by done. apply lookup_insert_eq.
Qed.

Lemma kill_child_processes_empties fuel j code s s' x u :
  j ∈ task_locks s → jobs s !! j = Some x → kill_child_processes fuel j code s = Some (u, s') →
  jobs s' !! j = Some (set_processes_of [] x) ∧ j ∈ task_locks s'.
Proof.
  revert s x. induction fuel as [|fuel IH]; [done|]. intros s x Hj Hx E. cbn in E.
  apply bind_inv in E as (? & ? & [Hx' ->]%get_job_inv & E). simplify_eq.
  destruct (child_processes_ x) as [|top l] eqn:Hl.
  { apply ret_inv in E as [_ <-]. split; [|done]. rewrite Hx. destruct x; cbn in *; by subst. }
  apply bind_inv in E as (? & s1 & [= _ <-] & E). apply bind_inv in E as (? & s2 & (HL & HJ & _)%process_kill_keeps & E).
  cbn in *. apply (IH _ (set_processes_of l x)) in E as [E ?]; [by rewrite E|set_solver|].
  rewrite HJ by done. apply lookup_insert_eq.
Qed.

Lemma ready_killing j x s :
  jobs s !! j = Some x → job_state x = JobKilling → child_jobs_ x = [] → child_processes_ x = [] →
  is_ready_for_dead_transition_locked j s = Some (true, s).
Proof.
  intros Hx Hst Hj Hp. unfold is_ready_for_dead_transition_locked.
  rewrite (bind_run _ _ _ x s) by by apply get_job_run. by rewrite Hst, Hj, Hp.
Qed.

(** The job as [kill] leaves it when it lets its lock go. *)
Definition emptied (code : Z) (x : job) : job :=
  set_processes_of [] (set_jobs_of [] (set_job_state JobKilling (set_job_ret code x))).

(** What a call of [kill] that returned has done: nothing when the job was not
    [READY], otherwise both loops and the death of the job. *)
Lemma job_kill_cases fuel j code s b s' :
  job_kill (S fuel) j code s = Some (b, s') →
  ∃ x, jobs s !! j = Some x ∧ (j ∉ task_locks s) ∧
    let s0 := Tasks (<[j := set_job_state JobKilling (set_job_ret code x)]> (jobs s)) (procs s) ({[j]} ∪ task_locks s) (sched s) in
    (job_state x ≠ JobReady ∧ b = false ∧ s' = s ∨
     job_state x = JobReady ∧ b = true ∧ ∃ s1 s2 d,
       kill_child_jobs fuel j code s0 = Some (tt, s1) ∧
       kill_child_processes fuel j code s1 = Some (tt, s2) ∧
       jobs s2 !! j = Some (emptied code x) ∧
       finish_dead_transition_unlocked fuel j (Tasks (jobs s2) (procs s2) (task_locks s2 ∖ {[j]}) (sched s2)) = Some (d, s')).
Proof.
  intros E. cbn [job_kill] in E. apply bind_inv in E as (?u & ?t & [Hj ->]%lock_inv & E).
  apply bind_inv in E as (x & ? & [Hx ->]%get_job_inv & E). cbn in Hx. exists x. split; [done|]. split; [done|].
  case_decide as Hst.
  { left. split; [done|]. apply bind_inv in E as (?u & ?t & [= _ <-] & E). apply ret_inv in E as [<- <-].
    split; [done|]. cbn. rewrite unlock_lock by done. by destruct s. }
  right. split; [done|].
  apply bind_inv in E as (?u & ?t & [= _ <-] & E). cbn [jobs procs task_locks sched] in E.
  apply bind_inv in E as ([] & s1 & E1 & E). apply bind_inv in E as ([] & s2 & E2 & E).
  pose proof E1 as E1'. eapply kill_child_jobs_empties in E1' as [H1 H1']; [|cbn; set_solver|apply lookup_insert_eq].
  pose proof E2 as E2'. eapply kill_child_processes_empties in E2' as [H2 H2']; [|done..].
  rewrite (bind_run _ _ _ true s2) in E by (by eapply ready_killing).
  apply bind_inv in E as (?u & ?t & [= _ <-] & E). apply bind_inv in E as (d & s3 & E3 & E).
  apply ret_inv in E as [<- <-]. split; [done|]. by exists s1, s2, d.
Qed.

(** ** The death of a child *)

Lemma finish_parent_held fuel c k y s :
  jobs s !! c = Some y → job_parent y = Some k → is_Some (jobs s !! k) → k ∈ task_locks s →
  finish_dead_transition_unlocked fuel c s = None.
Proof.
  intros Hc Hy Hk Hl. destruct fuel; [done|]. cbn -[lock_weak].
  rewrite (bind_run _ _ _ y s) by by apply get_job_run. unfold lock_weak. rewrite Hy.
  rewrite (bind_run _ _ _ (Some k) s) by by rewrite decide_True.
  apply bind_none, bind_none. unfold get_status. by apply bind_none, lock_held.
Qed.

(** A job whose parent is being killed is left as it is, if the call returns. *)
Lemma job_kill_under fuel c k y code s b s' :
  jobs s !! c = Some y → job_parent y = Some k → is_Some (jobs s !! k) → k ∈ task_locks s →
  job_kill fuel c code s = Some (b, s') → job_state y ≠ JobReady ∧ s' = s.
Proof.
  intros Hc Hy Hk Hl E. destruct fuel as [|fuel]; [done|].
  apply job_kill_cases in E as (x & Hx & Hnl & [(Hst & _ & ->)|(Hst & _ & s1 & s2 & d & E1 & E2 & Hx2 & E)]); simplify_eq; [done|].
  exfalso. set (s0 := Tasks (<[c := _]> (jobs s)) _ _ _) in *.
  assert (framed (task_locks s) (jobs s) {[c]} s2) as (HL & _ & _ & Hex).
  { destruct (frames_killing fuel) as (_ & HKj & HKp & _). eapply HKp; [|exact E2]. eapply HKj; [|exact E1].
    eapply (frames_put_job _ _ c _ (Tasks (jobs s) (procs s) ({[c]} ∪ task_locks s) (sched s))); [|reflexivity].
    eapply (frames_lock _ _ c s); [|unfold lock; by rewrite decide_False].
    split; [set_solver|]. split; [set_solver|]. done. }
  assert (c ≠ k) by (by intros ->).
  erewrite finish_parent_held in E; [done|exact Hx2|exact Hy|by apply Hex|]. cbn. rewrite HL. set_solver.
Qed.

Lemma kill_child_jobs_under fuel j x code s u s' :
  j ∈ task_locks s → jobs s !! j = Some x →
  (∀ c, c ∈ child_jobs_ x → ∃ y, jobs s !! c = Some y ∧ job_parent y = Some j) →
  kill_child_jobs fuel j code s = Some (u, s') →
  (∀ c, c ∈ child_jobs_ x → c ≠ j ∧ ∀ y, jobs s !! c = Some y → job_state y ≠ JobReady) ∧
  s' = Tasks (<[j := set_jobs_of [] x]> (jobs s)) (procs s) (task_locks s) (sched s).
Proof.
  revert s x. induction fuel as [|fuel IH]; [done|]. intros s x Hj Hx Hch E. cbn in E.
  apply bind_inv in E as (? & ? & [Hx' ->]%get_job_inv & E). simplify_eq.
  destruct (child_jobs_ x) as [|top l] eqn:Hl.
  { apply ret_inv in E as [_ <-]. split; [by intros ? []%elem_of_nil|].
    assert (set_jobs_of [] x = x) as -> by (destruct x; cbn in *; by subst). rewrite insert_id by done. by destruct s. }
  apply bind_inv in E as (? & s1 & [= _ <-] & E). apply bind_inv in E as (? & s2 & E1 & E).
  destruct (Hch top) as (y & Hy & Hp); [set_solver|].
  assert (top ≠ j) as Hne.
  { intros ->. destruct fuel; [done|]. apply job_kill_cases in E1 as (? & _ & Hn & _). done. }
  eapply (job_kill_under _ _ j) in E1 as [Hst ->]; [|cbn; by rewrite lookup_insert_ne|done|cbn; by rewrite lookup_insert_eq|done].
  apply (IH _ (set_jobs_of l x)) in E as [HF ->]; [|done|apply lookup_insert_eq|].
  - split; [|cbn; by rewrite insert_insert_eq]. intros c [->|Hc]%elem_of_cons; [split; [done|]; intros; by simplify_eq|].
    destruct (HF c Hc) as [Hcj Hz]. split; [done|]. intros z Ez. apply Hz. cbn. by rewrite lookup_insert_ne.
  - intros c Hc. destruct (Hch c) as (z & Hz & Hzp); [set_solver|]. destruct (decide (c = j)) as [->|].
    + exists (set_jobs_of l x). split; [apply lookup_insert_eq|]. by simplify_eq.
    + exists z. cbn. by rewrite lookup_insert_ne.
Qed.

(** ** The threads of a process and its status *)

Lemma kill_threads_inv ts s u s' :
  kill_threads ts s = Some (u, s') → ∃ m, s' = Tasks (jobs s) (procs s) (task_locks s) m.
Proof.
  revert s. induction ts as [|t ts IH]; intros s E; cbn in E; [apply ret_inv in E as [_ <-]; exists (sched s); by destruct s|].
  apply bind_inv in E as (? & s1 & E1 & E). unfold on_sched in E1. destruct (kill_locked t (sched s)) as [[]|]; [|done].
  injection E1 as _ <-. by apply IH in E.
Qed.

Lemma get_proc_run p s x : procs s !! p = Some x → get_proc p s = Some (x, s).
Proof. unfold get_proc. by intros ->. Qed.

Lemma set_status_same x : set_status (proc_status x) x = x.
Proof. by destruct x. Qed.

Lemma set_status_inv p st x s u s' :
  procs s !! p = Some x → set_status_locked p st s = Some (u, s') →
  ∃ m, s' = Tasks (jobs s) (<[p := set_status st x]> (procs s)) (task_locks s) m.
Proof.
  intros Hx E. unfold set_status_locked, assert_locked, kassert in E. apply bind_inv in E as (? & s0 & E0 & E).
  case_bool_decide; [|done]. injection E0 as _ <-. rewrite (bind_run _ _ _ x s) in E by by apply get_proc_run.
  case_decide; [done|]. case_decide as Hst.
  - apply ret_inv in E as [_ <-]. exists (sched s). rewrite <- Hst, set_status_same, insert_id by done. by destruct s.
  - apply bind_inv in E as (? & s1 & [= _ <-] & E). case_decide; [|apply ret_inv in E as [_ <-]; by eexists].
    unfold kill_all_threads_locked in E. apply bind_inv in E as (? & s2 & E2 & E). unfold get_proc in E2.
    cbn in E2. rewrite lookup_insert_eq in E2. injection E2 as _ <-. by apply kill_threads_inv in E.
Qed.

(** What a kill leaves of a process that it does not finish. *)
Definition kept (x y : process) : Prop :=
  proc_parent y = proc_parent x ∧ proc_threads y = proc_threads x ∧ (proc_status y = ProcDead ↔ proc_status x = ProcDead).

Lemma begin_kill_inv p x code s b s' :
  procs s !! p = Some x → begin_kill p code s = Some (b, s') →
  ∃ y m, s' = Tasks (jobs s) (<[p := y]> (procs s)) (task_locks s) m ∧ proc_parent y = proc_parent x ∧
    if b : bool then proc_threads x = [] else (proc_status x = ProcDead ∨ proc_threads x ≠ []) ∧ kept x y.
Proof.
  intros Hx E. unfold begin_kill in E. apply bind_inv in E as (?u & ?t & [Hp ->]%lock_inv & E).
  rewrite (bind_run _ _ _ x _) in E by by apply get_proc_run. case_decide as Hd.
  { apply bind_inv in E as (?u & ?t & [= _ <-] & E). apply ret_inv in E as [<- <-]. exists x, (sched s). cbn.
    rewrite insert_id, unlock_lock by done. split; [done|]. split; [done|]. split; [by left|done]. }
  apply bind_inv in E as (?u & t & E1 & E).
  assert (∃ r, procs t = <[p := set_ret r x]> (procs s) ∧ t = Tasks (jobs s) (procs t) ({[p]} ∪ task_locks s) (sched s)) as (r & Hr & Ht).
  { destruct (decide (proc_status x ≠ ProcDying)); [injection E1 as _ <-; by exists code|]. apply ret_inv in E1 as [_ <-]. exists (proc_ret_code x). cbn.
    assert (set_ret (proc_ret_code x) x = x) as -> by by destruct x. by rewrite insert_id. }
  assert (procs t !! p = Some (set_ret r x)) as Hxt by (rewrite Hr; apply lookup_insert_eq).
  case_decide as Hth; apply bind_inv in E as (?u & t1 & E2 & E); destruct (set_status_inv _ _ _ _ _ _ Hxt E2) as [m ->];
    apply bind_inv in E as (?u & ?t & [= _ <-] & E); apply ret_inv in E as [<- <-]; cbn;
    rewrite Hr, insert_insert_eq, Ht; cbn; rewrite unlock_lock by done; do 2 eexists; split; [done| |done|]; split; try done.
  split; [by right|]. by split.
Qed.

Lemma finish_process_held fuel p k x s :
  procs s !! p = Some x → proc_parent x = Some k → is_Some (jobs s !! k) → k ∈ task_locks s →
  finish_dead_transition fuel p s = None.
Proof.
  intros Hx Hp Hk Hl. destruct fuel; [done|]. cbn -[lock_weak remove_child_process].
  rewrite (bind_run _ _ _ x s) by by apply get_proc_run.
  rewrite (bind_run _ _ _ (Some k) s) by (unfold lock_weak; rewrite Hp; by rewrite decide_True).
  apply bind_none. unfold remove_child_process. by apply bind_none, lock_held.
Qed.

Lemma process_kill_under fuel p x k code s u s' :
  procs s !! p = Some x → proc_parent x = Some k → is_Some (jobs s !! k) → k ∈ task_locks s →
  process_kill fuel p code s = Some (u, s') →
  (proc_status x = ProcDead ∨ proc_threads x ≠ []) ∧
  ∃ y m, s' = Tasks (jobs s) (<[p := y]> (procs s)) (task_locks s) m ∧ kept x y.
Proof.
  intros Hx Hp Hk Hl E. destruct fuel as [|fuel]; [done|]. cbn -[begin_kill] in E.
  apply bind_inv in E as (b & t & (y & m & -> & Hy & Hb)%(begin_kill_inv _ _ _ _ _ _ Hx) & E). destruct b.
  - rewrite (finish_process_held _ _ k y) in E; [done|apply lookup_insert_eq|by rewrite Hy|done|done].
  - apply ret_inv in E as [_ <-]. destruct Hb. eauto.
Qed.

Lemma kill_child_processes_under fuel j x code s u s' :
  j ∈ task_locks s → jobs s !! j = Some x →
  (∀ p, p ∈ child_processes_ x → ∃ y, procs s !! p = Some y ∧ proc_parent y = Some j) →
  kill_child_processes fuel j code s = Some (u, s') →
  (∀ p y, p ∈ child_processes_ x → procs s !! p = Some y → proc_status y = ProcDead ∨ proc_threads y ≠ []) ∧
  jobs s' = <[j := set_processes_of [] x]> (jobs s) ∧ task_locks s' = task_locks s.
Proof.
  revert s x. induction fuel as [|fuel IH]; [done|]. intros s x Hj Hx Hch E. cbn in E.
  apply bind_inv in E as (? & ? & [Hx' ->]%get_job_inv & E). simplify_eq.
  destruct (child_processes_ x) as [|top l] eqn:Hl.
  { apply ret_inv in E as [_ <-]. split; [by intros ? ? []%elem_of_nil|].
    assert (set_processes_of [] x = x) as -> by (destruct x; cbn in *; by subst). by rewrite insert_id. }
  apply bind_inv in E as (? & s1 & [= _ <-] & E). apply bind_inv in E as (? & s2 & E1 & E).
  destruct (Hch top) as (y & Hy & Hp); [set_solver|].
  eapply (process_kill_under _ _ y j) in E1 as (Hst & z & m & -> & Hz); [|done|done|cbn; by rewrite lookup_insert_eq|done].
  assert (∀ q w, procs s !! q = Some w → ∃ v, <[top := z]> (procs s) !! q = Some v ∧ kept w v) as Hsame.
  { intros q w Hw. destruct (decide (q = top)) as [->|]; [rewrite lookup_insert_eq; by simplify_eq; eauto|].
    rewrite lookup_insert_ne by done. exists w. by split. }
  apply (IH _ (set_processes_of l x)) in E as (HF & HJ & HL); [|done|apply lookup_insert_eq|].
  - split; [|split; [|done]]; [|rewrite HJ; cbn; by rewrite insert_insert_eq].
    intros q w [->|Hq]%elem_of_cons Hw; [by simplify_eq|]. destruct (Hsame q w Hw) as (v & Hv & _ & Ht & Hd).
    rewrite <- Ht, <- Hd. by apply (HF q).
  - intros q Hq. destruct (Hch q) as (w & Hw & Hwp); [set_solver|]. destruct (Hsame q w Hw) as (v & Hv & Hvp & _).
    exists v. by rewrite Hvp.
Qed.

(** ** Dead jobs *)

Definition dead (o : loc) (s : tasks) : Prop := ∃ y, jobs s !! o = Some y ∧ job_state y = JobDead.

Definition keeps_dead {A} (c : TK A) : Prop := ∀ o s a s', dead o s → c s = Some (a, s') → dead o s'.

Lemma keeps_dead_bind {A B} (c : TK A) (k : A → TK B) : keeps_dead c → (∀ a, keeps_dead (k a)) → keeps_dead (c ≫= k).
Proof. intros Hc Hk o s b s' Hs (a & s1 & E1 & E2)%bind_inv. by eapply Hk, E2; eapply Hc. Qed.

Lemma keeps_dead_jobs {A} (c : TK A) : (∀ s a s', c s = Some (a, s') → jobs s' = jobs s) → keeps_dead c.
Proof. intros Hc o s a s' (y & Hy & Hd) E. exists y. by rewrite (Hc _ _ _ E). Qed.

Lemma keeps_dead_read {A} j (k : job → TK A) :
  (∀ x o s a s', jobs s !! j = Some x → dead o s → k x s = Some (a, s') → dead o s') → keeps_dead (x ← get_job j; k x).
Proof. intros Hk o s a s' Hs E. apply bind_inv in E as (x & t & [Hx ->]%get_job_inv & E). by eapply Hk. Qed.

Lemma put_same_state j x y o s :
  jobs s !! j = Some x → (job_state x = JobDead → job_state y = JobDead) → dead o s →
  dead o (Tasks (<[j := y]> (jobs s)) (procs s) (task_locks s) (sched s)).
Proof.
  intros Hx Hy (z & Hz & Hd). destruct (decide (o = j)) as [->|].
  - exists y. split; [apply lookup_insert_eq|]. apply Hy. by simplify_eq.
  - exists z. cbn. by rewrite lookup_insert_ne.
Qed.

Lemma keeps_dead_lock o : keeps_dead (lock o).
Proof. apply keeps_dead_jobs. by intros s a s' [_ ->]%lock_inv. Qed.

Lemma keeps_dead_unlock o : keeps_dead (unlock o).
Proof. apply keeps_dead_jobs. by intros s a s' [= _ <-]. Qed.

Lemma keeps_dead_get j : keeps_dead (get_job j).
Proof. apply keeps_dead_jobs. by intros s a s' [_ ->]%get_job_inv. Qed.

Lemma keeps_dead_ret {A} (a : A) : keeps_dead (mret a).
Proof. apply keeps_dead_jobs. by intros s b s' [_ <-]%ret_inv. Qed.

Lemma keeps_dead_ready j : keeps_dead (is_ready_for_dead_transition_locked j).
Proof. apply keeps_dead_bind; [apply keeps_dead_get|intros; apply keeps_dead_ret]. Qed.

Lemma keeps_dead_kassert b : keeps_dead (kassert b).
Proof. apply keeps_dead_jobs. intros s a s'. unfold kassert. by destruct b; intros [= _ <-]. Qed.

Lemma keeps_dead_weak w : keeps_dead (lock_weak w).
Proof. apply keeps_dead_jobs. by intros s a s' [= _ <-]. Qed.

Lemma keeps_dead_die j : keeps_dead (upd_job j (set_job_state JobDead)).
Proof. apply keeps_dead_read. intros x o s a s' Hx Hs [= _ <-]. by eapply put_same_state. Qed.

Lemma keeps_dead_fail {A} : keeps_dead (st_fail : TK A).
Proof. done. Qed.

Create HintDb dead discriminated.
#[export] Hint Resolve keeps_dead_lock keeps_dead_unlock keeps_dead_get keeps_dead_ret keeps_dead_ready
  keeps_dead_kassert keeps_dead_weak keeps_dead_die keeps_dead_fail : dead.

Ltac dead_step :=
  match goal with
  | |- keeps_dead (mbind _ _) => apply keeps_dead_bind; [|intros ?]
  | |- keeps_dead (if ?b then _ else _) => destruct b
  | |- keeps_dead (match ?b with _ => _ end) => destruct b
  | |- keeps_dead _ => solve [eauto with dead]
  end.

Lemma keeps_dead_dying fuel :
  (∀ j, keeps_dead (finish_dead_transition_unlocked fuel j)) ∧
  (∀ j, keeps_dead (remove_from_job_trees fuel j)) ∧
  (∀ j c, keeps_dead (remove_child_job fuel j c)).
Proof.
  induction fuel as [|fuel (IHf & IHt & IHc)]; [done|].
  split; [|split]; intros; cbn -[lock_weak upd_job]; unfold get_status; [repeat dead_step..|].
  apply keeps_dead_bind; [repeat dead_step|intros ?]. apply keeps_dead_read. intros x o s a' s' Hx Hs E.
  case_decide; [by eapply keeps_dead_unlock|]. apply bind_inv in E as (?u & ?t & [= _ <-] & E). revert E.
  match goal with |- ?c ?t = _ → _ => assert (keeps_dead c) as Hc by repeat dead_step end.
  eapply Hc, put_same_state; done.
Qed.

Lemma finish_ok fuel j x s d s' :
  jobs s !! j = Some x → finish_dead_transition_unlocked fuel j s = Some (d, s') →
  (∃ k, job_parent x = Some k ∧ is_Some (jobs s !! k)) ∧ dead j s'.
Proof.
  intros Hx E. destruct fuel as [|fuel]; [done|]. cbn -[lock_weak upd_job remove_from_job_trees] in E.
  rewrite (bind_run _ _ _ x s) in E by by apply get_job_run. unfold lock_weak at 1 in E.
  apply bind_inv in E as (w & t & [= <- <-] & E). apply bind_inv in E as (?u & t1 & E1 & E).
  assert (jobs t1 = jobs s) as H1.
  { destruct (job_parent x) as [k|]; [|by apply ret_inv in E1 as [_ <-]]. case_decide; [|by apply ret_inv in E1 as [_ <-]].
    apply bind_inv in E1 as (st & t2 & E2 & E1). unfold get_status in E2. apply bind_inv in E2 as (?u & ?t & [_ ->]%lock_inv & E2).
    apply bind_inv in E2 as (?y & ?t & [_ ->]%get_job_inv & E2). apply bind_inv in E2 as (?u & ?t & [= _ <-] & E2).
    apply ret_inv in E2 as [_ <-]. unfold kassert in E1. case_match; [|done]. by injection E1 as _ <-. }
  apply bind_inv in E as (?u & ?t & [_ ->]%lock_inv & E). apply bind_inv in E as (?u & ?t & E2 & E).
  unfold upd_job in E2. rewrite (bind_run _ _ _ x _) in E2 by (apply get_job_run; cbn; by rewrite H1).
  injection E2 as _ <-. apply bind_inv in E as (?u & ?t & [= _ <-] & E). apply bind_inv in E as (?u & ?t & E3 & E).
  apply ret_inv in E as [_ <-]. split.
  - destruct fuel as [|fuel]; [done|]. cbn -[lock_weak remove_child_job] in E3.
    rewrite (bind_run _ _ _ (set_job_state JobDead x) _) in E3 by (apply get_job_run; apply lookup_insert_eq).
    apply bind_inv in E3 as (w & ?t & [= <- <-] & E3). cbn in E3. destruct (job_parent x) as [k|]; [|done].
    case_decide as Hk; [|done]. exists k. split; [done|]. rewrite H1 in Hk. by apply lookup_insert_is_Some in Hk as [<-|[_ ?]].
  - destruct (keeps_dead_dying fuel) as (_ & HK & _). eapply HK, E3.
    exists (set_job_state JobDead x). split; [apply lookup_insert_eq|done].
Qed.

(** ** Killing a job *)

(** The children of a job name it as their parent. *)
Definition parented (s : tasks) (j : loc) (x : job) : Prop :=
  (∀ c, c ∈ child_jobs_ x → ∃ y, jobs s !! c = Some y ∧ job_parent y = Some j) ∧
  ∀ p, p ∈ child_processes_ x → ∃ y, procs s !! p = Some y ∧ proc_parent y = Some j.

Lemma job_kill_true fuel j code s s' x :
  jobs s !! j = Some x → parented s j x → job_state x = JobReady → job_kill fuel j code s = Some (true, s') →
  (∃ k, job_parent x = Some k ∧ is_Some (jobs s !! k)) ∧
  (∀ c y, c ∈ child_jobs_ x → jobs s !! c = Some y → job_state y ≠ JobReady) ∧
  (∀ p y, p ∈ child_processes_ x → procs s !! p = Some y → proc_status y = ProcDead ∨ proc_threads y ≠ []) ∧
  dead j s'.
Proof.
  intros Hx [Hcj Hcp] Hst E. destruct fuel as [|fuel]; [done|].
  apply job_kill_cases in E as (x' & Hx' & Hl & [(? & ? & _)|(_ & _ & s1 & s2 & d & E1 & E2 & Hx2 & E)]); simplify_eq.
  set (x1 := set_job_state JobKilling (set_job_ret code x)) in *.
  eapply (kill_child_jobs_under _ _ x1) in E1 as [Hj ->]; [|cbn; set_solver|apply lookup_insert_eq|]; cycle 1.
  { intros c Hc. destruct (Hcj c Hc) as (y & Hy & Hp). destruct (decide (c = j)) as [->|].
    - exists x1. split; [apply lookup_insert_eq|]. by simplify_eq.
    - exists y. cbn. by rewrite lookup_insert_ne. }
  cbn in E2. rewrite insert_insert_eq in E2.
  eapply (kill_child_processes_under _ _ (set_jobs_of [] x1)) in E2 as (Hp & HJ & HL);
    [|cbn; set_solver|apply lookup_insert_eq|done]. cbn in HJ, HL, Hp. rewrite insert_insert_eq in HJ.
  eapply finish_ok in E as [(k & Hk & Hks) Hd]; [|exact Hx2]. split_and!; [|..|done|done].
  - exists k. split; [done|]. cbn in Hks. rewrite HJ in Hks. apply lookup_insert_is_Some in Hks as [<-|[_ ?]]; [by rewrite Hx|done].
  - intros c y Hc Hy. destruct (Hj c Hc) as [Hne Hr]. apply Hr. cbn. by rewrite lookup_insert_ne.
Qed.

(** C33: [job::kill] cannot take a tree down.  It kills the children with the
    job's lock held, and the death of a child takes that lock again: when a
    child job is [READY], or a child process has no thread left and is not dead
    - and likewise when the job has no parent, which is dereferenced - the call
    does not return, however long it runs. *)
Theorem job_kill_stops fuel j code s x :
  jobs s !! j = Some x → parented s j x → job_state x = JobReady →
  (∃ c y, c ∈ child_jobs_ x ∧ jobs s !! c = Some y ∧ job_state y = JobReady) ∨
  (∃ p y, p ∈ child_processes_ x ∧ procs s !! p = Some y ∧ proc_status y ≠ ProcDead ∧ proc_threads y = []) ∨
  job_parent x = None →
  job_kill fuel j code s = None.
Proof.
  intros Hx HP Hst Hbad. destruct (job_kill fuel j code s) as [[b s']|] eqn:E; [exfalso|done].
  assert (b = true) as ->.
  { destruct fuel as [|fuel]; [done|]. by apply job_kill_cases in E as (? & ? & _ & [(? & _)|(_ & ? & _)]); simplify_eq. }
  destruct (job_kill_true _ _ _ _ _ _ Hx HP Hst E) as ((k & Hk & _) & Hj & Hp & _).
  destruct Hbad as [(c & y & Hc & Hy & Hr)|[(p & y & Hpc & Hy & Hnd & Ht)|Hn]]; [by eapply Hj|by destruct (Hp p y)|congruence].
Qed.

Lemma lock_run o s : (o ∉ task_locks s) → lock o s = Some (tt, Tasks (jobs s) (procs s) ({[o]} ∪ task_locks s) (sched s)).
Proof. intros. unfold lock. by rewrite decide_False. Qed.

Lemma lock_weak_run k s : is_Some (jobs s !! k) → lock_weak (Some k) s = Some (Some k, s).
Proof. intros. unfold lock_weak. by rewrite decide_True. Qed.

Lemma get_status_run k z s : jobs s !! k = Some z → (k ∉ task_locks s) → get_status k s = Some (job_state z, s).
Proof.
  intros Hz Hk. unfold get_status. rewrite (bind_run _ _ _ _ _ (lock_run _ _ Hk)).
  rewrite (bind_run _ _ _ z _) by by apply get_job_run. rewrite (bind_run _ _ _ tt _ eq_refl).
  cbn. rewrite unlock_lock by done. by destruct s.
Qed.

(** [remove_child_job] of a job that is not being killed. *)
Lemma remove_child_job_ready fuel k z c s :
  jobs s !! k = Some z → job_state z = JobReady → (k ∉ task_locks s) →
  remove_child_job (S fuel) k c s =
    Some (tt, Tasks (<[k := set_jobs_of (filter (λ d, d ≠ c) (child_jobs_ z)) z]> (jobs s)) (procs s) (task_locks s) (sched s)).
Proof.
  intros Hz Hst Hk. cbn [remove_child_job]. rewrite (bind_run _ _ _ _ _ (lock_run _ _ Hk)).
  rewrite (bind_run _ _ _ z _) by by apply get_job_run. case_decide as Hc.
  - unfold unlock. cbn. rewrite unlock_lock by done.
    assert (filter (λ d, d ≠ c) (child_jobs_ z) = child_jobs_ z) as -> by by apply filter_absent.
    assert (set_jobs_of (child_jobs_ z) z = z) as -> by by destruct z. by rewrite insert_id.
  - rewrite (bind_run _ _ _ tt _ eq_refl). rewrite (bind_run _ _ _ false (Tasks (<[k := set_jobs_of (filter (λ d, d ≠ c) (child_jobs_ z)) z]> (jobs s)) (procs s) ({[k]} ∪ task_locks s) (sched s))).
    + rewrite (bind_run _ _ _ tt _ eq_refl). cbn. by rewrite unlock_lock by done.
    + unfold is_ready_for_dead_transition_locked. rewrite (bind_run _ _ _ _ _ (get_job_run _ _ _ (lookup_insert_eq _ _ _))).
      cbn. by rewrite Hst.
Qed.

(** The death of a job below a parent that is not being killed. *)
Lemma finish_ready fuel j k x z s :
  jobs s !! j = Some x → job_parent x = Some k → jobs s !! k = Some z → job_state z = JobReady →
  (j ∉ task_locks s) → (k ∉ task_locks s) → j ≠ k →
  finish_dead_transition_unlocked (3 + fuel) j s = Some (false,
    Tasks (<[k := set_jobs_of (filter (λ d, d ≠ j) (child_jobs_ z)) z]> (<[j := set_job_state JobDead x]> (jobs s)))
      (procs s) (task_locks s) (sched s)).
Proof.
  intros Hx Hp Hz Hst Hj Hk Hne. cbn -[lock_weak get_status upd_job remove_child_job].
  rewrite (bind_run _ _ _ x s), Hp by by apply get_job_run. rewrite (bind_run _ _ _ _ _ (lock_weak_run k s ltac:(by rewrite Hz))).
  rewrite (bind_run _ _ _ tt s) by (rewrite (bind_run _ _ _ _ _ (get_status_run k z s Hz Hk)); by rewrite Hst).
  rewrite (bind_run _ _ _ _ _ (lock_run _ _ Hj)). unfold upd_job.
  rewrite (bind_run _ _ _ tt (Tasks (<[j := set_job_state JobDead x]> (jobs s)) (procs s) ({[j]} ∪ task_locks s) (sched s)))
    by by rewrite (bind_run _ _ _ x _) by by apply get_job_run.
  rewrite (bind_run _ _ _ tt _ eq_refl). cbn [jobs procs task_locks sched]. rewrite unlock_lock by done.
  set (t := Tasks (<[j := set_job_state JobDead x]> (jobs s)) _ _ _).
  assert (jobs t !! k = Some z) as Hz' by (cbn; by rewrite lookup_insert_ne).
  assert (jobs t !! j = Some (set_job_state JobDead x)) as Hx' by apply lookup_insert_eq.
  erewrite bind_run; [done|]. rewrite (bind_run _ _ _ _ _ (get_job_run _ _ _ Hx')). cbn [job_parent set_job_state]. rewrite Hp.
  rewrite (bind_run _ _ _ _ _ (lock_weak_run k t ltac:(by rewrite Hz'))). exact (remove_child_job_ready _ k z j t Hz' Hst Hk).
Qed.

(** C26: killing a [READY] job without children below a [READY] parent works:
    the call returns, the job is dead with the return code it was killed with,
    it is no longer among the parent's children, and nothing else has changed -
    no lock is left held. *)
Theorem kill_leaf_job fuel j k code s x z :
  jobs s !! j = Some x → job_state x = JobReady → child_jobs_ x = [] → child_processes_ x = [] →
  job_parent x = Some k → jobs s !! k = Some z → job_state z = JobReady →
  (j ∉ task_locks s) → (k ∉ task_locks s) → j ≠ k → (4 <= fuel)%nat →
  job_kill fuel j code s = Some (true,
    Tasks (<[k := set_jobs_of (filter (λ d, d ≠ j) (child_jobs_ z)) z]>
            (<[j := Job (policy_ x) (Some k) code JobDead [] [] (max_height_ x)]> (jobs s))) (procs s) (task_locks s) (sched s)).
Proof.
  intros Hx Hst Hcj Hcp Hp Hz Hzst Hjl Hkl Hne Hf. do 4 (destruct fuel as [|fuel]; [lia|]).
  cbn -[finish_dead_transition_unlocked is_ready_for_dead_transition_locked].
  rewrite (bind_run _ _ _ _ _ (lock_run _ _ Hjl)), (bind_run _ _ _ x _) by by apply get_job_run.
  rewrite decide_False by (by rewrite Hst; intros []). set (x1 := set_job_state JobKilling (set_job_ret code x)).
  rewrite (bind_run _ _ _ tt _ eq_refl). set (s1 := Tasks (<[j := x1]> (jobs s)) (procs s) ({[j]} ∪ task_locks s) (sched s)).
  assert (jobs s1 !! j = Some x1) as H1 by apply lookup_insert_eq.
  rewrite (bind_run _ _ _ tt s1) by (rewrite (bind_run _ _ _ x1 s1) by (by apply get_job_run); cbn; by rewrite Hcj).
  rewrite (bind_run _ _ _ tt s1) by (rewrite (bind_run _ _ _ x1 s1) by (by apply get_job_run); cbn; by rewrite Hcp).
  rewrite (bind_run _ _ _ true s1) by (by eapply ready_killing). rewrite (bind_run _ _ _ tt _ eq_refl). cbn [jobs procs task_locks sched s1].
  rewrite unlock_lock by done.
  rewrite (bind_run _ _ _ _ _ (finish_ready fuel j k x1 z (Tasks (<[j := x1]> (jobs s)) (procs s) (task_locks s) (sched s)) ltac:(apply lookup_insert_eq) Hp ltac:(cbn; by rewrite lookup_insert_ne) Hzst Hjl Hkl Hne)).
  cbn. rewrite insert_insert_eq. unfold x1, set_job_state, set_job_ret. cbn. by rewrite Hp, Hcj, Hcp.
Qed.

(** ** Witnesses *)

(** A root with a job below it, which has a job and a process without threads. *)
Definition ex_root : job := Job creat_root_policy None TASK_RETCODE_NORMAL JobReady [2] [] JOB_MAX_HEIGHT.
Definition ex_middle : job := Job creat_root_policy (Some 1) TASK_RETCODE_NORMAL JobReady [3] [10] (JOB_MAX_HEIGHT - 1).
Definition ex_leaf : job := Job creat_root_policy (Some 2) TASK_RETCODE_NORMAL JobReady [] [] (JOB_MAX_HEIGHT - 2).
Definition ex_tree : tasks :=
  Tasks {[1 := ex_root; 2 := ex_middle; 3 := ex_leaf]} {[10 := Process ProcRunning (Some 2) None false [] 0 0]} ∅
    (Sys ∅ 0 ∅ 0 ∅ ∅ ∅).

Lemma job_kill_stops_witness : job_kill 100 2 4 ex_tree = None.
Proof.
  apply (job_kill_stops 100 2 4 ex_tree ex_middle); [reflexivity| |reflexivity|].
  - split; [intros c ->%list_elem_of_singleton; by exists ex_leaf|].
    intros p ->%list_elem_of_singleton. eexists. split; [reflexivity|done].
  - left. exists 3, ex_leaf. split; [by apply list_elem_of_singleton|done].
Defined.

Lemma kill_leaf_job_witness :
  job_kill 4 3 9 ex_tree = Some (true,
    Tasks (<[2 := set_jobs_of [] ex_middle]> (<[3 := Job creat_root_policy (Some 2) 9 JobDead [] [] (JOB_MAX_HEIGHT - 2)]> (jobs ex_tree)))
      (procs ex_tree) ∅ (sched ex_tree)).
Proof. rewrite (kill_leaf_job 4 3 2 9 ex_tree ex_leaf ex_middle); try done; try apply not_elem_of_empty. Defined.
